(* ===== verification/_CoqProject ===== *)
-Q . S2P
Prelude.v
Base.v
Nonce.v
TIP403.v
StorageSet.v
AddressRegistry.v
Keychain.v
KeychainScopes.v
TIP20Ledger.v
TIP20.v
TIP20Props.v
TIP20Admin.v
TIP20Quotes.v
TIP20Runs.v
TIP20Holdings.v
FeeManager.v
FeeManagerProps.v
FeeSolvency.v
FeeRuns.v
OrderBook.v
OrderBookProps.v
Dex.v
DexBooks.v
DexFills.v
DexSolvency.v
DexMatching.v
DexRoutes.v
DexHistory.v
DexTermination.v
DexProps.v
DexRuns.v
NetAddr.v
NetAddrProps.v
ValidatorConfig.v
ValidatorConfigV2.v
ValidatorRegistry.v
ValidatorOps.v
ValidatorHistory.v
ValidatorMigration.v
ValidatorLimits.v
ValidatorRuns.v
StorageWords.v
StorageTypes.v
StorageLayout.v
StorageLaws.v
StorageBytes.v
StorageStructs.v
StorageVecs.v
StorageArrays.v
StorageContracts.v
StorageRuns.v
TxPool.v
TxPoolReady.v
TxPoolPending.v
TxPoolOrder.v
TxPoolProps.v
TxPoolNode.v
TxPoolHistory.v
TxPoolChain.v
TxPoolBlocks.v
TxPoolMiner.v
TxPoolRuns.v
EvmStorage.v
EvmProvider.v
EvmLaws.v
EvmScopes.v
EvmFrame.v
EvmOps.v
EvmBill.v
EvmSim.v
Dispatch.v
Precompiles.v
DispatchProps.v
ErrorRegistry.v
EvmRuns.v
