(* ===== verification/Prelude.v ===== *)
(** * Verification of the SwissLedger precompiles

    The repository is a fork of Foundry for a payment chain.  What is its own, and what carries
    its value, are the precompiled contracts of [src/crates/tempo-precompiles/src]: tokens, transfer
    policies, access keys, nonces, fees, an exchange and the registry of validators.  This library models them
    as functions on their typed storage, the storage layer they are written on, the providers through
    which that layer reaches the chain, and the dispatch of calls to them, and proves
    the properties that make them correct.  It also models the transaction pool of the development
    node Anvil ([src/crates/anvil/src/eth/pool]) with its users, where transactions wait before they reach the precompiles.

    ** The program and the model

    A precompile is a Rust struct of storage slots and methods that return [Result].  Here its
    storage is a record of finite maps ([gmap], absent entries read as zero: [m.[k]]), and a
    method is a computation of the monad [M S A] of [Base.v]: it reads the environment (block
    time, hard fork, chain id), threads the storage and the event log, and returns a value or an
    error.  The storage is returned on errors too, as in the code; [atomically] is the revert of
    a failed call and [checkpoint] the guard of that name.  Unsigned integers are [Z] with checked, saturating
    and wrapping operations at their width.  Code outside the repository (hashing, ABI encoding, signature
    recovery, the address classes of the primitives crate) is the class [Primitives]; theorems
    that rely on more than its types state it as hypotheses, and the files [*Runs.v] instantiate them.

    Components call each other as the code does: tokens ask the policy registry, the address
    registry and the keychain; the fee manager and the exchange hold and move tokens.  [World]
    ([TIP20.v]) is the storage the tokens share, [FeeWorld] and [DexWorld] add the fee manager
    and the exchange to it.

    Below the typed storage, a method is a program of [Prog] ([EvmStorage.v]), a tree of the operations of the trait
    [PrecompileStorageProvider], and a provider executes one operation: the EVM's charges gas and reaches the
    journal, the in-memory one of the tests keeps maps.  The journal, the gas tracker and the gas
    schedule are revm's: the class [Revm], with [RevmLaws] for what the precompiles rely on and an instance that
    satisfies it.  Above the methods, a call decodes its bytes, is checked against the selectors of the hard fork, runs a
    method, and its result becomes an output with its gas ([Dispatch.v]); the decoders and encoders that [sol!]
    generates are the classes [Abi] and those of [Precompiles.v].  Dispatch is generic in the context of the call
    ([CallContext]): the EVM's provider, the in-memory one, or the typed storage of a component.

    The pool is plain Rust data behind a lock: its operations are computations of [PM]
    ([TxPool.v]) on the record [PoolInner], which return a value, a [PoolError] or a panic.  Hash maps are [gmap]s
    iterated in an unknown order (class [HashOrder]), the ordered set is a sorted list.  The
    RPC handlers make the transactions, the miner takes ready ones, the executor loop runs them on an
    EVM (class [BlockExecutor], with [ExecutorLaws] for what blocks rely on: nonces are unsigned, and the nonce of a transaction
    that is neither a Tempo transaction nor a deposit is checked) and reports the block back to the pool.

    ** Files

    - [Prelude.v]: integers, map reads, sums over maps and their lemmas.  [Base.v]: addresses,
      errors ([error.rs]), events, environment, the monad, inversion lemmas and tactics.
    - [Nonce.v] ([nonce/mod.rs]): two-dimensional nonces and the ring of expiring nonces.
    - [TIP403.v] ([tip403_registry/mod.rs]): transfer policies, simple and compound.
    - [StorageSet.v] ([storage/types/set.rs]): the enumerable set, refined to a finite set.
    - [AddressRegistry.v] ([address_registry/mod.rs]): virtual addresses.
    - [Keychain.v], [KeychainScopes.v] ([account_keychain/mod.rs]): access keys, spending limits with
      periods, call scopes.
    - [TIP20Ledger.v], [TIP20.v] ([tip20/mod.rs], [rewards.rs], [roles.rs], [tip20_factory/mod.rs]): the
      token.  [TIP20Ledger.v] has balances, supply and rewards of one token; [TIP20.v] the
      operations with their checks, roles, quote tokens and the factory.  Theorems: [TIP20Props.v]
      (supply, rewards, transfers, pause), [TIP20Admin.v] (allowances, roles), [TIP20Quotes.v] (the tree of
      quote tokens), [TIP20Holdings.v] (what a precompile account holds), [TIP20Runs.v] (concrete runs).
    - [FeeManager.v] ([tip_fee_manager/mod.rs], [amm.rs]): fees and the fee pools.  Theorems:
      [FeeManagerProps.v] (shares, LP supply, reservations), [FeeSolvency.v] (solvency), [FeeRuns.v].
    - [OrderBook.v] ([stablecoin_dex/order.rs], [orderbook.rs]): prices, orders, tick levels and bitmaps;
      [OrderBookProps.v] has the bitmap search, prices and conversions.
    - [Dex.v] ([stablecoin_dex/mod.rs]): the exchange.  [DexBooks.v]: the invariant [Books] of linked lists, totals,
      bitmaps and best ticks, and each list operation on it.  [DexFills.v]: each operation as a
      change of queues, balances and tokens.  [DexSolvency.v]: what the exchange owes, and that an
      operation keeps its margin ([effect]).  [DexMatching.v]: the filling loops against matching along a
      list ([match_in], [match_out]).  [DexRoutes.v]: routes and swaps.  [DexHistory.v]: histories of calls
      ([dex_reach]) and the invariant along them.  [DexTermination.v]: fuel.  [DexProps.v]: the theorems.
      [DexRuns.v]: concrete runs.

    - [NetAddr.v]: the parser and printer of network addresses of the standard library, as
      [ip_validation.rs] uses them; [NetAddrProps.v] has the round trip.
    - [ValidatorConfig.v] ([validator_config/mod.rs]) and [ValidatorConfigV2.v] ([validator_config_v2/mod.rs]): the two
      validator registries and the migration between them.  [ValidatorRegistry.v]: the parts of the
      invariant and how each changes; [ValidatorOps.v]: the operations on it; [ValidatorHistory.v]:
      histories of calls to both registries; [ValidatorMigration.v]: the migration as a whole;
      [ValidatorLimits.v]: over-long endpoints; [ValidatorRuns.v]: concrete histories.
    - The storage layer under all of them.  [StorageWords.v] ([storage/packing.rs]): packed fields of a
      word and the primitive types.  [StorageTypes.v] ([storage/types]): byte strings, vectors, arrays,
      mappings, enums, over any [StorageOps].  [StorageLayout.v] ([tempo-precompiles-macros/src]): what the
      macros compute and generate for structs and contracts.  [StorageLaws.v]: the classes of lawful
      storage and lawful types, with the instances of the primitives; [StorageBytes.v],
      [StorageStructs.v], [StorageVecs.v], [StorageArrays.v], [StorageContracts.v]: the theorems; a struct of lawful
      fields is itself lawful, so that they apply to nested ones.  [StorageRuns.v]: the structs of
      the precompiles.
    - The pool.  [TxPool.v] ([pool/transactions.rs], [pool/mod.rs]): both parts of the pool, the iterator, the markers.
      [TxPoolReady.v], [TxPoolPending.v]: the invariant of each part and each operation on it; [TxPoolOrder.v]: the
      iterator against its specification [yields]; [TxPoolProps.v]: the whole pool, with the transactions that move
      between its parts.  [TxPoolNode.v] ([eth/api.rs], [eth/miner.rs], [backend/executor.rs], [backend/mem/mod.rs]): the users of the
      pool.  [TxPoolHistory.v]: histories of operations; [TxPoolChain.v]: the pool and the nonce of one account;
      [TxPoolBlocks.v]: histories of pool and chain as that account sees them; [TxPoolMiner.v]: the modes of the miner; [TxPoolRuns.v]: concrete runs.
    - The providers.  [EvmStorage.v] ([storage/mod.rs], the guards of [thread_local.rs]): the class [Revm], the trait and
      the programs against it.  [EvmProvider.v] ([storage/evm.rs], [hashmap.rs]): the two providers.  [EvmLaws.v]: the laws of revm and
      an instance.  [EvmScopes.v]: programs whose guards nest ([Scoped]) and the books of the gas tracker ([metered]);
      [EvmFrame.v]: what operations leave unchanged; [EvmOps.v]: each operation of the EVM's provider, and guards;
      [EvmBill.v]: what the operations of a method are charged, from the gas schedule;
      [EvmSim.v]: the in-memory provider against the EVM's.
    - Calls.  [Dispatch.v] ([lib.rs], [error.rs], the outputs of [thread_local.rs]): wrappers, selector schedules, gas of an
      output.  [Precompiles.v] ([*/dispatch.rs], [signature_verifier], [tempo-contracts-stub/src/precompiles]): the
      interfaces and the call of each precompile, the lookup of addresses and the guard against delegate calls.
      [DispatchProps.v]: the theorems.  [ErrorRegistry.v] ([error.rs]): the decoders of revert bytes.  [EvmRuns.v]: concrete
      runs of all of these.

    ** What the theorems show

    - Conservation: the balances of a token add up to its supply after any history; LP supply
      adds up to the holders' shares.
    - Solvency: the fee manager and the exchange always hold the tokens they owe (reserves, collected
      fees and advances; escrows and internal balances).  A claim of rewards pays what was accrued up to the
      balance of the token contract, which covers all rewards unless a token contract was made to pay.
    - Authorization: allowances, roles, policies, keys and scopes change only by the right
      caller; an access key spends at most its limit in a period; revocation is permanent; a
      paused token is frozen; an accepted nonce cannot be replayed.
    - Refinement: the policy check, the stored set, the stored vector, the bitmap search and the filling of orders
      agree with reference definitions (a function of the policy, a finite set, a list, a linear scan, matching
      in price-time priority); the batched store of a struct is that of its fields one by one.
    - Registry: the tables of the second validator registry agree with its records, the
      validators of a past block can be recovered from them, deactivation is final, and the
      migration completes for up to 255 validators and not for more.
    - Storage: fields of a word, of a struct and of a contract never overlap; what is stored is
      loaded back; deletion leaves no residue; nothing else is touched.
    - Pool: no history of operations makes it panic, hang or report a cycle; an added transaction is ready, waits
      or is refused as its requirement and its marker say.  For an account whose nonce moves with its own mined transactions,
      the ready transactions carry the nonces that follow the account's, in the order of the iterator, whatever the other
      accounts do; the miner takes a prefix of them; the pending nonce is the nonce after them.
    - Providers and calls: a method in a checkpoint guard changes everything or nothing and resolves its checkpoints in
      order; what runs on the EVM's provider runs alike on the in-memory one, if it writes neither transient storage nor code
      inside a guard; a call pays exactly its bill ([call_bill]), computed from the operations of the
      method and the gas schedule, and a revert gives the state gas back; a static call writes nothing; the functions of
      later hard forks, and no others, revert as unknown selectors; revert bytes are decoded by the last interface registered for their selector.
    - Liveness and termination: a fee swap checked before a transaction cannot be starved by it; a maker
      can always cancel; the quote-token walk and the loops of the exchange end.
    - Where code and documentation disagree, theorems show what the code does.

    ** Bounds and fuel

    A loop that is not structural takes fuel and fails with [OutOfGas] without it, an error no modelled
    operation raises otherwise.  [quote_walk] and [path_to_root] have one step per deployed token
    ([TIP20Quotes.v]); the bitmap search [WORD_FUEL] = 137 words, enough for any [i16]
    ([next_initialized_tick_linear]); the filling loops one step per stored order and the quoting loops one per tick
    ([dex_loops_terminate]).  Histories of the exchange start at hard fork T1C, where [checkpoint] takes
    effect; before it a failed flip can leave a partial change.  Order identifiers do not wrap: 2^128
    orders are never placed.  A Rust panic is the error [Aborted].  The storage theorems assume that the
    hashed data slots of a string or a vector do not hit its own base slot, and that a struct has fewer
    than 2^64 slots.  The loops of the pool take one step per transaction in it and fail with [NoFuel] otherwise,
    which [pool_runs_safely] excludes; its identifiers do not wrap in histories of fewer than 2^64 steps.  The
    histories of pool and chain ([TxPoolBlocks.v]) follow one account.  They ask that its nonce changes only as its own
    transactions are mined, by one each (so not by an EIP-7702 authorization that it signed, nor by [anvil_setNonce]), and that it submits
    no stale transaction of the kinds whose nonce the node does not check: Tempo transactions and deposits.  Nothing is asked of
    other accounts.  Transactions come by [eth_sendRawTransaction], and blocks are made of transactions that are ready then.

    ** Not modelled

    Signature formats and their recovery, Ed25519, ABI encoding, and the base set of precompiles that the lookup extends, are
    parameters or outside the model, and so are the setters of the in-memory provider that only tests use.  The precompiles
    are modelled on their typed storage, where gas is not metered, and the storage layer and the providers on words;
    that a map of the former is a [Mapping] of the latter relies on the hash having no collisions,
    and is not stated.  Of Anvil, the listeners of the pool, the block producer with its queue, the
    validation of transactions and the rest of the RPC server and backend.  The other Foundry tools (forge, cast,
    chisel, cheatcodes, fmt, lint and their support crates) are front ends of external libraries (revm, solar,
    alloy) and are not part of the model.  Users' histories of the exchange do not interleave
    the fee payments of the transaction handler, which never debit the exchange. *)
From Stdlib Require Import ZArith Lia.
From stdpp Require Import base tactics option list fin_maps gmap.
Open Scope Z_scope.

(** ** Machine integers

    An integer of width [w] is a [Z]; the checked and saturating operations
    below are those of Rust's [uN] types and of [alloy]'s [U256]. *)
Definition U8_MAX : Z := Eval cbv in 2 ^ 8 - 1.
Definition U32_MAX : Z := Eval cbv in 2 ^ 32 - 1.
Definition U64_MAX : Z := Eval cbv in 2 ^ 64 - 1.
Definition U128_MAX : Z := Eval cbv in 2 ^ 128 - 1.
Definition U256_MAX : Z := Eval cbv in 2 ^ 256 - 1.

Definition wrap (max v : Z) : Z := v mod (max + 1).

Definition checked_add (max a b : Z) : option Z :=
  if a + b <=? max then Some (a + b) else None.
Definition checked_sub (a b : Z) : option Z :=
  if b <=? a then Some (a - b) else None.
Definition checked_mul (max a b : Z) : option Z :=
  if a * b <=? max then Some (a * b) else None.
Definition checked_div (a b : Z) : option Z :=
  if b =? 0 then None else Some (a / b).
Definition try_into (max a : Z) : option Z :=
  if a <=? max then Some a else None.

Definition saturating_add (max a b : Z) : Z := Z.min max (a + b).
Definition saturating_sub (a b : Z) : Z := Z.max 0 (a - b).
Definition saturating_mul (max a b : Z) : Z := Z.min max (a * b).

(** [U256::div_ceil]. *)
Definition div_ceil (a b : Z) : Z :=
  if a mod b =? 0 then a / b else a / b + 1.

(** ** Results *)
Inductive result (E A : Type) : Type :=
| Ok (a : A)
| Err (e : E).
Global Arguments Ok {E A} a.
Global Arguments Err {E A} e.

Global Instance result_ret E : MRet (result E) := λ A a, Ok a.
Global Instance result_bind E : MBind (result E) := λ A B f m,
  match m with Ok a => f a | Err e => Err e end.

Definition is_ok {E A} (r : result E A) : bool :=
  match r with Ok _ => true | Err _ => false end.

Lemma result_bind_ok {E A B} (m : result E A) (f : A → result E B) b :
  (m ≫= f) = Ok b ↔ ∃ a, m = Ok a ∧ f a = Ok b.
Proof. destruct m; cbn; naive_solver. Qed.

(** Rust's [Option::ok_or]. *)
Definition ok_or {E A} (o : option A) (e : E) : result E A :=
  match o with Some a => Ok a | None => Err e end.

Lemma ok_or_ok {E A} (o : option A) (e : E) a : ok_or o e = Ok a ↔ o = Some a.
Proof. destruct o; cbn; naive_solver. Qed.

(** The early return [if !b { return Err(e) }]. *)
Definition ensure {E} (b : bool) (e : E) : result E unit :=
  if b then Ok tt else Err e.

Lemma ensure_ok {E} b (e : E) u : ensure b e = Ok u ↔ b = true.
Proof. destruct b, u; cbn; naive_solver. Qed.

(** ** Arithmetic lemmas *)
Lemma checked_add_Some max a b c :
  checked_add max a b = Some c ↔ c = a + b ∧ a + b ≤ max.
Proof. unfold checked_add. destruct (Z.leb_spec (a + b) max); naive_solver lia. Qed.

Lemma checked_sub_Some a b c : checked_sub a b = Some c ↔ c = a - b ∧ b ≤ a.
Proof. unfold checked_sub. destruct (Z.leb_spec b a); naive_solver lia. Qed.

Lemma checked_mul_Some max a b c :
  checked_mul max a b = Some c ↔ c = a * b ∧ a * b ≤ max.
Proof. unfold checked_mul. destruct (Z.leb_spec (a * b) max); naive_solver lia. Qed.

Lemma checked_div_Some a b c : checked_div a b = Some c ↔ c = a / b ∧ b ≠ 0.
Proof. unfold checked_div. destruct (Z.eqb_spec b 0); naive_solver lia. Qed.

Lemma try_into_Some max a c : try_into max a = Some c ↔ c = a ∧ a ≤ max.
Proof. unfold try_into. destruct (Z.leb_spec a max); naive_solver lia. Qed.

Lemma div_ceil_spec a b : 0 < b → a ≤ div_ceil a b * b < a + b.
Proof.
  intros Hb. unfold div_ceil.
  pose proof (Z.div_mod a b ltac:(lia)). pose proof (Z.mod_pos_bound a b Hb).
  destruct (Z.eqb_spec (a mod b) 0); nia.
Qed.

Lemma div_floor_spec a b : 0 < b → a - b < a / b * b ≤ a.
Proof.
  intros Hb. pose proof (Z.div_mod a b ltac:(lia)).
  pose proof (Z.mod_pos_bound a b Hb). nia.
Qed.

Lemma div_ceil_nonneg a b : 0 < b → 0 ≤ a → 0 ≤ div_ceil a b.
Proof. intros. pose proof (div_ceil_spec a b). nia. Qed.

Lemma div_ceil_le a b c : 0 < b → div_ceil a b ≤ c ↔ a ≤ c * b.
Proof. intros Hb. pose proof (div_ceil_spec a b Hb). split; nia. Qed.

Lemma div_floor_ge a b c : 0 < b → c ≤ a / b ↔ c * b ≤ a.
Proof. intros Hb. pose proof (div_floor_spec a b Hb). split; nia. Qed.

(** ** Membership in lists, decided *)
Section elem.
Context {A : Type} `{EqDecision A}.

Lemma bool_decide_elem_cons (t x : A) (l : list A) :
  bool_decide (t ∈ x :: l) = bool_decide (t = x) || bool_decide (t ∈ l).
Proof. rewrite <- bool_decide_or. apply bool_decide_ext, elem_of_cons. Qed.

Lemma bool_decide_elem_snoc (t x : A) (l : list A) :
  bool_decide (t ∈ l ++ [x]) = bool_decide (t = x) || bool_decide (t ∈ l).
Proof.
  rewrite <- bool_decide_or. apply bool_decide_ext.
  rewrite elem_of_app, list_elem_of_singleton. tauto.
Qed.
End elem.

(** ** Storage mappings

    A Solidity-style [Mapping<K, V>] is a finite map whose unset slots read as
    the zero of the value type. *)
Class Zeroed (A : Type) := zeroed : A.
Global Hint Mode Zeroed ! : typeclass_instances.
Global Instance Z_zeroed : Zeroed Z := 0.
Global Instance bool_zeroed : Zeroed bool := false.

Definition mread {K V} `{Countable K} `{Zeroed V} (m : gmap K V) (k : K) : V :=
  default zeroed (m !! k).

Declare Scope storage_scope.
Delimit Scope storage_scope with storage.
Notation "m .[ k ]" := (mread m k)
  (at level 1, left associativity, format "m .[ k ]") : storage_scope.
Open Scope storage_scope.

Section mapping.
Context {K V : Type} `{Countable K} `{Zeroed V}.
Implicit Types (m : gmap K V) (k : K) (v : V).

Lemma mread_insert_eq m k v : (<[k:=v]> m).[k] = v.
Proof. unfold mread. by rewrite lookup_insert_eq. Qed.

Lemma mread_insert_ne m k k' v : k ≠ k' → (<[k:=v]> m).[k'] = m.[k'].
Proof. intros. unfold mread. by rewrite lookup_insert_ne. Qed.

Lemma mread_insert m k k' v :
  (<[k:=v]> m).[k'] = if decide (k = k') then v else m.[k'].
Proof. case_decide; subst; [apply mread_insert_eq | by apply mread_insert_ne]. Qed.

Lemma mread_delete_eq m k : (delete k m).[k] = zeroed.
Proof. unfold mread. by rewrite lookup_delete_eq. Qed.

Lemma mread_delete_ne m k k' : k ≠ k' → (delete k m).[k'] = m.[k'].
Proof. intros. unfold mread. by rewrite lookup_delete_ne. Qed.

Lemma mread_empty k : (∅ : gmap K V).[k] = zeroed.
Proof. unfold mread. by rewrite lookup_empty. Qed.

Lemma mread_lookup m k v : m !! k = Some v → m.[k] = v.
Proof. unfold mread. by intros ->. Qed.
End mapping.

(** ** Sums over a mapping *)
Definition msum {K V} `{Countable K} (f : K → V → Z) (m : gmap K V) : Z :=
  map_fold (λ k v acc, f k v + acc) 0 m.

Section msum.
Context {K V : Type} `{Countable K}.
Implicit Types (m : gmap K V) (k : K) (v : V) (f g : K → V → Z).

Lemma msum_empty f : msum f ∅ = 0.
Proof. apply map_fold_empty. Qed.

Lemma msum_insert_fresh f m k v :
  m !! k = None → msum f (<[k:=v]> m) = f k v + msum f m.
Proof.
  intros Hk. unfold msum.
  rewrite (map_fold_insert_L (λ k v acc, f k v + acc) 0 k v m); [done | lia | done].
Qed.

Lemma msum_delete f m k v :
  m !! k = Some v → msum f m = f k v + msum f (delete k m).
Proof.
  intros Hk. rewrite <- (insert_delete_id m k v Hk) at 1.
  apply msum_insert_fresh, lookup_delete_eq.
Qed.

Lemma msum_insert f m k v :
  msum f (<[k:=v]> m) = msum f m - from_option (f k) 0 (m !! k) + f k v.
Proof.
  destruct (m !! k) as [v0|] eqn:Hk; cbn.
  - rewrite <- insert_delete_eq, msum_insert_fresh by apply lookup_delete_eq.
    rewrite (msum_delete f m k v0 Hk). lia.
  - rewrite msum_insert_fresh by done. lia.
Qed.

Lemma msum_ext f g m :
  (∀ k v, m !! k = Some v → f k v = g k v) → msum f m = msum g m.
Proof.
  induction m as [|k v m Hk IH] using map_ind; intros Hfg; [by rewrite !msum_empty|].
  rewrite !msum_insert_fresh, IH, Hfg; try done.
  - apply lookup_insert_eq.
  - intros k' v' Hk'. apply Hfg. rewrite lookup_insert_ne; naive_solver.
Qed.

Lemma msum_le f g m :
  (∀ k v, m !! k = Some v → f k v ≤ g k v) → msum f m ≤ msum g m.
Proof.
  induction m as [|k v m Hk IH] using map_ind; intros Hfg; [by rewrite !msum_empty|].
  rewrite !msum_insert_fresh by done.
  apply Z.add_le_mono; [apply Hfg, lookup_insert_eq|].
  apply IH. intros k' v' Hk'. apply Hfg. rewrite lookup_insert_ne; naive_solver.
Qed.

Lemma msum_const_0 m : msum (λ _ _, 0) m = 0.
Proof.
  induction m as [|k v m Hk IH] using map_ind; [apply msum_empty|].
  rewrite msum_insert_fresh by done. lia.
Qed.

Lemma msum_nonneg f m : (∀ k v, m !! k = Some v → 0 ≤ f k v) → 0 ≤ msum f m.
Proof. intros Hf. rewrite <- (msum_const_0 m). by apply msum_le. Qed.

Lemma msum_add f g m : msum (λ k v, f k v + g k v) m = msum f m + msum g m.
Proof.
  induction m as [|k v m Hk IH] using map_ind; [by rewrite !msum_empty|].
  rewrite !msum_insert_fresh by done. lia.
Qed.

Lemma msum_scale c f m : msum (λ k v, c * f k v) m = c * msum f m.
Proof.
  induction m as [|k v m Hk IH] using map_ind; [rewrite !msum_empty; lia|].
  rewrite !msum_insert_fresh by done. lia.
Qed.

Context `{Zeroed V}.

(** A write replaces the old contribution of the slot by the new one. *)
Lemma msum_write f m k v :
  f k zeroed = 0 → msum f (<[k:=v]> m) = msum f m - f k m.[k] + f k v.
Proof.
  intros Hz. rewrite msum_insert. unfold mread.
  destruct (m !! k); cbn; lia.
Qed.

Lemma msum_elem_le f m k :
  (∀ k' v', m !! k' = Some v' → 0 ≤ f k' v') → f k zeroed = 0 → f k m.[k] ≤ msum f m.
Proof.
  intros Hf Hz. unfold mread. destruct (m !! k) as [v|] eqn:Hk; cbn.
  - rewrite (msum_delete f m k v Hk).
    enough (0 ≤ msum f (delete k m)) by lia.
    apply msum_nonneg. intros k' v' [_ Hk']%lookup_delete_Some. eauto.
  - rewrite Hz. by apply msum_nonneg.
Qed.

(** Changing the summand at one key only. *)
Lemma msum_refun f g m k :
  (∀ k' v', k' ≠ k → f k' v' = g k' v') → f k zeroed = 0 → g k zeroed = 0 →
  msum g m = msum f m - f k m.[k] + g k m.[k].
Proof.
  intros Hfg Hf Hg. unfold mread. destruct (m !! k) as [v|] eqn:Hk; cbn.
  - rewrite (msum_delete f m k v Hk), (msum_delete g m k v Hk).
    rewrite (msum_ext f g (delete k m)); [lia|].
    intros k' v' [? _]%lookup_delete_Some. naive_solver.
  - rewrite (msum_ext g f m); [lia|]. intros k' v' Hk'. symmetry. apply Hfg.
    intros ->. congruence.
Qed.
End msum.

(** Summing over the images of the values. *)
Lemma msum_fmap {K V W} `{Countable K} (g : W → V) (f : K → V → Z) (m : gmap K W) :
  msum f (g <$> m) = msum (λ k w, f k (g w)) m.
Proof.
  induction m as [|k w m Hk IH] using map_ind; [by rewrite fmap_empty, !msum_empty|].
  rewrite fmap_insert, !msum_insert_fresh, IH; try done. by rewrite lookup_fmap, Hk.
Qed.
