(* ===== verification/Base.v ===== *)
(** * Common vocabulary of the precompiles

    Addresses, the block environment, the error and event types of the
    precompile interfaces ([src/crates/tempo-contracts-stub], [error.rs]), the
    code outside the repository as a class of parameters, and the state-and-error
    monad in which the precompile operations are written. *)
From Stdlib Require Import ZArith Lia String.
From stdpp Require Import base tactics option list fin_maps gmap strings.
From S2P Require Import Prelude.
Open Scope Z_scope.
Open Scope storage_scope.

(** ** Addresses and words *)
Notation Address := Z (only parsing).
Notation B256 := Z (only parsing).

Definition ZERO : Address := 0.
Definition TIP_FEE_MANAGER_ADDRESS : Address := 0xfeec000000000000000000000000000000000000.
Definition PATH_USD_ADDRESS : Address := 0x20C0000000000000000000000000000000000000.
Definition DEFAULT_FEE_TOKEN : Address := PATH_USD_ADDRESS.
Definition TIP403_REGISTRY_ADDRESS : Address := 0x403C000000000000000000000000000000000000.
Definition TIP20_FACTORY_ADDRESS : Address := 0x20FC000000000000000000000000000000000000.
Definition STABLECOIN_DEX_ADDRESS : Address := 0xdec0000000000000000000000000000000000000.
Definition NONCE_PRECOMPILE_ADDRESS : Address := 0x4E4F4E4345000000000000000000000000000000.
Definition ACCOUNT_KEYCHAIN_ADDRESS : Address := 0xAAAAAAAA00000000000000000000000000000000.
Definition ADDRESS_REGISTRY_ADDRESS : Address := 0xFDC0000000000000000000000000000000000000.

Definition USD_CURRENCY : string := "USD".

(** Big-endian bytes of an [n]-byte value. *)
Fixpoint be_bytes (n : nat) (v : Z) : list Z :=
  match n with
  | O => []
  | S n => be_bytes n (v / 256) ++ [v mod 256]
  end.

Definition address_bytes (a : Address) : list Z := be_bytes 20 a.

Definition string_bytes (s : string) : list Z :=
  map (λ c, Z.of_N (Ascii.N_of_ascii c)) (String.list_ascii_of_string s).

(** ** Code outside the repository

    [alloy]'s hash, ABI encoder and ECDSA recovery, and the address predicates
    of the [tempo-primitives] crate. *)
Class Primitives := {
  keccak256 : list Z → B256;
  abi_encode : list Z → list Z;
  abi_encode_packed : list Z → list Z;
  secp256k1_recover : B256 → B256 → bool → B256 → option Address;
  addr_is_tip20 : Address → bool;
  addr_is_virtual : Address → bool;
  addr_is_valid_master : Address → bool;
  addr_decode_virtual : Address → option (Z * Z);
}.

(** The hardfork of [tempo-chainspec], seen through the predicates the
    precompiles ask of it. *)
Record TempoHardfork := mkHardfork {
  is_t0 : bool; is_t1 : bool; is_t1a : bool; is_t1c : bool;
  is_t2 : bool; is_t3 : bool; is_t4 : bool;
}.

(** The block environment a precompile call reads. *)
Record Env := mkEnv {
  spec : TempoHardfork;
  timestamp : Z;
  chain_id : Z;
  block_number : Z;
}.

(** [storage.timestamp().saturating_to::<u64>()]. *)
Definition now_u64 (e : Env) : Z := Z.min U64_MAX (timestamp e).

(** ** Errors *)
Module TIP20Error.
Inductive t :=
| InsufficientBalance (available required : Z) (token : Address)
| InsufficientAllowance | SupplyCapExceeded | InvalidSupplyCap | InvalidPayload
| PolicyForbids | InvalidRecipient | ContractPaused | InvalidCurrency
| InvalidQuoteToken | InvalidAmount | NoOptedInSupply | Unauthorized
| ProtectedAddress | InvalidToken | Uninitialized | InvalidTransferPolicyId
| PermitExpired | InvalidSignature.
End TIP20Error.

Module RolesAuthError.
Inductive t := Unauthorized.
End RolesAuthError.

Module TIP20FactoryError.
Inductive t :=
| AddressReserved | AddressNotReserved | InvalidQuoteToken
| TokenAlreadyExists (token : Address).
End TIP20FactoryError.

Module TIP403Error.
Inductive t :=
| Unauthorized | PolicyNotFound | PolicyNotSimple | InvalidPolicyType
| IncompatiblePolicyType | VirtualAddressNotAllowed.
End TIP403Error.

Module AddrRegistryError.
Inductive t :=
| MasterIdCollision (master : Address) | InvalidMasterAddress
| ProofOfWorkFailed | VirtualAddressUnregistered.
End AddrRegistryError.

Module NonceError.
Inductive t :=
| ProtocolNonceNotSupported | InvalidNonceKey | NonceOverflow
| ExpiringNonceReplay | ExpiringNonceSetFull | InvalidExpiringNonceExpiry.
End NonceError.

Module KeychainError.
Inductive t :=
| UnauthorizedCaller | KeyAlreadyExists | KeyNotFound | KeyExpired
| SpendingLimitExceeded | InvalidSpendingLimit | InvalidSignatureType
| ZeroPublicKey | ExpiryInPast | KeyAlreadyRevoked
| SignatureTypeMismatch (expected actual : Z) | CallNotAllowed | InvalidCallScope
| LegacyAuthorizeKeySelectorChanged (newSelector : Z).
End KeychainError.

Module FeeManagerError.
Inductive t := InvalidToken | InsufficientFeeTokenBalance | CannotChangeWithinBlock.
End FeeManagerError.

Module FeeAMMError.
Inductive t :=
| IdenticalAddresses | InvalidToken | InsufficientLiquidity | InsufficientReserves
| InvalidAmount | DivisionByZero | InvalidSwapCalculation.
End FeeAMMError.

Module DEXError.
Inductive t :=
| Unauthorized | PairDoesNotExist | PairAlreadyExists | OrderDoesNotExist
| IdenticalTokens | InvalidToken | TickOutOfBounds (tick : Z) | InvalidTick
| InvalidFlipTick | InsufficientBalance | InsufficientLiquidity
| InsufficientOutput | MaxInputExceeded | BelowMinimumOrderSize (amount : Z)
| InvalidBaseToken | OrderNotStale.
End DEXError.

Module ValidatorConfigError.
Inductive t :=
| Unauthorized | ValidatorAlreadyExists | ValidatorNotFound | InvalidPublicKey
| NotHostPort (field input backtrace : string) | NotIpPort (field input backtrace : string).
End ValidatorConfigError.

Module ValidatorConfigV2Error.
Inductive t :=
| AlreadyInitialized | IngressAlreadyExists (ingress : string) | EmptyV1ValidatorSet
| InvalidMigrationIndex | InvalidOwner | InvalidPublicKey | InvalidSignature
| InvalidSignatureFormat | InvalidValidatorAddress | MigrationNotComplete | NotInitialized
| NotIp (input backtrace : string) | NotIpPort (input backtrace : string)
| PublicKeyAlreadyExists | Unauthorized | AddressAlreadyHasValidator
| ValidatorAlreadyDeactivated | ValidatorNotFound.
End ValidatorConfigV2Error.

Module SignatureVerifierError.
Inductive t := InvalidFormat | InvalidSignature.
End SignatureVerifierError.

Inductive PanicKind := UnderOverflow | EnumConversionError | ArrayOutOfBounds.

(** [TempoPrecompileError]; [Fatal] carries no message.  The operations of the precompiles are not
    metered (gas is in [EvmStorage.v]): in them
    [OutOfGas] is only the outcome of a loop that exhausts its fuel, which on
    chain is a loop that runs until the gas is spent.  [Aborted] is not an error of the code
    but a Rust panic (a failed [expect]), which ends the execution of the node. *)
Inductive TempoPrecompileError :=
| StablecoinDEX (e : DEXError.t)
| TIP20 (e : TIP20Error.t)
| TIP20Factory (e : TIP20FactoryError.t)
| RolesAuthError (e : RolesAuthError.t)
| AddrRegistryError (e : AddrRegistryError.t)
| TIP403RegistryError (e : TIP403Error.t)
| FeeManagerError (e : FeeManagerError.t)
| TIPFeeAMMError (e : FeeAMMError.t)
| NonceError (e : NonceError.t)
| AccountKeychainError (e : KeychainError.t)
| ValidatorConfigError (e : ValidatorConfigError.t)
| ValidatorConfigV2Error (e : ValidatorConfigV2Error.t)
| SignatureVerifierError (e : SignatureVerifierError.t)
| UnknownFunctionSelector (selector : Z)
| Aborted
| Panic (kind : PanicKind)
| OutOfGas
| Fatal.

Definition under_overflow : TempoPrecompileError := Panic UnderOverflow.

Definition is_system_error (e : TempoPrecompileError) : bool :=
  match e with
  | Panic _ | OutOfGas | Fatal | Aborted => true
  | _ => false
  end.

(** ** Events *)
Inductive PolicyType := WHITELIST | BLACKLIST | COMPOUND | InvalidType.

Module TIP20Event.
Inductive t :=
| Transfer (from to : Address) (amount : Z)
| Approval (owner spender : Address) (amount : Z)
| Mint (to : Address) (amount : Z)
| Burn (from : Address) (amount : Z)
| BurnBlocked (from : Address) (amount : Z)
| TransferWithMemo (from to : Address) (amount : Z) (memo : B256)
| TransferPolicyUpdate (updater : Address) (newPolicyId : Z)
| SupplyCapUpdate (updater : Address) (newSupplyCap : Z)
| PauseStateUpdate (updater : Address) (isPaused : bool)
| NextQuoteTokenSet (updater nextQuoteToken : Address)
| QuoteTokenUpdate (updater newQuoteToken : Address)
| RewardDistributed (funder : Address) (amount : Z)
| RewardRecipientSet (holder recipient : Address).
End TIP20Event.

Inductive Event :=
| ETIP20 (e : TIP20Event.t)
| RoleMembershipUpdated (role : B256) (account sender : Address) (hasRole : bool)
| RoleAdminUpdated (role newAdminRole : B256) (sender : Address)
| TokenCreated (token : Address) (name symbol currency : string)
    (quoteToken admin : Address) (salt : B256)
| PolicyAdminUpdated (policyId : Z) (updater admin : Address)
| PolicyCreated (policyId : Z) (updater : Address) (policyType : PolicyType)
| WhitelistUpdated (policyId : Z) (updater account : Address) (allowed : bool)
| BlacklistUpdated (policyId : Z) (updater account : Address) (restricted : bool)
| CompoundPolicyCreated (policyId : Z) (creator : Address)
    (senderPolicyId recipientPolicyId mintRecipientPolicyId : Z)
| MasterRegistered (masterId : Z) (masterAddress : Address)
| NonceIncremented (account : Address) (nonceKey newNonce : Z)
| KeyAuthorized (account publicKey : Address) (signatureType expiry : Z)
| KeyRevoked (account publicKey : Address)
| SpendingLimitUpdated (account publicKey token : Address) (newLimit : Z)
| AccessKeySpend (account publicKey token : Address) (amount remainingLimit : Z)
| UserTokenSet (user token : Address)
| ValidatorTokenSet (validator token : Address)
| FeesDistributed (validator token : Address) (amount : Z)
| AMMMint (sender to userToken validatorToken : Address)
    (amountValidatorToken liquidity : Z)
| AMMBurn (sender userToken validatorToken : Address)
    (amountUserToken amountValidatorToken liquidity : Z) (to : Address)
| RebalanceSwap (userToken validatorToken swapper : Address) (amountIn amountOut : Z)
| PairCreated (key : B256) (base quote : Address)
| OrderPlaced (orderId : Z) (maker token : Address) (amount : Z) (isBid : bool)
    (tick : Z) (isFlipOrder : bool) (flipTick : Z)
| OrderFilled (orderId : Z) (maker taker : Address) (amountFilled : Z) (partialFill : bool)
| OrderCancelled (orderId : Z)
| ValidatorAdded (index : Z) (validatorAddress : Address) (publicKey : B256) (ingress egress : string)
    (feeRecipient : Address)
| ValidatorDeactivated (index : Z) (validatorAddress : Address)
| ValidatorRotated (index deactivatedIndex : Z) (validatorAddress : Address) (oldPublicKey newPublicKey : B256)
    (ingress egress : string) (caller : Address)
| FeeRecipientUpdated (index : Z) (feeRecipient caller : Address)
| IpAddressesUpdated (index : Z) (ingress egress : string) (caller : Address)
| ValidatorOwnershipTransferred (index : Z) (oldAddress newAddress caller : Address)
| OwnershipTransferred (oldOwner newOwner : Address)
| ValidatorMigrated (index : Z) (validatorAddress : Address) (publicKey : B256)
| NetworkIdentityRotationEpochSet (previousEpoch nextEpoch : Z)
| ValidatorsInitialized (height : Z)
| SkippedValidatorMigration (index : Z) (validatorAddress : Address) (publicKey : B256).

(** A log entry: the emitting contract and the event, oldest first. *)
Notation Log := (Address * Event)%type (only parsing).

(** ** The precompile monad

    An operation reads the environment, threads the storage [S] and the event
    log, and returns a value or an error.  The storage is returned on the error
    path too: the caller of an operation decides whether to roll it back. *)
Notation Result := (result TempoPrecompileError).
Definition M (S A : Type) : Type := Env → S * list Log → Result A * (S * list Log).

Global Instance M_ret S : MRet (M S) := λ A a _ st, (Ok a, st).
Global Instance M_bind S : MBind (M S) := λ A B f m e st,
  match m e st with
  | (Ok a, st') => f a e st'
  | (Err err, st') => (Err err, st')
  end.

Section monad.
Context {S : Type}.

Definition throw {A} (err : TempoPrecompileError) : M S A := λ _ st, (Err err, st).
Definition lift {A} (r : Result A) : M S A := λ _ st, (r, st).
Definition ask : M S Env := λ e st, (Ok e, st).
Definition gets {A} (f : S → A) : M S A := λ _ st, (Ok (f st.1), st).
Definition modify (f : S → S) : M S unit := λ _ st, (Ok tt, (f st.1, st.2)).
Definition require (b : bool) (err : TempoPrecompileError) : M S unit :=
  if b then mret tt else throw err.
Definition emit (self : Address) (ev : Event) : M S unit :=
  λ _ st, (Ok tt, (st.1, st.2 ++ [(self, ev)])).
(** A read-only call: [&self] methods compute a result and change nothing. *)
Definition view {A} (f : Env → S → Result A) : M S A := λ e st, (f e st.1, st).
(** [if b { m }]. *)
Definition when (b : bool) (m : M S unit) : M S unit := if b then m else mret tt.

(** Run on a component of the storage. *)
Definition zoom {T A} (get : S → T) (set : T → S → S) (m : M T A) : M S A :=
  λ e st, let '(r, (t, l)) := m e (get st.1, st.2) in (r, (set t st.1, l)).

(** The revert of a failed call: the storage and the log are restored. *)
Definition atomically {A} (m : M S A) : M S A := λ e st,
  match m e st with
  | (Ok a, st') => (Ok a, st')
  | (Err err, _) => (Err err, st)
  end.

Fixpoint mfor {A} (l : list A) (body : A → M S unit) : M S unit :=
  match l with
  | [] => mret tt
  | a :: l => body a;; mfor l body
  end.
End monad.


(** ** Inversion of successful runs *)
Section inversion.
Context {S A B : Type}.
Implicit Types (e : Env) (st : S * list Log).

Lemma bind_ok (m : M S A) (f : A → M S B) e st b st' :
  (m ≫= f) e st = (Ok b, st') ↔ ∃ a st1, m e st = (Ok a, st1) ∧ f a e st1 = (Ok b, st').
Proof. unfold mbind, M_bind. destruct (m e st) as [[] ?]; naive_solver. Qed.

Lemma bind_ok_unit (m : M S unit) (f : M S B) e st b st' :
  (m;; f) e st = (Ok b, st') ↔ ∃ st1, m e st = (Ok tt, st1) ∧ f e st1 = (Ok b, st').
Proof. unfold mbind, M_bind. destruct (m e st) as [[[]|] ?]; naive_solver. Qed.

Lemma bind_err (m : M S A) (f : A → M S B) e st err st' :
  (m ≫= f) e st = (Err err, st') →
  m e st = (Err err, st') ∨ ∃ a st1, m e st = (Ok a, st1) ∧ f a e st1 = (Err err, st').
Proof. unfold mbind, M_bind. destruct (m e st) as [[] ?]; naive_solver. Qed.

Lemma ret_ok (a : A) e st b st' : mret (M := M S) a e st = (Ok b, st') ↔ b = a ∧ st' = st.
Proof. unfold mret, M_ret. naive_solver. Qed.

Lemma throw_ok err e st (b : A) st' : throw err e st = (Ok b, st') ↔ False.
Proof. unfold throw. naive_solver. Qed.

Lemma lift_ok (r : Result A) e st b st' : lift r e st = (Ok b, st') ↔ r = Ok b ∧ st' = st.
Proof. unfold lift. naive_solver. Qed.

Lemma ask_ok e st b st' : ask (S := S) e st = (Ok b, st') ↔ b = e ∧ st' = st.
Proof. unfold ask. naive_solver. Qed.

Lemma gets_ok (f : S → A) e st b st' : gets f e st = (Ok b, st') ↔ b = f st.1 ∧ st' = st.
Proof. unfold gets. naive_solver. Qed.

Lemma modify_ok (f : S → S) e st b st' :
  modify f e st = (Ok b, st') ↔ st' = (f st.1, st.2).
Proof. unfold modify. destruct b. split; congruence. Qed.

Lemma require_ok b err e st u st' :
  require (S := S) b err e st = (Ok u, st') ↔ b = true ∧ st' = st.
Proof. unfold require, throw, mret, M_ret. destruct b, u; naive_solver. Qed.

Lemma emit_ok self ev e st u st' :
  emit (S := S) self ev e st = (Ok u, st') ↔ st' = (st.1, st.2 ++ [(self, ev)]).
Proof. unfold emit. destruct u. split; congruence. Qed.

Lemma view_ok (f : Env → S → Result A) e st b st' :
  view f e st = (Ok b, st') ↔ f e st.1 = Ok b ∧ st' = st.
Proof. unfold view. split; [intros [= -> ->]; done | intros [-> ->]; done]. Qed.

Lemma zoom_ok {T} (get : S → T) set (m : M T A) e st b st' :
  zoom get set m e st = (Ok b, st') ↔
  ∃ t l, m e (get st.1, st.2) = (Ok b, (t, l)) ∧ st' = (set t st.1, l).
Proof.
  unfold zoom. destruct (m e _) as [r [t l]]. split.
  - intros [= -> <-]. eauto.
  - intros (t' & l' & [= -> -> ->] & ->). done.
Qed.

Lemma atomically_err (m : M S A) e st err st' : atomically m e st = (Err err, st') → st' = st.
Proof. unfold atomically. destruct (m e st) as [[] ?]; naive_solver. Qed.

Lemma atomically_ok (m : M S A) e st b st' :
  atomically m e st = (Ok b, st') ↔ m e st = (Ok b, st').
Proof. unfold atomically. destruct (m e st) as [[] ?]; naive_solver. Qed.
End inversion.

Lemma mfor_ok {S A} (P : S * list Log → Prop) (l : list A) (body : A → M S unit) e st u st' :
  (∀ a st1 st2, a ∈ l → P st1 → body a e st1 = (Ok tt, st2) → P st2) →
  P st → mfor l body e st = (Ok u, st') → P st'.
Proof.
  revert st. induction l as [|a l IH]; intros st Hbody HP Hrun.
  - cbn in Hrun. unfold mret, M_ret in Hrun. congruence.
  - apply bind_ok_unit in Hrun as (st1 & H1 & H2). apply (IH st1); [|by eapply Hbody; [left| |]|done].
    intros; eapply Hbody; [right|..]; done.
Qed.

Lemma mfor_fold {S A} (f : S → A → S) (l : list A) (body : A → M S unit) e st u st' :
  (∀ a st1 st2, body a e st1 = (Ok tt, st2) → st2.1 = f st1.1 a) →
  mfor l body e st = (Ok u, st') → st'.1 = foldl f st.1 l.
Proof.
  intros Hbody. revert st. induction l as [|a l IH]; intros st Hrun.
  - cbn in Hrun. unfold mret, M_ret in Hrun. by injection Hrun as _ <-.
  - apply bind_ok_unit in Hrun as (st1 & H1 & H2). cbn.
    rewrite <- (Hbody _ _ _ H1). eauto.
Qed.

(** A preorder kept by every iteration is kept by the loop. *)
Lemma mfor_rel {S A} (R : S → S → Prop) `{!PreOrder R} (l : list A) (body : A → M S unit) e st u st' :
  (∀ a st1 st2, a ∈ l → body a e st1 = (Ok tt, st2) → R st1.1 st2.1) →
  mfor l body e st = (Ok u, st') → R st.1 st'.1.
Proof.
  intros Hbody Hrun. refine (mfor_ok (λ st2, R st.1 st2.1) l body e st u st' _ _ Hrun); [|done].
  intros a st1 st2 Ha HR Hb. etrans; [done|eauto].
Qed.

(** Every iteration of a successful loop succeeded. *)
Lemma mfor_ok_elem {S A} (l : list A) (body : A → M S unit) e st u st' a :
  mfor l body e st = (Ok u, st') → a ∈ l → ∃ st1 st2, body a e st1 = (Ok tt, st2).
Proof.
  revert st. induction l as [|b l IH]; intros st Hrun Ha; [by apply elem_of_nil in Ha|].
  apply bind_ok_unit in Hrun as (st1 & H1 & H2).
  apply elem_of_cons in Ha as [->|Ha]; eauto.
Qed.

(** A loop whose body never fails is a fold. *)
Lemma mfor_total {S A} (f : S → A → S) (l : list A) (body : A → M S unit) e st :
  (∀ a st, body a e st = (Ok tt, (f st.1 a, st.2))) →
  mfor l body e st = (Ok tt, (foldl f st.1 l, st.2)).
Proof.
  intros Hbody. revert st. induction l as [|a l IH]; intros [s lg]; [done|].
  cbn. unfold mbind, M_bind. rewrite Hbody. apply IH.
Qed.

(** ** Operations that emit no event *)
Definition silent {S A} (m : M S A) : Prop :=
  ∀ e st r st', m e st = (r, st') → st'.2 = st.2.

Create HintDb silent.

Section silent.
Context {S : Type}.

Lemma silent_ret {A} (a : A) : silent (mret (M := M S) a).
Proof. intros e st r st' [= _ <-]. done. Qed.
Lemma silent_throw {A} err : silent (throw (S := S) (A := A) err).
Proof. intros e st r st' [= _ <-]. done. Qed.
Lemma silent_lift {A} (r : Result A) : silent (lift (S := S) r).
Proof. intros e st r' st' [= _ <-]. done. Qed.
Lemma silent_ask : silent (ask (S := S)).
Proof. intros e st r st' [= _ <-]. done. Qed.
Lemma silent_gets {A} (f : S → A) : silent (gets f).
Proof. intros e st r st' [= _ <-]. done. Qed.
Lemma silent_modify (f : S → S) : silent (modify f).
Proof. intros e st r st' [= _ <-]. done. Qed.
Lemma silent_view {A} (f : Env → S → Result A) : silent (view f).
Proof. intros e st r st' [= _ <-]. done. Qed.
Lemma silent_require b err : silent (require (S := S) b err).
Proof. unfold require. destruct b; [apply silent_ret|apply silent_throw]. Qed.
Lemma silent_if {A} (b : bool) (m1 m2 : M S A) : silent m1 → silent m2 → silent (if b then m1 else m2).
Proof. by destruct b. Qed.
Lemma silent_when b (m : M S unit) : silent m → silent (when b m).
Proof. destruct b; [done|]. intros _. apply silent_ret. Qed.
Lemma silent_bind {A B} (m : M S A) (f : A → M S B) :
  silent m → (∀ a, silent (f a)) → silent (m ≫= f).
Proof.
  intros Hm Hf e st r st' Hrun. unfold mbind, M_bind in Hrun.
  destruct (m e st) as [[a|err] st1] eqn:H1; apply Hm in H1.
  - apply Hf in Hrun. congruence.
  - congruence.
Qed.
Lemma silent_zoom {T A} (get : S → T) set (m : M T A) : silent m → silent (zoom get set m).
Proof.
  intros Hm e st r st' Hrun. unfold zoom in Hrun.
  destruct (m e _) as [r1 [t l]] eqn:H1. apply Hm in H1. cbn in H1. by simplify_eq.
Qed.
Lemma silent_mfor {A} (l : list A) (body : A → M S unit) :
  (∀ a, silent (body a)) → silent (mfor l body).
Proof.
  intros Hb. induction l as [|a l IH]; cbn; [apply silent_ret|]. by apply silent_bind.
Qed.
End silent.
#[export] Hint Resolve silent_ret silent_throw silent_lift silent_ask silent_gets silent_modify
  silent_view silent_require silent_if silent_when silent_bind silent_zoom silent_mfor : silent.
Ltac solve_silent := repeat (intros; first
  [ apply silent_bind | apply silent_mfor | apply silent_zoom | apply silent_when | apply silent_if
  | solve [auto with silent nocore]
  | match goal with |- silent (match ?x with _ => _ end) => destruct x end ]).

(** [minv H] takes a successful run apart, one monadic step at a time, down to
    the calls of named operations; [minvs] does so for every hypothesis. *)
Ltac minv_step :=
  match goal with
  | H : (_ ≫= _) _ _ = (Ok _, _) |- _ =>
      let a := fresh "a" in let st := fresh "st" in let H1 := fresh "Hrun" in
      apply bind_ok in H as (a & st & H1 & H)
  | H : mret _ _ _ = (Ok _, _) |- _ => apply ret_ok in H as [? ?]; subst
  | H : throw _ _ _ = (Ok _, _) |- _ => apply throw_ok in H; destruct H
  | H : lift _ _ _ = (Ok _, _) |- _ => apply lift_ok in H as [? ?]; subst
  | H : ask _ _ = (Ok _, _) |- _ => apply ask_ok in H as [-> ?]; subst
  | H : gets _ _ _ = (Ok _, _) |- _ => apply gets_ok in H as [? ?]; subst
  | H : modify _ _ _ = (Ok _, _) |- _ => apply modify_ok in H; subst
  | H : require _ _ _ _ = (Ok _, _) |- _ => apply require_ok in H as [? ?]; subst
  | H : emit _ _ _ _ = (Ok _, _) |- _ => apply emit_ok in H; subst
  | H : view _ _ _ = (Ok _, _) |- _ => apply view_ok in H as [? ?]; subst
  | H : when ?b _ _ _ = (Ok _, _) |- _ => unfold when in H; destruct b eqn:?
  | H : atomically _ _ _ = (Ok _, _) |- _ => apply atomically_ok in H
  | H : zoom _ _ _ _ _ = (Ok _, _) |- _ =>
      let t := fresh "t" in let l := fresh "l" in apply zoom_ok in H as (t & l & H & ?); subst
  | H : (if ?b then _ else _) _ _ = (Ok _, _) |- _ => destruct b eqn:?
  | H : (match ?o with Some _ => _ | None => _ end) _ _ = (Ok _, _) |- _ => destruct o eqn:?
  | H : (match ?p with (_, _) => _ end) _ _ = (Ok _, _) |- _ => destruct p eqn:?
  | H : (_, _) = (_, _) |- _ => apply pair_equal_spec in H as [? ?]; subst
  end.
Ltac minvs := repeat (minv_step; cbn [fst snd] in *).

(** The same for computations in the plain result monad. *)
Ltac rinv_step :=
  match goal with
  | H : (_ ≫= _) = Ok _ |- _ =>
      let a := fresh "a" in let H1 := fresh "Hres" in
      apply result_bind_ok in H as (a & H1 & H)
  | H : mret _ = Ok _ |- _ => injection H as H; subst
  | H : Ok _ = Ok _ |- _ => injection H as H; subst
  | H : Err _ = Ok _ |- _ => discriminate H
  | H : Ok _ = Err _ |- _ => discriminate H
  | H : ok_or _ _ = Ok _ |- _ => apply ok_or_ok in H
  | H : ensure _ _ = Ok _ |- _ => apply ensure_ok in H
  | H : (if ?b then _ else _) = Ok _ |- _ => destruct b eqn:?
  | H : (match ?o with Some _ => _ | None => _ end) = Ok _ |- _ => destruct o eqn:?
  end.
Ltac rinvs := repeat rinv_step.

(** Boolean guards as propositions. *)
Ltac bprop_step :=
  match goal with
  | H : negb _ = true |- _ => apply negb_true_iff in H
  | H : negb _ = false |- _ => apply negb_false_iff in H
  | H : _ && _ = true |- _ => apply andb_true_iff in H as [? ?]
  | H : _ || _ = false |- _ => apply orb_false_iff in H as [? ?]
  | H : (_ =? _) = true |- _ => apply Z.eqb_eq in H
  | H : (_ =? _) = false |- _ => apply Z.eqb_neq in H
  | H : (_ <=? _) = true |- _ => apply Z.leb_le in H
  | H : (_ <=? _) = false |- _ => apply Z.leb_gt in H
  | H : (_ <? _) = true |- _ => apply Z.ltb_lt in H
  | H : (_ <? _) = false |- _ => apply Z.ltb_ge in H
  | H : bool_decide _ = true |- _ => apply bool_decide_eq_true in H
  | H : bool_decide _ = false |- _ => apply bool_decide_eq_false in H
  end.
Ltac bprop := repeat bprop_step.

(** Checked arithmetic in the hypotheses. *)
Ltac ariths :=
  repeat match goal with
  | H : checked_add _ _ _ = Some _ |- _ => apply checked_add_Some in H as [-> ?]
  | H : checked_sub _ _ = Some _ |- _ => apply checked_sub_Some in H as [-> ?]
  | H : checked_mul _ _ _ = Some _ |- _ => apply checked_mul_Some in H as [-> ?]
  | H : checked_div _ _ = Some _ |- _ => apply checked_div_Some in H as [-> ?]
  | H : try_into _ _ = Some _ |- _ => apply try_into_Some in H as [-> ?]
  end.

(** ** A concrete instance of the outside code, for the concrete runs *)
Definition bytes_value (l : list Z) : Z := fold_left (λ acc b, acc * 256 + b) l 0.

(** Big-endian bytes and their value are inverse, at a width of [n] bytes. *)
Lemma be_bytes_app m n v : be_bytes (m + n) v = be_bytes m (v / 256 ^ Z.of_nat n) ++ be_bytes n v.
Proof.
  revert v. induction n as [|n IH]; intros v.
  - by rewrite Nat.add_0_r, Z.div_1_r, app_nil_r.
  - rewrite Nat.add_succ_r. cbn [be_bytes]. rewrite IH, Z.div_div by lia. rewrite app_assoc. do 3 f_equal.
    rewrite Nat2Z.inj_succ, Z.pow_succ_r by lia. done.
Qed.
Lemma be_bytes_length n v : length (be_bytes n v) = n.
Proof. revert v. induction n; intros v; cbn; [done|]. rewrite length_app, IHn. cbn. lia. Qed.
Lemma bytes_value_be n v : bytes_value (be_bytes n v) = v mod 256 ^ Z.of_nat n.
Proof.
  revert v. induction n as [|n IH]; intros v; [by rewrite Z.mod_1_r|].
  cbn [be_bytes]. unfold bytes_value in *. rewrite fold_left_app, IH. cbn [fold_left].
  rewrite Nat2Z.inj_succ, Z.pow_succ_r by lia. rewrite (Z.mul_comm 256), (Z.mul_comm (256 ^ _) 256), Z.rem_mul_r by lia. lia.
Qed.

Definition sample_primitives : Primitives := {|
  keccak256 l := bytes_value l mod 2 ^ 256;
  abi_encode l := concat (map (be_bytes 32) l);
  abi_encode_packed l := concat (map (be_bytes 32) l);
  secp256k1_recover digest r p s := Some r;
  addr_is_tip20 a := a / 2 ^ 64 =? 0x20C000000000000000000000;
  addr_is_virtual a := false;
  addr_is_valid_master a := negb (a =? 0);
  addr_decode_virtual a := None;
|}.

Definition sample_env (t : Z) : Env :=
  mkEnv (mkHardfork true true true true true true true) t 1 t.

(** The storage after a run from an empty log. *)
Definition final {S A} (m : M S A) (e : Env) (s : S) : S := (m e (s, [])).2.1.
Definition final_log {S A} (m : M S A) (e : Env) (s : S) : list Log := (m e (s, [])).2.2.

Lemma final_ok {S A} (m : M S A) e s a :
  (m e (s, [])).1 = Ok a → m e (s, []) = (Ok a, (final m e s, final_log m e s)).
Proof. unfold final, final_log. destruct (m e (s, [])) as [r [s' l']]. cbn. by intros ->. Qed.
