(* ===== verification/Nonce.v ===== *)
(** * NonceManager ([src/crates/tempo-precompiles/src/nonce/mod.rs])

    Two-dimensional nonces and the expiring-nonce replay set: a map from
    transaction hashes to expiries, bounded by a ring buffer whose slots are
    reused once their entry has expired. *)
From Stdlib Require Import ZArith Lia.
From stdpp Require Import base tactics option list fin_maps gmap.
From S2P Require Import Prelude Base.
Open Scope Z_scope.
Open Scope storage_scope.

Definition EXPIRING_NONCE_SET_CAPACITY : Z := 300000.
Definition EXPIRING_NONCE_MAX_EXPIRY_SECS : Z := 30.

Record NonceManager := mkNonce {
  nonces : gmap (Address * Z) Z;
  expiring_nonce_seen : gmap B256 Z;
  expiring_nonce_ring : gmap Z B256;
  expiring_nonce_ring_ptr : Z;
}.

Definition nonce_empty : NonceManager := mkNonce ∅ ∅ ∅ 0.

Definition write_nonce (k : Address * Z) (v : Z) (s : NonceManager) : NonceManager :=
  mkNonce (<[k:=v]> (nonces s)) (expiring_nonce_seen s)
    (expiring_nonce_ring s) (expiring_nonce_ring_ptr s).
Definition write_seen (h : B256) (v : Z) (s : NonceManager) : NonceManager :=
  mkNonce (nonces s) (<[h:=v]> (expiring_nonce_seen s))
    (expiring_nonce_ring s) (expiring_nonce_ring_ptr s).
Definition write_ring (i : Z) (h : B256) (s : NonceManager) : NonceManager :=
  mkNonce (nonces s) (expiring_nonce_seen s)
    (<[i:=h]> (expiring_nonce_ring s)) (expiring_nonce_ring_ptr s).
Definition write_ring_ptr (p : Z) (s : NonceManager) : NonceManager :=
  mkNonce (nonces s) (expiring_nonce_seen s) (expiring_nonce_ring s) p.

Definition get_nonce (s : NonceManager) (account : Address) (nonceKey : Z) : Result Z :=
  if nonceKey =? 0 then Err (NonceError NonceError.ProtocolNonceNotSupported)
  else Ok (nonces s).[(account, nonceKey)].

Definition increment_nonce (account : Address) (nonce_key : Z) : M NonceManager Z :=
  require (negb (nonce_key =? 0)) (NonceError NonceError.InvalidNonceKey);;
  current ← gets (λ s, (nonces s).[(account, nonce_key)]);
  new_nonce ← lift (ok_or (checked_add U64_MAX current 1) (NonceError NonceError.NonceOverflow));
  modify (write_nonce (account, nonce_key) new_nonce);;
  emit NONCE_PRECOMPILE_ADDRESS (NonceIncremented account nonce_key new_nonce);;
  mret new_nonce.

Definition is_expiring_nonce_seen (s : NonceManager) (hash : B256) (now : Z) : bool :=
  let expiry := (expiring_nonce_seen s).[hash] in
  negb (expiry =? 0) && (now <? expiry).

Definition check_and_mark_expiring_nonce (expiring_nonce_hash : B256) (valid_before : Z) :
    M NonceManager unit :=
  e ← ask;
  let now := now_u64 e in
  require (negb ((valid_before <=? now)
                 || (saturating_add U64_MAX now EXPIRING_NONCE_MAX_EXPIRY_SECS <? valid_before)))
    (NonceError NonceError.InvalidExpiringNonceExpiry);;
  seen_expiry ← gets (λ s, (expiring_nonce_seen s).[expiring_nonce_hash]);
  require (negb (negb (seen_expiry =? 0) && (now <? seen_expiry)))
    (NonceError NonceError.ExpiringNonceReplay);;
  ptr ← gets expiring_nonce_ring_ptr;
  let idx := ptr in
  old_hash ← gets (λ s, (expiring_nonce_ring s).[idx]);
  when (negb (old_hash =? 0)) (
    old_expiry ← gets (λ s, (expiring_nonce_seen s).[old_hash]);
    require (negb (negb (old_expiry =? 0) && (now <? old_expiry)))
      (NonceError NonceError.ExpiringNonceSetFull);;
    modify (write_seen old_hash 0));;
  modify (write_ring idx expiring_nonce_hash);;
  modify (write_seen expiring_nonce_hash valid_before);;
  let next := if EXPIRING_NONCE_SET_CAPACITY <=? ptr + 1 then 0 else ptr + 1 in
  modify (write_ring_ptr next).

(** ** Traces of transactions against the manager

    A transaction that fails is reverted and leaves the storage as it was. *)
Inductive NonceOp :=
| OpIncrement (account : Address) (nonce_key : Z)
| OpMark (hash : B256) (valid_before : Z).

Definition exec_op (e : Env) (op : NonceOp) (s : NonceManager) : NonceManager :=
  match op with
  | OpIncrement a k => (atomically (increment_nonce a k) e (s, [])).2.1
  | OpMark h v => (atomically (check_and_mark_expiring_nonce h v) e (s, [])).2.1
  end.

Definition exec_trace (tr : list (Env * NonceOp)) (s : NonceManager) : NonceManager :=
  fold_left (λ s eo, exec_op eo.1 eo.2 s) tr s.

(** What the ring guarantees: the pointer is in range and every live entry of
    the replay set is held by a slot, so the set never outgrows the ring. *)
Record NonceInv (s : NonceManager) : Prop := {
  inv_ptr : 0 ≤ expiring_nonce_ring_ptr s < EXPIRING_NONCE_SET_CAPACITY;
  inv_held h : h ≠ 0 → (expiring_nonce_seen s).[h] ≠ 0 →
    ∃ i, 0 ≤ i < EXPIRING_NONCE_SET_CAPACITY ∧ (expiring_nonce_ring s).[i] = h;
}.

(** ** Proofs *)

(** The exact effect of an accepted expiring nonce. *)
Lemma mark_ok e s l h v u s' l' :
  check_and_mark_expiring_nonce h v e (s, l) = (Ok u, (s', l')) →
  let now := now_u64 e in
  let ptr := expiring_nonce_ring_ptr s in
  let old := (expiring_nonce_ring s).[ptr] in
  now < v ≤ now + EXPIRING_NONCE_MAX_EXPIRY_SECS ∧
  (expiring_nonce_seen s).[h] ≤ Z.max 0 now ∧
  (old ≠ 0 → (expiring_nonce_seen s).[old] ≤ Z.max 0 now) ∧
  nonces s' = nonces s ∧
  expiring_nonce_seen s' =
    <[h:=v]> (if old =? 0 then expiring_nonce_seen s else <[old:=0]> (expiring_nonce_seen s)) ∧
  expiring_nonce_ring s' = <[ptr:=h]> (expiring_nonce_ring s) ∧
  expiring_nonce_ring_ptr s' =
    (if EXPIRING_NONCE_SET_CAPACITY <=? ptr + 1 then 0 else ptr + 1).
Proof.
  unfold check_and_mark_expiring_nonce, saturating_add. intros H.
  minvs; cbn in *; subst; bprop.
  all: repeat match goal with
       | H : negb _ && _ = false |- _ => apply andb_false_iff in H as [?|?]
       end; bprop.
  all: repeat match goal with
       | |- context[?x =? 0] => destruct (Z.eqb_spec x 0); try lia
       end; repeat split; try done; lia.
Qed.

(** A failed call, and a reverted one, leave the storage unchanged. *)
Lemma exec_mark_cases e h v s :
  exec_op e (OpMark h v) s = s ∨
  ∃ l', check_and_mark_expiring_nonce h v e (s, []) = (Ok tt, (exec_op e (OpMark h v) s, l')).
Proof.
  unfold exec_op, atomically.
  destruct (check_and_mark_expiring_nonce h v e (s, [])) as [[[]|] [s' l']]; cbn; eauto.
Qed.

Lemma exec_increment_frame e a k s :
  expiring_nonce_seen (exec_op e (OpIncrement a k) s) = expiring_nonce_seen s ∧
  expiring_nonce_ring (exec_op e (OpIncrement a k) s) = expiring_nonce_ring s ∧
  expiring_nonce_ring_ptr (exec_op e (OpIncrement a k) s) = expiring_nonce_ring_ptr s.
Proof.
  unfold exec_op, atomically.
  destruct (increment_nonce a k e (s, [])) as [[n|] [s' l']] eqn:Hrun; cbn; [|done].
  unfold increment_nonce in Hrun. minvs. done.
Qed.

(** An unexpired entry survives every transaction before its expiry. *)
Lemma exec_op_keeps_live e op s h v :
  now_u64 e < v → 0 < v → (expiring_nonce_seen s).[h] = v →
  (expiring_nonce_seen (exec_op e op s)).[h] = v.
Proof.
  intros Hnow Hv Hs. destruct op as [a k|h' v'].
  - by destruct (exec_increment_frame e a k s) as (-> & _).
  - destruct (exec_mark_cases e h' v' s) as [->|[l' Hrun]]; [done|].
    apply mark_ok in Hrun as (_ & Hseen & Hold & _ & -> & _).
    rewrite mread_insert_ne by (intros ->; lia).
    destruct (Z.eqb_spec (expiring_nonce_ring s).[expiring_nonce_ring_ptr s] 0); [done|].
    rewrite mread_insert_ne; [done|]. intros Heq. specialize (Hold n). rewrite Heq in Hold. lia.
Qed.

Lemma exec_trace_keeps_live tr s h v :
  0 < v → Forall (λ eo, now_u64 eo.1 < v) tr → (expiring_nonce_seen s).[h] = v →
  (expiring_nonce_seen (exec_trace tr s)).[h] = v.
Proof.
  intros Hv Htr. revert s. induction Htr as [|eo tr Hnow _ IH]; intros s Hs; [done|].
  apply IH. by apply exec_op_keeps_live.
Qed.

(** C7: replay protection.  Once an expiring nonce [h] is accepted with expiry
    [v], then whatever transactions follow — including those that fail — as long
    as the clock has not reached [v] a second transaction with the same hash is
    refused and changes nothing, whichever expiry it claims. *)
Theorem expiring_nonce_no_replay e s l h v u s1 l1 tr e2 l2 v2 :
  check_and_mark_expiring_nonce h v e (s, l) = (Ok u, (s1, l1)) →
  0 ≤ now_u64 e → Forall (λ eo, now_u64 eo.1 < v) tr → now_u64 e2 < v →
  ∃ err, check_and_mark_expiring_nonce h v2 e2 (exec_trace tr s1, l2)
         = (Err (NonceError err), (exec_trace tr s1, l2)) ∧
         (now_u64 e2 < v2 ≤ now_u64 e2 + EXPIRING_NONCE_MAX_EXPIRY_SECS →
          v2 ≤ U64_MAX → err = NonceError.ExpiringNonceReplay).
Proof.
  intros Hrun He Htr He2.
  assert (Hlive : (expiring_nonce_seen (exec_trace tr s1)).[h] = v).
  { apply exec_trace_keeps_live; [|done|].
    - apply mark_ok in Hrun as (? & _). lia.
    - apply mark_ok in Hrun as (_ & _ & _ & _ & -> & _). apply mread_insert_eq. }
  unfold check_and_mark_expiring_nonce, mbind, M_bind, ask, require, gets, throw. cbn.
  destruct (negb _) eqn:Hwin; cbn.
  - rewrite Hlive. replace (negb (v =? 0) && (now_u64 e2 <? v)) with true; cbn; [eauto|].
    symmetry. apply andb_true_iff.
    apply mark_ok in Hrun as (? & _). split; [apply negb_true_iff|]; lia.
  - eexists; split; [done|]. intros ? ?. apply negb_false_iff, orb_true_iff in Hwin.
    unfold saturating_add in Hwin. destruct Hwin as [?|?]; lia.
Qed.

Lemma exec_op_inv e op s : NonceInv s → NonceInv (exec_op e op s).
Proof.
  intros [Hptr Hheld]. destruct op as [a k|h v].
  { destruct (exec_increment_frame e a k s) as (Hs & Hr & Hp).
    constructor; [by rewrite Hp|]. intros h. rewrite Hs, Hr. apply Hheld. }
  destruct (exec_mark_cases e h v s) as [->|[l' Hrun]]; [done|].
  apply mark_ok in Hrun as (_ & _ & _ & _ & Hs & Hr & Hp).
  constructor.
  - rewrite Hp. destruct (Z.leb_spec EXPIRING_NONCE_SET_CAPACITY (expiring_nonce_ring_ptr s + 1));
      unfold EXPIRING_NONCE_SET_CAPACITY in *; lia.
  - intros h' Hh'. rewrite Hs, Hr, mread_insert. case_decide as Heq.
    { subst h'. intros _. exists (expiring_nonce_ring_ptr s). by rewrite mread_insert_eq. }
    intros Hlive.
    destruct (Z.eqb_spec (expiring_nonce_ring s).[expiring_nonce_ring_ptr s] 0) as [Hz|Hz].
    + destruct (Hheld h' Hh' Hlive) as (i & Hi & Hih). exists i. split; [done|].
      rewrite mread_insert_ne; [done|]. intros <-. congruence.
    + rewrite mread_insert in Hlive. case_decide; [done|].
      destruct (Hheld h' Hh' Hlive) as (i & Hi & Hih). exists i. split; [done|].
      rewrite mread_insert_ne; [done|]. intros <-. congruence.
Qed.

(** In every state reachable from the empty manager the ring pointer stays in
    range and every live entry of the replay set occupies one of the
    [EXPIRING_NONCE_SET_CAPACITY] slots: the set is bounded by the ring. *)
Theorem expiring_nonce_ring_bounded tr : NonceInv (exec_trace tr nonce_empty).
Proof.
  assert (NonceInv nonce_empty) as H0.
  { constructor; [cbn; unfold EXPIRING_NONCE_SET_CAPACITY; lia|].
    intros h _. cbn. by rewrite mread_empty. }
  revert H0. generalize nonce_empty. induction tr as [|eo tr IH]; intros s Hs; [done|].
  apply IH. by apply exec_op_inv.
Qed.

(** [increment_nonce] is strictly increasing: it returns the successor of the
    stored nonce, stores it, touches no other nonce nor the replay set, and fails
    exactly on key 0 and at [u64::MAX]. *)
Theorem increment_nonce_spec e s l a k :
  0 ≤ (nonces s).[(a, k)] ≤ U64_MAX →
  increment_nonce a k e (s, l) =
    if k =? 0 then (Err (NonceError NonceError.InvalidNonceKey), (s, l))
    else if (nonces s).[(a, k)] =? U64_MAX
    then (Err (NonceError NonceError.NonceOverflow), (s, l))
    else let n := (nonces s).[(a, k)] + 1 in
         (Ok n, (write_nonce (a, k) n s,
                 l ++ [(NONCE_PRECOMPILE_ADDRESS, NonceIncremented a k n)])).
Proof.
  intros Hr. unfold increment_nonce, mbind, M_bind, require, throw, gets, lift, checked_add. cbn.
  destruct (Z.eqb_spec k 0); [done|]. cbn.
  destruct (Z.eqb_spec (nonces s).[(a, k)] U64_MAX) as [Hmax|Hmax];
    destruct (Z.leb_spec ((nonces s).[(a, k)] + 1) U64_MAX); try lia; done.
Qed.

(** ** Concrete runs *)
Lemma expiring_nonce_no_replay_witness :
  ∃ err,
    let s1 := exec_op (sample_env 100) (OpMark 77 120) nonce_empty in
    let tr := [(sample_env 105, OpMark 78 130); (sample_env 106, OpIncrement 5 1)] in
    check_and_mark_expiring_nonce 77 125 (sample_env 110) (exec_trace tr s1, [])
      = (Err (NonceError err), (exec_trace tr s1, [])).
Proof.
  destruct (expiring_nonce_no_replay (sample_env 100) nonce_empty [] 77 120 tt
    (exec_op (sample_env 100) (OpMark 77 120) nonce_empty) []
    [(sample_env 105, OpMark 78 130); (sample_env 106, OpIncrement 5 1)]
    (sample_env 110) [] 125) as (err & Herr & _).
  - reflexivity.
  - vm_compute; discriminate.
  - repeat constructor; vm_compute; reflexivity.
  - vm_compute; reflexivity.
  - exists err. exact Herr.
Defined.

Lemma increment_nonce_spec_witness :
  increment_nonce 5 1 (sample_env 0) (write_nonce (5, 1) U64_MAX nonce_empty, [])
    = (Err (NonceError NonceError.NonceOverflow), (write_nonce (5, 1) U64_MAX nonce_empty, [])).
Proof.
  rewrite (increment_nonce_spec (sample_env 0) (write_nonce (5, 1) U64_MAX nonce_empty) [] 5 1);
    [reflexivity | vm_compute; split; discriminate].
Defined.
