(* ===== verification/TIP403.v ===== *)
(** * TIP403Registry ([src/crates/tempo-precompiles/src/tip403_registry/mod.rs])

    The registry of transfer policies: whitelists, blacklists and compound
    policies that delegate each role to a simple sub-policy.  TIP-20 tokens ask
    [is_authorized_as] before they move funds. *)
From Stdlib Require Import ZArith Lia.
From stdpp Require Import base tactics option list fin_maps gmap.
From S2P Require Import Prelude Base.
Open Scope Z_scope.
Open Scope storage_scope.

Definition REJECT_ALL_POLICY_ID : Z := 0.
Definition ALLOW_ALL_POLICY_ID : Z := 1.

(** ** State *)
Record PolicyData := mkPolicyData { policy_type : Z; admin : Address }.
Record CompoundPolicyData := mkCompound {
  sender_policy_id : Z; recipient_policy_id : Z; mint_recipient_policy_id : Z }.
Record PolicyRecord := mkPolicyRecord { base : PolicyData; compound : CompoundPolicyData }.

Global Instance PolicyData_zeroed : Zeroed PolicyData := mkPolicyData 0 ZERO.
Global Instance CompoundPolicyData_zeroed : Zeroed CompoundPolicyData := mkCompound 0 0 0.
Global Instance PolicyRecord_zeroed : Zeroed PolicyRecord := mkPolicyRecord zeroed zeroed.

Record TIP403Registry := mkRegistry {
  policy_id_counter_slot : Z;
  policy_records : gmap Z PolicyRecord;
  policy_set : gmap (Z * Address) bool;
}.

Definition registry_empty : TIP403Registry := mkRegistry 0 ∅ ∅.

Inductive AuthRole := Transfer | Sender | Recipient | MintRecipient.

Definition write_counter (n : Z) (s : TIP403Registry) : TIP403Registry :=
  mkRegistry n (policy_records s) (policy_set s).
Definition write_record (id : Z) (r : PolicyRecord) (s : TIP403Registry) : TIP403Registry :=
  mkRegistry (policy_id_counter_slot s) (<[id:=r]> (policy_records s)) (policy_set s).
Definition set_policy_data (id : Z) (d : PolicyData) (s : TIP403Registry) : TIP403Registry :=
  write_record id (mkPolicyRecord d (compound (policy_records s).[id])) s.
Definition set_policy_set (id : Z) (account : Address) (v : bool) (s : TIP403Registry) :
    TIP403Registry :=
  mkRegistry (policy_id_counter_slot s) (policy_records s) (<[(id, account):=v]> (policy_set s)).

(** ** Policy types *)

(** The enum's discriminants ([PolicyType as u8]); [__Invalid] is [u8::MAX]. *)
Definition PolicyType_as_u8 (t : PolicyType) : Z :=
  match t with WHITELIST => 0 | BLACKLIST => 1 | COMPOUND => 2 | InvalidType => 255 end.

(** [TryFrom<u8>]: only the declared variants decode. *)
Definition PolicyType_try_from (v : Z) : option PolicyType :=
  if v =? 0 then Some WHITELIST else if v =? 1 then Some BLACKLIST
  else if v =? 2 then Some COMPOUND else None.

Definition decode_policy_type (e : Env) (d : PolicyData) : Result PolicyType :=
  let bad := Err (if is_t2 (spec e) then TIP403RegistryError TIP403Error.InvalidPolicyType
                  else under_overflow) in
  match PolicyType_try_from (policy_type d) with
  | Some COMPOUND => if is_t2 (spec e) then Ok COMPOUND else bad
  | Some ty => Ok ty
  | None => bad
  end.

Definition data_is_simple (d : PolicyData) : bool :=
  (policy_type d =? PolicyType_as_u8 WHITELIST) || (policy_type d =? PolicyType_as_u8 BLACKLIST).
Definition is_compound (d : PolicyData) : bool := policy_type d =? PolicyType_as_u8 COMPOUND.
Definition is_default (d : PolicyData) : bool := (policy_type d =? 0) && (admin d =? ZERO).

Definition ensure_is_simple (e : Env) (t : PolicyType) : Result Z :=
  match t with
  | WHITELIST | BLACKLIST => Ok (PolicyType_as_u8 t)
  | COMPOUND | InvalidType =>
      if is_t2 (spec e) then Err (TIP403RegistryError TIP403Error.IncompatiblePolicyType)
      else Ok (PolicyType_as_u8 InvalidType)
  end.

Definition role_transfer_or (e : Env) (t2_variant : AuthRole) : AuthRole :=
  if is_t2 (spec e) then t2_variant else Transfer.
Definition role_sender (e : Env) : AuthRole := role_transfer_or e Sender.
Definition role_recipient (e : Env) : AuthRole := role_transfer_or e Recipient.
Definition role_mint_recipient (e : Env) : AuthRole := role_transfer_or e MintRecipient.

(** [is_policy_lookup_error] *)
Definition is_policy_lookup_error (e : Env) (err : TempoPrecompileError) : bool :=
  if is_t2 (spec e) then
    match err with
    | TIP403RegistryError TIP403Error.InvalidPolicyType
    | TIP403RegistryError TIP403Error.PolicyNotFound => true
    | _ => false
    end
  else match err with Panic UnderOverflow => true | _ => false end.

(** ** Reads *)
Definition policy_id_counter (s : TIP403Registry) : Z := Z.max (policy_id_counter_slot s) 2.

Definition builtin_authorization (policy_id : Z) : option bool :=
  if policy_id =? ALLOW_ALL_POLICY_ID then Some true
  else if policy_id =? REJECT_ALL_POLICY_ID then Some false else None.

Definition policy_exists (s : TIP403Registry) (policyId : Z) : bool :=
  match builtin_authorization policyId with
  | Some _ => true
  | None => policyId <? policy_id_counter s
  end.

Definition get_policy_data (e : Env) (s : TIP403Registry) (policy_id : Z) : Result PolicyData :=
  let data := base (policy_records s).[policy_id] in
  if is_t2 (spec e) && is_default data && (policy_id_counter s <=? policy_id)
  then Err (TIP403RegistryError TIP403Error.PolicyNotFound)
  else Ok data.

Definition policy_data (e : Env) (s : TIP403Registry) (policyId : Z) :
    Result (PolicyType * Address) :=
  let stored :=
    data ← get_policy_data e s policyId;
    ty ← decode_policy_type e data;
    Ok (ty, admin data) in
  if is_t2 (spec e) then
    match builtin_authorization policyId with
    | Some _ =>
        ty ← ok_or (PolicyType_try_from policyId) (TIP403RegistryError TIP403Error.InvalidPolicyType);
        Ok (ty, ZERO)
    | None => stored
    end
  else if negb (policy_exists s policyId) then Err (TIP403RegistryError TIP403Error.PolicyNotFound)
  else stored.

Definition compound_policy_data (e : Env) (s : TIP403Registry) (policyId : Z) :
    Result CompoundPolicyData :=
  data ← get_policy_data e s policyId;
  if negb (is_compound data) then
    Err (TIP403RegistryError (if policy_exists s policyId then TIP403Error.IncompatiblePolicyType
                         else TIP403Error.PolicyNotFound))
  else Ok (compound (policy_records s).[policyId]).

Definition is_simple (e : Env) (s : TIP403Registry) (policy_id : Z) (user : Address)
    (data : PolicyData) : Result bool :=
  let is_in_set := (policy_set s).[(policy_id, user)] in
  ty ← decode_policy_type e data;
  match ty with
  | WHITELIST => Ok is_in_set
  | BLACKLIST => Ok (negb is_in_set)
  | COMPOUND | InvalidType => Err (TIP403RegistryError TIP403Error.IncompatiblePolicyType)
  end.

Definition is_authorized_simple (e : Env) (s : TIP403Registry) (policy_id : Z) (user : Address) :
    Result bool :=
  match builtin_authorization policy_id with
  | Some auth => Ok auth
  | None => data ← get_policy_data e s policy_id; is_simple e s policy_id user data
  end.

Definition is_authorized_as (e : Env) (s : TIP403Registry) (policy_id : Z) (user : Address)
    (role : AuthRole) : Result bool :=
  match builtin_authorization policy_id with
  | Some auth => Ok auth
  | None =>
      data ← get_policy_data e s policy_id;
      if is_compound data then
        let c := compound (policy_records s).[policy_id] in
        match role with
        | Sender => is_authorized_simple e s (sender_policy_id c) user
        | Recipient => is_authorized_simple e s (recipient_policy_id c) user
        | MintRecipient => is_authorized_simple e s (mint_recipient_policy_id c) user
        | Transfer =>
            sender_auth ← is_authorized_simple e s (sender_policy_id c) user;
            if is_t2 (spec e) && negb sender_auth then Ok false
            else
              recipient_auth ← is_authorized_simple e s (recipient_policy_id c) user;
              Ok (sender_auth && recipient_auth)
        end
      else is_simple e s policy_id user data
  end.

Definition validate_simple_policy (e : Env) (s : TIP403Registry) (policy_id : Z) : Result unit :=
  match builtin_authorization policy_id with
  | Some _ => Ok tt
  | None =>
      ensure (policy_id <? policy_id_counter s) (TIP403RegistryError TIP403Error.PolicyNotFound);;
      data ← get_policy_data e s policy_id;
      ensure (data_is_simple data) (TIP403RegistryError TIP403Error.PolicyNotSimple)
  end.

(** ** Writes *)
Section writes.
Context `{Primitives}.
Notation M403 := (M TIP403Registry).
Notation self := TIP403_REGISTRY_ADDRESS.

(** The id a new policy gets, with the counter advanced past it. *)
Definition next_policy_id : M403 Z :=
  new_policy_id ← gets policy_id_counter;
  next ← lift (ok_or (checked_add U64_MAX new_policy_id 1) under_overflow);
  modify (write_counter next);;
  mret new_policy_id.

Definition create_policy (msg_sender : Address) (adminA : Address) (policyType : PolicyType) :
    M403 Z :=
  e ← ask;
  ty ← lift (ensure_is_simple e policyType);
  new_policy_id ← next_policy_id;
  modify (set_policy_data new_policy_id (mkPolicyData ty adminA));;
  emit self (PolicyCreated new_policy_id msg_sender (default InvalidType (PolicyType_try_from ty)));;
  emit self (PolicyAdminUpdated new_policy_id msg_sender adminA);;
  mret new_policy_id.

Definition create_policy_with_accounts (msg_sender : Address) (adminA : Address)
    (policyType : PolicyType) (accounts : list Address) : M403 Z :=
  e ← ask;
  ty ← lift (ensure_is_simple e policyType);
  require (negb (is_t3 (spec e) && existsb addr_is_virtual accounts))
    (TIP403RegistryError TIP403Error.VirtualAddressNotAllowed);;
  new_policy_id ← next_policy_id;
  modify (set_policy_data new_policy_id (mkPolicyData ty adminA));;
  mfor accounts (λ account,
    modify (set_policy_set new_policy_id account true);;
    match policyType with
    | WHITELIST => emit self (WhitelistUpdated new_policy_id msg_sender account true)
    | BLACKLIST => emit self (BlacklistUpdated new_policy_id msg_sender account true)
    | COMPOUND | InvalidType => throw (TIP403RegistryError TIP403Error.IncompatiblePolicyType)
    end);;
  emit self (PolicyCreated new_policy_id msg_sender (default InvalidType (PolicyType_try_from ty)));;
  emit self (PolicyAdminUpdated new_policy_id msg_sender adminA);;
  mret new_policy_id.

Definition set_policy_admin (msg_sender : Address) (policyId : Z) (adminA : Address) : M403 unit :=
  data ← view (λ e s, get_policy_data e s policyId);
  require (admin data =? msg_sender) (TIP403RegistryError TIP403Error.Unauthorized);;
  modify (set_policy_data policyId (mkPolicyData (policy_type data) adminA));;
  emit self (PolicyAdminUpdated policyId msg_sender adminA).

Definition modify_policy_whitelist (msg_sender : Address) (policyId : Z) (account : Address)
    (allowed : bool) : M403 unit :=
  e ← ask;
  require (negb (is_t3 (spec e) && addr_is_virtual account))
    (TIP403RegistryError TIP403Error.VirtualAddressNotAllowed);;
  data ← view (λ e s, get_policy_data e s policyId);
  require (admin data =? msg_sender) (TIP403RegistryError TIP403Error.Unauthorized);;
  ty ← lift (decode_policy_type e data);
  require (match ty with WHITELIST => true | _ => false end)
    (TIP403RegistryError TIP403Error.IncompatiblePolicyType);;
  modify (set_policy_set policyId account allowed);;
  emit self (WhitelistUpdated policyId msg_sender account allowed).

Definition modify_policy_blacklist (msg_sender : Address) (policyId : Z) (account : Address)
    (restricted : bool) : M403 unit :=
  e ← ask;
  require (negb (is_t3 (spec e) && addr_is_virtual account))
    (TIP403RegistryError TIP403Error.VirtualAddressNotAllowed);;
  data ← view (λ e s, get_policy_data e s policyId);
  require (admin data =? msg_sender) (TIP403RegistryError TIP403Error.Unauthorized);;
  ty ← lift (decode_policy_type e data);
  require (match ty with BLACKLIST => true | _ => false end)
    (TIP403RegistryError TIP403Error.IncompatiblePolicyType);;
  modify (set_policy_set policyId account restricted);;
  emit self (BlacklistUpdated policyId msg_sender account restricted).

Definition create_compound_policy (msg_sender : Address) (senderPolicyId recipientPolicyId
    mintRecipientPolicyId : Z) : M403 Z :=
  view (λ e s, validate_simple_policy e s senderPolicyId);;
  view (λ e s, validate_simple_policy e s recipientPolicyId);;
  view (λ e s, validate_simple_policy e s mintRecipientPolicyId);;
  new_policy_id ← next_policy_id;
  modify (write_record new_policy_id
    (mkPolicyRecord (mkPolicyData (PolicyType_as_u8 COMPOUND) ZERO)
       (mkCompound senderPolicyId recipientPolicyId mintRecipientPolicyId)));;
  emit self (CompoundPolicyCreated new_policy_id msg_sender senderPolicyId recipientPolicyId
               mintRecipientPolicyId);;
  mret new_policy_id.
End writes.

(** ** Calls and reachable registries *)
Inductive Call403 :=
| CCreatePolicy (adminA : Address) (ty : PolicyType)
| CCreatePolicyWithAccounts (adminA : Address) (ty : PolicyType) (accounts : list Address)
| CSetPolicyAdmin (policyId : Z) (adminA : Address)
| CModifyWhitelist (policyId : Z) (account : Address) (allowed : bool)
| CModifyBlacklist (policyId : Z) (account : Address) (restricted : bool)
| CCreateCompound (senderPolicyId recipientPolicyId mintRecipientPolicyId : Z).

Definition exec403 `{Primitives} (msg_sender : Address) (c : Call403) : M TIP403Registry unit :=
  match c with
  | CCreatePolicy a ty => create_policy msg_sender a ty;; mret tt
  | CCreatePolicyWithAccounts a ty accs => create_policy_with_accounts msg_sender a ty accs;; mret tt
  | CSetPolicyAdmin id a => set_policy_admin msg_sender id a
  | CModifyWhitelist id a b => modify_policy_whitelist msg_sender id a b
  | CModifyBlacklist id a b => modify_policy_blacklist msg_sender id a b
  | CCreateCompound x y z => create_compound_policy msg_sender x y z;; mret tt
  end.

(** One successful call of an account other than the zero address. *)
Definition step403 `{Primitives} (s s' : TIP403Registry) : Prop :=
  ∃ e sender c l l' u, sender ≠ ZERO ∧ exec403 sender c e (s, l) = (Ok u, (s', l')).

Inductive reachable403 `{Primitives} : TIP403Registry → Prop :=
| reach403_init : reachable403 registry_empty
| reach403_step s s' : reachable403 s → step403 s s' → reachable403 s'.

(** A policy id that may be a sub-policy: built-in, or an existing simple one. *)
Definition simple_ref (s : TIP403Registry) (id : Z) : Prop :=
  is_Some (builtin_authorization id) ∨
  (id < policy_id_counter s ∧ data_is_simple (base (policy_records s).[id]) = true).

Record Wf403 (s : TIP403Registry) : Prop := {
  wf_fresh id : policy_id_counter s ≤ id →
    (policy_records s).[id] = zeroed ∧ ∀ a, (policy_set s).[(id, a)] = false;
  wf_compound id : is_compound (base (policy_records s).[id]) = true →
    admin (base (policy_records s).[id]) = ZERO ∧
    let c := compound (policy_records s).[id] in
    simple_ref s (sender_policy_id c) ∧ simple_ref s (recipient_policy_id c) ∧
    simple_ref s (mint_recipient_policy_id c);
}.

(** ** The abstract policy a registry denotes *)

(** The accounts a simple policy lets through. *)
Definition spec_simple (s : TIP403Registry) (id : Z) (user : Address) : bool :=
  match builtin_authorization id with
  | Some b => b
  | None =>
      if policy_type (base (policy_records s).[id]) =? PolicyType_as_u8 WHITELIST
      then (policy_set s).[(id, user)] else negb (policy_set s).[(id, user)]
  end.

Definition spec_auth (s : TIP403Registry) (id : Z) (user : Address) (role : AuthRole) : bool :=
  if negb (is_compound (base (policy_records s).[id])) || bool_decide (is_Some (builtin_authorization id))
  then spec_simple s id user
  else
    let c := compound (policy_records s).[id] in
    match role with
    | Sender => spec_simple s (sender_policy_id c) user
    | Recipient => spec_simple s (recipient_policy_id c) user
    | MintRecipient => spec_simple s (mint_recipient_policy_id c) user
    | Transfer => spec_simple s (sender_policy_id c) user
                  && spec_simple s (recipient_policy_id c) user
    end.

(** ** Proofs *)
Section proofs.
Context `{Primitives}.
Implicit Types (s : TIP403Registry) (e : Env).

Lemma next_policy_id_ok e s l id st' :
  next_policy_id e (s, l) = (Ok id, st') →
  id = policy_id_counter s ∧ st' = (write_counter (id + 1) s, l) ∧ 2 ≤ id.
Proof. unfold next_policy_id. intros Hrun. minvs. rinvs. ariths. cbn in *.
  unfold policy_id_counter. split_and!; [done|done|lia].
Qed.

Lemma builtin_None id : 2 ≤ id → builtin_authorization id = None.
Proof.
  unfold builtin_authorization, ALLOW_ALL_POLICY_ID, REJECT_ALL_POLICY_ID. intros.
  destruct (Z.eqb_spec id 1), (Z.eqb_spec id 0); lia || done.
Qed.

(** What each successful call does to the registry. *)
Lemma create_policy_ok e s l sender a ty id s' l' :
  create_policy sender a ty e (s, l) = (Ok id, (s', l')) →
  id = policy_id_counter s ∧ 2 ≤ id ∧
  ∃ t, ensure_is_simple e ty = Ok t ∧
       s' = set_policy_data id (mkPolicyData t a) (write_counter (id + 1) s).
Proof.
  unfold create_policy. intros Hrun. minvs.
  match goal with H : next_policy_id _ _ = _ |- _ =>
    apply next_policy_id_ok in H as (-> & -> & ?) end. cbn in *. eauto 10.
Qed.

(** The initial accounts of a policy, written one by one. *)
Definition add_accounts (id : Z) (accs : list Address) (s : TIP403Registry) : TIP403Registry :=
  foldl (λ s a, set_policy_set id a true s) s accs.

Lemma add_accounts_frame id accs s :
  policy_id_counter_slot (add_accounts id accs s) = policy_id_counter_slot s ∧
  policy_records (add_accounts id accs s) = policy_records s ∧
  (∀ id' a, id' ≠ id → (policy_set (add_accounts id accs s)).[(id', a)] = (policy_set s).[(id', a)]) ∧
  (∀ a, (policy_set (add_accounts id accs s)).[(id, a)] = bool_decide (a ∈ accs) || (policy_set s).[(id, a)]).
Proof.
  revert s. unfold add_accounts. induction accs as [|b accs IH]; intros s; cbn; [done|].
  destruct (IH (set_policy_set id b true s)) as (-> & -> & Hne & Heq).
  split_and!; [done|done| |].
  - intros id' a ?. rewrite Hne by done. cbn. apply mread_insert_ne. congruence.
  - intros a. rewrite Heq. cbn. rewrite mread_insert.
    repeat case_bool_decide; case_decide; cbn; try done; set_solver.
Qed.

Lemma create_policy_with_accounts_ok e s l sender a ty accs id s' l' :
  create_policy_with_accounts sender a ty accs e (s, l) = (Ok id, (s', l')) →
  id = policy_id_counter s ∧ 2 ≤ id ∧
  ∃ t, ensure_is_simple e ty = Ok t ∧
       s' = add_accounts id accs (set_policy_data id (mkPolicyData t a) (write_counter (id + 1) s)).
Proof.
  unfold create_policy_with_accounts. intros Hrun. minvs.
  match goal with H : next_policy_id _ _ = _ |- _ =>
    apply next_policy_id_ok in H as (-> & -> & ?) end. cbn in *.
  split; [done|]. split; [done|]. eexists; split; [eassumption|].
  match goal with H : mfor _ _ _ _ = _ |- _ =>
    eapply (mfor_fold (λ r a, set_policy_set (policy_id_counter s) a true r)) in H end;
    [eassumption|].
  intros b st1 st2 Hb. minvs. destruct ty; minvs; done.
Qed.

Lemma get_policy_data_ok e s id d :
  get_policy_data e s id = Ok d →
  d = base (policy_records s).[id] ∧
  (is_t2 (spec e) = true → is_default d = true → id < policy_id_counter s).
Proof.
  unfold get_policy_data. intros Hd. rinvs. split; [done|]. intros Ht Hdef.
  rewrite Ht, Hdef in *. cbn in *. bprop. done.
Qed.

Lemma set_policy_admin_ok e s l sender id a u s' l' :
  set_policy_admin sender id a e (s, l) = (Ok u, (s', l')) →
  admin (base (policy_records s).[id]) = sender ∧
  s' = set_policy_data id (mkPolicyData (policy_type (base (policy_records s).[id])) a) s.
Proof.
  unfold set_policy_admin. intros Hrun. minvs. bprop.
  match goal with H : get_policy_data _ _ _ = _ |- _ => apply get_policy_data_ok in H as [-> _] end.
  done.
Qed.

Lemma modify_policy_whitelist_ok e s l sender id a b u s' l' :
  modify_policy_whitelist sender id a b e (s, l) = (Ok u, (s', l')) →
  admin (base (policy_records s).[id]) = sender ∧
  policy_type (base (policy_records s).[id]) = PolicyType_as_u8 WHITELIST ∧
  s' = set_policy_set id a b s.
Proof.
  unfold modify_policy_whitelist. intros Hrun. minvs. bprop.
  match goal with H : get_policy_data _ _ _ = _ |- _ => apply get_policy_data_ok in H as [-> _] end.
  split; [done|]. split; [|done].
  unfold decode_policy_type, PolicyType_try_from in *.
  destruct (Z.eqb_spec (policy_type (base (policy_records s).[id])) 0); [done|].
  repeat case_match; simplify_eq; done.
Qed.

Lemma modify_policy_blacklist_ok e s l sender id a b u s' l' :
  modify_policy_blacklist sender id a b e (s, l) = (Ok u, (s', l')) →
  admin (base (policy_records s).[id]) = sender ∧
  policy_type (base (policy_records s).[id]) = PolicyType_as_u8 BLACKLIST ∧
  s' = set_policy_set id a b s.
Proof.
  unfold modify_policy_blacklist. intros Hrun. minvs. bprop.
  match goal with H : get_policy_data _ _ _ = _ |- _ => apply get_policy_data_ok in H as [-> _] end.
  split; [done|]. split; [|done].
  unfold decode_policy_type, PolicyType_try_from in *.
  destruct (Z.eqb_spec (policy_type (base (policy_records s).[id])) 1) as [Heq|]; [done|].
  repeat case_match; simplify_eq; done.
Qed.

Lemma validate_simple_policy_ok e s id u : validate_simple_policy e s id = Ok u → simple_ref s id.
Proof.
  unfold validate_simple_policy, simple_ref. intros Hv.
  destruct (builtin_authorization id); [left; eauto|right].
  rinvs. bprop. apply get_policy_data_ok in Hres0 as [-> _]. done.
Qed.

Lemma create_compound_policy_ok e s l sender x y z id s' l' :
  create_compound_policy sender x y z e (s, l) = (Ok id, (s', l')) →
  simple_ref s x ∧ simple_ref s y ∧ simple_ref s z ∧
  id = policy_id_counter s ∧ 2 ≤ id ∧
  s' = write_record id (mkPolicyRecord (mkPolicyData (PolicyType_as_u8 COMPOUND) ZERO)
                          (mkCompound x y z)) (write_counter (id + 1) s).
Proof.
  unfold create_compound_policy. intros Hrun. minvs.
  match goal with H : next_policy_id _ _ = _ |- _ =>
    apply next_policy_id_ok in H as (-> & -> & ?) end. cbn in *.
  repeat match goal with H : validate_simple_policy _ _ _ = _ |- _ =>
    apply validate_simple_policy_ok in H end. done.
Qed.

(** A sub-policy reference stays valid while the counter only grows and existing
    policies keep their type. *)
Lemma simple_ref_mono s s' id :
  policy_id_counter s ≤ policy_id_counter s' →
  (∀ i, i < policy_id_counter s →
     policy_type (base (policy_records s').[i]) = policy_type (base (policy_records s).[i])) →
  simple_ref s id → simple_ref s' id.
Proof.
  intros Hc Ht [?|[Hlt Hs]]; [by left|right]. split; [lia|].
  unfold data_is_simple in *. by rewrite Ht.
Qed.

(** A registry that gains the policy [id = counter] keeps the invariant. *)
Lemma wf_new_policy s s' id r :
  Wf403 s → id = policy_id_counter s → 2 ≤ id →
  policy_id_counter_slot s' = id + 1 → policy_records s' = <[id:=r]> (policy_records s) →
  (∀ i a, i ≠ id → (policy_set s').[(i, a)] = (policy_set s).[(i, a)]) →
  (is_compound (base r) = true → admin (base r) = ZERO ∧
     simple_ref s (sender_policy_id (compound r)) ∧ simple_ref s (recipient_policy_id (compound r)) ∧
     simple_ref s (mint_recipient_policy_id (compound r))) →
  Wf403 s'.
Proof.
  intros [Hfresh Hcomp] Hid Hge Hc Hr Hset Hrc.
  assert (Hcnt : policy_id_counter s' = id + 1) by (unfold policy_id_counter; lia).
  assert (Hmono : ∀ x, simple_ref s x → simple_ref s' x).
  { intros x. apply simple_ref_mono; [lia|]. intros i Hi.
    rewrite Hr, mread_insert_ne by lia. done. }
  constructor.
  - intros i Hi. rewrite Hr, mread_insert_ne by lia.
    destruct (Hfresh i ltac:(lia)) as [-> Hs]. split; [done|]. intros a.
    rewrite Hset by lia. done.
  - intros i. rewrite Hr, mread_insert. case_decide as Heq.
    + intros Hi. destruct (Hrc Hi) as (? & ? & ? & ?). cbn. split_and!; auto.
    + intros Hi. destruct (Hcomp i Hi) as (? & ? & ? & ?). cbn. split_and!; auto.
Qed.

Lemma step403_wf s s' : Wf403 s → step403 s s' → Wf403 s'.
Proof.
  intros Hwf (e & sender & c & l & l' & u & Hsender & Hrun).
  destruct c; cbn in Hrun; minvs.
  - apply create_policy_ok in Hrun0 as (Hid & ? & t & Ht & ->).
    eapply wf_new_policy; eauto; cbn.
    destruct ty; cbn in Ht; rinvs; done.
  - apply create_policy_with_accounts_ok in Hrun0 as (Hid & ? & t & Ht & ->).
    match goal with |- Wf403 (add_accounts ?i ?l ?r) =>
      destruct (add_accounts_frame i l r) as (Hc & Hr & Hne & _) end.
    eapply wf_new_policy; [done|exact Hid|done|rewrite Hc; done|rewrite Hr; done| |].
    + intros i b ?. rewrite Hne by done. done.
    + destruct ty; cbn in Ht; rinvs; done.
  - apply set_policy_admin_ok in Hrun as (Hadm & ->). destruct Hwf as [Hfresh Hcomp].
    assert (policyId < policy_id_counter s).
    { apply Z.nle_gt. intros Hge. destruct (Hfresh _ Hge) as [Hz _].
      rewrite Hz in Hadm. by apply Hsender. }
    assert (Hmono : ∀ x, simple_ref s x → simple_ref (set_policy_data policyId
       (mkPolicyData (policy_type (base (policy_records s).[policyId])) adminA) s) x).
    { intros x. apply simple_ref_mono; [done|]. intros i _. cbn. rewrite mread_insert.
      case_decide; by subst. }
    constructor; cbn.
    + intros i Hi. rewrite mread_insert_ne by (cbn in Hi; unfold policy_id_counter in *; cbn in *; lia).
      apply Hfresh. done.
    + intros i. rewrite mread_insert. case_decide as Heq; cbn.
      * subst i. intros Hi. destruct (Hcomp policyId Hi) as (Hz & _). congruence.
      * intros Hi. destruct (Hcomp i Hi) as (? & ? & ? & ?). split_and!; auto.
  - apply modify_policy_whitelist_ok in Hrun as (Hadm & _ & ->). destruct Hwf as [Hfresh Hcomp].
    constructor; [|exact Hcomp]. intros i Hi. cbn. destruct (Hfresh i Hi) as [Hz Hs].
    split; [done|]. intros b. rewrite mread_insert_ne; [done|]. intros [= -> ->].
    rewrite Hz in Hadm. by apply Hsender.
  - apply modify_policy_blacklist_ok in Hrun as (Hadm & _ & ->). destruct Hwf as [Hfresh Hcomp].
    constructor; [|exact Hcomp]. intros i Hi. cbn. destruct (Hfresh i Hi) as [Hz Hs].
    split; [done|]. intros b. rewrite mread_insert_ne; [done|]. intros [= -> ->].
    rewrite Hz in Hadm. by apply Hsender.
  - apply create_compound_policy_ok in Hrun0 as (? & ? & ? & Hid & ? & ->).
    eapply wf_new_policy; eauto.
Qed.

Lemma reachable403_wf s : reachable403 s → Wf403 s.
Proof.
  induction 1; [|by eapply step403_wf].
  constructor; cbn; intros; by rewrite ?mread_empty in *.
Qed.

(** The well-formedness of the registry holds in every reachable state: ids at
    or above the counter are blank, and a compound policy has no admin and refers
    to existing simple policies only. *)
Theorem registry_wf s : reachable403 s → Wf403 s.
Proof. apply reachable403_wf. Qed.

Lemma get_policy_data_below e s id :
  id < policy_id_counter s → get_policy_data e s id = Ok (base (policy_records s).[id]).
Proof.
  unfold get_policy_data. intros Hlt. destruct (Z.leb_spec (policy_id_counter s) id); [lia|].
  by rewrite andb_false_r.
Qed.

Lemma is_simple_ok e s id u :
  data_is_simple (base (policy_records s).[id]) = true → builtin_authorization id = None →
  is_simple e s id u (base (policy_records s).[id]) = Ok (spec_simple s id u).
Proof.
  unfold data_is_simple, is_simple, decode_policy_type, PolicyType_try_from, spec_simple.
  intros [Ht|Ht]%orb_true_iff ->; apply Z.eqb_eq in Ht; rewrite Ht; done.
Qed.

Lemma is_authorized_simple_ok e s id u :
  simple_ref s id → is_authorized_simple e s id u = Ok (spec_simple s id u).
Proof.
  unfold is_authorized_simple. destruct (builtin_authorization id) as [b|] eqn:Hb.
  - intros _. unfold spec_simple. by rewrite Hb.
  - intros [[? ?]|[Hlt Hs]]; [congruence|]. rewrite get_policy_data_below by done. cbn.
    by apply is_simple_ok.
Qed.

(** C8: in a reachable registry, on T2 and later, the authorization of an existing
    policy of a valid type never fails, and its answer is that of the abstract
    policy: the whitelist or blacklist, or the sub-policy of the role. *)
Theorem is_authorized_as_refines e s id user role :
  reachable403 s → is_t2 (spec e) = true → policy_exists s id = true →
  PolicyType_try_from (policy_type (base (policy_records s).[id])) ≠ None →
  is_authorized_as e s id user role = Ok (spec_auth s id user role).
Proof.
  intros [_ Hcomp]%reachable403_wf Ht2 Hex Hty. unfold is_authorized_as, spec_auth, policy_exists in *.
  destruct (builtin_authorization id) as [b|] eqn:Hb.
  { rewrite bool_decide_eq_true_2, orb_true_r by eauto. unfold spec_simple. by rewrite Hb. }
  bprop. rewrite get_policy_data_below by done. cbn. rewrite orb_false_r.
  destruct (is_compound _) eqn:Hc; cbn.
  - destruct (Hcomp id Hc) as (_ & Hs & Hr & Hm).
    destruct role; rewrite ?is_authorized_simple_ok by done; cbn; rewrite ?Ht2; try done.
    destruct (spec_simple s _ user); cbn; [|done].
    by rewrite ?is_authorized_simple_ok.
  - apply is_simple_ok; [|done]. unfold is_compound, PolicyType_try_from, data_is_simple in *.
    cbn in *. repeat case_match; done.
Qed.

(** Two registries that agree on what a query reads answer it alike. *)
Lemma is_authorized_simple_ext e s s' id u :
  policy_id_counter s' = policy_id_counter s → policy_records s' = policy_records s →
  (policy_set s').[(id, u)] = (policy_set s).[(id, u)] →
  is_authorized_simple e s' id u = is_authorized_simple e s id u.
Proof.
  intros Hc Hr Hs. unfold is_authorized_simple, get_policy_data, is_simple.
  by rewrite Hc, Hr, Hs.
Qed.

Lemma is_authorized_as_ext e s s' id u role :
  policy_id_counter s' = policy_id_counter s → policy_records s' = policy_records s →
  (∀ i, (policy_set s').[(i, u)] = (policy_set s).[(i, u)]) →
  is_authorized_as e s' id u role = is_authorized_as e s id u role.
Proof.
  intros Hc Hr Hs. unfold is_authorized_as.
  rewrite !(is_authorized_simple_ext e s s') by done.
  unfold get_policy_data, is_simple. by rewrite Hc, Hr, Hs.
Qed.

(** Editing a list has exactly the requested effect: after a successful
    [modify_policy_whitelist] (resp. blacklist) the policy admits the account iff
    it was allowed (resp. iff it was not restricted), under every role, and every
    query about another account is answered as before. *)
Theorem modify_policy_effect e s l sender id a b wl u s' l' :
  2 ≤ id →
  (if wl : bool then modify_policy_whitelist sender id a b e (s, l)
   else modify_policy_blacklist sender id a b e (s, l)) = (Ok u, (s', l')) →
  (∀ role, is_authorized_as e s' id a role = Ok (if wl then b else negb b)) ∧
  (∀ id' a' role, a' ≠ a → is_authorized_as e s' id' a' role = is_authorized_as e s id' a' role).
Proof.
  intros Hid Hrun. split.
  - intros role.
    assert (∃ t, s' = set_policy_set id a b s ∧ policy_type (base (policy_records s).[id]) = t ∧
                 t = (if wl then 0 else 1) ∧ ∃ d, get_policy_data e s id = Ok d) as (t & -> & Ht & -> & d & Hd).
    { destruct wl.
      - pose proof Hrun as Hrun'. apply modify_policy_whitelist_ok in Hrun as (_ & ? & ->).
        unfold modify_policy_whitelist in Hrun'. minvs. eauto 10.
      - pose proof Hrun as Hrun'. apply modify_policy_blacklist_ok in Hrun as (_ & ? & ->).
        unfold modify_policy_blacklist in Hrun'. minvs. eauto 10. }
    unfold is_authorized_as. rewrite builtin_None by done.
    change (get_policy_data e (set_policy_set id a b s) id) with (get_policy_data e s id).
    rewrite Hd. apply get_policy_data_ok in Hd as [-> _]. cbn.
    unfold is_compound, is_simple, decode_policy_type, PolicyType_try_from. rewrite Ht. cbn.
    rewrite mread_insert_eq. by destruct wl.
  - intros id' a' role Hne. apply is_authorized_as_ext.
    all: destruct wl; [apply modify_policy_whitelist_ok in Hrun as (_ & _ & ->)
                      |apply modify_policy_blacklist_ok in Hrun as (_ & _ & ->)]; try done.
    all: intros i; cbn; apply mread_insert_ne; congruence.
Qed.

(** Only the admin of a policy can change it, and nobody can change a compound
    policy: a successful call that alters the record or the member set of an
    existing policy was made by its admin, and the policy is not compound. *)
Theorem policy_change_needs_admin e s l sender c u s' l' id :
  reachable403 s → sender ≠ ZERO → id < policy_id_counter s →
  exec403 sender c e (s, l) = (Ok u, (s', l')) →
  (policy_records s').[id] ≠ (policy_records s).[id] ∨
    (∃ a, (policy_set s').[(id, a)] ≠ (policy_set s).[(id, a)]) →
  admin (base (policy_records s).[id]) = sender ∧
  is_compound (base (policy_records s).[id]) = false.
Proof.
  intros [_ Hcomp]%reachable403_wf Hsender Hid Hrun Hch.
  enough (admin (base (policy_records s).[id]) = sender) as Hadm.
  { split; [done|]. destruct (is_compound _) eqn:Hc; [|done].
    destruct (Hcomp id Hc) as (Hz & _). congruence. }
  destruct c; cbn in Hrun; minvs.
  - apply create_policy_ok in Hrun0 as (Hn & _ & t & _ & ->). cbn in Hch.
    rewrite mread_insert_ne in Hch by lia. destruct Hch as [?|[? ?]]; done.
  - apply create_policy_with_accounts_ok in Hrun0 as (Hn & _ & t & _ & ->).
    match type of Hch with context[add_accounts ?i ?l ?r] =>
      destruct (add_accounts_frame i l r) as (_ & Hr & Hne & _) end.
    rewrite Hr in Hch. cbn in Hch. rewrite mread_insert_ne in Hch by lia.
    destruct Hch as [?|[b Hb]]; [done|]. rewrite Hne in Hb by lia. done.
  - apply set_policy_admin_ok in Hrun as (Hadm & ->). cbn in Hch.
    destruct Hch as [Hch|[? ?]]; [|done]. rewrite mread_insert in Hch. case_decide; by subst.
  - apply modify_policy_whitelist_ok in Hrun as (Hadm & _ & ->). cbn in Hch.
    destruct Hch as [?|[b Hb]]; [done|]. rewrite mread_insert in Hb. case_decide; by simplify_eq.
  - apply modify_policy_blacklist_ok in Hrun as (Hadm & _ & ->). cbn in Hch.
    destruct Hch as [?|[b Hb]]; [done|]. rewrite mread_insert in Hb. case_decide; by simplify_eq.
  - apply create_compound_policy_ok in Hrun0 as (_ & _ & _ & Hn & _ & ->). cbn in Hch.
    rewrite mread_insert_ne in Hch by lia. destruct Hch as [?|[? ?]]; done.
Qed.
End proofs.

(** ** Concrete runs *)
Section examples.
Local Existing Instance sample_primitives.

(** Account 7 creates whitelist 2, admits account 9, and a compound policy 3 is
    built over it. *)
Definition sample_403_a : TIP403Registry :=
  final (exec403 7 (CCreatePolicy 7 WHITELIST)) (sample_env 0) registry_empty.
Definition sample_403_b : TIP403Registry :=
  final (exec403 7 (CModifyWhitelist 2 9 true)) (sample_env 0) sample_403_a.
Definition sample_403_c : TIP403Registry :=
  final (exec403 8 (CCreateCompound 2 1 0)) (sample_env 0) sample_403_b.

Lemma sample_403_reachable : reachable403 sample_403_b ∧ reachable403 sample_403_c.
Proof.
  assert (reachable403 sample_403_b) as Hb.
  { apply (reach403_step sample_403_a).
    - apply (reach403_step registry_empty); [constructor|].
      eexists (sample_env 0), 7, (CCreatePolicy 7 WHITELIST), [], _, tt.
      split; [discriminate|]. apply final_ok. reflexivity.
    - eexists (sample_env 0), 7, (CModifyWhitelist 2 9 true), [], _, tt.
      split; [discriminate|]. apply final_ok. reflexivity. }
  split; [done|]. apply (reach403_step sample_403_b); [done|].
  eexists (sample_env 0), 8, (CCreateCompound 2 1 0), [], _, tt.
  split; [discriminate|]. apply final_ok. reflexivity.
Qed.

Lemma registry_wf_witness : Wf403 sample_403_c.
Proof. apply registry_wf. apply sample_403_reachable. Defined.

Lemma is_authorized_as_refines_witness :
  is_authorized_as (sample_env 0) sample_403_c 3 9 Sender = Ok true ∧
  is_authorized_as (sample_env 0) sample_403_c 3 10 Sender = Ok false ∧
  is_authorized_as (sample_env 0) sample_403_c 3 9 MintRecipient = Ok false.
Proof.
  split_and!; rewrite is_authorized_as_refines;
    first [reflexivity | apply sample_403_reachable | vm_compute; discriminate].
Defined.

Lemma modify_policy_effect_witness :
  is_authorized_as (sample_env 0) sample_403_b 2 9 Sender = Ok true.
Proof.
  apply (modify_policy_effect (sample_env 0) sample_403_a [] 7 2 9 true true tt sample_403_b
           [(TIP403_REGISTRY_ADDRESS, WhitelistUpdated 2 7 9 true)]);
    [discriminate | reflexivity].
Defined.

Lemma policy_change_needs_admin_witness :
  admin (base (policy_records sample_403_b).[2]) = 7 ∧
  is_compound (base (policy_records sample_403_b).[2]) = false.
Proof.
  apply (policy_change_needs_admin (sample_env 0) sample_403_b [] 7 (CModifyWhitelist 2 11 true) tt
           (final (exec403 7 (CModifyWhitelist 2 11 true)) (sample_env 0) sample_403_b)
           [(TIP403_REGISTRY_ADDRESS, WhitelistUpdated 2 7 11 true)] 2).
  - apply sample_403_reachable.
  - discriminate.
  - vm_compute; reflexivity.
  - reflexivity.
  - right. exists 11. vm_compute. discriminate.
Defined.
End examples.
