(* ===== verification/StorageSet.v ===== *)
(** * Set storage ([src/crates/tempo-precompiles/src/storage/types/set.rs])

    The enumerable set of the precompile storage: a vector of values with its
    length slot and a mapping from each value to its 1-based position, 0 meaning
    absent.  Removal swaps the last value into the hole. *)
From Stdlib Require Import ZArith Lia.
From stdpp Require Import base tactics option list fin_maps gmap sets.
From S2P Require Import Prelude Base.
Open Scope Z_scope.
Open Scope storage_scope.

Section set.
Context {T : Type} `{Countable T} `{Zeroed T}.
(** [VecHandler::max_index] of the element type. *)
Context (max_index : Z).

Record SetStore := mkSet {
  set_len : Z;
  set_values : gmap Z T;
  set_positions : gmap T Z;
}.

Definition set_empty : SetStore := mkSet 0 ∅ ∅.

Definition write_len (n : Z) (s : SetStore) : SetStore :=
  mkSet n (set_values s) (set_positions s).
Definition write_value (i : Z) (v : T) (s : SetStore) : SetStore :=
  mkSet (set_len s) (<[i:=v]> (set_values s)) (set_positions s).
Definition delete_value (i : Z) (s : SetStore) : SetStore :=
  mkSet (set_len s) (delete i (set_values s)) (set_positions s).
Definition write_position (v : T) (p : Z) (s : SetStore) : SetStore :=
  mkSet (set_len s) (set_values s) (<[v:=p]> (set_positions s)).
Definition delete_position (v : T) (s : SetStore) : SetStore :=
  mkSet (set_len s) (set_values s) (delete v (set_positions s)).

Definition checked_position (index : Z) : Result Z :=
  ok_or (i ← try_into U32_MAX index; checked_add U32_MAX i 1) under_overflow.

Definition set_is_empty (s : SetStore) : bool := set_len s =? 0.

Definition set_contains (s : SetStore) (v : T) : bool := negb ((set_positions s).[v] =? 0).

(** [VecHandler::push]. *)
Definition vec_push (v : T) : M SetStore unit :=
  length ← gets set_len;
  require (length <? max_index) Fatal;;
  modify (write_value length v);;
  modify (write_len (length + 1)).

Definition set_insert (v : T) : M SetStore bool :=
  present ← gets (λ s, set_contains s v);
  if present : bool then mret false
  else
    length ← gets set_len;
    position ← lift (checked_position length);
    modify (write_position v position);;
    vec_push v;;
    mret true.

Definition set_remove (v : T) : M SetStore bool :=
  position ← gets (λ s, (set_positions s).[v]);
  if position =? 0 then mret false
  else
    len ← gets set_len;
    let last_index := len - 1 in
    let index := position - 1 in
    when (negb (index =? last_index)) (
      last_value ← gets (λ s, (set_values s).[last_index]);
      modify (write_position last_value position);;
      modify (write_value index last_value));;
    modify (delete_value last_index);;
    modify (write_len last_index);;
    modify (delete_position v);;
    mret true.

Definition set_at (s : SetStore) (index : Z) : option T :=
  if set_len s <=? index then None else Some (set_values s).[index].

Definition set_read (s : SetStore) : list T :=
  map (λ i, (set_values s).[i]) (seqZ 0 (set_len s)).

(** [values.delete()]: clears the length slot and every element slot. *)
Definition vec_delete : M SetStore unit :=
  length ← gets set_len;
  modify (write_len 0);;
  mfor (seqZ 0 length) (λ i, modify (delete_value i)).

Definition clear_positions (len : Z) : M SetStore unit :=
  mfor (seqZ 0 len) (λ i,
    value ← gets (λ s, (set_values s).[i]);
    modify (delete_position value)).

Definition set_delete : M SetStore unit :=
  len ← gets set_len;
  clear_positions len;;
  vec_delete.

(** One iteration of the loop of [write]: the value and its position. *)
Definition write_slot (iv : Z * T) : M SetStore unit :=
  position ← lift (checked_position iv.1);
  modify (write_position iv.2 position);;
  modify (write_value iv.1 iv.2).

Definition set_write (value : list T) : M SetStore unit :=
  old_len ← gets set_len;
  let new_len := Z.of_nat (length value) in
  clear_positions old_len;;
  mfor (zip (seqZ 0 new_len) value) write_slot;;
  modify (write_len new_len);;
  mfor (seqZ new_len (old_len - new_len)) (λ i, modify (delete_value i)).

(** [Set::from(Vec)]: first occurrences, in order. *)
Fixpoint set_from_vec_loop (seen : gset T) (l : list T) : list T :=
  match l with
  | [] => []
  | x :: l => if decide (x ∈ seen) then set_from_vec_loop seen l
              else x :: set_from_vec_loop ({[x]} ∪ seen) l
  end.
Definition set_from_vec (l : list T) : list T := set_from_vec_loop ∅ l.

(** ** The invariant and the abstract set *)

(** Values and positions are inverse of each other on the first [set_len] slots. *)
Record SetInv (s : SetStore) : Prop := {
  sinv_len : 0 ≤ set_len s;
  sinv_pos i : 0 ≤ i < set_len s → (set_positions s).[(set_values s).[i]] = i + 1;
  sinv_val v : (set_positions s).[v] ≠ 0 →
    1 ≤ (set_positions s).[v] ≤ set_len s ∧ (set_values s).[(set_positions s).[v] - 1] = v;
}.

(** ** Operations as a sequence, and the mathematical set they should implement *)
Inductive SetOp :=
| OInsert (v : T)
| ORemove (v : T)
| ODelete
| OWrite (vs : list T).

(** [write] takes a [Set], whose vector has no duplicates. *)
Definition op_valid (op : SetOp) : Prop :=
  match op with
  | OWrite vs => NoDup vs ∧ Z.of_nat (length vs) ≤ U32_MAX
  | _ => True
  end.

Definition run_op (op : SetOp) : M SetStore bool :=
  match op with
  | OInsert v => set_insert v
  | ORemove v => set_remove v
  | ODelete => set_delete;; mret true
  | OWrite vs => set_write vs;; mret true
  end.

(** The specification: the answer and the new set. *)
Definition abs_op (op : SetOp) (X : gset T) : bool * gset T :=
  match op with
  | OInsert v => (bool_decide (v ∉ X), {[v]} ∪ X)
  | ORemove v => (bool_decide (v ∈ X), X ∖ {[v]})
  | ODelete => (true, ∅)
  | OWrite vs => (true, list_to_set vs)
  end.

(** The storage [s] represents [X]. *)
Definition represents (s : SetStore) (X : gset T) : Prop :=
  SetInv s ∧ ∀ v, set_contains s v = bool_decide (v ∈ X).

Fixpoint run_ops (e : Env) (ops : list SetOp) (s : SetStore) (answers : list bool)
    (s' : SetStore) : Prop :=
  match ops, answers with
  | [], [] => s' = s
  | op :: ops, b :: bs => ∃ s1, (∀ l, run_op op e (s, l) = (Ok b, (s1, l))) ∧ run_ops e ops s1 bs s'
  | _, _ => False
  end.

Fixpoint abs_ops (ops : list SetOp) (X : gset T) : list bool * gset T :=
  match ops with
  | [] => ([], X)
  | op :: ops => let '(b, X1) := abs_op op X in
                 let '(bs, X2) := abs_ops ops X1 in (b :: bs, X2)
  end.

(** ** Proofs *)
Implicit Types (s : SetStore) (v : T) (e : Env).

Lemma SetInv_empty : SetInv set_empty.
Proof. constructor; cbn; [lia|intros; lia|]. intros v. by rewrite mread_empty. Qed.

Lemma set_contains_spec s v : set_contains s v = true ↔ (set_positions s).[v] ≠ 0.
Proof. unfold set_contains. rewrite negb_true_iff, Z.eqb_neq. done. Qed.

Lemma set_insert_silent v : silent (set_insert v).
Proof. unfold set_insert, vec_push. solve_silent. Qed.
Lemma set_remove_silent v : silent (set_remove v).
Proof. unfold set_remove. solve_silent. Qed.
Lemma set_delete_silent : silent set_delete.
Proof. unfold set_delete, clear_positions, vec_delete. solve_silent. Qed.
Lemma set_write_silent vs : silent (set_write vs).
Proof. unfold set_write, clear_positions, write_slot. solve_silent. Qed.

Lemma set_is_empty_spec s : SetInv s → set_is_empty s = true ↔ ∀ v, set_contains s v = false.
Proof.
  intros [Hlen Hpos Hval]. unfold set_is_empty. rewrite Z.eqb_eq. split.
  - intros Hl v. destruct (set_contains s v) eqn:Hc; [|done].
    apply set_contains_spec, Hval in Hc as [? _]. lia.
  - intros Hc. destruct (decide (set_len s = 0)) as [|Hne]; [done|].
    pose proof (Hpos 0 ltac:(lia)) as Hfst. specialize (Hc (set_values s).[0]).
    unfold set_contains in Hc. rewrite Hfst in Hc. done.
Qed.

Lemma set_insert_ok e s l v b s' l' :
  SetInv s → set_insert v e (s, l) = (Ok b, (s', l')) →
  SetInv s' ∧ b = negb (set_contains s v) ∧
  (∀ w, set_contains s' w = bool_decide (w = v) || set_contains s w) ∧ l' = l.
Proof.
  intros [Hlen Hpos Hval] Hrun. unfold set_insert, vec_push in Hrun.
  minvs; cbn in *; subst.
  - rename Heqb0 into Hc. rewrite ?Hc. split_and!; try done.
    intros w. case_bool_decide; cbn; congruence.
  - rename Heqb0 into Hc. rewrite ?Hc. unfold checked_position in *. rinvs.
    destruct (try_into U32_MAX (set_len s)) eqn:Ht; cbn in *; [|done]. ariths.
    assert (Hv : (set_positions s).[v] = 0).
    { unfold set_contains in Hc. bprop. done. }
    split_and!; [|done| |done].
    + constructor; cbn; [lia| |].
      * intros i Hi. rewrite (mread_insert (set_values s) _ i). case_decide as Hi'.
        { subst i. by rewrite mread_insert_eq. }
        rewrite mread_insert_ne by (intros Heq; specialize (Hpos i ltac:(lia)); rewrite <- Heq in Hpos; lia).
        apply Hpos. lia.
      * intros w. rewrite mread_insert. case_decide as Hw.
        { subst w. intros _. split; [lia|]. rewrite mread_insert. case_decide; [done|lia]. }
        intros Hp. destruct (Hval w Hp) as [? Hvw]. split; [lia|]. rewrite mread_insert_ne by lia. done.
    + intros w. unfold set_contains. cbn. rewrite mread_insert.
      repeat case_decide; case_bool_decide; subst; cbn; try done.
      destruct (Z.eqb_spec (set_len s + 1) 0); [lia|done].
Qed.

Lemma set_remove_ok e s l v b s' l' :
  SetInv s → set_remove v e (s, l) = (Ok b, (s', l')) →
  SetInv s' ∧ b = set_contains s v ∧
  (∀ w, set_contains s' w = negb (bool_decide (w = v)) && set_contains s w) ∧ l' = l.
Proof.
  intros [Hlen Hpos Hval] Hrun. unfold set_remove in Hrun. minvs; cbn in *; subst; bprop.
  - assert (set_contains s v = false) as Hc
      by (unfold set_contains; rewrite negb_false_iff; by apply Z.eqb_eq).
    split_and!; try done. intros w. case_bool_decide; subst; cbn; congruence.
  - (* swap with the last value *)
    destruct (Hval v) as [Hp Hvv]; [done|].
    pose proof (Hpos (set_len s - 1) ltac:(lia)) as Hlast.
    set (lv := (set_values s).[set_len s - 1]) in *.
    assert (Hne : lv ≠ v) by (intros Heq; rewrite Heq in Hlast; lia).
    split_and!; [| | |done].
    + constructor; cbn; [lia| |].
      * intros i Hi. rewrite (mread_delete_ne _ (set_len s - 1) i) by lia.
        rewrite (mread_insert _ _ i). case_decide as Hi'.
        { rewrite mread_delete_ne, mread_insert_eq by done. lia. }
        assert (Hiv : (set_values s).[i] ≠ v).
        { intros Heq. specialize (Hpos i ltac:(lia)). rewrite Heq in Hpos. lia. }
        assert (Hil : (set_values s).[i] ≠ lv).
        { intros Heq. specialize (Hpos i ltac:(lia)). rewrite Heq in Hpos. lia. }
        rewrite mread_delete_ne, mread_insert_ne by congruence. apply Hpos. lia.
      * intros w. destruct (decide (v = w)) as [<-|Hw]; [by rewrite mread_delete_eq|].
        rewrite mread_delete_ne by done. rewrite mread_insert. case_decide as Hwl.
        { subst w. intros _. split; [lia|]. rewrite mread_delete_ne by lia. apply mread_insert_eq. }
        intros Hwp. destruct (Hval w Hwp) as [? Hww].
        assert ((set_positions s).[w] ≠ set_len s).
        { intros Heq. rewrite Heq in Hww. fold lv in Hww. congruence. }
        split; [lia|]. rewrite mread_delete_ne by lia. rewrite mread_insert_ne; [done|].
        intros Heq. rewrite <- Heq, Hvv in Hww. congruence.
    + symmetry. by apply set_contains_spec.
    + intros w. unfold set_contains. cbn. case_bool_decide as Hw; cbn.
      { subst. by rewrite mread_delete_eq. }
      rewrite mread_delete_ne by congruence. rewrite mread_insert. case_decide; [|done].
      subst w. rewrite Hlast.
      destruct (Z.eqb_spec (set_positions s).[v] 0), (Z.eqb_spec (set_len s - 1 + 1) 0); lia || done.
  - (* already last *)
    destruct (Hval v) as [Hp Hvv]; [done|].
    split_and!; [| | |done].
    + constructor; cbn; [lia| |].
      * intros i Hi. rewrite (mread_delete_ne _ (set_len s - 1) i) by lia.
        rewrite mread_delete_ne; [apply Hpos; lia|].
        intros Heq. specialize (Hpos i ltac:(lia)). rewrite <- Heq in Hpos. lia.
      * intros w. destruct (decide (v = w)) as [<-|Hw]; [by rewrite mread_delete_eq|].
        rewrite mread_delete_ne by done. intros Hwp. destruct (Hval w Hwp) as [? Hww].
        assert ((set_positions s).[w] ≠ (set_positions s).[v]).
        { intros Heq. rewrite Heq in Hww. congruence. }
        split; [lia|]. rewrite mread_delete_ne by lia. done.
    + symmetry. by apply set_contains_spec.
    + intros w. unfold set_contains. cbn. case_bool_decide as Hw; cbn.
      { subst. by rewrite mread_delete_eq. }
      by rewrite mread_delete_ne by congruence.
Qed.

(** [read] enumerates the set without repetition. *)
Lemma set_read_spec s :
  SetInv s → NoDup (set_read s) ∧ ∀ v, v ∈ set_read s ↔ set_contains s v = true.
Proof.
  intros [Hlen Hpos Hval]. unfold set_read. split.
  - apply NoDup_fmap_2_strong; [|apply NoDup_seqZ].
    intros i j Hi%elem_of_seqZ Hj%elem_of_seqZ Heq.
    pose proof (Hpos i ltac:(lia)). pose proof (Hpos j ltac:(lia)). rewrite Heq in *. lia.
  - intros v. rewrite set_contains_spec, list_elem_of_fmap. split.
    + intros (i & -> & Hi%elem_of_seqZ). rewrite Hpos by lia. lia.
    + intros Hv. destruct (Hval v Hv) as [? Hvv]. exists ((set_positions s).[v] - 1).
      split; [done|]. apply elem_of_seqZ. lia.
Qed.

Lemma foldl_delete_position (ks : list Z) s :
  let s' := foldl (λ s i, delete_position (set_values s).[i] s) s ks in
  set_len s' = set_len s ∧ set_values s' = set_values s ∧
  ∀ v, (set_positions s').[v] =
       if decide (v ∈ map (λ i, (set_values s).[i]) ks) then 0 else (set_positions s).[v].
Proof.
  cbn. revert s. induction ks as [|i ks IH]; intros s; cbn.
  { split_and!; done. }
  destruct (IH (delete_position (set_values s).[i] s)) as (-> & -> & Hp).
  split_and!; try done. intros v. rewrite Hp. cbn.
  destruct (decide ((set_values s).[i] = v)) as [<-|Hne].
  - rewrite mread_delete_eq. repeat case_decide; set_solver.
  - rewrite mread_delete_ne by done. repeat case_decide; set_solver.
Qed.

(** Clearing the positions of all the values leaves no element. *)
Lemma clear_positions_ok e s l :
  SetInv s → ∃ s', clear_positions (set_len s) e (s, l) = (Ok tt, (s', l)) ∧
    set_len s' = set_len s ∧ set_values s' = set_values s ∧ ∀ v, (set_positions s').[v] = 0.
Proof.
  intros Hinv. unfold clear_positions.
  rewrite (mfor_total (λ s i, delete_position (set_values s).[i] s)) by done.
  eexists; split; [done|]. cbn [fst].
  destruct (foldl_delete_position (seqZ 0 (set_len s)) s) as (-> & -> & Hp).
  split_and!; try done. intros v. rewrite Hp. case_decide as Hv; [done|].
  destruct (decide ((set_positions s).[v] = 0)) as [|Hnz]; [done|].
  destruct Hv. by apply (set_read_spec s Hinv), set_contains_spec.
Qed.

Lemma foldl_delete_value (ks : list Z) s :
  let s' := foldl (λ s i, delete_value i s) s ks in
  set_len s' = set_len s ∧ set_positions s' = set_positions s ∧
  ∀ i, i ∉ ks → (set_values s').[i] = (set_values s).[i].
Proof.
  cbn. revert s. induction ks as [|j ks IH]; intros s; cbn; [done|].
  destruct (IH (delete_value j s)) as (-> & -> & Hv). split_and!; try done.
  intros i [? ?]%not_elem_of_cons. rewrite Hv by done. cbn. by apply mread_delete_ne.
Qed.

Lemma set_delete_ok e s l :
  SetInv s → ∃ s', set_delete e (s, l) = (Ok tt, (s', l)) ∧
    SetInv s' ∧ set_is_empty s' = true ∧ ∀ v, set_contains s' v = false.
Proof.
  intros Hinv. destruct (clear_positions_ok e s l Hinv) as (s1 & Hrun & Hlen & Hval & Hpos).
  unfold set_delete, vec_delete, mbind, M_bind, gets, modify. cbn [fst snd].
  rewrite Hrun. cbn [fst snd]. rewrite (mfor_total (λ s i, delete_value i s)) by done.
  cbn [fst snd]. eexists; split; [done|].
  destruct (foldl_delete_value (seqZ 0 (set_len s1)) (write_len 0 s1)) as (Hl & Hp & _).
  assert (Hz : ∀ v, (set_positions (foldl (λ s i, delete_value i s) (write_len 0 s1)
                       (seqZ 0 (set_len s1)))).[v] = 0) by (intros v; rewrite Hp; apply Hpos).
  split_and!.
  - constructor; rewrite Hl; cbn; [lia|lia|]. intros v. by rewrite Hz.
  - unfold set_is_empty. by rewrite Hl.
  - intros v. unfold set_contains. by rewrite Hz.
Qed.

Lemma write_slot_ok e (iv : Z * T) st :
  iv.1 + 1 ≤ U32_MAX →
  write_slot iv e st =
    (Ok tt, (write_value iv.1 iv.2 (write_position iv.2 (iv.1 + 1) st.1), st.2)).
Proof.
  intros Hi. unfold write_slot, mbind, M_bind, lift, checked_position, try_into, checked_add, ok_or.
  destruct (Z.leb_spec iv.1 U32_MAX); [|lia]. cbn.
  destruct (Z.leb_spec (iv.1 + 1) U32_MAX); [done|lia].
Qed.

(** The loop of [write] over the values from index [k] on. *)
Lemma write_loop_ok e (vs : list T) k s l :
  0 ≤ k → k + Z.of_nat (length vs) ≤ U32_MAX → NoDup vs →
  ∃ s', mfor (zip (seqZ k (Z.of_nat (length vs))) vs) write_slot e (s, l) = (Ok tt, (s', l)) ∧
    set_len s' = set_len s ∧
    (∀ j v, vs !! j = Some v → (set_values s').[k + Z.of_nat j] = v ∧
                               (set_positions s').[v] = k + Z.of_nat j + 1) ∧
    (∀ v, v ∉ vs → (set_positions s').[v] = (set_positions s).[v]) ∧
    (∀ i, i < k → (set_values s').[i] = (set_values s).[i]).
Proof.
  revert k s. induction vs as [|v vs IH]; intros k s Hk Hmax Hnd; [by exists s|].
  apply NoDup_cons in Hnd as [Hv Hnd].
  cbn [length]. rewrite seqZ_cons by lia. cbn [zip zip_with mfor].
  replace (Z.pred (Z.of_nat (S (length vs)))) with (Z.of_nat (length vs)) by lia.
  cbn [length] in Hmax. unfold mbind, M_bind. rewrite write_slot_ok by (cbn; lia). cbn [fst snd].
  destruct (IH (Z.succ k) (write_value k v (write_position v (k + 1) s)))
    as (s' & -> & Hlen & Hjs & Hps & Hvs); [lia..|done|].
  exists s'. split_and!; [done|done| | |].
  - intros [|j] w; cbn.
    + intros [= ->]. rewrite Z.add_0_r. rewrite Hvs, Hps by (done || lia). cbn.
      by rewrite !mread_insert_eq.
    + intros Hj. destruct (Hjs j w Hj) as [Hw1 Hw2].
      replace (k + Z.of_nat (S j)) with (Z.succ k + Z.of_nat j) by lia. done.
  - intros w [? ?]%not_elem_of_cons. rewrite Hps by done. cbn. by apply mread_insert_ne.
  - intros i Hi. rewrite Hvs by lia. cbn. rewrite mread_insert_ne by lia. done.
Qed.

Lemma set_write_ok e s l (vs : list T) :
  SetInv s → NoDup vs → Z.of_nat (length vs) ≤ U32_MAX →
  ∃ s', set_write vs e (s, l) = (Ok tt, (s', l)) ∧ SetInv s' ∧
    set_len s' = Z.of_nat (length vs) ∧ ∀ v, set_contains s' v = bool_decide (v ∈ vs).
Proof.
  intros Hinv Hnd Hmax. destruct (clear_positions_ok e s l Hinv) as (s1 & Hrun & _ & _ & Hz).
  unfold set_write, mbind, M_bind, gets, modify. cbn [fst snd]. rewrite Hrun.
  destruct (write_loop_ok e vs 0 s1 l) as (s2 & Hloop & _ & Hjs & Hps & _); [lia..|done|].
  rewrite Hloop. cbn [fst snd].
  rewrite (mfor_total (λ s i, delete_value i s)) by done.
  cbn [fst snd]. eexists; split; [done|].
  set (n := Z.of_nat (length vs)) in *.
  destruct (foldl_delete_value (seqZ n (set_len s - n)) (write_len n s2)) as (Hl & Hp & Hv).
  set (s3 := foldl _ _ _) in *. cbn in Hl, Hp, Hv.
  assert (Hin : ∀ v, v ∈ vs → ∃ j, vs !! j = Some v ∧ Z.of_nat j < n).
  { intros v [j Hj]%list_elem_of_lookup. exists j. split; [done|].
    apply lookup_lt_Some in Hj. lia. }
  assert (Hout : ∀ v, v ∉ vs → (set_positions s3).[v] = 0).
  { intros v Hv'. rewrite Hp, Hps by done. apply Hz. }
  split_and!; [|done|].
  - constructor; rewrite ?Hl; [lia| |].
    + intros i Hi. rewrite Hv by (rewrite elem_of_seqZ; lia).
      destruct (lookup_lt_is_Some_2 vs (Z.to_nat i)) as [v Hvi]; [lia|].
      destruct (Hjs _ _ Hvi) as [H1 H2]. rewrite Z2Nat.id, Z.add_0_l in * by lia.
      rewrite H1, Hp, H2. lia.
    + intros v Hnz. destruct (decide (v ∈ vs)) as [Hin'|Hni]; [|by rewrite Hout in Hnz].
      destruct (Hin v Hin') as (j & Hj & Hlt). destruct (Hjs _ _ Hj) as [H1 H2].
      rewrite Hp, H2. split; [lia|]. rewrite Hv by (rewrite elem_of_seqZ; lia).
      rewrite <- H1. f_equal. lia.
  - intros v. unfold set_contains. case_bool_decide as Hv'.
    + destruct (Hin v Hv') as (j & Hj & _). destruct (Hjs _ _ Hj) as [_ H2].
      rewrite Hp, H2. destruct (Z.eqb_spec (0 + Z.of_nat j + 1) 0); [lia|done].
    + by rewrite Hout.
Qed.

(** A write that succeeds fits the position type. *)
Lemma set_write_len e s l (vs : list T) u st' :
  set_write vs e (s, l) = (Ok u, st') → Z.of_nat (length vs) ≤ U32_MAX.
Proof.
  intros Hrun. destruct (Z.le_gt_cases (Z.of_nat (length vs)) U32_MAX) as [|Hgt]; [done|exfalso].
  unfold set_write in Hrun. minvs.
  destruct (lookup_lt_is_Some_2 vs (Z.to_nat U32_MAX)) as [v Hv]; [unfold U32_MAX in *; lia|].
  destruct (mfor_ok_elem _ _ _ _ _ _ (U32_MAX, v) Hrun2) as ([? ?] & st2 & Hb).
  - apply list_elem_of_lookup. exists (Z.to_nat U32_MAX). apply lookup_zip_Some.
    split; [|done]. rewrite lookup_seqZ. unfold U32_MAX in *. lia.
  - unfold write_slot in Hb. minvs. cbn in *. unfold checked_position in *. rinvs. done.
Qed.

Lemma run_op_refines e op s l b s' l' X :
  op_valid op → represents s X → run_op op e (s, l) = (Ok b, (s', l')) →
  b = (abs_op op X).1 ∧ represents s' (abs_op op X).2.
Proof.
  intros Hop [Hinv HX] Hrun. destruct op as [v|v| |vs]; cbn in *.
  - apply set_insert_ok in Hrun as (Hinv' & -> & Hc & _); [|done].
    split; [rewrite HX; repeat case_bool_decide; done|]. split; [done|].
    intros w. rewrite Hc, HX. repeat case_bool_decide; set_solver.
  - apply set_remove_ok in Hrun as (Hinv' & -> & Hc & _); [|done].
    split; [done|]. split; [done|].
    intros w. rewrite Hc, HX. repeat case_bool_decide; set_solver.
  - destruct (set_delete_ok e s l Hinv) as (s1 & Hd & Hinv' & _ & Hc). minvs.
    rewrite Hd in Hrun0. simplify_eq. split; [done|]. split; [done|].
    intros w. rewrite Hc. by rewrite bool_decide_eq_false_2 by set_solver.
  - destruct Hop as [Hnd Hlen].
    destruct (set_write_ok e s l vs Hinv Hnd Hlen) as (s1 & Hd & Hinv' & _ & Hc). minvs.
    rewrite Hd in Hrun0. simplify_eq. split; [done|]. split; [done|].
    intros w. rewrite Hc. apply bool_decide_ext. by rewrite elem_of_list_to_set.
Qed.

(** C9: the storage set implements a mathematical set.  Whatever sequence of
    insertions, removals, deletions and bulk writes is run on a fresh set, every
    answer is the one of the mathematical set, membership is its membership, and
    reading the set enumerates it without repetition. *)
Theorem set_refines_gset e ops answers s' :
  Forall op_valid ops → run_ops e ops set_empty answers s' →
  answers = (abs_ops ops ∅).1 ∧
  (∀ v, set_contains s' v = bool_decide (v ∈ (abs_ops ops ∅).2)) ∧
  NoDup (set_read s') ∧ list_to_set (set_read s') = (abs_ops ops ∅).2.
Proof.
  intros Hops Hrun.
  assert (represents set_empty ∅) as Hrep.
  { split; [apply SetInv_empty|]. intros v. rewrite bool_decide_eq_false_2 by set_solver.
    unfold set_contains. cbn. by rewrite mread_empty. }
  revert Hrep Hrun. generalize set_empty (∅ : gset T). revert answers.
  induction Hops as [|op ops Hop _ IH]; intros answers s X Hrep Hrun.
  - destruct answers; [|done]. cbn in *. subst. destruct Hrep as [Hinv HX].
    destruct (set_read_spec s Hinv) as [Hnd Hread]. split_and!; try done.
    apply set_eq. intros v. rewrite elem_of_list_to_set, Hread, HX. apply bool_decide_eq_true.
  - destruct answers as [|b bs]; [done|]. cbn in Hrun. destruct Hrun as (s1 & Hop1 & Hrest).
    destruct (run_op_refines e op s [] b s1 [] X Hop Hrep (Hop1 [])) as [-> Hrep1].
    cbn. destruct (abs_op op X) as [b1 X1]. cbn in Hrep1.
    destruct (IH bs s1 X1 Hrep1 Hrest) as (-> & Hmem & Hnd & Hset).
    destruct (abs_ops ops X1) as [bs' X2]. done.
Qed.

(** [Set::from(Vec)] removes the duplicates and nothing else: its elements are
    those of the vector, each once, in order of first occurrence. *)
Theorem set_from_vec_spec (vs : list T) :
  NoDup (set_from_vec vs) ∧ (∀ v, v ∈ set_from_vec vs ↔ v ∈ vs) ∧
  set_from_vec vs `sublist_of` vs.
Proof.
  enough (∀ seen, NoDup (set_from_vec_loop seen vs) ∧
            (∀ v, v ∈ set_from_vec_loop seen vs ↔ v ∈ vs ∧ v ∉ seen) ∧
            set_from_vec_loop seen vs `sublist_of` vs) as Hg.
  { destruct (Hg ∅) as (Hnd & Hin & Hsub). unfold set_from_vec. split_and!; [done| |done].
    intros v. rewrite Hin. set_solver. }
  induction vs as [|x vs IH]; intros seen; cbn.
  { split_and!; [constructor|set_solver|constructor]. }
  case_decide as Hx.
  - destruct (IH seen) as (Hnd & Hin & Hsub). split_and!; [done| |by constructor].
    intros v. rewrite Hin. set_solver.
  - destruct (IH ({[x]} ∪ seen)) as (Hnd & Hin & Hsub). split_and!; [|  |by constructor].
    + constructor; [|done]. rewrite Hin. set_solver.
    + intros v. rewrite elem_of_cons, Hin. destruct (decide (v = x)); set_solver.
Qed.
End set.
Global Arguments SetStore T {_ _}.
Global Arguments set_contains : simpl never.
Global Arguments set_is_empty : simpl never.
Global Arguments set_read : simpl never.
#[export] Hint Resolve set_insert_silent set_remove_silent set_delete_silent set_write_silent : silent.

(** ** A concrete run *)
Lemma set_refines_gset_witness :
  ∃ s : SetStore Z, run_ops U32_MAX (sample_env 0)
    [OInsert 5; OInsert 7; OInsert 5; OInsert 9; ORemove 5; ORemove 5] set_empty
    [true; true; false; true; true; false] s ∧ list_to_set (set_read s) =@{gset Z} {[7; 9]}.
Proof.
  eexists. 
  assert (Hrun : run_ops U32_MAX (sample_env 0)
    [OInsert 5; OInsert 7; OInsert 5; OInsert 9; ORemove 5; ORemove 5] set_empty
    [true; true; false; true; true; false]
    (final (set_insert U32_MAX 5;; set_insert U32_MAX 7;; set_insert U32_MAX 9;;
            set_remove 5) (sample_env 0) set_empty)).
  { repeat (eexists; split; [intros l; vm_compute; reflexivity|]). vm_compute. reflexivity. }
  split; [exact Hrun|].
  apply set_refines_gset in Hrun as (_ & _ & _ & ->); [reflexivity|].
  repeat constructor.
Defined.
