(* ===== verification/AddressRegistry.v ===== *)
(** * AddressRegistry ([src/crates/tempo-precompiles/src/address_registry/mod.rs])

    The registry of virtual-address masters: a 4-byte master id, earned by a
    proof of work, names the account that receives what is sent to the virtual
    addresses carrying that id. *)
From Stdlib Require Import ZArith Lia.
From stdpp Require Import base tactics option list fin_maps gmap.
From S2P Require Import Prelude Base.
Open Scope Z_scope.
Open Scope storage_scope.

Notation MasterId := Z (only parsing).

Record RegistryData := mkRegistryData {
  master_address_slot : Address;
  reserved : Z;
  ty : Z;
}.
Global Instance RegistryData_zeroed : Zeroed RegistryData := mkRegistryData ZERO 0 0.

Record AddressRegistry := mkAddressRegistry { data : gmap MasterId RegistryData }.
Definition address_registry_empty : AddressRegistry := mkAddressRegistry ∅.

Definition master_address (d : RegistryData) : option Address :=
  if master_address_slot d =? ZERO then None else Some (master_address_slot d).

Section registry.
Context `{Primitives}.

Definition get_master (s : AddressRegistry) (master_id : MasterId) : option Address :=
  master_address (data s).[master_id].

(** Bytes [0..4] and [4..8] of the registration hash. *)
Definition pow_prefix (registration_hash : B256) : Z := registration_hash / 2 ^ 224.
Definition master_id_of (registration_hash : B256) : MasterId :=
  (registration_hash / 2 ^ 192) mod 2 ^ 32.

Definition register_virtual_master (msg_sender : Address) (salt : B256) :
    M AddressRegistry MasterId :=
  require (addr_is_valid_master msg_sender) (AddrRegistryError AddrRegistryError.InvalidMasterAddress);;
  let registration_hash := keccak256 (abi_encode_packed [msg_sender; salt]) in
  require (pow_prefix registration_hash =? 0) (AddrRegistryError AddrRegistryError.ProofOfWorkFailed);;
  let master_id := master_id_of registration_hash in
  taken ← gets (λ s, get_master s master_id);
  match taken with
  | Some master => throw (AddrRegistryError (AddrRegistryError.MasterIdCollision master))
  | None =>
      modify (λ s, mkAddressRegistry (<[master_id := mkRegistryData msg_sender 0 0]> (data s)));;
      emit ADDRESS_REGISTRY_ADDRESS (MasterRegistered master_id msg_sender);;
      mret master_id
  end.

Definition resolve_recipient (e : Env) (s : AddressRegistry) (to : Address) : Result Address :=
  if negb (is_t3 (spec e)) then Ok to
  else match addr_decode_virtual to with
       | None => Ok to
       | Some (master_id, _) =>
           ok_or (get_master s master_id)
             (AddrRegistryError AddrRegistryError.VirtualAddressUnregistered)
       end.

Definition resolve_virtual_address (s : AddressRegistry) (addr : Address) : Address :=
  match addr_decode_virtual addr with
  | None => ZERO
  | Some (master_id, _) => default ZERO (get_master s master_id)
  end.

(** The registry after a list of registration attempts; a failed one is reverted. *)
Definition registrations (reqs : list (Env * Address * B256)) (s : AddressRegistry) :
    AddressRegistry :=
  fold_left (λ s r, final (atomically (register_virtual_master r.1.2 r.2)) r.1.1 s) reqs s.

(** ** Proofs *)
Lemma register_ok e s l sender salt id s' l' :
  register_virtual_master sender salt e (s, l) = (Ok id, (s', l')) →
  addr_is_valid_master sender = true ∧ id = master_id_of (keccak256 (abi_encode_packed [sender; salt])) ∧
  pow_prefix (keccak256 (abi_encode_packed [sender; salt])) = 0 ∧
  get_master s id = None ∧ data s' = <[id := mkRegistryData sender 0 0]> (data s).
Proof. unfold register_virtual_master. intros Hrun. minvs. bprop. done. Qed.

Lemma registration_keeps e s sender salt id m :
  get_master s id = Some m →
  get_master (final (atomically (register_virtual_master sender salt)) e s) id = Some m.
Proof.
  intros Hm. unfold final, atomically.
  destruct (register_virtual_master sender salt e (s, [])) as [[i|] [s' l']] eqn:Hrun; [|done].
  apply register_ok in Hrun as (_ & _ & _ & Hfree & Hd). cbn. unfold get_master in *. rewrite Hd.
  rewrite mread_insert_ne; [done|]. intros ->. congruence.
Qed.

(** A registration is permanent and exclusive.  After an account registers a
    master id, then whatever registrations are attempted later, every virtual
    address carrying that id resolves, as a transfer recipient and as a query, to
    that account and to no other. *)
Theorem registration_permanent e s l sender salt id s1 l1 reqs e' addr tag :
  sender ≠ ZERO → is_t3 (spec e') = true → addr_decode_virtual addr = Some (id, tag) →
  register_virtual_master sender salt e (s, l) = (Ok id, (s1, l1)) →
  resolve_recipient e' (registrations reqs s1) addr = Ok sender ∧
  resolve_virtual_address (registrations reqs s1) addr = sender.
Proof.
  intros Hz Ht3 Hdec Hrun.
  enough (get_master (registrations reqs s1) id = Some sender) as Hm.
  { unfold resolve_recipient, resolve_virtual_address. rewrite Ht3, Hdec. cbn. by rewrite Hm. }
  assert (get_master s1 id = Some sender) as H1.
  { apply register_ok in Hrun as (_ & _ & _ & _ & Hd). unfold get_master. rewrite Hd, mread_insert_eq.
    unfold master_address. cbn. by rewrite (proj2 (Z.eqb_neq _ _)). }
  revert H1. generalize s1. clear -H. induction reqs as [|r reqs IH]; intros s1 H1; [done|].
  cbn. apply IH. by apply registration_keeps.
Qed.
End registry.

(** ** A concrete run *)

(** A 20-byte address whose top bytes are [0xFE] is virtual, its id in the next 4. *)
Definition virtual_primitives : Primitives := {|
  keccak256 l := bytes_value l mod 2 ^ 224;
  abi_encode l := concat (map (be_bytes 32) l);
  abi_encode_packed l := concat (map (be_bytes 32) l);
  secp256k1_recover digest r p s := Some r;
  addr_is_tip20 a := a / 2 ^ 64 =? 0x20C000000000000000000000;
  addr_is_virtual a := a / 2 ^ 152 =? 0xFE;
  addr_is_valid_master a := negb (a =? 0);
  addr_decode_virtual a :=
    if a / 2 ^ 152 =? 0xFE then Some ((a / 2 ^ 120) mod 2 ^ 32, a mod 2 ^ 120) else None;
|}.

Section example.
Local Existing Instance virtual_primitives.

Definition sample_salt : B256 := 0x1234567800000000 * 2 ^ 160.
Definition sample_virtual : Address := 0xFE * 2 ^ 152 + 0x12345678 * 2 ^ 120 + 99.

Lemma registration_permanent_witness :
  resolve_recipient (sample_env 0)
    (registrations [(sample_env 5, 8, sample_salt); (sample_env 6, 9, 3)]
       (final (register_virtual_master 7 sample_salt) (sample_env 0) address_registry_empty))
    sample_virtual = Ok 7.
Proof.
  apply (registration_permanent (sample_env 0) address_registry_empty [] 7 sample_salt 0x12345678
    (final (register_virtual_master 7 sample_salt) (sample_env 0) address_registry_empty)
    (final_log (register_virtual_master 7 sample_salt) (sample_env 0) address_registry_empty)
    [(sample_env 5, 8, sample_salt); (sample_env 6, 9, 3)] (sample_env 0) sample_virtual 99).
  - discriminate.
  - reflexivity.
  - vm_compute. reflexivity.
  - vm_compute. reflexivity.
Defined.
End example.
