(* ===== verification/Keychain.v ===== *)
(** * Account keychain ([src/crates/tempo-precompiles/src/account_keychain/mod.rs])

    Access keys of an account with their expiry, permanent revocation, per-token
    (optionally periodic) spending limits and call scopes.  The nested storage
    structs are nested records; the enumerable sets are those of
    [StorageSet].  [TIP20Factory::is_tip20] of the surrounding state is an
    argument of the operations that ask it. *)
From Stdlib Require Import ZArith Lia.
From stdpp Require Import base tactics option list fin_maps gmap sets sorting.
From S2P Require Import Prelude Base StorageSet.
Open Scope Z_scope.
Open Scope storage_scope.

(** ** Data *)
Record AuthorizedKey := mkKey {
  signature_type : Z;
  expiry : Z;
  enforce_limits : bool;
  is_revoked : bool;
}.

Record SpendingLimitState := mkLimit {
  remaining : Z;
  limit_max : Z;
  period : Z;
  period_end : Z;
}.

Record SelectorScope := mkSelectorScope { recipients : SetStore Z }.
Record TargetScope := mkTargetScope {
  selectors : SetStore Z;
  selector_scopes : gmap Z SelectorScope;
}.
Record KeyScope := mkKeyScope {
  is_scoped : bool;
  targets : SetStore Z;
  target_scopes : gmap Z TargetScope;
}.

Global Instance AuthorizedKey_zeroed : Zeroed AuthorizedKey := mkKey 0 0 false false.
Global Instance SpendingLimitState_zeroed : Zeroed SpendingLimitState := mkLimit 0 0 0 0.
Global Instance SelectorScope_zeroed : Zeroed SelectorScope := mkSelectorScope set_empty.
Global Instance TargetScope_zeroed : Zeroed TargetScope := mkTargetScope set_empty ∅.
Global Instance KeyScope_zeroed : Zeroed KeyScope := mkKeyScope false set_empty ∅.

(** [keys[account][keyId]], [spending_limits[limit_key][token]],
    [key_scopes[key_hash]] and the two transient slots. *)
Record AccountKeychain := mkKeychain {
  keys : gmap (Address * Address) AuthorizedKey;
  spending_limits : gmap (B256 * Address) SpendingLimitState;
  key_scopes : gmap B256 KeyScope;
  transaction_key : Address;
  tx_origin : Address;
}.

Definition keychain_empty : AccountKeychain := mkKeychain ∅ ∅ ∅ ZERO ZERO.

(** Arguments of the calls. *)
Inductive SignatureType := Secp256k1 | P256 | WebAuthn | InvalidSigType.
Record TokenLimit := mkTokenLimit { tl_token : Address; tl_amount : Z; tl_period : Z }.
Record SelectorRule := mkRule { selector : Z; rule_recipients : list Address }.
Record CallScope := mkScope { target : Address; selectorRules : list SelectorRule }.
Record KeyRestrictions := mkRestrictions {
  cfg_expiry : Z;
  enforceLimits : bool;
  limits : list TokenLimit;
  allowAnyCalls : bool;
  allowedCalls : list CallScope;
}.
Record KeyInfo := mkKeyInfo {
  info_signatureType : SignatureType;
  info_keyId : Address;
  info_expiry : Z;
  info_enforceLimits : bool;
  info_isRevoked : bool;
}.
Inductive TxKind := TxCall (to : Address) | TxCreate.

(** ** Storage writes *)
Definition write_key (ak : Address * Address) (k : AuthorizedKey) (s : AccountKeychain) :=
  mkKeychain (<[ak:=k]> (keys s)) (spending_limits s) (key_scopes s) (transaction_key s) (tx_origin s).
Definition write_limit (r : B256 * Address) (v : SpendingLimitState) (s : AccountKeychain) :=
  mkKeychain (keys s) (<[r:=v]> (spending_limits s)) (key_scopes s) (transaction_key s) (tx_origin s).
Definition write_scope (h : B256) (v : KeyScope) (s : AccountKeychain) :=
  mkKeychain (keys s) (spending_limits s) (<[h:=v]> (key_scopes s)) (transaction_key s) (tx_origin s).
Definition write_transaction_key (k : Address) (s : AccountKeychain) :=
  mkKeychain (keys s) (spending_limits s) (key_scopes s) k (tx_origin s).
Definition write_tx_origin (o : Address) (s : AccountKeychain) :=
  mkKeychain (keys s) (spending_limits s) (key_scopes s) (transaction_key s) o.

Definition set_remaining (v : Z) (l : SpendingLimitState) : SpendingLimitState :=
  mkLimit v (limit_max l) (period l) (period_end l).
Definition set_is_scoped (b : bool) (k : KeyScope) : KeyScope :=
  mkKeyScope b (targets k) (target_scopes k).
Definition set_targets (t : SetStore Z) (k : KeyScope) : KeyScope :=
  mkKeyScope (is_scoped k) t (target_scopes k).
Definition set_target_scope (t : Address) (v : TargetScope) (k : KeyScope) : KeyScope :=
  mkKeyScope (is_scoped k) (targets k) (<[t:=v]> (target_scopes k)).
Definition set_selectors (x : SetStore Z) (t : TargetScope) : TargetScope :=
  mkTargetScope x (selector_scopes t).
Definition set_selector_scope (sel : Z) (v : SelectorScope) (t : TargetScope) : TargetScope :=
  mkTargetScope (selectors t) (<[sel:=v]> (selector_scopes t)).

(** The handlers of one row, one target and one selector. *)
Definition at_scope {A} (h : B256) : M KeyScope A → M AccountKeychain A :=
  zoom (λ s, (key_scopes s).[h]) (λ k s, write_scope h k s).
Definition at_targets {A} : M (SetStore Z) A → M KeyScope A := zoom targets set_targets.
Definition at_target {A} (t : Address) : M TargetScope A → M KeyScope A :=
  zoom (λ k, (target_scopes k).[t]) (set_target_scope t).
Definition at_selectors {A} : M (SetStore Z) A → M TargetScope A := zoom selectors set_selectors.
Definition at_recipients {A} (sel : Z) : M (SetStore Z) A → M TargetScope A :=
  zoom (λ t, recipients (selector_scopes t).[sel])
       (λ r, set_selector_scope sel (mkSelectorScope r)).

(** [VecHandler::max_index] for a 20-byte and for a 4-byte element. *)
Definition address_max_index : Z := U32_MAX.
Definition selector_max_index : Z := U32_MAX / 4.

Definition TIP20_TRANSFER_SELECTOR : Z := 0xa9059cbb.
Definition TIP20_APPROVE_SELECTOR : Z := 0x095ea7b3.
Definition TIP20_TRANSFER_WITH_MEMO_SELECTOR : Z := 0x95777d59.

Definition is_constrained_tip20_selector (s : Z) : bool :=
  (s =? TIP20_TRANSFER_SELECTOR) || (s =? TIP20_APPROVE_SELECTOR)
  || (s =? TIP20_TRANSFER_WITH_MEMO_SELECTOR).

Definition kerr (err : KeychainError.t) : TempoPrecompileError := AccountKeychainError err.

(** The loops [for x in l { if !seen.insert(f(x)) { return Err } }]. *)
Fixpoint all_new {A} `{Countable A} (seen : gset A) (l : list A) : bool :=
  match l with
  | [] => true
  | x :: l => if decide (x ∈ seen) then false else all_new ({[x]} ∪ seen) l
  end.

(** ** Pure helpers *)
Definition compute_next_period_end (l : SpendingLimitState) (current_timestamp : Z) : Z :=
  let elapsed := saturating_sub current_timestamp (period_end l) in
  let periods_elapsed := saturating_add U64_MAX (elapsed / period l) 1 in
  let advance := saturating_mul U64_MAX (period l) periods_elapsed in
  saturating_add U64_MAX (period_end l) advance.

Definition t3_spending_limit_cap (limit : Z) : Result Z :=
  if U128_MAX <? limit then Err (kerr KeychainError.InvalidSpendingLimit) else Ok limit.

Definition signature_type_u8 (t : SignatureType) : Result Z :=
  match t with
  | Secp256k1 => Ok 0
  | P256 => Ok 1
  | WebAuthn => Ok 2
  | InvalidSigType => Err (kerr KeychainError.InvalidSignatureType)
  end.

Definition load_active_key (s : AccountKeychain) (account key_id : Address)
    (current_timestamp : Z) : Result AuthorizedKey :=
  let key := (keys s).[(account, key_id)] in
  if is_revoked key then Err (kerr KeychainError.KeyAlreadyRevoked)
  else if expiry key =? 0 then Err (kerr KeychainError.KeyNotFound)
  else if expiry key <=? current_timestamp then Err (kerr KeychainError.KeyExpired)
  else Ok key.

Definition ensure_admin_caller (e : Env) (s : AccountKeychain) (msg_sender : Address) : Result unit :=
  ensure (transaction_key s =? ZERO) (kerr KeychainError.UnauthorizedCaller);;
  if is_t2 (spec e) then
    ensure (negb ((tx_origin s =? ZERO) || negb (tx_origin s =? msg_sender)))
      (kerr KeychainError.UnauthorizedCaller)
  else Ok tt.

Definition validate_keychain_authorization (s : AccountKeychain) (account key_id : Address)
    (current_timestamp : Z) (expected_sig_type : option Z) : Result AuthorizedKey :=
  key ← load_active_key s account key_id current_timestamp;
  match expected_sig_type with
  | Some t => if negb (signature_type key =? t)
              then Err (kerr (KeychainError.SignatureTypeMismatch (signature_type key) t))
              else Ok key
  | None => Ok key
  end.

Definition get_key (s : AccountKeychain) (account keyId : Address) : KeyInfo :=
  let key := (keys s).[(account, keyId)] in
  if (expiry key =? 0) || is_revoked key then
    mkKeyInfo Secp256k1 ZERO 0 false (is_revoked key)
  else
    let ty := if signature_type key =? 0 then Secp256k1
              else if signature_type key =? 1 then P256
              else if signature_type key =? 2 then WebAuthn else Secp256k1 in
    mkKeyInfo ty keyId (expiry key) (enforce_limits key) (is_revoked key).

Section keychain.
Context `{Primitives}.
(** [TIP20Factory::new().is_tip20(target)] in the surrounding state. *)
Context (is_tip20 : Address → bool).
Local Notation MK := (M AccountKeychain).
Local Notation self := ACCOUNT_KEYCHAIN_ADDRESS.

Definition spending_limit_key (account key_id : Address) : B256 :=
  keccak256 (address_bytes account ++ address_bytes key_id).

Definition effective_limit_state (e : Env) (s : AccountKeychain) (account key_id token : Address)
    (current_timestamp : Z) : Z * Z :=
  if (key_id =? ZERO) && is_t3 (spec e) then (0, 0) else
  let key := (keys s).[(account, key_id)] in
  if is_revoked key || (expiry key =? 0) then (0, 0)
  else if (expiry key <=? current_timestamp) && is_t3 (spec e) then (0, 0)
  else
    let row := (spending_limits s).[(spending_limit_key account key_id, token)] in
    if negb (is_t3 (spec e)) then (remaining row, 0)
    else if period row =? 0 then (remaining row, 0)
    else if current_timestamp <? period_end row then (remaining row, period_end row)
    else
      let elapsed := saturating_sub current_timestamp (period_end row) in
      let periods_elapsed := saturating_add U64_MAX (elapsed / period row) 1 in
      let advance := saturating_mul U64_MAX (period row) periods_elapsed in
      (limit_max row, saturating_add U64_MAX (period_end row) advance).

Definition effective_remaining_limit (e : Env) (s : AccountKeychain)
    (account key_id token : Address) (current_timestamp : Z) : Z :=
  (effective_limit_state e s account key_id token current_timestamp).1.

Definition get_remaining_limit_with_period (e : Env) (s : AccountKeychain)
    (account keyId token : Address) : Z * Z :=
  effective_limit_state e s account keyId token (now_u64 e).

Definition get_remaining_limit (e : Env) (s : AccountKeychain) (account keyId token : Address) : Z :=
  if negb (is_t2 (spec e)) then
    remaining (spending_limits s).[(spending_limit_key account keyId, token)]
  else (get_remaining_limit_with_period e s account keyId token).1.

(** *** The scope tree *)
Definition clear_target_selectors (account_key : B256) (t : Address) : MK unit :=
  at_scope account_key (at_target t (
    sels ← gets (λ ts, set_read (selectors ts));
    mfor sels (λ sel, at_recipients sel set_delete);;
    at_selectors set_delete)).

Definition clear_all_target_scopes (account_key : B256) : MK unit :=
  ts ← gets (λ s, set_read (targets (key_scopes s).[account_key]));
  mfor ts (λ t, clear_target_selectors account_key t);;
  at_scope account_key (at_targets set_delete).

Definition remove_target_scope (account_key : B256) (t : Address) : MK unit :=
  removed ← at_scope account_key (at_targets (set_remove t));
  if negb removed then mret tt
  else clear_target_selectors account_key t.

(** The recipients of one rule: constrained selector of a TIP-20 target, no zero
    address, no duplicate. *)
Definition rule_recipients_valid (t : Address) (rule : SelectorRule) : bool :=
  match rule_recipients rule with
  | [] => true
  | rs => is_constrained_tip20_selector (selector rule) && is_tip20 t
          && forallb (λ r, negb (r =? ZERO)) rs && all_new ∅ rs
  end.

Fixpoint validate_selector_rules_loop (t : Address) (seen : gset Z) (rules : list SelectorRule) :
    Result unit :=
  match rules with
  | [] => Ok tt
  | rule :: rules =>
      if decide (selector rule ∈ seen) then Err (kerr KeychainError.InvalidCallScope)
      else if negb (rule_recipients_valid t rule) then Err (kerr KeychainError.InvalidCallScope)
      else validate_selector_rules_loop t ({[selector rule]} ∪ seen) rules
  end.
Definition validate_selector_rules (t : Address) (rules : list SelectorRule) : Result unit :=
  validate_selector_rules_loop t ∅ rules.

Definition upsert_rule (is_t4 : bool) (rule : SelectorRule) : M TargetScope unit :=
  at_selectors (set_insert selector_max_index (selector rule));;
  match rule_recipients rule with
  | [] => when (negb is_t4) (at_recipients (selector rule) set_delete)
  | rs => at_recipients (selector rule) (set_write rs)
  end.

Definition upsert_target_scope (account_key : B256) (scope : CallScope) : MK unit :=
  e ← ask;
  let t := target scope in
  require (negb (t =? ZERO)) (kerr KeychainError.InvalidCallScope);;
  when (negb (bool_decide (length (selectorRules scope) = 0%nat)))
    (lift (validate_selector_rules t (selectorRules scope)));;
  at_scope account_key (at_targets (set_insert address_max_index t));;
  clear_target_selectors account_key t;;
  mfor (selectorRules scope) (λ rule,
    at_scope account_key (at_target t (upsert_rule (is_t4 (spec e)) rule))).

Definition replace_allowed_calls (account_key : B256) (allowed_calls : option (list CallScope)) :
    MK unit :=
  clear_all_target_scopes account_key;;
  match allowed_calls with
  | None => at_scope account_key (modify (set_is_scoped false))
  | Some scopes =>
      at_scope account_key (modify (set_is_scoped true));;
      require (all_new ∅ (map target scopes)) (kerr KeychainError.InvalidCallScope);;
      mfor scopes (λ scope, upsert_target_scope account_key scope)
  end.

(** *** Administration *)
Definition write_authorization_limit (limit_key : B256) (limit : TokenLimit) : MK unit :=
  e ← ask;
  if is_t3 (spec e) then
    let pe := if tl_period limit =? 0 then 0
              else saturating_add U64_MAX (now_u64 e) (tl_period limit) in
    cap ← lift (t3_spending_limit_cap (tl_amount limit));
    modify (write_limit (limit_key, tl_token limit)
              (mkLimit (tl_amount limit) cap (tl_period limit) pe))
  else
    row ← gets (λ s, (spending_limits s).[(limit_key, tl_token limit)]);
    modify (write_limit (limit_key, tl_token limit) (set_remaining (tl_amount limit) row)).

Definition apply_key_authorization_restrictions (account key_id : Address)
    (ls : list TokenLimit) (allowed_calls : option (list CallScope)) : MK unit :=
  e ← ask;
  let limit_key := spending_limit_key account key_id in
  mfor ls (λ limit, write_authorization_limit limit_key limit);;
  if negb (is_t3 (spec e)) then mret tt
  else replace_allowed_calls limit_key allowed_calls.

(** The hardfork gate on the restrictions: the scopes to apply. *)
Definition check_restrictions (e : Env) (config : KeyRestrictions) : Result (option (list CallScope)) :=
  if is_t3 (spec e) then
    (if enforceLimits config then
       ensure (all_new ∅ (map tl_token (limits config))) (kerr KeychainError.InvalidSpendingLimit)
     else Ok tt);;
    Ok (if allowAnyCalls config then None else Some (allowedCalls config))
  else
    ensure (negb (existsb (λ l, negb (tl_period l =? 0)) (limits config)))
      (kerr KeychainError.InvalidSpendingLimit);;
    ensure (negb (negb (allowAnyCalls config) || negb (bool_decide (length (allowedCalls config) = 0%nat))))
      (kerr KeychainError.InvalidCallScope);;
    Ok None.

Definition authorize_key (msg_sender keyId : Address) (signatureType : SignatureType)
    (config : KeyRestrictions) : MK unit :=
  e ← ask;
  s ← gets id;
  lift (ensure_admin_caller e s msg_sender);;
  require (negb (keyId =? ZERO)) (kerr KeychainError.ZeroPublicKey);;
  when (is_t0 (spec e))
    (require (now_u64 e <? cfg_expiry config) (kerr KeychainError.ExpiryInPast));;
  existing_key ← gets (λ s, (keys s).[(msg_sender, keyId)]);
  require (negb (0 <? expiry existing_key)) (kerr KeychainError.KeyAlreadyExists);;
  require (negb (is_revoked existing_key)) (kerr KeychainError.KeyAlreadyRevoked);;
  ty ← lift (signature_type_u8 signatureType);
  allowed_call_configs ← lift (check_restrictions e config);
  modify (write_key (msg_sender, keyId) (mkKey ty (cfg_expiry config) (enforceLimits config) false));;
  apply_key_authorization_restrictions msg_sender keyId
    (if enforceLimits config then limits config else []) allowed_call_configs;;
  emit self (KeyAuthorized msg_sender keyId ty (cfg_expiry config)).

Definition revoke_key (msg_sender keyId : Address) : MK unit :=
  e ← ask;
  s ← gets id;
  lift (ensure_admin_caller e s msg_sender);;
  key ← gets (λ s, (keys s).[(msg_sender, keyId)]);
  require (negb (expiry key =? 0)) (kerr KeychainError.KeyNotFound);;
  modify (write_key (msg_sender, keyId) (mkKey 0 0 false true));;
  emit self (KeyRevoked msg_sender keyId).

Definition update_spending_limit (msg_sender keyId token : Address) (newLimit : Z) : MK unit :=
  e ← ask;
  s ← gets id;
  lift (ensure_admin_caller e s msg_sender);;
  key ← lift (load_active_key s msg_sender keyId (now_u64 e));
  when (negb (enforce_limits key))
    (modify (write_key (msg_sender, keyId)
       (mkKey (signature_type key) (expiry key) true (is_revoked key))));;
  let row := (spending_limit_key msg_sender keyId, token) in
  limit_state ← gets (λ s, (spending_limits s).[row]);
  (if is_t3 (spec e) then
     cap ← lift (t3_spending_limit_cap newLimit);
     modify (write_limit row (mkLimit newLimit cap (period limit_state) (period_end limit_state)))
   else modify (write_limit row (set_remaining newLimit limit_state)));;
  emit self (SpendingLimitUpdated msg_sender keyId token newLimit).

Definition set_allowed_calls (msg_sender keyId : Address) (scopes : list CallScope) : MK unit :=
  e ← ask;
  require (is_t3 (spec e)) (kerr KeychainError.InvalidCallScope);;
  s ← gets id;
  lift (ensure_admin_caller e s msg_sender);;
  lift (load_active_key s msg_sender keyId (now_u64 e));;
  let key_hash := spending_limit_key msg_sender keyId in
  require (negb (bool_decide (length scopes = 0%nat))) (kerr KeychainError.InvalidCallScope);;
  require (all_new ∅ (map target scopes)) (kerr KeychainError.InvalidCallScope);;
  mfor scopes (λ scope, upsert_target_scope key_hash scope);;
  at_scope key_hash (modify (set_is_scoped true)).

Definition remove_allowed_calls (msg_sender keyId t : Address) : MK unit :=
  e ← ask;
  s ← gets id;
  lift (ensure_admin_caller e s msg_sender);;
  lift (load_active_key s msg_sender keyId (now_u64 e));;
  let key_hash := spending_limit_key msg_sender keyId in
  current_mode ← gets (λ s, is_scoped (key_scopes s).[key_hash]);
  if negb current_mode then mret tt
  else remove_target_scope key_hash t.

(** *** Queries *)
Definition scope_rules (k : KeyScope) (t : Address) : CallScope :=
  let ts := (target_scopes k).[t] in
  mkScope t (map (λ sel, mkRule sel (set_read (recipients (selector_scopes ts).[sel])))
                 (set_read (selectors ts))).

Definition get_allowed_calls (e : Env) (s : AccountKeychain) (account keyId : Address) :
    bool * list CallScope :=
  if keyId =? ZERO then (false, []) else
  let key := (keys s).[(account, keyId)] in
  if (expiry key =? 0) || is_revoked key || (expiry key <=? now_u64 e) then (true, []) else
  let k := (key_scopes s).[spending_limit_key account keyId] in
  if negb (is_scoped k) then (false, [])
  else (true, map (scope_rules k) (set_read (targets k))).

(** [input] is the list of calldata bytes. *)
Definition validate_call_scope_for_transaction (e : Env) (s : AccountKeychain)
    (account key_id : Address) (to : TxKind) (input : list Z) : Result unit :=
  if (key_id =? ZERO) || negb (is_t3 (spec e)) then Ok tt else
  match to with
  | TxCreate => Err (kerr KeychainError.CallNotAllowed)
  | TxCall t =>
      let k := (key_scopes s).[spending_limit_key account key_id] in
      if negb (is_scoped k) then Ok tt
      else if negb (set_contains (targets k) t) then Err (kerr KeychainError.CallNotAllowed)
      else
        let ts := (target_scopes k).[t] in
        if set_is_empty (selectors ts) then Ok tt
        else if (length input <? 4)%nat then Err (kerr KeychainError.CallNotAllowed)
        else
          let sel := bytes_value (take 4 input) in
          if negb (set_contains (selectors ts) sel) then Err (kerr KeychainError.CallNotAllowed)
          else
            let rs := recipients (selector_scopes ts).[sel] in
            if set_is_empty rs then Ok tt
            else if (length input <? 36)%nat then Err (kerr KeychainError.CallNotAllowed)
            else
              let recipient_word := take 32 (drop 4 input) in
              if existsb (λ b, negb (b =? 0)) (take 12 recipient_word)
              then Err (kerr KeychainError.CallNotAllowed)
              else if set_contains rs (bytes_value (drop 12 recipient_word)) then Ok tt
              else Err (kerr KeychainError.CallNotAllowed)
  end.

(** *** Transaction context and spending *)
Definition set_transaction_key (key_id : Address) : MK unit := modify (write_transaction_key key_id).
Definition set_tx_origin (origin : Address) : MK unit := modify (write_tx_origin origin).

Definition verify_and_update_spending (account key_id token : Address) (amount : Z) : MK unit :=
  if key_id =? ZERO then mret tt else
  e ← ask;
  let now := now_u64 e in
  s ← gets id;
  key ← lift (load_active_key s account key_id now);
  if negb (enforce_limits key) then mret tt else
  let row := (spending_limit_key account key_id, token) in
  limit_state ← gets (λ s, (spending_limits s).[row]);
  if negb (is_t3 (spec e)) then
    require (negb (remaining limit_state <? amount)) (kerr KeychainError.SpendingLimitExceeded);;
    modify (write_limit row (set_remaining (remaining limit_state - amount) limit_state))
  else
    let is_periodic := negb (period limit_state =? 0) in
    let limit_state :=
      if is_periodic && (period_end limit_state <=? now) then
        mkLimit (limit_max limit_state) (limit_max limit_state) (period limit_state)
          (compute_next_period_end limit_state now)
      else limit_state in
    require (negb (remaining limit_state <? amount)) (kerr KeychainError.SpendingLimitExceeded);;
    let new_remaining := remaining limit_state - amount in
    modify (write_limit row (set_remaining new_remaining limit_state));;
    emit self (AccessKeySpend account key_id token amount new_remaining).

Definition refund_spending_limit (account token : Address) (amount : Z) : MK unit :=
  e ← ask;
  s ← gets id;
  if transaction_key s =? ZERO then mret tt
  else if negb (account =? tx_origin s) then mret tt
  else
    match load_active_key s account (transaction_key s) (now_u64 e) with
    | Err err => if is_system_error err then throw err else mret tt
    | Ok key =>
        if negb (enforce_limits key) then mret tt else
        let row := (spending_limit_key account (transaction_key s), token) in
        let limit_state := (spending_limits s).[row] in
        let refunded := saturating_add U256_MAX (remaining limit_state) amount in
        if negb (is_t3 (spec e)) then modify (write_limit row (set_remaining refunded limit_state))
        else modify (write_limit row (set_remaining
               (if limit_max limit_state =? 0 then refunded
                else Z.min refunded (limit_max limit_state)) limit_state))
    end.

Definition authorize_transfer (account token : Address) (amount : Z) : MK unit :=
  s ← gets id;
  if transaction_key s =? ZERO then mret tt
  else if negb (account =? tx_origin s) then mret tt
  else verify_and_update_spending account (transaction_key s) token amount.

Definition authorize_approve (account token : Address) (old_approval new_approval : Z) : MK unit :=
  s ← gets id;
  if transaction_key s =? ZERO then mret tt
  else if negb (account =? tx_origin s) then mret tt
  else
    let approval_increase := saturating_sub new_approval old_approval in
    if approval_increase =? 0 then mret tt
    else verify_and_update_spending account (transaction_key s) token approval_increase.
End keychain.

(** ** Calls and traces *)

(** The calls an account, a token or the transaction handler makes. *)
Inductive KCall :=
| KAuthorize (msg_sender keyId : Address) (ty : SignatureType) (config : KeyRestrictions)
| KRevoke (msg_sender keyId : Address)
| KUpdateLimit (msg_sender keyId token : Address) (newLimit : Z)
| KSetAllowed (msg_sender keyId : Address) (scopes : list CallScope)
| KRemoveAllowed (msg_sender keyId t : Address)
| KSetTransactionKey (key_id : Address)
| KSetTxOrigin (origin : Address)
| KVerify (account key_id token : Address) (amount : Z)
| KTransfer (account token : Address) (amount : Z)
| KApprove (account token : Address) (old_approval new_approval : Z)
| KRefund (account token : Address) (amount : Z).

(** One call: the block it runs in, the tokens deployed then, the arguments. *)
Record KStep := mkKStep { k_env : Env; k_tip20 : Address → bool; k_call : KCall }.

Definition exec_k `{Primitives} (is_tip20 : Address → bool) (c : KCall) : M AccountKeychain unit :=
  match c with
  | KAuthorize m k ty cfg => authorize_key is_tip20 m k ty cfg
  | KRevoke m k => revoke_key m k
  | KUpdateLimit m k t n => update_spending_limit m k t n
  | KSetAllowed m k ss => set_allowed_calls is_tip20 m k ss
  | KRemoveAllowed m k t => remove_allowed_calls m k t
  | KSetTransactionKey k => set_transaction_key k
  | KSetTxOrigin o => set_tx_origin o
  | KVerify a k t n => verify_and_update_spending a k t n
  | KTransfer a t n => authorize_transfer a t n
  | KApprove a t o n => authorize_approve a t o n
  | KRefund a t n => refund_spending_limit a t n
  end.

(** A call that fails is reverted. *)
Definition run_k `{Primitives} (c : KStep) (s : AccountKeychain) : Result unit * (AccountKeychain * list Log) :=
  atomically (exec_k (k_tip20 c) (k_call c)) (k_env c) (s, []).

(** The state after a trace and the events of each call with its time. *)
Fixpoint krun `{Primitives} (tr : list KStep) (s : AccountKeychain) :
    AccountKeychain * list (Z * list Log) :=
  match tr with
  | [] => (s, [])
  | c :: tr =>
      let '(_, (s1, lg)) := run_k c s in
      let '(s2, lgs) := krun tr s1 in (s2, (now_u64 (k_env c), lg) :: lgs)
  end.

Lemma all_new_spec {A} `{Countable A} (seen : gset A) (l : list A) :
  all_new seen l = true ↔ NoDup l ∧ ∀ x, x ∈ l → x ∉ seen.
Proof.
  revert seen. induction l as [|x l IH]; intros seen; cbn.
  - split; [|done]. intros _. split; [constructor|]. set_solver.
  - rewrite NoDup_cons. case_decide; [set_solver|]. rewrite IH. set_solver.
Qed.

Section frames.
Context `{Primitives}.
Implicit Types (e : Env) (s : AccountKeychain).

(** Only the scope tree of [h] may differ. *)
Record scope_frame (h : B256) (s s' : AccountKeychain) : Prop := {
  sf_keys : keys s' = keys s;
  sf_limits : spending_limits s' = spending_limits s;
  sf_txkey : transaction_key s' = transaction_key s;
  sf_origin : tx_origin s' = tx_origin s;
  sf_scopes h' : h' ≠ h → (key_scopes s').[h'] = (key_scopes s).[h'];
}.

Global Instance scope_frame_preorder h : PreOrder (scope_frame h).
Proof.
  split; [intros s; by constructor|].
  intros s1 s2 s3 [] []. constructor; try congruence. intros h' ?. rewrite sf_scopes1; auto.
Qed.

Lemma at_scope_ok {A} h (m : M KeyScope A) e s l a s' l' :
  at_scope h m e (s, l) = (Ok a, (s', l')) →
  ∃ k', m e ((key_scopes s).[h], l) = (Ok a, (k', l')) ∧ s' = write_scope h k' s.
Proof. unfold at_scope. intros (t & l1 & Hm & Heq)%zoom_ok. simplify_eq. eauto. Qed.

Lemma write_scope_frame h k s : scope_frame h s (write_scope h k s).
Proof. constructor; try done. intros h' ?. cbn. by rewrite mread_insert_ne. Qed.

Lemma at_scope_frame {A} h (m : M KeyScope A) e st a st' :
  at_scope h m e st = (Ok a, st') → scope_frame h st.1 st'.1.
Proof.
  destruct st as [s l], st' as [s' l'].
  intros (k' & _ & ->)%at_scope_ok. apply write_scope_frame.
Qed.

Lemma clear_target_selectors_frame h t e st a st' :
  clear_target_selectors h t e st = (Ok a, st') → scope_frame h st.1 st'.1.
Proof. apply at_scope_frame. Qed.

Lemma upsert_target_scope_frame is_tip20 h sc e st a st' :
  upsert_target_scope is_tip20 h sc e st = (Ok a, st') → scope_frame h st.1 st'.1.
Proof.
  intros Hrun. unfold upsert_target_scope in Hrun. minvs.
  all: repeat match goal with
    | Hr : at_scope _ _ _ _ = _ |- _ => apply at_scope_frame in Hr
    | Hr : clear_target_selectors _ _ _ _ = _ |- _ => apply clear_target_selectors_frame in Hr
    | Hr : mfor _ _ _ _ = _ |- _ =>
        apply (mfor_rel (scope_frame h)) in Hr; [|intros ???? Hb; by eapply at_scope_frame]
    end.
  all: by repeat (etrans; [eassumption|]).
Qed.

Lemma replace_allowed_calls_frame is_tip20 h cs e st a st' :
  replace_allowed_calls is_tip20 h cs e st = (Ok a, st') → scope_frame h st.1 st'.1.
Proof.
  intros Hrun. unfold replace_allowed_calls, clear_all_target_scopes in Hrun. destruct cs; minvs.
  all: repeat match goal with
    | Hr : at_scope _ _ _ _ = _ |- _ => apply at_scope_frame in Hr
    | Hr : mfor _ (λ t, clear_target_selectors _ _) _ _ = _ |- _ =>
        apply (mfor_rel (scope_frame h)) in Hr; [|intros ???? Hb; by eapply clear_target_selectors_frame]
    | Hr : mfor _ _ _ _ = _ |- _ =>
        apply (mfor_rel (scope_frame h)) in Hr; [|intros ???? Hb; by eapply upsert_target_scope_frame]
    end.
  all: by repeat (etrans; [eassumption|]).
Qed.

(** Only spending rows of [h] may differ. *)
Record limit_frame (h : B256) (s s' : AccountKeychain) : Prop := {
  lf_keys : keys s' = keys s;
  lf_scopes : key_scopes s' = key_scopes s;
  lf_txkey : transaction_key s' = transaction_key s;
  lf_origin : tx_origin s' = tx_origin s;
  lf_limits h' t : h' ≠ h → (spending_limits s').[(h', t)] = (spending_limits s).[(h', t)];
}.

Global Instance limit_frame_preorder h : PreOrder (limit_frame h).
Proof.
  split; [intros s; by constructor|].
  intros s1 s2 s3 [] []. constructor; try congruence. intros h' t ?. rewrite lf_limits1; auto.
Qed.

Lemma write_limit_frame h t v s : limit_frame h s (write_limit (h, t) v s).
Proof. constructor; try done. intros h' t' ?. cbn. rewrite mread_insert_ne; congruence. Qed.

Lemma write_authorization_limit_frame h lim e st a st' :
  write_authorization_limit h lim e st = (Ok a, st') → limit_frame h st.1 st'.1.
Proof.
  intros Hrun. unfold write_authorization_limit in Hrun. minvs; apply write_limit_frame.
Qed.

Lemma apply_restrictions_frame is_tip20 a k ls cs e st u st' :
  apply_key_authorization_restrictions is_tip20 a k ls cs e st = (Ok u, st') →
  ∃ s1, limit_frame (spending_limit_key a k) st.1 s1 ∧
        scope_frame (spending_limit_key a k) s1 st'.1.
Proof.
  intros Hrun. unfold apply_key_authorization_restrictions in Hrun. minvs.
  all: match goal with Hr : mfor _ _ _ _ = _ |- _ =>
    apply (mfor_rel (limit_frame (spending_limit_key a k))) in Hr;
      [|intros ???? Hb; by eapply write_authorization_limit_frame] end.
  - eexists; split; [eassumption|]. done.
  - eexists; split; [eassumption|]. by eapply replace_allowed_calls_frame.
Qed.

Lemma authorize_key_ok is_tip20 m k ty cfg e st u st' :
  authorize_key is_tip20 m k ty cfg e st = (Ok u, st') →
  let key := (keys st.1).[(m, k)] in
  ensure_admin_caller e st.1 m = Ok tt ∧ k ≠ ZERO ∧ is_revoked key = false ∧ expiry key ≤ 0 ∧
  transaction_key st'.1 = transaction_key st.1 ∧ tx_origin st'.1 = tx_origin st.1 ∧
  (∃ n, keys st'.1 = <[(m, k) := mkKey n (cfg_expiry cfg) (enforceLimits cfg) false]> (keys st.1)) ∧
  (∀ h t, h ≠ spending_limit_key m k → (spending_limits st'.1).[(h, t)] = (spending_limits st.1).[(h, t)]) ∧
  (∀ h, h ≠ spending_limit_key m k → (key_scopes st'.1).[h] = (key_scopes st.1).[h]).
Proof.
  intros Hrun. unfold authorize_key in Hrun. minvs; bprop; cbn [fst snd id] in *.
  all: match goal with Hr : apply_key_authorization_restrictions _ _ _ _ _ _ _ = _ |- _ =>
    apply apply_restrictions_frame in Hr as (s1 & [] & []); cbn [fst snd] in * end.
  all: repeat match goal with x : unit |- _ => destruct x end.
  all: split_and!; try done; try congruence.
  all: try (by rewrite ?sf_txkey0, ?sf_origin0, ?lf_txkey0, ?lf_origin0).
  all: try (eexists; rewrite sf_keys0, lf_keys0; done).
  all: try (intros h t Hh; rewrite sf_limits0, lf_limits0; done).
  all: intros h Hh; rewrite sf_scopes0, lf_scopes0; done.
Qed.
End frames.

(** ** Keys: revocation is permanent, access keys stay contained *)
Section keys_proofs.
Context `{Primitives}.
Implicit Types (e : Env) (s : AccountKeychain).

Lemma verify_frame a k t n e st u st' :
  verify_and_update_spending a k t n e st = (Ok u, st') →
  limit_frame (spending_limit_key a k) st.1 st'.1.
Proof.
  intros Hrun. unfold verify_and_update_spending in Hrun.
  minvs; try done; apply write_limit_frame.
Qed.

Lemma refund_frame a t n e st u st' :
  refund_spending_limit a t n e st = (Ok u, st') →
  limit_frame (spending_limit_key a (transaction_key st.1)) st.1 st'.1 ∧
  (st'.1 ≠ st.1 → a = tx_origin st.1).
Proof.
  intros Hrun. unfold refund_spending_limit in Hrun. minvs; cbn [id] in *; try done.
  destruct (load_active_key _ _ _ _); minvs; try done.
  all: bprop; split; [apply write_limit_frame|done].
Qed.

Lemma remove_allowed_frame m k t e st u st' :
  remove_allowed_calls m k t e st = (Ok u, st') →
  scope_frame (spending_limit_key m k) st.1 st'.1 ∧ ensure_admin_caller e st.1 m = Ok tt.
Proof.
  intros Hrun. unfold remove_allowed_calls, remove_target_scope in Hrun. minvs; cbn [id] in *.
  all: repeat match goal with x : unit |- _ => destruct x end.
  all: split; [|done].
  - done.
  - by eapply at_scope_frame.
  - etrans; [by eapply at_scope_frame|]. by eapply clear_target_selectors_frame.
Qed.

Lemma set_allowed_frame is_tip20 m k ss e st u st' :
  set_allowed_calls is_tip20 m k ss e st = (Ok u, st') →
  scope_frame (spending_limit_key m k) st.1 st'.1 ∧ ensure_admin_caller e st.1 m = Ok tt.
Proof.
  intros Hrun. unfold set_allowed_calls in Hrun. minvs; cbn [id] in *.
  repeat match goal with x : unit |- _ => destruct x end. split; [|done].
  match goal with Hr : mfor _ _ _ _ = _ |- _ =>
    apply (mfor_rel (scope_frame (spending_limit_key m k))) in Hr;
      [|intros ???? Hb; by eapply upsert_target_scope_frame] end.
  etrans; [eassumption|]. by eapply at_scope_frame.
Qed.

Lemma update_limit_ok m k t n e st u st' :
  update_spending_limit m k t n e st = (Ok u, st') →
  let key := (keys st.1).[(m, k)] in
  ensure_admin_caller e st.1 m = Ok tt ∧ is_revoked key = false ∧
  key_scopes st'.1 = key_scopes st.1 ∧
  transaction_key st'.1 = transaction_key st.1 ∧ tx_origin st'.1 = tx_origin st.1 ∧
  (∀ ak, ak ≠ (m, k) → (keys st'.1).[ak] = (keys st.1).[ak]) ∧
  (∀ h t', h ≠ spending_limit_key m k ∨ t' ≠ t →
     (spending_limits st'.1).[(h, t')] = (spending_limits st.1).[(h, t')]).
Proof.
  intros Hrun. unfold update_spending_limit in Hrun. minvs; cbn [id fst snd] in *.
  all: repeat match goal with x : unit |- _ => destruct x end.
  all: match goal with Hl : load_active_key _ _ _ _ = Ok _ |- _ =>
         unfold load_active_key in Hl; rinvs end.
  all: split_and!; try done.
  all: intros; cbn; rewrite ?mread_insert_ne; naive_solver.
Qed.

Lemma revoke_key_ok m k e st u st' :
  revoke_key m k e st = (Ok u, st') →
  ensure_admin_caller e st.1 m = Ok tt ∧ expiry (keys st.1).[(m, k)] ≠ 0 ∧
  st' = (write_key (m, k) (mkKey 0 0 false true) st.1, st.2 ++ [(ACCOUNT_KEYCHAIN_ADDRESS, KeyRevoked m k)]).
Proof.
  intros Hrun. unfold revoke_key in Hrun. minvs; bprop; cbn [id fst snd] in *.
  repeat match goal with x : unit |- _ => destruct x end. done.
Qed.

(** Whatever happens, a key keeps its revocation mark. *)
Lemma exec_keeps_revoked is_tip20 c e st u st' ak :
  exec_k is_tip20 c e st = (Ok u, st') →
  is_revoked (keys st.1).[ak] = true → is_revoked (keys st'.1).[ak] = true.
Proof.
  intros Hrun Hrev. destruct c; cbn in Hrun.
  - apply authorize_key_ok in Hrun as (_ & _ & Hr & _ & _ & _ & [n ->] & _).
    rewrite mread_insert_ne; [done|]. intros <-. congruence.
  - apply revoke_key_ok in Hrun as (_ & _ & ->). cbn. rewrite mread_insert. by case_decide.
  - apply update_limit_ok in Hrun as (_ & Hr & _ & _ & _ & Hk & _).
    rewrite Hk; [done|]. intros ->. congruence.
  - apply set_allowed_frame in Hrun as [[-> _ _ _ _] _]. done.
  - apply remove_allowed_frame in Hrun as [[-> _ _ _ _] _]. done.
  - unfold set_transaction_key in Hrun. by minvs.
  - unfold set_tx_origin in Hrun. by minvs.
  - apply verify_frame in Hrun as [-> _ _ _ _]. done.
  - unfold authorize_transfer in Hrun. minvs; try done. by apply verify_frame in Hrun as [-> _ _ _ _].
  - unfold authorize_approve in Hrun. minvs; try done. by apply verify_frame in Hrun as [-> _ _ _ _].
  - apply refund_frame in Hrun as [[-> _ _ _ _] _]. done.
Qed.

(** A property of states kept by every successful call is kept by a trace. *)
Lemma krun_ind (P : AccountKeychain → Prop) (tr : list KStep) s :
  (∀ c s1 u s2 lg, c ∈ tr → P s1 →
     exec_k (k_tip20 c) (k_call c) (k_env c) (s1, []) = (Ok u, (s2, lg)) → P s2) →
  P s → P (krun tr s).1.
Proof.
  revert s. induction tr as [|c tr IH]; intros s Hstep HP; [done|]. cbn.
  destruct (run_k c s) as [r [s1 lg]] eqn:Hc. destruct (krun tr s1) as [s2 lgs] eqn:Hr.
  cbn. change s2 with (s2, lgs).1. rewrite <- Hr. apply IH.
  - intros; eapply Hstep; [right| |]; done.
  - unfold run_k, atomically in Hc.
    destruct (exec_k _ _ _ _) as [[u|err] [s1' lg']] eqn:Hx; simplify_eq; [|done].
    eapply Hstep; [left|done|done].
Qed.

(** Revocation is permanent. Once [revoke_key] has succeeded, whatever calls are
    made afterwards, in whatever blocks: the key is never active again, it cannot
    spend, and it can never be authorized again for that account. *)
Theorem key_revocation_permanent account k e st u st1 tr :
  revoke_key account k e st = (Ok u, st1) →
  let s2 := (krun tr st1.1).1 in
  (∀ t, load_active_key s2 account k t = Err (kerr KeychainError.KeyAlreadyRevoked)) ∧
  (∀ e' l is_tip20 ty cfg, is_ok (authorize_key is_tip20 account k ty cfg e' (s2, l)).1 = false) ∧
  (∀ e' l token n, k ≠ ZERO →
     verify_and_update_spending account k token n e' (s2, l) =
       (Err (kerr KeychainError.KeyAlreadyRevoked), (s2, l))).
Proof.
  intros (_ & _ & ->)%revoke_key_ok s2. cbn [fst] in s2.
  assert (is_revoked (keys s2).[(account, k)] = true) as Hrev.
  { apply (krun_ind (λ s, is_revoked (keys s).[(account, k)] = true)).
    - intros c s1 w s3 lg _ Hr Hx. by eapply (exec_keeps_revoked _ _ _ (s1, []) w (s3, lg)).
    - cbn. by rewrite mread_insert_eq. }
  assert (∀ t, load_active_key s2 account k t = Err (kerr KeychainError.KeyAlreadyRevoked)) as Hl.
  { intros t. unfold load_active_key. by rewrite Hrev. }
  split_and!; [done| |].
  - intros. destruct (authorize_key _ _ _ _ _ _ _) as [[w|err] st2] eqn:Ha; [|done].
    apply authorize_key_ok in Ha as (_ & _ & Hr & _). cbn in Hr. congruence.
  - intros e' l token n Hk. unfold verify_and_update_spending, mbind, M_bind, ask, gets, lift, id.
    apply Z.eqb_neq in Hk. rewrite Hk. cbn. by rewrite Hl.
Qed.

(** A call made inside a transaction, as opposed to the handler's set-up. *)
Definition in_transaction (c : KCall) : bool :=
  match c with
  | KSetTransactionKey _ | KSetTxOrigin _ | KVerify _ _ _ _ => false
  | _ => true
  end.

Lemma admin_needs_root e s m u :
  ensure_admin_caller e s m = Ok u → transaction_key s = ZERO.
Proof. unfold ensure_admin_caller. intros Ha. rinvs; by bprop. Qed.

Lemma exec_contained is_tip20 c e st u st' :
  exec_k is_tip20 c e st = (Ok u, st') → in_transaction c = true → transaction_key st.1 ≠ ZERO →
  limit_frame (spending_limit_key (tx_origin st.1) (transaction_key st.1)) st.1 st'.1.
Proof.
  intros Hrun Hin Htx. destruct c; cbn in Hrun; try done.
  - apply authorize_key_ok in Hrun as (Ha & _). by apply admin_needs_root in Ha.
  - apply revoke_key_ok in Hrun as (Ha & _). by apply admin_needs_root in Ha.
  - apply update_limit_ok in Hrun as (Ha & _). by apply admin_needs_root in Ha.
  - apply set_allowed_frame in Hrun as [_ Ha]. by apply admin_needs_root in Ha.
  - apply remove_allowed_frame in Hrun as [_ Ha]. by apply admin_needs_root in Ha.
  - unfold authorize_transfer in Hrun. minvs; try done. bprop. subst account.
    by apply verify_frame in Hrun.
  - unfold authorize_approve in Hrun. minvs; try done. bprop. subst account.
    by apply verify_frame in Hrun.
  - destruct (refund_frame _ _ _ _ _ _ _ Hrun) as [Hf Ho].
    unfold refund_spending_limit in Hrun. minvs; cbn [id] in *; try done. bprop. by subst.
Qed.

(** C29: an access key cannot escalate. In a transaction signed by an access key, no
    sequence of calls changes any key, any call scope, the transaction context, or a
    spending row that is not the signing key's own. *)
Theorem access_key_contained tr s :
  transaction_key s ≠ ZERO →
  Forall (λ c, in_transaction (k_call c) = true) tr →
  let s' := (krun tr s).1 in
  keys s' = keys s ∧ key_scopes s' = key_scopes s ∧
  transaction_key s' = transaction_key s ∧ tx_origin s' = tx_origin s ∧
  (∀ h t, h ≠ spending_limit_key (tx_origin s) (transaction_key s) →
     (spending_limits s').[(h, t)] = (spending_limits s).[(h, t)]).
Proof.
  intros Htx Hin s'.
  enough (limit_frame (spending_limit_key (tx_origin s) (transaction_key s)) s s') as [] by done.
  apply (krun_ind (limit_frame _ s)); [|done].
  intros c s1 u s2 lg Hc Hf Hx. etrans; [exact Hf|]. destruct Hf as [_ _ Ht Ho _].
  rewrite <- Ht, <- Ho. eapply (exec_contained _ _ _ (s1, []) u (s2, lg)); [done| |cbn; congruence].
  rewrite Forall_forall in Hin. by apply Hin.
Qed.
End keys_proofs.

(** ** Spending limits *)

(** What the events of a call report as spent by one key on one token. *)
Definition event_spend (a k tok : Address) (lg : Log) : Z :=
  match lg.2 with
  | AccessKeySpend a' k' tok' n _ =>
      if (a' =? a) && (k' =? k) && (tok' =? tok) then n else 0
  | _ => 0
  end.
Definition spend_of (a k tok : Address) (lgs : list Log) : Z :=
  foldr (λ lg acc, event_spend a k tok lg + acc) 0 lgs.

(** Window 0 is the current period, ending at [E]; window [j > 0] is the [j]-th
    period after it. *)
Definition in_window (E P j t : Z) : bool :=
  if j =? 0 then t <? E else (E + (j - 1) * P <=? t) && (t <? E + j * P).

Fixpoint spent_in (f : Z → bool) (a k tok : Address) (r : list (Z * list Log)) : Z :=
  match r with
  | [] => 0
  | (t, lgs) :: r => (if f t then spend_of a k tok lgs else 0) + spent_in f a k tok r
  end.

Definition refund_of (tok : Address) (c : KCall) : Z :=
  match c with KRefund _ t n => if t =? tok then n else 0 | _ => 0 end.
Fixpoint refunded_in (f : Z → bool) (tok : Address) (tr : list KStep) : Z :=
  match tr with
  | [] => 0
  | c :: tr => (if f (now_u64 (k_env c)) then refund_of tok (k_call c) else 0) + refunded_in f tok tr
  end.

(** The call is made in a T3 block, its amounts are unsigned, and it does not
    reconfigure the row [(h, tok)]. *)
Definition ordinary `{Primitives} (h : B256) (tok : Address) (c : KStep) : Prop :=
  is_t3 (spec (k_env c)) = true ∧
  match k_call c with
  | KAuthorize m k _ _ => spending_limit_key m k ≠ h
  | KUpdateLimit m k t _ => spending_limit_key m k ≠ h ∨ t ≠ tok
  | KVerify _ _ _ n | KTransfer _ _ n | KRefund _ _ n => 0 ≤ n
  | _ => True
  end.

(** The row a spend at time [now] charges: a periodic row whose period is over
    starts a new one. *)
Definition roll (row : SpendingLimitState) (now : Z) : SpendingLimitState :=
  if negb (period row =? 0) && (period_end row <=? now) then
    mkLimit (limit_max row) (limit_max row) (period row) (compute_next_period_end row now)
  else row.

Section spending_proofs.
Context `{Primitives}.
Implicit Types (e : Env) (s : AccountKeychain).

(** Without saturation the next period end is the first boundary after [now]. *)
Lemma compute_next_period_end_spec row now :
  0 < period row → 0 ≤ period_end row ≤ now → now + period row ≤ U64_MAX →
  compute_next_period_end row now
    = period_end row + ((now - period_end row) / period row + 1) * period row ∧
  now < compute_next_period_end row now ≤ now + period row.
Proof.
  intros HP HE Hmax. unfold compute_next_period_end, saturating_add, saturating_sub, saturating_mul.
  rewrite (Z.max_r 0) by lia. set (d := now - period_end row).
  pose proof (Z.div_mod d (period row) ltac:(lia)). pose proof (Z.mod_pos_bound d (period row) HP).
  assert (0 ≤ d / period row) by (apply Z.div_pos; lia).
  assert (d / period row + 1 ≤ U64_MAX) by nia.
  rewrite (Z.min_r U64_MAX (_ + 1)) by lia.
  rewrite (Z.min_r U64_MAX (period row * _)) by nia.
  rewrite Z.min_r by nia. nia.
Qed.

Lemma verify_row a k t n e st u st' :
  is_t3 (spec e) = true →
  verify_and_update_spending a k t n e st = (Ok u, st') →
  let row := (spending_limits st.1).[(spending_limit_key a k, t)] in
  let row1 := roll row (now_u64 e) in
  st' = st ∨
  n ≤ remaining row1 ∧
  st' = (write_limit (spending_limit_key a k, t) (set_remaining (remaining row1 - n) row1) st.1,
         st.2 ++ [(ACCOUNT_KEYCHAIN_ADDRESS, AccessKeySpend a k t n (remaining row1 - n))]).
Proof.
  intros HT3 Hrun row row1. unfold verify_and_update_spending in Hrun. minvs; try by left.
  - rewrite HT3 in *. done.
  - right. bprop. fold row. unfold row1, roll in *. done.
Qed.

Definition row_step (a k tok : Address) (e : Env) (c : KCall) (row row' : SpendingLimitState)
    (lg : list Log) : Prop :=
  (∃ n, row' = set_remaining n row ∧ 0 ≤ n ≤ remaining row + refund_of tok c ∧ spend_of a k tok lg = 0) ∨
  (let row1 := roll row (now_u64 e) in ∃ n, 0 ≤ n ∧ 0 ≤ spend_of a k tok lg ≤ n ≤ remaining row1 ∧
     row' = set_remaining (remaining row1 - n) row1).

Lemma row_step_same a k tok e c row lg :
  0 ≤ remaining row → 0 ≤ refund_of tok c → spend_of a k tok lg = 0 → row_step a k tok e c row row lg.
Proof. intros. left. exists (remaining row). split_and!; try lia. by destruct row. Qed.

(** A spend by any key, seen from one row. *)
Lemma verify_row_step a k tok a' k' t n c e s u s' lg :
  is_t3 (spec e) = true → 0 ≤ n → 0 ≤ refund_of tok c →
  0 ≤ remaining (spending_limits s).[(spending_limit_key a k, tok)] →
  verify_and_update_spending a' k' t n e (s, []) = (Ok u, (s', lg)) →
  row_step a k tok e c (spending_limits s).[(spending_limit_key a k, tok)]
    (spending_limits s').[(spending_limit_key a k, tok)] lg.
Proof.
  intros HT3 Hn Hc Hrem Hrun. apply verify_row in Hrun as [Heq|[Hle Heq]]; [|..|done].
  { simplify_eq. by apply row_step_same. }
  simplify_eq. cbn [spending_limits write_limit fst snd app] in *.
  assert (spend_of a k tok [(ACCOUNT_KEYCHAIN_ADDRESS, AccessKeySpend a' k' t n
    (remaining (roll (spending_limits s).[(spending_limit_key a' k', t)] (now_u64 e)) - n))]
    = if (a' =? a) && (k' =? k) && (t =? tok) then n else 0) as Hsp by (cbn; lia).
  rewrite mread_insert. case_decide as Hrow.
  - right. exists n. injection Hrow as Hh ->. rewrite <- Hh, Hsp.
    split_and!; try done; case_match; lia.
  - apply row_step_same; [done..|]. rewrite Hsp.
    destruct (Z.eqb_spec a' a), (Z.eqb_spec k' k), (Z.eqb_spec t tok); cbn; try done. subst. done.
Qed.

(** The administrative calls emit no spending event. *)
Definition is_spend (ev : Event) : bool := match ev with AccessKeySpend _ _ _ _ _ => true | _ => false end.

Lemma spend_of_other a k tok lg : Forall (λ x, is_spend x.2 = false) lg → spend_of a k tok lg = 0.
Proof.
  induction 1 as [|[? ev] lg Hev Hlg IH]; [done|]. cbn. unfold event_spend. cbn in *.
  destruct ev; cbn in *; try done; lia.
Qed.

Lemma apply_restrictions_silent is_tip20 m k ls cs :
  silent (apply_key_authorization_restrictions is_tip20 m k ls cs).
Proof.
  unfold apply_key_authorization_restrictions, write_authorization_limit, replace_allowed_calls,
    clear_all_target_scopes, upsert_target_scope, clear_target_selectors, upsert_rule, at_scope,
    at_targets, at_target, at_selectors, at_recipients.
  solve_silent.
Qed.

Lemma authorize_key_log is_tip20 m k ty cfg e s u s' lg :
  authorize_key is_tip20 m k ty cfg e (s, []) = (Ok u, (s', lg)) →
  Forall (λ x, is_spend x.2 = false) lg.
Proof.
  intros Hrun. unfold authorize_key in Hrun. minvs.
  all: match goal with Hr : apply_key_authorization_restrictions _ _ _ _ _ _ _ = _ |- _ =>
    apply apply_restrictions_silent in Hr; cbn [snd] in Hr; rewrite Hr end.
  all: by repeat constructor.
Qed.

Lemma scopes_silent is_tip20 m k ss t :
  silent (set_allowed_calls is_tip20 m k ss) ∧ silent (remove_allowed_calls m k t).
Proof.
  split; unfold set_allowed_calls, remove_allowed_calls, remove_target_scope,
    upsert_target_scope, clear_target_selectors, upsert_rule, at_scope,
    at_targets, at_target, at_selectors, at_recipients; solve_silent.
Qed.

Lemma exec_row_step a k tok c s u s' lg :
  ordinary (spending_limit_key a k) tok c →
  0 ≤ remaining (spending_limits s).[(spending_limit_key a k, tok)] →
  0 ≤ limit_max (spending_limits s).[(spending_limit_key a k, tok)] →
  exec_k (k_tip20 c) (k_call c) (k_env c) (s, []) = (Ok u, (s', lg)) →
  row_step a k tok (k_env c) (k_call c) (spending_limits s).[(spending_limit_key a k, tok)]
    (spending_limits s').[(spending_limit_key a k, tok)] lg.
Proof.
  destruct c as [e f c]. unfold ordinary; cbn [k_env k_tip20 k_call]. intros [HT3 Hord] Hrem Hmax Hrun.
  destruct c as [m k' ty cfg|m k'|m k' t n|m k' ss|m k' t|k'|o|a' k' t n|a' t n|a' t o n|a' t n];
    cbn in Hrun.
  - pose proof (authorize_key_log _ _ _ _ _ _ _ _ _ _ Hrun) as Hlog.
    apply authorize_key_ok in Hrun as (_ & _ & _ & _ & _ & _ & _ & Hl & _). cbn in Hl.
    rewrite Hl by done. apply row_step_same; [lia|done|by apply spend_of_other].
  - apply revoke_key_ok in Hrun as (_ & _ & [= -> ->]). by apply row_step_same.
  - pose proof Hrun as Hlog. apply update_limit_ok in Hrun as (_ & _ & _ & _ & _ & _ & Hl). cbn in Hl.
    rewrite Hl by naive_solver. apply row_step_same; [lia|done|].
    unfold update_spending_limit in Hlog. minvs; done.
  - destruct (scopes_silent f m k' ss 0) as [Hs _]. apply Hs in Hrun as Hl. cbn in Hl. subst.
    apply set_allowed_frame in Hrun as [[_ Hl _ _ _] _]. cbn in Hl. rewrite Hl. by apply row_step_same.
  - destruct (scopes_silent f m k' [] t) as [_ Hs]. apply Hs in Hrun as Hl. cbn in Hl. subst.
    apply remove_allowed_frame in Hrun as [[_ Hl _ _ _] _]. cbn in Hl. rewrite Hl. by apply row_step_same.
  - unfold set_transaction_key in Hrun. minvs. by apply row_step_same.
  - unfold set_tx_origin in Hrun. minvs. by apply row_step_same.
  - by eapply verify_row_step; [..|exact Hrun].
  - unfold authorize_transfer in Hrun. minvs; try by apply row_step_same.
    by eapply verify_row_step; [..|exact Hrun].
  - unfold authorize_approve in Hrun. minvs; try by apply row_step_same.
    eapply verify_row_step; [..|exact Hrun]; try done. unfold saturating_sub. lia.
  - unfold refund_spending_limit in Hrun. cbn in Hrun.
    assert (0 ≤ refund_of tok (KRefund a' t n)) by (cbn; case_match; lia).
    minvs; try by apply row_step_same.
    cbn [id fst snd] in *.
    destruct (load_active_key _ _ _ _); minvs; try by apply row_step_same.
    { by rewrite HT3 in *. } cbn [spending_limits write_limit]. rewrite mread_insert.
    case_decide as Hrow; [|by apply row_step_same].
    left. injection Hrow as Hh ->. rewrite Hh. eexists. split; [done|]. split; [|done].
    cbn. rewrite Z.eqb_refl. unfold saturating_add, U256_MAX. case_match; lia.
Qed.

(** *** The windows *)
Lemma krun_times tr s : (krun tr s).2.*1 = map (λ c, now_u64 (k_env c)) tr.
Proof.
  revert s. induction tr as [|c tr IH]; intros s; [done|]. cbn.
  destruct (run_k c s) as [r [s1 lg]]. specialize (IH s1).
  destruct (krun tr s1) as [s2 lgs]. cbn in *. by rewrite IH.
Qed.

Lemma spent_in_none f a k tok (r : list (Z * list Log)) :
  Forall (λ t, f t = false) r.*1 → spent_in f a k tok r = 0.
Proof.
  induction r as [|[t lg] r IH]; [done|]. cbn. rewrite Forall_cons. intros [-> ?]. by rewrite IH.
Qed.

Lemma refunded_in_nonneg f h tok tr : Forall (ordinary h tok) tr → 0 ≤ refunded_in f tok tr.
Proof.
  induction 1 as [|[e g c] tr [_ Ho] _ IH]; [done|]. cbn in *.
  destruct c; cbn in *; repeat case_match; lia.
Qed.

Lemma in_window_inj E P j j' t :
  0 < P → 0 ≤ j → 0 ≤ j' → in_window E P j t = true → in_window E P j' t = true → j = j'.
Proof.
  intros. unfold in_window in *.
  destruct (Z.eqb_spec j 0), (Z.eqb_spec j' 0); bprop; subst; nia.
Qed.

Definition window_cap (w R Mx j : Z) : Z := if j <? w then 0 else if j =? w then R else Mx.

(** Once the clock has passed window [j], nothing more is spent in it. *)
Lemma window_over a k tok E P j t tr s :
  0 < P → 0 ≤ j → E + j * P ≤ t →
  Forall (Z.le t) (map (λ c, now_u64 (k_env c)) tr) →
  spent_in (in_window E P j) a k tok (krun tr s).2 = 0.
Proof.
  intros HP Hj Ht Hge. apply spent_in_none. rewrite krun_times.
  eapply Forall_impl; [exact Hge|]. intros t' Ht'. cbn in Ht'. unfold in_window.
  destruct (Z.eqb_spec j 0); [subst; apply Z.ltb_ge; lia|].
  apply andb_false_intro2, Z.ltb_ge. lia.
Qed.

(** What is assumed of the trace from a state whose stored period is window [w]. *)
Definition trace_ok (h : B256) (tok E P w : Z) (tr : list KStep) : Prop :=
  Forall (ordinary h tok) tr ∧
  StronglySorted Z.le (map (λ c, now_u64 (k_env c)) tr) ∧
  Forall (λ c, now_u64 (k_env c) + P ≤ U64_MAX ∧
               (w = 0 ∨ E + (w - 1) * P ≤ now_u64 (k_env c))) tr.

Lemma trace_ok_later h tok E P w w' c tr :
  trace_ok h tok E P w (c :: tr) → E + (w' - 1) * P ≤ now_u64 (k_env c) → trace_ok h tok E P w' tr.
Proof.
  intros (Ho & Hs & Ht) Hc. apply Forall_cons in Ho as [_ Ho]. apply Forall_cons in Ht as [_ Ht].
  cbn in Hs. apply StronglySorted_inv in Hs as [Hs Hge]. split_and!; try done.
  apply Forall_forall. intros c' Hc'. rewrite Forall_forall in Ht. split; [by apply Ht|]. right.
  rewrite Forall_forall in Hge. specialize (Hge (now_u64 (k_env c'))).
  etrans; [exact Hc|]. apply Hge. apply list_elem_of_fmap. eauto.
Qed.

Lemma trace_ok_tail h tok E P w c tr : trace_ok h tok E P w (c :: tr) → trace_ok h tok E P w tr.
Proof.
  intros (Ho & Hs & Ht). apply Forall_cons in Ho as [_ Ho]. apply Forall_cons in Ht as [_ Ht].
  cbn in Hs. apply StronglySorted_inv in Hs as [Hs _]. done.
Qed.

Definition stored_window (E P Mx w : Z) (row : SpendingLimitState) : Prop :=
  period row = P ∧ limit_max row = Mx ∧ period_end row = E + w * P ∧ 0 ≤ remaining row ∧ 0 ≤ w.

(** The period a spend at [t] is charged to contains [t]. *)
Lemma roll_window E P Mx w row t :
  0 < P → 0 ≤ E → 0 ≤ Mx → stored_window E P Mx w row → t + P ≤ U64_MAX →
  w = 0 ∨ E + (w - 1) * P ≤ t →
  ∃ w', stored_window E P Mx w' (roll row t) ∧ in_window E P w' t = true ∧
    (w' = w ∧ roll row t = row ∨ w < w' ∧ remaining (roll row t) = Mx) ∧ (w' = 0 ∨ E + (w' - 1) * P ≤ t).
Proof.
  intros HP HE HMx (Hp & Hm & He & Hr & Hw) Hmax Hlo. unfold roll.
  destruct (Z.eqb_spec (period row) 0); [lia|]. cbn.
  destruct (Z.leb_spec (period_end row) t) as [Hle|Hgt].
  - destruct (compute_next_period_end_spec row t) as [Hn Hb]; [nia..|].
    rewrite He, Hp in Hn. exists (w + (t - (E + w * P)) / P + 1).
    assert (0 ≤ (t - (E + w * P)) / P) by (apply Z.div_pos; lia).
    pose proof (Z.div_mod (t - (E + w * P)) P ltac:(lia)).
    pose proof (Z.mod_pos_bound (t - (E + w * P)) P HP).
    unfold stored_window, in_window. cbn. destruct (Z.eqb_spec (w + (t - (E + w * P)) / P + 1) 0); [lia|].
    rewrite andb_true_iff, Z.leb_le, Z.ltb_lt. split_and!; nia.
  - exists w. unfold in_window. split; [done|]. split; [|by auto].
    destruct (Z.eqb_spec w 0); [subst; apply Z.ltb_lt; lia|].
    rewrite andb_true_iff, Z.leb_le, Z.ltb_lt. lia.
Qed.

Lemma spending_windows a k tok E P Mx tr s w j :
  let row := (spending_limits s).[(spending_limit_key a k, tok)] in
  0 < P → 0 ≤ E → 0 ≤ j → 0 ≤ Mx → stored_window E P Mx w row →
  trace_ok (spending_limit_key a k) tok E P w tr →
  spent_in (in_window E P j) a k tok (krun tr s).2 ≤
    window_cap w (remaining row) Mx j + refunded_in (in_window E P j) tok tr.
Proof.
  revert s w. induction tr as [|c tr IH]; intros s w row HP HE Hj HMx Hst Hok.
  { cbn. destruct Hst as (_ & _ & _ & ? & _). unfold window_cap. repeat case_match; lia. }
  pose proof Hok as (Hord & Hsort & Htimes).
  apply Forall_cons in Hord as [Hoc Hord]. apply Forall_cons in Htimes as [[Htm Htw] _].
  cbn in Hsort. apply StronglySorted_inv in Hsort as [_ Hge].
  set (t := now_u64 (k_env c)) in *.
  assert (∃ s1 lg, (krun (c :: tr) s).2 = (t, lg) :: (krun tr s1).2 ∧
    row_step a k tok (k_env c) (k_call c) row (spending_limits s1).[(spending_limit_key a k, tok)] lg)
    as (s1 & lg & -> & Hstep).
  { cbn. unfold run_k, atomically.
    assert (0 ≤ refund_of tok (k_call c)) by (destruct c as [? ? []], Hoc; cbn in *; try case_match; lia).
    destruct (exec_k _ _ _ _) as [[u|err] [s1 lg]] eqn:Hx.
    - exists s1, lg. split; [by destruct (krun tr s1)|].
      destruct Hst as (_ & <- & _ & ? & _). by eapply exec_row_step.
    - exists s, []. split; [by destruct (krun tr s)|]. destruct Hst as (_ & _ & _ & ? & _).
      by apply row_step_same. }
  cbn [spent_in refunded_in]. fold t. pose proof (refunded_in_nonneg (in_window E P j) _ _ _ Hord) as Hrn.
  assert (0 ≤ refund_of tok (k_call c)) by (destruct c as [? ? []], Hoc; cbn in *; try case_match; lia).
  destruct Hstep as [(n & Hrow & Hn & Hsp)|(n & Hn & Hsp & Hrow)].
  - assert (stored_window E P Mx w (spending_limits s1).[(spending_limit_key a k, tok)]) as Hst1.
    { rewrite Hrow. destruct Hst as (?&?&?&?&?). unfold stored_window; cbn. lia. }
    pose proof (IH s1 w HP HE Hj HMx Hst1 (trace_ok_tail _ _ _ _ _ _ _ Hok)) as Hih.
    rewrite Hrow in Hih. cbn [remaining set_remaining] in Hih. rewrite Hsp.
    destruct Hst as (_ & _ & _ & Hr & Hw). unfold window_cap in *.
    destruct (in_window E P j t) eqn:Hin; [repeat case_match; lia|].
    destruct (decide (j = w)) as [->|]; [|repeat case_match; bprop; lia].
    rewrite (window_over _ _ _ _ _ _ t) by (try done; unfold in_window in Hin; destruct Htw, (Z.eqb_spec w 0);
      bprop; try lia; apply andb_false_iff in Hin as [?|?]; bprop; lia).
    repeat case_match; lia.
  - change (now_u64 (k_env c)) with t in Hsp, Hrow.
    destruct (roll_window E P Mx w row t) as (w' & Hst' & Hin' & Hcase & Hlo'); try done.
    assert (stored_window E P Mx w' (spending_limits s1).[(spending_limit_key a k, tok)]) as Hst1.
    { rewrite Hrow. destruct Hst' as (?&?&?&?&?). unfold stored_window; cbn. lia. }
    assert (trace_ok (spending_limit_key a k) tok E P w' tr) as Hok'.
    { destruct Hlo' as [->|Hlo']; [|by eapply trace_ok_later].
      destruct Hcase as [[<- _]|[? _]]; [by eapply trace_ok_tail|].
      destruct Hst as (_&_&_&_&?). lia. }
    pose proof (IH s1 w' HP HE Hj HMx Hst1 Hok') as Hih. rewrite Hrow in Hih.
    cbn [remaining set_remaining] in Hih.
    pose proof (in_window_inj E P j w' t HP Hj ltac:(apply Hst')) as Hinj.
    destruct Hst as (_ & _ & _ & Hr & Hw). unfold window_cap in *.
    destruct (in_window E P j t) eqn:Hin.
    + rewrite (Hinj eq_refl Hin') in *.
      destruct Hcase as [[-> Heq]|[? Heq]]; rewrite Heq in *; repeat case_match; bprop; lia.
    + destruct Hcase as [[-> Heq]|[? Heq]]; rewrite Heq in *; repeat case_match; bprop; lia.
Qed.
End spending_proofs.

Section spending_theorems.
Context `{Primitives}.
Implicit Types (e : Env) (s : AccountKeychain).

(** C4: a periodic spending limit holds period by period. Take any trace of T3 calls
    in which the row is not reconfigured by the account, with block times that never
    decrease. What the access key spends on the token in the current period is at
    most what remained, and in each later period at most the configured maximum,
    plus what was refunded in that period. *)
Theorem access_key_spending_bounded a k tok tr s j :
  let row := (spending_limits s).[(spending_limit_key a k, tok)] in
  let window := in_window (period_end row) (period row) j in
  0 < period row → 0 ≤ period_end row → 0 ≤ remaining row → 0 ≤ limit_max row → 0 ≤ j →
  Forall (ordinary (spending_limit_key a k) tok) tr →
  StronglySorted Z.le (map (λ c, now_u64 (k_env c)) tr) →
  Forall (λ c, now_u64 (k_env c) + period row ≤ U64_MAX) tr →
  spent_in window a k tok (krun tr s).2 ≤
    (if j =? 0 then remaining row else limit_max row) + refunded_in window tok tr.
Proof.
  intros row window HP HE Hr HM Hj Ho Hs Ht.
  pose proof (spending_windows a k tok (period_end row) (period row) (limit_max row) tr s 0 j)
    as Hb. fold row in Hb. unfold window_cap in Hb.
  destruct (Z.ltb_spec j 0); [lia|]. apply Hb; try done.
  - unfold stored_window. lia.
  - split_and!; try done. eapply Forall_impl; [exact Ht|]. cbn. intros c Hc. split; [done|by left].
Qed.

(** The spending check decides exactly on the effective remaining limit that
    [get_remaining_limit] reports, on every branch: an inactive key and an amount
    above the limit are refused with the state unchanged; otherwise the effective
    limit drops by exactly the amount, the period end is the one reported, and the
    spend is logged. *)
Theorem verify_and_update_spending_spec e s l a k tok n :
  let now := now_u64 e in
  let row := (spending_limits s).[(spending_limit_key a k, tok)] in
  let eff := (effective_limit_state e s a k tok now).1 in
  let pe := (effective_limit_state e s a k tok now).2 in
  is_t3 (spec e) = true → k ≠ ZERO →
  0 ≤ period row → 0 ≤ period_end row → now + period row ≤ U64_MAX →
  match load_active_key s a k now with
  | Err err => verify_and_update_spending a k tok n e (s, l) = (Err err, (s, l))
  | Ok key =>
      if negb (enforce_limits key) then verify_and_update_spending a k tok n e (s, l) = (Ok tt, (s, l))
      else if eff <? n then
        verify_and_update_spending a k tok n e (s, l)
          = (Err (kerr KeychainError.SpendingLimitExceeded), (s, l))
      else
        ∃ s', verify_and_update_spending a k tok n e (s, l) =
                (Ok tt, (s', l ++ [(ACCOUNT_KEYCHAIN_ADDRESS, AccessKeySpend a k tok n (eff - n))])) ∧
              effective_limit_state e s' a k tok now = (eff - n, pe)
  end.
Proof.
  intros now row. destruct (effective_limit_state e s a k tok now) as [eff pe] eqn:Heff. cbn [fst snd].
  intros HT3 Hk HP HE Hmax. apply Z.eqb_neq in Hk.
  unfold verify_and_update_spending, mbind, M_bind, ask, gets, lift, id. rewrite Hk. cbn [fst snd].
  fold now row. destruct (load_active_key s a k now) as [key|err] eqn:Hkey; [|done].
  destruct (enforce_limits key) eqn:Henf; cbn [negb]; [|done]. rewrite HT3. cbn [negb].
  unfold load_active_key in Hkey. rinvs.
  assert (eff = remaining (roll row now) ∧ ∀ s' m, keys s' = keys s →
    (spending_limits s').[(spending_limit_key a k, tok)] = set_remaining m (roll row now) →
    effective_limit_state e s' a k tok now = (m, pe)) as [-> Hs'].
  { revert Heff. unfold effective_limit_state. rewrite Hk, HT3. cbn [andb negb]. fold row.
    repeat match goal with Hb : _ = false |- _ => rewrite Hb end. cbn [orb andb negb]. unfold roll.
    destruct (Z.eqb_spec (period row) 0) as [Hp0|Hp0]; cbn [negb andb].
    { intros [= <- <-]. split; [done|]. intros s' m -> ->. cbn [period set_remaining]. rewrite Hp0.
      by repeat match goal with Hb : _ = false |- _ => rewrite Hb end. }
    destruct (Z.ltb_spec now (period_end row)) as [Hlt|Hge].
    - destruct (Z.leb_spec (period_end row) now); [lia|]. intros [= <- <-]. split; [done|].
      intros s' m -> ->. repeat match goal with Hb : _ = false |- _ => rewrite Hb end.
      cbn. apply Z.eqb_neq in Hp0. apply Z.ltb_lt in Hlt. by rewrite Hp0, Hlt.
    - destruct (Z.leb_spec (period_end row) now); [|lia]. intros [= <- <-]. split; [done|].
      intros s' m -> ->. repeat match goal with Hb : _ = false |- _ => rewrite Hb end. cbn.
      destruct (compute_next_period_end_spec row now) as [_ [Hn _]]; [lia..|].
      apply Z.eqb_neq in Hp0. apply Z.ltb_lt in Hn. by rewrite Hp0, Hn. }
  unfold require, throw, modify, emit, mret, M_ret. cbv zeta. cbn [fst snd].
  match goal with |- context[negb (remaining ?X <? n)] => change X with (roll row now) end.
  destruct (remaining (roll row now) <? n) eqn:Hlt; cbn [negb fst snd]; [done|].
  eexists. split; [done|]. apply Hs'; [done|]. cbn. apply mread_insert_eq.
Qed.
End spending_theorems.

(** ** Concrete runs *)
Section examples.
Local Existing Instance sample_primitives.

(** Account 7 authorizes key 9 at time 100: 50 units of token 5 per period of 10,
    calls restricted to target 5 with the transfer selector and recipient 8. *)
Definition sample_config : KeyRestrictions :=
  mkRestrictions 1000 true [mkTokenLimit 5 50 10] false
    [mkScope 5 [mkRule TIP20_TRANSFER_SELECTOR [8]]; mkScope 6 []].
Definition sample_step (t : Z) (c : KCall) : KStep := mkKStep (sample_env t) (λ _, true) c.
Definition sample_setup : list KStep :=
  [sample_step 100 (KSetTxOrigin 7); sample_step 100 (KAuthorize 7 9 P256 sample_config)].
Definition sample_keychain : AccountKeychain := (krun sample_setup keychain_empty).1.
Definition sample_session : AccountKeychain :=
  (krun [sample_step 101 (KSetTransactionKey 9)] sample_keychain).1.

Lemma key_revocation_permanent_witness :
  is_ok (authorize_key (λ _, true) 7 9 P256 sample_config (sample_env 500)
    ((krun [sample_step 300 (KSetTransactionKey 0)]
       (revoke_key 7 9 (sample_env 200) (sample_keychain, [])).2.1).1, [])).1 = false.
Proof.
  apply (key_revocation_permanent 7 9 (sample_env 200) (sample_keychain, []) tt
    (revoke_key 7 9 (sample_env 200) (sample_keychain, [])).2 [sample_step 300 (KSetTransactionKey 0)]).
  vm_compute. reflexivity.
Defined.

Lemma access_key_contained_witness :
  keys (krun [sample_step 101 (KTransfer 7 5 30); sample_step 102 (KRevoke 7 9)] sample_session).1
    = keys sample_session.
Proof.
  apply (access_key_contained [sample_step 101 (KTransfer 7 5 30); sample_step 102 (KRevoke 7 9)]
    sample_session).
  - vm_compute. discriminate.
  - repeat constructor.
Defined.

(** 50 in the first period, the 51st unit refused; 50 again in the next one. *)
Definition sample_spending : list KStep :=
  [sample_step 101 (KTransfer 7 5 30); sample_step 105 (KTransfer 7 5 20);
   sample_step 109 (KTransfer 7 5 1); sample_step 112 (KTransfer 7 5 50);
   sample_step 113 (KTransfer 7 5 1)].

Definition sample_row : SpendingLimitState :=
  (spending_limits sample_session).[(spending_limit_key 7 9, 5)].

Lemma access_key_spending_bounded_witness :
  sample_row = mkLimit 50 50 10 110 ∧
  spent_in (in_window 110 10 1) 7 9 5 (krun sample_spending sample_session).2 = 50 ∧
  spent_in (in_window (period_end sample_row) (period sample_row) 1) 7 9 5
    (krun sample_spending sample_session).2 ≤
    (if 1 =? 0 then remaining sample_row else limit_max sample_row) +
    refunded_in (in_window (period_end sample_row) (period sample_row) 1) 5 sample_spending.
Proof.
  split; [vm_compute; reflexivity|]. split; [vm_compute; reflexivity|].
  apply (access_key_spending_bounded 7 9 5 sample_spending sample_session 1).
  1-5: vm_compute; congruence.
  - repeat constructor; vm_compute; congruence.
  - repeat constructor; vm_compute; congruence.
  - repeat constructor; vm_compute; congruence.
Defined.

Lemma verify_and_update_spending_spec_witness :
  verify_and_update_spending 7 9 5 51 (sample_env 101) (sample_session, [])
    = (Err (kerr KeychainError.SpendingLimitExceeded), (sample_session, [])).
Proof.
  pose proof (verify_and_update_spending_spec (sample_env 101) sample_session [] 7 9 5 51) as Hs.
  do 5 (specialize (Hs ltac:(vm_compute; congruence))).
  vm_compute in Hs |- *. exact Hs.
Defined.
End examples.
