(* ===== verification/KeychainScopes.v ===== *)
(** * Call scopes of the account keychain

    The scope tree of [Keychain] ([account_keychain/mod.rs]) holds what the account
    configured: proofs about [authorize_key], [set_allowed_calls],
    [remove_allowed_calls] and [validate_call_scope_for_transaction]. *)
From Stdlib Require Import ZArith Lia.
From stdpp Require Import base tactics option list fin_maps gmap sets.
From S2P Require Import Prelude Base StorageSet Keychain.
Open Scope Z_scope.
Open Scope storage_scope.

(** ** Call scopes *)

(** What a list of scopes means: the target is listed; it lists no selector or this
    one; the selector lists no recipient or the one of the calldata. *)
Definition recipient_allowed (rs : list Address) (input : list Z) : bool :=
  match rs with
  | [] => true
  | _ => (36 <=? length input)%nat
         && forallb (λ b, b =? 0) (take 12 (drop 4 input))
         && bool_decide (bytes_value (drop 12 (take 32 (drop 4 input))) ∈ rs)
  end.
Definition rules_allow (rules : list SelectorRule) (input : list Z) : bool :=
  match rules with
  | [] => true
  | _ => (4 <=? length input)%nat
         && existsb (λ r, (selector r =? bytes_value (take 4 input))
                          && recipient_allowed (rule_recipients r) input) rules
  end.
Definition scopes_allow (scopes : list CallScope) (t : Address) (input : list Z) : bool :=
  existsb (λ sc, (target sc =? t) && rules_allow (selectorRules sc) input) scopes.

(** Well-formed scope trees: every set is well formed, and what hangs under an
    absent target or selector is empty. *)
Record TInv (ts : TargetScope) : Prop := {
  ti_selectors : SetInv (selectors ts);
  ti_recipients sel : SetInv (recipients (selector_scopes ts).[sel]);
  ti_empty sel r : set_contains (selectors ts) sel = false →
    set_contains (recipients (selector_scopes ts).[sel]) r = false;
}.
Record KInv (k : KeyScope) : Prop := {
  ki_targets : SetInv (targets k);
  ki_scopes t : TInv (target_scopes k).[t];
  ki_empty t sel : set_contains (targets k) t = false →
    set_contains (selectors (target_scopes k).[t]) sel = false;
}.

(** The scope of one target holds exactly these rules. *)
Record TRep (ts : TargetScope) (rules : list SelectorRule) : Prop := {
  tr_inv : TInv ts;
  tr_selectors sel : set_contains (selectors ts) sel = bool_decide (sel ∈ map selector rules);
  tr_recipients rule r : rule ∈ rules →
    set_contains (recipients (selector_scopes ts).[selector rule]) r = bool_decide (r ∈ rule_recipients rule);
}.

Section scope_proofs.
Context `{Primitives}.
Implicit Types (e : Env) (s : AccountKeychain).

Lemma set_contains_empty v : set_contains (set_empty (T := Z)) v = false.
Proof. unfold set_contains, set_empty. cbn [set_positions]. by rewrite mread_empty. Qed.

Lemma TInv_zeroed : TInv zeroed.
Proof.
  constructor; intros; unfold zeroed, TargetScope_zeroed; cbn [selectors selector_scopes];
    rewrite ?mread_empty; first [apply set_contains_empty | apply SetInv_empty].
Qed.
Lemma KInv_zeroed : KInv zeroed.
Proof.
  constructor; intros; unfold zeroed, KeyScope_zeroed; cbn [targets target_scopes];
    rewrite ?mread_empty; first [apply set_contains_empty | apply TInv_zeroed | apply SetInv_empty].
Qed.

Lemma at_selectors_ok {A} (m : M (SetStore Z) A) e ts l a ts' l' :
  at_selectors m e (ts, l) = (Ok a, (ts', l')) →
  ∃ x, m e (selectors ts, l) = (Ok a, (x, l')) ∧ ts' = set_selectors x ts.
Proof. unfold at_selectors. intros (t & l1 & Hm & Heq)%zoom_ok. simplify_eq. eauto. Qed.
Lemma at_recipients_ok {A} sel (m : M (SetStore Z) A) e ts l a ts' l' :
  at_recipients sel m e (ts, l) = (Ok a, (ts', l')) →
  ∃ x, m e (recipients (selector_scopes ts).[sel], l) = (Ok a, (x, l')) ∧
       ts' = set_selector_scope sel (mkSelectorScope x) ts.
Proof. unfold at_recipients. intros (t & l1 & Hm & Heq)%zoom_ok. simplify_eq. eauto. Qed.
Lemma at_target_ok {A} t (m : M TargetScope A) e k l a k' l' :
  at_target t m e (k, l) = (Ok a, (k', l')) →
  ∃ x, m e ((target_scopes k).[t], l) = (Ok a, (x, l')) ∧ k' = set_target_scope t x k.
Proof. unfold at_target. intros (x & l1 & Hm & Heq)%zoom_ok. simplify_eq. eauto. Qed.
Lemma at_targets_ok {A} (m : M (SetStore Z) A) e k l a k' l' :
  at_targets m e (k, l) = (Ok a, (k', l')) →
  ∃ x, m e (targets k, l) = (Ok a, (x, l')) ∧ k' = set_targets x k.
Proof. unfold at_targets. intros (x & l1 & Hm & Heq)%zoom_ok. simplify_eq. eauto. Qed.

(** Deleting the recipients of some selectors. *)
Lemma delete_recipients_ok sels e ts l u ts' l' :
  (∀ sel, SetInv (recipients (selector_scopes ts).[sel])) →
  mfor sels (λ sel, at_recipients sel set_delete) e (ts, l) = (Ok u, (ts', l')) →
  selectors ts' = selectors ts ∧ (∀ sel, SetInv (recipients (selector_scopes ts').[sel])) ∧
  ∀ sel r, set_contains (recipients (selector_scopes ts').[sel]) r
    = negb (bool_decide (sel ∈ sels)) && set_contains (recipients (selector_scopes ts).[sel]) r.
Proof.
  revert ts l. induction sels as [|sel0 sels IH]; intros ts l Hinv Hrun; cbn in Hrun.
  - minvs. simplify_eq. split_and!; try done. 
  - apply bind_ok_unit in Hrun as ([ts1 l1] & H1 & Hrun).
    apply at_recipients_ok in H1 as (x & Hd & ->).
    destruct (set_delete_ok e (recipients (selector_scopes ts).[sel0]) l (Hinv sel0))
      as (x' & Hd' & Hx & _ & Hxc). rewrite Hd' in Hd. simplify_eq.
    apply IH in Hrun as (Hs & Hi & Hc); [split_and!|].
    + done.
    + done.
    + intros sel r. rewrite Hc. cbn. rewrite mread_insert. case_decide; subst.
      * cbn. rewrite Hxc. rewrite andb_false_r. rewrite bool_decide_eq_true_2 by set_solver. done.
      * f_equal. f_equal. apply bool_decide_ext. set_solver.
    + intros sel. cbn. rewrite mread_insert. by case_decide.
Qed.

(** After [clear_target_selectors] the target's scope is empty. *)
Lemma clear_target_ok t e k l u k' l' :
  TInv (target_scopes k).[t] →
  at_target t (
    sels ← gets (λ ts, set_read (selectors ts));
    mfor sels (λ sel, at_recipients sel set_delete);;
    at_selectors set_delete) e (k, l) = (Ok u, (k', l')) →
  ∃ ts, k' = set_target_scope t ts k ∧ TRep ts [].
Proof.
  intros [Hsel Hrec Hemp] Hrun. apply at_target_ok in Hrun as (ts & Hrun & ->).
  exists ts. split; [done|]. minvs.
  match goal with Hm : mfor _ _ _ _ = (_, ?st) |- _ => destruct st as [ts1 l1];
    apply delete_recipients_ok in Hm as (Hs1 & Hi1 & Hc1); [|done] end.
  apply at_selectors_ok in Hrun as (x & Hd & ->). rewrite Hs1 in Hd.
  destruct (set_delete_ok e (selectors (target_scopes k).[t]) l1 Hsel) as (x' & Hd' & Hx & _ & Hxc).
  rewrite Hd' in Hd. simplify_eq. destruct (set_read_spec _ Hsel) as [_ Hread].
  assert (∀ sel r, set_contains (recipients (selector_scopes ts1).[sel]) r = false) as Hall.
  { intros sel r. rewrite Hc1. case_bool_decide as Hin; [done|]. cbn [negb andb].
    cbn in Hin. rewrite Hread in Hin. apply Hemp. by destruct (set_contains _ sel). }
  constructor; [constructor; cbn; eauto|..].
  - intros sel. cbn. by rewrite Hxc.
  - intros rule r Hr. by apply elem_of_nil in Hr.
Qed.

(** One rule on top of others. *)
Lemma upsert_rule_ok is_t4 rule done e ts l u ts' l' :
  TRep ts done → selector rule ∉ map selector done → NoDup (rule_recipients rule) →
  upsert_rule is_t4 rule e (ts, l) = (Ok u, (ts', l')) → TRep ts' (done ++ [rule]).
Proof.
  intros [[Hsel Hrec Hemp] Hsels Hrecs] Hnew Hnd Hrun. unfold upsert_rule in Hrun.
  apply bind_ok in Hrun as (b & [ts1 l1] & Hins & Hrun).
  apply at_selectors_ok in Hins as (x & Hins & ->).
  apply set_insert_ok in Hins as (Hx & _ & Hxc & ->); [|done].
  assert (∃ ys, selector_scopes ts' = ys ∧ selectors ts' = x ∧
    (∀ sel, SetInv (recipients ys.[sel])) ∧
    (∀ sel, sel ≠ selector rule → ys.[sel] = (selector_scopes ts).[sel]) ∧
    ∀ r, set_contains (recipients ys.[selector rule]) r = bool_decide (r ∈ rule_recipients rule))
    as (ys & Hys & Hx' & Hyi & Hyo & Hyr).
  { eexists. split; [done|]. destruct (rule_recipients rule) as [|r0 rs] eqn:Hrs.
    - assert (∀ r, set_contains (recipients (selector_scopes ts).[selector rule]) r = false) as Hz.
      { intros r. apply Hemp. rewrite Hsels. by apply bool_decide_eq_false_2. }
      destruct is_t4; cbn [when negb] in Hrun; minvs.
      + simplify_eq. cbn. by split_and!.
      + apply at_recipients_ok in Hrun as (y & Hd & ->). cbn in Hd |- *.
        destruct (set_delete_ok e (recipients (selector_scopes ts).[selector rule]) l
          (Hrec _)) as (y' & Hd' & Hy & _ & Hyc). rewrite Hd' in Hd. simplify_eq.
        split_and!; try done.
        * intros sel. rewrite mread_insert. by case_decide.
        * intros sel Hne. by rewrite mread_insert_ne.
        * intros r. rewrite mread_insert_eq. cbn. by rewrite Hyc.
    - apply at_recipients_ok in Hrun as (y & Hd & ->). cbn in Hd |- *.
      pose proof (set_write_len _ _ _ _ _ _ Hd) as Hlen.
      destruct (set_write_ok e (recipients (selector_scopes ts).[selector rule]) l (r0 :: rs)
        (Hrec _) Hnd Hlen) as (y' & Hd' & Hy & _ & Hyc). rewrite Hd' in Hd. simplify_eq.
      split_and!; try done.
      + intros sel. rewrite mread_insert. by case_decide.
      + intros sel Hne. by rewrite mread_insert_ne.
      + intros r. rewrite mread_insert_eq. cbn. by rewrite Hyc. }
  assert (∀ sel, set_contains x sel = bool_decide (sel ∈ map selector (done ++ [rule]))) as Hxs.
  { intros sel. rewrite Hxc, Hsels, map_app. cbn [map]. by rewrite bool_decide_elem_snoc. }
  constructor; [constructor|..]; rewrite ?Hys, ?Hx'; try done.
  - intros sel r. rewrite Hxs. intros Hns%bool_decide_eq_false. rewrite map_app in Hns.
    rewrite Hyo by set_solver. apply Hemp. rewrite Hsels. apply bool_decide_eq_false_2. set_solver.
  - intros rule' r [Hr| ->%list_elem_of_singleton]%elem_of_app; [|done].
    rewrite Hyo; [by apply Hrecs|]. intros Heq. apply Hnew. rewrite <- Heq.
    apply list_elem_of_fmap. eauto.
Qed.

Lemma validate_rules_ok is_tip20 t seen rules u :
  validate_selector_rules_loop is_tip20 t seen rules = Ok u →
  NoDup (map selector rules) ∧ (∀ sel, sel ∈ map selector rules → sel ∉ seen) ∧
  Forall (λ r, NoDup (rule_recipients r)) rules.
Proof.
  revert seen. induction rules as [|rule rules IH]; intros seen Hv; cbn in Hv |- *.
  - split_and!; [constructor|set_solver|constructor].
  - case_decide; [done|]. destruct (rule_recipients_valid is_tip20 t rule) eqn:Hr; [|done]. cbn in Hv.
    apply IH in Hv as (Hnd & Hnew & Hall). split_and!.
    + constructor; [|done]. intros Hin%Hnew. set_solver.
    + set_solver.
    + constructor; [|done]. unfold rule_recipients_valid in Hr.
      destruct (rule_recipients rule) as [|r rs]; [constructor|]. bprop.
      match goal with Ha : all_new _ _ = true |- _ => by apply all_new_spec in Ha as [? _] end.
Qed.

(** [k'] differs from [k] only in the scope of target [t]. *)
Definition target_frame (t : Address) (k k' : KeyScope) : Prop :=
  is_scoped k' = is_scoped k ∧ targets k' = targets k ∧
  ∀ t', t' ≠ t → (target_scopes k').[t'] = (target_scopes k).[t'].

Lemma set_target_scope_frame t ts k : target_frame t k (set_target_scope t ts k).
Proof. split_and!; try done. intros t' ?. cbn. by rewrite mread_insert_ne. Qed.

Lemma target_frame_trans t k1 k2 k3 :
  target_frame t k1 k2 → target_frame t k2 k3 → target_frame t k1 k3.
Proof.
  intros (Ha1 & Hb1 & Hc1) (Ha2 & Hb2 & Hc2). split_and!; try congruence. intros. rewrite Hc2; auto.
Qed.

Lemma rules_loop_ok b h t rules done e s l u s' l' :
  TRep (target_scopes (key_scopes s).[h]).[t] done →
  NoDup (map selector (done ++ rules)) → Forall (λ r, NoDup (rule_recipients r)) rules →
  mfor rules (λ rule, at_scope h (at_target t (upsert_rule b rule))) e (s, l) = (Ok u, (s', l')) →
  TRep (target_scopes (key_scopes s').[h]).[t] (done ++ rules) ∧
  target_frame t (key_scopes s).[h] (key_scopes s').[h].
Proof.
  revert done s l. induction rules as [|rule rules IH]; intros done s l HT Hnd Hall Hrun.
  - cbn in Hrun. minvs. simplify_eq. rewrite app_nil_r. split; [done|]. by split_and!.
  - cbn in Hrun. apply bind_ok_unit in Hrun as ([s1 l1] & H1 & Hrun).
    apply at_scope_ok in H1 as (k1 & H1 & ->). apply at_target_ok in H1 as (ts & H1 & ->).
    apply Forall_cons in Hall as [Hr Hall].
    apply upsert_rule_ok with (done := done) in H1; [|done| |done].
    2:{ rewrite map_app in Hnd. apply NoDup_app in Hnd as (_ & Hd & _). intros Hin.
        apply (Hd _ Hin). cbn. by left. }
    apply (IH (done ++ [rule])) in Hrun as (HT' & Hf).
    + rewrite <- app_assoc in HT'. split; [done|]. cbn in Hf. rewrite mread_insert_eq in Hf.
      eapply target_frame_trans; [apply set_target_scope_frame|exact Hf].
    + cbn. rewrite mread_insert_eq. cbn. by rewrite mread_insert_eq.
    + by rewrite <- app_assoc.
    + done.
Qed.

Lemma clear_target_selectors_ok h t e s l u s' l' :
  TInv (target_scopes (key_scopes s).[h]).[t] →
  clear_target_selectors h t e (s, l) = (Ok u, (s', l')) →
  TRep (target_scopes (key_scopes s').[h]).[t] [] ∧
  target_frame t (key_scopes s).[h] (key_scopes s').[h].
Proof.
  intros HT Hrun. unfold clear_target_selectors in Hrun. apply at_scope_ok in Hrun as (k' & Hrun & ->).
  apply clear_target_ok in Hrun as (ts & -> & HTR); [|done].
  cbn. rewrite mread_insert_eq. cbn. rewrite mread_insert_eq. split; [done|].
  apply set_target_scope_frame.
Qed.

Lemma TRep_selectors ts rules : TRep ts rules → rules = [] → ∀ sel, set_contains (selectors ts) sel = false.
Proof. intros [] -> sel. rewrite tr_selectors0. done. Qed.

Lemma upsert_ok is_tip20 h sc e s l u s' l' :
  KInv (key_scopes s).[h] →
  upsert_target_scope is_tip20 h sc e (s, l) = (Ok u, (s', l')) →
  let k := (key_scopes s).[h] in let k' := (key_scopes s').[h] in
  KInv k' ∧ is_scoped k' = is_scoped k ∧
  (∀ t, set_contains (targets k') t = bool_decide (t = target sc) || set_contains (targets k) t) ∧
  TRep (target_scopes k').[target sc] (selectorRules sc) ∧
  (∀ t, t ≠ target sc → (target_scopes k').[t] = (target_scopes k).[t]).
Proof.
  intros [HT Hts Hemp] Hrun k k'. unfold upsert_target_scope in Hrun.
  apply bind_ok in Hrun as (e0 & st0 & [-> ->]%ask_ok & Hrun).
  apply bind_ok_unit in Hrun as (st1 & [_ ->]%require_ok & Hrun).
  apply bind_ok_unit in Hrun as ([s2 l2] & H2 & Hrun).
  assert (NoDup (map selector (selectorRules sc)) ∧ Forall (λ r, NoDup (rule_recipients r)) (selectorRules sc)
    ∧ s2 = s) as (Hnd & Hall & ->).
  { destruct (selectorRules sc) as [|r rs] eqn:Hrs.
    - minvs; simplify_eq; split_and!; by repeat constructor.
    - minvs; [|done]. simplify_eq.
      match goal with Hv : validate_selector_rules _ _ _ = _ |- _ =>
        apply validate_rules_ok in Hv as (? & _ & ?) end. done. }
  apply bind_ok in Hrun as (b & [s3 l3] & H3 & Hrun).
  apply at_scope_ok in H3 as (k3 & H3 & ->). apply at_targets_ok in H3 as (x & H3 & ->).
  apply set_insert_ok in H3 as (Hx & _ & Hxc & ->); [|done]. fold k in Hxc.
  apply bind_ok_unit in Hrun as ([s4 l4] & H4 & Hrun).
  apply clear_target_selectors_ok in H4 as (HT4 & Hf4); [|cbn; rewrite mread_insert_eq; apply Hts].
  apply (rules_loop_ok _ _ _ _ []) in Hrun as (HT5 & Hf5); [|done..].
  cbn in Hf4. rewrite mread_insert_eq in Hf4. cbn [app] in HT5.
  destruct (target_frame_trans _ _ _ _ Hf4 Hf5) as (Hsc & Htg & Ho). cbn in Hsc, Htg, Ho.
  fold k' in Hsc, Htg, Ho, HT5.
  split; [constructor|split_and!]; try done.
  - by rewrite Htg.
  - intros t. destruct (decide (t = target sc)) as [->|Hne]; [apply HT5|]. rewrite Ho by done. apply Hts.
  - intros t sel. rewrite Htg, Hxc. intros [Hne%bool_decide_eq_false Hc]%orb_false_iff.
    rewrite Ho by done. by apply Hemp.
  - intros t. by rewrite Htg, Hxc.
Qed.

(** The tree holds exactly these scopes. *)
Record KRep (k : KeyScope) (scopes : list CallScope) : Prop := {
  kr_inv : KInv k;
  kr_targets t : set_contains (targets k) t = bool_decide (t ∈ map target scopes);
  kr_scopes sc : sc ∈ scopes → TRep (target_scopes k).[target sc] (selectorRules sc);
}.

Lemma upserts_ok is_tip20 h scopes done e s l u s' l' :
  KRep (key_scopes s).[h] done → NoDup (map target (done ++ scopes)) →
  mfor scopes (λ sc, upsert_target_scope is_tip20 h sc) e (s, l) = (Ok u, (s', l')) →
  KRep (key_scopes s').[h] (done ++ scopes) ∧
  is_scoped (key_scopes s').[h] = is_scoped (key_scopes s).[h].
Proof.
  revert done s l. induction scopes as [|sc scopes IH]; intros done s l HK Hnd Hrun.
  - cbn in Hrun. minvs. simplify_eq. by rewrite app_nil_r.
  - cbn in Hrun. apply bind_ok_unit in Hrun as ([s1 l1] & H1 & Hrun). destruct HK as [HI Ht Hs].
    apply upsert_ok in H1 as (HI1 & Hsc1 & Ht1 & Hr1 & Ho1); [|done].
    apply (IH (done ++ [sc])) in Hrun as (HK' & Hsc').
    + rewrite <- app_assoc in HK'. split; [done|congruence].
    + constructor; [done|..].
      * intros t. rewrite Ht1, Ht, map_app. cbn [map]. by rewrite bool_decide_elem_snoc.
      * intros sc' [Hin| ->%list_elem_of_singleton]%elem_of_app; [|done].
        rewrite Ho1; [by apply Hs|]. intros Heq. rewrite map_app in Hnd.
        apply NoDup_app in Hnd as (_ & Hd & _). apply (Hd (target sc')).
        { apply list_elem_of_fmap. eauto. } cbn. rewrite Heq. by left.
    + by rewrite <- app_assoc.
Qed.

Lemma clear_loop_ok h ts e s l u s' l' :
  (∀ t, TInv (target_scopes (key_scopes s).[h]).[t]) →
  mfor ts (λ t, clear_target_selectors h t) e (s, l) = (Ok u, (s', l')) →
  let k := (key_scopes s).[h] in let k' := (key_scopes s').[h] in
  is_scoped k' = is_scoped k ∧ targets k' = targets k ∧
  (∀ t, TInv (target_scopes k').[t]) ∧
  ∀ t sel, set_contains (selectors (target_scopes k').[t]) sel
    = negb (bool_decide (t ∈ ts)) && set_contains (selectors (target_scopes k).[t]) sel.
Proof.
  revert s l. induction ts as [|t0 ts IH]; intros s l Hinv Hrun; cbn in Hrun.
  - minvs. simplify_eq. by split_and!.
  - apply bind_ok_unit in Hrun as ([s1 l1] & H1 & Hrun).
    apply clear_target_selectors_ok in H1 as (HR & Hsc & Htg & Ho); [|done].
    apply IH in Hrun as (Hsc' & Htg' & Hinv' & Hc').
    + split_and!; try congruence; [done|]. intros t sel. rewrite Hc'.
      destruct (decide (t = t0)) as [->|Hne].
      * rewrite (TRep_selectors _ _ HR eq_refl), andb_false_r.
        rewrite (bool_decide_eq_true_2 (t0 ∈ t0 :: ts)) by (by left). done.
      * rewrite Ho by done. f_equal. f_equal. apply bool_decide_ext. set_solver.
    + intros t. destruct (decide (t = t0)) as [->|Hne]; [apply HR|]. rewrite Ho by done. apply Hinv.
Qed.

Lemma clear_all_ok h e s l u s' l' :
  KInv (key_scopes s).[h] →
  clear_all_target_scopes h e (s, l) = (Ok u, (s', l')) → KRep (key_scopes s').[h] [].
Proof.
  intros [HT Hts Hemp] Hrun. unfold clear_all_target_scopes in Hrun. minvs.
  match goal with Hm : mfor _ _ _ _ = (_, ?st) |- _ => destruct st as [s1 l1];
    apply clear_loop_ok in Hm as (Hsc1 & Htg1 & Hi1 & Hc1); [|done] end.
  apply at_scope_ok in Hrun as (k2 & H2 & ->). apply at_targets_ok in H2 as (x & Hd & ->).
  rewrite Htg1 in Hd.
  destruct (set_delete_ok e (targets (key_scopes s).[h]) l1 HT) as (x' & Hd' & Hx & _ & Hxc).
  rewrite Hd' in Hd. simplify_eq. destruct (set_read_spec _ HT) as [_ Hread].
  cbn. rewrite mread_insert_eq. constructor; [constructor|..]; cbn; try done.
  - intros t sel _. rewrite Hc1. case_bool_decide as Hin; [done|]. cbn [negb andb].
    cbn in Hin. rewrite Hread in Hin. apply Hemp. by destruct (set_contains _ t).
  - intros sc Hin. by apply elem_of_nil in Hin.
Qed.

Lemma replace_ok is_tip20 h cs e s l u s' l' :
  KInv (key_scopes s).[h] →
  replace_allowed_calls is_tip20 h cs e (s, l) = (Ok u, (s', l')) →
  match cs with
  | None => KInv (key_scopes s').[h] ∧ is_scoped (key_scopes s').[h] = false
  | Some scopes => KRep (key_scopes s').[h] scopes ∧ is_scoped (key_scopes s').[h] = true
  end.
Proof.
  intros HK Hrun. unfold replace_allowed_calls in Hrun.
  apply bind_ok_unit in Hrun as ([s1 l1] & H1 & Hrun). apply clear_all_ok in H1 as [HI Ht Hs]; [|done].
  destruct cs as [scopes|]; minvs.
  - match goal with Hm : at_scope _ _ _ _ = (_, ?st) |- _ => destruct st as [s2 l2];
      apply at_scope_ok in Hm as (k2 & H2 & ->) end. minvs. simplify_eq.
    match goal with Ha : all_new _ _ = true |- _ => apply all_new_spec in Ha as [Hnd _] end.
    apply (upserts_ok _ _ _ []) in Hrun as [HK' Hsc'];
      [|cbn; rewrite mread_insert_eq; by destruct HI|done].
    cbn in Hsc'. rewrite mread_insert_eq in Hsc'. done.
  - apply at_scope_ok in Hrun as (k2 & H2 & ->). minvs. simplify_eq. cbn. rewrite mread_insert_eq.
    by destruct HI.
Qed.
End scope_proofs.

Section scope_theorems.
Context `{Primitives}.
Implicit Types (e : Env) (s : AccountKeychain).

Definition scopes_wf (s : AccountKeychain) : Prop := ∀ h, KInv (key_scopes s).[h].

Lemma scopes_wf_eq s s' : key_scopes s' = key_scopes s → scopes_wf s → scopes_wf s'.
Proof. unfold scopes_wf. by intros ->. Qed.

Lemma scopes_wf_frame h s s' :
  scope_frame h s s' → KInv (key_scopes s').[h] → scopes_wf s → scopes_wf s'.
Proof.
  intros [_ _ _ _ Ho] HK Hwf h'. destruct (decide (h' = h)) as [->|]; [done|]. by rewrite Ho.
Qed.

Lemma apply_restrictions_scopes is_tip20 m k ls cs e st u st' :
  scopes_wf st.1 → is_t3 (spec e) = true →
  apply_key_authorization_restrictions is_tip20 m k ls cs e st = (Ok u, st') →
  let sc := (key_scopes st'.1).[spending_limit_key m k] in
  scopes_wf st'.1 ∧
  match cs with None => is_scoped sc = false | Some scopes => KRep sc scopes ∧ is_scoped sc = true end.
Proof.
  intros Hwf HT3 Hrun. unfold apply_key_authorization_restrictions in Hrun.
  apply bind_ok in Hrun as (e0 & st0 & [-> ->]%ask_ok & Hrun).
  apply bind_ok_unit in Hrun as ([s1 l1] & Hm & Hrun). rewrite HT3 in Hrun. cbn [negb] in Hrun.
  apply (mfor_rel (limit_frame (spending_limit_key m k))) in Hm;
    [|intros ???? Hb; by eapply write_authorization_limit_frame].
  destruct Hm as [_ Hks _ _ _]. assert (scopes_wf s1) as Hwf1 by by eapply scopes_wf_eq.
  pose proof (replace_allowed_calls_frame _ _ _ _ _ _ _ Hrun) as Hfr. destruct st' as [s' l'].
  apply replace_ok in Hrun; [|apply Hwf1]. cbn [fst] in *.
  destruct cs; destruct Hrun as [Hrep Hsc]; (split; [|done]).
  - eapply scopes_wf_frame; [exact Hfr| |done]. by destruct Hrep.
  - by eapply scopes_wf_frame.
Qed.

(** The scopes an authorization installs. *)
Lemma authorize_key_scopes is_tip20 m k ty cfg e st u st' :
  scopes_wf st.1 → is_t3 (spec e) = true →
  authorize_key is_tip20 m k ty cfg e st = (Ok u, st') →
  scopes_wf st'.1 ∧
  let sc := (key_scopes st'.1).[spending_limit_key m k] in
  if allowAnyCalls cfg then is_scoped sc = false else KRep sc (allowedCalls cfg) ∧ is_scoped sc = true.
Proof.
  intros Hwf HT3 Hrun. unfold authorize_key in Hrun. minvs.
  all: match goal with Hc : check_restrictions _ _ = Ok ?cs |- _ =>
    assert (cs = if allowAnyCalls cfg then None else Some (allowedCalls cfg)) as ->
      by (unfold check_restrictions in Hc; rewrite HT3 in Hc; by rinvs) end.
  all: match goal with Hr : apply_key_authorization_restrictions _ _ _ _ _ _ _ = _ |- _ =>
    apply apply_restrictions_scopes in Hr as [? ?]; [|done|done]; cbn [fst] in * end.
  all: split; [done|]; by destruct (allowAnyCalls cfg).
Qed.

(** Upserting scopes one after the other, on top of an existing tree. *)
Lemma upserts_update is_tip20 h ss e s l u s' l' :
  KInv (key_scopes s).[h] → NoDup (map target ss) →
  mfor ss (λ sc, upsert_target_scope is_tip20 h sc) e (s, l) = (Ok u, (s', l')) →
  let k := (key_scopes s).[h] in let k' := (key_scopes s').[h] in
  KInv k' ∧
  (∀ t, set_contains (targets k') t = bool_decide (t ∈ map target ss) || set_contains (targets k) t) ∧
  (∀ sc, sc ∈ ss → TRep (target_scopes k').[target sc] (selectorRules sc)) ∧
  (∀ t, t ∉ map target ss → (target_scopes k').[t] = (target_scopes k).[t]).
Proof.
  revert s l. induction ss as [|sc ss IH]; intros s l HK Hnd Hrun; cbn in Hrun.
  - minvs. simplify_eq. split_and!; try done. intros sc Hsc. by apply elem_of_nil in Hsc.
  - apply bind_ok_unit in Hrun as ([s1 l1] & H1 & Hrun).
    apply upsert_ok in H1 as (HI1 & _ & Ht1 & Hr1 & Ho1); [|done].
    cbn in Hnd. apply NoDup_cons in Hnd as [Hnew Hnd].
    apply IH in Hrun as (HI2 & Ht2 & Hr2 & Ho2); [|done..]. split_and!; try done.
    + intros t. rewrite Ht2, Ht1. cbn [map]. rewrite bool_decide_elem_cons.
      by destruct (bool_decide (t = target sc)), (bool_decide (t ∈ map target ss)).
    + intros sc' [->|Hin]%elem_of_cons; [|by apply Hr2]. by rewrite Ho2.
    + intros t [? ?]%not_elem_of_cons. by rewrite Ho2, Ho1.
Qed.

Lemma set_allowed_ok is_tip20 m k ss e s l u s' l' :
  scopes_wf s → set_allowed_calls is_tip20 m k ss e (s, l) = (Ok u, (s', l')) →
  let k0 := (key_scopes s).[spending_limit_key m k] in
  let k1 := (key_scopes s').[spending_limit_key m k] in
  KInv k1 ∧ is_scoped k1 = true ∧
  (∀ t, set_contains (targets k1) t = bool_decide (t ∈ map target ss) || set_contains (targets k0) t) ∧
  (∀ sc, sc ∈ ss → TRep (target_scopes k1).[target sc] (selectorRules sc)) ∧
  (∀ t, t ∉ map target ss → (target_scopes k1).[t] = (target_scopes k0).[t]).
Proof.
  intros Hwf Hrun. unfold set_allowed_calls in Hrun. minvs.
  match goal with Ha : all_new _ _ = true |- _ => apply all_new_spec in Ha as [Hnd _] end.
  match goal with Hm : mfor _ _ _ _ = (_, ?st) |- _ => destruct st as [s1 l1];
    apply upserts_update in Hm as ([HT Hts Hemp] & Ht & Hr & Ho); [|apply Hwf|done] end.
  apply at_scope_ok in Hrun as (k2 & H2 & ->). minvs. simplify_eq. cbn. rewrite mread_insert_eq.
  by split_and!.
Qed.

Lemma remove_allowed_ok m k t e s l u s' l' :
  scopes_wf s → remove_allowed_calls m k t e (s, l) = (Ok u, (s', l')) →
  let k0 := (key_scopes s).[spending_limit_key m k] in
  let k1 := (key_scopes s').[spending_limit_key m k] in
  KInv k1 ∧ is_scoped k1 = is_scoped k0 ∧
  (is_scoped k0 = true → ∀ t', set_contains (targets k1) t' =
     negb (bool_decide (t' = t)) && set_contains (targets k0) t') ∧
  (∀ t', t' ≠ t → (target_scopes k1).[t'] = (target_scopes k0).[t']).
Proof.
  intros Hwf Hrun k0 k1. destruct (Hwf (spending_limit_key m k)) as [HT Hts Hemp].
  unfold remove_allowed_calls, remove_target_scope in Hrun. minvs; cbn [fst] in *.
  - bprop. simplify_eq. split_and!; try done. unfold k0. congruence.
  - match goal with Hm : at_scope _ _ _ _ = _ |- _ => apply at_scope_ok in Hm as (k2 & H2 & ->);
      apply at_targets_ok in H2 as (x & H2 & ->); apply set_remove_ok in H2 as (Hx & Hb & Hxc & _); [|done] end.
    unfold k1. cbn. rewrite mread_insert_eq. bprop.
    assert (set_contains (targets k0) t = false) as Hnot by (unfold k0; congruence).
    split; [constructor; cbn; try done|split_and!]; try done.
    intros t' sel. rewrite Hxc. case_bool_decide; cbn; [subst; by eauto|by eauto].
  - match goal with Hm : at_scope _ _ _ _ = (_, ?st) |- _ => destruct st as [s1 l1];
      apply at_scope_ok in Hm as (k2 & H2 & ->);
      apply at_targets_ok in H2 as (x & H2 & ->); apply set_remove_ok in H2 as (Hx & Hb & Hxc & _); [|done] end.
    apply clear_target_selectors_ok in Hrun as (HR & Hsc & Htg & Ho); cbn in *;
      rewrite mread_insert_eq in *; [|apply Hts]. cbn in *.
    split; [constructor|split_and!]; unfold k1; rewrite ?Htg, ?Hsc; try done.
    + intros t'. destruct (decide (t' = t)) as [->|]; [apply HR|]. rewrite Ho by done. apply Hts.
    + intros t' sel Hc. destruct (decide (t' = t)) as [->|]; [by apply (TRep_selectors _ _ HR)|].
      rewrite Ho by done. apply Hemp. rewrite Hxc in Hc. rewrite bool_decide_eq_false_2 in Hc by done.
      done.
Qed.

Lemma exec_scopes_wf c s u s' lg :
  is_t3 (spec (k_env c)) = true → scopes_wf s →
  exec_k (k_tip20 c) (k_call c) (k_env c) (s, []) = (Ok u, (s', lg)) → scopes_wf s'.
Proof.
  intros HT3 Hwf Hrun.
  destruct (k_call c) as [m k ty cfg|m k|m k t n|m k ss|m k t|k|o|a k t n|a t n|a t o n|a t n];
    cbn in Hrun.
  - by apply authorize_key_scopes in Hrun as [? _].
  - by apply revoke_key_ok in Hrun as (_ & _ & [= -> _]).
  - apply update_limit_ok in Hrun as (_ & _ & Hs & _). by eapply scopes_wf_eq.
  - pose proof (set_allowed_frame _ _ _ _ _ _ _ _ Hrun) as [Hf _].
    apply set_allowed_ok in Hrun as [HK _]; [|done]. by eapply scopes_wf_frame.
  - pose proof (remove_allowed_frame _ _ _ _ _ _ _ Hrun) as [Hf _].
    apply remove_allowed_ok in Hrun as [HK _]; [|done]. by eapply scopes_wf_frame.
  - unfold set_transaction_key in Hrun. minvs. by simplify_eq.
  - unfold set_tx_origin in Hrun. minvs. by simplify_eq.
  - apply verify_frame in Hrun as []. by eapply scopes_wf_eq.
  - unfold authorize_transfer in Hrun. minvs; simplify_eq; try done.
    apply verify_frame in Hrun as []. by eapply scopes_wf_eq.
  - unfold authorize_approve in Hrun. minvs; simplify_eq; try done.
    apply verify_frame in Hrun as []. by eapply scopes_wf_eq.
  - apply refund_frame in Hrun as [[] _]. by eapply scopes_wf_eq.
Qed.

(** States reachable since the T3 hardfork. *)
Definition keychain_reachable (s : AccountKeychain) : Prop :=
  ∃ tr, Forall (λ c, is_t3 (spec (k_env c)) = true) tr ∧ s = (krun tr keychain_empty).1.

Lemma reachable_scopes_wf s : keychain_reachable s → scopes_wf s.
Proof.
  intros (tr & HT3 & ->). rewrite Forall_forall in HT3. apply krun_ind.
  - intros c s1 u s2 lg Hc. apply exec_scopes_wf. by apply HT3.
  - intros h. cbn. rewrite mread_empty. apply KInv_zeroed.
Qed.

(** *** What the tree admits *)
Lemma existsb_rule_recipients ts rules sel input :
  TRep ts rules → sel ∈ map selector rules →
  existsb (λ r, (selector r =? sel) && recipient_allowed (rule_recipients r) input) rules =
  let rs := recipients (selector_scopes ts).[sel] in
  set_is_empty rs || (36 <=? length input)%nat
    && forallb (λ b, b =? 0) (take 12 (drop 4 input))
    && set_contains rs (bytes_value (drop 12 (take 32 (drop 4 input)))).
Proof.
  intros [HTI Hsel Hrec] (r0 & -> & Hin)%list_elem_of_fmap. cbv zeta.
  assert (∀ r, r ∈ rules → selector r = selector r0 →
    recipient_allowed (rule_recipients r) input =
    set_is_empty (recipients (selector_scopes ts).[selector r0]) || (36 <=? length input)%nat
    && forallb (λ b, b =? 0) (take 12 (drop 4 input))
    && set_contains (recipients (selector_scopes ts).[selector r0])
         (bytes_value (drop 12 (take 32 (drop 4 input))))) as Hr.
  { intros r Hr Heq. rewrite <- Heq, (Hrec r) by done.
    pose proof (set_is_empty_spec _ (ti_recipients _ HTI (selector r))) as He.
    unfold recipient_allowed. destruct (rule_recipients r) as [|x xs] eqn:Hxs.
    - rewrite (proj2 He); [done|]. intros v. rewrite (Hrec r) by done. by rewrite Hxs.
    - destruct (set_is_empty _) eqn:Hemp; [|done].
      specialize (proj1 He eq_refl x). rewrite (Hrec r) by done. rewrite Hxs.
      rewrite bool_decide_eq_false. set_solver. }
  destruct (set_is_empty _ || _) eqn:Hb.
  - apply existsb_exists. exists r0. rewrite Z.eqb_refl. cbn. rewrite Hr by done.
    split; [by apply list_elem_of_In|done].
  - apply Bool.not_true_iff_false. intros (r & Hir & Hrr)%existsb_exists.
    apply list_elem_of_In in Hir. apply andb_true_iff in Hrr as [Heq%Z.eqb_eq Hrr].
    rewrite Hr in Hrr by done. congruence.
Qed.

(** Below a listed target, the check is the meaning of its rules. *)
Definition target_check (ts : TargetScope) (input : list Z) : bool :=
  set_is_empty (selectors ts) ||
  (4 <=? length input)%nat && set_contains (selectors ts) (bytes_value (take 4 input)) &&
  (let rs := recipients (selector_scopes ts).[bytes_value (take 4 input)] in
   set_is_empty rs || (36 <=? length input)%nat
     && forallb (λ b, b =? 0) (take 12 (drop 4 input))
     && set_contains rs (bytes_value (drop 12 (take 32 (drop 4 input))))).

Lemma target_check_rules ts rules input : TRep ts rules → target_check ts input = rules_allow rules input.
Proof.
  intros HT. pose proof HT as [HTI Hsel Hrec]. unfold target_check, rules_allow.
  pose proof (set_is_empty_spec _ (ti_selectors _ HTI)) as He.
  destruct rules as [|r rs]; [by rewrite (proj2 He)|].
  assert (set_is_empty (selectors ts) = false) as ->.
  { apply Bool.not_true_iff_false. intros Hemp. pose proof (proj1 He Hemp (selector r)) as Hc.
    rewrite Hsel in Hc. apply bool_decide_eq_false in Hc. cbn in Hc. set_solver. }
  rewrite Hsel. cbn [orb]. destruct (4 <=? length input)%nat; [|done]. cbn [andb].
  case_bool_decide as Hin.
  - cbn [andb]. by rewrite (existsb_rule_recipients ts).
  - cbn [andb]. symmetry. apply Bool.not_true_iff_false. intros (r' & Hir & Hrr)%existsb_exists.
    apply andb_true_iff in Hrr as [Heq%Z.eqb_eq _]. apply Hin. rewrite <- Heq.
    apply list_elem_of_fmap. exists r'. split; [done|]. by apply list_elem_of_In.
Qed.

Lemma validate_target e s a k t input :
  is_t3 (spec e) = true → k ≠ ZERO →
  let sc := (key_scopes s).[spending_limit_key a k] in
  is_ok (validate_call_scope_for_transaction e s a k (TxCall t) input) =
  negb (is_scoped sc) || set_contains (targets sc) t && target_check (target_scopes sc).[t] input.
Proof.
  intros HT3 Hk sc. unfold validate_call_scope_for_transaction, target_check.
  apply Z.eqb_neq in Hk. rewrite Hk, HT3. cbn [negb orb]. fold sc.
  destruct (is_scoped sc); cbn [negb orb]; [|done].
  destruct (set_contains (targets sc) t); cbn [negb andb]; [|done].
  destruct (set_is_empty (selectors _)); cbn [orb]; [done|].
  rewrite Nat.ltb_antisym. destruct (4 <=? length input)%nat; cbn [negb andb]; [|done].
  destruct (set_contains (selectors _) _); cbn [negb andb]; [|done].
  destruct (set_is_empty (recipients _)); cbn [orb]; [done|].
  rewrite Nat.ltb_antisym. destruct (36 <=? length input)%nat eqn:Hlen; cbn [negb andb]; [|done].
  rewrite take_take, Nat.min_l by lia.
  assert (forallb (λ b, b =? 0) (take 12 (drop 4 input))
    = negb (existsb (λ b, negb (b =? 0)) (take 12 (drop 4 input)))) as ->.
  { induction (take 12 (drop 4 input)) as [|b bs IH]; [done|]. cbn. rewrite IH.
    by destruct (b =? 0). }
  destruct (existsb _ _); cbn [negb andb]; [done|].
  by destruct (set_contains (recipients _) _).
Qed.

(** C21: the call check enforces exactly the scopes the account signed. When
    [authorize_key] succeeds in a reachable state, a call by the new key to [t] with
    any calldata passes [validate_call_scope_for_transaction] iff the key was
    authorized for any call, or the configured scopes list the target, its
    selector (or no selector) and its recipient (or no recipient). *)
Theorem authorized_scope_exact is_tip20 account k ty cfg e s l u s' l' e' t input :
  keychain_reachable s → is_t3 (spec e) = true → is_t3 (spec e') = true →
  authorize_key is_tip20 account k ty cfg e (s, l) = (Ok u, (s', l')) →
  is_ok (validate_call_scope_for_transaction e' s' account k (TxCall t) input) =
  allowAnyCalls cfg || scopes_allow (allowedCalls cfg) t input.
Proof.
  intros Hr HT3 HT3' Hrun. pose proof Hrun as (_ & Hk & _)%authorize_key_ok.
  apply authorize_key_scopes in Hrun as [_ Hsc]; [|by apply reachable_scopes_wf|done].
  rewrite validate_target by done. cbn [fst] in Hsc. destruct (allowAnyCalls cfg).
  { by rewrite Hsc. }
  destruct Hsc as [[_ Ht Hs] ->]. cbn [negb orb]. rewrite Ht. unfold scopes_allow.
  case_bool_decide as Hin; cbn [andb].
  - apply list_elem_of_fmap in Hin as (sc & -> & Hin).
    assert (∀ sc', sc' ∈ allowedCalls cfg → target sc' = target sc →
      rules_allow (selectorRules sc') input
        = target_check (target_scopes (key_scopes s').[spending_limit_key account k]).[target sc] input)
      as Hall.
    { intros sc' Hin' <-. symmetry. by apply target_check_rules, Hs. }
    destruct (target_check _ _) eqn:Hc; symmetry.
    + apply existsb_exists. exists sc. rewrite Z.eqb_refl, Hall by done.
      split; [by apply list_elem_of_In|done].
    + apply Bool.not_true_iff_false. intros (sc' & Hi%list_elem_of_In & Hb)%existsb_exists.
      apply andb_true_iff in Hb as [Heq%Z.eqb_eq Hb]. rewrite Hall in Hb by done. congruence.
  - symmetry. apply Bool.not_true_iff_false. intros (sc' & Hi%list_elem_of_In & Hb)%existsb_exists.
    apply andb_true_iff in Hb as [Heq%Z.eqb_eq _]. apply Hin. rewrite <- Heq.
    apply list_elem_of_fmap. eauto.
Qed.

(** Later edits of the scopes are local. [set_allowed_calls] gives each listed
    target exactly its new rules and leaves the other targets of an already scoped
    key as they were; [remove_allowed_calls] on a scoped key denies that target, with
    any calldata, and leaves the others as they were. *)
Theorem allowed_calls_edit is_tip20 account k (edit : list CallScope + Address) e s l u s' l' e' t input :
  keychain_reachable s → k ≠ ZERO → is_t3 (spec e') = true →
  match edit with
  | inl scopes => set_allowed_calls is_tip20 account k scopes e (s, l)
  | inr t0 => remove_allowed_calls account k t0 e (s, l)
  end = (Ok u, (s', l')) →
  let before := is_ok (validate_call_scope_for_transaction e' s account k (TxCall t) input) in
  let after := is_ok (validate_call_scope_for_transaction e' s' account k (TxCall t) input) in
  let was_scoped := is_scoped (key_scopes s).[spending_limit_key account k] in
  match edit with
  | inl scopes =>
      (∀ sc, sc ∈ scopes → target sc = t → after = rules_allow (selectorRules sc) input) ∧
      (t ∉ map target scopes → was_scoped = true → after = before)
  | inr t0 => was_scoped = true → after = if bool_decide (t = t0) then false else before
  end.
Proof.
  intros Hwf%reachable_scopes_wf Hk HT3 Hrun before after was_scoped.
  unfold before, after, was_scoped. rewrite !validate_target by done. destruct edit as [scopes|t0].
  - apply set_allowed_ok in Hrun as (_ & -> & Ht & Hr & Ho); [|done]. cbn [negb orb]. rewrite Ht. split.
    + intros sc Hin <-. rewrite bool_decide_eq_true_2 by (apply list_elem_of_fmap; eauto).
      cbn. by apply target_check_rules, Hr.
    + intros Hni ->. rewrite bool_decide_eq_false_2, Ho by done. done.
  - apply remove_allowed_ok in Hrun as (_ & -> & Ht & Ho); [|done]. intros Hsc.
    rewrite Hsc, Ht by done. cbn [negb orb]. case_bool_decide as Heq; [done|]. cbn. by rewrite Ho.
Qed.
End scope_theorems.

(** With [allowAnyCalls] the list of scopes is ignored, not refused: on T3 an
    authorization that carries both behaves, for every outcome, as one with an empty
    list, and the key is unrestricted. *)
Theorem allow_any_ignores_scopes `{Primitives} is_tip20 m k ty ex enf ls scopes e st :
  is_t3 (spec e) = true →
  authorize_key is_tip20 m k ty (mkRestrictions ex enf ls true scopes) e st =
  authorize_key is_tip20 m k ty (mkRestrictions ex enf ls true []) e st.
Proof.
  intros HT3.
  assert (check_restrictions e (mkRestrictions ex enf ls true scopes)
        = check_restrictions e (mkRestrictions ex enf ls true [])) as Hc
    by (unfold check_restrictions; by rewrite HT3).
  unfold authorize_key, mbind, M_bind, ask, gets, lift. cbn [fst snd].
  cbn [cfg_expiry enforceLimits limits]. by rewrite Hc.
Qed.

(** ** Concrete runs *)
Section examples.
Local Existing Instance sample_primitives.

Definition sample_before : AccountKeychain :=
  (krun [sample_step 100 (KSetTxOrigin 7)] keychain_empty).1.
(** transfer(8, _) and transfer(10, _). *)
Definition transfer_to (r : Z) : list Z := be_bytes 4 TIP20_TRANSFER_SELECTOR ++ be_bytes 32 r ++ be_bytes 32 1.

Lemma authorized_scope_exact_witness :
  is_ok (validate_call_scope_for_transaction (sample_env 101) sample_keychain 7 9 (TxCall 5) (transfer_to 8))
    = true ∧
  is_ok (validate_call_scope_for_transaction (sample_env 101) sample_keychain 7 9 (TxCall 5) (transfer_to 10))
    = false.
Proof.
  assert (keychain_reachable sample_before) as Hr.
  { exists [sample_step 100 (KSetTxOrigin 7)]. split; [repeat constructor|vm_compute; reflexivity]. }
  assert (authorize_key (λ _, true) 7 9 P256 sample_config (sample_env 100) (sample_before, [])
    = (Ok tt, (sample_keychain, [(ACCOUNT_KEYCHAIN_ADDRESS, KeyAuthorized 7 9 1 1000)]))) as Ha
    by (vm_compute; reflexivity).
  split; rewrite (authorized_scope_exact _ _ _ _ _ (sample_env 100) _ _ _ _ _ (sample_env 101) _ _ Hr eq_refl eq_refl Ha);
    vm_compute; reflexivity.
Defined.

Lemma allow_any_ignores_scopes_witness :
  authorize_key (λ _, true) 7 9 P256 (mkRestrictions 1000 false [] true [mkScope 5 []])
    (sample_env 100) (sample_before, []) =
  authorize_key (λ _, true) 7 9 P256 (mkRestrictions 1000 false [] true [])
    (sample_env 100) (sample_before, []).
Proof. apply allow_any_ignores_scopes. reflexivity. Defined.

Lemma allowed_calls_edit_witness :
  is_ok (validate_call_scope_for_transaction (sample_env 103)
    (final (remove_allowed_calls 7 9 5) (sample_env 102) sample_keychain) 7 9 (TxCall 5) (transfer_to 8)) = false.
Proof.
  apply (allowed_calls_edit (λ _, true) 7 9 (inr 5) (sample_env 102) sample_keychain [] tt
    (final (remove_allowed_calls 7 9 5) (sample_env 102) sample_keychain) [] (sample_env 103) 5 (transfer_to 8)).
  - exists sample_setup. split; [repeat constructor|vm_compute; reflexivity].
  - discriminate.
  - reflexivity.
  - vm_compute. reflexivity.
  - vm_compute. reflexivity.
Defined.
End examples.
