(* ===== verification/TIP20Ledger.v ===== *)
(** * The ledger of a TIP-20 token ([src/crates/tempo-precompiles/src/tip20/])

    Balances, supply, allowances and the opt-in reward accounting of one token:
    the storage fields of [TIP20Token] under "TIP20 Token" and "TIP20 Rewards"
    and the internal routines of [tip20/mod.rs] and [tip20/rewards.rs] that act
    on them alone.  [self] is the token's own address. *)
From Stdlib Require Import ZArith Lia.
From stdpp Require Import base tactics option list fin_maps gmap.
From S2P Require Import Prelude Base.
Open Scope Z_scope.
Open Scope storage_scope.

(** ** Data *)
Record UserRewardInfo := mkRewardInfo {
  reward_recipient : Address;
  reward_per_token : Z;
  reward_balance : Z;
}.
Global Instance UserRewardInfo_zeroed : Zeroed UserRewardInfo := mkRewardInfo ZERO 0 0.

Record Ledger := mkLedger {
  total_supply : Z;
  balances : gmap Address Z;
  allowances : gmap (Address * Address) Z;
  permit_nonces : gmap Address Z;
  paused : bool;
  supply_cap : Z;
  global_reward_per_token : Z;
  opted_in_supply : Z;
  user_reward_info : gmap Address UserRewardInfo;
}.

Definition ledger_empty : Ledger := mkLedger 0 ∅ ∅ ∅ false 0 0 0 ∅.

(** Precision of the reward-per-token accumulator. *)
Definition ACC_PRECISION : Z := 1000000000000000000.

(** The resolved recipient of a transfer. *)
Record Recipient := mkRecipient { target : Address; virtual_addr : option Address }.
Definition direct (addr : Address) : Recipient := mkRecipient addr None.
Definition build_transfer_event (r : Recipient) (from : Address) (amount : Z) : TIP20Event.t :=
  TIP20Event.Transfer from (default (target r) (virtual_addr r)) amount.
Definition build_virtual_transfer_event (r : Recipient) (amount : Z) : option TIP20Event.t :=
  (λ v, TIP20Event.Transfer v (target r) amount) <$> virtual_addr r.

(** ** Storage accessors *)
Definition set_total_supply (v : Z) (l : Ledger) : Ledger :=
  mkLedger v (balances l) (allowances l) (permit_nonces l) (paused l) (supply_cap l)
    (global_reward_per_token l) (opted_in_supply l) (user_reward_info l).
Definition set_balance (a : Address) (v : Z) (l : Ledger) : Ledger :=
  mkLedger (total_supply l) (<[a:=v]> (balances l)) (allowances l) (permit_nonces l) (paused l)
    (supply_cap l) (global_reward_per_token l) (opted_in_supply l) (user_reward_info l).
Definition set_allowance (owner spender : Address) (v : Z) (l : Ledger) : Ledger :=
  mkLedger (total_supply l) (balances l) (<[(owner, spender):=v]> (allowances l)) (permit_nonces l)
    (paused l) (supply_cap l) (global_reward_per_token l) (opted_in_supply l) (user_reward_info l).
Definition set_permit_nonce (owner : Address) (v : Z) (l : Ledger) : Ledger :=
  mkLedger (total_supply l) (balances l) (allowances l) (<[owner:=v]> (permit_nonces l))
    (paused l) (supply_cap l) (global_reward_per_token l) (opted_in_supply l) (user_reward_info l).
Definition set_paused (b : bool) (l : Ledger) : Ledger :=
  mkLedger (total_supply l) (balances l) (allowances l) (permit_nonces l) b (supply_cap l)
    (global_reward_per_token l) (opted_in_supply l) (user_reward_info l).
Definition write_supply_cap (v : Z) (l : Ledger) : Ledger :=
  mkLedger (total_supply l) (balances l) (allowances l) (permit_nonces l) (paused l) v
    (global_reward_per_token l) (opted_in_supply l) (user_reward_info l).
Definition set_global_reward_per_token (v : Z) (l : Ledger) : Ledger :=
  mkLedger (total_supply l) (balances l) (allowances l) (permit_nonces l) (paused l) (supply_cap l)
    v (opted_in_supply l) (user_reward_info l).
Definition set_opted_in_supply (v : Z) (l : Ledger) : Ledger :=
  mkLedger (total_supply l) (balances l) (allowances l) (permit_nonces l) (paused l) (supply_cap l)
    (global_reward_per_token l) v (user_reward_info l).
Definition set_user_reward_info (a : Address) (v : UserRewardInfo) (l : Ledger) : Ledger :=
  mkLedger (total_supply l) (balances l) (allowances l) (permit_nonces l) (paused l) (supply_cap l)
    (global_reward_per_token l) (opted_in_supply l) (<[a:=v]> (user_reward_info l)).

Definition get_balance (l : Ledger) (a : Address) : Z := (balances l).[a].
Definition get_allowance (l : Ledger) (owner spender : Address) : Z := (allowances l).[(owner, spender)].
Definition get_user_reward_info (l : Ledger) (a : Address) : UserRewardInfo := (user_reward_info l).[a].

(** ** Operations *)
Local Notation ML := (M Ledger).

Definition insufficient_balance (available required : Z) (token : Address) : TempoPrecompileError :=
  TIP20 (TIP20Error.InsufficientBalance available required token).

(** [U256::from(opted).checked_add(n)] and its counterpart, back to [u128]. *)
Definition increase_opted_in_supply (n : Z) : ML unit :=
  o ← gets opted_in_supply;
  v ← lift (ok_or (checked_add U256_MAX o n) under_overflow);
  v ← lift (ok_or (try_into U128_MAX v) under_overflow);
  modify (set_opted_in_supply v).
Definition decrease_opted_in_supply (n : Z) : ML unit :=
  o ← gets opted_in_supply;
  v ← lift (ok_or (checked_sub o n) under_overflow);
  v ← lift (ok_or (try_into U128_MAX v) under_overflow);
  modify (set_opted_in_supply v).

Definition update_rewards (holder : Address) : ML Address :=
  info ← gets (λ l, get_user_reward_info l holder);
  let cached_delegate := reward_recipient info in
  g ← gets global_reward_per_token;
  delta ← lift (ok_or (checked_sub g (reward_per_token info)) under_overflow);
  when (negb (delta =? 0)) (
    own ← (if negb (cached_delegate =? ZERO) then
      holder_balance ← gets (λ l, get_balance l holder);
      reward ← lift (ok_or (v ← checked_mul U256_MAX holder_balance delta;
                            checked_div v ACC_PRECISION) under_overflow);
      if cached_delegate =? holder then
        rb ← lift (ok_or (checked_add U256_MAX (reward_balance info) reward) under_overflow);
        mret rb
      else
        delegate_info ← gets (λ l, get_user_reward_info l cached_delegate);
        rb ← lift (ok_or (checked_add U256_MAX (reward_balance delegate_info) reward) under_overflow);
        modify (set_user_reward_info cached_delegate
          (mkRewardInfo (reward_recipient delegate_info) (reward_per_token delegate_info) rb));;
        mret (reward_balance info)
      else mret (reward_balance info));
    modify (set_user_reward_info holder (mkRewardInfo cached_delegate g own)));;
  mret cached_delegate.

Definition handle_rewards_on_transfer (from to : Address) (amount : Z) : ML unit :=
  from_delegate ← update_rewards from;
  to_delegate ← update_rewards to;
  if negb (from_delegate =? ZERO) then
    when (to_delegate =? ZERO) (decrease_opted_in_supply amount)
  else when (negb (to_delegate =? ZERO)) (increase_opted_in_supply amount).

Definition handle_rewards_on_mint (to : Address) (amount : Z) : ML unit :=
  to_delegate ← update_rewards to;
  when (negb (to_delegate =? ZERO)) (increase_opted_in_supply amount).

(** [_transfer]: debits [from], credits the target unless it is the zero address. *)
Definition transfer_core (self from : Address) (to : Recipient) (amount : Z) : ML unit :=
  from_balance ← gets (λ l, get_balance l from);
  require (negb (from_balance <? amount)) (insufficient_balance from_balance amount self);;
  handle_rewards_on_transfer from (target to) amount;;
  new_from_balance ← lift (ok_or (checked_sub from_balance amount) under_overflow);
  modify (set_balance from new_from_balance);;
  when (negb (target to =? ZERO)) (
    to_balance ← gets (λ l, get_balance l (target to));
    new_to_balance ← lift (ok_or (checked_add U256_MAX to_balance amount) under_overflow);
    modify (set_balance (target to) new_to_balance));;
  emit self (ETIP20 (build_transfer_event to from amount)).

(** The part of [_mint] after the role and policy checks. *)
Definition mint_core (self : Address) (to : Recipient) (amount : Z) : ML unit :=
  supply ← gets total_supply;
  new_supply ← lift (ok_or (checked_add U256_MAX supply amount) under_overflow);
  cap ← gets supply_cap;
  require (negb (cap <? new_supply)) (TIP20 TIP20Error.SupplyCapExceeded);;
  handle_rewards_on_mint (target to) amount;;
  modify (set_total_supply new_supply);;
  to_balance ← gets (λ l, get_balance l (target to));
  new_to_balance ← lift (ok_or (checked_add U256_MAX to_balance amount) under_overflow);
  modify (set_balance (target to) new_to_balance);;
  emit self (ETIP20 (build_transfer_event to ZERO amount)).

(** The transfer to zero and the supply reduction shared by [_burn] and
    [burn_blocked]. *)
Definition burn_core (self from : Address) (amount : Z) : ML unit :=
  transfer_core self from (direct ZERO) amount;;
  supply ← gets total_supply;
  new_supply ← lift (ok_or (checked_sub supply amount) (insufficient_balance supply amount self));
  modify (set_total_supply new_supply).

(** The allowance update of [_transfer_from]. *)
Definition spend_allowance (owner spender : Address) (amount : Z) : ML unit :=
  allowed ← gets (λ l, get_allowance l owner spender);
  require (negb (allowed <? amount)) (TIP20 TIP20Error.InsufficientAllowance);;
  when (negb (allowed =? U256_MAX)) (
    new_allowance ← lift (ok_or (checked_sub allowed amount) (TIP20 TIP20Error.InsufficientAllowance));
    modify (set_allowance owner spender new_allowance)).

(** [transfer_fee_pre_tx] after the spending-limit check. *)
Definition fee_pre_core (self from : Address) (from_balance amount : Z) : ML unit :=
  from_reward_recipient ← update_rewards from;
  when (negb (from_reward_recipient =? ZERO)) (decrease_opted_in_supply amount);;
  new_from_balance ← lift (ok_or (checked_sub from_balance amount)
                             (insufficient_balance from_balance amount self));
  modify (set_balance from new_from_balance);;
  to_balance ← gets (λ l, get_balance l TIP_FEE_MANAGER_ADDRESS);
  new_to_balance ← lift (ok_or (checked_add U256_MAX to_balance amount)
                           (TIP20 TIP20Error.SupplyCapExceeded));
  modify (set_balance TIP_FEE_MANAGER_ADDRESS new_to_balance).

(** [transfer_fee_post_tx] after the keychain refund. *)
Definition fee_post_core (self to : Address) (refund : Z) : ML unit :=
  to_reward_recipient ← update_rewards to;
  when (negb (to_reward_recipient =? ZERO)) (increase_opted_in_supply refund);;
  from_balance ← gets (λ l, get_balance l TIP_FEE_MANAGER_ADDRESS);
  new_from_balance ← lift (ok_or (checked_sub from_balance refund)
                             (insufficient_balance from_balance refund self));
  modify (set_balance TIP_FEE_MANAGER_ADDRESS new_from_balance);;
  to_balance ← gets (λ l, get_balance l to);
  new_to_balance ← lift (ok_or (checked_add U256_MAX to_balance refund)
                           (TIP20 TIP20Error.SupplyCapExceeded));
  modify (set_balance to new_to_balance).

(** [distribute_reward] after the checks. *)
Definition distribute_core (self msg_sender : Address) (amount : Z) : ML unit :=
  transfer_core self msg_sender (direct self) amount;;
  opted ← gets opted_in_supply;
  require (negb (opted =? 0)) (TIP20 TIP20Error.NoOptedInSupply);;
  delta_rpt ← lift (ok_or (v ← checked_mul U256_MAX amount ACC_PRECISION; checked_div v opted)
                      under_overflow);
  current_rpt ← gets global_reward_per_token;
  new_rpt ← lift (ok_or (checked_add U256_MAX current_rpt delta_rpt) under_overflow);
  modify (set_global_reward_per_token new_rpt);;
  emit self (ETIP20 (TIP20Event.RewardDistributed msg_sender amount)).

(** [set_reward_recipient] after the checks. *)
Definition set_reward_recipient_core (self msg_sender recipient : Address) : ML unit :=
  from_delegate ← update_rewards msg_sender;
  holder_balance ← gets (λ l, get_balance l msg_sender);
  (if negb (from_delegate =? ZERO) then
     when (recipient =? ZERO) (decrease_opted_in_supply holder_balance)
   else when (negb (recipient =? ZERO)) (increase_opted_in_supply holder_balance));;
  info ← gets (λ l, get_user_reward_info l msg_sender);
  modify (set_user_reward_info msg_sender
    (mkRewardInfo recipient (reward_per_token info) (reward_balance info)));;
  emit self (ETIP20 (TIP20Event.RewardRecipientSet msg_sender recipient)).

(** [claim_rewards] after the checks. *)
Definition claim_core (self msg_sender : Address) : ML Z :=
  update_rewards msg_sender;;
  info ← gets (λ l, get_user_reward_info l msg_sender);
  let amount := reward_balance info in
  contract_balance ← gets (λ l, get_balance l self);
  let max_amount := Z.min amount contract_balance in
  rest ← lift (ok_or (checked_sub amount max_amount) under_overflow);
  modify (set_user_reward_info msg_sender
    (mkRewardInfo (reward_recipient info) (reward_per_token info) rest));;
  when (0 <? max_amount) (
    new_contract_balance ← lift (ok_or (checked_sub contract_balance max_amount) under_overflow);
    modify (set_balance self new_contract_balance);;
    b ← gets (λ l, get_balance l msg_sender);
    recipient_balance ← lift (ok_or (checked_add U256_MAX b max_amount) under_overflow);
    modify (set_balance msg_sender recipient_balance);;
    when (negb (reward_recipient info =? ZERO)) (increase_opted_in_supply max_amount);;
    emit self (ETIP20 (TIP20Event.Transfer self msg_sender max_amount)));;
  mret max_amount.

Definition get_pending_rewards (l : Ledger) (account : Address) : Result Z :=
  let info := get_user_reward_info l account in
  let holder_balance := get_balance l account in
  pending ← (if (reward_recipient info =? account) && (0 <? holder_balance) then
      delta ← ok_or (checked_sub (global_reward_per_token l) (reward_per_token info)) under_overflow;
      if 0 <? delta then
        accrued ← ok_or (v ← checked_mul U256_MAX holder_balance delta;
                         checked_div v ACC_PRECISION) under_overflow;
        ok_or (checked_add U256_MAX (reward_balance info) accrued) under_overflow
      else Ok (reward_balance info)
    else Ok (reward_balance info));
  ok_or (try_into U128_MAX pending) under_overflow.

(** ** Weighted sums of balances *)
Definition wsum (c : Address → Z) (b : gmap Address Z) : Z := msum (λ a v, c a * v) b.

Lemma wsum_write c b a v : wsum c (<[a:=v]> b) = wsum c b + c a * (v - b.[a]).
Proof. unfold wsum. rewrite msum_write by (unfold zeroed, Z_zeroed; lia). lia. Qed.

Lemma wsum_coeff c c' b k :
  (∀ a, a ≠ k → c' a = c a) → wsum c' b = wsum c b + (c' k - c k) * b.[k].
Proof.
  intros Hc. unfold wsum.
  rewrite (msum_refun (λ a v, c a * v) (λ a v, c' a * v) b k); unfold zeroed, Z_zeroed; try lia.
  intros a v Ha. by rewrite Hc.
Qed.

Lemma wsum_ext c c' b : (∀ a, c a = c' a) → wsum c b = wsum c' b.
Proof. intros Hc. apply msum_ext. intros a v _. by rewrite Hc. Qed.

Lemma mread_nonneg (b : gmap Address Z) a v : (∀ a, 0 ≤ b.[a]) → b !! a = Some v → 0 ≤ v.
Proof. intros Hb Ha. specialize (Hb a). by rewrite (mread_lookup _ _ _ Ha) in Hb. Qed.

Lemma wsum_mono c c' b : (∀ a, 0 ≤ b.[a]) → (∀ a, c a ≤ c' a) → wsum c b ≤ wsum c' b.
Proof.
  intros Hb Hc. apply msum_le. intros a v Ha.
  pose proof (mread_nonneg _ _ _ Hb Ha). specialize (Hc a). nia.
Qed.

Lemma wsum_nonneg c b : (∀ a, 0 ≤ b.[a]) → (∀ a, 0 ≤ c a) → 0 ≤ wsum c b.
Proof.
  intros Hb Hc. apply msum_nonneg. intros a v Ha.
  pose proof (mread_nonneg _ _ _ Hb Ha). specialize (Hc a). nia.
Qed.

Lemma wsum_elem c b a : (∀ a, 0 ≤ b.[a]) → (∀ a, 0 ≤ c a) → c a * b.[a] ≤ wsum c b.
Proof.
  intros Hb Hc. unfold wsum.
  apply (msum_elem_le (λ a v, c a * v) b a); [|unfold zeroed, Z_zeroed; lia].
  intros a' v Ha. pose proof (mread_nonneg _ _ _ Hb Ha). specialize (Hc a'). nia.
Qed.

(** ** The invariant of a ledger *)
Definition recipient_of (l : Ledger) (a : Address) : Address := reward_recipient (user_reward_info l).[a].
Definition rpt_of (l : Ledger) (a : Address) : Z := reward_per_token (user_reward_info l).[a].
Definition rewards_owed (l : Ledger) : Z := msum (λ _ i, reward_balance i) (user_reward_info l).

(** Weight 1 on the holders opted into rewards. *)
Definition opted (l : Ledger) (a : Address) : Z := if recipient_of l a =? ZERO then 0 else 1.
(** Reward per token a holder has accrued since its last update. *)
Definition accruing (l : Ledger) (a : Address) : Z :=
  if recipient_of l a =? ZERO then 0 else global_reward_per_token l - rpt_of l a.

(** Accounts that hold tokens on behalf of the protocol and never opt in. *)
Definition system_account (self a : Address) : Prop := a = ZERO ∨ a = self ∨ a = TIP_FEE_MANAGER_ADDRESS.

Record LedgerInv (self : Address) (l : Ledger) : Prop := {
  li_balance a : 0 ≤ (balances l).[a];
  li_supply : wsum (λ _, 1) (balances l) = total_supply l;
  li_cap : total_supply l ≤ supply_cap l ≤ U128_MAX;
  li_opted : wsum (opted l) (balances l) = opted_in_supply l;
  li_rpt a : rpt_of l a ≤ global_reward_per_token l;
  li_reward a : 0 ≤ reward_balance (user_reward_info l).[a];
  li_system a : system_account self a → recipient_of l a = ZERO;
}.

(** The contract holds enough to pay every reward, booked or still accruing. *)
Definition solvent (self : Address) (l : Ledger) : Prop :=
  ACC_PRECISION * rewards_owed l + wsum (accruing l) (balances l)
    ≤ ACC_PRECISION * (balances l).[self].

(** [l'] is [l] after the rewards of [h] were booked: nothing else changes, and what
    is owed in total does not grow. *)
Record settled (h : Address) (l l' : Ledger) : Prop := {
  st_supply : total_supply l' = total_supply l;
  st_balances : balances l' = balances l;
  st_allowances : allowances l' = allowances l;
  st_nonces : permit_nonces l' = permit_nonces l;
  st_paused : paused l' = paused l;
  st_cap : supply_cap l' = supply_cap l;
  st_global : global_reward_per_token l' = global_reward_per_token l;
  st_opted : opted_in_supply l' = opted_in_supply l;
  st_recipient a : recipient_of l' a = recipient_of l a;
  st_rpt_self : rpt_of l' h = global_reward_per_token l;
  st_rpt a : a ≠ h → rpt_of l' a = rpt_of l a;
  st_le : rpt_of l h ≤ global_reward_per_token l;
  st_reward a : (∀ a, 0 ≤ (balances l).[a]) →
    reward_balance (user_reward_info l).[a] ≤ reward_balance (user_reward_info l').[a];
  st_owed : ACC_PRECISION * rewards_owed l' ≤
    ACC_PRECISION * rewards_owed l + accruing l h * (balances l).[h];
}.

Lemma rewards_owed_write l a i :
  rewards_owed (set_user_reward_info a i l)
    = rewards_owed l - reward_balance (user_reward_info l).[a] + reward_balance i.
Proof. unfold rewards_owed. cbn. by rewrite msum_write. Qed.

Lemma ACC_pos : 0 < ACC_PRECISION.
Proof. done. Qed.

Lemma reward_floor b d r :
  (v ← checked_mul U256_MAX b d; checked_div v ACC_PRECISION) = Some r → r = b * d / ACC_PRECISION.
Proof.
  destruct (checked_mul U256_MAX b d) eqn:Hm; [|done]. cbn [mbind option_bind]. intros. by ariths.
Qed.

Lemma reward_floor_nonneg b d : 0 ≤ b → 0 ≤ d → 0 ≤ b * d / ACC_PRECISION.
Proof. intros. apply Z.div_pos; [nia|done]. Qed.

Lemma update_rewards_ok h e l lg d l' lg' :
  update_rewards h e (l, lg) = (Ok d, (l', lg')) →
  d = recipient_of l h ∧ lg' = lg ∧ settled h l l'.
Proof.
  intros Hrun. unfold update_rewards in Hrun. minvs; cbn [fst snd] in *; rinvs; ariths; bprop.
  all: split; [done|]; split; [done|].
  all: unfold get_user_reward_info, get_balance in *.
  all: try match goal with Hr : (_ ← checked_mul _ _ _; _) = Some _ |- _ => apply reward_floor in Hr end.
  all: constructor; try done.
  all: try (intros a; unfold recipient_of, rpt_of; cbn; rewrite ?mread_insert;
            repeat case_decide; subst; first [done | congruence]).
  all: try (unfold rpt_of; cbn; by rewrite mread_insert_eq).
  all: try (intros a Ha; unfold rpt_of; cbn; rewrite ?mread_insert_ne by done; try done;
            rewrite mread_insert; case_decide; by subst).
  all: rewrite ?rewards_owed_write; unfold accruing, recipient_of, rpt_of; cbn; rewrite ?mread_insert_ne by done.
  all: try match goal with
    Hr : ?r = ?b * ?d / ACC_PRECISION |- _ => pose proof (div_floor_spec (b * d) ACC_PRECISION ACC_pos) end.
  all: repeat match goal with Hd : _ - _ = 0 |- _ => replace (global_reward_per_token l) with
         (reward_per_token (user_reward_info l).[h]) in * by lia end.
  all: try lia.
  all: try (case_match; bprop; try done; subst; try nia).
  all: intros a Hb;
    assert (0 ≤ global_reward_per_token l - reward_per_token (user_reward_info l).[h]) as Hd by lia;
    pose proof (reward_floor_nonneg (balances l).[h] _ (Hb h) Hd).
  all: rewrite ?mread_insert; repeat case_decide; subst; cbn; lia.
Qed.

(** ** Booking rewards keeps the invariant *)
Lemma settled_opted h l l' a : settled h l l' → opted l' a = opted l a.
Proof. intros []. unfold opted. by rewrite st_recipient0. Qed.

Lemma settled_accruing h l l' a :
  settled h l l' → accruing l' a = if decide (a = h) then 0 else accruing l a.
Proof.
  intros []. unfold accruing. rewrite st_recipient0, st_global0. case_decide; subst.
  - rewrite st_rpt_self0. case_match; lia.
  - by rewrite st_rpt0.
Qed.

Lemma settled_inv self h l l' : LedgerInv self l → settled h l l' → LedgerInv self l'.
Proof.
  intros [] Hs. pose proof Hs as []. constructor; rewrite ?st_balances0, ?st_supply0, ?st_cap0; try done.
  - rewrite st_opted0, <- li_opted0. apply wsum_ext. intros a. by eapply settled_opted.
  - intros a. rewrite st_global0. destruct (decide (a = h)) as [->|]; [lia|]. by rewrite st_rpt0.
  - intros a. etrans; [apply li_reward0|]. by apply st_reward0.
  - intros a Ha. rewrite st_recipient0. by apply li_system0.
Qed.

Lemma settled_solvent self h l l' : solvent self l → settled h l l' → solvent self l'.
Proof.
  intros Hsol Hs. pose proof Hs as []. unfold solvent in *. rewrite st_balances0.
  rewrite (wsum_coeff (accruing l) (accruing l') _ h).
  - rewrite (settled_accruing _ _ _ h Hs). rewrite decide_True by done. lia.
  - intros a Ha. rewrite (settled_accruing _ _ _ a Hs). by rewrite decide_False.
Qed.

(** ** Updates of balances and supply *)
Definition with_ledger (l : Ledger) (b : gmap Address Z) (o t : Z) : Ledger :=
  mkLedger t b (allowances l) (permit_nonces l) (paused l) (supply_cap l)
    (global_reward_per_token l) o (user_reward_info l).

Definition debit (a : Address) (n : Z) (b : gmap Address Z) : gmap Address Z := <[a := b.[a] - n]> b.
Definition credit (a : Address) (n : Z) (b : gmap Address Z) : gmap Address Z := <[a := b.[a] + n]> b.

Lemma wsum_debit c a n b : wsum c (debit a n b) = wsum c b - c a * n.
Proof. unfold debit. rewrite wsum_write. lia. Qed.
Lemma wsum_credit c a n b : wsum c (credit a n b) = wsum c b + c a * n.
Proof. unfold credit. rewrite wsum_write. lia. Qed.
Lemma debit_read a n b a' : (debit a n b).[a'] = b.[a'] - if decide (a = a') then n else 0.
Proof. unfold debit. rewrite mread_insert. case_decide; subst; lia. Qed.
Lemma credit_read a n b a' : (credit a n b).[a'] = b.[a'] + if decide (a = a') then n else 0.
Proof. unfold credit. rewrite mread_insert. case_decide; subst; lia. Qed.

Lemma ledger_inv_update self l b o t :
  LedgerInv self l → (∀ a, 0 ≤ b.[a]) → wsum (λ _, 1) b = t → t ≤ supply_cap l →
  wsum (opted l) b = o → LedgerInv self (with_ledger l b o t).
Proof. intros [] Hb Ht Hcap Ho. constructor; try done. cbn. lia. Qed.

Lemma solvent_update self l b o t :
  solvent self l →
  wsum (accruing l) b ≤ wsum (accruing l) (balances l) →
  (balances l).[self] ≤ b.[self] → solvent self (with_ledger l b o t).
Proof.
  unfold solvent. intros Hs Hw Hb. change (rewards_owed (with_ledger l b o t)) with (rewards_owed l).
  change (accruing (with_ledger l b o t)) with (accruing l). cbn. pose proof ACC_pos. nia.
Qed.

Lemma set_opted_same v l : v = opted_in_supply l → l = set_opted_in_supply v l.
Proof. intros ->. by destruct l. Qed.

Lemma opted_supply_ok n e l lg u l' lg' (up : bool) :
  (if up then increase_opted_in_supply n else decrease_opted_in_supply n) e (l, lg) = (Ok u, (l', lg')) →
  l' = set_opted_in_supply (opted_in_supply l + (if up then n else - n)) l ∧ lg' = lg.
Proof.
  destruct up; intros Hrun; unfold increase_opted_in_supply, decrease_opted_in_supply in Hrun;
    minvs; rinvs; ariths; (split; [f_equal; cbn; lia|done]).
Qed.

(** The reward bookkeeping of a transfer: both parties are settled and the opted-in
    supply follows the tokens. *)
Lemma handle_transfer_ok from to n e l lg u l' lg' :
  handle_rewards_on_transfer from to n e (l, lg) = (Ok u, (l', lg')) →
  ∃ l1 l2, settled from l l1 ∧ settled to l1 l2 ∧ lg' = lg ∧
    l' = set_opted_in_supply (opted_in_supply l + (opted l to - opted l from) * n) l2.
Proof.
  intros Hrun. unfold handle_rewards_on_transfer in Hrun.
  apply bind_ok in Hrun as (d1 & [l1 lg1] & H1 & Hrun).
  apply bind_ok in Hrun as (d2 & [l2 lg2] & H2 & Hrun).
  apply update_rewards_ok in H1 as (-> & -> & Hs1). apply update_rewards_ok in H2 as (-> & -> & Hs2).
  exists l1, l2. split_and!; try done.
  - destruct (_ =? ZERO), (_ =? ZERO); cbn in Hrun; try (by apply ret_ok in Hrun as [_ [= _ ->]]).
    + by apply (opted_supply_ok n _ _ _ _ _ _ true) in Hrun as [_ ->].
    + by apply (opted_supply_ok n _ _ _ _ _ _ false) in Hrun as [_ ->].
  - rewrite (st_recipient _ _ _ Hs1) in Hrun. unfold opted.
    assert (opted_in_supply l2 = opted_in_supply l) as Ho
      by (rewrite (st_opted _ _ _ Hs2); apply (st_opted _ _ _ Hs1)).
    destruct (recipient_of l from =? ZERO), (recipient_of l to =? ZERO); cbn in Hrun.
    + apply ret_ok in Hrun as [_ [= -> _]]. apply set_opted_same. lia.
    + apply (opted_supply_ok n _ _ _ _ _ _ true) in Hrun as [-> _]. f_equal. lia.
    + apply (opted_supply_ok n _ _ _ _ _ _ false) in Hrun as [-> _]. f_equal. lia.
    + apply ret_ok in Hrun as [_ [= -> _]]. apply set_opted_same. lia.
Qed.

Lemma handle_one_ok a n (up : bool) e l lg u l' lg' :
  (d ← update_rewards a;
   when (negb (d =? ZERO)) (if up then increase_opted_in_supply n else decrease_opted_in_supply n))
     e (l, lg) = (Ok u, (l', lg')) →
  ∃ l1, settled a l l1 ∧ lg' = lg ∧
    l' = set_opted_in_supply (opted_in_supply l + opted l a * (if up then n else - n)) l1.
Proof.
  intros Hrun. apply bind_ok in Hrun as (d1 & [l1 lg1] & H1 & Hrun).
  apply update_rewards_ok in H1 as (-> & -> & Hs1). exists l1. split; [done|]. unfold opted.
  destruct (recipient_of l a =? ZERO); cbn in Hrun.
  - apply ret_ok in Hrun as [_ [= -> ->]]. split; [done|].
    apply set_opted_same. rewrite (st_opted _ _ _ Hs1). lia.
  - apply (opted_supply_ok n _ _ _ _ _ _ up) in Hrun as [-> ->]. split; [done|].
    rewrite (st_opted _ _ _ Hs1). f_equal. destruct up; lia.
Qed.

(** ** What the core operations do *)
Definition move_balance (from to : Address) (n : Z) (b : gmap Address Z) : gmap Address Z :=
  if to =? ZERO then debit from n b else credit to n (debit from n b).

Lemma transfer_core_ok self from to n e l lg u l' lg' :
  transfer_core self from to n e (l, lg) = (Ok u, (l', lg')) →
  ∃ l1 l2, settled from l l1 ∧ settled (target to) l1 l2 ∧ n ≤ (balances l).[from] ∧
    l' = with_ledger l2 (move_balance from (target to) n (balances l))
           (opted_in_supply l + (opted l (target to) - opted l from) * n) (total_supply l) ∧
    lg' = lg ++ [(self, ETIP20 (build_transfer_event to from n))].
Proof.
  intros Hrun. unfold transfer_core in Hrun.
  apply bind_ok in Hrun as (b & st & [-> ->]%gets_ok & Hrun).
  apply bind_ok_unit in Hrun as (st & [Hb ->]%require_ok & Hrun). bprop. unfold get_balance in Hb.
  apply bind_ok_unit in Hrun as ([l1' lg1] & H1 & Hrun).
  apply handle_transfer_ok in H1 as (l1 & l2 & Hs1 & Hs2 & -> & ->).
  exists l1, l2. split_and!; try done.
  all: minvs; rinvs; ariths; cbn [fst snd] in *; simplify_eq; try done.
  all: unfold with_ledger, move_balance, set_balance, get_balance, debit, credit in *; cbn in *.
  all: rewrite ?(st_balances _ _ _ Hs2), ?(st_balances _ _ _ Hs1),
         ?(st_supply _ _ _ Hs2), ?(st_supply _ _ _ Hs1).
  all: match goal with Hz : negb (?t =? ZERO) = _ |- _ => destruct (t =? ZERO); try done end.
Qed.

Lemma mint_core_ok self to n e l lg u l' lg' :
  mint_core self to n e (l, lg) = (Ok u, (l', lg')) →
  ∃ l1, settled (target to) l l1 ∧ total_supply l + n ≤ supply_cap l ∧
    l' = with_ledger l1 (credit (target to) n (balances l))
           (opted_in_supply l + opted l (target to) * n) (total_supply l + n) ∧
    lg' = lg ++ [(self, ETIP20 (build_transfer_event to ZERO n))].
Proof.
  intros Hrun. unfold mint_core, handle_rewards_on_mint in Hrun.
  do 3 (apply bind_ok in Hrun as (? & ? & [-> ->]%gets_ok & Hrun) ||
        apply bind_ok in Hrun as (? & ? & [? ->]%lift_ok & Hrun)).
  apply bind_ok_unit in Hrun as (st & [Hb ->]%require_ok & Hrun).
  apply bind_ok_unit in Hrun as ([l1' lg1] & H1 & Hrun).
  apply (handle_one_ok _ _ true) in H1 as (l1 & Hs1 & -> & ->).
  exists l1. minvs; rinvs; ariths; bprop; cbn [fst snd] in *; simplify_eq. split_and!; try done.
  unfold with_ledger, set_balance, set_total_supply, credit, get_balance; cbn.
  by rewrite (st_balances _ _ _ Hs1).
Qed.

Lemma burn_core_ok self from n e l lg u l' lg' :
  burn_core self from n e (l, lg) = (Ok u, (l', lg')) →
  ∃ l1 l2, settled from l l1 ∧ settled ZERO l1 l2 ∧ n ≤ (balances l).[from] ∧ n ≤ total_supply l ∧
    l' = with_ledger l2 (debit from n (balances l))
           (opted_in_supply l + (opted l ZERO - opted l from) * n) (total_supply l - n) ∧
    lg' = lg ++ [(self, ETIP20 (TIP20Event.Transfer from ZERO n))].
Proof.
  intros Hrun. unfold burn_core in Hrun. apply bind_ok_unit in Hrun as ([l1' lg1] & H1 & Hrun).
  apply transfer_core_ok in H1 as (l1 & l2 & Hs1 & Hs2 & Hn & -> & ->).
  exists l1, l2. minvs; rinvs; ariths; cbn [fst snd] in *; simplify_eq. by split_and!.
Qed.

Lemma fee_pre_core_ok self from n e l lg u l' lg' :
  fee_pre_core self from (balances l).[from] n e (l, lg) = (Ok u, (l', lg')) →
  ∃ l1, settled from l l1 ∧ n ≤ (balances l).[from] ∧
    l' = with_ledger l1 (credit TIP_FEE_MANAGER_ADDRESS n (debit from n (balances l)))
           (opted_in_supply l - opted l from * n) (total_supply l) ∧ lg' = lg.
Proof.
  intros Hrun. unfold fee_pre_core in Hrun.
  apply bind_ok in Hrun as (d & st & Ha & Hrun). apply bind_ok_unit in Hrun as ([l1' lg1] & Hb & Hrun).
  assert ((d ← update_rewards from; when (negb (d =? ZERO)) (decrease_opted_in_supply n))
    e (l, lg) = (Ok tt, (l1', lg1))) as H1 by (apply bind_ok; eauto).
  apply (handle_one_ok _ _ false) in H1 as (l1 & Hs1 & -> & ->). clear Ha Hb.
  exists l1. minvs; rinvs; ariths; cbn [fst snd] in *; simplify_eq. split_and!; try done.
  unfold with_ledger, set_balance, credit, debit, get_balance; cbn.
  rewrite (st_balances _ _ _ Hs1), (st_supply _ _ _ Hs1). f_equal. lia.
Qed.

Lemma fee_post_core_ok self to n e l lg u l' lg' :
  fee_post_core self to n e (l, lg) = (Ok u, (l', lg')) →
  ∃ l1, settled to l l1 ∧ n ≤ (balances l).[TIP_FEE_MANAGER_ADDRESS] ∧
    l' = with_ledger l1 (credit to n (debit TIP_FEE_MANAGER_ADDRESS n (balances l)))
           (opted_in_supply l + opted l to * n) (total_supply l) ∧ lg' = lg.
Proof.
  intros Hrun. unfold fee_post_core in Hrun.
  apply bind_ok in Hrun as (d & st & Ha & Hrun). apply bind_ok_unit in Hrun as ([l1' lg1] & Hb & Hrun).
  assert ((d ← update_rewards to; when (negb (d =? ZERO)) (increase_opted_in_supply n))
    e (l, lg) = (Ok tt, (l1', lg1))) as H1 by (apply bind_ok; eauto).
  apply (handle_one_ok _ _ true) in H1 as (l1 & Hs1 & -> & ->). clear Ha Hb.
  exists l1. minvs; rinvs; ariths; cbn [fst snd] in *; simplify_eq.
  unfold get_balance in *. cbn in *. rewrite (st_balances _ _ _ Hs1) in *. split_and!; try done.
  unfold with_ledger, set_balance, credit, debit; cbn.
  by rewrite (st_balances _ _ _ Hs1), (st_supply _ _ _ Hs1).
Qed.

Lemma distribute_core_ok self sender n e l lg u l' lg' :
  distribute_core self sender n e (l, lg) = (Ok u, (l', lg')) →
  ∃ l1 lg1, transfer_core self sender (direct self) n e (l, lg) = (Ok tt, (l1, lg1)) ∧
    opted_in_supply l1 ≠ 0 ∧
    l' = set_global_reward_per_token
           (global_reward_per_token l1 + n * ACC_PRECISION / opted_in_supply l1) l1.
Proof.
  intros Hrun. unfold distribute_core in Hrun. apply bind_ok_unit in Hrun as ([l1 lg1] & H1 & Hrun).
  exists l1, lg1. minvs; rinvs; bprop. cbn [fst snd] in *.
  destruct (checked_mul U256_MAX n ACC_PRECISION) eqn:Hm; cbn [mbind option_bind] in *; [|done].
  by ariths.
Qed.

Lemma set_recipient_core_ok self sender r e l lg u l' lg' :
  set_reward_recipient_core self sender r e (l, lg) = (Ok u, (l', lg')) →
  ∃ l1, settled sender l l1 ∧
    l' = set_user_reward_info sender
           (mkRewardInfo r (rpt_of l1 sender) (reward_balance (user_reward_info l1).[sender]))
           (set_opted_in_supply (opted_in_supply l +
              ((if r =? ZERO then 0 else 1) - opted l sender) * (balances l).[sender]) l1).
Proof.
  intros Hrun. unfold set_reward_recipient_core in Hrun.
  apply bind_ok in Hrun as (d & [l1 lg1] & H1 & Hrun).
  apply update_rewards_ok in H1 as (-> & -> & Hs1). exists l1. split; [done|].
  apply bind_ok in Hrun as (b & st & [-> ->]%gets_ok & Hrun). unfold get_balance in Hrun. cbn [fst] in Hrun.
  apply bind_ok_unit in Hrun as ([l2 lg2] & H2 & Hrun).
  assert (l2 = set_opted_in_supply (opted_in_supply l +
              ((if r =? ZERO then 0 else 1) - opted l sender) * (balances l).[sender]) l1) as ->.
  { unfold opted. rewrite (st_balances _ _ _ Hs1) in H2. pose proof (st_opted _ _ _ Hs1).
    destruct (recipient_of l sender =? ZERO), (r =? ZERO); cbn in H2.
    all: try (apply ret_ok in H2 as [_ [= -> _]]; apply set_opted_same; lia).
    - apply (opted_supply_ok _ _ _ _ _ _ _ true) in H2 as [-> _]. f_equal. lia.
    - apply (opted_supply_ok _ _ _ _ _ _ _ false) in H2 as [-> _]. f_equal. lia. }
  clear H2. minvs. by simplify_eq.
Qed.

Lemma claim_core_ok self sender e l lg n l' lg' :
  claim_core self sender e (l, lg) = (Ok n, (l', lg')) →
  ∃ l1, settled sender l l1 ∧ (∃ d, update_rewards sender e (l, lg) = (Ok d, (l1, lg))) ∧
    n = Z.min (reward_balance (user_reward_info l1).[sender]) (balances l).[self] ∧
    l' = (let l2 := set_user_reward_info sender (mkRewardInfo (recipient_of l sender) (rpt_of l1 sender)
             (reward_balance (user_reward_info l1).[sender] - n)) l1 in
          if 0 <? n then
            with_ledger l2 (credit sender n (debit self n (balances l)))
              (opted_in_supply l + opted l sender * n) (total_supply l)
          else l2).
Proof.
  intros Hrun. unfold claim_core in Hrun.
  apply bind_ok in Hrun as (d & [l1 lg1] & H1 & Hrun). pose proof H1 as Hupd.
  apply update_rewards_ok in H1 as (_ & -> & Hs1). exists l1. split; [done|]. split; [eauto|]. clear Hupd.
  apply bind_ok in Hrun as (i & st & [-> ->]%gets_ok & Hrun).
  apply bind_ok in Hrun as (b & st & [-> ->]%gets_ok & Hrun).
  unfold get_balance, get_user_reward_info in Hrun. cbn [fst] in Hrun.
  rewrite (st_balances _ _ _ Hs1) in Hrun.
  apply bind_ok in Hrun as (rest & st & [Hr ->]%lift_ok & Hrun). rinvs. ariths.
  apply bind_ok_unit in Hrun as (st & ->%modify_ok & Hrun). cbn [fst snd] in Hrun.
  apply bind_ok_unit in Hrun as ([l3 lg3] & H3 & Hrun). apply ret_ok in Hrun as [-> [= -> ->]].
  split; [done|]. cbv zeta. fold (recipient_of l1 sender) in *. rewrite (st_recipient _ _ _ Hs1) in *.
  destruct (0 <? _) eqn:Hpos; cbn [when] in H3; [|apply ret_ok in H3 as [_ [= -> _]]; done].
  unfold opted. minvs; rinvs; ariths; cbn [fst snd] in *; unfold get_balance in *; cbn in *.
  - match goal with Ho : increase_opted_in_supply _ _ ?st = (_, ?st') |- _ =>
      destruct st' as [l5 lg5]; apply (opted_supply_ok _ _ _ _ _ _ _ true) in Ho as [-> _] end.
    bprop. simplify_eq. rewrite (proj2 (Z.eqb_neq _ _)) by done.
    unfold with_ledger, credit, debit, set_balance, set_opted_in_supply. cbn.
    rewrite (st_balances _ _ _ Hs1), (st_supply _ _ _ Hs1), (st_opted _ _ _ Hs1). f_equal. lia.
  - bprop. simplify_eq. rewrite (proj2 (Z.eqb_eq _ _)) by done.
    unfold with_ledger, credit, debit, set_balance. cbn.
    rewrite (st_balances _ _ _ Hs1), (st_supply _ _ _ Hs1), (st_opted _ _ _ Hs1). f_equal. lia.
Qed.

(** ** The invariant is kept *)
Section preservation.
Context (self : Address).

Lemma inv_opted_range l a : LedgerInv self l → 0 ≤ opted l a ≤ 1.
Proof. intros _. unfold opted. case_match; lia. Qed.

Lemma accruing_nonneg l a : LedgerInv self l → 0 ≤ accruing l a.
Proof. intros []. unfold accruing. specialize (li_rpt0 a). case_match; lia. Qed.

Lemma settled2_facts a b l l1 l2 :
  LedgerInv self l → settled a l l1 → settled b l1 l2 →
  LedgerInv self l2 ∧ (solvent self l → solvent self l2) ∧
  balances l2 = balances l ∧ total_supply l2 = total_supply l ∧ supply_cap l2 = supply_cap l ∧
  opted_in_supply l2 = opted_in_supply l ∧ (∀ c, opted l2 c = opted l c) ∧
  accruing l2 a = 0 ∧ accruing l2 b = 0.
Proof.
  intros HI Hs1 Hs2. split_and!.
  - eapply settled_inv; [|done]. by eapply settled_inv.
  - intros. eapply settled_solvent; [|done]. by eapply settled_solvent.
  - rewrite (st_balances _ _ _ Hs2). apply (st_balances _ _ _ Hs1).
  - rewrite (st_supply _ _ _ Hs2). apply (st_supply _ _ _ Hs1).
  - rewrite (st_cap _ _ _ Hs2). apply (st_cap _ _ _ Hs1).
  - rewrite (st_opted _ _ _ Hs2). apply (st_opted _ _ _ Hs1).
  - intros c. rewrite (settled_opted _ _ _ c Hs2). by eapply settled_opted.
  - rewrite (settled_accruing _ _ _ a Hs2), (settled_accruing _ _ _ a Hs1).
    by repeat case_decide.
  - rewrite (settled_accruing _ _ _ b Hs2). by case_decide.
Qed.

Lemma settled_refl_of a l l1 : settled a l l1 → settled a l1 l1.
Proof.
  intros []. constructor; try done.
  - by rewrite st_global0.
  - by rewrite st_rpt_self0, st_global0.
  - unfold accruing. rewrite st_recipient0, st_global0, st_rpt_self0. case_match; lia.
Qed.

Lemma transfer_core_inv from to n e l lg u l' lg' :
  LedgerInv self l → 0 ≤ n → target to ≠ ZERO →
  transfer_core self from to n e (l, lg) = (Ok u, (l', lg')) →
  LedgerInv self l' ∧ (solvent self l → from ≠ self → solvent self l').
Proof.
  intros HI Hn Hto (l1 & l2 & Hs1 & Hs2 & Hle & -> & _)%transfer_core_ok.
  destruct (settled2_facts _ _ _ _ _ HI Hs1 Hs2) as (HI2 & Hsol & Hb & Ht & Hc & Ho & Hop & Ha1 & Ha2).
  unfold move_balance. destruct (Z.eqb_spec (target to) ZERO); [done|]. split.
  - apply ledger_inv_update; try done.
    + intros a. rewrite credit_read, debit_read. pose proof (li_balance _ _ HI a).
      repeat case_decide; subst; lia.
    + rewrite wsum_credit, wsum_debit, (li_supply _ _ HI). lia.
    + rewrite <- Ht. apply (li_cap _ _ HI2).
    + rewrite wsum_credit, wsum_debit, !Hop, (wsum_ext _ (opted l)), (li_opted _ _ HI) by done. lia.
  - intros Hsl Hf. apply solvent_update; [by apply Hsol| |].
    + rewrite wsum_credit, wsum_debit, Ha1, Ha2, Hb. lia.
    + rewrite credit_read, debit_read, Hb. repeat case_decide; subst; try done; lia.
Qed.

Lemma mint_core_inv to n e l lg u l' lg' :
  LedgerInv self l → 0 ≤ n → mint_core self to n e (l, lg) = (Ok u, (l', lg')) →
  LedgerInv self l' ∧ (solvent self l → solvent self l').
Proof.
  intros HI Hn (l1 & Hs1 & Hcap & -> & _)%mint_core_ok.
  destruct (settled2_facts _ _ _ _ _ HI Hs1 (settled_refl_of _ _ _ Hs1))
    as (HI2 & Hsol & Hb & Ht & Hc & Ho & Hop & Ha1 & _). split.
  - apply ledger_inv_update; try done.
    + intros a. rewrite credit_read. pose proof (li_balance _ _ HI a). case_decide; lia.
    + rewrite wsum_credit, (li_supply _ _ HI). lia.
    + by rewrite Hc.
    + rewrite wsum_credit, !Hop, (wsum_ext _ (opted l)), (li_opted _ _ HI) by done. lia.
  - intros Hsl. apply solvent_update; [by apply Hsol| |].
    + rewrite wsum_credit, Ha1, Hb. lia.
    + rewrite credit_read, Hb. case_decide; lia.
Qed.

Lemma burn_core_inv from n e l lg u l' lg' :
  LedgerInv self l → 0 ≤ n → burn_core self from n e (l, lg) = (Ok u, (l', lg')) →
  LedgerInv self l' ∧ (solvent self l → from ≠ self → solvent self l').
Proof.
  intros HI Hn (l1 & l2 & Hs1 & Hs2 & Hle & Hlt & -> & _)%burn_core_ok.
  destruct (settled2_facts _ _ _ _ _ HI Hs1 Hs2) as (HI2 & Hsol & Hb & Ht & Hc & Ho & Hop & Ha1 & _).
  assert (opted l ZERO = 0) as Hz.
  { unfold opted. rewrite (li_system _ _ HI); [done|by left]. }
  split.
  - apply ledger_inv_update; try done.
    + intros a. rewrite debit_read. pose proof (li_balance _ _ HI a). case_decide; subst; lia.
    + rewrite wsum_debit, (li_supply _ _ HI). lia.
    + pose proof (li_cap _ _ HI). rewrite Hc. lia.
    + rewrite wsum_debit, !Hop, (wsum_ext _ (opted l)), (li_opted _ _ HI), Hz by done. lia.
  - intros Hsl Hf. apply solvent_update; [by apply Hsol| |].
    + rewrite wsum_debit, Ha1, Hb. lia.
    + rewrite debit_read, Hb. case_decide; [done|lia].
Qed.

(** The fee manager never opts in, so tokens moved through it only concern the
    other party. *)
Lemma fee_manager_opted l :
  LedgerInv self l → opted l TIP_FEE_MANAGER_ADDRESS = 0 ∧ accruing l TIP_FEE_MANAGER_ADDRESS = 0.
Proof.
  intros HI. unfold opted, accruing. rewrite (li_system _ _ HI); [done|]. by right; right.
Qed.

Lemma fee_pre_core_inv from n e l lg u l' lg' :
  LedgerInv self l → 0 ≤ n →
  fee_pre_core self from (balances l).[from] n e (l, lg) = (Ok u, (l', lg')) →
  LedgerInv self l' ∧ (solvent self l → from ≠ self → solvent self l').
Proof.
  intros HI Hn (l1 & Hs1 & Hle & -> & _)%fee_pre_core_ok.
  destruct (settled2_facts _ _ _ _ _ HI Hs1 (settled_refl_of _ _ _ Hs1))
    as (HI2 & Hsol & Hb & Ht & Hc & Ho & Hop & Ha1 & _).
  destruct (fee_manager_opted _ HI) as [Hf0 _]. destruct (fee_manager_opted _ HI2) as [_ Hf1]. split.
  - apply ledger_inv_update; try done.
    + intros a. rewrite credit_read, debit_read. pose proof (li_balance _ _ HI a).
      repeat case_decide; subst; lia.
    + rewrite wsum_credit, wsum_debit, (li_supply _ _ HI). lia.
    + rewrite <- Ht. apply (li_cap _ _ HI2).
    + rewrite wsum_credit, wsum_debit, !Hop, (wsum_ext _ (opted l)), (li_opted _ _ HI), Hf0 by done. lia.
  - intros Hsl Hf. apply solvent_update; [by apply Hsol| |].
    + rewrite wsum_credit, wsum_debit, Ha1, Hf1, Hb. lia.
    + rewrite credit_read, debit_read, Hb. repeat case_decide; subst; try done; lia.
Qed.

Lemma fee_post_core_inv to n e l lg u l' lg' :
  LedgerInv self l → 0 ≤ n → self ≠ TIP_FEE_MANAGER_ADDRESS →
  fee_post_core self to n e (l, lg) = (Ok u, (l', lg')) →
  LedgerInv self l' ∧ (solvent self l → solvent self l').
Proof.
  intros HI Hn Hself (l1 & Hs1 & Hle & -> & _)%fee_post_core_ok.
  destruct (settled2_facts _ _ _ _ _ HI Hs1 (settled_refl_of _ _ _ Hs1))
    as (HI2 & Hsol & Hb & Ht & Hc & Ho & Hop & Ha1 & _).
  destruct (fee_manager_opted _ HI) as [Hf0 _]. destruct (fee_manager_opted _ HI2) as [_ Hf1]. split.
  - apply ledger_inv_update; try done.
    + intros a. rewrite credit_read, debit_read. pose proof (li_balance _ _ HI a).
      repeat case_decide; subst; lia.
    + rewrite wsum_credit, wsum_debit, (li_supply _ _ HI). lia.
    + rewrite <- Ht. apply (li_cap _ _ HI2).
    + rewrite wsum_credit, wsum_debit, !Hop, (wsum_ext _ (opted l)), (li_opted _ _ HI), Hf0 by done. lia.
  - intros Hsl. apply solvent_update; [by apply Hsol| |].
    + rewrite wsum_credit, wsum_debit, Ha1, Hf1, Hb. lia.
    + rewrite credit_read, debit_read, Hb. repeat case_decide; subst; try done; lia.
Qed.

Lemma wsum_scaled_add c d k b : wsum (λ a, c a + k * d a) b = wsum c b + k * wsum d b.
Proof.
  unfold wsum. rewrite <- msum_scale, <- msum_add. apply msum_ext. intros. lia.
Qed.

Lemma distribute_core_inv sender n e l lg u l' lg' :
  LedgerInv self l → 0 ≤ n → self ≠ ZERO →
  distribute_core self sender n e (l, lg) = (Ok u, (l', lg')) →
  LedgerInv self l' ∧ (solvent self l → sender ≠ self → solvent self l').
Proof.
  intros HI Hn Hself (l1 & lg1 & Ht & Hop & ->)%distribute_core_ok.
  destruct (transfer_core_inv _ (direct self) _ _ _ _ _ _ _ HI Hn Hself Ht) as [HI1 _].
  set (d := n * ACC_PRECISION / opted_in_supply l1).
  assert (0 < opted_in_supply l1) as Hpos.
  { enough (0 ≤ opted_in_supply l1) by lia. rewrite <- (li_opted _ _ HI1).
    apply wsum_nonneg; [apply HI1|]. intros a. by apply inv_opted_range. }
  assert (0 ≤ d) as Hd by (apply Z.div_pos; unfold ACC_PRECISION; lia).
  pose proof (div_floor_spec (n * ACC_PRECISION) (opted_in_supply l1) Hpos) as Hfl. fold d in Hfl.
  split.
  - destruct HI1. constructor; try done. intros a. specialize (li_rpt0 a).
    unfold rpt_of in *. cbn. lia.
  - intros Hsl Hs. apply transfer_core_ok in Ht as (l2 & l3 & Hs1 & Hs2 & Hle & -> & _).
    destruct (settled2_facts _ _ _ _ _ HI Hs1 Hs2) as (HI2 & Hsol & Hb & _ & _ & _ & Hopt & Ha1 & Ha2).
    specialize (Hsol Hsl). unfold solvent in *. cbn [balances set_global_reward_per_token with_ledger].
    set (b := move_balance _ _ _ _) in *.
    change (rewards_owed (set_global_reward_per_token _ _)) with (rewards_owed l3).
    rewrite (wsum_ext _ (λ a, accruing l3 a + d * opted l3 a)).
    2:{ intros a. unfold accruing, opted, recipient_of, rpt_of. cbn. case_match; lia. }
    rewrite wsum_scaled_add.
    change (wsum (opted l3) b) with (wsum (opted (with_ledger l3 b (opted_in_supply l + (opted l (target (direct self)) - opted l sender) * n) (total_supply l))) (balances (with_ledger l3 b (opted_in_supply l + (opted l (target (direct self)) - opted l sender) * n) (total_supply l)))).
    rewrite (li_opted _ _ HI1). unfold b, move_balance in *. cbn [target direct] in *.
    destruct (Z.eqb_spec self ZERO); [done|].
    rewrite wsum_credit, wsum_debit, Ha1, Ha2, credit_read, debit_read.
    rewrite decide_False, decide_True by done. rewrite Hb in Hsol. nia.
Qed.

Lemma set_recipient_core_inv sender r e l lg u l' lg' :
  LedgerInv self l → ¬ system_account self sender →
  set_reward_recipient_core self sender r e (l, lg) = (Ok u, (l', lg')) →
  LedgerInv self l' ∧ (solvent self l → solvent self l').
Proof.
  intros HI Hsys (l1 & Hs1 & ->)%set_recipient_core_ok.
  destruct (settled2_facts _ _ _ _ _ HI Hs1 (settled_refl_of _ _ _ Hs1))
    as (HI2 & Hsol & Hb & Ht & Hc & Ho & Hop & Ha1 & _).
  set (l' := set_user_reward_info _ _ _).
  assert (∀ a, opted l' a = if decide (a = sender) then (if r =? ZERO then 0 else 1) else opted l1 a) as Hop'.
  { intros a. unfold opted, recipient_of. cbn. rewrite mread_insert. repeat case_decide; by subst. }
  assert (∀ a, accruing l' a = accruing l1 a) as Hacc.
  { intros a. unfold accruing in *. unfold recipient_of, rpt_of in *. cbn. rewrite mread_insert.
    case_decide; [|done]. subst a. cbn. pose proof (st_rpt_self _ _ _ Hs1) as Hrp. unfold rpt_of in Hrp.
    rewrite Hrp, (st_global _ _ _ Hs1). case_match; case_match; lia. }
  split.
  - pose proof HI2 as []. constructor; try done.
    + change (opted_in_supply l') with
        (opted_in_supply l + ((if r =? ZERO then 0 else 1) - opted l sender) * (balances l).[sender]).
      change (balances l') with (balances l1). rewrite (wsum_coeff (opted l1) _ _ sender).
      * rewrite Hop', decide_True, li_opted0, Hop, Ho, Hb by done. lia.
      * intros a Ha. by rewrite Hop', decide_False.
    + intros a. unfold rpt_of. cbn. rewrite mread_insert. case_decide; [subst; cbn|]; apply li_rpt0.
    + intros a. cbn. rewrite mread_insert. case_decide; [subst; cbn|]; apply li_reward0.
    + intros a Ha. unfold recipient_of. cbn. rewrite mread_insert_ne by (by intros ->).
      by apply li_system0.
  - intros Hsl. specialize (Hsol Hsl). unfold solvent in *.
    rewrite (wsum_ext _ _ _ Hacc). unfold l'. rewrite rewards_owed_write. cbn.
    change (rewards_owed (set_opted_in_supply _ l1)) with (rewards_owed l1). lia.
Qed.

Lemma claim_core_inv sender e l lg n l' lg' :
  LedgerInv self l → claim_core self sender e (l, lg) = (Ok n, (l', lg')) →
  LedgerInv self l' ∧ (solvent self l → solvent self l').
Proof.
  intros HI (l1 & Hs1 & _ & Hn & ->)%claim_core_ok.
  destruct (settled2_facts _ _ _ _ _ HI Hs1 (settled_refl_of _ _ _ Hs1))
    as (HI2 & Hsol & Hb & Ht & Hc & Ho & Hop & Ha1 & _).
  pose proof (li_reward _ _ HI2 sender) as Hrw. pose proof (li_balance _ _ HI self) as Hbs.
  set (l2 := set_user_reward_info _ _ _). cbv zeta. fold l2.
  assert (∀ a, recipient_of l2 a = recipient_of l1 a) as Hrec.
  { intros a. unfold recipient_of at 1. cbn. rewrite mread_insert. case_decide; [subst; cbn|done].
    by rewrite (st_recipient _ _ _ Hs1). }
  assert (∀ a, rpt_of l2 a = rpt_of l1 a) as Hrpt.
  { intros a. unfold rpt_of at 1. cbn. rewrite mread_insert. by case_decide; [subst; cbn|]. }
  assert (∀ a, opted l2 a = opted l1 a) as Hop2 by (intros a; unfold opted; by rewrite Hrec).
  assert (∀ a, accruing l2 a = accruing l1 a) as Hac2 by (intros a; unfold accruing; by rewrite Hrec, Hrpt).
  assert (rewards_owed l2 = rewards_owed l1 - n) as How by (unfold l2; rewrite rewards_owed_write; cbn; lia).
  assert (LedgerInv self l2) as HI3.
  { pose proof HI2 as []. constructor; try done.
    - change (balances l2) with (balances l1). rewrite (wsum_ext _ _ _ Hop2). done.
    - intros a. rewrite Hrpt. apply li_rpt0.
    - intros a. cbn. rewrite mread_insert. case_decide; [subst; cbn; lia|apply li_reward0].
    - intros a Ha. rewrite Hrec. by apply li_system0. }
  assert (opted l self = 0 ∧ accruing l1 self = 0) as [Hos Has].
  { unfold opted, accruing. rewrite (li_system _ _ HI), (li_system _ _ HI2); [done|by right; left..]. }
  destruct (Z.ltb_spec 0 n) as [Hpos|Hneg].
  - split.
    + apply ledger_inv_update; try done.
      * intros a. rewrite credit_read, debit_read. pose proof (li_balance _ _ HI a).
        repeat case_decide; subst; lia.
      * rewrite wsum_credit, wsum_debit, (li_supply _ _ HI). lia.
      * change (supply_cap l2) with (supply_cap l1). rewrite Hc. apply (li_cap _ _ HI).
      * rewrite wsum_credit, wsum_debit, !Hop2, !Hop, (wsum_ext _ (opted l)), (li_opted _ _ HI), Hos;
          [lia|]. intros a. by rewrite Hop2, Hop.
    + intros Hsl. specialize (Hsol Hsl). unfold solvent in *. cbn [balances with_ledger].
      change (rewards_owed (with_ledger l2 _ _ _)) with (rewards_owed l2).
      change (accruing (with_ledger l2 _ _ _)) with (accruing l2).
      rewrite wsum_credit, wsum_debit, (wsum_ext _ _ _ Hac2), !Hac2, Ha1, Has, How, credit_read, debit_read.
      rewrite Hb in Hsol. rewrite (decide_True (P := self = self)) by done.
      pose proof ACC_pos. case_decide; nia.
  - split; [done|]. intros Hsl. specialize (Hsol Hsl). unfold solvent in *.
    change (balances l2) with (balances l1). rewrite (wsum_ext _ _ _ Hac2), How.
    assert (n = 0) by lia. subst n. lia.
Qed.
End preservation.
