(* ===== verification/TIP20.v ===== *)
(** * TIP-20 tokens and their factory
    ([src/crates/tempo-precompiles/src/tip20/], [tip20_factory/mod.rs])

    The state shared by the precompiles ([World]): every token, the accounts that
    have code, the TIP-403 registry, the address registry and the keychain; and the
    token's entry points over it.  An operation on the token at [self] corresponds to
    a method of the [TIP20Token] handle at that address. *)
From Stdlib Require Import ZArith Lia String.
From stdpp Require Import base tactics option list fin_maps gmap sets strings.
From S2P Require Import Prelude Base StorageSet AddressRegistry Keychain TIP403 TIP20Ledger.
Open Scope Z_scope.
Open Scope storage_scope.

(** ** State *)
Record RolesAuth := mkRoles {
  roles : gmap (Address * B256) bool;
  role_admins : gmap B256 B256;
}.
Record Metadata := mkMetadata {
  name : string;
  symbol : string;
  currency : string;
  quote_token : Address;
  next_quote_token : Address;
  transfer_policy_id : Z;
}.
(** The fields of [TIP20Token], grouped as in the struct. *)
Record TIP20Token := mkToken {
  auth : RolesAuth;
  meta : Metadata;
  ledger : Ledger;
}.
Global Instance TIP20Token_zeroed : Zeroed TIP20Token :=
  mkToken (mkRoles ∅ ∅) (mkMetadata EmptyString EmptyString EmptyString ZERO ZERO 0) ledger_empty.

Record World := mkWorld {
  tokens : gmap Address TIP20Token;
  code : gset Address;
  policies : TIP403Registry;
  addresses : AddressRegistry;
  keychain : AccountKeychain;
}.
Definition world_empty : World := mkWorld ∅ ∅ registry_empty address_registry_empty keychain_empty.

Definition token (w : World) (self : Address) : TIP20Token := (tokens w).[self].
Definition write_token (self : Address) (t : TIP20Token) (w : World) : World :=
  mkWorld (<[self:=t]> (tokens w)) (code w) (policies w) (addresses w) (keychain w).
Definition write_code (self : Address) (w : World) : World :=
  mkWorld (tokens w) ({[self]} ∪ code w) (policies w) (addresses w) (keychain w).
Definition write_policies (r : TIP403Registry) (w : World) : World :=
  mkWorld (tokens w) (code w) r (addresses w) (keychain w).
Definition write_addresses (r : AddressRegistry) (w : World) : World :=
  mkWorld (tokens w) (code w) (policies w) r (keychain w).
Definition write_keychain (k : AccountKeychain) (w : World) : World :=
  mkWorld (tokens w) (code w) (policies w) (addresses w) k.

Definition set_auth (r : RolesAuth) (t : TIP20Token) : TIP20Token := mkToken r (meta t) (ledger t).
Definition set_meta (m : Metadata) (t : TIP20Token) : TIP20Token := mkToken (auth t) m (ledger t).
Definition set_ledger (l : Ledger) (t : TIP20Token) : TIP20Token := mkToken (auth t) (meta t) l.

Definition at_auth {A} (self : Address) : M RolesAuth A → M World A :=
  zoom (λ w, auth (token w self)) (λ r w, write_token self (set_auth r (token w self)) w).
Definition at_meta {A} (self : Address) : M Metadata A → M World A :=
  zoom (λ w, meta (token w self)) (λ m w, write_token self (set_meta m (token w self)) w).
Definition at_ledger {A} (self : Address) : M Ledger A → M World A :=
  zoom (λ w, ledger (token w self)) (λ l w, write_token self (set_ledger l (token w self)) w).
Definition at_keychain {A} : M AccountKeychain A → M World A := zoom keychain write_keychain.
Definition at_policies {A} : M TIP403Registry A → M World A := zoom policies write_policies.
Definition at_addresses {A} : M AddressRegistry A → M World A := zoom addresses write_addresses.

(** ** Roles ([tip20/roles.rs]) *)
Definition DEFAULT_ADMIN_ROLE : B256 := 0.
Definition UNGRANTABLE_ROLE : B256 := U256_MAX.

Definition write_role (account : Address) (role : B256) (b : bool) (r : RolesAuth) : RolesAuth :=
  mkRoles (<[(account, role):=b]> (roles r)) (role_admins r).
Definition write_role_admin (role admin_role : B256) (r : RolesAuth) : RolesAuth :=
  mkRoles (roles r) (<[role:=admin_role]> (role_admins r)).

Definition has_role_internal (r : RolesAuth) (account : Address) (role : B256) : bool :=
  (roles r).[(account, role)].
Definition get_role_admin_internal (r : RolesAuth) (role : B256) : B256 := (role_admins r).[role].

Definition check_role_internal (account : Address) (role : B256) : M RolesAuth unit :=
  b ← gets (λ r, has_role_internal r account role);
  require b (RolesAuthError RolesAuthError.Unauthorized).

Definition initialize_roles : M RolesAuth unit :=
  modify (write_role_admin UNGRANTABLE_ROLE UNGRANTABLE_ROLE).

Definition grant_default_admin (self msg_sender adminA : Address) : M RolesAuth unit :=
  modify (write_role adminA DEFAULT_ADMIN_ROLE true);;
  emit self (RoleMembershipUpdated DEFAULT_ADMIN_ROLE adminA msg_sender true).

Definition grant_role (self msg_sender : Address) (role : B256) (account : Address) : M RolesAuth unit :=
  admin_role ← gets (λ r, get_role_admin_internal r role);
  check_role_internal msg_sender admin_role;;
  modify (write_role account role true);;
  emit self (RoleMembershipUpdated role account msg_sender true).

Definition revoke_role (self msg_sender : Address) (role : B256) (account : Address) : M RolesAuth unit :=
  admin_role ← gets (λ r, get_role_admin_internal r role);
  check_role_internal msg_sender admin_role;;
  modify (write_role account role false);;
  emit self (RoleMembershipUpdated role account msg_sender false).

Definition renounce_role (self msg_sender : Address) (role : B256) : M RolesAuth unit :=
  check_role_internal msg_sender role;;
  modify (write_role msg_sender role false);;
  emit self (RoleMembershipUpdated role msg_sender msg_sender false).

Definition set_role_admin (self msg_sender : Address) (role adminRole : B256) : M RolesAuth unit :=
  current_admin_role ← gets (λ r, get_role_admin_internal r role);
  check_role_internal msg_sender current_admin_role;;
  modify (write_role_admin role adminRole);;
  emit self (RoleAdminUpdated role adminRole msg_sender).

(** ** Metadata writes *)
Definition set_quote_token (q : Address) (m : Metadata) : Metadata :=
  mkMetadata (name m) (symbol m) (currency m) q (next_quote_token m) (transfer_policy_id m).
Definition set_next_quote (q : Address) (m : Metadata) : Metadata :=
  mkMetadata (name m) (symbol m) (currency m) (quote_token m) q (transfer_policy_id m).
Definition set_policy_id (p : Z) (m : Metadata) : Metadata :=
  mkMetadata (name m) (symbol m) (currency m) (quote_token m) (next_quote_token m) p.

Section tip20.
Context `{Primitives}.
Local Notation MW := (M World).

Definition PAUSE_ROLE : B256 := keccak256 (string_bytes "PAUSE_ROLE").
Definition UNPAUSE_ROLE : B256 := keccak256 (string_bytes "UNPAUSE_ROLE").
Definition ISSUER_ROLE : B256 := keccak256 (string_bytes "ISSUER_ROLE").
Definition BURN_BLOCKED_ROLE : B256 := keccak256 (string_bytes "BURN_BLOCKED_ROLE").

Definition PERMIT_TYPEHASH : B256 := keccak256 (string_bytes
  "Permit(address owner,address spender,uint256 value,uint256 nonce,uint256 deadline)").
Definition EIP712_DOMAIN_TYPEHASH : B256 := keccak256 (string_bytes
  "EIP712Domain(string name,string version,uint256 chainId,address verifyingContract)").
Definition VERSION_HASH : B256 := keccak256 (string_bytes "1").

(** [TIP20Token::from_address]. *)
Definition from_address (a : Address) : Result Address :=
  if negb (addr_is_tip20 a) then Err (TIP20 TIP20Error.InvalidToken) else Ok a.

(** [TIP20Factory::is_tip20]: the prefix and some code. *)
Definition is_tip20 (w : World) (t : Address) : bool :=
  if negb (addr_is_tip20 t) then false else bool_decide (t ∈ code w).

Definition check_role (self account : Address) (role : B256) : MW unit :=
  b ← gets (λ w, has_role_internal (auth (token w self)) account role);
  require b (RolesAuthError RolesAuthError.Unauthorized).

Definition check_not_paused (self : Address) : MW unit :=
  p ← gets (λ w, paused (ledger (token w self)));
  require (negb p) (TIP20 TIP20Error.ContractPaused).

(** ** Recipients *)
Definition recipient_resolve (e : Env) (w : World) (addr : Address) : Result Recipient :=
  effective ← resolve_recipient e (addresses w) addr;
  Ok (if effective =? addr then direct addr else mkRecipient effective (Some addr)).

Definition recipient_validate (r : Recipient) : Result unit :=
  ensure (negb ((target r =? ZERO) || addr_is_tip20 (target r))) (TIP20 TIP20Error.InvalidRecipient).

Definition emit_hop (self : Address) (r : Recipient) (amount : Z) : MW unit :=
  match build_virtual_transfer_event r amount with
  | Some hop => emit self (ETIP20 hop)
  | None => mret tt
  end.

(** ** Policies *)
Definition is_transfer_authorized (e : Env) (w : World) (self from to : Address) : Result bool :=
  let policy_id := transfer_policy_id (meta (token w self)) in
  sender_auth ← is_authorized_as e (policies w) policy_id from (role_sender e);
  if is_t2 (spec e) && negb sender_auth then Ok false
  else
    recipient_auth ← is_authorized_as e (policies w) policy_id to (role_recipient e);
    Ok (sender_auth && recipient_auth).

Definition ensure_transfer_authorized (self from to : Address) : MW unit :=
  b ← view (λ e w, is_transfer_authorized e w self from to);
  require b (TIP20 TIP20Error.PolicyForbids).

Definition validate_transfer (self from : Address) (to : Recipient) : MW unit :=
  check_not_paused self;;
  lift (recipient_validate to);;
  ensure_transfer_authorized self from (target to).

Definition validate_mint (self : Address) (to : Recipient) : MW unit :=
  e ← ask;
  when (is_t3 (spec e)) (check_not_paused self;; lift (recipient_validate to));;
  b ← view (λ e w, is_authorized_as e (policies w) (transfer_policy_id (meta (token w self)))
                     (target to) (role_mint_recipient e));
  require b (TIP20 TIP20Error.PolicyForbids).

Definition check_and_update_spending_limit (self from : Address) (amount : Z) : MW unit :=
  at_keychain (authorize_transfer from self amount).

(** ** Administration *)
Definition change_transfer_policy_id (self msg_sender : Address) (newPolicyId : Z) : MW unit :=
  check_role self msg_sender DEFAULT_ADMIN_ROLE;;
  ok ← gets (λ w, policy_exists (policies w) newPolicyId);
  require ok (TIP20 TIP20Error.InvalidTransferPolicyId);;
  at_meta self (modify (set_policy_id newPolicyId));;
  emit self (ETIP20 (TIP20Event.TransferPolicyUpdate msg_sender newPolicyId)).

Definition set_supply_cap (self msg_sender : Address) (newSupplyCap : Z) : MW unit :=
  check_role self msg_sender DEFAULT_ADMIN_ROLE;;
  supply ← gets (λ w, total_supply (ledger (token w self)));
  require (negb (newSupplyCap <? supply)) (TIP20 TIP20Error.InvalidSupplyCap);;
  require (negb (U128_MAX <? newSupplyCap)) (TIP20 TIP20Error.SupplyCapExceeded);;
  at_ledger self (modify (write_supply_cap newSupplyCap));;
  emit self (ETIP20 (TIP20Event.SupplyCapUpdate msg_sender newSupplyCap)).

Definition pause (self msg_sender : Address) : MW unit :=
  check_role self msg_sender PAUSE_ROLE;;
  at_ledger self (modify (set_paused true));;
  emit self (ETIP20 (TIP20Event.PauseStateUpdate msg_sender true)).

Definition unpause (self msg_sender : Address) : MW unit :=
  check_role self msg_sender UNPAUSE_ROLE;;
  at_ledger self (modify (set_paused false));;
  emit self (ETIP20 (TIP20Event.PauseStateUpdate msg_sender false)).

Definition set_next_quote_token (self msg_sender newQuoteToken : Address) : MW unit :=
  check_role self msg_sender DEFAULT_ADMIN_ROLE;;
  require (negb (self =? PATH_USD_ADDRESS)) (TIP20 TIP20Error.InvalidQuoteToken);;
  ok ← gets (λ w, is_tip20 w newQuoteToken);
  require ok (TIP20 TIP20Error.InvalidQuoteToken);;
  cur ← gets (λ w, currency (meta (token w self)));
  when (String.eqb cur USD_CURRENCY) (
    q ← lift (from_address newQuoteToken);
    quote_token_currency ← gets (λ w, currency (meta (token w q)));
    require (String.eqb quote_token_currency USD_CURRENCY) (TIP20 TIP20Error.InvalidQuoteToken));;
  at_meta self (modify (set_next_quote newQuoteToken));;
  emit self (ETIP20 (TIP20Event.NextQuoteTokenSet msg_sender newQuoteToken)).

(** The cycle check: [while current != PATH_USD_ADDRESS { ... }]. *)
Fixpoint quote_walk (fuel : nat) (w : World) (self current : Address) : Result unit :=
  if current =? PATH_USD_ADDRESS then Ok tt
  else if current =? self then Err (TIP20 TIP20Error.InvalidQuoteToken)
  else
    match fuel with
    | O => Err OutOfGas
    | S fuel =>
        c ← from_address current;
        quote_walk fuel w self (quote_token (meta (token w c)))
    end.

Definition complete_quote_token_update (self msg_sender : Address) : MW unit :=
  check_role self msg_sender DEFAULT_ADMIN_ROLE;;
  next ← gets (λ w, next_quote_token (meta (token w self)));
  w ← gets id;
  lift (quote_walk (S (size (code w))) w self next);;
  at_meta self (modify (set_quote_token next));;
  emit self (ETIP20 (TIP20Event.QuoteTokenUpdate msg_sender next)).

(** ** Minting and burning *)
Definition mint_internal (self msg_sender : Address) (to : Recipient) (amount : Z) : MW unit :=
  check_role self msg_sender ISSUER_ROLE;;
  validate_mint self to;;
  at_ledger self (mint_core self to amount).

Definition mint (self msg_sender to : Address) (amount : Z) : MW unit :=
  r ← view (λ e w, recipient_resolve e w to);
  mint_internal self msg_sender r amount;;
  emit self (ETIP20 (TIP20Event.Mint to amount));;
  emit_hop self r amount.

Definition mint_with_memo (self msg_sender to : Address) (amount : Z) (memo : B256) : MW unit :=
  r ← view (λ e w, recipient_resolve e w to);
  mint_internal self msg_sender r amount;;
  emit self (ETIP20 (TIP20Event.TransferWithMemo ZERO to amount memo));;
  emit self (ETIP20 (TIP20Event.Mint to amount));;
  emit_hop self r amount.

Definition burn_internal (self msg_sender : Address) (amount : Z) : MW unit :=
  e ← ask;
  when (is_t3 (spec e)) (check_not_paused self);;
  check_role self msg_sender ISSUER_ROLE;;
  at_ledger self (burn_core self msg_sender amount).

Definition burn (self msg_sender : Address) (amount : Z) : MW unit :=
  burn_internal self msg_sender amount;;
  emit self (ETIP20 (TIP20Event.Burn msg_sender amount)).

Definition burn_with_memo (self msg_sender : Address) (amount : Z) (memo : B256) : MW unit :=
  burn_internal self msg_sender amount;;
  emit self (ETIP20 (TIP20Event.TransferWithMemo msg_sender ZERO amount memo));;
  emit self (ETIP20 (TIP20Event.Burn msg_sender amount)).

Definition burn_blocked (self msg_sender from : Address) (amount : Z) : MW unit :=
  e ← ask;
  when (is_t3 (spec e)) (check_not_paused self);;
  check_role self msg_sender BURN_BLOCKED_ROLE;;
  require (negb ((from =? TIP_FEE_MANAGER_ADDRESS) || (from =? STABLECOIN_DEX_ADDRESS)))
    (TIP20 TIP20Error.ProtectedAddress);;
  authorized ← view (λ e w, is_authorized_as e (policies w)
                              (transfer_policy_id (meta (token w self))) from (role_sender e));
  require (negb authorized) (TIP20 TIP20Error.PolicyForbids);;
  at_ledger self (burn_core self from amount);;
  emit self (ETIP20 (TIP20Event.BurnBlocked from amount)).

(** ** Allowances *)
Definition approve (self msg_sender spender : Address) (amount : Z) : MW bool :=
  old ← gets (λ w, get_allowance (ledger (token w self)) msg_sender spender);
  at_keychain (authorize_approve msg_sender self old amount);;
  at_ledger self (modify (set_allowance msg_sender spender amount));;
  emit self (ETIP20 (TIP20Event.Approval msg_sender spender amount));;
  mret true.

Definition domain_separator (e : Env) (w : World) (self : Address) : B256 :=
  let name_hash := keccak256 (string_bytes (name (meta (token w self)))) in
  keccak256 (abi_encode [EIP712_DOMAIN_TYPEHASH; name_hash; VERSION_HASH; chain_id e; self]).

(** [StorageCtx::recover_signer]. *)
Definition recover_signer (digest : B256) (v : Z) (r s : B256) : option Address :=
  if negb (v =? 27) && negb (v =? 28) then None
  else
    a ← secp256k1_recover digest r (v =? 28) s;
    if a =? ZERO then None else Some a.

Definition permit_digest (e : Env) (w : World) (self owner spender : Address)
    (value nonce deadline : Z) : B256 :=
  let struct_hash := keccak256 (abi_encode [PERMIT_TYPEHASH; owner; spender; value; nonce; deadline]) in
  keccak256 ([0x19; 0x01] ++ be_bytes 32 (domain_separator e w self) ++ be_bytes 32 struct_hash).

Definition permit (self owner spender : Address) (value deadline v : Z) (r s : B256) : MW unit :=
  e ← ask;
  require (negb (deadline <? timestamp e)) (TIP20 TIP20Error.PermitExpired);;
  nonce ← gets (λ w, (permit_nonces (ledger (token w self))).[owner]);
  w ← gets id;
  let digest := permit_digest e w self owner spender value nonce deadline in
  recovered ← lift (ok_or (recover_signer digest v r s) (TIP20 TIP20Error.InvalidSignature));
  require (recovered =? owner) (TIP20 TIP20Error.InvalidSignature);;
  next ← lift (ok_or (checked_add U256_MAX nonce 1) under_overflow);
  at_ledger self (modify (set_permit_nonce owner next));;
  at_ledger self (modify (set_allowance owner spender value));;
  emit self (ETIP20 (TIP20Event.Approval owner spender value)).

(** ** Transfers *)
Definition transfer (self msg_sender to : Address) (amount : Z) : MW bool :=
  r ← view (λ e w, recipient_resolve e w to);
  validate_transfer self msg_sender r;;
  check_and_update_spending_limit self msg_sender amount;;
  at_ledger self (transfer_core self msg_sender r amount);;
  emit_hop self r amount;;
  mret true.

Definition transfer_with_memo (self msg_sender to : Address) (amount : Z) (memo : B256) : MW unit :=
  r ← view (λ e w, recipient_resolve e w to);
  validate_transfer self msg_sender r;;
  check_and_update_spending_limit self msg_sender amount;;
  at_ledger self (transfer_core self msg_sender r amount);;
  emit self (ETIP20 (TIP20Event.TransferWithMemo msg_sender to amount memo));;
  emit_hop self r amount.

Definition transfer_from_internal (self msg_sender from : Address) (to : Recipient) (amount : Z) :
    MW bool :=
  validate_transfer self from to;;
  at_ledger self (spend_allowance from msg_sender amount);;
  at_ledger self (transfer_core self from to amount);;
  mret true.

Definition transfer_from (self msg_sender from to : Address) (amount : Z) : MW bool :=
  r ← view (λ e w, recipient_resolve e w to);
  transfer_from_internal self msg_sender from r amount;;
  emit_hop self r amount;;
  mret true.

Definition transfer_from_with_memo (self msg_sender from to : Address) (amount : Z) (memo : B256) :
    MW bool :=
  r ← view (λ e w, recipient_resolve e w to);
  transfer_from_internal self msg_sender from r amount;;
  emit self (ETIP20 (TIP20Event.TransferWithMemo from to amount memo));;
  emit_hop self r amount;;
  mret true.

Definition system_transfer_from (self from to : Address) (amount : Z) : MW bool :=
  r ← view (λ e w, recipient_resolve e w to);
  validate_transfer self from r;;
  check_and_update_spending_limit self from amount;;
  at_ledger self (transfer_core self from r amount);;
  emit_hop self r amount;;
  mret true.

(** ** Fees *)
Definition transfer_fee_pre_tx (self from : Address) (amount : Z) : MW unit :=
  check_not_paused self;;
  from_balance ← gets (λ w, get_balance (ledger (token w self)) from);
  require (negb (from_balance <? amount)) (insufficient_balance from_balance amount self);;
  check_and_update_spending_limit self from amount;;
  at_ledger self (fee_pre_core self from from_balance amount).

Definition transfer_fee_post_tx (self to : Address) (refund actual_spending : Z) : MW unit :=
  emit self (ETIP20 (TIP20Event.Transfer to TIP_FEE_MANAGER_ADDRESS actual_spending));;
  if refund =? 0 then mret tt
  else
    e ← ask;
    when (is_t1c (spec e)) (at_keychain (refund_spending_limit to self refund));;
    at_ledger self (fee_post_core self to refund).

(** ** Rewards ([tip20/rewards.rs]) *)
Definition distribute_reward (self msg_sender : Address) (amount : Z) : MW unit :=
  check_not_paused self;;
  require (negb (amount =? 0)) (TIP20 TIP20Error.InvalidAmount);;
  ensure_transfer_authorized self msg_sender self;;
  check_and_update_spending_limit self msg_sender amount;;
  at_ledger self (distribute_core self msg_sender amount).

Definition set_reward_recipient (self msg_sender recipient : Address) : MW unit :=
  e ← ask;
  check_not_paused self;;
  require (negb (is_t3 (spec e) && addr_is_virtual recipient)) (TIP20 TIP20Error.InvalidRecipient);;
  when (negb (recipient =? ZERO)) (ensure_transfer_authorized self msg_sender recipient);;
  at_ledger self (set_reward_recipient_core self msg_sender recipient).

Definition claim_rewards (self msg_sender : Address) : MW Z :=
  check_not_paused self;;
  ensure_transfer_authorized self self msg_sender;;
  at_ledger self (claim_core self msg_sender).

(** ** Creation *)
Definition initialize (self msg_sender : Address) (nm sym cur : string) (quote adminA : Address) :
    MW unit :=
  modify (write_code self);;
  at_meta self (modify (λ m, mkMetadata nm sym cur quote quote (transfer_policy_id m)));;
  at_ledger self (modify (write_supply_cap U128_MAX));;
  at_meta self (modify (set_policy_id 1));;
  at_auth self initialize_roles;;
  at_auth self (grant_default_admin self msg_sender adminA).

Definition RESERVED_SIZE : Z := 1024.
Definition TIP20_PREFIX : Z := 0x20C000000000000000000000.

(** The 12-byte prefix followed by the first 8 bytes of the hash. *)
Definition compute_tip20_address (sender : Address) (salt : B256) : Address * Z :=
  let hash := keccak256 (abi_encode [sender; salt]) in
  let lower_bytes := hash / 2 ^ 192 in
  (TIP20_PREFIX * 2 ^ 64 + lower_bytes, lower_bytes).

Definition get_token_address (sender : Address) (salt : B256) : Result Address :=
  let '(address, lower_bytes) := compute_tip20_address sender salt in
  if lower_bytes <? RESERVED_SIZE then Err (TIP20Factory TIP20FactoryError.AddressReserved)
  else Ok address.

Definition create_token (sender : Address) (nm sym cur : string) (quoteToken adminA : Address)
    (salt : B256) : MW Address :=
  let '(token_address, lower_bytes) := compute_tip20_address sender salt in
  exists_already ← gets (λ w, is_tip20 w token_address);
  require (negb exists_already) (TIP20Factory (TIP20FactoryError.TokenAlreadyExists token_address));;
  quote_ok ← gets (λ w, is_tip20 w quoteToken);
  require quote_ok (TIP20 TIP20Error.InvalidQuoteToken);;
  when (String.eqb cur USD_CURRENCY) (
    q ← lift (from_address quoteToken);
    qc ← gets (λ w, currency (meta (token w q)));
    require (String.eqb qc USD_CURRENCY) (TIP20 TIP20Error.InvalidQuoteToken));;
  require (negb (lower_bytes <? RESERVED_SIZE)) (TIP20Factory TIP20FactoryError.AddressReserved);;
  t ← lift (from_address token_address);
  initialize t sender nm sym cur quoteToken adminA;;
  emit TIP20_FACTORY_ADDRESS (TokenCreated token_address nm sym cur quoteToken adminA salt);;
  mret token_address.

Definition create_token_reserved_address (address : Address) (nm sym cur : string)
    (quote adminA : Address) : MW Address :=
  require (addr_is_tip20 address) (TIP20 TIP20Error.InvalidToken);;
  exists_already ← gets (λ w, is_tip20 w address);
  require (negb exists_already) (TIP20Factory (TIP20FactoryError.TokenAlreadyExists address));;
  when (negb (quote =? ZERO)) (
    quote_ok ← gets (λ w, is_tip20 w quote);
    require (negb ((address =? PATH_USD_ADDRESS) || negb quote_ok)) (TIP20 TIP20Error.InvalidQuoteToken);;
    when (String.eqb cur USD_CURRENCY) (
      q ← lift (from_address quote);
      qc ← gets (λ w, currency (meta (token w q)));
      require (String.eqb qc USD_CURRENCY) (TIP20 TIP20Error.InvalidQuoteToken)));;
  require (negb (RESERVED_SIZE <=? address mod 2 ^ 64)) (TIP20Factory TIP20FactoryError.AddressNotReserved);;
  t ← lift (from_address address);
  initialize t adminA nm sym cur quote adminA;;
  emit TIP20_FACTORY_ADDRESS (TokenCreated address nm sym cur quote adminA 0);;
  mret address.

Definition validate_usd_currency (w : World) (t : Address) : Result unit :=
  t ← from_address t;
  ensure (String.eqb (currency (meta (token w t))) USD_CURRENCY) (TIP20 TIP20Error.InvalidCurrency).
End tip20.
