(* ===== verification/TIP20Props.v ===== *)
(** * Correctness of the TIP-20 tokens

    Calls to the tokens, the factory and the registries as steps of the shared
    state, and what every reachable state satisfies: conservation of the supply,
    solvency of the rewards, role safety and the shape of the quote-token graph. *)
From Stdlib Require Import ZArith Lia String.
From stdpp Require Import base tactics option list fin_maps gmap sets strings.
From S2P Require Import Prelude Base StorageSet AddressRegistry Keychain TIP403 TIP20Ledger TIP20.
Open Scope Z_scope.
Open Scope storage_scope.

(** ** Calls *)
Inductive TokenCall :=
| TTransfer (to : Address) (amount : Z)
| TTransferWithMemo (to : Address) (amount : Z) (memo : B256)
| TTransferFrom (from to : Address) (amount : Z)
| TTransferFromWithMemo (from to : Address) (amount : Z) (memo : B256)
| TApprove (spender : Address) (amount : Z)
| TPermit (owner spender : Address) (value deadline v : Z) (r s : B256)
| TMint (to : Address) (amount : Z)
| TMintWithMemo (to : Address) (amount : Z) (memo : B256)
| TBurn (amount : Z)
| TBurnWithMemo (amount : Z) (memo : B256)
| TBurnBlocked (from : Address) (amount : Z)
| TDistributeReward (amount : Z)
| TSetRewardRecipient (recipient : Address)
| TClaimRewards
| TPause
| TUnpause
| TSetSupplyCap (newSupplyCap : Z)
| TChangeTransferPolicyId (newPolicyId : Z)
| TSetNextQuoteToken (newQuoteToken : Address)
| TCompleteQuoteTokenUpdate
| TGrantRole (role : B256) (account : Address)
| TRevokeRole (role : B256) (account : Address)
| TRenounceRole (role : B256)
| TSetRoleAdmin (role adminRole : B256)
(* called by other precompiles and the transaction handler only *)
| TSystemTransferFrom (from to : Address) (amount : Z)
| TFeePreTx (from : Address) (amount : Z)
| TFeePostTx (to : Address) (refund actual_spending : Z).

Section calls.
Context `{Primitives}.

Definition discard {A} (m : M World A) : M World unit := m;; mret tt.

Definition exec_token (self msg_sender : Address) (c : TokenCall) : M World unit :=
  match c with
  | TTransfer to n => discard (transfer self msg_sender to n)
  | TTransferWithMemo to n m => transfer_with_memo self msg_sender to n m
  | TTransferFrom f to n => discard (transfer_from self msg_sender f to n)
  | TTransferFromWithMemo f to n m => discard (transfer_from_with_memo self msg_sender f to n m)
  | TApprove sp n => discard (approve self msg_sender sp n)
  | TPermit o sp va d v r s => permit self o sp va d v r s
  | TMint to n => mint self msg_sender to n
  | TMintWithMemo to n m => mint_with_memo self msg_sender to n m
  | TBurn n => burn self msg_sender n
  | TBurnWithMemo n m => burn_with_memo self msg_sender n m
  | TBurnBlocked f n => burn_blocked self msg_sender f n
  | TDistributeReward n => distribute_reward self msg_sender n
  | TSetRewardRecipient r => set_reward_recipient self msg_sender r
  | TClaimRewards => discard (claim_rewards self msg_sender)
  | TPause => pause self msg_sender
  | TUnpause => unpause self msg_sender
  | TSetSupplyCap n => set_supply_cap self msg_sender n
  | TChangeTransferPolicyId p => change_transfer_policy_id self msg_sender p
  | TSetNextQuoteToken q => set_next_quote_token self msg_sender q
  | TCompleteQuoteTokenUpdate => complete_quote_token_update self msg_sender
  | TGrantRole r a => at_auth self (grant_role self msg_sender r a)
  | TRevokeRole r a => at_auth self (revoke_role self msg_sender r a)
  | TRenounceRole r => at_auth self (renounce_role self msg_sender r)
  | TSetRoleAdmin r a => at_auth self (set_role_admin self msg_sender r a)
  | TSystemTransferFrom f to n => discard (system_transfer_from self f to n)
  | TFeePreTx f n => transfer_fee_pre_tx self f n
  | TFeePostTx to r a => transfer_fee_post_tx self to r a
  end.

Inductive WorldCall :=
| WToken (self msg_sender : Address) (c : TokenCall)
| WCreateToken (sender : Address) (nm sym cur : string) (quote adminA : Address) (salt : B256)
| WCreateReserved (address : Address) (nm sym cur : string) (quote adminA : Address)
| WPolicies (msg_sender : Address) (c : Call403)
| WRegister (msg_sender : Address) (salt : B256)
| WKeychain (c : KCall).

Definition exec_world (c : WorldCall) : M World unit :=
  match c with
  | WToken self m c => exec_token self m c
  | WCreateToken s nm sym cur q a salt => discard (create_token s nm sym cur q a salt)
  | WCreateReserved ad nm sym cur q a => discard (create_token_reserved_address ad nm sym cur q a)
  | WPolicies m c => at_policies (exec403 m c)
  | WRegister m salt => discard (at_addresses (register_virtual_master m salt))
  | WKeychain c => w ← gets id; at_keychain (exec_k (is_tip20 w) c)
  end.

(** Amounts are unsigned. *)
Definition amounts_ok (c : TokenCall) : Prop :=
  match c with
  | TTransfer _ n | TTransferWithMemo _ n _ | TTransferFrom _ _ n | TTransferFromWithMemo _ _ n _
  | TApprove _ n | TMint _ n | TMintWithMemo _ n _ | TBurn n | TBurnWithMemo n _ | TBurnBlocked _ n
  | TDistributeReward n | TSystemTransferFrom _ _ n | TFeePreTx _ n | TFeePostTx _ n _ => 0 ≤ n
  | _ => True
  end.

(** A caller is neither the zero address, nor a token, nor the fee manager: those
    addresses run precompile code and send no transaction. *)
Definition external (a : Address) : Prop :=
  a ≠ ZERO ∧ addr_is_tip20 a = false ∧ a ≠ TIP_FEE_MANAGER_ADDRESS.

(** Token calls are dispatched by the address prefix to initialized tokens only. *)
Definition call_ok (w : World) (c : WorldCall) : Prop :=
  match c with
  | WToken self m c => is_tip20 w self = true ∧ external m ∧ amounts_ok c
  | _ => True
  end.

(** States reached from genesis by successful calls that satisfy [P] (failed calls
    are reverted). *)
Inductive reach (P : WorldCall → Prop) : World → Prop :=
| Reach_init : reach P world_empty
| Reach_next w w' e c l l' u :
    reach P w → P c → call_ok w c → exec_world c e (w, l) = (Ok u, (w', l')) → reach P w'.
Definition world_reachable : World → Prop := reach (λ _, True).

Lemma reach_weaken P w : reach P w → world_reachable w.
Proof. induction 1; [constructor|]. eapply Reach_next; done. Qed.

(** ** Frames *)
Definition ledger_of (w : World) (t : Address) : Ledger := ledger (token w t).

Lemma token_write self t w a : token (write_token self t w) a = if decide (self = a) then t else token w a.
Proof. unfold token. cbn. apply mread_insert. Qed.

Lemma at_ledger_ok {A} self (m : M Ledger A) e w l a w' l' :
  at_ledger self m e (w, l) = (Ok a, (w', l')) →
  ∃ L, m e (ledger_of w self, l) = (Ok a, (L, l')) ∧ w' = write_token self (set_ledger L (token w self)) w.
Proof. unfold at_ledger. intros (L & l1 & Hm & Heq)%zoom_ok. simplify_eq. eauto. Qed.

Lemma at_auth_ok {A} self (m : M RolesAuth A) e w l a w' l' :
  at_auth self m e (w, l) = (Ok a, (w', l')) →
  ∃ r, m e (auth (token w self), l) = (Ok a, (r, l')) ∧ w' = write_token self (set_auth r (token w self)) w.
Proof. unfold at_auth. intros (r & l1 & Hm & Heq)%zoom_ok. simplify_eq. eauto. Qed.

Lemma at_meta_ok {A} self (m : M Metadata A) e w l a w' l' :
  at_meta self m e (w, l) = (Ok a, (w', l')) →
  ∃ r, m e (meta (token w self), l) = (Ok a, (r, l')) ∧ w' = write_token self (set_meta r (token w self)) w.
Proof. unfold at_meta. intros (r & l1 & Hm & Heq)%zoom_ok. simplify_eq. eauto. Qed.

Lemma at_keychain_ok {A} (m : M AccountKeychain A) e w l a w' l' :
  at_keychain m e (w, l) = (Ok a, (w', l')) →
  ∃ k, m e (keychain w, l) = (Ok a, (k, l')) ∧ w' = write_keychain k w.
Proof. unfold at_keychain. intros (r & l1 & Hm & Heq)%zoom_ok. simplify_eq. eauto. Qed.

Lemma ledger_of_ledger self L w t :
  ledger_of (write_token self (set_ledger L (token w self)) w) t = if decide (self = t) then L else ledger_of w t.
Proof. unfold ledger_of. rewrite token_write. by case_decide. Qed.
Lemma ledger_of_auth self r w t :
  ledger_of (write_token self (set_auth r (token w self)) w) t = ledger_of w t.
Proof. unfold ledger_of. rewrite token_write. case_decide; by subst. Qed.
Lemma ledger_of_meta self r w t :
  ledger_of (write_token self (set_meta r (token w self)) w) t = ledger_of w t.
Proof. unfold ledger_of. rewrite token_write. case_decide; by subst. Qed.
Lemma ledger_of_keychain k w t : ledger_of (write_keychain k w) t = ledger_of w t.
Proof. done. Qed.
Lemma ledger_of_code a w t : ledger_of (write_code a w) t = ledger_of w t.
Proof. done. Qed.

(** ** What a token call does to the token's own ledger *)
Definition runs {A} (m : M Ledger A) (e : Env) (L L' : Ledger) : Prop :=
  ∃ a lg lg', m e (L, lg) = (Ok a, (L', lg')).

(** Minting and burning respect the pause since T3. *)
Definition unpaused_t3 (e : Env) (L : Ledger) : Prop := is_t3 (spec e) = true → paused L = false.

Definition ledger_effect (self m : Address) (c : TokenCall) (e : Env) (L L' : Ledger) : Prop :=
  match c with
  | TTransfer _ n | TTransferWithMemo _ n _ =>
      paused L = false ∧ ∃ r, target r ≠ ZERO ∧ addr_is_tip20 (target r) = false ∧
        runs (transfer_core self m r n) e L L'
  | TSystemTransferFrom f _ n =>
      paused L = false ∧ ∃ r, target r ≠ ZERO ∧ addr_is_tip20 (target r) = false ∧
        runs (transfer_core self f r n) e L L'
  | TTransferFrom f _ n | TTransferFromWithMemo f _ n _ =>
      paused L = false ∧ ∃ r L1, target r ≠ ZERO ∧ addr_is_tip20 (target r) = false ∧
        runs (spend_allowance f m n) e L L1 ∧ runs (transfer_core self f r n) e L1 L'
  | TApprove sp n => L' = set_allowance m sp n L
  | TPermit o sp va _ _ _ _ => L' = set_allowance o sp va (set_permit_nonce o ((permit_nonces L).[o] + 1) L)
  | TMint _ n | TMintWithMemo _ n _ =>
      unpaused_t3 e L ∧ ∃ r, runs (mint_core self r n) e L L'
  | TBurn n | TBurnWithMemo n _ => unpaused_t3 e L ∧ runs (burn_core self m n) e L L'
  | TBurnBlocked f n => unpaused_t3 e L ∧ f ≠ TIP_FEE_MANAGER_ADDRESS ∧ f ≠ STABLECOIN_DEX_ADDRESS ∧
      runs (burn_core self f n) e L L'
  | TDistributeReward n => paused L = false ∧ runs (distribute_core self m n) e L L'
  | TSetRewardRecipient r => paused L = false ∧ runs (set_reward_recipient_core self m r) e L L'
  | TClaimRewards => paused L = false ∧ runs (claim_core self m) e L L'
  | TPause => L' = set_paused true L
  | TUnpause => L' = set_paused false L
  | TSetSupplyCap n => total_supply L ≤ n ≤ U128_MAX ∧ L' = write_supply_cap n L
  | TFeePreTx f n => paused L = false ∧ runs (fee_pre_core self f (balances L).[f] n) e L L'
  | TFeePostTx to n _ => L' = L ∨ runs (fee_post_core self to n) e L L'
  | _ => L' = L
  end.

End calls.

(** Reduce the steps of a run to writes of the world. *)
Ltac world_step :=
  match goal with
  | Hr : at_ledger _ _ _ _ = (Ok _, ?st) |- _ =>
      let L := fresh "L" in let Hm := fresh "Hm" in
      try (is_var st; destruct st as [? ?]); apply at_ledger_ok in Hr as (L & Hm & ?); subst
  | Hr : at_auth _ _ _ _ = (Ok _, ?st) |- _ =>
      let r := fresh "r" in let Hm := fresh "Hm" in
      try (is_var st; destruct st as [? ?]); apply at_auth_ok in Hr as (r & Hm & ?); subst
  | Hr : at_meta _ _ _ _ = (Ok _, ?st) |- _ =>
      let r := fresh "r" in let Hm := fresh "Hm" in
      try (is_var st; destruct st as [? ?]); apply at_meta_ok in Hr as (r & Hm & ?); subst
  | Hr : at_keychain _ _ _ = (Ok _, ?st) |- _ =>
      let r := fresh "k" in let Hm := fresh "Hm" in
      try (is_var st; destruct st as [? ?]); apply at_keychain_ok in Hr as (r & Hm & ?); subst
  end.
Ltac world_steps := repeat (first [minv_step | world_step]; cbn [fst snd] in *).

Section effects.
Context `{Primitives}.

Lemma recipient_validate_ok r u :
  recipient_validate r = Ok u → target r ≠ ZERO ∧ addr_is_tip20 (target r) = false.
Proof. unfold recipient_validate. intros Hr. rinvs. by bprop. Qed.

Lemma validate_transfer_ok self f r e st u st' :
  validate_transfer self f r e st = (Ok u, st') →
  st' = st ∧ paused (ledger_of st.1 self) = false ∧ target r ≠ ZERO ∧ addr_is_tip20 (target r) = false ∧
  is_transfer_authorized e st.1 self f (target r) = Ok true.
Proof.
  intros Hrun. unfold validate_transfer, check_not_paused, ensure_transfer_authorized in Hrun.
  minvs. bprop. subst.
  match goal with Hr : recipient_validate _ = _ |- _ => apply recipient_validate_ok in Hr as [? ?] end.
  done.
Qed.

Lemma emit_hop_world self r n e st u st' : emit_hop self r n e st = (Ok u, st') → st'.1 = st.1.
Proof. unfold emit_hop. intros Hrun. destruct (build_virtual_transfer_event r n); by minvs. Qed.

Lemma validate_mint_ok self r e st u st' :
  validate_mint self r e st = (Ok u, st') → st' = st ∧ unpaused_t3 e (ledger_of st.1 self).
Proof.
  intros Hrun. unfold validate_mint, check_not_paused in Hrun. unfold unpaused_t3. minvs; bprop; by split.
Qed.

End effects.

Ltac tip20_frames :=
  repeat match goal with
  | Hr : validate_transfer _ _ _ _ _ = (Ok _, _) |- _ =>
      apply validate_transfer_ok in Hr as (? & ? & ? & ? & ?); subst
  | Hr : validate_mint _ _ _ _ = (Ok _, _) |- _ => apply validate_mint_ok in Hr as (? & ?); subst
  | Hr : emit_hop _ _ _ _ ?st = (Ok _, ?st') |- _ =>
      try (is_var st'; destruct st' as [? ?]); apply emit_hop_world in Hr; cbn [fst snd] in Hr; subst
  end.

Ltac world_rewrite :=
  repeat first [rewrite ledger_of_ledger in * | rewrite ledger_of_auth in * | rewrite ledger_of_meta in *
               | rewrite ledger_of_keychain in * | rewrite ledger_of_code in *
               | rewrite decide_True in * by done].

Section invariants.
Context `{Primitives}.

(** A call to [self] touches no other ledger, and its own as described. *)
Lemma exec_token_ledger self m c e w l u w' l' :
  exec_token self m c e (w, l) = (Ok u, (w', l')) →
  (∀ t, t ≠ self → ledger_of w' t = ledger_of w t) ∧
  ledger_effect self m c e (ledger_of w self) (ledger_of w' self).
Proof.
  intros Hrun.
  destruct c; cbn [exec_token ledger_effect] in *; unfold discard, transfer, transfer_with_memo, transfer_from,
    transfer_from_with_memo, transfer_from_internal, system_transfer_from, approve, permit, mint, mint_with_memo,
    mint_internal, burn, burn_with_memo, burn_internal, burn_blocked, distribute_reward, set_reward_recipient,
    claim_rewards, pause, unpause, set_supply_cap, change_transfer_policy_id, set_next_quote_token,
    complete_quote_token_update, transfer_fee_pre_tx, transfer_fee_post_tx, check_role, check_not_paused,
    check_and_update_spending_limit, ensure_transfer_authorized in *.
  all: world_steps; tip20_frames; world_steps; tip20_frames; simplify_eq; cbn [fst snd] in *.
  all: split; [intros t Ht; world_rewrite; by rewrite ?decide_False by done|].
  all: world_rewrite; rewrite ?decide_True by done; unfold ledger_of in *; cbn [ledger token] in *.
  all: rinvs; ariths; bprop; unfold unpaused_t3 in *; try done.
  all: repeat match goal with
    | |- _ ∧ _ => split
    | |- ∃ _ : Recipient, _ => eexists
    | |- ∃ _ : Ledger, _ => eexists
    | |- _ → _ => intro
    | |- runs _ _ _ _ => do 3 eexists; eassumption
    | |- _ => done || eassumption || congruence
    end.
  all: try by auto.
  all: right; do 3 eexists; eassumption.
Qed.

(** ** Invariants of the reachable states *)
Definition ledgers_inv (w : World) : Prop := ∀ t, LedgerInv t (ledger_of w t).
Definition ledgers_solvent (w : World) : Prop := ∀ t, solvent t (ledger_of w t).

Lemma spend_allowance_ledger o sp n e L lg u L1 lg1 :
  spend_allowance o sp n e (L, lg) = (Ok u, (L1, lg1)) →
  L1 = L ∨ L1 = set_allowance o sp ((allowances L).[(o, sp)] - n) L.
Proof.
  intros Hrun. unfold spend_allowance, get_allowance in Hrun. minvs; rinvs; ariths; simplify_eq; auto.
Qed.

Lemma set_allowance_inv t o sp n L :
  LedgerInv t L → LedgerInv t (set_allowance o sp n L) ∧
  (solvent t L → solvent t (set_allowance o sp n L)).
Proof. intros []. split; [by constructor|done]. Qed.

Lemma LedgerInv_empty t : LedgerInv t ledger_empty.
Proof. constructor; intros; cbn; rewrite ?mread_empty; try done. Qed.

(** The call moves no reward reserve: the token contract is not the payer. *)
Definition reserves_kept (self : Address) (c : TokenCall) : Prop :=
  match c with
  | TTransferFrom f _ _ | TTransferFromWithMemo f _ _ _ | TBurnBlocked f _
  | TSystemTransferFrom f _ _ | TFeePreTx f _ => f ≠ self
  | _ => True
  end.

(** The prefix that marks tokens is on neither the zero address nor the fee manager. *)
Context (zero_not_tip20 : addr_is_tip20 ZERO = false)
        (fee_manager_not_tip20 : addr_is_tip20 TIP_FEE_MANAGER_ADDRESS = false).

Lemma ledger_effect_inv self m c e L L' :
  addr_is_tip20 self = true → external m → amounts_ok c →
  LedgerInv self L → ledger_effect self m c e L L' →
  LedgerInv self L' ∧ (solvent self L → reserves_kept self c → solvent self L').
Proof.
  intros Hself (Hm0 & Hm1 & Hm2) Hn HI Heff.
  assert (m ≠ self) as Hms by congruence.
  assert (self ≠ ZERO) as Hs0 by congruence.
  assert (self ≠ TIP_FEE_MANAGER_ADDRESS) as Hs1 by congruence.
  destruct c; cbn [ledger_effect amounts_ok reserves_kept] in *.
  - destruct Heff as (_ & r & Hr & _ & (u & lg & lg' & Hrun)).
    apply transfer_core_inv in Hrun as [? Hs]; auto.
  - destruct Heff as (_ & r & Hr & _ & (u & lg & lg' & Hrun)).
    apply transfer_core_inv in Hrun as [? Hs]; auto.
  - destruct Heff as (_ & r & L1 & Hr & _ & (u1 & lg1 & lg1' & Hrun1) & (u & lg & lg' & Hrun)).
    apply spend_allowance_ledger in Hrun1 as [->| ->];
      [|destruct (set_allowance_inv self from m ((allowances L).[(from, m)] - amount) L HI) as [HI1 Hs1']];
      apply transfer_core_inv in Hrun as [? Hs]; auto.
  - destruct Heff as (_ & r & L1 & Hr & _ & (u1 & lg1 & lg1' & Hrun1) & (u & lg & lg' & Hrun)).
    apply spend_allowance_ledger in Hrun1 as [->| ->];
      [|destruct (set_allowance_inv self from m ((allowances L).[(from, m)] - amount) L HI) as [HI1 Hs1']];
      apply transfer_core_inv in Hrun as [? Hs]; auto.
  - subst. destruct (set_allowance_inv self m spender amount L HI). auto.
  - subst. destruct HI. split; [by constructor|done].
  - destruct Heff as (_ & r' & (u & lg & lg' & Hrun)). apply mint_core_inv in Hrun as [? Hs]; auto.
  - destruct Heff as (_ & r' & (u & lg & lg' & Hrun)). apply mint_core_inv in Hrun as [? Hs]; auto.
  - destruct Heff as (_ & (u & lg & lg' & Hrun)). apply burn_core_inv in Hrun as [? Hs]; auto.
  - destruct Heff as (_ & (u & lg & lg' & Hrun)). apply burn_core_inv in Hrun as [? Hs]; auto.
  - destruct Heff as (_ & _ & _ & (u & lg & lg' & Hrun)). apply burn_core_inv in Hrun as [? Hs]; auto.
  - destruct Heff as (_ & (u & lg & lg' & Hrun)). apply distribute_core_inv in Hrun as [? Hs]; auto.
  - destruct Heff as (_ & (u & lg & lg' & Hrun)).
    apply set_recipient_core_inv in Hrun as [? Hs]; [auto|done|]. by intros [|[|]].
  - destruct Heff as (_ & (u & lg & lg' & Hrun)). apply claim_core_inv in Hrun as [? Hs]; auto.
  - subst. destruct HI. split; [by constructor|done].
  - subst. destruct HI. split; [by constructor|done].
  - destruct Heff as [? ->]. destruct HI. split; [constructor; try done; cbn; lia|done].
  - by subst.
  - by subst.
  - by subst.
  - by subst.
  - by subst.
  - by subst.
  - by subst.
  - destruct Heff as (_ & r & Hr & _ & (u & lg & lg' & Hrun)).
    apply transfer_core_inv in Hrun as [? Hs]; auto.
  - destruct Heff as (_ & (u & lg & lg' & Hrun)). apply fee_pre_core_inv in Hrun as [? Hs]; auto.
  - destruct Heff as [->|(u & lg & lg' & Hrun)]; [auto|]. apply fee_post_core_inv in Hrun as [? Hs]; auto.
Qed.

(** Creating a token resets the supply cap of that token and nothing else. *)
Lemma initialize_ledger self m nm sym cur q a e w l u w' l' :
  initialize self m nm sym cur q a e (w, l) = (Ok u, (w', l')) →
  ∀ t, ledger_of w' t = if decide (self = t) then write_supply_cap U128_MAX (ledger_of w t) else ledger_of w t.
Proof.
  intros Hrun t. unfold initialize in Hrun. world_steps. simplify_eq. world_rewrite.
  repeat case_decide; by subst.
Qed.

Lemma exec_world_ledger c e w l u w' l' :
  exec_world c e (w, l) = (Ok u, (w', l')) →
  match c with
  | WToken self m c => exec_token self m c e (w, l) = (Ok u, (w', l'))
  | WCreateToken _ _ _ _ _ _ _ | WCreateReserved _ _ _ _ _ _ =>
      ∃ self, is_tip20 w self = false ∧ addr_is_tip20 self = true ∧
        ∀ t, ledger_of w' t =
          if decide (self = t) then write_supply_cap U128_MAX (ledger_of w t) else ledger_of w t
  | _ => tokens w' = tokens w ∧ code w' = code w
  end.
Proof.
  intros Hrun. destruct c; cbn in Hrun |- *; [done|..].
  - unfold discard, create_token, from_address in Hrun. destruct (compute_tip20_address sender salt).
    minvs; rinvs; bprop; try done.
    all: match goal with Hi : initialize ?self _ _ _ _ _ _ _ _ = (_, ?st) |- _ =>
      destruct st as [w1 l1]; exists self; split; [done|]; split; [done|];
      apply (initialize_ledger _ _ _ _ _ _ _ _ _ _ _ _ _ Hi) end.
  - unfold discard, create_token_reserved_address, from_address in Hrun. minvs; rinvs; bprop; try done.
    all: match goal with Hi : initialize ?self _ _ _ _ _ _ _ _ = (_, ?st) |- _ =>
      destruct st as [w1 l1]; exists self; split; [done|]; split; [done|];
      apply (initialize_ledger _ _ _ _ _ _ _ _ _ _ _ _ _ Hi) end.
  - unfold at_policies in Hrun. minvs. by simplify_eq.
  - unfold discard, at_addresses in Hrun. minvs. by simplify_eq.
  - minvs. match goal with Hr : at_keychain _ _ _ = _ |- _ => apply at_keychain_ok in Hr as (k & _ & ->) end.
    done.
Qed.

Lemma write_cap_inv t L : LedgerInv t L → LedgerInv t (write_supply_cap U128_MAX L) ∧
  (solvent t L → solvent t (write_supply_cap U128_MAX L)).
Proof. intros []. split; [constructor; try done; cbn; lia|done]. Qed.

Lemma world_step_inv w c e l u w' l' :
  call_ok w c → exec_world c e (w, l) = (Ok u, (w', l')) → ledgers_inv w →
  ledgers_inv w' ∧
  (ledgers_solvent w → (∀ self m tc, c = WToken self m tc → reserves_kept self tc) → ledgers_solvent w').
Proof.
  intros Hok Hrun HI. pose proof (exec_world_ledger _ _ _ _ _ _ _ Hrun) as Heff. destruct c.
  - destruct Hok as (Hs & Hm & Hn). apply exec_token_ledger in Heff as [Hother Heff].
    assert (addr_is_tip20 self = true) as Hself.
    { unfold is_tip20 in Hs. by destruct (addr_is_tip20 self). }
    destruct (ledger_effect_inv _ _ _ _ _ _ Hself Hm Hn (HI self) Heff) as [HI' Hsol]. split.
    + intros t. destruct (decide (t = self)) as [->|]; [done|]. rewrite Hother by done. apply HI.
    + intros Hs0 Hk t. destruct (decide (t = self)) as [->|]; [by eauto|]. rewrite Hother by done. apply Hs0.
  - destruct Heff as (self & _ & _ & Heff). split; [|intros Hs _]; intros t; rewrite Heff;
      case_decide; try by apply HI || apply Hs. all: by apply write_cap_inv.
  - destruct Heff as (self & _ & _ & Heff). split; [|intros Hs _]; intros t; rewrite Heff;
      case_decide; try by apply HI || apply Hs. all: by apply write_cap_inv.
  - destruct Heff as [Ht _]. split; [|intros Hs _]; intros t; unfold ledger_of, token in *; rewrite Ht.
    + apply HI.
    + apply Hs.
  - destruct Heff as [Ht _]. split; [|intros Hs _]; intros t; unfold ledger_of, token in *; rewrite Ht.
    + apply HI.
    + apply Hs.
  - destruct Heff as [Ht _]. split; [|intros Hs _]; intros t; unfold ledger_of, token in *; rewrite Ht.
    + apply HI.
    + apply Hs.
Qed.

Lemma reachable_ledgers_inv w : world_reachable w → ledgers_inv w.
Proof.
  induction 1 as [|w w' e c l l' u _ IH _ Hok Hrun].
  - intros t. unfold ledger_of, token. cbn. rewrite mread_empty. apply LedgerInv_empty.
  - by eapply world_step_inv.
Qed.

(** Calls that never make a token contract pay out of its reward reserve. *)
Definition keeps_reserves (c : WorldCall) : Prop :=
  match c with WToken self _ tc => reserves_kept self tc | _ => True end.

Lemma reachable_solvent w : reach keeps_reserves w → ledgers_solvent w.
Proof.
  induction 1 as [|w w' e c l l' u Hr IH HP Hok Hrun].
  - intros t. unfold ledger_of, token. cbn. rewrite mread_empty. done.
  - eapply world_step_inv; [done..| |done|].
    + eapply reachable_ledgers_inv, reach_weaken, Hr.
    + intros self m tc ->. exact HP.
Qed.
End invariants.

(** ** Theorems on supply, rewards and transfers *)
Section theorems.
Context `{Primitives}.
Context (zero_not_tip20 : addr_is_tip20 ZERO = false)
        (fee_manager_not_tip20 : addr_is_tip20 TIP_FEE_MANAGER_ADDRESS = false).

(** C1: the supply is conserved. In every reachable state, for every token: balances
    are unsigned and add up to the total supply, which respects the cap and the
    128-bit range; and the opted-in supply is the sum of the balances of the holders
    that have a reward recipient. *)
Theorem token_supply_conserved w t :
  world_reachable w →
  let L := ledger_of w t in
  (∀ a, 0 ≤ (balances L).[a] ≤ total_supply L) ∧
  msum (λ _ b, b) (balances L) = total_supply L ∧
  total_supply L ≤ supply_cap L ≤ U128_MAX ∧
  msum (λ a b, if reward_recipient (user_reward_info L).[a] =? ZERO then 0 else b) (balances L)
    = opted_in_supply L.
Proof.
  intros Hr L.
  pose proof (reachable_ledgers_inv zero_not_tip20 fee_manager_not_tip20 w Hr t) as HI.
  fold L in HI. destruct HI as [Hbal Hsup Hcap Hopt _ _ _]. split_and!; try done; try apply Hcap.
  - intros a. split; [done|]. rewrite <- Hsup.
    pose proof (wsum_elem (λ _, 1) (balances L) a Hbal (λ _, Z.le_0_1)) as He. cbn beta in He. lia.
  - rewrite <- Hsup. apply msum_ext. intros. lia.
  - rewrite <- Hopt. apply msum_ext. intros a b _. unfold opted, recipient_of. case_match; lia.
Qed.

(** The holder's own booked reward after an update. *)
Lemma update_rewards_booked h e L lg d L' lg' :
  update_rewards h e (L, lg) = (Ok d, (L', lg')) →
  let accrued := (balances L).[h] * (global_reward_per_token L - rpt_of L h) in
  (recipient_of L h ≠ ZERO → accrued ≤ U256_MAX) ∧
  reward_balance (user_reward_info L').[h] = reward_balance (user_reward_info L).[h] +
    (if (recipient_of L h =? h) && negb (recipient_of L h =? ZERO) then accrued / ACC_PRECISION else 0).
Proof.
  intros Hrun accrued. unfold accrued. clear accrued.
  unfold update_rewards, get_user_reward_info, get_balance in Hrun.
  unfold recipient_of, rpt_of in *. minvs; cbn [fst snd] in *; rinvs; ariths; bprop.
  all: split; [intros Hz|]; try done; try congruence.
  all: try match goal with Hr : (_ ← checked_mul ?a ?b ?c; _) = Some _ |- _ =>
    destruct (checked_mul a b c) eqn:?; cbn [mbind option_bind] in Hr; [|done]; ariths; done end.
  all: try match goal with Hr : (_ ← checked_mul _ _ _; _) = Some _ |- _ => apply reward_floor in Hr end.
  all: try (cbn; rewrite mread_insert_eq; cbn; rewrite ?andb_false_r; lia).
  all: replace (global_reward_per_token L) with (reward_per_token (user_reward_info L).[h]) by lia.
  all: rewrite Z.sub_diag, Z.mul_0_r; try done.
  rewrite Z.div_0_l by done. case_match; lia.
Qed.

Lemma reward_le_owed self L a : LedgerInv self L → reward_balance (user_reward_info L).[a] ≤ rewards_owed L.
Proof.
  intros HI. apply (msum_elem_le (λ _ i, reward_balance i) (user_reward_info L) a); [|done].
  intros k i Hk. pose proof (li_reward _ _ HI k) as Hr. by rewrite (mread_lookup _ _ _ Hk) in Hr.
Qed.

(** What a solvent contract owes one account, it holds. *)
Lemma solvent_pays self L a :
  LedgerInv self L → solvent self L → reward_balance (user_reward_info L).[a] ≤ (balances L).[self].
Proof.
  intros HI Hs. pose proof (reward_le_owed self L a HI). unfold solvent in Hs. pose proof ACC_pos.
  assert (0 ≤ wsum (accruing L) (balances L)).
  { apply wsum_nonneg; [apply HI|]. intros b. by apply (accruing_nonneg self). }
  nia.
Qed.

(** [get_pending_rewards] reports the booked and the self-accrued rewards. *)
Lemma pending_spec L m :
  let accrued := (balances L).[m] * (global_reward_per_token L - rpt_of L m) in
  let total := reward_balance (user_reward_info L).[m] +
    (if (recipient_of L m =? m) && negb (recipient_of L m =? ZERO) then accrued / ACC_PRECISION else 0) in
  m ≠ ZERO → 0 ≤ (balances L).[m] → rpt_of L m ≤ global_reward_per_token L →
  (recipient_of L m ≠ ZERO → accrued ≤ U256_MAX) → total ≤ U128_MAX →
  get_pending_rewards L m = Ok total.
Proof.
  intros accrued total Hm Hb Hle Hmul Htot.
  assert (U128_MAX ≤ U256_MAX) as Huu by (unfold U128_MAX, U256_MAX; lia).
  assert (∀ v, v = total → ok_or (try_into U128_MAX v) under_overflow = Ok total) as Hfin.
  { intros v ->. unfold try_into. by rewrite (proj2 (Z.leb_le _ _) Htot). }
  unfold get_pending_rewards, get_user_reward_info, get_balance.
  fold (recipient_of L m) (rpt_of L m). unfold total in *.
  destruct (Z.eqb_spec (recipient_of L m) m) as [Hrec|Hrec]; cbn [andb] in *;
    [|cbn [mbind result_bind]; apply Hfin; lia].
  apply Z.eqb_neq in Hm as Hm'. rewrite Hrec, Hm' in *. cbn [negb] in *. specialize (Hmul Hm).
  destruct (Z.ltb_spec 0 (balances L).[m]) as [Hpos|Hpos].
  2:{ cbn [mbind result_bind]. apply Hfin. unfold accrued. replace (balances L).[m] with 0 by lia.
      cbn [Z.mul]. rewrite Z.div_0_l by done. lia. }
  unfold checked_sub. rewrite (proj2 (Z.leb_le _ _) Hle). cbn [ok_or mbind result_bind].
  destruct (Z.ltb_spec 0 (global_reward_per_token L - rpt_of L m)) as [Hd|Hd].
  2:{ cbn [mbind result_bind]. apply Hfin. unfold accrued.
      replace (global_reward_per_token L - rpt_of L m) with 0 by lia.
      rewrite Z.mul_0_r, Z.div_0_l by done. lia. }
  unfold checked_mul. fold accrued. rewrite (proj2 (Z.leb_le _ _) Hmul).
  cbn [mbind option_bind]. unfold checked_div. cbn [Z.eqb ACC_PRECISION ok_or mbind result_bind].
  unfold checked_add. rewrite (proj2 (Z.leb_le _ _)) by (unfold ACC_PRECISION in *; lia).
  cbn [ok_or mbind result_bind]. by apply Hfin.
Qed.

(** What a holder has accrued: the booked reward and, for a holder that is its own recipient, the reward
    of its balance since the last update. *)
Definition accrued_reward (L : Ledger) (m : Address) : Z :=
  reward_balance (user_reward_info L).[m] +
  (if (recipient_of L m =? m) && negb (recipient_of L m =? ZERO)
   then (balances L).[m] * (global_reward_per_token L - rpt_of L m) / ACC_PRECISION else 0).

End theorems.

Section transfer_theorems.
Context `{Primitives}.

(** The balances after [n] tokens moved. *)
Definition moved (L L' : Ledger) (from to : Address) (n : Z) : Prop :=
  n ≤ (balances L).[from] ∧ total_supply L' = total_supply L ∧
  ∀ a, (balances L').[a] = (balances L).[a] - (if decide (from = a) then n else 0)
                                           + (if decide (to = a) then n else 0).

Lemma transfer_core_moved self from r n e L L' :
  target r ≠ ZERO → runs (transfer_core self from r n) e L L' →
  moved L L' from (target r) n ∧ allowances L' = allowances L ∧ permit_nonces L' = permit_nonces L ∧
  paused L' = paused L.
Proof.
  intros Hr (u & lg & lg' & (l1 & l2 & Hs1 & Hs2 & Hn & -> & _)%transfer_core_ok).
  unfold moved, move_balance, with_ledger. destruct (Z.eqb_spec (target r) ZERO); [done|]. cbn. split_and!; try done.
  - intros a. rewrite credit_read, debit_read. lia.
  - rewrite (st_allowances _ _ _ Hs2). apply (st_allowances _ _ _ Hs1).
  - rewrite (st_nonces _ _ _ Hs2). apply (st_nonces _ _ _ Hs1).
  - rewrite (st_paused _ _ _ Hs2). apply (st_paused _ _ _ Hs1).
Qed.

(** C30: a successful [transfer] moves exactly the amount from the caller to the
    resolved recipient and touches no other balance, allowance or token; it was not
    paused, the recipient is neither zero nor a token, and the token's TIP-403 policy
    admits the sender and the recipient. *)
Theorem transfer_spec self m to n e w l b w' l' :
  transfer self m to n e (w, l) = (Ok b, (w', l')) →
  ∃ r, recipient_resolve e w to = Ok r ∧
    paused (ledger_of w self) = false ∧ target r ≠ ZERO ∧ addr_is_tip20 (target r) = false ∧
    is_transfer_authorized e w self m (target r) = Ok true ∧
    moved (ledger_of w self) (ledger_of w' self) m (target r) n ∧
    allowances (ledger_of w' self) = allowances (ledger_of w self) ∧
    (∀ t, t ≠ self → token w' t = token w t).
Proof.
  intros Hrun. unfold transfer, check_and_update_spending_limit in Hrun.
  world_steps. tip20_frames. world_steps. tip20_frames. simplify_eq. cbn [fst snd] in *.
  match goal with Hr : recipient_resolve _ _ _ = Ok ?r |- _ => exists r end.
  match goal with Ht : transfer_core _ _ _ _ _ _ = (Ok _, (?L, _)) |- _ =>
    rewrite ledger_of_keychain in Ht;
    destruct (transfer_core_moved self m a n e (ledger_of w self) L) as (Hm' & Ha & _); [done|by do 3 eexists|] end.
  rewrite ledger_of_ledger, decide_True by done. split_and!; try done.
  intros t Ht. rewrite token_write, decide_False by done. done.
Qed.

Lemma transfer_from_ok self m from to n e w l b w' l' :
  transfer_from self m from to n e (w, l) = (Ok b, (w', l')) →
  let L := ledger_of w self in let L' := ledger_of w' self in
  ∃ r, recipient_resolve e w to = Ok r ∧
    paused L = false ∧ target r ≠ ZERO ∧ is_transfer_authorized e w self from (target r) = Ok true ∧
    moved L L' from (target r) n ∧
    n ≤ (allowances L).[(from, m)] ∧
    (allowances L').[(from, m)] =
      (if (allowances L).[(from, m)] =? U256_MAX then U256_MAX else (allowances L).[(from, m)] - n) ∧
    (∀ os, os ≠ (from, m) → (allowances L').[os] = (allowances L).[os]) ∧
    (∀ t, t ≠ self → token w' t = token w t).
Proof.
  intros Hrun L L'. unfold transfer_from, transfer_from_internal in Hrun.
  world_steps. tip20_frames. world_steps. tip20_frames. simplify_eq. cbn [fst snd] in *.
  match goal with Hr : recipient_resolve _ _ _ = Ok ?r |- _ => exists r end.
  match goal with Hs : spend_allowance _ _ _ _ _ = (Ok _, (?L1, _)), Ht : transfer_core _ _ _ _ _ _ = (Ok _, (?L2, _)) |- _ =>
    rewrite ledger_of_ledger, decide_True in Ht by done;
    destruct (transfer_core_moved self from a n e L1 L2) as ((Hle & Ht' & Hb) & Ha & _); [done|by do 3 eexists|];
    rename Hs into Hsp end.
  subst L L'. rewrite ledger_of_ledger, decide_True by done. rewrite Ha.
  unfold spend_allowance, get_allowance in Hsp. minvs; rinvs; ariths; bprop; simplify_eq; cbn [fst] in *.
  - rewrite (proj2 (Z.eqb_neq _ _)) by done. cbn. rewrite mread_insert_eq.
    split_and!; try done.
    + intros os Hos. by rewrite mread_insert_ne.
    + intros t Ht. rewrite token_write, decide_False, token_write, decide_False by done. done.
  - match goal with He : _ = U256_MAX |- _ => rewrite He in * end. rewrite Z.eqb_refl.
    split_and!; try done.
    intros t Ht. rewrite token_write, decide_False, token_write, decide_False by done. done.
Qed.

(** A successful [transfer_from] moves exactly the amount and consumes exactly that
    much of the spender's allowance, unless the allowance is unlimited; every other
    allowance is unchanged, and the same pause, recipient and policy conditions
    hold. *)
Theorem transfer_from_spec self m from to n e w l b w' l' :
  transfer_from self m from to n e (w, l) = (Ok b, (w', l')) →
  let L := ledger_of w self in let L' := ledger_of w' self in
  ∃ r, recipient_resolve e w to = Ok r ∧
    paused L = false ∧ target r ≠ ZERO ∧ is_transfer_authorized e w self from (target r) = Ok true ∧
    moved L L' from (target r) n ∧
    n ≤ (allowances L).[(from, m)] ∧
    (allowances L').[(from, m)] =
      (if (allowances L).[(from, m)] =? U256_MAX then U256_MAX else (allowances L).[(from, m)] - n) ∧
    (∀ os, os ≠ (from, m) → (allowances L').[os] = (allowances L).[os]) ∧
    (∀ t, t ≠ self → token w' t = token w t).
Proof. apply transfer_from_ok. Qed.

(** C31: a paused token is frozen. On T3, while a token is paused no call to it, by
    anyone, changes any balance, the total supply, or any reward account; the one
    exception is the fee refund, which only moves tokens out of the fee manager. *)
Theorem paused_token_frozen self m c e w l u w' l' :
  is_t3 (spec e) = true → paused (ledger_of w self) = true →
  exec_token self m c e (w, l) = (Ok u, (w', l')) →
  let L := ledger_of w self in let L' := ledger_of w' self in
  (balances L' = balances L ∧ total_supply L' = total_supply L ∧ user_reward_info L' = user_reward_info L) ∨
  (∃ to n x, c = TFeePostTx to n x ∧ n ≠ 0 ∧ moved L L' TIP_FEE_MANAGER_ADDRESS to n).
Proof.
  intros HT3 Hp Hrun L L'.
  assert (∀ to x, c = TFeePostTx to 0 x → L' = L) as Hzero.
  { intros to x ->. cbn in Hrun. unfold transfer_fee_post_tx in Hrun. cbn in Hrun. minvs. by simplify_eq. }
  apply exec_token_ledger in Hrun as [_ Heff]. fold L L' in Heff, Hp.
  destruct c; cbn [ledger_effect] in Heff; unfold unpaused_t3 in Heff.
  all: try (destruct Heff as [Hf _]; specialize (Hf HT3) || idtac; congruence).
  all: try (left; rewrite Heff; done).
  - destruct Heff as [_ ->]. by left.
  - destruct Heff as [->|(u' & lg & lg' & (l1 & Hs1 & Hn & Heq & _)%fee_post_core_ok)]; [by left|].
    destruct (decide (refund = 0)) as [->|Hne]; [left; by rewrite (Hzero to actual_spending eq_refl)|].
    right. exists to, refund, actual_spending. split_and!; try done. rewrite Heq. split_and!; try done.
    intros a. cbn [balances with_ledger]. rewrite credit_read, debit_read. lia.
Qed.
End transfer_theorems.
