(* ===== verification/TIP20Admin.v ===== *)
(** * Administration of the TIP-20 tokens

    Roles ([tip20/roles.rs]), the quote-token graph ([set_next_quote_token],
    [complete_quote_token_update]), permits and the factory. *)
From Stdlib Require Import ZArith Lia String.
From stdpp Require Import base tactics option list fin_maps gmap sets strings.
From S2P Require Import Prelude Base StorageSet AddressRegistry Keychain TIP403 TIP20Ledger TIP20 TIP20Props.
Open Scope Z_scope.
Open Scope storage_scope.

Section frames.
Context `{Primitives}.

Definition auth_of (w : World) (t : Address) : RolesAuth := auth (token w t).
Definition meta_of (w : World) (t : Address) : Metadata := meta (token w t).

Lemma auth_of_ledger self L w t : auth_of (write_token self (set_ledger L (token w self)) w) t = auth_of w t.
Proof. unfold auth_of. rewrite token_write. case_decide; by subst. Qed.
Lemma auth_of_meta self r w t : auth_of (write_token self (set_meta r (token w self)) w) t = auth_of w t.
Proof. unfold auth_of. rewrite token_write. case_decide; by subst. Qed.
Lemma auth_of_auth self r w t :
  auth_of (write_token self (set_auth r (token w self)) w) t = if decide (self = t) then r else auth_of w t.
Proof. unfold auth_of. rewrite token_write. by case_decide. Qed.
Lemma auth_of_keychain k w t : auth_of (write_keychain k w) t = auth_of w t.
Proof. done. Qed.
Lemma meta_of_ledger self L w t : meta_of (write_token self (set_ledger L (token w self)) w) t = meta_of w t.
Proof. unfold meta_of. rewrite token_write. case_decide; by subst. Qed.
Lemma meta_of_auth self r w t : meta_of (write_token self (set_auth r (token w self)) w) t = meta_of w t.
Proof. unfold meta_of. rewrite token_write. case_decide; by subst. Qed.
Lemma meta_of_meta self r w t :
  meta_of (write_token self (set_meta r (token w self)) w) t = if decide (self = t) then r else meta_of w t.
Proof. unfold meta_of. rewrite token_write. by case_decide. Qed.
Lemma meta_of_keychain k w t : meta_of (write_keychain k w) t = meta_of w t.
Proof. done. Qed.
Lemma auth_of_code a w t : auth_of (write_code a w) t = auth_of w t.
Proof. done. Qed.
Lemma meta_of_code a w t : meta_of (write_code a w) t = meta_of w t.
Proof. done. Qed.

(** The role calls, on the role storage alone. *)
Definition role_call (self m : Address) (c : TokenCall) : option (M RolesAuth unit) :=
  match c with
  | TGrantRole r a => Some (grant_role self m r a)
  | TRevokeRole r a => Some (revoke_role self m r a)
  | TRenounceRole r => Some (renounce_role self m r)
  | TSetRoleAdmin r a => Some (set_role_admin self m r a)
  | _ => None
  end.

Definition meta_effect (self : Address) (c : TokenCall) (w : World) (x x' : Metadata) : Prop :=
  match c with
  | TSetNextQuoteToken q => self ≠ PATH_USD_ADDRESS ∧ is_tip20 w q = true ∧
      (currency x = USD_CURRENCY → currency (meta_of w q) = USD_CURRENCY) ∧ x' = set_next_quote q x
  | TCompleteQuoteTokenUpdate =>
      quote_walk (S (size (code w))) w self (next_quote_token x) = Ok tt ∧
      x' = set_quote_token (next_quote_token x) x
  | TChangeTransferPolicyId p => policy_exists (policies w) p = true ∧ x' = set_policy_id p x
  | _ => x' = x
  end.
End frames.

Ltac admin_rewrite :=
  repeat first [rewrite auth_of_ledger in * | rewrite auth_of_meta in * | rewrite auth_of_auth in *
    | rewrite auth_of_keychain in * | rewrite meta_of_ledger in * | rewrite meta_of_auth in *
    | rewrite meta_of_meta in * | rewrite meta_of_keychain in * | rewrite auth_of_code in *
    | rewrite meta_of_code in * | rewrite decide_True in * by done].

Section admin.
Context `{Primitives}.

(** A call to [self] changes no other token's roles and metadata, nor the code. *)
Lemma exec_token_admin self m c e w l u w' l' :
  exec_token self m c e (w, l) = (Ok u, (w', l')) →
  code w' = code w ∧
  (∀ t, t ≠ self → auth_of w' t = auth_of w t ∧ meta_of w' t = meta_of w t) ∧
  match role_call self m c with
  | Some rc => ∃ lg lg', rc e (auth_of w self, lg) = (Ok tt, (auth_of w' self, lg'))
  | None => auth_of w' self = auth_of w self
  end ∧
  meta_effect self c w (meta_of w self) (meta_of w' self).
Proof.
  intros Hrun.
  destruct c; cbn [exec_token role_call meta_effect] in *; unfold discard, transfer, transfer_with_memo, transfer_from,
    transfer_from_with_memo, transfer_from_internal, system_transfer_from, approve, permit, mint, mint_with_memo,
    mint_internal, burn, burn_with_memo, burn_internal, burn_blocked, distribute_reward, set_reward_recipient,
    claim_rewards, pause, unpause, set_supply_cap, change_transfer_policy_id, set_next_quote_token,
    complete_quote_token_update, transfer_fee_pre_tx, transfer_fee_post_tx, check_role, check_not_paused,
    check_and_update_spending_limit, ensure_transfer_authorized in *.
  all: world_steps; tip20_frames; world_steps; tip20_frames; simplify_eq; cbn [fst snd id] in *.
  all: repeat match goal with x : unit |- _ => destruct x end.
  all: split; [done|]; split; [intros t Ht; admin_rewrite; rewrite ?decide_False by done; done|].
  all: admin_rewrite; rewrite ?decide_True by done; bprop; split; try done.
  all: try (do 2 eexists; eassumption).
  all: rinvs; split_and!; try done; unfold from_address in *; rinvs; intros; simplify_eq.
  - by apply String.eqb_eq.
  - match goal with Hc : String.eqb _ _ = false |- _ => by apply String.eqb_neq in Hc end.
Qed.

(** Creating a token: fresh roles with the default admin, fresh metadata, code. *)
Lemma initialize_admin self m nm sym cur q a e w l u w' l' :
  initialize self m nm sym cur q a e (w, l) = (Ok u, (w', l')) →
  code w' = {[self]} ∪ code w ∧
  (∀ t, t ≠ self → auth_of w' t = auth_of w t ∧ meta_of w' t = meta_of w t) ∧
  auth_of w' self = write_role a DEFAULT_ADMIN_ROLE true
                      (write_role_admin UNGRANTABLE_ROLE UNGRANTABLE_ROLE (auth_of w self)) ∧
  meta_of w' self = mkMetadata nm sym cur q q 1.
Proof.
  intros Hrun. unfold initialize, initialize_roles, grant_default_admin in Hrun. world_steps. simplify_eq.
  split; [done|]. split; [intros t Ht; admin_rewrite; rewrite ?decide_False by done; done|].
  unfold auth_of, meta_of. repeat (rewrite token_write; rewrite decide_True by done). done.
Qed.

Definition quote_ok (w : World) (cur : string) (q : Address) : Prop :=
  q = ZERO ∨ q ∈ code w ∧ (cur = USD_CURRENCY → currency (meta_of w q) = USD_CURRENCY).

(** What a creation checked and did. *)
Lemma create_admin c e w l u w' l' :
  exec_world c e (w, l) = (Ok u, (w', l')) →
  match c with
  | WCreateToken _ _ _ cur q a _ | WCreateReserved _ _ _ cur q a =>
      ∃ self nm sym, addr_is_tip20 self = true ∧ self ∉ code w ∧ quote_ok w cur q ∧
        (self = PATH_USD_ADDRESS → q = ZERO) ∧
        code w' = {[self]} ∪ code w ∧
        (∀ t, t ≠ self → auth_of w' t = auth_of w t ∧ meta_of w' t = meta_of w t) ∧
        auth_of w' self = write_role a DEFAULT_ADMIN_ROLE true
                            (write_role_admin UNGRANTABLE_ROLE UNGRANTABLE_ROLE (auth_of w self)) ∧
        meta_of w' self = mkMetadata nm sym cur q q 1
  | _ => True
  end.
Proof.
  intros Hrun.
  assert (∀ t, is_tip20 w t = true → t ∈ code w) as Hcode.
  { intros t Ht. unfold is_tip20 in Ht. destruct (addr_is_tip20 t); [|done]. cbn in Ht. by bprop. }
  assert (∀ t, addr_is_tip20 t = true → is_tip20 w t = false → t ∉ code w) as Hnew.
  { intros t Ht Hn. unfold is_tip20 in Hn. rewrite Ht in Hn. cbn in Hn. by bprop. }
  destruct c; try done; cbn in Hrun; unfold discard in Hrun.
  - unfold create_token, from_address, compute_tip20_address in Hrun.
    set (lower := keccak256 (abi_encode [sender; salt]) / 2 ^ 192) in *.
    assert (RESERVED_SIZE <= lower → TIP20_PREFIX * 2 ^ 64 + lower ≠ PATH_USD_ADDRESS) as Hne.
    { unfold RESERVED_SIZE, TIP20_PREFIX, PATH_USD_ADDRESS. lia. }
    minvs; rinvs; bprop; try done.
    all: match goal with Hi : initialize ?self _ ?nm ?sym _ _ _ _ _ = (_, ?st) |- _ =>
      destruct st as [w1 l1]; apply initialize_admin in Hi; exists self, nm, sym end.
    all: split; [done|]; split; [by apply Hnew|]; split; [|split; [by intros ?%Hne|done]].
    all: right; split; [by apply Hcode|].
    all: intros ->; try done.
    match goal with Hc : String.eqb _ USD_CURRENCY = true |- _ => by apply String.eqb_eq in Hc end.
  - unfold create_token_reserved_address, from_address in Hrun. minvs; rinvs; bprop; try done.
    all: match goal with Hi : initialize ?self _ ?nm ?sym _ _ _ _ _ = (_, ?st) |- _ =>
      destruct st as [w1 l1]; apply initialize_admin in Hi; exists self, nm, sym end.
    all: split; [done|]; split; [by apply Hnew|]; split; [|split; [done|done]].
    + right. split; [by apply Hcode|]. intros _. by apply String.eqb_eq.
    + right. split; [by apply Hcode|]. intros ->. done.
    + by left.
Qed.

(** ** Roles *)
Definition holds (w : World) (t a : Address) (role : B256) : bool := has_role_internal (auth_of w t) a role.
Definition admin_of (w : World) (t : Address) (role : B256) : B256 := get_role_admin_internal (auth_of w t) role.

(** On the role storage: who may change a membership or a role's admin. *)
Lemma role_call_change self m c rc e r lg r' lg' a role :
  role_call self m c = Some rc → rc e (r, lg) = (Ok tt, (r', lg')) →
  let admin_held := has_role_internal r m (get_role_admin_internal r role) = true in
  (has_role_internal r' a role ≠ has_role_internal r a role →
     admin_held ∨ (a = m ∧ c = TRenounceRole role ∧ has_role_internal r m role = true)) ∧
  (get_role_admin_internal r' role ≠ get_role_admin_internal r role → admin_held).
Proof.
  intros Hrc Hrun admin_held. unfold admin_held. clear admin_held.
  destruct c; cbn [role_call] in Hrc; simplify_eq; unfold grant_role, revoke_role, renounce_role,
    set_role_admin, check_role_internal, has_role_internal, get_role_admin_internal in *; minvs; simplify_eq.
  all: cbn; split; rewrite ?mread_insert; try case_decide; simplify_eq; cbn; auto; try done.
Qed.

(** Roles change only by the hand of their admin. When a call to a token changes who
    holds a role, the caller held that role's admin role, or renounced a role it held
    itself; when it changes a role's admin, the caller held the current admin role. *)
Theorem role_change_authorized self m c e w l u w' l' a role :
  exec_token self m c e (w, l) = (Ok u, (w', l')) →
  (holds w' self a role ≠ holds w self a role →
     holds w self m (admin_of w self role) = true ∨
     (a = m ∧ c = TRenounceRole role ∧ holds w self m role = true)) ∧
  (admin_of w' self role ≠ admin_of w self role → holds w self m (admin_of w self role) = true).
Proof.
  intros (_ & _ & Hauth & _)%exec_token_admin. unfold holds, admin_of.
  destruct (role_call self m c) as [rc|] eqn:Hrc; [|by rewrite Hauth].
  destruct Hauth as (lg & lg' & Hrun). eapply role_call_change; eassumption.
Qed.

Record RolesInv (w : World) : Prop := {
  ri_held t a : holds w t a UNGRANTABLE_ROLE = false;
  ri_admin t : t ∈ code w → admin_of w t UNGRANTABLE_ROLE = UNGRANTABLE_ROLE;
}.

Lemma exec_token_roles_inv self m c e w l u w' l' :
  self ∈ code w → RolesInv w → exec_token self m c e (w, l) = (Ok u, (w', l')) → RolesInv w'.
Proof.
  intros Hself [Hheld Hadm] (Hcode & Hoth & Hauth & _)%exec_token_admin.
  unfold holds, admin_of in *.
  assert (∀ t, t ≠ self → auth_of w' t = auth_of w t) as Ho by (intros t Ht; by apply Hoth).
  destruct (role_call self m c) as [rc|] eqn:Hrc.
  2:{ assert (∀ t, auth_of w' t = auth_of w t) as Hall
        by (intros t; destruct (decide (t = self)) as [->|]; auto).
      split; unfold holds, admin_of; intros t; rewrite Hall; [apply Hheld|rewrite Hcode; apply Hadm]. }
  destruct Hauth as (lg & lg' & Hrun).
  pose proof (λ a, role_call_change _ _ _ _ _ _ _ _ _ a UNGRANTABLE_ROLE Hrc Hrun) as Hch. cbn in Hch.
  rewrite (Hadm self Hself), Hheld in Hch.
  split; unfold holds, admin_of.
  - intros t a. destruct (decide (t = self)) as [->|Ht]; [|rewrite Ho by done; apply Hheld].
    destruct (Hch a) as [Hc _]. rewrite Hheld in Hc.
    destruct (has_role_internal (auth_of w' self) a UNGRANTABLE_ROLE); [|done].
    destruct Hc as [?|(_ & _ & ?)]; done.
  - intros t. rewrite Hcode. intros Ht. destruct (decide (t = self)) as [->|Hne]; [|rewrite Ho by done; by apply Hadm].
    destruct (Hch ZERO) as [_ Hc]. destruct (decide (get_role_admin_internal (auth_of w' self) UNGRANTABLE_ROLE = UNGRANTABLE_ROLE));
      [done|]. by specialize (Hc ltac:(done)).
Qed.

Lemma exec_world_roles_inv c e w l u w' l' :
  call_ok w c → RolesInv w → exec_world c e (w, l) = (Ok u, (w', l')) → RolesInv w'.
Proof.
  intros Hok Hinv Hrun.
  assert (∀ a nm sym cur q admin self,
    code w' = {[self]} ∪ code w →
    (∀ t, t ≠ self → auth_of w' t = auth_of w t ∧ meta_of w' t = meta_of w t) →
    auth_of w' self = write_role admin DEFAULT_ADMIN_ROLE true
                        (write_role_admin UNGRANTABLE_ROLE UNGRANTABLE_ROLE (auth_of w self)) →
    meta_of w' self = mkMetadata nm sym cur q q a → RolesInv w') as Hcreate.
  { intros _ nm sym cur q admin self Hcode Hoth Hauth _. destruct Hinv as [Hheld Hadm].
    unfold holds, admin_of in *. split; unfold holds, admin_of.
    - intros t a. destruct (decide (t = self)) as [->|Ht]; [|rewrite (proj1 (Hoth t Ht)); apply Hheld].
      rewrite Hauth. unfold has_role_internal. cbn. rewrite mread_insert_ne by (intros [=]). apply Hheld.
    - intros t Hin. destruct (decide (t = self)) as [->|Ht].
      + rewrite Hauth. unfold get_role_admin_internal. cbn. apply mread_insert_eq.
      + rewrite (proj1 (Hoth t Ht)). apply Hadm. set_solver. }
  pose proof (create_admin _ _ _ _ _ _ _ Hrun) as Hc.
  destruct c as [self m c|s nm sym cur q a salt|ad nm sym cur q a|m c|m salt|c].
  - destruct Hok as (Ht & _ & _). eapply exec_token_roles_inv; [|done|exact Hrun].
    unfold is_tip20 in Ht. destruct (addr_is_tip20 self); [|done]. cbn in Ht. by bprop.
  - destruct Hc as (self & nm' & sym' & _ & _ & _ & _ & ? & ? & ? & ?). eauto.
  - destruct Hc as (self & nm' & sym' & _ & _ & _ & _ & ? & ? & ? & ?). eauto.
  - cbn in Hrun. unfold at_policies in Hrun. minvs; simplify_eq. by destruct Hinv; split.
  - cbn in Hrun. unfold discard, at_addresses in Hrun. minvs; simplify_eq. by destruct Hinv; split.
  - cbn in Hrun. world_steps. by destruct Hinv; split.
Qed.

(** The ungrantable role is never held. In every reachable state no account holds
    [UNGRANTABLE_ROLE] on any token, and on every deployed token it is its own admin:
    no sequence of calls can hand it out, nor any role moved under its administration. *)
Theorem ungrantable_role_never_held w t a :
  world_reachable w →
  holds w t a UNGRANTABLE_ROLE = false ∧
  (t ∈ code w → admin_of w t UNGRANTABLE_ROLE = UNGRANTABLE_ROLE).
Proof.
  intros Hr. enough (RolesInv w) as [Hh Ha] by (split; [apply Hh|apply Ha]).
  induction Hr as [|w w' e c l l' u _ IH _ Hok Hrun].
  - split; intros ?; [|set_solver]. intros ?. done.
  - by eapply exec_world_roles_inv.
Qed.

(** ** Allowances and permits *)
Definition keeps_allowances (L L' : Ledger) : Prop :=
  allowances L' = allowances L ∧ permit_nonces L' = permit_nonces L.

Lemma settled_keeps h L L' : settled h L L' → keeps_allowances L L'.
Proof. intros Hs. split; [apply (st_allowances _ _ _ Hs)|apply (st_nonces _ _ _ Hs)]. Qed.

Global Instance keeps_allowances_preorder : PreOrder keeps_allowances.
Proof. split; [by intros L|]. intros L1 L2 L3 [] []. split; congruence. Qed.

Lemma transfer_core_keeps self f r n e L lg u L' lg' :
  transfer_core self f r n e (L, lg) = (Ok u, (L', lg')) → keeps_allowances L L'.
Proof.
  intros (l1 & l2 & Hs1%settled_keeps & Hs2%settled_keeps & _ & -> & _)%transfer_core_ok.
  transitivity l1; [done|]. by transitivity l2.
Qed.

(** Only approvals, permits and delegated transfers touch the allowances. *)
Lemma ledger_effect_keeps self m c e L L' :
  ledger_effect self m c e L L' →
  match c with
  | TApprove _ _ | TPermit _ _ _ _ _ _ _ | TTransferFrom _ _ _ | TTransferFromWithMemo _ _ _ _ => True
  | _ => keeps_allowances L L'
  end.
Proof.
  destruct c; cbn [ledger_effect]; unfold runs; intros Heff; try done.
  all: repeat match goal with
    | Hw : _ ∧ _ |- _ => destruct Hw
    | Hw : ∃ _, _ |- _ => destruct Hw
    | Hw : _ ∨ _ |- _ => destruct Hw
    end; subst; try done.
  all: try (eapply transfer_core_keeps; eassumption).
  all: match goal with
    | Hr : mint_core _ _ _ _ _ = _ |- _ => apply mint_core_ok in Hr as (l1 & Hs%settled_keeps & _ & -> & _); done
    | Hr : burn_core _ _ _ _ _ = _ |- _ =>
        apply burn_core_ok in Hr as (l1 & l2 & Hs%settled_keeps & Hs2%settled_keeps & _ & _ & -> & _);
        transitivity l1; [done|]; by transitivity l2
    | Hr : distribute_core _ _ _ _ _ = _ |- _ =>
        apply distribute_core_ok in Hr as (l1 & lg1 & Hs%transfer_core_keeps & _ & ->); by transitivity l1
    | Hr : set_reward_recipient_core _ _ _ _ _ = _ |- _ =>
        apply set_recipient_core_ok in Hr as (l1 & Hs%settled_keeps & ->); done
    | Hr : claim_core _ _ _ _ = _ |- _ =>
        apply claim_core_ok in Hr as (l1 & Hs%settled_keeps & _ & _ & ->); cbv zeta; by case_match
    | Hr : fee_pre_core _ _ _ _ _ _ = _ |- _ => apply fee_pre_core_ok in Hr as (l1 & Hs%settled_keeps & _ & -> & _); done
    | Hr : fee_post_core _ _ _ _ _ = _ |- _ => apply fee_post_core_ok in Hr as (l1 & Hs%settled_keeps & _ & -> & _); done
    end.
Qed.

Lemma permit_ok self o sp va d v r s e w l u w' l' :
  permit self o sp va d v r s e (w, l) = (Ok u, (w', l')) →
  timestamp e ≤ d ∧
  recover_signer (permit_digest e w self o sp va (permit_nonces (ledger_of w self)).[o] d) v r s = Some o.
Proof.
  intros Hrun. unfold permit in Hrun. world_steps. rinvs. bprop. subst. split; [lia|]. done.
Qed.

Lemma spend_allowance_ok o sp n e L lg u L1 lg1 :
  spend_allowance o sp n e (L, lg) = (Ok u, (L1, lg1)) →
  n ≤ (allowances L).[(o, sp)] ∧ permit_nonces L1 = permit_nonces L ∧
  (L1 = L ∧ (allowances L).[(o, sp)] = U256_MAX ∨
   allowances L1 = <[(o, sp):=(allowances L).[(o, sp)] - n]> (allowances L)).
Proof.
  intros Hrun. unfold spend_allowance, get_allowance in Hrun. minvs; rinvs; ariths; bprop; simplify_eq; auto.
Qed.

(** C25: An allowance changes only by its owner's will. When a call to a token changes what
    [sp] may spend of [o]'s tokens, then [o] itself called [approve], or the call is a
    permit in time whose signature recovers to [o] over the current permit nonce, which
    the call uses up, or [sp] itself spent that much by [transferFrom]. *)
Theorem allowance_change_authorized self m c e w l u w' l' o sp :
  exec_token self m c e (w, l) = (Ok u, (w', l')) →
  let L := ledger_of w self in let L' := ledger_of w' self in
  (allowances L').[(o, sp)] ≠ (allowances L).[(o, sp)] →
  (m = o ∧ c = TApprove sp (allowances L').[(o, sp)]) ∨
  (∃ d v r s, c = TPermit o sp (allowances L').[(o, sp)] d v r s ∧ timestamp e ≤ d ∧
     recover_signer (permit_digest e w self o sp (allowances L').[(o, sp)] (permit_nonces L).[o] d) v r s = Some o ∧
     (permit_nonces L').[o] = (permit_nonces L).[o] + 1) ∨
  (m = sp ∧ ∃ to n, (c = TTransferFrom o to n ∨ ∃ memo, c = TTransferFromWithMemo o to n memo) ∧
     n ≤ (allowances L).[(o, sp)] ∧ (allowances L').[(o, sp)] = (allowances L).[(o, sp)] - n).
Proof.
  intros Hrun L L' Hne.
  assert (match c with TPermit o sp va d v r s => timestamp e ≤ d ∧
    recover_signer (permit_digest e w self o sp va (permit_nonces L).[o] d) v r s = Some o | _ => True end) as Hperm.
  { destruct c; try done. by eapply permit_ok. }
  apply exec_token_ledger in Hrun as [_ Heff]. fold L L' in Heff.
  pose proof (ledger_effect_keeps _ _ _ _ _ _ Heff) as Hk.
  assert (∀ f n, (∃ r L1, target r ≠ ZERO ∧ addr_is_tip20 (target r) = false ∧
      runs (spend_allowance f m n) e L L1 ∧ runs (transfer_core self f r n) e L1 L') →
      f = o ∧ m = sp ∧ n ≤ (allowances L).[(o, sp)] ∧ (allowances L').[(o, sp)] = (allowances L).[(o, sp)] - n) as Hspend.
  { intros f n (rc & L1 & _ & _ & (u1 & lg1 & lg2 & Hs) & (u2 & lg3 & lg4 & [Ha _]%transfer_core_keeps)).
    rewrite Ha in *. apply spend_allowance_ok in Hs as (Hle & _ & [[-> _]|Hs]); [done|]. rewrite Hs in *.
    destruct (decide ((f, m) = (o, sp))) as [[= -> ->]|Hd]; [|by rewrite mread_insert_ne in Hne by done].
    by rewrite mread_insert_eq. }
  destruct c; try (destruct Hk as [Hk _]; by rewrite Hk in Hne); cbn [ledger_effect] in Heff.
  - destruct Heff as [_ Hs]. destruct (Hspend from amount Hs) as (-> & -> & ? & ?).
    right. right. split; [done|]. exists to, amount. auto.
  - destruct Heff as [_ Hs]. destruct (Hspend from amount Hs) as (-> & -> & ? & ?).
    right. right. split; [done|]. exists to, amount. eauto 6.
  - left. rewrite Heff in *. cbn in *.
    destruct (decide ((m, spender) = (o, sp))) as [[= -> ->]|Hd]; [|by rewrite mread_insert_ne in Hne by done].
    by rewrite mread_insert_eq.
  - right. left. destruct Hperm as [Hd Hrec]. rewrite Heff in *. cbn in *.
    destruct (decide ((owner, spender) = (o, sp))) as [[= -> ->]|Hdd]; [|by rewrite mread_insert_ne in Hne by done].
    rewrite mread_insert_eq. exists deadline, v, r, s. split_and!; try done. apply mread_insert_eq.
Qed.
End admin.
