(* ===== verification/TIP20Quotes.v ===== *)
(** * The quote-token graph of the TIP-20 tokens

    Each token names a quote token ([quote_token]); updates go through
    [set_next_quote_token] and [complete_quote_token_update], which walks the chain
    to look for a cycle.  The chain of every reachable token ends, and the walk
    always terminates. *)
From Stdlib Require Import ZArith Lia String.
From stdpp Require Import base tactics option list fin_maps gmap sets strings.
From S2P Require Import Prelude Base StorageSet AddressRegistry Keychain TIP403 TIP20Ledger TIP20 TIP20Props TIP20Admin.
Open Scope Z_scope.
Open Scope storage_scope.

(** ** Chains that end at the zero address *)
Section chains.
Implicit Types (f g : Address → Address).

Inductive grounded f : Address → Prop :=
| Grounded_zero : grounded f ZERO
| Grounded_next t : grounded f (f t) → grounded f t.

(** Redirecting one node to a grounded one keeps every chain grounded. *)
Lemma grounded_redirect f g s t :
  (∀ x, x ≠ s → g x = f x) → grounded g (g s) → grounded f t → grounded g t.
Proof.
  intros Hfg Hs. induction 1 as [|t _ IH]; [constructor|].
  constructor. destruct (decide (t = s)) as [->|Ht]; [done|]. by rewrite Hfg.
Qed.

Lemma grounded_ext f g t : (∀ x, g x = f x) → grounded f t → grounded g t.
Proof. intros Hfg. induction 1 as [|t _ IH]; [constructor|]. constructor. by rewrite Hfg. Qed.

(** Adding a node that no chain points to keeps the other chains. *)
Lemma grounded_fresh f g s t :
  (∀ x, x ≠ s → g x = f x) → (∀ x, x ≠ s → f x ≠ s) → t ≠ s → grounded f t → grounded g t.
Proof.
  intros Hfg Hf Hts. induction 1 as [|t _ IH]; [constructor|].
  constructor. rewrite Hfg by done. auto.
Qed.

Lemma iter_zero f n : f ZERO = ZERO → Nat.iter n f ZERO = ZERO.
Proof. intros Hz. induction n as [|n IH]; [done|]. by rewrite Nat.iter_succ, IH. Qed.

(** A grounded chain never comes back to a nonzero node. *)
Lemma grounded_acyclic f t n :
  f ZERO = ZERO → grounded f t → (0 < n)%nat → t ≠ ZERO → Nat.iter n f t ≠ t.
Proof.
  intros Hz Hg Hn Ht. revert n Hn. induction Hg as [|t Hg IH]; [done|]. intros n Hn Heq.
  destruct (decide (f t = ZERO)) as [Hft|Hft].
  - destruct n as [|n]; [lia|]. rewrite Nat.iter_succ_r, Hft, iter_zero in Heq by done. done.
  - apply (IH Hft n Hn). rewrite Nat.iter_swap. by rewrite Heq.
Qed.

(** The first nodes of a grounded chain, as long as they are nonzero, are distinct. *)
Lemma chain_nodup f t n :
  f ZERO = ZERO → (∀ x, grounded f x) → (∀ i, (i < n)%nat → Nat.iter i f t ≠ ZERO) →
  NoDup (map (λ i, Nat.iter i f t) (seq 0 n)).
Proof.
  intros Hz Hg Hnz. apply NoDup_fmap_2_strong; [|apply NoDup_seq].
  assert (∀ i j, (i < j)%nat → (j < n)%nat → Nat.iter i f t ≠ Nat.iter j f t) as Hlt.
  { intros i j Hij Hj Heq. replace j with (j - i + i)%nat in Heq by lia. rewrite Nat.iter_add in Heq.
    symmetry in Heq. revert Heq. apply grounded_acyclic; [done|apply Hg|lia|apply Hnz; lia]. }
  intros i j Hi%elem_of_seq Hj%elem_of_seq Heq.
  destruct (Nat.lt_trichotomy i j) as [Hl|[->|Hl]]; [|done|]; exfalso.
  - apply (Hlt i j); [lia..|done].
  - apply (Hlt j i); [lia..|done].
Qed.
End chains.

Section quotes.
Context `{Primitives}.
Context (zero_not_tip20 : addr_is_tip20 ZERO = false).

Definition quote_of (w : World) (t : Address) : Address := quote_token (meta_of w t).
Definition next_quote_of (w : World) (t : Address) : Address := next_quote_token (meta_of w t).
Definition currency_of (w : World) (t : Address) : string := currency (meta_of w t).

Record QuoteInv (w : World) : Prop := {
  qi_code t : t ∈ code w → addr_is_tip20 t = true;
  qi_fresh t : t ∉ code w → quote_of w t = ZERO ∧ next_quote_of w t = ZERO;
  qi_quote t : quote_ok w (currency_of w t) (quote_of w t);
  qi_next t : quote_ok w (currency_of w t) (next_quote_of w t);
  qi_path_usd : quote_of w PATH_USD_ADDRESS = ZERO ∧ next_quote_of w PATH_USD_ADDRESS = ZERO;
  qi_grounded t : grounded (quote_of w) t;
}.

Lemma is_tip20_code w t : is_tip20 w t = true → addr_is_tip20 t = true ∧ t ∈ code w.
Proof. unfold is_tip20. destruct (addr_is_tip20 t); cbn; [|done]. intros Ht. by bprop. Qed.

Lemma qi_zero w : QuoteInv w → ZERO ∉ code w ∧ quote_of w ZERO = ZERO.
Proof.
  intros HI. assert (ZERO ∉ code w) as Hz by (intros Hc%(qi_code _ HI); congruence).
  split; [done|]. by apply (qi_fresh _ HI).
Qed.

Lemma QuoteInv_empty : QuoteInv world_empty.
Proof.
  split; try done; try (intros; by left). intros t. apply Grounded_next. constructor.
Qed.

(** A state that differs in neither code nor metadata. *)
Lemma QuoteInv_same w w' :
  code w' = code w → (∀ t, meta_of w' t = meta_of w t) → QuoteInv w → QuoteInv w'.
Proof.
  intros Hc Hm [Hcode Hfresh Hq Hn Hp Hg].
  assert (∀ t, quote_of w' t = quote_of w t) as Hqo by (intros; unfold quote_of; by rewrite Hm).
  split; unfold quote_of, next_quote_of, currency_of, quote_ok in *; rewrite ?Hc; intros; rewrite ?Hm; auto.
  eapply grounded_ext, Hg. intros x. by rewrite Hm.
Qed.

(** A walk that succeeds found a grounded chain, also once [self] is redirected. *)
Lemma quote_walk_grounded fuel w g self cur :
  QuoteInv w → (∀ x, x ≠ self → g x = quote_of w x) → self ≠ PATH_USD_ADDRESS →
  quote_walk fuel w self cur = Ok tt → grounded g cur.
Proof.
  intros HI Hg Hself. revert cur. induction fuel as [|fuel IH]; intros cur; cbn;
    (destruct (Z.eqb_spec cur PATH_USD_ADDRESS) as [->|Hp];
     [intros _; apply Grounded_next; rewrite Hg by done; rewrite (proj1 (qi_path_usd _ HI)); constructor|]);
    (destruct (Z.eqb_spec cur self) as [->|Hs]; [done|]); [done|].
  unfold from_address. destruct (addr_is_tip20 cur); [|done]. cbn. intros Hw%IH.
  apply Grounded_next. by rewrite Hg.
Qed.

(** The fuel of the walk is enough: it visits distinct deployed tokens. *)
Lemma quote_walk_visits fuel w self cur :
  QuoteInv w → (cur = ZERO ∨ cur ∈ code w) → quote_walk fuel w self cur = Err OutOfGas →
  ∀ i, (i < fuel)%nat → Nat.iter i (quote_of w) cur ∈ code w.
Proof.
  intros HI. revert cur. induction fuel as [|fuel IH]; intros cur Hcur; cbn; [lia|].
  destruct (Z.eqb_spec cur PATH_USD_ADDRESS); [done|]. destruct (Z.eqb_spec cur self); [done|].
  unfold from_address. destruct (addr_is_tip20 cur) eqn:Ht; [|done]. cbn. intros Hw i Hi.
  assert (cur ∈ code w) as Hin by (destruct Hcur as [->|]; [congruence|done]).
  destruct i as [|i]; [done|]. rewrite Nat.iter_succ_r. apply IH; [|done|lia].
  destruct (qi_quote _ HI cur) as [?|[? _]]; auto.
Qed.

Lemma quote_walk_terminates w self cur :
  QuoteInv w → (cur = ZERO ∨ cur ∈ code w) → quote_walk (S (size (code w))) w self cur ≠ Err OutOfGas.
Proof.
  intros HI Hcur Hw. pose proof (quote_walk_visits _ _ _ _ HI Hcur Hw) as Hin.
  destruct (qi_zero _ HI) as [Hz1 Hz2].
  pose proof (chain_nodup (quote_of w) cur (S (size (code w))) Hz2 (qi_grounded _ HI)) as Hnd.
  specialize (Hnd ltac:(intros i Hi Hi0; apply Hz1; rewrite <- Hi0; auto)).
  assert (list_to_set (map (λ i, Nat.iter i (quote_of w) cur) (seq 0 (S (size (code w))))) ⊆ code w) as Hsub.
  { intros x (i & -> & Hi%elem_of_seq)%elem_of_list_to_set%list_elem_of_fmap. apply Hin. lia. }
  apply subseteq_size in Hsub. rewrite size_list_to_set in Hsub by done.
  rewrite length_map, length_seq in Hsub. lia.
Qed.

(** What the walk decides. *)
Definition chain_clear (w : World) (self cur : Address) (n : nat) : Prop :=
  Nat.iter n (quote_of w) cur = PATH_USD_ADDRESS ∧
  ∀ i, (i < n)%nat → Nat.iter i (quote_of w) cur ≠ self ∧ addr_is_tip20 (Nat.iter i (quote_of w) cur) = true.

Lemma chain_clear_next w self cur n :
  cur ≠ self → addr_is_tip20 cur = true → chain_clear w self (quote_of w cur) n ↔ chain_clear w self cur (S n).
Proof.
  intros Hne Ht. unfold chain_clear. rewrite Nat.iter_succ_r. split; intros [He Hi]; (split; [done|]); intros i Hlt.
  - destruct i as [|i]; [done|]. rewrite Nat.iter_succ_r. apply Hi. lia.
  - rewrite <- Nat.iter_succ_r. apply Hi. lia.
Qed.

Lemma quote_walk_clear fuel w self cur : quote_walk fuel w self cur = Ok tt → ∃ n, chain_clear w self cur n.
Proof.
  revert cur. induction fuel as [|fuel IH]; intros cur; cbn;
    (destruct (Z.eqb_spec cur PATH_USD_ADDRESS) as [->|Hp]; [intros _; exists 0%nat; split; [done|lia]|]);
    (destruct (Z.eqb_spec cur self) as [->|Hs]; [done|]); [done|].
  unfold from_address. destruct (addr_is_tip20 cur) eqn:Ht; [|done]. cbn. intros [n Hn]%IH.
  exists (S n). by apply chain_clear_next.
Qed.

Lemma clear_quote_walk fuel w self cur n :
  chain_clear w self cur n → quote_walk fuel w self cur = Ok tt ∨ quote_walk fuel w self cur = Err OutOfGas.
Proof.
  revert cur n. induction fuel as [|fuel IH]; intros cur n Hc; cbn;
    destruct (Z.eqb_spec cur PATH_USD_ADDRESS) as [->|Hp]; auto;
    (destruct n as [|n]; [by destruct Hc as [? _]|]); destruct (proj2 Hc 0%nat ltac:(lia)) as [Hs Ht]; cbn in Hs, Ht;
    (destruct (Z.eqb_spec cur self) as [|_]; [done|]); auto.
  unfold from_address. rewrite Ht. cbn. apply (IH _ n). by apply chain_clear_next.
Qed.

(** ** Preservation *)
Lemma quote_ok_grow w w' cur q :
  code w ⊆ code w' → (∀ t, t ∈ code w → currency_of w' t = currency_of w t) →
  quote_ok w cur q → quote_ok w' cur q.
Proof.
  intros Hc Hcur [?|[Hq Hu]]; [by left|right]. split; [set_solver|].
  intros Hu'. fold (currency_of w' q). rewrite Hcur by done. by apply Hu.
Qed.

(** Writing the metadata of a deployed token, the currency unchanged. *)
Lemma QuoteInv_write w w' self :
  QuoteInv w → self ∈ code w → code w' = code w →
  (∀ t, t ≠ self → meta_of w' t = meta_of w t) → currency_of w' self = currency_of w self →
  quote_ok w (currency_of w self) (quote_of w' self) →
  quote_ok w (currency_of w self) (next_quote_of w' self) →
  (self = PATH_USD_ADDRESS → quote_of w' self = ZERO ∧ next_quote_of w' self = ZERO) →
  grounded (quote_of w') (quote_of w' self) →
  QuoteInv w'.
Proof.
  intros HI Hself Hcode Hoth Hcur Hq Hn Hp Hg.
  assert (∀ t, currency_of w' t = currency_of w t) as Hcur'.
  { intros t. destruct (decide (t = self)) as [->|Ht]; [done|]. unfold currency_of. by rewrite Hoth. }
  assert (∀ cur q, quote_ok w cur q → quote_ok w' cur q) as Hgrow.
  { intros cur q. apply quote_ok_grow; [by rewrite Hcode|auto]. }
  assert (∀ t, t ≠ self → quote_of w' t = quote_of w t ∧ next_quote_of w' t = next_quote_of w t) as Hoq.
  { intros t Ht. unfold quote_of, next_quote_of. by rewrite Hoth. }
  split.
  - intros t. rewrite Hcode. apply (qi_code _ HI).
  - intros t. rewrite Hcode. intros Ht. destruct (Hoq t) as [-> ->]; [congruence|]. by apply (qi_fresh _ HI).
  - intros t. rewrite Hcur'. apply Hgrow. destruct (decide (t = self)) as [->|Ht]; [done|].
    rewrite (proj1 (Hoq t Ht)). apply (qi_quote _ HI).
  - intros t. rewrite Hcur'. apply Hgrow. destruct (decide (t = self)) as [->|Ht]; [done|].
    rewrite (proj2 (Hoq t Ht)). apply (qi_next _ HI).
  - destruct (decide (PATH_USD_ADDRESS = self)) as [He|Ht]; [rewrite He; by apply Hp|].
    destruct (Hoq _ Ht) as [-> ->]. apply (qi_path_usd _ HI).
  - intros t. apply (grounded_redirect (quote_of w) _ self); [|done|apply (qi_grounded _ HI)].
    intros x Hx. by apply Hoq.
Qed.

Lemma exec_token_quote_inv self m c e w l u w' l' :
  self ∈ code w → QuoteInv w → exec_token self m c e (w, l) = (Ok u, (w', l')) → QuoteInv w'.
Proof.
  intros Hself HI (Hcode & Hoth & _ & Heff)%exec_token_admin.
  assert (∀ t, t ≠ self → meta_of w' t = meta_of w t) as Ho by (intros t Ht; by apply Hoth).
  assert (meta_of w' self = meta_of w self → QuoteInv w') as Hsame.
  { intros Hs. apply (QuoteInv_same w); [done| |done].
    intros t. destruct (decide (t = self)) as [->|]; auto. }
  assert (quote_of w' self = quote_of w self → grounded (quote_of w') (quote_of w' self)) as Hkeep.
  { intros Hk. eapply grounded_ext, (qi_grounded _ HI). intros x.
    destruct (decide (x = self)) as [->|Hx]; [done|]. unfold quote_of. by rewrite Ho. }
  pose proof (qi_quote _ HI self) as Hq. pose proof (qi_next _ HI self) as Hn.
  pose proof (qi_path_usd _ HI) as Hp.
  destruct c; cbn [meta_effect] in Heff; try by apply Hsame.
  - destruct Heff as (_ & Hm). apply (QuoteInv_write w w' self); try done; try apply Hkeep;
      unfold quote_of, next_quote_of, currency_of in *; rewrite Hm; try done. by intros ->.
  - destruct Heff as (Hne & [_ Hin]%is_tip20_code & Hu & Hm).
    apply (QuoteInv_write w w' self); try done; try apply Hkeep;
      unfold quote_of, next_quote_of, currency_of in *; rewrite Hm; try done. by right.
  - destruct Heff as (Hw & Hm).
    assert (self ≠ PATH_USD_ADDRESS) as Hne.
    { intros ->. unfold next_quote_of in Hp. rewrite (proj2 Hp) in Hw. cbn in Hw.
      unfold from_address in Hw. by rewrite zero_not_tip20 in Hw. }
    apply (QuoteInv_write w w' self); try done.
    1-3: unfold quote_of, next_quote_of, currency_of in *; by rewrite Hm.
    unfold quote_of at 2. rewrite Hm. cbn. eapply quote_walk_grounded; [done| |done|exact Hw].
    intros x Hx. unfold quote_of. by rewrite Ho.
Qed.

(** Creating a token on a fresh address. *)
Lemma QuoteInv_create w w' self nm sym cur q p :
  QuoteInv w → addr_is_tip20 self = true → self ∉ code w → quote_ok w cur q →
  (self = PATH_USD_ADDRESS → q = ZERO) → code w' = {[self]} ∪ code w →
  (∀ t, t ≠ self → meta_of w' t = meta_of w t) → meta_of w' self = mkMetadata nm sym cur q q p →
  QuoteInv w'.
Proof.
  intros HI Hself Hfresh Hq Hp Hcode Ho Hm.
  assert (∀ cur q, quote_ok w cur q → quote_ok w' cur q) as Hgrow.
  { intros cur' q'. apply quote_ok_grow; [set_solver|]. intros t Ht. unfold currency_of.
    rewrite Ho; [done|]. by intros ->. }
  assert (quote_of w' self = q ∧ next_quote_of w' self = q ∧ currency_of w' self = cur) as (Hq1 & Hq2 & Hq3)
    by (unfold quote_of, next_quote_of, currency_of; by rewrite Hm).
  assert (∀ t, t ≠ self → quote_of w' t = quote_of w t) as Hqo by (intros; unfold quote_of; by rewrite Ho).
  assert (self ≠ ZERO) as Hz by congruence.
  assert (∀ cur' q', quote_ok w cur' q' → q' ≠ self) as Hnself
    by (intros cur' q' [->|[? _]]; congruence).
  assert (∀ t, t ≠ self → grounded (quote_of w') t) as Hg.
  { intros t Ht. apply (grounded_fresh (quote_of w) _ self); [done| |done|apply (qi_grounded _ HI)].
    intros x _. eapply Hnself, (qi_quote _ HI). }
  split.
  - intros t. rewrite Hcode, elem_of_union, elem_of_singleton. intros [->|]; [done|by apply (qi_code _ HI)].
  - intros t Ht. rewrite Hcode in Ht. unfold quote_of, next_quote_of. rewrite Ho by set_solver.
    apply (qi_fresh _ HI). set_solver.
  - intros t. apply Hgrow. destruct (decide (t = self)) as [->|Ht]; [by rewrite Hq1, Hq3|].
    rewrite Hqo by done. unfold currency_of. rewrite Ho by done. apply (qi_quote _ HI).
  - intros t. apply Hgrow. destruct (decide (t = self)) as [->|Ht]; [by rewrite Hq2, Hq3|].
    unfold currency_of, next_quote_of. rewrite Ho by done. apply (qi_next _ HI).
  - destruct (decide (PATH_USD_ADDRESS = self)) as [He|Ht].
    + rewrite He, Hq1, Hq2. by rewrite Hp.
    + rewrite Hqo by done. unfold next_quote_of. rewrite Ho by done. apply (qi_path_usd _ HI).
  - intros t. destruct (decide (t = self)) as [->|Ht]; [|by apply Hg].
    apply Grounded_next. rewrite Hq1. eapply Hg, Hnself, Hq.
Qed.

Lemma reachable_quote_inv w : world_reachable w → QuoteInv w.
Proof.
  induction 1 as [|w w' e c l l' u _ IH _ Hok Hrun]; [apply QuoteInv_empty|].
  pose proof (create_admin _ _ _ _ _ _ _ Hrun) as Hc.
  destruct c as [self m c|s nm sym cur q a salt|ad nm sym cur q a|m c|m salt|c].
  - destruct Hok as ([_ ?]%is_tip20_code & _ & _). by eapply exec_token_quote_inv.
  - destruct Hc as (self & nm' & sym' & ? & ? & ? & ? & ? & Ho & _ & ?). eapply QuoteInv_create; try done.
    intros; by apply Ho.
  - destruct Hc as (self & nm' & sym' & ? & ? & ? & ? & ? & Ho & _ & ?). eapply QuoteInv_create; try done.
    intros; by apply Ho.
  - cbn in Hrun. unfold at_policies in Hrun. minvs; simplify_eq. by apply (QuoteInv_same w).
  - cbn in Hrun. unfold discard, at_addresses in Hrun. minvs; simplify_eq. by apply (QuoteInv_same w).
  - cbn in Hrun. world_steps. by apply (QuoteInv_same w).
Qed.

(** C32: the quote tokens form a forest. In every reachable state a token's quote token
    is absent or a deployed token, following quotes never comes back to where it
    started, and a USD token is only ever quoted in USD tokens. *)
Theorem quote_graph_acyclic w t :
  world_reachable w →
  (quote_of w t = ZERO ∨ quote_of w t ∈ code w) ∧
  (∀ n, (0 < n)%nat → t ≠ ZERO → Nat.iter n (quote_of w) t ≠ t) ∧
  (currency_of w t = USD_CURRENCY → quote_of w t = ZERO ∨ currency_of w (quote_of w t) = USD_CURRENCY).
Proof.
  intros HI%reachable_quote_inv. pose proof (qi_quote _ HI t) as Hq. split_and!.
  - destruct Hq as [?|[? _]]; auto.
  - intros n. apply grounded_acyclic; [apply (qi_zero _ HI)|apply (qi_grounded _ HI)].
  - intros Hu. destruct Hq as [?|[_ Hq]]; auto.
Qed.

(** The cycle check of [complete_quote_token_update] always ends. In a reachable
    state the walk visits each deployed token at most once, so the call returns within
    as many iterations as there are tokens; it succeeds exactly when the caller is the
    admin and the chain of the announced token ends at PATH_USD without meeting the
    token itself. *)
Theorem quote_update_terminates w self m e l :
  world_reachable w →
  (complete_quote_token_update self m e (w, l)).1 ≠ Err OutOfGas ∧
  (is_ok (complete_quote_token_update self m e (w, l)).1 = true ↔
   holds w self m DEFAULT_ADMIN_ROLE = true ∧
   ∃ n, chain_clear w self (next_quote_of w self) n).
Proof.
  intros HI%reachable_quote_inv.
  assert (next_quote_of w self = ZERO ∨ next_quote_of w self ∈ code w) as Hnext
    by (destruct (qi_next _ HI self) as [?|[? _]]; auto).
  pose proof (quote_walk_terminates w self _ HI Hnext) as Hfuel.
  set (walk := quote_walk (S (size (code w))) w self (next_quote_of w self)) in *.
  assert ((complete_quote_token_update self m e (w, l)).1 =
    if holds w self m DEFAULT_ADMIN_ROLE then walk else Err (RolesAuthError RolesAuthError.Unauthorized)) as ->.
  { unfold holds, auth_of. cbv beta iota delta [complete_quote_token_update check_role mbind M_bind gets id
      require throw mret M_ret lift fst snd].
    destruct (has_role_internal _ m _); [|done].
    change (next_quote_token (meta (token w self))) with (next_quote_of w self). fold walk.
    destruct walk as [[]|]; done. }
  destruct (holds w self m DEFAULT_ADMIN_ROLE); [|split; [done|]; split; [done|by intros [? _]]].
  split; [done|]. split.
  - intros Hok. split; [done|]. destruct walk as [[]|] eqn:Hw; [|done]. by eapply quote_walk_clear.
  - intros [_ [n Hn]]. destruct (clear_quote_walk (S (size (code w))) _ _ _ _ Hn) as [Hw|Hw]; fold walk in Hw; [|done].
    by rewrite Hw.
Qed.
End quotes.
