(* ===== verification/TIP20Runs.v ===== *)
(** * Concrete runs of the TIP-20 tokens

    A small history (two tokens, a mint, transfers, rewards, a pause) on which the
    theorems about the tokens are applied. *)
From Stdlib Require Import ZArith Lia String.
From stdpp Require Import base tactics option list fin_maps gmap sets strings.
From S2P Require Import Prelude Base StorageSet AddressRegistry Keychain TIP403 TIP20Ledger TIP20 TIP20Props TIP20Admin TIP20Quotes.
Open Scope Z_scope.
Open Scope storage_scope.

Section play.
Context `{Primitives}.

Global Instance amounts_ok_dec c : Decision (amounts_ok c).
Proof. destruct c; cbn; apply _. Defined.
Global Instance external_dec a : Decision (external a).
Proof. unfold external. apply _. Defined.
Global Instance call_ok_dec w c : Decision (call_ok w c).
Proof. destruct c; cbn; apply _. Defined.

(** Run calls in order, each under its conditions. *)
Fixpoint play (e : Env) (cs : list WorldCall) (w : World) : option World :=
  match cs with
  | [] => Some w
  | c :: cs =>
      if decide (call_ok w c) then
        match exec_world c e (w, []) with
        | (Ok _, (w', _)) => play e cs w'
        | (Err _, _) => None
        end
      else None
  end.

Lemma play_reach P e cs w w' : reach P w → Forall P cs → play e cs w = Some w' → reach P w'.
Proof.
  revert w. induction cs as [|c cs IH]; intros w Hr Hf; cbn; [by intros [= <-]|].
  inversion_clear Hf. case_decide; [|done].
  destruct (exec_world c e (w, [])) as [[u|] [w1 l1]] eqn:Hc; [|done].
  apply IH; [|done]. by eapply Reach_next.
Qed.
End play.

#[local] Existing Instance sample_primitives.
Lemma sample_zero : addr_is_tip20 ZERO = false.
Proof. vm_compute. reflexivity. Qed.
Lemma sample_fee_manager : addr_is_tip20 TIP_FEE_MANAGER_ADDRESS = false.
Proof. vm_compute. reflexivity. Qed.
Definition admin : Address := 0xA0.
Definition alice : Address := 0xA1.
Definition bob : Address := 0xB0.
Definition EURX : Address := PATH_USD_ADDRESS + 1.
Definition sample_now : Env := sample_env 100.

Definition sample_calls : list WorldCall := [
  WCreateReserved PATH_USD_ADDRESS "pathUSD" "pathUSD" "USD" ZERO admin;
  WCreateReserved EURX "EURX" "EURX" "EUR" PATH_USD_ADDRESS admin;
  WToken PATH_USD_ADDRESS admin (TGrantRole ISSUER_ROLE admin);
  WToken PATH_USD_ADDRESS admin (TGrantRole PAUSE_ROLE bob);
  WToken PATH_USD_ADDRESS admin (TMint alice 1000);
  WToken PATH_USD_ADDRESS admin (TMint bob 500);
  WToken PATH_USD_ADDRESS alice (TSetRewardRecipient alice);
  WToken PATH_USD_ADDRESS bob (TDistributeReward 100);
  WToken PATH_USD_ADDRESS alice (TApprove bob 60)].

Definition sample_world : World := default world_empty (play sample_now sample_calls world_empty).

Lemma sample_play : play sample_now sample_calls world_empty = Some sample_world.
Proof. vm_compute. reflexivity. Qed.

Lemma sample_reach : reach keeps_reserves sample_world.
Proof.
  apply (play_reach _ sample_now sample_calls world_empty); [constructor| |apply sample_play].
  unfold sample_calls. repeat constructor.
Qed.
Lemma sample_reachable : world_reachable sample_world.
Proof. eapply reach_weaken, sample_reach. Qed.

Example sample_run :
  get_balance (ledger_of sample_world PATH_USD_ADDRESS) alice = 1000 ∧
  get_balance (ledger_of sample_world PATH_USD_ADDRESS) bob = 400 ∧
  get_balance (ledger_of sample_world PATH_USD_ADDRESS) PATH_USD_ADDRESS = 100 ∧
  get_pending_rewards (ledger_of sample_world PATH_USD_ADDRESS) alice = Ok 100.
Proof. vm_compute. done. Qed.

Lemma token_supply_conserved_witness :
  msum (λ _ b, b) (balances (ledger_of sample_world PATH_USD_ADDRESS)) = 1500.
Proof.
  destruct (token_supply_conserved sample_zero sample_fee_manager sample_world PATH_USD_ADDRESS sample_reachable)
    as (_ & Hs & _). exact Hs.
Defined.

(** Run a computation and name its outcome. *)
Ltac sample_run m w a H :=
  pose proof (final_ok m sample_now w a) as H;
  specialize (H ltac:(vm_compute; reflexivity)).

Definition after_claim : World := final (claim_rewards PATH_USD_ADDRESS alice) sample_now sample_world.

(** A burner takes the reward reserve of a token whose own address is on its blacklist: [burn_blocked] protects the fee
    manager and the exchange only.  When the address is cleared again, the claim pays nothing and the
    reward stays booked. *)
Definition burnt_calls : list WorldCall := sample_calls ++ [
  WToken PATH_USD_ADDRESS admin (TGrantRole BURN_BLOCKED_ROLE admin);
  WPolicies admin (CCreatePolicyWithAccounts admin BLACKLIST [PATH_USD_ADDRESS]);
  WToken PATH_USD_ADDRESS admin (TChangeTransferPolicyId 2);
  WToken PATH_USD_ADDRESS admin (TBurnBlocked PATH_USD_ADDRESS 100);
  WPolicies admin (CModifyBlacklist 2 PATH_USD_ADDRESS false)].
Definition burnt_world : World := default world_empty (play sample_now burnt_calls world_empty).
Definition after_burnt_claim : World := final (claim_rewards PATH_USD_ADDRESS alice) sample_now burnt_world.
Example reserve_burnt :
  is_Some (play sample_now burnt_calls world_empty) ∧
  get_pending_rewards (ledger_of burnt_world PATH_USD_ADDRESS) alice = Ok 100 ∧
  (claim_rewards PATH_USD_ADDRESS alice sample_now (burnt_world, [])).1 = Ok 0 ∧
  reward_balance (user_reward_info (ledger_of after_burnt_claim PATH_USD_ADDRESS)).[alice] = 100.
Proof. vm_compute. split; [by eexists|done]. Qed.

Definition after_transfer : World := final (transfer PATH_USD_ADDRESS alice bob 40) sample_now sample_world.
Lemma transfer_spec_witness :
  ∃ r, target r = bob ∧ moved (ledger_of sample_world PATH_USD_ADDRESS) (ledger_of after_transfer PATH_USD_ADDRESS) alice (target r) 40.
Proof.
  sample_run (transfer PATH_USD_ADDRESS alice bob 40) sample_world true Hrun.
  apply transfer_spec in Hrun as (r & Hr & _ & _ & _ & _ & Hm & _).
  exists r. split; [|exact Hm]. vm_compute in Hr. injection Hr as <-. reflexivity.
Defined.

Definition after_transfer_from : World :=
  final (transfer_from PATH_USD_ADDRESS bob alice admin 25) sample_now sample_world.
Lemma transfer_from_spec_witness :
  (allowances (ledger_of after_transfer_from PATH_USD_ADDRESS)).[(alice, bob)] = 35.
Proof.
  sample_run (transfer_from PATH_USD_ADDRESS bob alice admin 25) sample_world true Hrun.
  apply transfer_from_spec in Hrun as (r & _ & _ & _ & _ & _ & _ & Ha & _).
  fold after_transfer_from in Ha. rewrite Ha. vm_compute. reflexivity.
Defined.

Definition paused_world : World :=
  final (exec_token PATH_USD_ADDRESS bob TPause) sample_now sample_world.
Definition paused_then_approved : World :=
  final (exec_token PATH_USD_ADDRESS alice (TApprove bob 7)) sample_now paused_world.
Lemma paused_token_frozen_witness :
  balances (ledger_of paused_then_approved PATH_USD_ADDRESS) = balances (ledger_of paused_world PATH_USD_ADDRESS) ∧
  (allowances (ledger_of paused_then_approved PATH_USD_ADDRESS)).[(alice, bob)] = 7.
Proof.
  sample_run (exec_token PATH_USD_ADDRESS alice (TApprove bob 7)) paused_world tt Hrun.
  apply paused_token_frozen in Hrun as [(Hb & _ & _)|(to & n & x & Hc & _)].
  - split; [exact Hb|]. vm_compute. reflexivity.
  - discriminate Hc.
  - reflexivity.
  - vm_compute. reflexivity.
Defined.

Definition after_grant : World :=
  final (exec_token PATH_USD_ADDRESS admin (TGrantRole ISSUER_ROLE bob)) sample_now sample_world.
Lemma role_change_authorized_witness :
  holds after_grant PATH_USD_ADDRESS bob ISSUER_ROLE = true ∧
  holds sample_world PATH_USD_ADDRESS admin (admin_of sample_world PATH_USD_ADDRESS ISSUER_ROLE) = true.
Proof.
  split; [vm_compute; reflexivity|].
  sample_run (exec_token PATH_USD_ADDRESS admin (TGrantRole ISSUER_ROLE bob)) sample_world tt Hrun.
  apply (role_change_authorized _ _ _ _ _ _ _ _ _ bob ISSUER_ROLE) in Hrun as [Hm _].
  destruct Hm as [Hh|(_ & Hc & _)]; [vm_compute; discriminate|exact Hh|discriminate Hc].
Defined.

Lemma ungrantable_role_never_held_witness :
  holds sample_world PATH_USD_ADDRESS admin UNGRANTABLE_ROLE = false ∧
  admin_of sample_world PATH_USD_ADDRESS UNGRANTABLE_ROLE = UNGRANTABLE_ROLE.
Proof.
  destruct (ungrantable_role_never_held sample_world PATH_USD_ADDRESS admin sample_reachable) as [Hh Ha].
  split; [exact Hh|]. apply Ha. apply (bool_decide_eq_true (PATH_USD_ADDRESS ∈ code sample_world)). vm_compute. reflexivity.
Defined.

Definition permit_call : TokenCall := TPermit alice bob 77 200 27 alice 0.
Definition after_permit : World := final (exec_token PATH_USD_ADDRESS bob permit_call) sample_now sample_world.
Lemma allowance_change_authorized_witness :
  (permit_nonces (ledger_of after_permit PATH_USD_ADDRESS)).[alice] = 1.
Proof.
  sample_run (exec_token PATH_USD_ADDRESS bob permit_call) sample_world tt Hrun.
  apply (allowance_change_authorized _ _ _ _ _ _ _ _ _ alice bob) in Hrun
    as [[Hc _]|[(d & v & r & s & _ & _ & _ & Hn)|[_ (to & n & [Hc|[memo Hc]] & _)]]].
  - discriminate Hc.
  - fold after_permit in Hn. rewrite Hn. vm_compute. reflexivity.
  - discriminate Hc.
  - discriminate Hc.
  - vm_compute. discriminate.
Defined.

Lemma quote_graph_acyclic_witness :
  quote_of sample_world EURX = PATH_USD_ADDRESS ∧ Nat.iter 2 (quote_of sample_world) EURX ≠ EURX.
Proof.
  destruct (quote_graph_acyclic sample_zero sample_world EURX sample_reachable) as (_ & Ha & _).
  split; [vm_compute; reflexivity|]. apply Ha; [lia|]. vm_compute. discriminate.
Defined.

Lemma quote_update_terminates_witness :
  is_ok (complete_quote_token_update EURX admin sample_now (sample_world, [])).1 = true ∧
  holds sample_world EURX admin DEFAULT_ADMIN_ROLE = true.
Proof.
  destruct (quote_update_terminates sample_zero sample_world EURX admin sample_now [] sample_reachable) as (_ & [Hok _]).
  assert (is_ok (complete_quote_token_update EURX admin sample_now (sample_world, [])).1 = true) as Ht
    by (vm_compute; reflexivity).
  split; [exact Ht|]. exact (proj1 (Hok Ht)).
Defined.
