(* ===== verification/TIP20Holdings.v ===== *)
(** * What a precompile account holds

    The fee manager and the exchange hold tokens on behalf of their users.  Token
    transfers as movements of balances, and the fact that no call of a user takes tokens
    from such an account. *)
From Stdlib Require Import ZArith Lia String.
From stdpp Require Import base tactics option list fin_maps gmap sets strings.
From S2P Require Import Prelude Base StorageSet AddressRegistry Keychain TIP403 TIP20Ledger TIP20 TIP20Props TIP20Admin.
Open Scope Z_scope.
Open Scope storage_scope.

(** A run of a token operation, whatever the logs. *)
Definition wruns {A} (m : M World A) (e : Env) (w w' : World) : Prop :=
  ∃ a lg lg', m e (w, lg) = (Ok a, (w', lg')).

(** Calls a user can make on the tokens: the fee and system transfers are reserved to
    the precompiles and the transaction handler. *)
Definition user_world_call (c : WorldCall) : Prop :=
  match c with
  | WToken _ _ (TSystemTransferFrom _ _ _) | WToken _ _ (TFeePreTx _ _) | WToken _ _ (TFeePostTx _ _ _) => False
  | _ => True
  end.

(** The call is not made by [h]. *)
Definition not_by (h : Address) (c : WorldCall) : Prop :=
  match c with WToken _ m _ => m ≠ h | _ => True end.

(** ** Token operations and the account's holdings *)
Section holdings.
Context `{Primitives}.
Context (h : Address) (h_protected : h = TIP_FEE_MANAGER_ADDRESS ∨ h = STABLECOIN_DEX_ADDRESS)
        (h_not_tip20 : addr_is_tip20 h = false)
        (h_not_virtual : addr_decode_virtual h = None)
        (h_signs_nothing : ∀ d v r s, recover_signer d v r s ≠ Some h).

Definition bal (w : World) (t a : Address) : Z := (balances (ledger_of w t)).[a].
(** The account approved nobody. *)
Definition no_allowance (w : World) : Prop := ∀ t sp, (allowances (ledger_of w t)).[(h, sp)] = 0.

Definition others_same (t : Address) (w w' : World) : Prop :=
  ∀ t', t' ≠ t → ledger_of w' t' = ledger_of w t'.

Lemma transfer_run_moved self from r n e w w' L lg b lg' :
  target r ≠ ZERO → transfer_core self from r n e (ledger_of w self, lg) = (Ok b, (L, lg')) →
  w' = write_token self (set_ledger L (token w self)) w →
  (∀ a, bal w' self a = bal w self a - (if decide (from = a) then n else 0) + (if decide (target r = a) then n else 0)) ∧
  allowances (ledger_of w' self) = allowances (ledger_of w self) ∧ others_same self w w'.
Proof.
  intros Hr Hrun ->.
  destruct (transfer_core_moved self from r n e (ledger_of w self) L) as ((_ & _ & Hb) & Ha & _ & _); [done|by do 3 eexists|].
  unfold bal, others_same. rewrite ledger_of_ledger, decide_True by done. split_and!; try done.
  intros t' Ht'. by rewrite ledger_of_ledger, decide_False.
Qed.

Lemma transfer_moved self from to n e w w' :
  wruns (transfer self from to n) e w w' →
  ∃ to', (∀ a, bal w' self a = bal w self a - (if decide (from = a) then n else 0) + (if decide (to' = a) then n else 0)) ∧
  allowances (ledger_of w' self) = allowances (ledger_of w self) ∧ others_same self w w'.
Proof.
  intros (b & lg & lg' & Hrun). unfold transfer, check_and_update_spending_limit in Hrun.
  world_steps. tip20_frames. world_steps. tip20_frames. simplify_eq. cbn [fst snd] in *.
  match goal with Ht : transfer_core _ _ ?r _ _ _ = _ |- _ => exists (target r);
    eapply (transfer_run_moved self from r n e (write_keychain k w)) in Ht; [|done|reflexivity]; exact Ht end.
Qed.

(** The account itself is not a virtual address. *)
Lemma recipient_self e w r : recipient_resolve e w h = Ok r → target r = h.
Proof.
  unfold recipient_resolve, resolve_recipient. rewrite h_not_virtual.
  destruct (negb (is_t3 (spec e))); cbn [mbind result_bind]; rewrite Z.eqb_refl; intros; by simplify_eq.
Qed.

Lemma transfer_from_moved self m from n e w w' :
  wruns (transfer_from self m from h n) e w w' → from ≠ h →
  bal w' self h = bal w self h + n ∧ others_same self w w' ∧ (no_allowance w → no_allowance w').
Proof.
  intros (b & lg & lg' & Hrun) Hf.
  apply transfer_from_ok in Hrun as (r & Hr%recipient_self & _ & _ & _ & (_ & _ & Hb) & _ & _ & Ha & Ho).
  assert (others_same self w w') as Hoth by (intros t Ht; unfold ledger_of; by rewrite Ho).
  split_and!; try done.
  - unfold bal. rewrite Hb, Hr, decide_False, decide_True by done. lia.
  - intros Hno t sp. destruct (decide (t = self)) as [->|]; [|by rewrite Hoth]. rewrite Ha by congruence. apply Hno.
Qed.

Lemma system_transfer_moved self from n e w w' :
  wruns (system_transfer_from self from h n) e w w' →
  (∀ a, bal w' self a = bal w self a - (if decide (from = a) then n else 0) + (if decide (h = a) then n else 0)) ∧
  allowances (ledger_of w' self) = allowances (ledger_of w self) ∧ others_same self w w'.
Proof.
  intros (b & lg & lg' & Hrun). unfold system_transfer_from, check_and_update_spending_limit in Hrun.
  world_steps. tip20_frames. world_steps. tip20_frames. simplify_eq. cbn [fst snd] in *.
  match goal with Hr : recipient_resolve _ _ _ = Ok ?r |- _ => apply recipient_self in Hr as Htgt end.
  match goal with Ht : transfer_core _ _ ?r _ _ _ = _ |- _ =>
    eapply (transfer_run_moved self from r n e (write_keychain k w)) in Ht; [|done|reflexivity]; rewrite Htgt in Ht; exact Ht end.
Qed.

(** A transfer pays nothing out of an account other than its payer. *)
Lemma transfer_core_payee self from r n e L L' a :
  target r ≠ ZERO → 0 ≤ n → from ≠ a ∨ n = 0 → runs (transfer_core self from r n) e L L' →
  (balances L).[a] ≤ (balances L').[a].
Proof.
  intros Hr Hn Hf Hrun. destruct (transfer_core_moved _ _ _ _ _ _ _ Hr Hrun) as ((_ & _ & Hb) & _).
  rewrite Hb. repeat case_decide; destruct Hf; try done; lia.
Qed.

(** No call of a user takes tokens from the account. *)
Lemma ledger_effect_holdings self m c e L L' :
  addr_is_tip20 self = true → m ≠ h → amounts_ok c → user_world_call (WToken self m c) →
  (∀ sp, (allowances L).[(h, sp)] = 0) → ledger_effect self m c e L L' →
  (balances L).[h] ≤ (balances L').[h].
Proof.
  intros Hself Hm Hn Hu Hno Heff. assert (self ≠ h) as Hs by congruence.
  assert (∀ f n, 0 ≤ n → (∃ r L1, target r ≠ ZERO ∧ addr_is_tip20 (target r) = false ∧
      runs (spend_allowance f m n) e L L1 ∧ runs (transfer_core self f r n) e L1 L') →
      (balances L).[h] ≤ (balances L').[h]) as Hspend.
  { intros f n Hnn (r & L1 & Hr & _ & (u1 & lg1 & lg2 & Hsp) & Hrun).
    pose proof (spend_allowance_ok _ _ _ _ _ _ _ _ _ Hsp) as (Hle & _).
    apply spend_allowance_ledger in Hsp.
    assert (balances L1 = balances L) as <- by (destruct Hsp as [->| ->]; done).
    eapply transfer_core_payee; [exact Hr|done| |exact Hrun].
    destruct (decide (f = h)) as [->|]; [right|by left]. rewrite Hno in Hle. lia. }
  destruct c; cbn [ledger_effect amounts_ok user_world_call] in *; try done; try (by eapply Hspend; [|apply Heff]);
    try (rewrite Heff; done).
  - destruct Heff as (_ & r & Hr & _ & Hrun). eapply transfer_core_payee; [exact Hr|done| |exact Hrun]. by left.
  - destruct Heff as (_ & r & Hr & _ & Hrun). eapply transfer_core_payee; [exact Hr|done| |exact Hrun]. by left.
  - destruct Heff as (_ & r & (u & lg & lg' & (l1 & _ & _ & -> & _)%mint_core_ok)).
    cbn [balances with_ledger]. rewrite credit_read. case_decide; lia.
  - destruct Heff as (_ & r & (u & lg & lg' & (l1 & _ & _ & -> & _)%mint_core_ok)).
    cbn [balances with_ledger]. rewrite credit_read. case_decide; lia.
  - destruct Heff as (_ & (u & lg & lg' & (l1 & l2 & _ & _ & _ & _ & -> & _)%burn_core_ok)).
    cbn [balances with_ledger]. rewrite debit_read, decide_False by done. lia.
  - destruct Heff as (_ & (u & lg & lg' & (l1 & l2 & _ & _ & _ & _ & -> & _)%burn_core_ok)).
    cbn [balances with_ledger]. rewrite debit_read, decide_False by done. lia.
  - destruct Heff as (_ & ? & ? & (u & lg & lg' & (l1 & l2 & _ & _ & _ & _ & -> & _)%burn_core_ok)).
    cbn [balances with_ledger]. rewrite debit_read, decide_False by (destruct h_protected; congruence). lia.
  - destruct Heff as (_ & (u & lg & lg' & (l1 & lg1 & Hrun & _ & ->)%distribute_core_ok)).
    assert (self ≠ ZERO ∨ self = ZERO) as [Hz|Hz] by lia.
    + cbn [balances set_global_reward_per_token].
      eapply (transfer_core_payee self m (direct self)); [done|exact Hn|by left|]. do 3 eexists. exact Hrun.
    + cbn [balances set_global_reward_per_token].
      apply transfer_core_ok in Hrun as (l2 & l3 & _ & _ & _ & -> & _). cbn [balances with_ledger].
      unfold move_balance. cbn [target direct]. rewrite Hz. cbn. rewrite debit_read, decide_False by done. lia.
  - destruct Heff as (_ & (u & lg & lg' & (l1 & Hset & ->)%set_recipient_core_ok)). cbn.
    by rewrite (st_balances _ _ _ Hset).
  - destruct Heff as (_ & (n & lg & lg' & (l1 & Hset & _ & _ & ->)%claim_core_ok)). cbv zeta.
    destruct (Z.ltb_spec 0 n); cbn [balances with_ledger set_user_reward_info].
    + rewrite credit_read, debit_read, decide_False by done. case_decide; lia.
    + by rewrite (st_balances _ _ _ Hset).
  - by destruct Heff as [_ ->].
Qed.

Lemma user_token_call self m c e w l x w' l' :
  addr_is_tip20 self = true → m ≠ h → amounts_ok c → user_world_call (WToken self m c) → no_allowance w →
  exec_token self m c e (w, l) = (Ok x, (w', l')) →
  bal w self h ≤ bal w' self h ∧ no_allowance w' ∧ others_same self w w'.
Proof.
  intros Hself Hm Hn Hu Hno Hrun.
  assert (∀ o sp va d v r s, c = TPermit o sp va d v r s → o ≠ h) as Hperm.
  { intros o sp va d v r s ->. apply permit_ok in Hrun as [_ Hrec]. intros ->. by eapply h_signs_nothing. }
  apply exec_token_ledger in Hrun as [Hoth Heff]. pose proof (ledger_effect_keeps _ _ _ _ _ _ Heff) as Hk.
  split_and!; [by eapply ledger_effect_holdings| |done].
  intros t sp. destruct (decide (t = self)) as [->|Ht]; [|rewrite Hoth by done; apply Hno].
  specialize (Hno self sp).
  assert (∀ f n, 0 ≤ n → (∃ r L1, target r ≠ ZERO ∧ addr_is_tip20 (target r) = false ∧
      runs (spend_allowance f m n) e (ledger_of w self) L1 ∧ runs (transfer_core self f r n) e L1 (ledger_of w' self)) →
      (allowances (ledger_of w' self)).[(h, sp)] = 0) as Hspend.
  { intros f n Hnn (r & L1 & _ & _ & (u1 & lg1 & lg2 & Hsp) & (u2 & lg3 & lg4 & [-> _]%transfer_core_keeps)).
    apply spend_allowance_ok in Hsp as (Hle & _ & [[-> _]| ->]); [done|]. rewrite mread_insert.
    case_decide as Heq; [|done]. injection Heq as -> ->. lia. }
  destruct c; cbn [ledger_effect amounts_ok] in *; try done; try (destruct Hk as [-> _]; done);
    try (by eapply Hspend; [|apply Heff]).
  - rewrite Heff. cbn. rewrite mread_insert_ne by congruence. done.
  - rewrite Heff. cbn. rewrite mread_insert_ne; [done|]. intros [= He]. by eapply Hperm.
Qed.

Lemma user_world_step c e w l x w' l' :
  call_ok w c → user_world_call c → not_by h c → no_allowance w → exec_world c e (w, l) = (Ok x, (w', l')) →
  (∀ t, bal w t h ≤ bal w' t h) ∧ no_allowance w'.
Proof.
  intros Hok Hu Hby Hno Hrun%exec_world_ledger.
  assert (∀ t, (∃ L, ledger_of w' t = write_supply_cap L (ledger_of w t)) ∨ ledger_of w' t = ledger_of w t →
    bal w t h ≤ bal w' t h ∧ ∀ sp, (allowances (ledger_of w' t)).[(h, sp)] = 0) as Hsame.
  { unfold bal. intros t [[L ->]| ->]; (split; [done|apply Hno]). }
  destruct c.
  - destruct Hok as (Ht & Hm & Hn). unfold is_tip20 in Ht. destruct (addr_is_tip20 self) eqn:Hs; [|done].
    destruct (user_token_call _ _ _ _ _ _ _ _ _ Hs Hby Hn Hu Hno Hrun) as (Hb & Ha & Ho). split; [|done].
    intros t. destruct (decide (t = self)) as [->|Hne]; [done|]. unfold bal. by rewrite Ho.
  - destruct Hrun as (self & _ & _ & Heff).
    assert (∀ t, (∃ L, ledger_of w' t = write_supply_cap L (ledger_of w t)) ∨ ledger_of w' t = ledger_of w t) as Hall
      by (intros t; rewrite Heff; case_decide; [left; by eexists|by right]).
    split; intros t; by apply Hsame.
  - destruct Hrun as (self & _ & _ & Heff).
    assert (∀ t, (∃ L, ledger_of w' t = write_supply_cap L (ledger_of w t)) ∨ ledger_of w' t = ledger_of w t) as Hall
      by (intros t; rewrite Heff; case_decide; [left; by eexists|by right]).
    split; intros t; by apply Hsame.
  - destruct Hrun as [Ht _]. split; intros t; apply Hsame; right; unfold ledger_of, token; by rewrite Ht.
  - destruct Hrun as [Ht _]. split; intros t; apply Hsame; right; unfold ledger_of, token; by rewrite Ht.
  - destruct Hrun as [Ht _]. split; intros t; apply Hsame; right; unfold ledger_of, token; by rewrite Ht.
Qed.

Definition allowance_frame (t : Address) (w w' : World) : Prop :=
  allowances (ledger_of w' t) = allowances (ledger_of w t) ∧ others_same t w w'.

Lemma no_allowance_frame t w w' : allowance_frame t w w' → no_allowance w → no_allowance w'.
Proof.
  intros [Ha Ho] Hno t' sp. destruct (decide (t' = t)) as [->|Hne]; [rewrite Ha|rewrite Ho by done]; apply Hno.
Qed.

Lemma bal_out w w' u to n e :
  wruns (transfer u h to n) e w w' → 0 ≤ n →
  (∀ t, bal w t h - (if u =? t then n else 0) ≤ bal w' t h) ∧
  (no_allowance w → no_allowance w').
Proof.
  intros (to' & Hb & Ha & Ho)%transfer_moved Hn. split; [|by apply (no_allowance_frame u)].
  intros t. destruct (Z.eqb_spec u t) as [<-|Hne].
  - rewrite Hb, decide_True by done. case_decide; lia.
  - unfold bal. rewrite Ho by done. lia.
Qed.

End holdings.
