(* ===== verification/FeeManager.v ===== *)
(** * The fee manager and its AMM
    ([src/crates/tempo-precompiles/src/tip_fee_manager/mod.rs], [amm.rs])

    Fee tokens of users and validators, the collection of fees around a transaction,
    and the constant-rate pools that convert one fee token into another.  The
    manager's own storage sits beside the shared state of the tokens ([FeeWorld]). *)
From Stdlib Require Import ZArith Lia String.
From stdpp Require Import base tactics option list fin_maps gmap sets strings.
From S2P Require Import Prelude Base StorageSet AddressRegistry Keychain TIP403 TIP20Ledger TIP20.
Open Scope Z_scope.
Open Scope storage_scope.

(** ** State *)
Record Pool := mkPool {
  reserve_user_token : Z;
  reserve_validator_token : Z;
}.
Global Instance Pool_zeroed : Zeroed Pool := mkPool 0 0.

Record TipFeeManager := mkFeeManager {
  validator_tokens : gmap Address Address;
  user_tokens : gmap Address Address;
  collected_fees : gmap (Address * Address) Z;
  pools : gmap B256 Pool;
  lp_total_supply : gmap B256 Z;
  liquidity_balances : gmap (B256 * Address) Z;
  (* transient: cleared between transactions *)
  pending_fee_swap_reservation : gmap B256 Z;
}.
Definition fee_manager_empty : TipFeeManager := mkFeeManager ∅ ∅ ∅ ∅ ∅ ∅ ∅.

Definition write_validator_token (a t : Address) (m : TipFeeManager) : TipFeeManager :=
  mkFeeManager (<[a:=t]> (validator_tokens m)) (user_tokens m) (collected_fees m) (pools m)
    (lp_total_supply m) (liquidity_balances m) (pending_fee_swap_reservation m).
Definition write_user_token (a t : Address) (m : TipFeeManager) : TipFeeManager :=
  mkFeeManager (validator_tokens m) (<[a:=t]> (user_tokens m)) (collected_fees m) (pools m)
    (lp_total_supply m) (liquidity_balances m) (pending_fee_swap_reservation m).
Definition write_collected (v t : Address) (n : Z) (m : TipFeeManager) : TipFeeManager :=
  mkFeeManager (validator_tokens m) (user_tokens m) (<[(v, t):=n]> (collected_fees m)) (pools m)
    (lp_total_supply m) (liquidity_balances m) (pending_fee_swap_reservation m).
Definition write_pool (id : B256) (p : Pool) (m : TipFeeManager) : TipFeeManager :=
  mkFeeManager (validator_tokens m) (user_tokens m) (collected_fees m) (<[id:=p]> (pools m))
    (lp_total_supply m) (liquidity_balances m) (pending_fee_swap_reservation m).
(** [set_total_supply] of the AMM. *)
Definition set_lp_supply (id : B256) (n : Z) (m : TipFeeManager) : TipFeeManager :=
  mkFeeManager (validator_tokens m) (user_tokens m) (collected_fees m) (pools m)
    (<[id:=n]> (lp_total_supply m)) (liquidity_balances m) (pending_fee_swap_reservation m).
Definition set_liquidity_balances (id : B256) (a : Address) (n : Z) (m : TipFeeManager) : TipFeeManager :=
  mkFeeManager (validator_tokens m) (user_tokens m) (collected_fees m) (pools m)
    (lp_total_supply m) (<[(id, a):=n]> (liquidity_balances m)) (pending_fee_swap_reservation m).
Definition write_reservation (id : B256) (n : Z) (m : TipFeeManager) : TipFeeManager :=
  mkFeeManager (validator_tokens m) (user_tokens m) (collected_fees m) (pools m)
    (lp_total_supply m) (liquidity_balances m) (<[id:=n]> (pending_fee_swap_reservation m)).
Definition clear_transient (m : TipFeeManager) : TipFeeManager :=
  mkFeeManager (validator_tokens m) (user_tokens m) (collected_fees m) (pools m)
    (lp_total_supply m) (liquidity_balances m) ∅.

Definition get_lp_supply (m : TipFeeManager) (id : B256) : Z := (lp_total_supply m).[id].
Definition get_liquidity_balances (m : TipFeeManager) (id : B256) (a : Address) : Z :=
  (liquidity_balances m).[(id, a)].

Record FeeWorld := mkFeeWorld { world : World; manager : TipFeeManager }.
Definition fee_world_empty : FeeWorld := mkFeeWorld world_empty fee_manager_empty.

Definition at_world {A} : M World A → M FeeWorld A := zoom world (λ w f, mkFeeWorld w (manager f)).
Definition at_manager {A} : M TipFeeManager A → M FeeWorld A := zoom manager (λ m f, mkFeeWorld (world f) m).

(** ** AMM constants and arithmetic *)
Definition M_RATE : Z := 9970.
Definition N_RATE : Z := 9985.
Definition SCALE : Z := 10000.
Definition MIN_LIQUIDITY : Z := 1000.

Definition compute_amount_out (amount_in : Z) : Result Z :=
  ok_or (option_map (λ product, product / SCALE) (checked_mul U256_MAX amount_in M_RATE)) under_overflow.

Definition calculate_burn_amounts (m : TipFeeManager) (pool : Pool) (id : B256) (liquidity : Z) :
    Result (Z * Z) :=
  let total_supply := get_lp_supply m id in
  amount_user_token ← ok_or (v ← checked_mul U256_MAX liquidity (reserve_user_token pool);
                             checked_div v total_supply) under_overflow;
  amount_validator_token ← ok_or (v ← checked_mul U256_MAX liquidity (reserve_validator_token pool);
                                  checked_div v total_supply) under_overflow;
  Ok (amount_user_token, amount_validator_token).

Definition amm_error (e : FeeAMMError.t) : TempoPrecompileError := TIPFeeAMMError e.

Section fee_manager.
Context `{Primitives}.
Local Notation MF := (M FeeWorld).
Local Notation FEE_MANAGER := TIP_FEE_MANAGER_ADDRESS.

(** [PoolKey::new(user_token, validator_token).get_id()]. *)
Definition pool_id (user_token validator_token : Address) : B256 :=
  keccak256 (abi_encode [user_token; validator_token]).

Definition get_pool (m : TipFeeManager) (user_token validator_token : Address) : Pool :=
  (pools m).[pool_id user_token validator_token].

Definition fee_manager_initialize : MF unit := at_world (modify (write_code FEE_MANAGER)).

Definition check_sufficient_liquidity (id : B256) (max_amount : Z) : MF Z :=
  amount_out_needed ← lift (compute_amount_out max_amount);
  pool ← gets (λ f, (pools (manager f)).[id]);
  require (negb (reserve_validator_token pool <? amount_out_needed))
    (amm_error FeeAMMError.InsufficientLiquidity);;
  lift (ok_or (try_into U128_MAX amount_out_needed) under_overflow).

Definition reserve_pool_liquidity (id : B256) (amount : Z) : MF unit :=
  at_manager (modify (write_reservation id amount)).

(** T1C: what is left must cover the pending reservation. *)
Definition check_reservation (id : B256) (left : Z) : MF unit :=
  e ← ask;
  when (is_t1c (spec e)) (
    reserved ← gets (λ f, (pending_fee_swap_reservation (manager f)).[id]);
    require (negb (left <? reserved)) (amm_error FeeAMMError.InsufficientLiquidity)).

Definition rebalance_swap (msg_sender user_token validator_token : Address) (amount_out : Z) (to : Address) :
    MF Z :=
  require (negb (amount_out =? 0)) (amm_error FeeAMMError.InvalidAmount);;
  let id := pool_id user_token validator_token in
  pool ← gets (λ f, (pools (manager f)).[id]);
  amount_in ← lift (ok_or (product ← checked_mul U256_MAX amount_out N_RATE;
                           r ← checked_div product SCALE;
                           checked_add U256_MAX r 1) under_overflow);
  amount_in ← lift (ok_or (try_into U128_MAX amount_in) (amm_error FeeAMMError.InvalidAmount));
  amount_out ← lift (ok_or (try_into U128_MAX amount_out) (amm_error FeeAMMError.InvalidAmount));
  v ← lift (ok_or (checked_add U128_MAX (reserve_validator_token pool) amount_in)
              (amm_error FeeAMMError.InsufficientReserves));
  u ← lift (ok_or (checked_sub (reserve_user_token pool) amount_out) (amm_error FeeAMMError.InvalidAmount));
  check_reservation id v;;
  at_manager (modify (write_pool id (mkPool u v)));;
  vt ← lift (from_address validator_token);
  at_world (system_transfer_from vt msg_sender FEE_MANAGER amount_in);;
  ut ← lift (from_address user_token);
  at_world (transfer ut FEE_MANAGER to amount_out);;
  emit FEE_MANAGER (RebalanceSwap user_token validator_token msg_sender amount_in amount_out);;
  mret amount_in.

(** The liquidity a deposit mints, and the total supply it is added to.  The first
    deposit also locks [MIN_LIQUIDITY]. *)
Definition mint_liquidity (id : B256) (pool : Pool) (amount total_supply : Z) : MF (Z * Z) :=
  if (reserve_user_token pool =? 0) && (reserve_validator_token pool =? 0) then
    half_amount ← lift (ok_or (checked_div amount 2) under_overflow);
    require (negb (half_amount <=? MIN_LIQUIDITY)) (amm_error FeeAMMError.InsufficientLiquidity);;
    total_supply ← lift (ok_or (checked_add U256_MAX total_supply MIN_LIQUIDITY) under_overflow);
    at_manager (modify (set_lp_supply id total_supply));;
    liquidity ← lift (ok_or (checked_sub half_amount MIN_LIQUIDITY)
                        (amm_error FeeAMMError.InsufficientLiquidity));
    mret (liquidity, total_supply)
  else
    product ← lift (ok_or (v ← checked_mul U256_MAX N_RATE (reserve_user_token pool); checked_div v SCALE)
                      (amm_error FeeAMMError.InvalidSwapCalculation));
    denom ← lift (ok_or (checked_add U256_MAX (reserve_validator_token pool) product)
                    (amm_error FeeAMMError.InvalidAmount));
    require (negb (denom =? 0)) (amm_error FeeAMMError.DivisionByZero);;
    liquidity ← lift (ok_or (v ← checked_mul U256_MAX amount total_supply; checked_div v denom)
                        (amm_error FeeAMMError.InvalidSwapCalculation));
    mret (liquidity, total_supply).

Definition amm_mint (msg_sender user_token validator_token : Address) (amount : Z) (to : Address) : MF Z :=
  require (negb (user_token =? validator_token)) (amm_error FeeAMMError.IdenticalAddresses);;
  require (negb (amount =? 0)) (amm_error FeeAMMError.InvalidAmount);;
  view (λ _ f, validate_usd_currency (world f) user_token);;
  view (λ _ f, validate_usd_currency (world f) validator_token);;
  let id := pool_id user_token validator_token in
  pool ← gets (λ f, (pools (manager f)).[id]);
  total_supply ← gets (λ f, get_lp_supply (manager f) id);
  lt ← mint_liquidity id pool amount total_supply;
  let '(liquidity, total_supply) := lt in
  require (negb (liquidity =? 0)) (amm_error FeeAMMError.InsufficientLiquidity);;
  vt ← lift (from_address validator_token);
  at_world (system_transfer_from vt msg_sender FEE_MANAGER amount);;
  validator_amount ← lift (ok_or (try_into U128_MAX amount) (amm_error FeeAMMError.InvalidAmount));
  v ← lift (ok_or (checked_add U128_MAX (reserve_validator_token pool) validator_amount)
              (amm_error FeeAMMError.InvalidAmount));
  at_manager (modify (write_pool id (mkPool (reserve_user_token pool) v)));;
  s ← lift (ok_or (checked_add U256_MAX total_supply liquidity) under_overflow);
  at_manager (modify (set_lp_supply id s));;
  balance ← gets (λ f, get_liquidity_balances (manager f) id to);
  b ← lift (ok_or (checked_add U256_MAX balance liquidity) under_overflow);
  at_manager (modify (set_liquidity_balances id to b));;
  emit FEE_MANAGER (AMMMint msg_sender to user_token validator_token amount liquidity);;
  mret liquidity.

Definition amm_burn (msg_sender user_token validator_token : Address) (liquidity : Z) (to : Address) :
    MF (Z * Z) :=
  require (negb (user_token =? validator_token)) (amm_error FeeAMMError.IdenticalAddresses);;
  require (negb (liquidity =? 0)) (amm_error FeeAMMError.InvalidAmount);;
  view (λ _ f, validate_usd_currency (world f) user_token);;
  view (λ _ f, validate_usd_currency (world f) validator_token);;
  let id := pool_id user_token validator_token in
  balance ← gets (λ f, get_liquidity_balances (manager f) id msg_sender);
  require (negb (balance <? liquidity)) (amm_error FeeAMMError.InsufficientLiquidity);;
  pool ← gets (λ f, (pools (manager f)).[id]);
  amounts ← view (λ _ f, calculate_burn_amounts (manager f) pool id liquidity);
  let '(amount_user_token, amount_validator_token) := amounts in
  validator_amount ← lift (ok_or (try_into U128_MAX amount_validator_token) (amm_error FeeAMMError.InvalidAmount));
  available_after_burn ← lift (ok_or (checked_sub (reserve_validator_token pool) validator_amount)
                                 (amm_error FeeAMMError.InsufficientReserves));
  check_reservation id available_after_burn;;
  b ← lift (ok_or (checked_sub balance liquidity) under_overflow);
  at_manager (modify (set_liquidity_balances id msg_sender b));;
  total_supply ← gets (λ f, get_lp_supply (manager f) id);
  s ← lift (ok_or (checked_sub total_supply liquidity) under_overflow);
  at_manager (modify (set_lp_supply id s));;
  user_amount ← lift (ok_or (try_into U128_MAX amount_user_token) (amm_error FeeAMMError.InvalidAmount));
  validator_amount ← lift (ok_or (try_into U128_MAX amount_validator_token) (amm_error FeeAMMError.InvalidAmount));
  u ← lift (ok_or (checked_sub (reserve_user_token pool) user_amount) (amm_error FeeAMMError.InsufficientReserves));
  v ← lift (ok_or (checked_sub (reserve_validator_token pool) validator_amount)
              (amm_error FeeAMMError.InsufficientReserves));
  at_manager (modify (write_pool id (mkPool u v)));;
  ut ← lift (from_address user_token);
  at_world (transfer ut FEE_MANAGER to amount_user_token);;
  vt ← lift (from_address validator_token);
  at_world (transfer vt FEE_MANAGER to amount_validator_token);;
  emit FEE_MANAGER (AMMBurn msg_sender user_token validator_token amount_user_token amount_validator_token
                      liquidity to);;
  mret (amount_user_token, amount_validator_token).

Definition execute_fee_swap (user_token validator_token : Address) (amount_in : Z) : MF Z :=
  let id := pool_id user_token validator_token in
  pool ← gets (λ f, (pools (manager f)).[id]);
  amount_out ← lift (compute_amount_out amount_in);
  require (negb (reserve_validator_token pool <? amount_out)) (amm_error FeeAMMError.InsufficientLiquidity);;
  amount_in_u128 ← lift (ok_or (try_into U128_MAX amount_in) under_overflow);
  amount_out_u128 ← lift (ok_or (try_into U128_MAX amount_out) under_overflow);
  u ← lift (ok_or (checked_add U128_MAX (reserve_user_token pool) amount_in_u128) under_overflow);
  v ← lift (ok_or (checked_sub (reserve_validator_token pool) amount_out_u128) under_overflow);
  at_manager (modify (write_pool id (mkPool u v)));;
  mret amount_out.

(** ** Fee tokens *)
Definition get_validator_token (m : TipFeeManager) (beneficiary : Address) : Address :=
  let t := (validator_tokens m).[beneficiary] in
  if t =? ZERO then DEFAULT_FEE_TOKEN else t.

Definition set_validator_token (sender t beneficiary : Address) : MF unit :=
  ok ← gets (λ f, is_tip20 (world f) t);
  require ok (FeeManagerError FeeManagerError.InvalidToken);;
  require (negb (sender =? beneficiary)) (FeeManagerError FeeManagerError.CannotChangeWithinBlock);;
  view (λ _ f, validate_usd_currency (world f) t);;
  at_manager (modify (write_validator_token sender t));;
  emit FEE_MANAGER (ValidatorTokenSet sender t).

Definition set_user_token (sender t : Address) : MF unit :=
  ok ← gets (λ f, is_tip20 (world f) t);
  require ok (FeeManagerError FeeManagerError.InvalidToken);;
  view (λ _ f, validate_usd_currency (world f) t);;
  e ← ask;
  current ← gets (λ f, (user_tokens (manager f)).[sender]);
  if is_t3 (spec e) && (current =? t) then mret tt
  else
    at_manager (modify (write_user_token sender t));;
    emit FEE_MANAGER (UserTokenSet sender t).

(** ** Fee collection *)
Definition increment_collected_fees (validator t : Address) (amount : Z) : MF unit :=
  if amount =? 0 then mret tt
  else
    c ← gets (λ f, (collected_fees (manager f)).[(validator, t)]);
    c' ← lift (ok_or (checked_add U256_MAX c amount) under_overflow);
    at_manager (modify (write_collected validator t c')).

Definition collect_fee_pre_tx (fee_payer user_token : Address) (max_amount : Z) (beneficiary : Address)
    (skip_liquidity_check : bool) : MF Address :=
  validator_token ← gets (λ f, get_validator_token (manager f) beneficiary);
  t ← lift (from_address user_token);
  at_world (ensure_transfer_authorized t fee_payer FEE_MANAGER);;
  at_world (transfer_fee_pre_tx t fee_payer max_amount);;
  when (negb (user_token =? validator_token) && negb skip_liquidity_check) (
    let id := pool_id user_token validator_token in
    amount_out_needed ← check_sufficient_liquidity id max_amount;
    e ← ask;
    when (is_t1c (spec e)) (reserve_pool_liquidity id amount_out_needed));;
  mret user_token.

Definition collect_fee_post_tx (fee_payer : Address) (actual_spending refund_amount : Z)
    (fee_token beneficiary : Address) : MF unit :=
  t ← lift (from_address fee_token);
  at_world (transfer_fee_post_tx t fee_payer refund_amount actual_spending);;
  validator_token ← gets (λ f, get_validator_token (manager f) beneficiary);
  when (negb (fee_token =? validator_token) && negb (actual_spending =? 0))
    (execute_fee_swap fee_token validator_token actual_spending;; mret tt);;
  amount ← lift (if fee_token =? validator_token then Ok actual_spending
                 else compute_amount_out actual_spending);
  increment_collected_fees beneficiary validator_token amount.

Definition distribute_fees (validator t : Address) : MF unit :=
  amount ← gets (λ f, (collected_fees (manager f)).[(validator, t)]);
  if amount =? 0 then mret tt
  else
    at_manager (modify (write_collected validator t 0));;
    self ← lift (from_address t);
    at_world (transfer self FEE_MANAGER validator amount);;
    emit FEE_MANAGER (FeesDistributed validator t amount).
End fee_manager.
