(* ===== verification/FeeManagerProps.v ===== *)
(** * Correctness of the fee manager

    What each operation does to the manager's storage and to the tokens, then the
    invariants of the pools: LP accounting, reservations, share values, and the
    solvency of the manager. *)
From Stdlib Require Import ZArith Lia String.
From stdpp Require Import base tactics option list fin_maps gmap sets strings.
From S2P Require Import Prelude Base StorageSet AddressRegistry Keychain TIP403 TIP20Ledger TIP20 TIP20Props TIP20Holdings FeeManager.
Open Scope Z_scope.
Open Scope storage_scope.

Local Notation FEE_MANAGER := TIP_FEE_MANAGER_ADDRESS.

(** ** Inversion *)
Lemma at_world_ok {A} (m : M World A) e f l a f' l' :
  at_world m e (f, l) = (Ok a, (f', l')) →
  ∃ w, m e (world f, l) = (Ok a, (w, l')) ∧ f' = mkFeeWorld w (manager f).
Proof. unfold at_world. intros (w & l1 & Hm & Heq)%zoom_ok. simplify_eq. eauto. Qed.

Lemma at_manager_ok {A} (m : M TipFeeManager A) e f l a f' l' :
  at_manager m e (f, l) = (Ok a, (f', l')) →
  ∃ g, m e (manager f, l) = (Ok a, (g, l')) ∧ f' = mkFeeWorld (world f) g.
Proof. unfold at_manager. intros (w & l1 & Hm & Heq)%zoom_ok. simplify_eq. eauto. Qed.

Ltac fee_step :=
  match goal with
  | Hr : at_world _ _ _ = (Ok _, ?st) |- _ =>
      let w := fresh "w" in let Hm := fresh "Hw" in
      try (is_var st; destruct st as [? ?]); apply at_world_ok in Hr as (w & Hm & ?); subst
  | Hr : at_manager _ _ _ = (Ok _, ?st) |- _ =>
      let g := fresh "g" in let Hm := fresh "Hm" in
      try (is_var st; destruct st as [? ?]); apply at_manager_ok in Hr as (g & Hm & ?); subst
  end.
Ltac fee_steps := repeat (first [minv_step | fee_step]; cbn [fst snd world manager] in *).

(** A bind of checked operations. *)
Lemma checked_mul_div a b c r :
  (v ← checked_mul U256_MAX a b; checked_div v c) = Some r → r = a * b / c ∧ c ≠ 0 ∧ a * b ≤ U256_MAX.
Proof.
  destruct (checked_mul U256_MAX a b) eqn:Hm; cbn; [|done]. intros Hd. ariths. done.
Qed.

Section operations.
Context `{Primitives}.

Lemma compute_amount_out_ok n r : compute_amount_out n = Ok r → r = n * M_RATE / SCALE ∧ n * M_RATE ≤ U256_MAX.
Proof.
  unfold compute_amount_out. intros Hr. rinvs. destruct (checked_mul U256_MAX n M_RATE) eqn:Hm; cbn in *; [|done].
  ariths. simplify_eq. done.
Qed.

Lemma check_reservation_ok id n e f l u st' :
  check_reservation id n e (f, l) = (Ok u, st') →
  st' = (f, l) ∧ (is_t1c (spec e) = true → (pending_fee_swap_reservation (manager f)).[id] ≤ n).
Proof.
  intros Hrun. unfold check_reservation in Hrun. minvs; bprop; simplify_eq; split; try done; congruence.
Qed.

(** The manager's storage after a change of one pool. *)
Definition with_pool (m : TipFeeManager) (id : B256) (p : Pool) (s : Z) (lb : gmap (B256 * Address) Z) :
    TipFeeManager :=
  mkFeeManager (validator_tokens m) (user_tokens m) (collected_fees m) (<[id:=p]> (pools m))
    (<[id:=s]> (lp_total_supply m)) lb (pending_fee_swap_reservation m).

Lemma rebalance_ok s u v n to e f l r f' l' :
  rebalance_swap s u v n to e (f, l) = (Ok r, (f', l')) →
  let id := pool_id u v in let p := (pools (manager f)).[id] in
  n ≠ 0 ∧ r = n * N_RATE / SCALE + 1 ∧ n ≤ reserve_user_token p ∧
  reserve_validator_token p + r ≤ U128_MAX ∧
  (is_t1c (spec e) = true → (pending_fee_swap_reservation (manager f)).[id] ≤ reserve_validator_token p + r) ∧
  manager f' = write_pool id (mkPool (reserve_user_token p - n) (reserve_validator_token p + r)) (manager f) ∧
  ∃ w1, wruns (system_transfer_from v s FEE_MANAGER r) e (world f) w1 ∧
        wruns (transfer u FEE_MANAGER to n) e w1 (world f') ∧
        addr_is_tip20 u = true ∧ addr_is_tip20 v = true.
Proof.
  intros Hrun id p. unfold rebalance_swap in Hrun. fold id in Hrun. unfold from_address in Hrun. fee_steps.
  match goal with Hc : check_reservation _ _ _ _ = _ |- _ => apply check_reservation_ok in Hc as [? Hres]; subst end.
  fee_steps. rinvs.
  destruct (checked_mul U256_MAX n N_RATE) eqn:Hmul; cbn in *; [|done].
  rinvs. ariths. bprop. simplify_eq. cbn in *. fold id p in Hres |- *.
  split_and!; try done. eexists. split_and!; [by do 3 eexists|by do 3 eexists|done|done].
Qed.

Definition pool_empty (p : Pool) : Prop := reserve_user_token p = 0 ∧ reserve_validator_token p = 0.
(** The denominator of later deposits: validator reserve plus discounted user reserve. *)
Definition deposit_denom (p : Pool) : Z := reserve_validator_token p + N_RATE * reserve_user_token p / SCALE.

(** What a deposit of [n] mints, and the supply it is added to. *)
Definition minted (p : Pool) (s n s0 lq : Z) : Prop :=
  (pool_empty p ∧ s0 = s + MIN_LIQUIDITY ∧ lq = n / 2 - MIN_LIQUIDITY ∧ MIN_LIQUIDITY < n / 2) ∨
  (¬ pool_empty p ∧ s0 = s ∧ lq = n * s / deposit_denom p ∧ deposit_denom p ≠ 0).

Lemma mint_liquidity_ok id p n s e f l lq s0 f' l' :
  mint_liquidity id p n s e (f, l) = (Ok (lq, s0), (f', l')) →
  minted p s n s0 lq ∧ world f' = world f ∧ l' = l ∧
  ∃ ls, (∀ k, <[id:=k]> ls = <[id:=k]> (lp_total_supply (manager f))) ∧
    manager f' = mkFeeManager (validator_tokens (manager f)) (user_tokens (manager f)) (collected_fees (manager f))
      (pools (manager f)) ls (liquidity_balances (manager f)) (pending_fee_swap_reservation (manager f)).
Proof.
  intros Hrun. unfold mint_liquidity in Hrun. unfold minted, pool_empty, deposit_denom.
  destruct ((reserve_user_token p =? 0) && (reserve_validator_token p =? 0)) eqn:Hz; fee_steps; rinvs;
    simplify_eq; bprop.
  - ariths. split_and!; try done; [left; split_and!; try done; lia|].
    eexists. split; [|reflexivity]. intros k. cbn. apply insert_insert_eq.
  - repeat match goal with Hm : (_ ← checked_mul _ _ _; _) = Some _ |- _ => apply checked_mul_div in Hm as (-> & ? & ?) end.
    ariths. split_and!; try done; [right; split_and!; try done|].
    + intros [He1 He2]. rewrite He1, He2 in Hz. done.
    + exists (lp_total_supply (manager f)). split; [done|]. by destruct (manager f).
Qed.

Lemma amm_mint_ok s u v n to e f l lq f' l' :
  amm_mint s u v n to e (f, l) = (Ok lq, (f', l')) →
  let m := manager f in let id := pool_id u v in let p := (pools m).[id] in
  u ≠ v ∧ n ≠ 0 ∧ lq ≠ 0 ∧ ∃ s0, minted p (lp_total_supply m).[id] n s0 lq ∧
    reserve_validator_token p + n ≤ U128_MAX ∧
    manager f' = with_pool m id (mkPool (reserve_user_token p) (reserve_validator_token p + n)) (s0 + lq)
      (<[(id, to) := (liquidity_balances m).[(id, to)] + lq]> (liquidity_balances m)) ∧
    wruns (system_transfer_from v s FEE_MANAGER n) e (world f) (world f') ∧
    addr_is_tip20 u = true ∧ addr_is_tip20 v = true.
Proof.
  intros Hrun m id p. unfold amm_mint in Hrun. fold id in Hrun.
  unfold validate_usd_currency, from_address, get_lp_supply, get_liquidity_balances in Hrun. fee_steps.
  match goal with Hm : mint_liquidity _ _ _ _ _ _ = (_, ?st) |- _ => destruct st as [f1 l1];
    apply mint_liquidity_ok in Hm as (Hmint & Hwf & -> & ls & Hins & Hmf) end.
  cbn [fst snd] in *. fee_steps. rinvs. ariths. bprop. simplify_eq. cbn [world manager] in *. fold m id p in Hmint.
  split_and!; try done. eexists. split_and!; [exact Hmint|done| | |done|done].
  - rewrite Hmf. cbn. unfold with_pool, set_liquidity_balances, set_lp_supply, write_pool. cbn. by rewrite Hins.
  - rewrite <- Hwf. by do 3 eexists.
Qed.

Lemma amm_burn_ok s u v lq to e f l r f' l' :
  amm_burn s u v lq to e (f, l) = (Ok r, (f', l')) →
  let m := manager f in let id := pool_id u v in let p := (pools m).[id] in let S := (lp_total_supply m).[id] in
  let au := lq * reserve_user_token p / S in let av := lq * reserve_validator_token p / S in
  u ≠ v ∧ lq ≠ 0 ∧ r = (au, av) ∧ S ≠ 0 ∧ lq ≤ (liquidity_balances m).[(id, s)] ∧ lq ≤ S ∧
    au ≤ reserve_user_token p ∧ av ≤ reserve_validator_token p ∧
    (is_t1c (spec e) = true → (pending_fee_swap_reservation m).[id] ≤ reserve_validator_token p - av) ∧
    manager f' = with_pool m id (mkPool (reserve_user_token p - au) (reserve_validator_token p - av)) (S - lq)
      (<[(id, s) := (liquidity_balances m).[(id, s)] - lq]> (liquidity_balances m)) ∧
    ∃ w1, wruns (transfer u FEE_MANAGER to au) e (world f) w1 ∧
          wruns (transfer v FEE_MANAGER to av) e w1 (world f') ∧
          addr_is_tip20 u = true ∧ addr_is_tip20 v = true.
Proof.
  intros Hrun m id p S au av. unfold amm_burn in Hrun. fold id in Hrun.
  unfold validate_usd_currency, from_address, calculate_burn_amounts, get_lp_supply, get_liquidity_balances in Hrun.
  fee_steps.
  match goal with Hc : check_reservation _ _ _ _ = _ |- _ => apply check_reservation_ok in Hc as [? Hres]; subst end.
  fee_steps. rinvs. simplify_eq.
  repeat match goal with Hm : (_ ← checked_mul _ _ _; _) = Some _ |- _ => apply checked_mul_div in Hm as (-> & ? & ?) end.
  ariths. bprop. simplify_eq. cbn [world manager set_liquidity_balances set_lp_supply lp_total_supply] in *.
  split_and!; try done.
  eexists. split_and!; [by do 3 eexists|by do 3 eexists|done|done].
Qed.

Lemma fee_swap_ok u v n e f l r f' l' :
  execute_fee_swap u v n e (f, l) = (Ok r, (f', l')) →
  let id := pool_id u v in let p := (pools (manager f)).[id] in
  r = n * M_RATE / SCALE ∧ r ≤ reserve_validator_token p ∧ reserve_user_token p + n ≤ U128_MAX ∧
  f' = mkFeeWorld (world f)
         (write_pool id (mkPool (reserve_user_token p + n) (reserve_validator_token p - r)) (manager f)) ∧ l' = l.
Proof.
  intros Hrun id p. unfold execute_fee_swap in Hrun. fold id in Hrun. fee_steps. rinvs.
  match goal with Hc : compute_amount_out _ = _ |- _ => apply compute_amount_out_ok in Hc as [? _] end.
  ariths. bprop. by simplify_eq.
Qed.

(** What the validator token of a pool must still cover during the transaction. *)
Definition reserve_for (e : Env) (id : B256) (n : Z) (m : TipFeeManager) : TipFeeManager :=
  if is_t1c (spec e) then write_reservation id (n * M_RATE / SCALE) m else m.

Lemma collect_pre_ok p u n b sk e f l r f' l' :
  collect_fee_pre_tx p u n b sk e (f, l) = (Ok r, (f', l')) →
  let vt := get_validator_token (manager f) b in let id := pool_id u vt in
  r = u ∧ addr_is_tip20 u = true ∧ wruns (transfer_fee_pre_tx u p n) e (world f) (world f') ∧
  if negb (u =? vt) && negb sk then
    n * M_RATE / SCALE ≤ reserve_validator_token (pools (manager f)).[id] ∧
    manager f' = reserve_for e id n (manager f)
  else manager f' = manager f.
Proof.
  intros Hrun vt id. unfold collect_fee_pre_tx, check_sufficient_liquidity, reserve_pool_liquidity,
    ensure_transfer_authorized, from_address in Hrun. unfold reserve_for. fee_steps.
  all: rinvs; repeat match goal with Hc : compute_amount_out _ = _ |- _ => apply compute_amount_out_ok in Hc as [? _] end.
  all: simplify_eq; ariths; cbn [world manager] in *.
  all: match goal with Hc : negb (_ =? _) && _ = _ |- _ => fold vt in Hc; rewrite Hc; clear Hc end.
  all: repeat match goal with Hc : is_t1c _ = _ |- _ => rewrite Hc; clear Hc end.
  all: bprop; split_and!; try done; by do 3 eexists.
Qed.

(** The fee swap of a settled transaction, and the fee it earns. *)
Definition fee_swapped (u v : Address) (n : Z) (m : TipFeeManager) : TipFeeManager :=
  let id := pool_id u v in let p := (pools m).[id] in
  write_pool id (mkPool (reserve_user_token p + n) (reserve_validator_token p - n * M_RATE / SCALE)) m.
Definition fee_credited (b t : Address) (n : Z) (m : TipFeeManager) : TipFeeManager :=
  if n =? 0 then m else write_collected b t ((collected_fees m).[(b, t)] + n) m.

Lemma collect_post_ok p a r t b e f l x f' l' :
  collect_fee_post_tx p a r t b e (f, l) = (Ok x, (f', l')) →
  let m := manager f in let vt := get_validator_token m b in
  let pool := (pools m).[pool_id t vt] in
  addr_is_tip20 t = true ∧ wruns (transfer_fee_post_tx t p r a) e (world f) (world f') ∧
  if t =? vt then manager f' = fee_credited b vt a m
  else
    manager f' = fee_credited b vt (a * M_RATE / SCALE) (if a =? 0 then m else fee_swapped t vt a m) ∧
    (a ≠ 0 → a * M_RATE / SCALE ≤ reserve_validator_token pool ∧ reserve_user_token pool + a ≤ U128_MAX).
Proof.
  intros Hrun m vt pool. unfold collect_fee_post_tx, from_address in Hrun.
  apply bind_ok in Hrun as (t1 & st1 & [Ht ->]%lift_ok & Hrun). rinvs. bprop.
  apply bind_ok in Hrun as ([] & [f1 l1] & (w & Hw & ->)%at_world_ok & Hrun).
  apply bind_ok in Hrun as (vt' & st2 & [-> ->]%gets_ok & Hrun). cbn [fst manager] in Hrun. fold m vt in Hrun.
  apply bind_ok_unit in Hrun as ([f2 l2] & Hswap & Hrun).
  apply bind_ok in Hrun as (amt & st3 & [Hamt ->]%lift_ok & Hrun).
  split; [done|].
  assert (∀ m2, f2 = mkFeeWorld w m2 →
    f' = mkFeeWorld w (fee_credited b vt amt m2)) as Hcred.
  { intros m2 ->. unfold increment_collected_fees in Hrun. unfold fee_credited.
    destruct (amt =? 0); fee_steps; rinvs; ariths; by simplify_eq. }
  destruct (Z.eqb_spec t1 vt) as [Heq|Hne]; cbn [negb andb] in Hswap.
  - unfold when in Hswap. apply ret_ok in Hswap as [_ [= -> ->]]. rinvs.
    rewrite (Hcred m eq_refl). split; [by do 3 eexists|done].
  - apply compute_amount_out_ok in Hamt as [-> _]. unfold when in Hswap.
    destruct (Z.eqb_spec a 0) as [->|Ha]; cbn [negb] in Hswap.
    + apply ret_ok in Hswap as [_ [= -> ->]]. rewrite (Hcred m eq_refl). split; [by do 3 eexists|]. done.
    + apply bind_ok in Hswap as (o & [f3 l3] & Hsw & Hret). apply fee_swap_ok in Hsw as (-> & Hle & Hmax & -> & ->).
      apply ret_ok in Hret as [_ [= -> ->]]. cbn [world manager] in *.
      rewrite (Hcred _ eq_refl). cbn [world manager]. split; [by do 3 eexists|]. done.
Qed.

Lemma distribute_ok v t e f l x f' l' :
  distribute_fees v t e (f, l) = (Ok x, (f', l')) →
  let n := (collected_fees (manager f)).[(v, t)] in
  (n = 0 ∧ f' = f) ∨
  (n ≠ 0 ∧ addr_is_tip20 t = true ∧ manager f' = write_collected v t 0 (manager f) ∧
   wruns (transfer t FEE_MANAGER v n) e (world f) (world f')).
Proof.
  intros Hrun n. unfold distribute_fees, from_address in Hrun. fee_steps; rinvs; bprop; simplify_eq; [by left|].
  right. split_and!; try done. by do 3 eexists.
Qed.

Lemma set_validator_token_ok s t b e f l x f' l' :
  set_validator_token s t b e (f, l) = (Ok x, (f', l')) →
  s ≠ b ∧ is_tip20 (world f) t = true ∧ f' = mkFeeWorld (world f) (write_validator_token s t (manager f)).
Proof. intros Hrun. unfold set_validator_token in Hrun. fee_steps; bprop; by simplify_eq. Qed.

Lemma set_user_token_ok s t e f l x f' l' :
  set_user_token s t e (f, l) = (Ok x, (f', l')) →
  is_tip20 (world f) t = true ∧ world f' = world f ∧
  (manager f' = manager f ∨ manager f' = write_user_token s t (manager f)).
Proof. intros Hrun. unfold set_user_token in Hrun. fee_steps; bprop; simplify_eq; auto. Qed.
End operations.

(** ** Calls *)
Inductive FeeCall :=
| FWorld (c : WorldCall)
| FSetValidatorToken (sender t beneficiary : Address)
| FSetUserToken (sender t : Address)
| FRebalanceSwap (sender user_token validator_token : Address) (amount_out : Z) (to : Address)
| FMint (sender user_token validator_token : Address) (amount : Z) (to : Address)
| FBurn (sender user_token validator_token : Address) (liquidity : Z) (to : Address)
| FDistributeFees (validator t : Address)
| FCollectPre (fee_payer user_token : Address) (max_amount : Z) (beneficiary : Address) (skip : bool)
| FCollectPost (fee_payer : Address) (actual_spending refund_amount : Z) (fee_token beneficiary : Address)
| FEndTransaction.

Section invariants.
Context `{Primitives}.

Definition fdiscard {A} (m : M FeeWorld A) : M FeeWorld unit := m;; mret tt.

Definition exec_fee (c : FeeCall) : M FeeWorld unit :=
  match c with
  | FWorld c => at_world (exec_world c)
  | FSetValidatorToken s t b => set_validator_token s t b
  | FSetUserToken s t => set_user_token s t
  | FRebalanceSwap s u v n to => fdiscard (rebalance_swap s u v n to)
  | FMint s u v n to => fdiscard (amm_mint s u v n to)
  | FBurn s u v n to => fdiscard (amm_burn s u v n to)
  | FDistributeFees v t => distribute_fees v t
  | FCollectPre p u n b sk => fdiscard (collect_fee_pre_tx p u n b sk)
  | FCollectPost p a r t b => collect_fee_post_tx p a r t b
  | FEndTransaction => at_manager (modify clear_transient)
  end.

(** Amounts are unsigned. *)
Definition fee_amounts_ok (c : FeeCall) : Prop :=
  match c with
  | FRebalanceSwap _ _ _ n _ | FMint _ _ _ n _ | FBurn _ _ _ n _ | FCollectPre _ _ n _ _ => 0 ≤ n
  | FCollectPost _ a r _ _ => 0 ≤ a ∧ 0 ≤ r
  | _ => True
  end.

(** ** The pools *)
Definition lp_sum (m : TipFeeManager) (id : B256) : Z :=
  msum (λ k b, if k.1 =? id then b else 0) (liquidity_balances m).

Record PoolInv (m : TipFeeManager) (id : B256) : Prop := {
  pl_user : 0 ≤ reserve_user_token (pools m).[id] ≤ U128_MAX;
  pl_validator : 0 ≤ reserve_validator_token (pools m).[id] ≤ U128_MAX;
  pl_balances a : 0 ≤ (liquidity_balances m).[(id, a)];
  pl_supply :
    ((lp_total_supply m).[id] = 0 ∧ lp_sum m id = 0) ∨
    (¬ pool_empty (pools m).[id] ∧ (lp_total_supply m).[id] = MIN_LIQUIDITY + lp_sum m id);
}.

Lemma lp_sum_write m id id' a n :
  msum (λ k b, if k.1 =? id then b else 0) (<[(id', a):=n]> (liquidity_balances m)) =
  lp_sum m id + (if id' =? id then n - (liquidity_balances m).[(id', a)] else 0).
Proof.
  unfold lp_sum. rewrite (msum_write _ _ (id', a)); cbn; [|by case_match]. case_match; lia.
Qed.

Lemma lp_sum_nonneg m id : (∀ a, 0 ≤ (liquidity_balances m).[(id, a)]) → 0 ≤ lp_sum m id.
Proof.
  intros Hb. apply msum_nonneg. intros [i a] b Hk. cbn. destruct (Z.eqb_spec i id) as [->|]; [|done].
  specialize (Hb a). by rewrite (mread_lookup _ _ _ Hk) in Hb.
Qed.

(** Changing one pool leaves the others as they are. *)
Lemma with_pool_other m id id' p s a n :
  id' ≠ id → PoolInv m id' → PoolInv (with_pool m id p s (<[(id, a):=n]> (liquidity_balances m))) id'.
Proof.
  intros Hne [Hu Hv Hb Hs]. split; cbn.
  - by rewrite mread_insert_ne.
  - by rewrite mread_insert_ne.
  - intros a'. rewrite mread_insert_ne by congruence. apply Hb.
  - rewrite !mread_insert_ne by done. unfold lp_sum in *. cbn. rewrite lp_sum_write.
    rewrite (proj2 (Z.eqb_neq id id')) by done. by rewrite Z.add_0_r.
Qed.

Lemma write_pool_other m id id' p : id' ≠ id → PoolInv m id' → PoolInv (write_pool id p m) id'.
Proof. intros Hne [Hu Hv Hb Hs]. split; cbn; rewrite ?mread_insert_ne by done; done. Qed.

(** Reserves move while the LP tokens stand still. *)
Lemma write_pool_inv m id p :
  PoolInv m id → 0 ≤ reserve_user_token p ≤ U128_MAX → 0 ≤ reserve_validator_token p ≤ U128_MAX →
  ¬ pool_empty p → PoolInv (write_pool id p m) id.
Proof.
  intros [Hu Hv Hb Hs] Hp1 Hp2 Hp. split; cbn; rewrite ?mread_insert_eq; try done.
  destruct Hs as [?|[_ Hs]]; [by left|]. right. done.
Qed.

Lemma burn_amounts_left lq S r : 0 ≤ r → 0 < lq → lq < S → 0 ≤ r - lq * r / S ∧ (0 < r → 0 < r - lq * r / S).
Proof.
  intros Hr Hl HS. pose proof (Z.div_mod (lq * r) S ltac:(lia)) as Hd. pose proof (Z.mod_pos_bound (lq * r) S ltac:(lia)).
  split; [|intros]; nia.
Qed.

Lemma burn_pool_inv m id a lq :
  let p := (pools m).[id] in let S := (lp_total_supply m).[id] in
  let au := lq * reserve_user_token p / S in let av := lq * reserve_validator_token p / S in
  PoolInv m id → 0 < lq → S ≠ 0 → lq ≤ (liquidity_balances m).[(id, a)] →
  PoolInv (with_pool m id (mkPool (reserve_user_token p - au) (reserve_validator_token p - av)) (S - lq)
             (<[(id, a) := (liquidity_balances m).[(id, a)] - lq]> (liquidity_balances m))) id.
Proof.
  intros p S au av [Hu Hv Hb Hs] Hl HS Hle. destruct Hs as [(? & _)|[Hne Hs]]; [done|].
  assert (lq ≤ lp_sum m id) as Hsum.
  { etrans; [exact Hle|].
    pose proof (msum_elem_le (λ k b, if k.1 =? id then b else 0) (liquidity_balances m) (id, a)) as He.
    cbn in He. rewrite Z.eqb_refl in He. apply He; [|done].
    intros [i b] n Hk. cbn. destruct (Z.eqb_spec i id) as [->|]; [|done].
    specialize (Hb b). by rewrite (mread_lookup _ _ _ Hk) in Hb. }
  assert (lq < S) as HlS by (unfold MIN_LIQUIDITY in *; subst S; lia).
  destruct (burn_amounts_left lq S (reserve_user_token p)) as [Hu1 Hu2]; [apply Hu|done|done|].
  destruct (burn_amounts_left lq S (reserve_validator_token p)) as [Hv1 Hv2]; [apply Hv|done|done|].
  fold au in Hu1, Hu2. fold av in Hv1, Hv2.
  assert (0 ≤ au ∧ 0 ≤ av) as [? ?].
  { split; apply Z.div_pos; try lia; apply Z.mul_nonneg_nonneg; try lia; [apply Hu|apply Hv]. }
  split; cbn; rewrite ?mread_insert_eq; cbn; fold p in Hu, Hv.
  - lia.
  - lia.
  - intros a'. rewrite mread_insert. case_decide; simplify_eq; [lia|apply Hb].
  - right. split.
    + unfold pool_empty in *. fold p in Hne. cbn. lia.
    + unfold lp_sum at 1. cbn. rewrite lp_sum_write, Z.eqb_refl. unfold S. lia.
Qed.

Lemma mint_pool_inv m id a n s0 lq :
  let p := (pools m).[id] in
  PoolInv m id → 0 < n → lq ≠ 0 → minted p (lp_total_supply m).[id] n s0 lq →
  reserve_validator_token p + n ≤ U128_MAX →
  PoolInv (with_pool m id (mkPool (reserve_user_token p) (reserve_validator_token p + n)) (s0 + lq)
             (<[(id, a) := (liquidity_balances m).[(id, a)] + lq]> (liquidity_balances m))) id.
Proof.
  intros p [Hu Hv Hb Hs] Hn Hl Hmint Hmax. fold p in Hu, Hv, Hs.
  pose proof (lp_sum_nonneg m id Hb) as Hsum.
  assert (0 < lq) as Hlq.
  { destruct Hmint as [(_ & _ & -> & ?)|(Hne & _ & -> & Hd)]; [lia|].
    enough (0 ≤ n * (lp_total_supply m).[id] / deposit_denom p) by lia.
    assert (0 ≤ deposit_denom p).
    { unfold deposit_denom. assert (0 ≤ N_RATE * reserve_user_token p / SCALE); [|lia].
      apply Z.div_pos; [unfold N_RATE; lia|done]. }
    apply Z.div_pos; [|lia]. unfold MIN_LIQUIDITY in *. destruct Hs as [(-> & _)|[_ ->]]; nia. }
  split; cbn; rewrite ?mread_insert_eq; cbn.
  - done.
  - lia.
  - intros a'. rewrite mread_insert. case_decide; simplify_eq; [|apply Hb]. specialize (Hb a'). lia.
  - right. split; [unfold pool_empty; cbn; lia|].
    unfold lp_sum at 1. cbn. rewrite lp_sum_write, Z.eqb_refl.
    destruct Hmint as [(He & -> & _)|(Hne & -> & -> & _)];
      destruct Hs as [(Hs & Hz)|[? Hs]]; rewrite Hs in *; try done; try lia.
    rewrite Z.mul_0_r, Zdiv_0_l in Hl. done.
Qed.

Lemma PoolInv_ext m m' id :
  pools m' = pools m → lp_total_supply m' = lp_total_supply m → liquidity_balances m' = liquidity_balances m →
  PoolInv m id → PoolInv m' id.
Proof.
  intros Hp Hs Hl [Hu Hv Hb Hsup]. split; unfold lp_sum in *; rewrite ?Hp, ?Hs, ?Hl; done.
Qed.

Lemma PoolInv_empty id : PoolInv fee_manager_empty id.
Proof. split; cbn; try done. by left. Qed.

Lemma fee_swapped_inv u v n m id :
  let p := (pools m).[pool_id u v] in
  (∀ i, PoolInv m i) → 0 < n → n * M_RATE / SCALE ≤ reserve_validator_token p →
  reserve_user_token p + n ≤ U128_MAX → PoolInv (fee_swapped u v n m) id.
Proof.
  intros p HI Hn Hr Hmax. unfold fee_swapped. fold p.
  destruct (decide (id = pool_id u v)) as [->|Hne]; [|by apply write_pool_other].
  pose proof (HI (pool_id u v)) as [Hu Hv _ _]. fold p in Hu, Hv.
  assert (0 ≤ n * M_RATE / SCALE) by (apply Z.div_pos; [unfold M_RATE; lia|done]).
  apply write_pool_inv; cbn; [apply HI|lia|lia|]. unfold pool_empty. cbn. lia.
Qed.

Lemma exec_fee_pool_inv c e f l x f' l' :
  fee_amounts_ok c → (∀ id, PoolInv (manager f) id) → exec_fee c e (f, l) = (Ok x, (f', l')) →
  ∀ id, PoolInv (manager f') id.
Proof.
  intros Hok HI Hrun id.
  destruct c; cbn [exec_fee fee_amounts_ok] in *; unfold fdiscard in Hrun; fee_steps; simplify_eq.
  - apply HI.
  - apply set_validator_token_ok in Hrun as (_ & _ & ->). by apply (PoolInv_ext (manager f)).
  - apply set_user_token_ok in Hrun as (_ & _ & [-> | ->]); [done|]. by apply (PoolInv_ext (manager f)).
  - apply rebalance_ok in Hrun0 as (Hn & Hr & Hle & Hmax & _ & -> & _).
    destruct (decide (id = pool_id user_token validator_token)) as [->|Hne]; [|by apply write_pool_other].
    pose proof (HI (pool_id user_token validator_token)) as [Hu Hv _ _].
    assert (0 < a); [|apply write_pool_inv; cbn; [apply HI|lia|lia|unfold pool_empty; cbn; lia]].
    enough (0 ≤ amount_out * N_RATE / SCALE) by lia. apply Z.div_pos; [unfold N_RATE; lia|done].
  - apply amm_mint_ok in Hrun0 as (_ & Hn & Hl & s0 & Hmint & Hmax & -> & _).
    destruct (decide (id = pool_id user_token validator_token)) as [->|Hne]; [|by apply with_pool_other].
    apply mint_pool_inv; try done. lia.
  - apply amm_burn_ok in Hrun0 as (_ & Hl & _ & HS & Hle & _ & _ & _ & _ & -> & _).
    destruct (decide (id = pool_id user_token validator_token)) as [->|Hne]; [|by apply with_pool_other].
    apply burn_pool_inv; try done. lia.
  - apply distribute_ok in Hrun as [[_ ->]|(_ & _ & -> & _)]; [done|]. by apply (PoolInv_ext (manager f)).
  - apply collect_pre_ok in Hrun0 as (_ & _ & _ & Hm). case_match; [destruct Hm as [_ Hm]|]; rewrite Hm; [|done].
    unfold reserve_for. case_match; [|done]. by apply (PoolInv_ext (manager f)).
  - apply collect_post_ok in Hrun as (_ & _ & Hm).
    assert (∀ m n t, PoolInv m id → PoolInv (fee_credited beneficiary t n m) id) as Hcr.
    { intros m n t Hm0. unfold fee_credited. destruct (n =? 0); [done|]. by apply (PoolInv_ext m). }
    destruct (fee_token =? _); [rewrite Hm; by apply Hcr|]. destruct Hm as [-> Hsw]. apply Hcr.
    destruct (Z.eqb_spec actual_spending 0) as [|Hne]; [apply HI|]. destruct (Hsw Hne) as [Hs1 Hs2].
    apply fee_swapped_inv; try done; try apply HI. lia.
  - by apply (PoolInv_ext (manager f)).
Qed.

(** States reached from an empty manager by successful calls that satisfy [P]. *)
Inductive fee_reach (P : FeeWorld → FeeCall → Prop) : FeeWorld → Prop :=
| FReach_init : fee_reach P fee_world_empty
| FReach_next f f' e c l l' x :
    fee_reach P f → P f c → exec_fee c e (f, l) = (Ok x, (f', l')) → fee_reach P f'.

Lemma fee_reach_pools P f id :
  (∀ f c, P f c → fee_amounts_ok c) → fee_reach P f → PoolInv (manager f) id.
Proof.
  intros HP Hr. revert id. induction Hr as [|f f' e c l l' x _ IH Hc Hrun]; [apply PoolInv_empty|].
  eapply exec_fee_pool_inv; eauto.
Qed.

(** LP tokens account for the whole pool. Whatever calls are made, a pool either has
    no LP tokens at all, or its supply is the locked minimum plus the balances of its
    holders and at least one of its reserves is positive; balances are unsigned and the
    reserves fit in 128 bits. *)
Theorem lp_supply_conserved f id :
  fee_reach (λ _ c, fee_amounts_ok c) f →
  let m := manager f in let p := (pools m).[id] in
  ((lp_total_supply m).[id] = 0 ∧ lp_sum m id = 0 ∨
   (lp_total_supply m).[id] = MIN_LIQUIDITY + lp_sum m id ∧ 0 < reserve_user_token p + reserve_validator_token p) ∧
  (∀ a, 0 ≤ (liquidity_balances m).[(id, a)]) ∧
  0 ≤ reserve_user_token p ≤ U128_MAX ∧ 0 ≤ reserve_validator_token p ≤ U128_MAX.
Proof.
  intros Hr m p. destruct (fee_reach_pools (λ _ c, fee_amounts_ok c) f id (λ _ _ Hc, Hc) Hr) as [Hu Hv Hb Hs].
  split_and!; try apply Hu; try apply Hv; [|done].
  destruct Hs as [?|[Hne ?]]; [by left|right]. split; [done|]. unfold pool_empty in Hne. subst m p. lia.
Qed.

(** ** Share values *)
(** The value of a pool in validator tokens, scaled: the user reserve counts at the
    rebalancing rate. *)
Definition pool_value (p : Pool) : Z := SCALE * reserve_validator_token p + N_RATE * reserve_user_token p.

Lemma rebalance_value n p :
  pool_value p ≤ pool_value (mkPool (reserve_user_token p - n) (reserve_validator_token p + (n * N_RATE / SCALE + 1))).
Proof.
  unfold pool_value. cbn -[Z.mul SCALE N_RATE]. pose proof (div_floor_spec (n * N_RATE) SCALE ltac:(done)). lia.
Qed.

Lemma fee_swap_value n p :
  0 ≤ n → pool_value p ≤ pool_value (mkPool (reserve_user_token p + n) (reserve_validator_token p - n * M_RATE / SCALE)).
Proof.
  intros Hn. unfold pool_value. cbn -[Z.mul SCALE N_RATE M_RATE].
  pose proof (div_floor_spec (n * M_RATE) SCALE ltac:(done)). unfold M_RATE, N_RATE, SCALE in *. lia.
Qed.

Lemma burn_value lq S p :
  0 < S →
  pool_value p * (S - lq) ≤
  pool_value (mkPool (reserve_user_token p - lq * reserve_user_token p / S)
                     (reserve_validator_token p - lq * reserve_validator_token p / S)) * S.
Proof.
  intros HS. unfold pool_value. cbn -[Z.mul SCALE N_RATE].
  pose proof (div_floor_spec (lq * reserve_user_token p) S HS).
  pose proof (div_floor_spec (lq * reserve_validator_token p) S HS).
  set (au := lq * reserve_user_token p / S) in *. set (av := lq * reserve_validator_token p / S) in *.
  clearbody au av. unfold SCALE, N_RATE. lia.
Qed.

Lemma mint_value n S p :
  0 ≤ n → 0 ≤ S → 0 < deposit_denom p →
  let lq := n * S / deposit_denom p in
  pool_value p * (S + lq) ≤
  pool_value (mkPool (reserve_user_token p) (reserve_validator_token p + n)) * S + (SCALE - 1) * lq.
Proof.
  intros Hn HS Hd lq. assert (0 ≤ lq) as Hlq by (apply Z.div_pos; nia).
  pose proof (div_floor_spec (n * S) (deposit_denom p) Hd) as Hf. fold lq in Hf.
  assert (pool_value p < SCALE * deposit_denom p + SCALE) as Hv.
  { unfold pool_value, deposit_denom. pose proof (div_floor_spec (N_RATE * reserve_user_token p) SCALE ltac:(done)). lia. }
  assert (pool_value (mkPool (reserve_user_token p) (reserve_validator_token p + n)) = pool_value p + SCALE * n) as ->
    by (unfold pool_value; cbn -[Z.mul SCALE N_RATE]; lia).
  generalize dependent lq. generalize dependent (pool_value p). generalize dependent (deposit_denom p).
  intros d Hd v Hv lq Hlq Hf.
  assert (v * lq ≤ (SCALE * d + (SCALE - 1)) * lq) by (apply Z.mul_le_mono_nonneg_r; lia).
  unfold SCALE in *. lia.
Qed.

(** C19: the value of an LP share never falls. Across every call, the value of a pool
    (validator reserve plus user reserve at the rebalancing rate) per LP token does not
    decrease: swaps, rebalances and burns round in favour of the pool, and a deposit
    dilutes the other holders by less than one base unit per minted LP token. *)
Theorem share_value_preserved c e f l x f' l' id :
  fee_reach (λ _ c, fee_amounts_ok c) f → fee_amounts_ok c → exec_fee c e (f, l) = (Ok x, (f', l')) →
  let S := (lp_total_supply (manager f)).[id] in let S' := (lp_total_supply (manager f')).[id] in
  let v := pool_value (pools (manager f)).[id] in let v' := pool_value (pools (manager f')).[id] in
  0 < S →
  v * S' ≤ v' * S + (match c with FMint _ _ _ _ _ => (SCALE - 1) * (S' - S) | _ => 0 end).
Proof.
  intros Hr Hok Hrun S S' v v' HS. unfold S, S', v, v' in *. clear S S' v v'.
  pose proof (fee_reach_pools (λ _ c, fee_amounts_ok c) f id (λ _ _ Hc, Hc) Hr) as [Hu Hv _ Hsup].
  assert (∀ p', manager f' = write_pool id p' (manager f) → pool_value (pools (manager f)).[id] ≤ pool_value p' →
    pool_value (pools (manager f)).[id] * (lp_total_supply (manager f')).[id] ≤
    pool_value (pools (manager f')).[id] * (lp_total_supply (manager f)).[id] + 0) as Hsame.
  { intros p' -> Hle. cbn. rewrite mread_insert_eq. nia. }
  destruct c; cbn [exec_fee fee_amounts_ok] in *; unfold fdiscard in Hrun; fee_steps; simplify_eq.
  - lia.
  - apply set_validator_token_ok in Hrun as (_ & _ & ->). cbn. lia.
  - apply set_user_token_ok in Hrun as (_ & _ & [-> | ->]); cbn; lia.
  - apply rebalance_ok in Hrun0 as (_ & -> & _ & _ & _ & Hm & _).
    destruct (decide (pool_id user_token validator_token = id)) as [Heq|Hne].
    + rewrite Heq in Hm. apply (Hsame _ Hm), rebalance_value.
    + rewrite Hm. cbn. rewrite mread_insert_ne by done. lia.
  - apply amm_mint_ok in Hrun0 as (_ & _ & _ & s0 & Hmint & _ & Hm & _). rewrite Hm. cbn -[SCALE].
    destruct (decide (pool_id user_token validator_token = id)) as [Heq|Hne];
      [|rewrite !mread_insert_ne by done; lia].
    rewrite Heq in *. rewrite !mread_insert_eq.
    destruct Hmint as [(He & _)|(_ & -> & -> & Hd)]; [destruct Hsup as [[Hs _]|[? _]]; [lia|done]|].
    replace (_ + _ - _) with (amount * (lp_total_supply (manager f)).[id] / deposit_denom (pools (manager f)).[id]) by lia.
    apply mint_value; [done|lia|].
    assert (0 ≤ N_RATE * reserve_user_token (pools (manager f)).[id] / SCALE)
      by (apply Z.div_pos; [unfold N_RATE; lia|done]).
    unfold deposit_denom in *. lia.
  - apply amm_burn_ok in Hrun0 as (_ & _ & _ & _ & _ & _ & _ & _ & _ & Hm & _). rewrite Hm. cbn.
    destruct (decide (pool_id user_token validator_token = id)) as [Heq|Hne];
      [|rewrite !mread_insert_ne by done; lia].
    rewrite Heq in *. rewrite !mread_insert_eq, Z.add_0_r. by apply burn_value.
  - apply distribute_ok in Hrun as [[_ ->]|(_ & _ & -> & _)]; cbn; lia.
  - apply collect_pre_ok in Hrun0 as (_ & _ & _ & Hm).
    destruct (negb _ && negb _); [destruct Hm as [_ Hm]|]; rewrite Hm; [|lia].
    unfold reserve_for. case_match; cbn; lia.
  - apply collect_post_ok in Hrun as (_ & _ & Hm).
    assert (∀ m n t, pools (fee_credited beneficiary t n m) = pools m ∧
      lp_total_supply (fee_credited beneficiary t n m) = lp_total_supply m) as Hcr
      by (intros m n t; unfold fee_credited; by destruct (n =? 0)).
    destruct (fee_token =? _); [|destruct Hm as [Hm _]]; rewrite Hm; rewrite !(proj1 (Hcr _ _ _)), !(proj2 (Hcr _ _ _)); [lia|].
    destruct (Z.eqb_spec actual_spending 0) as [|_]; [lia|]. unfold fee_swapped. cbn.
    rewrite mread_insert. case_decide as Heq; [|lia]. rewrite Heq.
    pose proof (fee_swap_value actual_spending (pools (manager f)).[id]). nia.
  - cbn. lia.
Qed.

(** ** Reservations *)
(** The calls the body of a transaction can make, in a block of beneficiary [b]. *)
Definition body_call (b : Address) (c : FeeCall) : Prop :=
  match c with
  | FCollectPre _ _ _ _ _ | FCollectPost _ _ _ _ _ | FEndTransaction => False
  | FSetValidatorToken _ _ b' => b' = b
  | _ => fee_amounts_ok c
  end.

Inductive body_run (e : Env) (b : Address) : FeeWorld → FeeWorld → Prop :=
| Body_refl f : body_run e b f f
| Body_step f f1 f2 c l l' x :
    body_call b c → exec_fee c e (f, l) = (Ok x, (f1, l')) → body_run e b f1 f2 → body_run e b f f2.

(** The reservation of a pool is covered by its validator reserve. *)
Definition covered (m : TipFeeManager) (id : B256) : Prop :=
  (pending_fee_swap_reservation m).[id] ≤ reserve_validator_token (pools m).[id].

Lemma body_step_covered c e b f l x f' l' id :
  is_t1c (spec e) = true → body_call b c → exec_fee c e (f, l) = (Ok x, (f', l')) → covered (manager f) id →
  covered (manager f') id ∧
  pending_fee_swap_reservation (manager f') = pending_fee_swap_reservation (manager f) ∧
  get_validator_token (manager f') b = get_validator_token (manager f) b.
Proof.
  intros HT Hc Hrun Hcov. unfold covered in *.
  destruct c; cbn [exec_fee body_call fee_amounts_ok] in *; try done; unfold fdiscard in Hrun; fee_steps; simplify_eq.
  - done.
  - apply set_validator_token_ok in Hrun as (Hne & _ & ->). split_and!; try done.
    unfold get_validator_token. cbn. by rewrite mread_insert_ne.
  - apply set_user_token_ok in Hrun as (_ & _ & [-> | ->]); done.
  - apply rebalance_ok in Hrun0 as (_ & _ & _ & _ & Hres & -> & _). split_and!; try done. cbn.
    rewrite mread_insert. case_decide as Heq; [subst id; by apply Hres|done].
  - apply amm_mint_ok in Hrun0 as (_ & _ & _ & s0 & _ & _ & -> & _). split_and!; try done. cbn.
    rewrite mread_insert. case_decide as Heq; [subst id; cbn; lia|done].
  - apply amm_burn_ok in Hrun0 as (_ & _ & _ & _ & _ & _ & _ & _ & Hres & -> & _). split_and!; try done. cbn.
    rewrite mread_insert. case_decide as Heq; [subst id; by apply Hres|done].
  - apply distribute_ok in Hrun as [[_ ->]|(_ & _ & -> & _)]; done.
Qed.

Lemma body_run_covered e b f f' id :
  is_t1c (spec e) = true → body_run e b f f' → covered (manager f) id →
  covered (manager f') id ∧
  pending_fee_swap_reservation (manager f') = pending_fee_swap_reservation (manager f) ∧
  get_validator_token (manager f') b = get_validator_token (manager f) b.
Proof.
  intros HT. induction 1 as [f|f f1 f2 c l l' x Hc Hrun _ IH]; intros Hcov; [done|].
  destruct (body_step_covered _ _ _ _ _ _ _ _ id HT Hc Hrun Hcov) as (H1 & H2 & H3).
  destruct (IH H1) as (H4 & H5 & H6). split_and!; [done|congruence|congruence].
Qed.

Lemma body_run_reach e b f f' :
  fee_reach (λ _ c, fee_amounts_ok c) f → body_run e b f f' → fee_reach (λ _ c, fee_amounts_ok c) f'.
Proof.
  intros Hr Hb. induction Hb as [f|f f1 f2 c l l' x Hc Hrun _ IH]; [done|].
  apply IH. eapply FReach_next; [exact Hr| |exact Hrun]. by destruct c.
Qed.

(** Enough validator reserve is all a fee swap needs, up to the width of the reserves. *)
Lemma fee_swap_succeeds u v a e f l :
  let p := (pools (manager f)).[pool_id u v] in
  0 ≤ a → 0 ≤ reserve_user_token p → a * M_RATE / SCALE ≤ reserve_validator_token p ≤ U128_MAX →
  reserve_user_token p + a ≤ U128_MAX →
  (execute_fee_swap u v a e (f, l)).1 = Ok (a * M_RATE / SCALE).
Proof.
  intros p Ha Hu Hv Hmax. unfold execute_fee_swap, compute_amount_out, checked_mul, try_into, checked_add, checked_sub.
  rewrite (proj2 (Z.leb_le (a * M_RATE) U256_MAX)) by (unfold U256_MAX, U128_MAX, M_RATE in *; lia).
  cbv beta iota delta [mbind M_bind gets lift ok_or option_map require mret M_ret throw fst]. fold p.
  rewrite (proj2 (Z.ltb_ge (reserve_validator_token p) (a * M_RATE / SCALE))) by lia. cbn [negb].
  rewrite (proj2 (Z.leb_le a U128_MAX)), (proj2 (Z.leb_le (a * M_RATE / SCALE) U128_MAX)) by lia.
  rewrite (proj2 (Z.leb_le (reserve_user_token p + a) U128_MAX)) by lia.
  rewrite (proj2 (Z.leb_le (a * M_RATE / SCALE) (reserve_validator_token p))) by lia. done.
Qed.

(** C33: a reserved fee swap cannot be starved (T1C). Once [collect_fee_pre_tx] accepted a
    transaction whose fee needs a swap, then whatever the transaction itself does to the
    pools, the validator keeps its fee token and the swap of any amount up to the
    maximum succeeds at the fixed rate, as long as the pool's user reserve can take it. *)
Theorem reserved_swap_succeeds p u n b e f l r f1 l1 f2 a l2 :
  fee_reach (λ _ c, fee_amounts_ok c) f → is_t1c (spec e) = true →
  0 ≤ a ≤ n → u ≠ get_validator_token (manager f) b →
  collect_fee_pre_tx p u n b false e (f, l) = (Ok r, (f1, l1)) → body_run e b f1 f2 →
  let vt := get_validator_token (manager f2) b in
  reserve_user_token (pools (manager f2)).[pool_id u vt] + a ≤ U128_MAX →
  vt = get_validator_token (manager f) b ∧
  (execute_fee_swap u vt a e (f2, l2)).1 = Ok (a * M_RATE / SCALE).
Proof.
  intros Hr HT Ha Hne Hpre Hbody vt Hmax. unfold vt in *. clear vt.
  assert (fee_reach (λ _ c, fee_amounts_ok c) f2) as Hr2.
  { eapply body_run_reach, Hbody. apply (FReach_next _ f f1 e (FCollectPre p u n b false) l l1 tt); [done|cbn; lia|].
    cbn. unfold fdiscard, mbind, M_bind. by rewrite Hpre. }
  apply collect_pre_ok in Hpre as (_ & _ & _ & Hpre).
  rewrite (proj2 (Z.eqb_neq _ _)) in Hpre by done. cbn [negb andb] in Hpre. destruct Hpre as [Hle Hm].
  unfold reserve_for in Hm. rewrite HT in Hm.
  set (id := pool_id u (get_validator_token (manager f) b)) in *.
  assert (covered (manager f1) id) as Hcov.
  { unfold covered. rewrite Hm. cbn. by rewrite mread_insert_eq. }
  destruct (body_run_covered _ _ _ _ id HT Hbody Hcov) as (Hcov2 & Hpend & Hvt).
  assert (get_validator_token (manager f1) b = get_validator_token (manager f) b) as Hvt1 by by rewrite Hm.
  rewrite Hvt, Hvt1 in *. split; [done|]. fold id in Hmax.
  unfold covered in Hcov2. rewrite Hpend, Hm in Hcov2. cbn in Hcov2. rewrite mread_insert_eq in Hcov2.
  pose proof (fee_reach_pools (λ _ c, fee_amounts_ok c) f2 id (λ _ _ Hc, Hc) Hr2) as [Hu Hv _ _].
  apply fee_swap_succeeds; fold id; try lia.
  split; [|lia]. etrans; [|exact Hcov2]. apply Z.div_le_mono; [done|]. unfold M_RATE. lia.
Qed.

(** ** An uninitialized pool that received dust *)
(** A pool without LP tokens that holds some token refuses every deposit. *)
Definition bricked (m : TipFeeManager) (id : B256) : Prop :=
  (lp_total_supply m).[id] = 0 ∧ ¬ pool_empty (pools m).[id].

Lemma bricked_step c e f l x f' l' id :
  fee_amounts_ok c → (∀ i, PoolInv (manager f) i) → exec_fee c e (f, l) = (Ok x, (f', l')) →
  bricked (manager f) id → bricked (manager f') id.
Proof.
  intros Hok HI Hrun Hbr. unfold bricked in *. destruct Hbr as [HS Hne].
  destruct c; cbn [exec_fee fee_amounts_ok] in *; unfold fdiscard in Hrun; fee_steps; simplify_eq.
  - done.
  - by apply set_validator_token_ok in Hrun as (_ & _ & ->).
  - by apply set_user_token_ok in Hrun as (_ & _ & [-> | ->]).
  - apply rebalance_ok in Hrun0 as (_ & Ha & _ & _ & _ & -> & _). split; [done|]. cbn. rewrite mread_insert.
    case_decide as Heq; [subst id|done]. pose proof (HI (pool_id user_token validator_token)) as [_ Hv _ _].
    assert (0 ≤ amount_out * N_RATE / SCALE) by (apply Z.div_pos; [unfold N_RATE; lia|done]).
    unfold pool_empty. cbn. lia.
  - apply amm_mint_ok in Hrun0 as (_ & _ & Hl & s0 & Hmint & _ & -> & _). cbn. rewrite !mread_insert.
    case_decide as Heq; [subst id|done]. exfalso.
    destruct Hmint as [(? & _)|(_ & _ & -> & _)]; [done|]. rewrite HS, Z.mul_0_r, Zdiv_0_l in Hl. done.
  - apply amm_burn_ok in Hrun0 as (_ & _ & _ & HS' & _ & _ & _ & _ & _ & -> & _). cbn. rewrite !mread_insert.
    case_decide as Heq; [by subst id|done].
  - by apply distribute_ok in Hrun as [[_ ->]|(_ & _ & -> & _)].
  - apply collect_pre_ok in Hrun0 as (_ & _ & _ & Hm). destruct (negb _ && negb _); [destruct Hm as [_ Hm]|]; rewrite Hm; [|done].
    unfold reserve_for. by destruct (is_t1c (spec e)).
  - apply collect_post_ok in Hrun as (_ & _ & Hm).
    assert (∀ m n t, pools (fee_credited beneficiary t n m) = pools m ∧
      lp_total_supply (fee_credited beneficiary t n m) = lp_total_supply m) as Hcr
      by (intros m n t; unfold fee_credited; by destruct (n =? 0)).
    destruct (fee_token =? _); [|destruct Hm as [Hm _]]; rewrite Hm; rewrite !(proj1 (Hcr _ _ _)), !(proj2 (Hcr _ _ _)); [done|].
    destruct (Z.eqb_spec actual_spending 0) as [|Hnz]; [done|]. unfold fee_swapped. cbn. split; [done|].
    rewrite mread_insert. case_decide as Heq; [subst id|done].
    pose proof (HI (pool_id fee_token (get_validator_token (manager f) beneficiary))) as [Hu _ _ _].
    unfold pool_empty. cbn. lia.
  - done.
Qed.

(** One successful call, in any environment. *)
Definition fee_next (f f' : FeeWorld) : Prop :=
  ∃ e c l l' x, fee_amounts_ok c ∧ exec_fee c e (f, l) = (Ok x, (f', l')).

Lemma bricked_forever f f' id :
  rtc fee_next f f' → (∀ i, PoolInv (manager f) i) → bricked (manager f) id → bricked (manager f') id.
Proof.
  induction 1 as [f|f f1 f2 (e & c & l & l' & x & Hok & Hrun) _ IH]; intros HI Hbr; [done|].
  apply IH; [by eapply exec_fee_pool_inv|by eapply bricked_step].
Qed.

(** C34: one dust fee swap disables a pool for good. A fee of one base unit that is settled
    through a pool without liquidity succeeds (its output rounds to zero) and leaves
    the pool holding one token without any LP supply; from then on, whatever is called,
    the pool has no LP tokens and every deposit into it fails. *)
Theorem dust_swap_disables_pool p t b e f l x f' l' f2 :
  let vt := get_validator_token (manager f) b in let id := pool_id t vt in
  fee_reach (λ _ c, fee_amounts_ok c) f → t ≠ vt → (lp_total_supply (manager f)).[id] = 0 →
  collect_fee_post_tx p 1 0 t b e (f, l) = (Ok x, (f', l')) → rtc fee_next f' f2 →
  (lp_total_supply (manager f2)).[id] = 0 ∧
  ∀ s n to e2 l2, is_ok (amm_mint s t vt n to e2 (f2, l2)).1 = false.
Proof.
  intros vt id Hr Hne HS Hpost Hhist.
  pose proof (λ i, fee_reach_pools (λ _ c, fee_amounts_ok c) f i (λ _ _ Hc, Hc) Hr) as HI.
  assert (∀ i, PoolInv (manager f') i) as HI'.
  { refine (exec_fee_pool_inv (FCollectPost p 1 0 t b) e f l x f' l' _ HI Hpost). done. }
  assert (bricked (manager f') id) as Hbr.
  { apply collect_post_ok in Hpost as (_ & _ & Hm). fold vt in Hm.
    rewrite (proj2 (Z.eqb_neq t vt)) in Hm by done. destruct Hm as [-> _].
    change (1 =? 0) with false. cbv iota.
    assert (fee_credited b vt (1 * M_RATE / SCALE) (fee_swapped t vt 1 (manager f)) = fee_swapped t vt 1 (manager f)) as ->
      by reflexivity.
    unfold bricked, fee_swapped, write_pool. cbn [pools lp_total_supply]. fold id. rewrite mread_insert_eq. split; [done|].
    pose proof (HI id) as [Hu _ _ _]. unfold pool_empty. cbn. lia. }
  destruct (bricked_forever _ _ _ Hhist HI' Hbr) as [HS2 Hne2]. split; [done|].
  intros s n to e2 l2. destruct (amm_mint s t vt n to e2 (f2, l2)) as [[lq|] [f3 l3]] eqn:Hmint; [|done].
  apply amm_mint_ok in Hmint as (_ & _ & Hl & s0 & Hmint & _). fold id in Hmint. exfalso.
  destruct Hmint as [(? & _)|(_ & _ & -> & _)]; [done|]. rewrite HS2, Z.mul_0_r, Zdiv_0_l in Hl. done.
Qed.

(** The first deposit into a pool is one-sided. It puts the whole amount into the
    validator-token reserve and nothing into the user-token reserve, mints half the
    amount, and locks the minimum liquidity out of that half; the depositor pays the whole
    amount in validator tokens. *)
Theorem first_deposit_one_sided s u v n to e f l lq f' l' :
  let id := pool_id u v in
  fee_reach (λ _ c, fee_amounts_ok c) f → pool_empty (pools (manager f)).[id] →
  amm_mint s u v n to e (f, l) = (Ok lq, (f', l')) →
  (pools (manager f')).[id] = mkPool 0 n ∧
  (lp_total_supply (manager f')).[id] = n / 2 ∧
  (liquidity_balances (manager f')).[(id, to)] = (liquidity_balances (manager f)).[(id, to)] + (n / 2 - MIN_LIQUIDITY) ∧
  wruns (system_transfer_from v s FEE_MANAGER n) e (world f) (world f').
Proof.
  intros id Hr He Hrun. apply amm_mint_ok in Hrun as (_ & _ & _ & s0 & Hmint & _ & Hm & Hw & _). fold id in Hmint, Hm.
  destruct (fee_reach_pools (λ _ c, fee_amounts_ok c) f id (λ _ _ Hc, Hc) Hr) as [_ _ _ [[Hs _]|[? _]]]; [|done].
  destruct Hmint as [(_ & -> & -> & _)|[? _]]; [|done]. destruct He as [Hu Hv].
  rewrite Hm. cbn -[MIN_LIQUIDITY]. rewrite !mread_insert_eq, Hu, Hv, Hs. split_and!; try done. lia.
Qed.
End invariants.
