(* ===== verification/FeeSolvency.v ===== *)
(** * Solvency of the fee manager

    The tokens the fee manager holds cover, for every token, the reserves of its pools,
    the fees collected for validators and the fee of the transaction under way. *)
From Stdlib Require Import ZArith Lia String.
From stdpp Require Import base tactics option list fin_maps gmap sets strings.
From S2P Require Import Prelude Base StorageSet AddressRegistry Keychain TIP403 TIP20Ledger TIP20 TIP20Props TIP20Admin TIP20Holdings FeeManager FeeManagerProps.
Open Scope Z_scope.
Open Scope storage_scope.

Local Notation FEE_MANAGER := TIP_FEE_MANAGER_ADDRESS.

(** ** Sums over a list of distinct keys *)
Section psum.
Context {K : Type} `{EqDecision K}.
Implicit Types (g h : K → Z) (ks : list K) (k : K).

Definition psum g ks : Z := foldr (λ k acc, g k + acc) 0 ks.

Lemma psum_ext g h ks : (∀ k, k ∈ ks → g k = h k) → psum g ks = psum h ks.
Proof.
  induction ks as [|k ks IH]; intros Heq; cbn; [done|].
  rewrite (Heq k) by by left. f_equal. apply IH. intros k' Hk'. apply Heq. by right.
Qed.

Lemma psum_update g h ks k :
  NoDup ks → k ∈ ks → (∀ k', k' ∈ ks → k' ≠ k → h k' = g k') → psum h ks = psum g ks - g k + h k.
Proof.
  induction 1 as [|k' ks Hk' Hnd IH]; [by intros ?%elem_of_nil|]. intros Hin Heq. cbn.
  fold (psum h ks) (psum g ks).
  destruct (decide (k = k')) as [->|Hne].
  - rewrite (psum_ext h g ks); [lia|]. intros k Hk. apply Heq; [by right|]. by intros ->.
  - rewrite (Heq k') by (by left || done). rewrite IH; [lia| |].
    + by apply elem_of_cons in Hin as [?|?].
    + intros k2 Hk2. apply Heq. by right.
Qed.
End psum.

(** ** Obligations *)
Section solvency.
Context `{Primitives}.

(** What the pool of [(u, v)] owes in token [t]. *)
Definition owed_by_pool (m : TipFeeManager) (t : Address) (uv : Address * Address) : Z :=
  let p := (pools m).[pool_id uv.1 uv.2] in
  (if uv.1 =? t then reserve_user_token p else 0) + (if uv.2 =? t then reserve_validator_token p else 0).

Definition owed_to_validators (m : TipFeeManager) (t : Address) : Z :=
  msum (λ k n, if k.2 =? t then n else 0) (collected_fees m).

(** The fee a transaction under way has paid in advance: payer, token and amount. *)
Notation Pending := (option (Address * Address * Z)).
Definition owed_to_payer (g : Pending) (t : Address) : Z :=
  match g with Some (_, u, n) => if u =? t then n else 0 | None => 0 end.

Definition held (f : FeeWorld) (t : Address) : Z := (balances (ledger_of (world f) t)).[FEE_MANAGER].

Definition tip20_pair (uv : Address * Address) : Prop :=
  addr_is_tip20 uv.1 = true ∧ addr_is_tip20 uv.2 = true.

Definition solvent_manager (f : FeeWorld) (g : Pending) : Prop :=
  ∀ t ps, NoDup ps → Forall tip20_pair ps →
    psum (owed_by_pool (manager f) t) ps + owed_to_validators (manager f) t + owed_to_payer g t ≤ held f t.

(** ** Transactions *)
Definition user_call (f : FeeWorld) (c : FeeCall) : Prop :=
  fee_amounts_ok c ∧
  match c with
  | FWorld wc => call_ok (world f) wc ∧ user_world_call wc
  | FRebalanceSwap s _ _ _ _ | FMint s _ _ _ _ | FBurn s _ _ _ _ => s ≠ FEE_MANAGER
  | FCollectPre _ _ _ _ _ | FCollectPost _ _ _ _ _ => False
  | _ => True
  end.

(** Histories in which transactions run one after the other: each pays its maximal fee
    first, makes calls, and settles with a refund that leaves what it spent. *)
Inductive tx_reach : FeeWorld → Pending → Prop :=
| Tx_init : tx_reach fee_world_empty None
| Tx_call f g f' e c l l' x :
    tx_reach f g → user_call f c → exec_fee c e (f, l) = (Ok x, (f', l')) → tx_reach f' g
| Tx_begin f f' e p u n b sk l l' x :
    tx_reach f None → 0 ≤ n → p ≠ FEE_MANAGER →
    exec_fee (FCollectPre p u n b sk) e (f, l) = (Ok x, (f', l')) → tx_reach f' (Some (p, u, n))
| Tx_settle f f' e p u n a r b l l' x :
    tx_reach f (Some (p, u, n)) → 0 ≤ a → 0 ≤ r → a + r ≤ n →
    exec_fee (FCollectPost p a r u b) e (f, l) = (Ok x, (f', l')) → tx_reach f' None.

Lemma tx_reach_fee_reach f g : tx_reach f g → fee_reach (λ _ c, fee_amounts_ok c) f.
Proof.
  induction 1 as [|f g f' e c l l' x _ IH [Hc _] Hrun|f f' e p u n b sk l l' x _ IH Hn _ Hrun
    |f f' e p u n a r b l l' x _ IH Ha Hr _ Hrun]; [constructor|..]; eapply FReach_next; try done; done.
Qed.
End solvency.

(** ** Token operations and the manager's holdings *)
Section holdings.
Context `{Primitives}.
Context (fee_manager_not_tip20 : addr_is_tip20 FEE_MANAGER = false)
        (fee_manager_not_virtual : addr_decode_virtual FEE_MANAGER = None)
        (fee_manager_signs_nothing : ∀ d v r s, recover_signer d v r s ≠ Some FEE_MANAGER).
Local Notation no_allowance := (no_allowance FEE_MANAGER).

Lemma fee_pre_moved self p n e w w' :
  wruns (transfer_fee_pre_tx self p n) e w w' → p ≠ FEE_MANAGER →
  bal w' self FEE_MANAGER = bal w self FEE_MANAGER + n ∧
  allowances (ledger_of w' self) = allowances (ledger_of w self) ∧ others_same self w w'.
Proof.
  intros (b & lg & lg' & Hrun) Hp. change (exec_token self p (TFeePreTx p n) e (w, lg) = (Ok b, (w', lg'))) in Hrun.
  apply exec_token_ledger in Hrun as [Hoth Heff]. pose proof (ledger_effect_keeps _ _ _ _ _ _ Heff) as [Ha _].
  destruct Heff as [_ (u & l1 & l2 & (l3 & _ & _ & Heq & _)%fee_pre_core_ok)].
  split_and!; try done. unfold bal. rewrite Heq. cbn [balances with_ledger]. rewrite credit_read, debit_read.
  rewrite decide_False by done. rewrite decide_True by done. lia.
Qed.

Lemma fee_post_moved self p r a e w w' :
  wruns (transfer_fee_post_tx self p r a) e w w' → 0 ≤ r →
  bal w self FEE_MANAGER - r ≤ bal w' self FEE_MANAGER ∧
  allowances (ledger_of w' self) = allowances (ledger_of w self) ∧ others_same self w w'.
Proof.
  intros (b & lg & lg' & Hrun) Hr. change (exec_token self p (TFeePostTx p r a) e (w, lg) = (Ok b, (w', lg'))) in Hrun.
  apply exec_token_ledger in Hrun as [Hoth Heff]. pose proof (ledger_effect_keeps _ _ _ _ _ _ Heff) as [Ha _].
  split_and!; try done. unfold bal.
  destruct Heff as [->|(u & l1 & l2 & (l3 & _ & _ & Heq & _)%fee_post_core_ok)]; [lia|].
  rewrite Heq. cbn [balances with_ledger]. rewrite credit_read, debit_read. repeat case_decide; lia.
Qed.

Lemma external_not_by w c : call_ok w c → not_by FEE_MANAGER c.
Proof. destruct c; cbn; [|done..]. by intros (_ & (_ & _ & Hm) & _). Qed.

(** ** Preservation *)
Lemma owed_by_pool_nonneg m t uv : (∀ id, PoolInv m id) → 0 ≤ owed_by_pool m t uv.
Proof.
  intros HI. unfold owed_by_pool. destruct (HI (pool_id uv.1 uv.2)) as [Hu Hv _ _].
  case_match; case_match; lia.
Qed.

(** One pool changes; what it and the rest owe moves no more than what is held. *)
Lemma solvent_change f f' g g' k :
  solvent_manager f g → tip20_pair k → (∀ id, PoolInv (manager f') id) →
  (∀ uv, tip20_pair uv → uv ≠ k → (pools (manager f')).[pool_id uv.1 uv.2] = (pools (manager f)).[pool_id uv.1 uv.2]) →
  (∀ t, owed_by_pool (manager f') t k + owed_to_validators (manager f') t + owed_to_payer g' t - held f' t
        ≤ owed_by_pool (manager f) t k + owed_to_validators (manager f) t + owed_to_payer g t - held f t) →
  solvent_manager f' g'.
Proof.
  intros Hs Hk HI Hpools Hle t ps Hnd Hps. specialize (Hle t).
  assert (∀ uv, uv ∈ ps → uv ≠ k → owed_by_pool (manager f') t uv = owed_by_pool (manager f) t uv) as Hsame.
  { intros uv Huv Hne. rewrite Forall_forall in Hps. unfold owed_by_pool. by rewrite Hpools by auto. }
  destruct (decide (k ∈ ps)) as [Hin|Hin].
  - rewrite (psum_update (owed_by_pool (manager f) t) _ ps k Hnd Hin Hsame). specialize (Hs t ps Hnd Hps). lia.
  - rewrite (psum_ext _ (owed_by_pool (manager f) t)).
    2:{ intros uv Huv. apply Hsame; [done|]. by intros ->. }
    pose proof (Hs t (k :: ps) ltac:(by constructor) ltac:(by constructor)) as Hk2. cbn [psum foldr] in Hk2.
    fold (psum (owed_by_pool (manager f) t) ps) in Hk2. pose proof (owed_by_pool_nonneg (manager f') t k HI). lia.
Qed.

(** No pool changes. *)
Lemma solvent_same f f' g g' :
  solvent_manager f g → pools (manager f') = pools (manager f) →
  (∀ t, owed_to_validators (manager f') t + owed_to_payer g' t - held f' t
        ≤ owed_to_validators (manager f) t + owed_to_payer g t - held f t) →
  solvent_manager f' g'.
Proof.
  intros Hs Hp Hle t ps Hnd Hps. specialize (Hle t). specialize (Hs t ps Hnd Hps).
  rewrite (psum_ext _ (owed_by_pool (manager f) t)) by (intros; unfold owed_by_pool; by rewrite Hp). lia.
Qed.

Lemma owed_validators_write m v t' n t :
  owed_to_validators (write_collected v t' n m) t =
  owed_to_validators m t + (if t' =? t then n - (collected_fees m).[(v, t')] else 0).
Proof.
  unfold owed_to_validators. cbn. rewrite (msum_write _ _ (v, t')); cbn; [|by case_match]. case_match; lia.
Qed.

Context (path_usd_tip20 : addr_is_tip20 PATH_USD_ADDRESS = true)
        (pool_ids_distinct : ∀ u v u' v', tip20_pair (u, v) → tip20_pair (u', v') →
           pool_id u v = pool_id u' v' → (u, v) = (u', v')).

Record FInv (f : FeeWorld) (g : option (Address * Address * Z)) : Prop := {
  fi_solvent : solvent_manager f g;
  fi_allow : no_allowance (world f);
  fi_token b : addr_is_tip20 (get_validator_token (manager f) b) = true;
  fi_fees k : 0 ≤ (collected_fees (manager f)).[k];
}.

(** Writing the pool of a pair changes no other pair's pool. *)
Lemma write_other_pair m k p uv :
  tip20_pair k → tip20_pair uv → uv ≠ k → (<[pool_id k.1 k.2:=p]> (pools m)).[pool_id uv.1 uv.2] = (pools m).[pool_id uv.1 uv.2].
Proof.
  intros Hk Huv Hne. apply mread_insert_ne. destruct k as [a b], uv as [c d]. cbn.
  intros He%pool_ids_distinct; [|done..]. by apply Hne.
Qed.

Lemma same_validator_tokens f f' :
  validator_tokens (manager f') = validator_tokens (manager f) →
  (∀ b, addr_is_tip20 (get_validator_token (manager f) b) = true) →
  ∀ b, addr_is_tip20 (get_validator_token (manager f') b) = true.
Proof. intros He Hv b. specialize (Hv b). unfold get_validator_token in *. by rewrite He. Qed.

(** What the manager holds after tokens came in ([from] pays) and went out. *)
Lemma held_in f f' w v s n e :
  wruns (system_transfer_from v s FEE_MANAGER n) e (world f) w → s ≠ FEE_MANAGER → world f' = w →
  (∀ t, held f' t = held f t + (if v =? t then n else 0)) ∧ (no_allowance (world f) → no_allowance (world f')).
Proof.
  intros (Hb & Ha & Ho)%(system_transfer_moved FEE_MANAGER fee_manager_not_virtual) Hs <-. split; [|by apply (no_allowance_frame FEE_MANAGER v)].
  intros t. unfold held. destruct (Z.eqb_spec v t) as [<-|Hne].
  - specialize (Hb FEE_MANAGER). unfold bal in Hb. rewrite Hb, decide_False, decide_True by done. lia.
  - rewrite Ho by done. lia.
Qed.

Lemma rebalance_solvent f g s u v n to e l x f' l' :
  FInv f g → (∀ id, PoolInv (manager f) id) → (∀ id, PoolInv (manager f') id) → 0 ≤ n → s ≠ FEE_MANAGER →
  rebalance_swap s u v n to e (f, l) = (Ok x, (f', l')) → FInv f' g.
Proof.
  intros [Hsol Hal Hvt Hfee] HI HI' Hn Hs (Hn0 & _ & _ & _ & _ & Hm & w1 & Hin & Hout & Hu & Hv)%rebalance_ok.
  destruct (held_in f (mkFeeWorld w1 (manager f)) w1 v s x e Hin Hs eq_refl) as [Hh1 Ha1].
  destruct (bal_out FEE_MANAGER w1 (world f') u to n e Hout Hn) as [Hh2 Ha2].
  assert (tip20_pair (u, v)) as Hk by done. split; [|auto| |by rewrite Hm].
  - apply (solvent_change f f' g g (u, v)); try done.
    + intros uv Huv Hne. rewrite Hm. by apply (write_other_pair _ (u, v)).
    + intros t. specialize (Hh1 t). specialize (Hh2 t). unfold held in *. cbn in Hh1. fold (bal (world f') t FEE_MANAGER) in *.
      unfold bal in *. unfold owed_by_pool, owed_to_validators. rewrite Hm. cbn. rewrite mread_insert_eq. cbn.
      destruct (u =? t), (v =? t); lia.
  - apply (same_validator_tokens f); [by rewrite Hm|done].
Qed.

Lemma mint_solvent f g s u v n to e l x f' l' :
  FInv f g → (∀ id, PoolInv (manager f') id) → s ≠ FEE_MANAGER →
  amm_mint s u v n to e (f, l) = (Ok x, (f', l')) → FInv f' g.
Proof.
  intros [Hsol Hal Hvt Hfee] HI' Hs (_ & _ & _ & s0 & _ & _ & Hm & Hin & Hu & Hv)%amm_mint_ok.
  destruct (held_in f f' (world f') v s n e Hin Hs eq_refl) as [Hh1 Ha1].
  assert (tip20_pair (u, v)) as Hk by done. split; [|auto| |by rewrite Hm].
  - apply (solvent_change f f' g g (u, v)); try done.
    + intros uv Huv Hne. rewrite Hm. by apply (write_other_pair _ (u, v)).
    + intros t. rewrite Hh1. unfold owed_by_pool, owed_to_validators. rewrite Hm. cbn. rewrite mread_insert_eq. cbn.
      destruct (u =? t), (v =? t); lia.
  - apply (same_validator_tokens f); [by rewrite Hm|done].
Qed.

Lemma burn_solvent f g s u v lq to e l x f' l' :
  FInv f g → (∀ id, PoolInv (manager f) id) → (∀ id, PoolInv (manager f') id) → 0 ≤ lq →
  amm_burn s u v lq to e (f, l) = (Ok x, (f', l')) → FInv f' g.
Proof.
  intros [Hsol Hal Hvt Hfee] HI HI' Hl Hrun.
  apply amm_burn_ok in Hrun as (_ & _ & _ & HS & _ & _ & _ & _ & _ & Hm & w1 & Hout1 & Hout2 & Hu & Hv).
  set (p := (pools (manager f)).[pool_id u v]) in *. set (S := (lp_total_supply (manager f)).[pool_id u v]) in *.
  destruct (HI (pool_id u v)) as [Hpu Hpv _ Hsup]. fold p S in Hpu, Hpv, Hsup.
  assert (0 < S) as HS0.
  { destruct Hsup as [[? _]|[_ Hsup]]; [done|]. pose proof (lp_sum_nonneg _ _ (pl_balances _ _ (HI (pool_id u v)))).
    unfold MIN_LIQUIDITY in *. lia. }
  assert (0 ≤ lq * reserve_user_token p / S ∧ 0 ≤ lq * reserve_validator_token p / S) as [Hau Hav]
    by (split; apply Z.div_pos; nia).
  destruct (bal_out FEE_MANAGER _ _ u to _ e Hout1 Hau) as [Hh1 Ha1]. destruct (bal_out FEE_MANAGER _ _ v to _ e Hout2 Hav) as [Hh2 Ha2].
  assert (tip20_pair (u, v)) as Hk by done. split; [|auto| |by rewrite Hm].
  - apply (solvent_change f f' g g (u, v)); try done.
    + intros uv Huv Hne. rewrite Hm. by apply (write_other_pair _ (u, v)).
    + intros t. specialize (Hh1 t). specialize (Hh2 t). unfold held. unfold bal in *.
      unfold owed_by_pool, owed_to_validators. rewrite Hm. cbn. rewrite mread_insert_eq. cbn. fold p.
      destruct (u =? t), (v =? t); lia.
  - apply (same_validator_tokens f); [by rewrite Hm|done].
Qed.

Lemma user_call_solvent f g c e l x f' l' :
  FInv f g → (∀ id, PoolInv (manager f) id) → user_call f c → exec_fee c e (f, l) = (Ok x, (f', l')) → FInv f' g.
Proof.
  intros HF HI [Hn Hc] Hrun.
  pose proof (exec_fee_pool_inv _ _ _ _ _ _ _ Hn HI Hrun) as HI'. pose proof HF as [Hsol Hal Hvt Hfee].
  destruct c; cbn [exec_fee fee_amounts_ok] in *; try done; unfold fdiscard in Hrun; fee_steps; simplify_eq.
  - destruct Hc as [Hok Hu]. destruct (user_world_step FEE_MANAGER (or_introl eq_refl) fee_manager_not_tip20 fee_manager_signs_nothing _ _ _ _ _ _ _ Hok Hu (external_not_by _ _ Hok) Hal Hw) as [Hb Ha]. split; try done.
    apply (solvent_same f _ g); try done. intros t. specialize (Hb t). unfold held, bal in *. cbn in *. lia.
  - apply set_validator_token_ok in Hrun as (_ & Ht & ->). split; try done.
    intros b. unfold get_validator_token in *. cbn. rewrite mread_insert. case_decide; [|apply Hvt].
    case_match; [done|]. unfold is_tip20 in Ht. by destruct (addr_is_tip20 t).
  - apply set_user_token_ok in Hrun as (_ & Hw & Hm). split.
    + apply (solvent_same f _ g); [done|by destruct Hm as [->| ->]|]. intros t0. unfold held, owed_to_validators.
      rewrite Hw. destruct Hm as [->| ->]; cbn; lia.
    + by rewrite Hw.
    + apply (same_validator_tokens f); [by destruct Hm as [->| ->]|done].
    + by destruct Hm as [->| ->].
  - by eapply rebalance_solvent.
  - by eapply mint_solvent.
  - by eapply burn_solvent.
  - apply distribute_ok in Hrun as [[_ ->]|(_ & _ & Hm & Hout)]; [done|].
    destruct (bal_out FEE_MANAGER _ _ t validator _ e Hout (Hfee _)) as [Hh Ha]. split; [|auto| |].
    + apply (solvent_same f _ g); [done|by rewrite Hm|]. intros t'. specialize (Hh t'). rewrite Hm, owed_validators_write.
      unfold held. unfold bal in Hh. destruct (t =? t'); lia.
    + apply (same_validator_tokens f); [by rewrite Hm|done].
    + intros k. rewrite Hm. cbn. rewrite mread_insert. by case_decide.
  - split; try done.
Qed.

Lemma begin_solvent f p u n b sk e l x f' l' :
  FInv f None → 0 ≤ n → p ≠ FEE_MANAGER →
  exec_fee (FCollectPre p u n b sk) e (f, l) = (Ok x, (f', l')) → FInv f' (Some (p, u, n)).
Proof.
  intros [Hsol Hal Hvt Hfee] Hn Hp Hrun. cbn in Hrun. unfold fdiscard in Hrun. fee_steps. simplify_eq.
  apply collect_pre_ok in Hrun0 as (_ & Hu & Hw & Hm).
  destruct (fee_pre_moved _ _ _ _ _ _ Hw Hp) as (Hb & Ha & Ho).
  assert (pools (manager f') = pools (manager f) ∧ collected_fees (manager f') = collected_fees (manager f) ∧
    validator_tokens (manager f') = validator_tokens (manager f)) as (Hpo & Hcf & Hvt').
  { destruct (negb _ && negb _); [destruct Hm as [_ Hm]|]; rewrite Hm; [|done].
    unfold reserve_for. by destruct (is_t1c (spec e)). }
  split.
  - apply (solvent_same f _ None); [done|done|]. intros t. unfold owed_to_validators. rewrite Hcf. unfold held. cbn.
    destruct (Z.eqb_spec u t) as [<-|Hne]; [unfold bal in Hb; lia|]. rewrite Ho by done. lia.
  - by apply (no_allowance_frame FEE_MANAGER u (world f)).
  - by apply (same_validator_tokens f).
  - by rewrite Hcf.
Qed.

Lemma fee_credited_facts b t n m :
  pools (fee_credited b t n m) = pools m ∧ validator_tokens (fee_credited b t n m) = validator_tokens m ∧
  (∀ t', owed_to_validators (fee_credited b t n m) t' = owed_to_validators m t' + if t =? t' then n else 0) ∧
  (0 ≤ n → (∀ k, 0 ≤ (collected_fees m).[k]) → ∀ k, 0 ≤ (collected_fees (fee_credited b t n m)).[k]).
Proof.
  unfold fee_credited. destruct (Z.eqb_spec n 0) as [->|Hn].
  - split_and!; try done. intros t'. case_match; lia.
  - split_and!; try done.
    + intros t'. rewrite owed_validators_write. case_match; lia.
    + intros Hn0 Hk k. cbn. rewrite mread_insert. case_decide; [|done]. specialize (Hk (b, t)). lia.
Qed.

Lemma settle_solvent f p u n a r b e l x f' l' :
  FInv f (Some (p, u, n)) → (∀ id, PoolInv (manager f') id) → 0 ≤ a → 0 ≤ r → a + r ≤ n →
  exec_fee (FCollectPost p a r u b) e (f, l) = (Ok x, (f', l')) → FInv f' None.
Proof.
  intros [Hsol Hal Hvt Hfee] HI' Ha0 Hr0 Hn Hrun. cbn in Hrun.
  apply collect_post_ok in Hrun as (Hu & Hw & Hm).
  destruct (fee_post_moved _ _ _ _ _ _ _ Hw Hr0) as (Hb & Ha & Ho). unfold bal in Hb.
  assert (no_allowance (world f')) as Hal' by by apply (no_allowance_frame FEE_MANAGER u (world f)).
  set (vt := get_validator_token (manager f) b) in *.
  assert (∀ t, held f t - (if u =? t then r else 0) ≤ held f' t) as Hheld.
  { intros t. unfold held. destruct (Z.eqb_spec u t) as [<-|Hne]; [done|]. rewrite Ho by done. lia. }
  assert (0 ≤ a * M_RATE / SCALE) as Hout by (apply Z.div_pos; [unfold M_RATE; lia|done]).
  destruct (Z.eqb_spec u vt) as [Heq|Hne].
  - destruct (fee_credited_facts b vt a (manager f)) as (Hp & Hv & Hval & Hcf).
    split; [|done|apply (same_validator_tokens f); [by rewrite Hm|done]|rewrite Hm; by apply Hcf].
    apply (solvent_same f _ (Some (p, u, n))); [done|by rewrite Hm|]. intros t. specialize (Hheld t).
    rewrite Hm, Hval. cbn. rewrite <- Heq. destruct (u =? t); lia.
  - destruct Hm as [Hm _].
    set (m1 := if a =? 0 then manager f else fee_swapped u vt a (manager f)) in *.
    destruct (fee_credited_facts b vt (a * M_RATE / SCALE) m1) as (Hp & Hv & Hval & Hcf).
    assert (tip20_pair (u, vt)) as Hk by (split; [done|apply Hvt]).
    assert (collected_fees m1 = collected_fees (manager f) ∧ validator_tokens m1 = validator_tokens (manager f) ∧
      pools m1 = <[pool_id u vt := mkPool (reserve_user_token (pools (manager f)).[pool_id u vt] + a)
        (reserve_validator_token (pools (manager f)).[pool_id u vt] - a * M_RATE / SCALE)]> (pools (manager f))
      ∨ a = 0 ∧ m1 = manager f) as Hm1.
    { unfold m1. destruct (Z.eqb_spec a 0); [by right|by left]. }
    destruct Hm1 as [(Hc1 & Hv1 & Hp1)|[-> Hm1]].
    + split; [|done|apply (same_validator_tokens f); [by rewrite Hm, Hv, Hv1|done]
        |rewrite Hm; apply Hcf; [done|by rewrite Hc1]].
      apply (solvent_change f _ (Some (p, u, n)) None (u, vt)); try done.
      * intros uv Huv Hnuv. rewrite Hm, Hp, Hp1. by apply (write_other_pair _ (u, vt)).
      * intros t. specialize (Hheld t). rewrite Hm, Hval. unfold owed_by_pool, owed_to_validators in *.
        rewrite Hc1, Hp, Hp1. cbn. rewrite mread_insert_eq. cbn.
        destruct (Z.eqb_spec u t), (Z.eqb_spec vt t); try congruence; lia.
    + rewrite Hm1 in *. split; [|done|apply (same_validator_tokens f); [by rewrite Hm, Hv|done]
        |rewrite Hm; by apply Hcf].
      apply (solvent_same f _ (Some (p, u, n))); [done|by rewrite Hm|]. intros t. specialize (Hheld t).
      rewrite Hm, Hval. cbn -[M_RATE]. change (0 * M_RATE / SCALE) with 0. destruct (u =? t), (vt =? t); lia.
Qed.

Lemma FInv_empty : FInv fee_world_empty None.
Proof.
  split.
  - intros t ps _ _. assert (psum (owed_by_pool fee_manager_empty t) ps = 0) as Hz.
    { induction ps as [|uv ps IH]; [done|]. cbn [psum foldr]. fold (psum (owed_by_pool fee_manager_empty t) ps).
      rewrite IH. unfold owed_by_pool. cbn. rewrite mread_empty. cbn. by destruct (uv.1 =? t), (uv.2 =? t). }
    cbn [manager fee_world_empty]. rewrite Hz. done.
  - intros t sp. done.
  - intros b. unfold get_validator_token. cbn. done.
  - intros k. done.
Qed.

(** C3: the fee manager is solvent. At any point of any history of transactions, for every
    token the manager holds at least the reserves of any number of distinct pools in
    that token, plus every fee collected for a validator in it, plus the fee the running
    transaction paid in advance: liquidity providers, validators and fee payers can
    all be paid. *)
Theorem fee_manager_solvent f g t ps :
  tx_reach f g → NoDup ps → Forall tip20_pair ps →
  psum (owed_by_pool (manager f) t) ps + owed_to_validators (manager f) t + owed_to_payer g t ≤ held f t.
Proof.
  intros Hr. enough (FInv f g) as [Hs _ _ _] by apply Hs.
  induction Hr as [|f g f' e c l l' x Hr IH Hc Hrun|f f' e p u n b sk l l' x Hr IH Hn Hp Hrun
    |f f' e p u n a r b l l' x Hr IH Ha Hr0 Hle Hrun]; [apply FInv_empty|..];
    pose proof (λ id, fee_reach_pools (λ _ c, fee_amounts_ok c) f id (λ _ _ Hc, Hc) (tx_reach_fee_reach _ _ Hr)) as HI.
  - by eapply user_call_solvent.
  - by eapply begin_solvent.
  - refine (settle_solvent f p u n a r b e l x f' l' IH _ Ha Hr0 Hle Hrun).
    eapply exec_fee_pool_inv; [|exact HI|exact Hrun]. done.
Qed.
End holdings.
