(* ===== verification/FeeRuns.v ===== *)
(** * Concrete runs of the fee manager

    Two USD tokens, a pool, and transactions that pay their fee through it, on which
    the theorems about the fee manager are applied. *)
From Stdlib Require Import ZArith Lia String.
From stdpp Require Import base tactics option list fin_maps gmap sets strings.
From S2P Require Import Prelude Base StorageSet AddressRegistry Keychain TIP403 TIP20Ledger TIP20 TIP20Props TIP20Runs TIP20Holdings FeeManager FeeManagerProps FeeSolvency.
Open Scope Z_scope.
Open Scope storage_scope.

(** ** Playing transactions *)
Section play.
Context `{Primitives}.

Global Instance user_world_call_dec c : Decision (user_world_call c).
Proof. destruct c as [? ? []| | | | |]; cbn; apply _. Defined.
Global Instance fee_amounts_ok_dec c : Decision (fee_amounts_ok c).
Proof. destruct c; cbn; apply _. Defined.
Global Instance user_call_dec f c : Decision (user_call f c).
Proof. unfold user_call. destruct c; apply _. Defined.

Inductive TxEvent :=
| ECall (c : FeeCall)
| EBegin (p u : Address) (n : Z) (b : Address)
| ESettle (a r : Z) (b : Address).

Definition tx_step (e : Env) (ev : TxEvent) (fg : FeeWorld * option (Address * Address * Z)) :
    option (FeeWorld * option (Address * Address * Z)) :=
  let run c := match exec_fee c e (fg.1, []) with (Ok _, (f', _)) => Some f' | (Err _, _) => None end in
  match ev, fg.2 with
  | ECall c, g => if decide (user_call fg.1 c) then f' ← run c; Some (f', g) else None
  | EBegin p u n b, None =>
      if decide (0 ≤ n ∧ p ≠ TIP_FEE_MANAGER_ADDRESS) then
        f' ← run (FCollectPre p u n b false); Some (f', Some (p, u, n)) else None
  | ESettle a r b, Some (p, u, n) =>
      if decide (0 ≤ a ∧ 0 ≤ r ∧ a + r ≤ n) then f' ← run (FCollectPost p a r u b); Some (f', None) else None
  | _, _ => None
  end.

Fixpoint tx_play (e : Env) (evs : list TxEvent) (fg : FeeWorld * option (Address * Address * Z)) :
    option (FeeWorld * option (Address * Address * Z)) :=
  match evs with
  | [] => Some fg
  | ev :: evs => fg' ← tx_step e ev fg; tx_play e evs fg'
  end.

Lemma tx_step_reach e ev fg fg' : tx_reach fg.1 fg.2 → tx_step e ev fg = Some fg' → tx_reach fg'.1 fg'.2.
Proof.
  destruct fg as [f g]. cbn [fst snd]. intros Hr Hs. unfold tx_step in Hs. cbn [fst snd] in Hs.
  destruct ev as [c|p u n b|a r b]; [|destruct g; [done|]|destruct g as [[[p u] n]|]; [|done]];
    case_decide as Hd; try done;
    match type of Hs with context [exec_fee ?c e (f, [])] =>
      destruct (exec_fee c e (f, [])) as [[x|] [f' l']] eqn:Hrun; cbn in Hs; [|done] end; simplify_eq; cbn.
  - by eapply Tx_call.
  - destruct Hd as [Hn Hp]. exact (Tx_begin _ _ _ _ _ _ _ _ _ _ _ Hr Hn Hp Hrun).
  - destruct Hd as (Ha & Hr0 & Hle). exact (Tx_settle _ _ _ _ _ _ _ _ _ _ _ _ Hr Ha Hr0 Hle Hrun).
Qed.

Lemma tx_play_reach e evs fg fg' : tx_reach fg.1 fg.2 → tx_play e evs fg = Some fg' → tx_reach fg'.1 fg'.2.
Proof.
  revert fg. induction evs as [|ev evs IH]; intros fg Hr; cbn; [by intros [= <-]|].
  destruct (tx_step e ev fg) as [fg1|] eqn:Hs; cbn; [|done]. apply IH. by eapply tx_step_reach.
Qed.
End play.

(** ** The outside code *)
Definition fee_primitives : Primitives := {|
  keccak256 l := match l with
                 | [u; v] => u mod 2 ^ 64 * 2 ^ 64 + v mod 2 ^ 64
                 | _ => bytes_value l mod 2 ^ 256
                 end;
  abi_encode l := l;
  abi_encode_packed l := l;
  secp256k1_recover digest r p s := if r =? TIP_FEE_MANAGER_ADDRESS then None else Some r;
  addr_is_tip20 a := a / 2 ^ 64 =? TIP20_PREFIX;
  addr_is_virtual a := false;
  addr_is_valid_master a := negb (a =? 0);
  addr_decode_virtual a := None;
|}.
#[local] Existing Instance fee_primitives.

Lemma fee_not_tip20 : addr_is_tip20 TIP_FEE_MANAGER_ADDRESS = false.
Proof. vm_compute. reflexivity. Qed.
Lemma fee_not_virtual : addr_decode_virtual TIP_FEE_MANAGER_ADDRESS = None.
Proof. reflexivity. Qed.
Lemma fee_path_tip20 : addr_is_tip20 PATH_USD_ADDRESS = true.
Proof. vm_compute. reflexivity. Qed.
Lemma fee_no_signature d v r s : recover_signer d v r s ≠ Some TIP_FEE_MANAGER_ADDRESS.
Proof.
  unfold recover_signer. cbn -[TIP_FEE_MANAGER_ADDRESS]. destruct (negb (v =? 27) && negb (v =? 28)); [done|].
  destruct (Z.eqb_spec r TIP_FEE_MANAGER_ADDRESS) as [|Hne]; cbn; [done|]. case_match; congruence.
Qed.
Lemma fee_pool_ids u v u' v' :
  tip20_pair (u, v) → tip20_pair (u', v') → pool_id u v = pool_id u' v' → (u, v) = (u', v').
Proof.
  unfold tip20_pair, pool_id. cbn [fst snd addr_is_tip20 fee_primitives keccak256 abi_encode].
  intros [H1%Z.eqb_eq H2%Z.eqb_eq] [H3%Z.eqb_eq H4%Z.eqb_eq] Heq.
  pose proof (Z.div_mod u (2 ^ 64) ltac:(done)). pose proof (Z.div_mod v (2 ^ 64) ltac:(done)).
  pose proof (Z.div_mod u' (2 ^ 64) ltac:(done)). pose proof (Z.div_mod v' (2 ^ 64) ltac:(done)).
  pose proof (Z.mod_pos_bound u (2 ^ 64) ltac:(done)). pose proof (Z.mod_pos_bound v (2 ^ 64) ltac:(done)).
  pose proof (Z.mod_pos_bound u' (2 ^ 64) ltac:(done)). pose proof (Z.mod_pos_bound v' (2 ^ 64) ltac:(done)).
  rewrite H1, H2, H3, H4 in *. change (2 ^ 64) with 18446744073709551616 in *. f_equal; lia.
Qed.

(** ** A history *)
Definition XUSD : Address := PATH_USD_ADDRESS + 1.
Definition validator : Address := 0xE0.

Definition setup_events : list TxEvent := map (λ c, ECall (FWorld c)) [
  WCreateReserved PATH_USD_ADDRESS "pathUSD" "pathUSD" "USD" ZERO admin;
  WCreateReserved XUSD "XUSD" "XUSD" "USD" PATH_USD_ADDRESS admin;
  WToken PATH_USD_ADDRESS admin (TGrantRole ISSUER_ROLE admin);
  WToken XUSD admin (TGrantRole ISSUER_ROLE admin);
  WToken PATH_USD_ADDRESS admin (TMint alice 100000);
  WToken XUSD admin (TMint bob 100000)].

Definition pool_events : list TxEvent :=
  setup_events ++ [ECall (FMint alice XUSD PATH_USD_ADDRESS 10000 alice)].

Definition play_or (evs : list TxEvent) : FeeWorld * option (Address * Address * Z) :=
  default (fee_world_empty, None) (tx_play sample_now evs (fee_world_empty, None)).

Lemma play_or_reach evs :
  match tx_play sample_now evs (fee_world_empty, None) with Some _ => true | None => false end = true →
  tx_reach (play_or evs).1 (play_or evs).2.
Proof.
  unfold play_or. destruct (tx_play sample_now evs (fee_world_empty, None)) as [fg|] eqn:Hp; [|done]. intros _.
  cbn [default]. exact (tx_play_reach sample_now evs (fee_world_empty, None) fg Tx_init Hp).
Qed.

Definition pool_world : FeeWorld := (play_or pool_events).1.
(** A transaction of bob, half way: the fee is paid in advance. *)
Definition mid_events : list TxEvent := pool_events ++ [EBegin bob XUSD 500 validator].
(** The same, settled: 300 spent, 200 refunded. *)
Definition settled_events : list TxEvent := mid_events ++ [ESettle 300 200 validator].

Lemma pool_reach : fee_reach (λ _ c, fee_amounts_ok c) pool_world.
Proof. eapply tx_reach_fee_reach, play_or_reach. vm_compute. reflexivity. Qed.

Example settled_run :
  let f := (play_or settled_events).1 in let id := pool_id XUSD PATH_USD_ADDRESS in
  (pools (manager f)).[id] = mkPool 300 9701 ∧ (lp_total_supply (manager f)).[id] = 5000 ∧
  (collected_fees (manager f)).[(validator, PATH_USD_ADDRESS)] = 299 ∧
  held f XUSD = 300 ∧ held f PATH_USD_ADDRESS = 10000.
Proof. vm_compute. done. Qed.

Lemma fee_manager_solvent_witness :
  psum (owed_by_pool (manager (play_or mid_events).1) XUSD) [(XUSD, PATH_USD_ADDRESS)]
    + owed_to_validators (manager (play_or mid_events).1) XUSD
    + owed_to_payer (play_or mid_events).2 XUSD ≤ held (play_or mid_events).1 XUSD ∧
  owed_to_payer (play_or mid_events).2 XUSD = 500.
Proof.
  split; [|vm_compute; reflexivity].
  apply (fee_manager_solvent fee_not_tip20 fee_not_virtual fee_no_signature fee_path_tip20 fee_pool_ids).
  - apply play_or_reach. vm_compute. reflexivity.
  - repeat constructor. by intros ?%elem_of_nil.
  - repeat constructor.
Defined.

Lemma lp_supply_conserved_witness :
  (lp_total_supply (manager pool_world)).[pool_id XUSD PATH_USD_ADDRESS] =
  MIN_LIQUIDITY + lp_sum (manager pool_world) (pool_id XUSD PATH_USD_ADDRESS).
Proof.
  destruct (lp_supply_conserved pool_world (pool_id XUSD PATH_USD_ADDRESS) pool_reach) as [[[Hz _]|[Hs _]] _].
  - vm_compute in Hz. discriminate Hz.
  - exact Hs.
Defined.

Definition burn_call : FeeCall := FBurn alice XUSD PATH_USD_ADDRESS 1500 alice.
Definition after_burn : FeeWorld := final (exec_fee burn_call) sample_now pool_world.
Lemma share_value_preserved_witness :
  pool_value (get_pool (manager pool_world) XUSD PATH_USD_ADDRESS) * 3500 ≤
  pool_value (get_pool (manager after_burn) XUSD PATH_USD_ADDRESS) * 5000.
Proof.
  pose proof (final_ok (exec_fee burn_call) sample_now pool_world tt) as Hrun.
  specialize (Hrun ltac:(vm_compute; reflexivity)).
  apply (share_value_preserved _ _ _ _ _ _ _ (pool_id XUSD PATH_USD_ADDRESS) pool_reach) in Hrun.
  - vm_compute in Hrun |- *. exact Hrun.
  - vm_compute. discriminate.
  - vm_compute. reflexivity.
Defined.

Definition after_pre : FeeWorld := final (collect_fee_pre_tx bob XUSD 500 validator false) sample_now pool_world.
Definition after_body : FeeWorld := final (exec_fee burn_call) sample_now after_pre.
Lemma reserved_swap_succeeds_witness :
  (execute_fee_swap XUSD PATH_USD_ADDRESS 300 sample_now (after_body, [])).1 = Ok (300 * M_RATE / SCALE).
Proof.
  pose proof (final_ok (collect_fee_pre_tx bob XUSD 500 validator false) sample_now pool_world XUSD) as Hpre.
  specialize (Hpre ltac:(vm_compute; reflexivity)).
  pose proof (final_ok (exec_fee burn_call) sample_now after_pre tt) as Hrun.
  specialize (Hrun ltac:(vm_compute; reflexivity)).
  refine (proj2 (reserved_swap_succeeds bob XUSD 500 validator sample_now pool_world [] XUSD after_pre _ after_body 300 []
    pool_reach eq_refl ltac:(lia) ltac:(vm_compute; discriminate) Hpre _ ltac:(vm_compute; discriminate))).
  eapply Body_step; [|exact Hrun|apply Body_refl]. cbn. lia.
Defined.

(** A transaction that pays one base unit through a pool that does not exist yet. *)
Definition dust_pre_events : list TxEvent := setup_events ++ [EBegin bob XUSD 1 validator].
Definition dust_world : FeeWorld := (play_or dust_pre_events).1.
Definition after_dust : FeeWorld := final (collect_fee_post_tx bob 1 0 XUSD validator) sample_now dust_world.
Lemma dust_swap_disables_pool_witness :
  is_ok (amm_mint alice XUSD PATH_USD_ADDRESS 10000 alice sample_now (dust_world, [])).1 = true ∧
  is_ok (amm_mint alice XUSD PATH_USD_ADDRESS 10000 alice sample_now (after_dust, [])).1 = false.
Proof.
  split; [vm_compute; reflexivity|].
  pose proof (final_ok (collect_fee_post_tx bob 1 0 XUSD validator) sample_now dust_world tt) as Hrun.
  specialize (Hrun ltac:(vm_compute; reflexivity)).
  assert (fee_reach (λ _ c, fee_amounts_ok c) dust_world) as Hr
    by (eapply tx_reach_fee_reach, play_or_reach; vm_compute; reflexivity).
  assert (get_validator_token (manager dust_world) validator = PATH_USD_ADDRESS) as He by (vm_compute; reflexivity).
  eapply dust_swap_disables_pool in Hrun as [_ Hf]; [|exact Hr| | |apply rtc_refl].
  - rewrite He in Hf. apply Hf.
  - vm_compute. discriminate.
  - vm_compute. reflexivity.
Defined.

Definition setup_world : FeeWorld := (play_or setup_events).1.
Definition deposit : M FeeWorld Z := amm_mint alice XUSD PATH_USD_ADDRESS 10000 alice.
Definition after_deposit : FeeWorld := final deposit sample_now setup_world.
Lemma first_deposit_one_sided_witness :
  (pools (manager after_deposit)).[pool_id XUSD PATH_USD_ADDRESS] = mkPool 0 10000 ∧
  (lp_total_supply (manager after_deposit)).[pool_id XUSD PATH_USD_ADDRESS] = 5000.
Proof.
  pose proof (final_ok deposit sample_now setup_world 4000) as Hrun.
  specialize (Hrun ltac:(vm_compute; reflexivity)).
  assert (fee_reach (λ _ c, fee_amounts_ok c) setup_world) as Hr
    by (eapply tx_reach_fee_reach, play_or_reach; vm_compute; reflexivity).
  apply first_deposit_one_sided in Hrun as (Hp & Hs & _); [|exact Hr|vm_compute; split; reflexivity].
  fold after_deposit in Hp, Hs. rewrite Hs. split; [exact Hp|vm_compute; reflexivity].
Defined.
