(* ===== verification/OrderBook.v ===== *)
(** * Orders, prices and tick bitmaps of the stablecoin DEX
    ([src/crates/tempo-precompiles/src/stablecoin_dex/orderbook.rs], [order.rs])

    Prices are ticks around the peg; each side of a book marks its active ticks in
    256-bit words, which the search for the next active tick scans a word at a time. *)
From Stdlib Require Import ZArith Lia.
From stdpp Require Import base tactics option list fin_maps gmap.
From S2P Require Import Prelude Base.
Open Scope Z_scope.
Open Scope storage_scope.

(** ** Constants *)
Definition I16_MIN : Z := -32768.
Definition I16_MAX : Z := 32767.
Definition MIN_TICK : Z := -2000.
Definition MAX_TICK : Z := 2000.
Definition PRICE_SCALE : Z := 100000.
Definition MIN_PRICE : Z := 98000.
Definition MAX_PRICE : Z := 102000.
Definition TICK_SPACING : Z := 10.

Definition dex_error (e : DEXError.t) : TempoPrecompileError := StablecoinDEX e.

(** Rust's truncating casts to [i32] and [i16]. *)
Definition as_i32 (v : Z) : Z := (v + 2 ^ 31) mod 2 ^ 32 - 2 ^ 31.
Definition as_i16 (v : Z) : Z := (v + 2 ^ 15) mod 2 ^ 16 - 2 ^ 15.

(** ** Prices *)
Definition tick_to_price (tick : Z) : Z := wrap U32_MAX (PRICE_SCALE + tick).

Definition price_to_tick (price : Z) : Result Z :=
  if negb ((MIN_PRICE <=? price) && (price <=? MAX_PRICE)) then
    Err (dex_error (DEXError.TickOutOfBounds (as_i16 (as_i32 (as_i32 price - PRICE_SCALE)))))
  else Ok (as_i16 (as_i32 (as_i32 price - PRICE_SCALE))).

Definition validate_tick_spacing (tick : Z) : Result unit :=
  ensure (Z.rem tick TICK_SPACING =? 0) (dex_error DEXError.InvalidTick).

Definition tick_in_bounds (tick : Z) : bool := (MIN_TICK <=? tick) && (tick <=? MAX_TICK).

Inductive RoundingDirection := Down | Up.

(** The products fit in 256 bits: one factor has 128 bits, the other 32. *)
Definition base_to_quote (base_amount tick : Z) (rounding : RoundingDirection) : option Z :=
  let numerator := base_amount * tick_to_price tick in
  try_into U128_MAX
    match rounding with
    | Down => numerator / PRICE_SCALE
    | Up => div_ceil numerator PRICE_SCALE
    end.

Definition quote_to_base (quote_amount tick : Z) (rounding : RoundingDirection) : option Z :=
  let numerator := quote_amount * PRICE_SCALE in
  try_into U128_MAX
    match rounding with
    | Down => numerator / tick_to_price tick
    | Up => div_ceil numerator (tick_to_price tick)
    end.

(** ** Orders *)
Record Order := mkOrder {
  order_id : Z;
  maker : Address;
  book_key : B256;
  is_bid : bool;
  tick : Z;
  amount : Z;
  remaining : Z;
  prev : Z;
  next : Z;
  is_flip : bool;
  flip_tick : Z;
}.
Global Instance Order_zeroed : Zeroed Order := mkOrder 0 ZERO 0 false 0 0 0 0 0 false 0.

Module OrderError.
Inductive t :=
| InvalidBidFlipTick (tick flip_tick : Z)
| InvalidAskFlipTick (tick flip_tick : Z)
| NotAFlipOrder
| OrderNotFullyFilled (remaining : Z)
| FillAmountExceedsRemaining (requested available : Z)
| InvalidTick (tick min max : Z).
End OrderError.

Definition order_new (id : Z) (mk : Address) (key : B256) (amt tk : Z) (bid flip : bool) (ftick : Z) : Order :=
  mkOrder id mk key bid tk amt amt 0 0 flip ftick.
Definition new_bid (id : Z) (mk : Address) (key : B256) (amt tk : Z) : Order :=
  order_new id mk key amt tk true false 0.
Definition new_ask (id : Z) (mk : Address) (key : B256) (amt tk : Z) : Order :=
  order_new id mk key amt tk false false 0.
Definition new_flip (id : Z) (mk : Address) (key : B256) (amt tk : Z) (bid : bool) (ftick : Z) :
    result OrderError.t Order :=
  if bid then
    if ftick <=? tk then Err (OrderError.InvalidBidFlipTick tk ftick)
    else Ok (order_new id mk key amt tk bid true ftick)
  else if tk <=? ftick then Err (OrderError.InvalidAskFlipTick tk ftick)
  else Ok (order_new id mk key amt tk bid true ftick).

Definition set_prev (p : Z) (o : Order) : Order :=
  mkOrder (order_id o) (maker o) (book_key o) (is_bid o) (tick o) (amount o) (remaining o) p (next o)
    (is_flip o) (flip_tick o).
Definition set_next (n : Z) (o : Order) : Order :=
  mkOrder (order_id o) (maker o) (book_key o) (is_bid o) (tick o) (amount o) (remaining o) (prev o) n
    (is_flip o) (flip_tick o).
Definition set_remaining (r : Z) (o : Order) : Order :=
  mkOrder (order_id o) (maker o) (book_key o) (is_bid o) (tick o) (amount o) r (prev o) (next o)
    (is_flip o) (flip_tick o).

Definition is_fully_filled (o : Order) : bool := remaining o =? 0.

Definition fill (o : Order) (fill_amount : Z) : result OrderError.t Order :=
  if remaining o <? fill_amount then
    Err (OrderError.FillAmountExceedsRemaining fill_amount (remaining o))
  else Ok (set_remaining (saturating_sub (remaining o) fill_amount) o).

Definition create_flipped_order (o : Order) (new_order_id : Z) : result OrderError.t Order :=
  if negb (is_flip o) then Err OrderError.NotAFlipOrder
  else if negb (remaining o =? 0) then Err (OrderError.OrderNotFullyFilled (remaining o))
  else Ok (mkOrder new_order_id (maker o) (book_key o) (negb (is_bid o)) (flip_tick o) (amount o)
             (amount o) 0 0 true (tick o)).

(** ** Books *)
Record TickLevel := mkLevel { head : Z; tail : Z; total_liquidity : Z }.
Global Instance TickLevel_zeroed : Zeroed TickLevel := mkLevel 0 0 0.
Definition level_is_empty (l : TickLevel) : bool := (head l =? 0) && (tail l =? 0).

Record Orderbook := mkBook {
  base : Address;
  quote : Address;
  bids : gmap Z TickLevel;
  asks : gmap Z TickLevel;
  best_bid_tick : Z;
  best_ask_tick : Z;
  bid_bitmap : gmap Z Z;
  ask_bitmap : gmap Z Z;
}.
Global Instance Orderbook_zeroed : Zeroed Orderbook := mkBook ZERO ZERO ∅ ∅ 0 0 ∅ ∅.

(** Writing [Orderbook::new(base, quote)]: the mappings of the book are not touched. *)
Definition book_new (b q : Address) (bk : Orderbook) : Orderbook :=
  mkBook b q (bids bk) (asks bk) I16_MIN I16_MAX (bid_bitmap bk) (ask_bitmap bk).
Definition is_initialized (bk : Orderbook) : bool := negb (base bk =? ZERO).

Definition matches_tokens (bk : Orderbook) (base_token quote_token : option Address) : bool :=
  match base_token with Some b => b =? base bk | None => true end &&
  match quote_token with Some q => q =? quote bk | None => true end.

Definition levels (bk : Orderbook) (bid : bool) : gmap Z TickLevel := if bid then bids bk else asks bk.
Definition bitmap (bk : Orderbook) (bid : bool) : gmap Z Z := if bid then bid_bitmap bk else ask_bitmap bk.
Definition best_tick (bk : Orderbook) (bid : bool) : Z := if bid then best_bid_tick bk else best_ask_tick bk.

Definition tick_level (bk : Orderbook) (tk : Z) (bid : bool) : TickLevel := (levels bk bid).[tk].
Definition set_levels (bid : bool) (m : gmap Z TickLevel) (bk : Orderbook) : Orderbook :=
  if bid then mkBook (base bk) (quote bk) m (asks bk) (best_bid_tick bk) (best_ask_tick bk) (bid_bitmap bk) (ask_bitmap bk)
  else mkBook (base bk) (quote bk) (bids bk) m (best_bid_tick bk) (best_ask_tick bk) (bid_bitmap bk) (ask_bitmap bk).
Definition write_level (bid : bool) (tk : Z) (l : TickLevel) (bk : Orderbook) : Orderbook :=
  set_levels bid (<[tk:=l]> (levels bk bid)) bk.
Definition delete_level (bid : bool) (tk : Z) (bk : Orderbook) : Orderbook :=
  set_levels bid (delete tk (levels bk bid)) bk.
Definition set_best (bid : bool) (tk : Z) (bk : Orderbook) : Orderbook :=
  if bid then mkBook (base bk) (quote bk) (bids bk) (asks bk) tk (best_ask_tick bk) (bid_bitmap bk) (ask_bitmap bk)
  else mkBook (base bk) (quote bk) (bids bk) (asks bk) (best_bid_tick bk) tk (bid_bitmap bk) (ask_bitmap bk).
Definition write_word (bid : bool) (w v : Z) (bk : Orderbook) : Orderbook :=
  if bid then mkBook (base bk) (quote bk) (bids bk) (asks bk) (best_bid_tick bk) (best_ask_tick bk) (<[w:=v]> (bid_bitmap bk)) (ask_bitmap bk)
  else mkBook (base bk) (quote bk) (bids bk) (asks bk) (best_bid_tick bk) (best_ask_tick bk) (bid_bitmap bk) (<[w:=v]> (ask_bitmap bk)).

(** ** Bitmaps *)
Definition calc_tick_word_idx (tk : Z) : Result Z :=
  if negb (tick_in_bounds tk) then Err (dex_error DEXError.InvalidTick) else Ok (Z.shiftr tk 8).

Definition set_tick_bit (tk : Z) (bid : bool) : M Orderbook unit :=
  word_index ← lift (calc_tick_word_idx tk);
  current_word ← gets (λ bk, (bitmap bk bid).[word_index]);
  let bit_index := Z.land tk 0xFF in
  let mask := Z.shiftl 1 bit_index in
  modify (write_word bid word_index (Z.lor current_word mask)).

Definition delete_tick_bit (tk : Z) (bid : bool) : M Orderbook unit :=
  word_index ← lift (calc_tick_word_idx tk);
  current_word ← gets (λ bk, (bitmap bk bid).[word_index]);
  let bit_index := Z.land tk 0xFF in
  let mask := Z.lxor U256_MAX (Z.shiftl 1 bit_index) in
  modify (write_word bid word_index (Z.land current_word mask)).

Definition is_tick_initialized (bk : Orderbook) (tk : Z) (bid : bool) : Result bool :=
  word_index ← calc_tick_word_idx tk;
  let word := (bitmap bk bid).[word_index] in
  let mask := Z.shiftl 1 (Z.land tk 0xFF) in
  Ok (negb (Z.land word mask =? 0)).

Fixpoint pos_trailing_zeros (p : positive) : Z :=
  match p with
  | xO p => 1 + pos_trailing_zeros p
  | _ => 0
  end.
(** [U256::trailing_zeros] and [U256::leading_zeros]. *)
Definition trailing_zeros (v : Z) : Z :=
  match v with Zpos p => pos_trailing_zeros p | _ => 256 end.
Definition leading_zeros (v : Z) : Z := if v =? 0 then 256 else 255 - Z.log2 v.

(** The words an [i16] tick can lie in, and the search over them: at most 136
    iterations, so the fuel below is never exhausted. *)
Definition WORD_FUEL : nat := 137.

Fixpoint ask_search (fuel : nat) (bk : Orderbook) (next_tick : Z) : Result (Z * bool) :=
  match fuel with
  | O => Err OutOfGas
  | S fuel =>
      let max_word_index := Z.shiftr MAX_TICK 8 in
      let word_index := Z.shiftr next_tick 8 in
      if max_word_index <? word_index then Ok (next_tick, false)
      else
        let bit_index := Z.land next_tick 0xFF in
        let word := (ask_bitmap bk).[word_index] in
        let mask := if bit_index =? 0 then U256_MAX else wrap U256_MAX (Z.shiftl U256_MAX bit_index) in
        let masked_word := Z.land word mask in
        if negb (masked_word =? 0) then
          let found_tick := Z.lor (Z.shiftl word_index 8) (trailing_zeros masked_word) in
          if found_tick <=? MAX_TICK then Ok (found_tick, true) else Ok (found_tick, false)
        else
          let next_word_index := word_index + 1 in
          if max_word_index <? next_word_index then Ok (Z.shiftl next_word_index 8, false)
          else ask_search fuel bk (Z.shiftl next_word_index 8)
  end.

Definition next_initialized_ask_tick (bk : Orderbook) (tk : Z) : Result (Z * bool) :=
  if MAX_TICK <=? tk then Ok (MAX_TICK, false) else ask_search WORD_FUEL bk (tk + 1).

Fixpoint bid_search (fuel : nat) (bk : Orderbook) (next_tick : Z) : Result (Z * bool) :=
  match fuel with
  | O => Err OutOfGas
  | S fuel =>
      let min_word_index := Z.shiftr MIN_TICK 8 in
      let word_index := Z.shiftr next_tick 8 in
      if word_index <? min_word_index then Ok (next_tick, false)
      else
        let bit_index := Z.land next_tick 0xFF in
        let word := (bid_bitmap bk).[word_index] in
        let mask := if bit_index =? 255 then U256_MAX else Z.shiftr U256_MAX (255 - bit_index) in
        let masked_word := Z.land word mask in
        if negb (masked_word =? 0) then
          let highest_bit := 255 - leading_zeros masked_word in
          let found_tick := Z.lor (Z.shiftl word_index 8) highest_bit in
          if MIN_TICK <=? found_tick then Ok (found_tick, true) else Ok (found_tick, false)
        else
          let prev_word_index := word_index - 1 in
          if prev_word_index <? min_word_index then Ok (Z.lor (Z.shiftl prev_word_index 8) 0xFF, false)
          else bid_search fuel bk (Z.lor (Z.shiftl prev_word_index 8) 0xFF)
  end.

Definition next_initialized_bid_tick (bk : Orderbook) (tk : Z) : Result (Z * bool) :=
  if tk <=? MIN_TICK then Ok (MIN_TICK, false) else bid_search WORD_FUEL bk (tk - 1).

Definition next_initialized_tick (bk : Orderbook) (tk : Z) (bid : bool) : Result (Z * bool) :=
  if bid then next_initialized_bid_tick bk tk else next_initialized_ask_tick bk tk.

(** [compute_book_key]: the hash of the two 20-byte addresses. *)
Definition compute_book_key `{Primitives} (b q : Address) : B256 := keccak256 (address_bytes b ++ address_bytes q).
