(* ===== verification/OrderBookProps.v ===== *)
(** * Prices, flip orders and the tick bitmap: properties

    The price of a tick and the tick of a price are inverse; conversions between base
    and quote amounts round by less than one unit and overflow exactly beyond 128 bits;
    the bitmap is a set of ticks and the word-wise search is the linear search in it. *)
From Stdlib Require Import ZArith Lia.
From stdpp Require Import base tactics option list fin_maps gmap.
From S2P Require Import Prelude Base OrderBook.
Open Scope Z_scope.
Open Scope storage_scope.

(** ** Words and bits of a tick *)
Lemma word_of_tick t : Z.shiftr t 8 = t / 256.
Proof. by rewrite Z.shiftr_div_pow2. Qed.

Lemma bit_of_tick t : Z.land t 0xFF = t mod 256.
Proof. change 0xFF with (Z.ones 8). by rewrite Z.land_ones. Qed.

Lemma tick_of_word_bit w b : 0 ≤ b < 256 → Z.lor (Z.shiftl w 8) b = w * 256 + b.
Proof.
  intros Hb. pose proof (Z.add_lor_land (Z.shiftl w 8) b) as Hsum.
  enough (Z.land (Z.shiftl w 8) b = 0) as H0.
  { rewrite H0, (Z.shiftl_mul_pow2 w 8) in Hsum by lia.
    rewrite Z.shiftl_mul_pow2 by lia. change (2 ^ 8) with 256 in *. lia. }
  apply Z.bits_inj'. intros i Hi. rewrite Z.bits_0, Z.land_spec.
  destruct (Z_lt_ge_dec i 8) as [Hlt|Hge]; [by rewrite Z.shiftl_spec_low|].
  rewrite <- (Z.mod_small b (2 ^ 8)), Z.mod_pow2_bits_high by lia. apply andb_false_r.
Qed.

Lemma pos_trailing_zeros_spec p :
  0 ≤ pos_trailing_zeros p ∧ Z.testbit (Z.pos p) (pos_trailing_zeros p) = true ∧
  ∀ i, 0 ≤ i < pos_trailing_zeros p → Z.testbit (Z.pos p) i = false.
Proof.
  induction p as [p IH|p (IH1 & IH2 & IH3)|]; cbn [pos_trailing_zeros].
  - split_and!; [lia|done|lia].
  - change (Z.pos p~0) with (2 * Z.pos p). split_and!; [lia| |].
    + rewrite Z.add_1_l, Z.testbit_even_succ; [done|lia].
    + intros i Hi. destruct (decide (i = 0)) as [->|]; [apply Z.testbit_even_0|].
      replace i with (Z.succ (i - 1)) by lia. rewrite Z.testbit_even_succ by lia. apply IH3. lia.
  - split_and!; [lia|done|lia].
Qed.

Lemma trailing_zeros_spec v : 0 < v →
  0 ≤ trailing_zeros v ∧ Z.testbit v (trailing_zeros v) = true ∧
  ∀ i, 0 ≤ i < trailing_zeros v → Z.testbit v i = false.
Proof. destruct v; try lia. intros _. apply pos_trailing_zeros_spec. Qed.

(** ** The masks *)
Lemma U256_MAX_bit i : 0 ≤ i → Z.testbit U256_MAX i = bool_decide (i < 256).
Proof.
  intros. change U256_MAX with (Z.ones 256). case_bool_decide.
  - apply Z.ones_spec_low. lia.
  - apply Z.ones_spec_high. lia.
Qed.

Lemma mask_above_bit b i : 0 ≤ b < 256 → 0 ≤ i →
  Z.testbit (if b =? 0 then U256_MAX else wrap U256_MAX (Z.shiftl U256_MAX b)) i
  = bool_decide (b ≤ i < 256).
Proof.
  intros Hb Hi. destruct (Z.eqb_spec b 0) as [->|].
  - rewrite U256_MAX_bit by done. apply bool_decide_ext. lia.
  - unfold wrap. change (U256_MAX + 1) with (2 ^ 256).
    destruct (decide (i < 256)).
    + rewrite Z.mod_pow2_bits_low by done. destruct (decide (b ≤ i)).
      * rewrite Z.shiftl_spec_high, U256_MAX_bit by lia. apply bool_decide_ext. lia.
      * rewrite Z.shiftl_spec_low by lia. symmetry. apply bool_decide_eq_false. lia.
    + rewrite Z.mod_pow2_bits_high by lia. symmetry. apply bool_decide_eq_false. lia.
Qed.

Lemma mask_below_bit b i : 0 ≤ b < 256 → 0 ≤ i →
  Z.testbit (if b =? 255 then U256_MAX else Z.shiftr U256_MAX (255 - b)) i = bool_decide (i ≤ b).
Proof.
  intros Hb Hi. destruct (Z.eqb_spec b 255) as [->|].
  - rewrite U256_MAX_bit by done. apply bool_decide_ext. lia.
  - rewrite Z.shiftr_spec, U256_MAX_bit by lia. apply bool_decide_ext. lia.
Qed.

Lemma masks_nonneg b : 0 ≤ b < 256 →
  0 ≤ (if b =? 0 then U256_MAX else wrap U256_MAX (Z.shiftl U256_MAX b)) ∧
  0 ≤ (if b =? 255 then U256_MAX else Z.shiftr U256_MAX (255 - b)).
Proof.
  intros. split.
  - destruct (b =? 0); [done|]. apply Z.mod_pos_bound. done.
  - destruct (b =? 255); [done|]. by apply Z.shiftr_nonneg.
Qed.

Lemma masked_zero word mask i : 0 ≤ i → Z.land word mask = 0 → Z.testbit mask i = true →
  Z.testbit word i = false.
Proof.
  intros Hi H0 Hm. pose proof (Z.land_spec word mask i) as Hs.
  rewrite H0, Z.bits_0, Hm, andb_true_r in Hs. done.
Qed.

(** ** The set of active ticks *)
Definition active (bk : Orderbook) (bid : bool) (tk : Z) : bool :=
  Z.testbit (bitmap bk bid).[tk / 256] (tk mod 256).

(** The ticks from the best towards the worst, strictly beyond [tk]. *)
Definition ticks_beyond (tk : Z) (bid : bool) : list Z :=
  if bid then (λ i, tk - 1 - i) <$> seqZ 0 (tk - MIN_TICK) else seqZ (tk + 1) (MAX_TICK - tk).

Definition linear_next_tick (bk : Orderbook) (tk : Z) (bid : bool) : option Z :=
  List.find (active bk bid) (ticks_beyond tk bid).

Lemma active_word bk bid w b : 0 ≤ b < 256 →
  active bk bid (w * 256 + b) = Z.testbit (bitmap bk bid).[w] b.
Proof.
  intros. unfold active.
  by rewrite Z.div_add_l, Z.div_small, Z.add_0_r, Z.add_comm, Z.mod_add, Z.mod_small by lia.
Qed.

Definition ask_result (bk : Orderbook) (t : Z) (r : Result (Z * bool)) : Prop :=
  ∃ f b, r = Ok (f, b) ∧
    if b : bool then t ≤ f ≤ MAX_TICK ∧ active bk false f = true ∧
                   ∀ u, t ≤ u < f → active bk false u = false
    else ∀ u, t ≤ u ≤ MAX_TICK → active bk false u = false.

Lemma ask_result_skip bk t t' r : t ≤ t' →
  (∀ u, t ≤ u < t' → active bk false u = false) → ask_result bk t' r → ask_result bk t r.
Proof.
  intros Hle Hskip (f & b & -> & Hb). exists f, b. split; [done|].
  destruct b; [destruct Hb as (? & ? & Hnone); split_and!; try done; try lia|];
    intros u Hu; destruct (decide (u < t')); try (apply Hskip; lia); [apply Hnone|apply Hb]; lia.
Qed.

Lemma ask_search_spec fuel bk t :
  8 - t / 256 ≤ Z.of_nat fuel → 0 < Z.of_nat fuel → ask_result bk t (ask_search fuel bk t).
Proof.
  revert t. induction fuel as [|fuel IH]; intros t Hf Hpos; [lia|]. cbn [ask_search]. cbv zeta.
  change (Z.shiftr MAX_TICK 8) with 7. rewrite word_of_tick, bit_of_tick.
  pose proof (Z.mod_pos_bound t 256 ltac:(lia)) as Hmod.
  pose proof (Z.div_mod t 256 ltac:(lia)) as Hdm.
  set (w := t / 256) in *. set (b := t mod 256) in *.
  destruct (Z.ltb_spec 7 w).
  { exists t, false. split; [done|]. unfold MAX_TICK. lia. }
  change (ask_bitmap bk) with (bitmap bk false).
  destruct (masks_nonneg b Hmod) as [Hm _].
  pose proof (mask_above_bit b) as Hbit.
  set (mask := if b =? 0 then _ else _) in *.
  destruct (Z.eqb_spec (Z.land (bitmap bk false).[w] mask) 0) as [H0|H0]; cbn [negb].
  - assert (∀ u, t ≤ u < (w + 1) * 256 → active bk false u = false) as Hnone.
    { intros u Hu. replace u with (w * 256 + (u - w * 256)) by lia.
      rewrite active_word by lia. eapply masked_zero; [lia|exact H0|].
      rewrite Hbit by lia. apply bool_decide_eq_true. lia. }
    rewrite Z.shiftl_mul_pow2 by lia. change (2 ^ 8) with 256.
    eapply (ask_result_skip bk t ((w + 1) * 256)); [lia|done|].
    destruct (Z.ltb_spec 7 (w + 1)).
    + eexists _, false. split; [done|]. unfold MAX_TICK. lia.
    + apply IH; rewrite ?Z.div_mul; lia.
  - assert (0 < Z.land (bitmap bk false).[w] mask) as Hgt.
    { assert (0 ≤ Z.land (bitmap bk false).[w] mask) by (apply Z.land_nonneg; by right). lia. }
    destruct (trailing_zeros_spec _ Hgt) as (Hz0 & Hz1 & Hz2).
    set (z := trailing_zeros _) in *.
    rewrite Z.land_spec, Hbit in Hz1 by done. bprop.
    rewrite tick_of_word_bit by lia.
    assert (active bk false (w * 256 + z) = true) as Hact by (rewrite active_word; [done|lia]).
    assert (∀ u, t ≤ u < w * 256 + z → active bk false u = false) as Hnone.
    { intros u Hu. replace u with (w * 256 + (u - w * 256)) by lia. rewrite active_word by lia.
      specialize (Hz2 (u - w * 256) ltac:(lia)). rewrite Z.land_spec, Hbit in Hz2 by lia.
      rewrite bool_decide_eq_true_2, andb_true_r in Hz2 by lia. done. }
    destruct (Z.leb_spec (w * 256 + z) MAX_TICK).
    + exists (w * 256 + z), true. split_and!; try done; lia.
    + exists (w * 256 + z), false. split; [done|]. intros. apply Hnone. lia.
Qed.

Definition bid_result (bk : Orderbook) (t : Z) (r : Result (Z * bool)) : Prop :=
  ∃ f b, r = Ok (f, b) ∧
    if b : bool then MIN_TICK ≤ f ≤ t ∧ active bk true f = true ∧
                   ∀ u, f < u ≤ t → active bk true u = false
    else ∀ u, MIN_TICK ≤ u ≤ t → active bk true u = false.

Lemma bid_result_skip bk t t' r : t' ≤ t →
  (∀ u, t' < u ≤ t → active bk true u = false) → bid_result bk t' r → bid_result bk t r.
Proof.
  intros Hle Hskip (f & b & -> & Hb). exists f, b. split; [done|].
  destruct b; [destruct Hb as (? & ? & Hnone); split_and!; try done; try lia|];
    intros u Hu; destruct (decide (t' < u)); try (apply Hskip; lia); [apply Hnone|apply Hb]; lia.
Qed.

Lemma bid_search_spec fuel bk t :
  t / 256 + 9 ≤ Z.of_nat fuel → 0 < Z.of_nat fuel → bid_result bk t (bid_search fuel bk t).
Proof.
  revert t. induction fuel as [|fuel IH]; intros t Hf Hpos; [lia|]. cbn [bid_search]. cbv zeta.
  change (Z.shiftr MIN_TICK 8) with (-8). rewrite word_of_tick, bit_of_tick.
  pose proof (Z.mod_pos_bound t 256 ltac:(lia)) as Hmod.
  pose proof (Z.div_mod t 256 ltac:(lia)) as Hdm.
  set (w := t / 256) in *. set (b := t mod 256) in *.
  destruct (Z.ltb_spec w (-8)).
  { exists t, false. split; [done|]. unfold MIN_TICK. lia. }
  change (bid_bitmap bk) with (bitmap bk true).
  destruct (masks_nonneg b Hmod) as [_ Hm].
  pose proof (mask_below_bit b) as Hbit.
  set (mask := if b =? 255 then _ else _) in *.
  destruct (Z.eqb_spec (Z.land (bitmap bk true).[w] mask) 0) as [H0|H0]; cbn [negb].
  - assert (∀ u, w * 256 - 1 < u ≤ t → active bk true u = false) as Hnone.
    { intros u Hu. replace u with (w * 256 + (u - w * 256)) by lia.
      rewrite active_word by lia. eapply masked_zero; [lia|exact H0|].
      rewrite Hbit by lia. apply bool_decide_eq_true. lia. }
    rewrite tick_of_word_bit by lia. replace ((w - 1) * 256 + 255) with (w * 256 - 1) by lia.
    eapply (bid_result_skip bk t (w * 256 - 1)); [lia|done|].
    destruct (Z.ltb_spec (w - 1) (-8)).
    + eexists _, false. split; [done|]. unfold MIN_TICK. lia.
    + assert ((w * 256 - 1) / 256 = w - 1) by (symmetry; apply (Z.div_unique _ _ _ 255); lia).
      apply IH; lia.
  - assert (0 < Z.land (bitmap bk true).[w] mask) as Hgt.
    { assert (0 ≤ Z.land (bitmap bk true).[w] mask) by (apply Z.land_nonneg; by right). lia. }
    unfold leading_zeros. rewrite (proj2 (Z.eqb_neq _ _)) by done.
    set (v := Z.land _ mask) in *. replace (255 - (255 - Z.log2 v)) with (Z.log2 v) by lia.
    pose proof (Z.log2_nonneg v) as Hz0. pose proof (Z.bit_log2 v Hgt) as Hz1.
    unfold v in Hz1 at 1. rewrite Z.land_spec, Hbit in Hz1 by done. bprop.
    rewrite tick_of_word_bit by lia.
    assert (active bk true (w * 256 + Z.log2 v) = true) as Hact by (rewrite active_word; [done|lia]).
    assert (∀ u, w * 256 + Z.log2 v < u ≤ t → active bk true u = false) as Hnone.
    { intros u Hu. replace u with (w * 256 + (u - w * 256)) by lia. rewrite active_word by lia.
      pose proof (Z.bits_above_log2 v (u - w * 256) ltac:(lia) ltac:(lia)) as Hz2.
      unfold v in Hz2. rewrite Z.land_spec, Hbit in Hz2 by lia.
      rewrite bool_decide_eq_true_2, andb_true_r in Hz2 by lia. done. }
    destruct (Z.leb_spec MIN_TICK (w * 256 + Z.log2 v)).
    + exists (w * 256 + Z.log2 v), true. split_and!; try done; lia.
    + exists (w * 256 + Z.log2 v), false. split; [done|]. intros. apply Hnone. lia.
Qed.

(** What the search returns, on both sides of a book. *)
Definition beyond (bid : bool) (t u : Z) : Prop :=
  if bid then MIN_TICK ≤ u < t else t < u ≤ MAX_TICK.
Global Instance beyond_dec bid t u : Decision (beyond bid t u).
Proof. unfold beyond. destruct bid; apply _. Defined.

Lemma next_initialized_tick_found bk tk bid : I16_MIN ≤ tk ≤ I16_MAX →
  ∃ f b, next_initialized_tick bk tk bid = Ok (f, b) ∧
    if b : bool then beyond bid tk f ∧ active bk bid f = true ∧
                   ∀ u, beyond bid tk u → beyond bid u f → active bk bid u = false
    else ∀ u, beyond bid tk u → active bk bid u = false.
Proof.
  unfold I16_MIN, I16_MAX. intros Ht.
  unfold next_initialized_tick, next_initialized_bid_tick, next_initialized_ask_tick, beyond.
  destruct bid.
  - destruct (Z.leb_spec tk MIN_TICK); [exists MIN_TICK, false; split; [done|lia]|].
    destruct (bid_search_spec WORD_FUEL bk (tk - 1)) as (f & b & -> & Hb).
    + unfold WORD_FUEL. assert ((tk - 1) / 256 < 128) by (apply Z.div_lt_upper_bound; lia). lia.
    + done.
    + exists f, b. split; [done|]. destruct b.
      * destruct Hb as (? & ? & Hn). split_and!; try done; try lia. intros. apply Hn. lia.
      * intros. apply Hb. lia.
  - destruct (Z.leb_spec MAX_TICK tk); [exists MAX_TICK, false; split; [done|lia]|].
    destruct (ask_search_spec WORD_FUEL bk (tk + 1)) as (f & b & -> & Hb).
    + unfold WORD_FUEL. assert (-128 ≤ (tk + 1) / 256) by (apply Z.div_le_lower_bound; lia). lia.
    + done.
    + exists f, b. split; [done|]. destruct b.
      * destruct Hb as (? & ? & Hn). split_and!; try done; try lia. intros. apply Hn. lia.
      * intros. apply Hb. lia.
Qed.

Lemma find_first {A} (P : A → bool) (l : list A) (i : nat) a :
  l !! i = Some a → P a = true → (∀ j b, (j < i)%nat → l !! j = Some b → P b = false) →
  List.find P l = Some a.
Proof.
  revert i. induction l as [|b l IH]; intros [|i] Hl Ha Hlt; try done.
  - injection Hl as ->. cbn. by rewrite Ha.
  - cbn. rewrite (Hlt 0%nat b ltac:(lia) eq_refl). apply (IH i); [done..|].
    intros j c Hj Hc. apply (Hlt (S j) c); [lia|done].
Qed.

Lemma find_none {A} (P : A → bool) (l : list A) : (∀ a, a ∈ l → P a = false) → List.find P l = None.
Proof.
  induction l as [|b l IH]; intros Hall; [done|]. cbn. rewrite Hall by left.
  apply IH. intros. apply Hall. by right.
Qed.

Lemma ticks_beyond_lookup bid tk i u : ticks_beyond tk bid !! i = Some u →
  u = (if bid then tk - 1 - Z.of_nat i else tk + 1 + Z.of_nat i) ∧ beyond bid tk u.
Proof.
  unfold ticks_beyond, beyond. destruct bid.
  - rewrite list_lookup_fmap. intros (v & Hv & ->)%fmap_Some. apply lookup_seqZ in Hv as [-> ?]. lia.
  - intros [-> ?]%lookup_seqZ. lia.
Qed.

Lemma ticks_beyond_index bid tk u : beyond bid tk u →
  ticks_beyond tk bid !! Z.to_nat (if bid then tk - 1 - u else u - tk - 1) = Some u.
Proof.
  unfold ticks_beyond, beyond. destruct bid; intros Hu.
  - rewrite list_lookup_fmap. apply fmap_Some. exists (tk - 1 - u).
    split; [apply lookup_seqZ|]; lia.
  - apply lookup_seqZ. lia.
Qed.

(** C28: the search for the next active tick of a book, which scans 256 ticks at a time
    with masks and bit counts, always ends, and finds exactly what looking at the ticks one by
    one finds, for every tick an [i16] can hold and on both sides. *)
Theorem next_initialized_tick_linear bk tk bid :
  I16_MIN ≤ tk ≤ I16_MAX →
  ∃ f b, next_initialized_tick bk tk bid = Ok (f, b) ∧
         linear_next_tick bk tk bid = (if b then Some f else None).
Proof.
  intros Htk. destruct (next_initialized_tick_found bk tk bid Htk) as (f & b & Hok & Hb).
  exists f, b. split; [done|]. unfold linear_next_tick. destruct b.
  - destruct Hb as (Hf & Hact & Hnone).
    eapply find_first; [by apply ticks_beyond_index|done|].
    intros j u Hj Hu. apply ticks_beyond_lookup in Hu as [-> Hu]. apply Hnone; [done|].
    unfold beyond in *. destruct bid; lia.
  - apply find_none. intros u [i Hu]%list_elem_of_lookup. apply ticks_beyond_lookup in Hu as []. auto.
Qed.

(** ** The bitmap as a set *)
Lemma testbit_single b i : 0 ≤ b → 0 ≤ i → Z.testbit (Z.shiftl 1 b) i = bool_decide (i = b).
Proof.
  intros. rewrite Z.shiftl_1_l. destruct (decide (i = b)) as [->|].
  - rewrite Z.pow2_bits_true by done. by rewrite bool_decide_eq_true_2.
  - rewrite Z.pow2_bits_false by lia. by rewrite bool_decide_eq_false_2.
Qed.

Lemma write_word_bitmap bid w v bk bid' :
  bitmap (write_word bid w v bk) bid' = if eqb bid bid' then <[w:=v]> (bitmap bk bid') else bitmap bk bid'.
Proof. by destruct bid, bid'. Qed.

Lemma same_tick t u : t / 256 = u / 256 → t mod 256 = u mod 256 → t = u.
Proof. intros. rewrite (Z.div_mod t 256), (Z.div_mod u 256) by lia. congruence. Qed.

(** A word rewritten at the bit of [tk] only. *)
Lemma active_write bk bid tk v (b : bool) :
  (∀ i, 0 ≤ i < 256 → Z.testbit v i = if decide (i = tk mod 256) then b
                                       else Z.testbit (bitmap bk bid).[tk / 256] i) →
  ∀ bid' u, active (write_word bid (tk / 256) v bk) bid' u
    = if decide (bid' = bid ∧ u = tk) then b else active bk bid' u.
Proof.
  intros Hv bid' u. unfold active. rewrite write_word_bitmap.
  destruct (eqb_spec bid bid') as [->|Hne]; [|rewrite decide_False by naive_solver; done].
  rewrite mread_insert. case_decide as Hw.
  - rewrite Hv by (apply Z.mod_pos_bound; lia). rewrite Hw. case_decide as Hb.
    + assert (u = tk) as -> by (by apply same_tick). by rewrite decide_True.
    + rewrite decide_False; [done|]. by intros [_ ->].
  - rewrite decide_False; [done|]. by intros [_ ->].
Qed.

Definition bit_written (bid : bool) (tk : Z) (b : bool) (bk bk' : Orderbook) : Prop :=
  ∃ v, bk' = write_word bid (tk / 256) v bk ∧
    ∀ bid' u, active bk' bid' u = if decide (bid' = bid ∧ u = tk) then b else active bk bid' u.

Lemma set_tick_bit_ok tk bid e bk l : tick_in_bounds tk = true →
  ∃ bk', set_tick_bit tk bid e (bk, l) = (Ok tt, (bk', l)) ∧ bit_written bid tk true bk bk'.
Proof.
  intros Htk. unfold set_tick_bit, calc_tick_word_idx. rewrite Htk. cbn [negb].
  eexists. split; [reflexivity|]. cbn [fst snd]. rewrite word_of_tick, bit_of_tick.
  eexists. split; [done|]. apply active_write. intros i Hi.
  pose proof (Z.mod_pos_bound tk 256 ltac:(lia)).
  rewrite Z.lor_spec, testbit_single by lia. case_decide; subst.
  - by rewrite bool_decide_eq_true_2, orb_true_r.
  - by rewrite bool_decide_eq_false_2, orb_false_r.
Qed.

Lemma delete_tick_bit_ok tk bid e bk l : tick_in_bounds tk = true →
  ∃ bk', delete_tick_bit tk bid e (bk, l) = (Ok tt, (bk', l)) ∧ bit_written bid tk false bk bk'.
Proof.
  intros Htk. unfold delete_tick_bit, calc_tick_word_idx. rewrite Htk. cbn [negb].
  eexists. split; [reflexivity|]. cbn [fst snd]. rewrite word_of_tick, bit_of_tick.
  eexists. split; [done|]. apply active_write. intros i Hi.
  pose proof (Z.mod_pos_bound tk 256 ltac:(lia)).
  rewrite Z.land_spec, Z.lxor_spec, U256_MAX_bit, testbit_single by lia.
  rewrite (bool_decide_eq_true_2 (i < 256)) by lia. case_decide; subst.
  - by rewrite bool_decide_eq_true_2, andb_false_r.
  - by rewrite bool_decide_eq_false_2, andb_true_r.
Qed.

Lemma tick_bit_invalid tk bid e st : tick_in_bounds tk = false →
  set_tick_bit tk bid e st = (Err (dex_error DEXError.InvalidTick), st) ∧
  delete_tick_bit tk bid e st = (Err (dex_error DEXError.InvalidTick), st).
Proof. intros Htk. unfold set_tick_bit, delete_tick_bit, calc_tick_word_idx. by rewrite Htk. Qed.

Lemma is_tick_initialized_active bk tk bid : tick_in_bounds tk = true →
  is_tick_initialized bk tk bid = Ok (active bk bid tk).
Proof.
  intros Htk. unfold is_tick_initialized, calc_tick_word_idx. rewrite Htk. cbn.
  change 255 with 0xFF. rewrite word_of_tick, bit_of_tick. f_equal. unfold active.
  pose proof (Z.mod_pos_bound tk 256 ltac:(lia)).
  destruct (Z.eqb_spec (Z.land (bitmap bk bid).[tk / 256] (Z.shiftl 1 (tk mod 256))) 0) as [H0|H0]; cbn.
  - symmetry. eapply masked_zero; [lia|exact H0|].
    rewrite testbit_single by lia. by apply bool_decide_eq_true_2.
  - destruct (Z.testbit (bitmap bk bid).[tk / 256] (tk mod 256)) eqn:Hbit; [done|].
    destruct H0. apply Z.bits_inj'. intros i Hi. rewrite Z.bits_0, Z.land_spec, testbit_single by lia.
    case_bool_decide; [subst; by rewrite Hbit|apply andb_false_r].
Qed.

(** ** Prices *)
Lemma tick_to_price_eq t : I16_MIN ≤ t ≤ I16_MAX → tick_to_price t = PRICE_SCALE + t.
Proof. intros. unfold tick_to_price, wrap. apply Z.mod_small. unfold PRICE_SCALE, I16_MIN, I16_MAX, U32_MAX in *. lia. Qed.

Lemma tick_in_bounds_iff t : tick_in_bounds t = true ↔ MIN_TICK ≤ t ≤ MAX_TICK.
Proof. unfold tick_in_bounds. rewrite andb_true_iff, !Z.leb_le. done. Qed.

Lemma bounds_i16 t : tick_in_bounds t = true → I16_MIN ≤ t ≤ I16_MAX.
Proof. rewrite tick_in_bounds_iff. unfold MIN_TICK, MAX_TICK, I16_MIN, I16_MAX. lia. Qed.

Lemma price_bounds t : tick_in_bounds t = true → MIN_PRICE ≤ tick_to_price t ≤ MAX_PRICE.
Proof.
  intros Ht. rewrite tick_to_price_eq by (by apply bounds_i16).
  apply tick_in_bounds_iff in Ht. unfold MIN_TICK, MAX_TICK, PRICE_SCALE, MIN_PRICE, MAX_PRICE in *. lia.
Qed.

Lemma price_pos t : I16_MIN ≤ t ≤ I16_MAX → 0 < tick_to_price t.
Proof. intros Ht. rewrite tick_to_price_eq by done. unfold PRICE_SCALE, I16_MIN in *. lia. Qed.

Lemma as_tick p : MIN_PRICE ≤ p ≤ MAX_PRICE →
  as_i16 (as_i32 (as_i32 p - PRICE_SCALE)) = p - PRICE_SCALE.
Proof.
  unfold as_i16, as_i32, MIN_PRICE, MAX_PRICE, PRICE_SCALE. intros.
  rewrite (Z.mod_small (p + 2 ^ 31)) by lia. rewrite (Z.mod_small (_ - 100000 + 2 ^ 31)) by lia.
  rewrite Z.mod_small by lia. lia.
Qed.

(** Prices and ticks are inverse: a valid tick is recovered from its price, and a
    price converts exactly when it lies in the price range, to the only valid tick with that
    price; every other price is rejected. *)
Theorem price_tick_roundtrip t p :
  (tick_in_bounds t = true → price_to_tick (tick_to_price t) = Ok t) ∧
  (price_to_tick p = Ok t ↔ MIN_PRICE ≤ p ≤ MAX_PRICE ∧ tick_in_bounds t = true ∧ tick_to_price t = p).
Proof.
  assert (tick_in_bounds t = true → price_to_tick (tick_to_price t) = Ok t) as Hfwd.
  { intros Ht. pose proof (price_bounds t Ht). unfold price_to_tick.
    rewrite (proj2 (andb_true_iff _ _)) by (rewrite !Z.leb_le; lia). cbn [negb].
    rewrite as_tick by done. rewrite tick_to_price_eq by (by apply bounds_i16). f_equal. lia. }
  split; [done|]. split.
  - intros Hp. unfold price_to_tick in Hp. destruct (_ && _) eqn:Hb in Hp; [|done]. bprop.
    cbn [negb] in Hp. rewrite as_tick in Hp by lia. injection Hp as <-.
    unfold MIN_PRICE, MAX_PRICE in *.
    assert (tick_in_bounds (p - PRICE_SCALE) = true) as Ht.
    { apply tick_in_bounds_iff. unfold MIN_TICK, MAX_TICK, PRICE_SCALE. lia. }
    split_and!; try done; try lia. rewrite tick_to_price_eq by (by apply bounds_i16). lia.
  - intros (_ & Ht & <-). auto.
Qed.

(** ** Conversions *)
Definition rounded (rounding : RoundingDirection) (n d v : Z) : Prop :=
  match rounding with Down => v * d ≤ n < (v + 1) * d | Up => (v - 1) * d < n ≤ v * d end.

Lemma rounded_floor n d : 0 < d → rounded Down n d (n / d).
Proof. intros. pose proof (div_floor_spec n d). cbn. lia. Qed.
Lemma rounded_ceil n d : 0 < d → rounded Up n d (div_ceil n d).
Proof. intros. pose proof (div_ceil_spec n d). cbn. lia. Qed.
Lemma rounded_unique r n d v v' : 0 < d → rounded r n d v → rounded r n d v' → v = v'.
Proof. destruct r; cbn; nia. Qed.

Lemma try_rounded r n d : 0 < d →
  match try_into U128_MAX match r with Down => n / d | Up => div_ceil n d end with
  | Some q => rounded r n d q ∧ q ≤ U128_MAX
  | None => ∃ v, rounded r n d v ∧ U128_MAX < v
  end.
Proof.
  intros Hd. unfold try_into. set (v := match r with Down => _ | Up => _ end).
  assert (rounded r n d v) by (unfold v; destruct r; [by apply rounded_floor|by apply rounded_ceil]).
  destruct (Z.leb_spec v U128_MAX); eauto.
Qed.

Lemma base_to_quote_rounded a t r : I16_MIN ≤ t ≤ I16_MAX →
  match base_to_quote a t r with
  | Some q => rounded r (a * tick_to_price t) PRICE_SCALE q ∧ q ≤ U128_MAX
  | None => ∃ v, rounded r (a * tick_to_price t) PRICE_SCALE v ∧ U128_MAX < v
  end.
Proof. intros. by apply try_rounded. Qed.

Lemma quote_to_base_rounded q t r : I16_MIN ≤ t ≤ I16_MAX →
  match quote_to_base q t r with
  | Some a => rounded r (q * PRICE_SCALE) (tick_to_price t) a ∧ a ≤ U128_MAX
  | None => ∃ v, rounded r (q * PRICE_SCALE) (tick_to_price t) v ∧ U128_MAX < v
  end.
Proof. intros. by apply try_rounded, price_pos. Qed.

(** C35: the conversions between base and quote are exact up to one unit in the chosen direction and
    overflow exactly when that value does not fit 128 bits; converting an amount there and
    back never turns rounding up followed by rounding down into less than the start, nor
    rounding down followed by rounding up into more. *)
Theorem conversion_bounds a t r :
  I16_MIN ≤ t ≤ I16_MAX → 0 ≤ a →
  (∀ q, base_to_quote a t r = Some q ↔ rounded r (a * tick_to_price t) PRICE_SCALE q ∧ q ≤ U128_MAX) ∧
  (∀ b, quote_to_base a t r = Some b ↔ rounded r (a * PRICE_SCALE) (tick_to_price t) b ∧ b ≤ U128_MAX) ∧
  (∀ q b, base_to_quote a t Up = Some q → quote_to_base q t Down = Some b → a ≤ b) ∧
  (∀ q b, base_to_quote a t Down = Some q → quote_to_base q t Up = Some b → b ≤ a) ∧
  (∀ q b, quote_to_base a t Up = Some b → base_to_quote b t Down = Some q → a ≤ q) ∧
  (∀ q b, quote_to_base a t Down = Some b → base_to_quote b t Up = Some q → q ≤ a).
Proof.
  intros Ht Ha. pose proof (price_pos t Ht) as Hp.
  assert (0 < PRICE_SCALE) as Hs by done.
  pose proof (λ a r, base_to_quote_rounded a t r Ht) as HB.
  pose proof (λ a r, quote_to_base_rounded a t r Ht) as HQ.
  set (p := tick_to_price t) in *. set (s := PRICE_SCALE) in *.
  split; [|split].
  - intros q. specialize (HB a r). split; [intros Heq; by rewrite Heq in HB|].
    intros [Hr Hq]. destruct (base_to_quote a t r) as [q'|].
    + f_equal. by eapply (rounded_unique r (a * p) s); [|apply HB|].
    + destruct HB as (v & Hv & ?). pose proof (rounded_unique _ _ _ _ _ Hs Hr Hv). lia.
  - intros q. specialize (HQ a r). split; [intros Heq; by rewrite Heq in HQ|].
    intros [Hr Hq]. destruct (quote_to_base a t r) as [q'|].
    + f_equal. by eapply (rounded_unique r (a * s) p); [|apply HQ|].
    + destruct HQ as (v & Hv & ?). pose proof (rounded_unique _ _ _ _ _ Hp Hr Hv). lia.
  - split_and!; intros q b H1 H2.
    + specialize (HB a Up). specialize (HQ q Down). rewrite H1 in HB. rewrite H2 in HQ. cbn in *. nia.
    + specialize (HB a Down). specialize (HQ q Up). rewrite H1 in HB. rewrite H2 in HQ. cbn in *. nia.
    + specialize (HQ a Up). specialize (HB b Down). rewrite H1 in HQ. rewrite H2 in HB. cbn in *. nia.
    + specialize (HQ a Down). specialize (HB b Up). rewrite H1 in HQ. rewrite H2 in HB. cbn in *. nia.
Qed.

Lemma conversion_bounds_witness :
  base_to_quote 100000001 15 Up = Some 100015002 ∧
  (∀ b, quote_to_base 100015002 15 Down = Some b → 100000001 ≤ b) ∧
  base_to_quote U128_MAX MAX_TICK Down = None.
Proof.
  split; [vm_compute; reflexivity|]. split; [|vm_compute; reflexivity]. intros b Hb.
  destruct (conversion_bounds 100000001 15 Up ltac:(vm_compute; split; discriminate) ltac:(lia))
    as (_ & _ & H & _).
  eapply (H 100015002); [vm_compute; reflexivity|exact Hb].
Defined.

(** ** Flip orders *)
(** A fill of the whole of what is left. *)
Definition filled (o : Order) : Order := set_remaining 0 o.

Lemma fill_all o r : remaining o = r → 0 ≤ r → fill o r = Ok (filled o).
Proof.
  intros <- ?. unfold fill. rewrite Z.ltb_irrefl. unfold saturating_sub.
  by rewrite Z.sub_diag, Z.max_id.
Qed.

Lemma new_flip_ok id mk key amt tk bid ftick o :
  new_flip id mk key amt tk bid ftick = Ok o ↔
  o = order_new id mk key amt tk bid true ftick ∧ (if bid then tk < ftick else ftick < tk).
Proof.
  unfold new_flip. destruct bid.
  - destruct (Z.leb_spec ftick tk); naive_solver lia.
  - destruct (Z.leb_spec tk ftick); naive_solver lia.
Qed.

(** A flip order that is filled comes back as a valid flip order on the other side, between the
    same two ticks and for the same amount, and when that one is filled too the
    original order comes back, under a new identifier. *)
Theorem flip_flip_roundtrip id mk key amt tk bid ftick o id1 id2 :
  new_flip id mk key amt tk bid ftick = Ok o → 0 ≤ amt →
  ∃ o1, (fill o amt ≫= λ f, create_flipped_order f id1) = Ok o1 ∧
    new_flip id1 mk key amt ftick (negb bid) tk = Ok o1 ∧
    (fill o1 amt ≫= λ f, create_flipped_order f id2) = new_flip id2 mk key amt tk bid ftick.
Proof.
  intros [-> Hlt]%new_flip_ok Hamt.
  rewrite fill_all by done. eexists. split; [reflexivity|]. split.
  - apply new_flip_ok. split; [done|]. by destruct bid.
  - rewrite fill_all by done. cbn. rewrite negb_involutive. symmetry. by apply new_flip_ok.
Qed.

Lemma flip_flip_roundtrip_witness :
  ∃ o1, new_flip 8 11 22 1000 20 false (-10) = Ok o1 ∧
    (fill o1 1000 ≫= λ f, create_flipped_order f 9) = new_flip 9 11 22 1000 (-10) true 20.
Proof.
  destruct (flip_flip_roundtrip 7 11 22 1000 (-10) true 20 (order_new 7 11 22 1000 (-10) true true 20) 8 9
    eq_refl ltac:(lia)) as (o1 & _ & H1 & H2). eauto.
Defined.

(** A book with active asks on both sides of a word boundary. *)
Definition sample_book : Orderbook :=
  mkBook 1 2 ∅ ∅ I16_MIN I16_MAX ∅ {[ 0 := Z.shiftl 1 10; 3 := Z.shiftl 1 32 ]}.

Lemma next_initialized_tick_linear_witness :
  next_initialized_tick sample_book 10 false = Ok (800, true) ∧
  linear_next_tick sample_book 10 false = Some 800.
Proof.
  destruct (next_initialized_tick_linear sample_book 10 false) as (f & b & H1 & H2);
    [vm_compute; split; discriminate|].
  assert (next_initialized_tick sample_book 10 false = Ok (800, true)) as H3 by (vm_compute; reflexivity).
  rewrite H3 in H1. injection H1 as <- <-. split; [exact H3|exact H2].
Defined.
