(* ===== verification/Dex.v ===== *)
(** * The stablecoin DEX
    ([src/crates/tempo-precompiles/src/stablecoin_dex/mod.rs])

    A central limit order book per token pair: limit and flip orders queued by price and
    time, market swaps routed through the tree of quote tokens, and the balances users
    keep inside the exchange.  The exchange's storage sits beside the shared state of the
    tokens ([DexWorld]). *)
From Stdlib Require Import ZArith Lia String.
From stdpp Require Import base tactics option list fin_maps gmap sets strings.
From S2P Require Import Prelude Base StorageSet AddressRegistry Keychain TIP403 TIP20Ledger TIP20 OrderBook.
Open Scope Z_scope.
Open Scope storage_scope.

(** ** State *)
Record DexState := mkDex {
  books : gmap B256 Orderbook;
  orders : gmap Z Order;
  dex_balances : gmap (Address * Address) Z;
  stored_next_order_id : Z;
  book_keys : list B256;
}.
Definition dex_empty : DexState := mkDex ∅ ∅ ∅ 0 [].

Definition write_book (k : B256) (b : Orderbook) (d : DexState) : DexState :=
  mkDex (<[k:=b]> (books d)) (orders d) (dex_balances d) (stored_next_order_id d) (book_keys d).
Definition write_order (id : Z) (o : Order) (d : DexState) : DexState :=
  mkDex (books d) (<[id:=o]> (orders d)) (dex_balances d) (stored_next_order_id d) (book_keys d).
Definition delete_order (id : Z) (d : DexState) : DexState :=
  mkDex (books d) (delete id (orders d)) (dex_balances d) (stored_next_order_id d) (book_keys d).
Definition write_dex_balance (u t : Address) (n : Z) (d : DexState) : DexState :=
  mkDex (books d) (orders d) (<[(u, t):=n]> (dex_balances d)) (stored_next_order_id d) (book_keys d).
Definition write_next_order_id (n : Z) (d : DexState) : DexState :=
  mkDex (books d) (orders d) (dex_balances d) n (book_keys d).
Definition push_book_key (k : B256) (d : DexState) : DexState :=
  mkDex (books d) (orders d) (dex_balances d) (stored_next_order_id d) (book_keys d ++ [k]).

Record DexWorld := mkDexWorld { dex_world : World; dex : DexState }.
Definition dex_world_empty : DexWorld := mkDexWorld world_empty dex_empty.

Definition in_world {A} : M World A → M DexWorld A := zoom dex_world (λ w x, mkDexWorld w (dex x)).
Definition in_dex {A} : M DexState A → M DexWorld A := zoom dex (λ d x, mkDexWorld (dex_world x) d).
(** On the storage of one book. *)
Definition in_book {A} (k : B256) : M Orderbook A → M DexState A :=
  zoom (λ d, (books d).[k]) (λ b d, write_book k b d).

(** A call whose error the caller inspects: [match m { Ok .., Err .. }]. *)
Definition attempt {S A} (m : M S A) : M S (Result A) := λ e st, let '(r, st') := m e st in (Ok r, st').

(** [storage.checkpoint()]: before T1C the guard does nothing. *)
Definition checkpoint {S A} (m : M S A) : M S A := λ e st,
  if is_t1c (spec e) then atomically m e st else m e st.

Definition MIN_ORDER_AMOUNT : Z := 100000000.

(** ** Identifiers, orders and internal balances *)
Definition next_order_id (d : DexState) : Z := Z.max (stored_next_order_id d) 1.

(** The identifiers are [u128]; 2^128 orders are never placed, so the increment is the
    one of the integers. *)
Definition increment_next_order_id : M DexState unit :=
  n ← gets next_order_id;
  modify (write_next_order_id (n + 1)).

Definition get_order (d : DexState) (id : Z) : Result Order :=
  let o := (orders d).[id] in
  if negb (maker o =? ZERO) && (order_id o <? next_order_id d) then Ok o
  else Err (dex_error DEXError.OrderDoesNotExist).

Definition balance_of (d : DexState) (u t : Address) : Z := (dex_balances d).[(u, t)].

Definition increment_balance (u t : Address) (n : Z) : M DexState unit :=
  current ← gets (λ d, balance_of d u t);
  v ← lift (ok_or (checked_add U128_MAX current n) under_overflow);
  modify (write_dex_balance u t v).

Definition sub_balance (u t : Address) (n : Z) : M DexState unit :=
  current ← gets (λ d, balance_of d u t);
  v ← lift (ok_or (checked_sub current n) under_overflow);
  modify (write_dex_balance u t v).

(** ** Linking an order into its level *)
(** The first half of [commit_order_to_book]: the order becomes the tail of its level, which is
    marked in the bitmap and compared with the best tick if it was empty. *)
Definition link_order (o : Order) (orderbook : Orderbook) (level : TickLevel) : M DexState (TickLevel * Order) :=
  let k := book_key o in
  let prev_tail := tail level in
  if prev_tail =? 0 then
    in_book k (set_tick_bit (tick o) (is_bid o));;
    (if is_bid o then
       when (best_bid_tick orderbook <? tick o) (in_book k (modify (set_best true (tick o))))
     else when (tick o <? best_ask_tick orderbook) (in_book k (modify (set_best false (tick o)))));;
    mret (mkLevel (order_id o) (order_id o) (total_liquidity level), o)
  else
    prev_order ← gets (λ d, (orders d).[prev_tail]);
    modify (write_order prev_tail (set_next (order_id o) prev_order));;
    mret (mkLevel (head level) (order_id o) (total_liquidity level), set_prev prev_tail o).

Definition commit_order_to_book (o : Order) : M DexState unit :=
  let k := book_key o in
  orderbook ← gets (λ d, (books d).[k]);
  level ← gets (λ d, tick_level (books d).[k] (tick o) (is_bid o));
  lo ← link_order o orderbook level;
  let '(level, o) := lo in
  new_liquidity ← lift (ok_or (checked_add U128_MAX (total_liquidity level) (remaining o)) under_overflow);
  in_book k (modify (write_level (is_bid o) (tick o) (mkLevel (head level) (tail level) new_liquidity)));;
  modify (write_order (order_id o) o).

(** What the last order of a level leaves behind: the next active tick is the best. *)
Definition advance_best (k : B256) (tk : Z) (bid : bool) : M DexState (Z * bool) :=
  found ← view (λ _ d, next_initialized_tick (books d).[k] tk bid);
  let has_liquidity : bool := found.2 in
  in_book k (modify (set_best bid (if has_liquidity then found.1 else if bid then I16_MIN else I16_MAX)));;
  mret found.

Definition get_best_price_level (d : DexState) (k : B256) (bid : bool) : Result TickLevel :=
  let b := (books d).[k] in
  let current_tick := best_tick b bid in
  if current_tick =? (if bid then I16_MIN else I16_MAX) then Err (dex_error DEXError.InsufficientLiquidity)
  else Ok (tick_level b current_tick bid).

Section dex.
Context `{Primitives}.
Local Notation MX := (M DexWorld).
Local Notation DEX := STABLECOIN_DEX_ADDRESS.

Definition dex_initialize : MX unit := in_world (modify (write_code DEX)).

(** ** Tokens *)
Definition dex_transfer (t to : Address) (n : Z) : MX unit :=
  self ← lift (from_address t);
  in_world (transfer self DEX to n);;
  mret tt.

Definition dex_transfer_from (t from : Address) (n : Z) : MX unit :=
  self ← lift (from_address t);
  in_world (transfer_from self DEX from DEX n);;
  mret tt.

Definition decrement_balance_or_transfer_from (user t : Address) (n : Z) : MX unit :=
  self ← lift (from_address t);
  in_world (ensure_transfer_authorized self user DEX);;
  user_balance ← gets (λ x, balance_of (dex x) user t);
  if n <=? user_balance then in_dex (sub_balance user t n)
  else
    rest ← lift (ok_or (checked_sub n user_balance) under_overflow);
    dex_transfer_from t user rest;;
    in_dex (modify (write_dex_balance user t 0)).

(** ** Pairs *)
Definition create_pair (b : Address) : MX B256 :=
  ok ← gets (λ x, is_tip20 (dex_world x) b);
  require ok (dex_error DEXError.InvalidBaseToken);;
  self ← lift (from_address b);
  q ← gets (λ x, quote_token (meta (token (dex_world x) self)));
  view (λ _ x, validate_usd_currency (dex_world x) b);;
  view (λ _ x, validate_usd_currency (dex_world x) q);;
  let k := compute_book_key b q in
  old ← gets (λ x, (books (dex x)).[k]);
  require (negb (is_initialized old)) (dex_error DEXError.PairAlreadyExists);;
  in_dex (modify (λ d, write_book k (book_new b q (books d).[k]) d));;
  in_dex (modify (push_book_key k));;
  emit DEX (PairCreated k b q);;
  mret k.

Definition validate_or_create_pair (book : Orderbook) (t : Address) : MX unit :=
  when (negb (is_initialized book)) (create_pair t;; mret tt).

(** ** Placing orders *)
(** The token and amount an order escrows, and the token its maker is paid in. *)
Definition escrow_of_order (t q : Address) (amt : Z) (bid : bool) (tk : Z) : Result (Address * Z * Address) :=
  if bid then
    quote_amount ← ok_or (base_to_quote amt tk Up) (dex_error DEXError.InsufficientBalance);
    Ok (q, quote_amount, t)
  else Ok (t, amt, q).

Definition place (sender t : Address) (amt : Z) (bid : bool) (tk : Z) : MX Z :=
  self ← lift (from_address t);
  q ← gets (λ x, quote_token (meta (token (dex_world x) self)));
  let k := compute_book_key t q in
  book ← gets (λ x, (books (dex x)).[k]);
  validate_or_create_pair book t;;
  require (tick_in_bounds tk) (dex_error (DEXError.TickOutOfBounds tk));;
  require (Z.rem tk TICK_SPACING =? 0) (dex_error DEXError.InvalidTick);;
  require (negb (amt <? MIN_ORDER_AMOUNT)) (dex_error (DEXError.BelowMinimumOrderSize amt));;
  esc ← lift (escrow_of_order t q amt bid tk);
  let '(escrow_token, escrow_amount, non_escrow_token) := esc in
  other ← lift (from_address non_escrow_token);
  in_world (ensure_transfer_authorized other DEX sender);;
  decrement_balance_or_transfer_from sender escrow_token escrow_amount;;
  id ← gets (λ x, next_order_id (dex x));
  in_dex increment_next_order_id;;
  let o := if bid then new_bid id sender k amt tk else new_ask id sender k amt tk in
  in_dex (commit_order_to_book o);;
  emit DEX (OrderPlaced id sender t amt bid tk false 0);;
  mret id.

Definition place_flip (sender t : Address) (amt : Z) (bid : bool) (tk ftick : Z)
    (internal_balance_only : bool) : MX Z :=
  self ← lift (from_address t);
  q ← gets (λ x, quote_token (meta (token (dex_world x) self)));
  let k := compute_book_key t q in
  checkpoint (
    book ← gets (λ x, (books (dex x)).[k]);
    validate_or_create_pair book t;;
    require (tick_in_bounds tk) (dex_error (DEXError.TickOutOfBounds tk));;
    require (Z.rem tk TICK_SPACING =? 0) (dex_error DEXError.InvalidTick);;
    require (tick_in_bounds ftick) (dex_error (DEXError.TickOutOfBounds ftick));;
    require (Z.rem ftick TICK_SPACING =? 0) (dex_error DEXError.InvalidFlipTick);;
    require (negb ((bid && (ftick <=? tk)) || (negb bid && (tk <=? ftick)))) (dex_error DEXError.InvalidFlipTick);;
    require (negb (amt <? MIN_ORDER_AMOUNT)) (dex_error (DEXError.BelowMinimumOrderSize amt));;
    esc ← lift (escrow_of_order t q amt bid tk);
    let '(escrow_token, escrow_amount, non_escrow_token) := esc in
    other ← lift (from_address non_escrow_token);
    in_world (ensure_transfer_authorized other DEX sender);;
    (if internal_balance_only then
       et ← lift (from_address escrow_token);
       in_world (ensure_transfer_authorized et sender DEX);;
       user_balance ← gets (λ x, balance_of (dex x) sender escrow_token);
       require (negb (user_balance <? escrow_amount)) (dex_error DEXError.InsufficientBalance);;
       in_dex (sub_balance sender escrow_token escrow_amount)
     else decrement_balance_or_transfer_from sender escrow_token escrow_amount);;
    id ← gets (λ x, next_order_id (dex x));
    o ← lift (match new_flip id sender k amt tk bid ftick with
              | Ok o => Ok o
              | Err _ => Err (dex_error DEXError.InvalidFlipTick)
              end);
    e ← ask;
    (if is_t1c (spec e) then in_dex (modify (write_next_order_id (id + 1)))
     else in_dex increment_next_order_id);;
    in_dex (commit_order_to_book o);;
    emit DEX (OrderPlaced id sender t amt bid tk true ftick);;
    mret id).

(** ** Filling orders *)
Definition emit_order_filled (id : Z) (mk taker : Address) (n : Z) (partial : bool) : MX unit :=
  emit DEX (OrderFilled id mk taker n partial).

Definition partial_fill_order (o : Order) (level : TickLevel) (fill_amount : Z) (taker : Address) : MX Z :=
  let k := book_key o in
  orderbook ← gets (λ x, (books (dex x)).[k]);
  let new_remaining := remaining o - fill_amount in
  in_dex (modify (λ d, write_order (order_id o) (set_remaining new_remaining (orders d).[order_id o]) d));;
  quote_amount ← lift (ok_or (base_to_quote fill_amount (tick o) (if is_bid o then Down else Up)) under_overflow);
  (if is_bid o then in_dex (increment_balance (maker o) (base orderbook) fill_amount)
   else in_dex (increment_balance (maker o) (quote orderbook) quote_amount));;
  let amount_out := if is_bid o then quote_amount else fill_amount in
  new_liquidity ← lift (ok_or (checked_sub (total_liquidity level) fill_amount) under_overflow);
  in_dex (in_book k (modify (write_level (is_bid o) (tick o) (mkLevel (head level) (tail level) new_liquidity))));;
  emit_order_filled (order_id o) (maker o) taker fill_amount true;;
  mret amount_out.

(** The settlement of [fill_order]: the maker is credited, the taker's amount returned. *)
Definition settle_fill (o : Order) (orderbook : Orderbook) : M DexState Z :=
  let fill_amount := remaining o in
  if is_bid o then
    increment_balance (maker o) (base orderbook) fill_amount;;
    lift (ok_or (base_to_quote fill_amount (tick o) Down) under_overflow)
  else
    quote_amount ← lift (ok_or (base_to_quote fill_amount (tick o) Up) under_overflow);
    increment_balance (maker o) (quote orderbook) quote_amount;;
    mret fill_amount.

(** Business errors of the flipped order are swallowed, system errors are not (T1A). *)
Definition flip_filled (o : Order) (orderbook : Orderbook) : MX unit :=
  r ← attempt (place_flip (maker o) (base orderbook) (amount o) (negb (is_bid o)) (flip_tick o) (tick o) true);
  e ← ask;
  match r with
  | Err err => if is_system_error err && is_t1a (spec e) then throw err else mret tt
  | Ok _ => mret tt
  end.

(** The filled order leaves its level: the next order of the level, or of the next level. *)
Definition pop_filled (k : B256) (o : Order) (level : TickLevel) : M DexState (option (TickLevel * Order)) :=
  modify (delete_order (order_id o));;
  if next o =? 0 then
    in_book k (modify (delete_level (is_bid o) (tick o)));;
    in_book k (delete_tick_bit (tick o) (is_bid o));;
    found ← advance_best k (tick o) (is_bid o);
    if negb found.2 then mret None
    else
      new_level ← gets (λ d, tick_level (books d).[k] found.1 (is_bid o));
      new_order ← gets (λ d, (orders d).[head new_level]);
      mret (Some (new_level, new_order))
  else
    modify (λ d, write_order (next o) (set_prev 0 (orders d).[next o]) d);;
    new_liquidity ← lift (ok_or (checked_sub (total_liquidity level) (remaining o)) under_overflow);
    let level := mkLevel (next o) (tail level) new_liquidity in
    in_book k (modify (write_level (is_bid o) (tick o) level));;
    new_order ← gets (λ d, (orders d).[next o]);
    mret (Some (level, new_order)).

Definition fill_order (k : B256) (o : Order) (level : TickLevel) (taker : Address) :
    MX (Z * option (TickLevel * Order)) :=
  orderbook ← gets (λ x, (books (dex x)).[k]);
  amount_out ← in_dex (settle_fill o orderbook);
  emit_order_filled (order_id o) (maker o) taker (remaining o) false;;
  when (is_flip o) (flip_filled o orderbook);;
  next_tick_info ← in_dex (pop_filled k o level);
  mret (amount_out, next_tick_info).

(** [fill_amount] and [amount_in] of an iteration of [fill_orders_exact_out]. *)
Definition exact_out_step (bid : bool) (amount_out tk rem : Z) : Result (Z * Z) :=
  if bid then
    base_needed ← ok_or (quote_to_base amount_out tk Up) under_overflow;
    let fill_amount := Z.min base_needed rem in
    Ok (fill_amount, fill_amount)
  else
    let fill_amount := Z.min amount_out rem in
    amount_in ← ok_or (base_to_quote fill_amount tk Up) under_overflow;
    Ok (fill_amount, amount_in).

(** What is left of [amount_out] after a complete fill. *)
Definition exact_out_rest (bid : bool) (amount_out tk rem received : Z) : Result Z :=
  if bid then
    base_needed ← ok_or (quote_to_base amount_out tk Up) under_overflow;
    if rem <? base_needed then ok_or (checked_sub amount_out received) under_overflow else Ok 0
  else if rem <? amount_out then ok_or (checked_sub amount_out received) under_overflow
  else Ok 0.

Fixpoint exact_out_loop (fuel : nat) (k : B256) (bid : bool) (taker : Address)
    (level : TickLevel) (o : Order) (amount_out total_amount_in : Z) : MX Z :=
  if negb (0 <? amount_out) then mret total_amount_in
  else
    match fuel with
    | O => throw OutOfGas
    | S fuel =>
        fa ← lift (exact_out_step bid amount_out (tick o) (remaining o));
        if fa.1 <? remaining o then
          partial_fill_order o level fa.1 taker;;
          lift (ok_or (checked_add U128_MAX total_amount_in fa.2) under_overflow)
        else
          filled ← fill_order k o level taker;
          total ← lift (ok_or (checked_add U128_MAX total_amount_in fa.2) under_overflow);
          rest ← lift (exact_out_rest bid amount_out (tick o) (remaining o) filled.1);
          match filled.2 with
          | Some (new_level, new_order) => exact_out_loop fuel k bid taker new_level new_order rest total
          | None =>
              require (negb (0 <? rest)) (dex_error DEXError.InsufficientLiquidity);;
              mret total
          end
    end.

(** Every iteration removes an order that was on this side at the start. *)
Definition fill_orders_exact_out (k : B256) (bid : bool) (amount_out : Z) (taker : Address) : MX Z :=
  level ← view (λ _ x, get_best_price_level (dex x) k bid);
  o ← gets (λ x, (orders (dex x)).[head level]);
  fuel ← gets (λ x, S (size (orders (dex x))));
  exact_out_loop fuel k bid taker level o amount_out 0.

Definition exact_in_step (bid : bool) (amount_in tk rem : Z) : Result Z :=
  if bid then Ok (Z.min amount_in rem)
  else
    base_out ← ok_or (quote_to_base amount_in tk Down) under_overflow;
    Ok (Z.min base_out rem).

Definition exact_in_rest (bid : bool) (amount_in tk rem : Z) : Result Z :=
  if bid then
    if rem <? amount_in then ok_or (checked_sub amount_in rem) under_overflow else Ok 0
  else
    base_out ← ok_or (quote_to_base amount_in tk Down) under_overflow;
    if rem <? base_out then
      quote_needed ← ok_or (base_to_quote rem tk Up) under_overflow;
      ok_or (checked_sub amount_in quote_needed) under_overflow
    else Ok 0.

Fixpoint exact_in_loop (fuel : nat) (k : B256) (bid : bool) (taker : Address)
    (level : TickLevel) (o : Order) (amount_in total_amount_out : Z) : MX Z :=
  if negb (0 <? amount_in) then mret total_amount_out
  else
    match fuel with
    | O => throw OutOfGas
    | S fuel =>
        fill_amount ← lift (exact_in_step bid amount_in (tick o) (remaining o));
        if fill_amount <? remaining o then
          amount_out ← partial_fill_order o level fill_amount taker;
          lift (ok_or (checked_add U128_MAX total_amount_out amount_out) under_overflow)
        else
          filled ← fill_order k o level taker;
          total ← lift (ok_or (checked_add U128_MAX total_amount_out filled.1) under_overflow);
          rest ← lift (exact_in_rest bid amount_in (tick o) (remaining o));
          match filled.2 with
          | Some (new_level, new_order) => exact_in_loop fuel k bid taker new_level new_order rest total
          | None =>
              require (negb (0 <? rest)) (dex_error DEXError.InsufficientLiquidity);;
              mret total
          end
    end.

Definition fill_orders_exact_in (k : B256) (bid : bool) (amount_in : Z) (taker : Address) : MX Z :=
  level ← view (λ _ x, get_best_price_level (dex x) k bid);
  o ← gets (λ x, (orders (dex x)).[head level]);
  fuel ← gets (λ x, S (size (orders (dex x))));
  exact_in_loop fuel k bid taker level o amount_in 0.

(** ** Cancelling *)
(** The order leaves the list of its level; the new head and tail. *)
Definition unlink_order (o : Order) (level : TickLevel) : M DexState (Z * Z) :=
  h ← (if negb (prev o =? 0) then
         modify (λ d, write_order (prev o) (set_next (next o) (orders d).[prev o]) d);; mret (head level)
       else mret (next o));
  t ← (if negb (next o =? 0) then
         modify (λ d, write_order (next o) (set_prev (prev o) (orders d).[next o]) d);; mret (tail level)
       else mret (prev o));
  mret (h, t).

(** The bit of a level that became empty is cleared, and the best tick moves on. *)
Definition clear_level (k : B256) (tk : Z) (bid : bool) : M DexState unit :=
  in_book k (delete_tick_bit tk bid);;
  best ← gets (λ d, best_tick (books d).[k] bid);
  when (best =? tk) (advance_best k tk bid;; mret tt).

(** The escrow goes back to the maker. *)
Definition refund_order (o : Order) : M DexState unit :=
  orderbook ← gets (λ d, (books d).[book_key o]);
  if is_bid o then
    quote_amount ← lift (ok_or (base_to_quote (remaining o) (tick o) Up) under_overflow);
    increment_balance (maker o) (quote orderbook) quote_amount
  else increment_balance (maker o) (base orderbook) (remaining o).

Definition cancel_active_order (o : Order) : M DexState unit :=
  let k := book_key o in
  level ← gets (λ d, tick_level (books d).[k] (tick o) (is_bid o));
  ht ← unlink_order o level;
  new_liquidity ← lift (ok_or (checked_sub (total_liquidity level) (remaining o)) under_overflow);
  when (ht.1 =? 0) (clear_level k (tick o) (is_bid o));;
  in_book k (modify (write_level (is_bid o) (tick o) (mkLevel ht.1 ht.2 new_liquidity)));;
  refund_order o;;
  modify (delete_order (order_id o));;
  emit DEX (OrderCancelled (order_id o)).

Definition cancel (sender : Address) (id : Z) : MX unit :=
  o ← gets (λ x, (orders (dex x)).[id]);
  require (negb (maker o =? ZERO)) (dex_error DEXError.OrderDoesNotExist);;
  require (maker o =? sender) (dex_error DEXError.Unauthorized);;
  require (negb (remaining o =? 0)) (dex_error DEXError.OrderDoesNotExist);;
  in_dex (cancel_active_order o).

Definition is_authorized_for_token (e : Env) (w : World) (t address : Address) (role : AuthRole) : Result bool :=
  self ← from_address t;
  match is_authorized_as e (policies w) (transfer_policy_id (meta (token w self))) address role with
  | Ok authorized => Ok authorized
  | Err err => if is_policy_lookup_error e err then Ok false else Err err
  end.

Definition is_maker_authorized (e : Env) (x : DexWorld) (o : Order) : Result bool :=
  let book := (books (dex x)).[book_key o] in
  let '(token_in, token_out) := if is_bid o then (quote book, base book) else (base book, quote book) in
  ok ← is_authorized_for_token e (dex_world x) token_in (maker o) (role_sender e);
  if negb ok then Ok false
  else if is_t4 (spec e) then is_authorized_for_token e (dex_world x) token_out (maker o) (role_recipient e)
  else Ok true.

Definition cancel_stale_order (id : Z) : MX unit :=
  o ← gets (λ x, (orders (dex x)).[id]);
  require (negb (maker o =? ZERO)) (dex_error DEXError.OrderDoesNotExist);;
  authorized ← view (λ e x, is_maker_authorized e x o);
  require (negb authorized) (dex_error DEXError.OrderNotStale);;
  in_dex (cancel_active_order o).

Definition withdraw (user t : Address) (n : Z) : MX unit :=
  current_balance ← gets (λ x, balance_of (dex x) user t);
  require (negb (current_balance <? n)) (dex_error DEXError.InsufficientBalance);;
  in_dex (sub_balance user t n);;
  dex_transfer t user n.

(** ** Routes *)
Definition quote_of (w : World) (t : Address) : Result Address :=
  self ← from_address t;
  Ok (quote_token (meta (token w self))).

(** [while token != PATH_USD_ADDRESS { ... }], the token included. *)
Fixpoint path_to_root (fuel : nat) (w : World) (t : Address) : Result (list Address) :=
  if t =? PATH_USD_ADDRESS then Ok [t]
  else
    match fuel with
    | O => Err OutOfGas
    | S fuel =>
        q ← quote_of w t;
        path ← path_to_root fuel w q;
        Ok (t :: path)
    end.
Definition find_path_to_root (w : World) (t : Address) : Result (list Address) :=
  path_to_root (S (size (code w))) w t.

(** One hop: the book and whether the base is given for the quote. *)
Definition build_hop (e : Env) (x : DexWorld) (token_in token_out : Address) : Result (B256 * bool) :=
  let w := dex_world x in
  self ← from_address token_in;
  (if is_t3 (spec e) then ensure (negb (paused (ledger (token w self)))) (TIP20 TIP20Error.ContractPaused)
   else Ok tt);;
  bq ← (if quote_token (meta (token w self)) =? token_out then Ok (token_in, token_out)
        else
          out_quote ← quote_of w token_out;
          if out_quote =? token_in then Ok (token_out, token_in)
          else Err (dex_error DEXError.PairDoesNotExist));
  let '(b, q) := bq in
  let k := compute_book_key b q in
  ensure (negb (base (books (dex x)).[k] =? ZERO)) (dex_error DEXError.PairDoesNotExist);;
  Ok (k, token_in =? b).

Fixpoint validate_and_build_route (e : Env) (x : DexWorld) (path : list Address) : Result (list (B256 * bool)) :=
  match path with
  | token_in :: ((token_out :: _) as rest) =>
      hop ← build_hop e x token_in token_out;
      route ← validate_and_build_route e x rest;
      Ok (hop :: route)
  | _ => Ok []
  end.

Fixpoint take_until (a : Address) (l : list Address) : list Address :=
  match l with
  | [] => []
  | b :: l => if b =? a then [b] else b :: take_until a l
  end.
Fixpoint take_before (a : Address) (l : list Address) : list Address :=
  match l with
  | [] => []
  | b :: l => if b =? a then [] else b :: take_before a l
  end.

Definition find_trade_path (e : Env) (x : DexWorld) (token_in token_out : Address) : Result (list (B256 * bool)) :=
  let w := dex_world x in
  ensure (negb (token_in =? token_out)) (dex_error DEXError.IdenticalTokens);;
  ensure (negb (negb (addr_is_tip20 token_in) || negb (addr_is_tip20 token_out))) (dex_error DEXError.InvalidToken);;
  in_quote ← quote_of w token_in;
  out_quote ← quote_of w token_out;
  if (in_quote =? token_out) || (out_quote =? token_in) then validate_and_build_route e x [token_in; token_out]
  else
    path_in ← find_path_to_root w token_in;
    path_out ← find_path_to_root w token_out;
    lca ← ok_or (List.find (λ a, bool_decide (a ∈ path_out)) path_in) (dex_error DEXError.PairDoesNotExist);
    validate_and_build_route e x (take_until lca path_in ++ reverse (take_before lca path_out)).

(** ** Swaps *)
Fixpoint swap_hops_in (route : list (B256 * bool)) (amt : Z) (taker : Address) : MX Z :=
  match route with
  | [] => mret amt
  | (k, base_for_quote) :: route =>
      a ← fill_orders_exact_in k base_for_quote amt taker;
      swap_hops_in route a taker
  end.

Fixpoint swap_hops_out (route : list (B256 * bool)) (amt : Z) (taker : Address) : MX Z :=
  match route with
  | [] => mret amt
  | (k, base_for_quote) :: route =>
      a ← fill_orders_exact_out k base_for_quote amt taker;
      swap_hops_out route a taker
  end.

Definition swap_exact_amount_in (sender token_in token_out : Address) (amount_in min_amount_out : Z) : MX Z :=
  route ← view (λ e x, find_trade_path e x token_in token_out);
  decrement_balance_or_transfer_from sender token_in amount_in;;
  amt ← swap_hops_in route amount_in sender;
  require (negb (amt <? min_amount_out)) (dex_error DEXError.InsufficientOutput);;
  dex_transfer token_out sender amt;;
  mret amt.

Definition swap_exact_amount_out (sender token_in token_out : Address) (amount_out max_amount_in : Z) : MX Z :=
  route ← view (λ e x, find_trade_path e x token_in token_out);
  amt ← swap_hops_out (reverse route) amount_out sender;
  require (negb (max_amount_in <? amt)) (dex_error DEXError.MaxInputExceeded);;
  decrement_balance_or_transfer_from sender token_in amt;;
  dex_transfer token_out sender amount_out;;
  mret amt.

(** ** Quotes *)
(** Every iteration moves to another tick: 4001 ticks and a last one. *)
Definition QUOTE_FUEL : nat := Z.to_nat (MAX_TICK - MIN_TICK + 3).

Definition next_quote_tick (bk : Orderbook) (tk : Z) (bid : bool) (left : Z) : Result Z :=
  found ← next_initialized_tick bk tk bid;
  ensure (negb (negb found.2 && (0 <? left))) (dex_error DEXError.InsufficientLiquidity);;
  Ok found.1.

Definition quote_out_step (bid : bool) (remaining_out tk liquidity : Z) : Result (Z * Z) :=
  if bid then
    base_needed ← ok_or (quote_to_base remaining_out tk Up) under_overflow;
    let fill_amount := if liquidity <? base_needed then liquidity else base_needed in
    Ok (fill_amount, fill_amount)
  else
    let fill_amount := if liquidity <? remaining_out then liquidity else remaining_out in
    quote_needed ← ok_or (base_to_quote fill_amount tk Up) under_overflow;
    Ok (fill_amount, quote_needed).

Fixpoint quote_out_loop (fuel : nat) (bk : Orderbook) (bid : bool) (current_tick remaining_out amount_in : Z) :
    Result Z :=
  if negb (0 <? remaining_out) then Ok amount_in
  else
    match fuel with
    | O => Err OutOfGas
    | S fuel =>
        let level := tick_level bk current_tick bid in
        if total_liquidity level =? 0 then
          t ← next_quote_tick bk current_tick bid remaining_out;
          quote_out_loop fuel bk bid t remaining_out amount_in
        else
          fa ← quote_out_step bid remaining_out current_tick (total_liquidity level);
          amount_out_tick ← (if bid then
              v ← ok_or (base_to_quote fa.1 current_tick Down) under_overflow;
              Ok (Z.min v remaining_out)
            else Ok fa.1);
          let rest := saturating_sub remaining_out amount_out_tick in
          total ← ok_or (checked_add U128_MAX amount_in fa.2) under_overflow;
          if fa.1 =? total_liquidity level then
            t ← next_quote_tick bk current_tick bid rest;
            quote_out_loop fuel bk bid t rest total
          else Ok total
    end.

Definition quote_exact_out (d : DexState) (k : B256) (amount_out : Z) (bid : bool) : Result Z :=
  let bk := (books d).[k] in
  let current_tick := best_tick bk bid in
  if (current_tick =? I16_MIN) || (current_tick =? I16_MAX) then Err (dex_error DEXError.InsufficientLiquidity)
  else quote_out_loop QUOTE_FUEL bk bid current_tick amount_out 0.

(** [fill_amount], [amount_out_tick] and [amount_consumed]. *)
Definition quote_in_step (bid : bool) (remaining_in tk liquidity : Z) : Result (Z * Z * Z) :=
  if bid then
    let fill := Z.min remaining_in liquidity in
    quote_out ← ok_or (base_to_quote fill tk Down) under_overflow;
    Ok (fill, quote_out, fill)
  else
    base_to_get ← ok_or (quote_to_base remaining_in tk Down) under_overflow;
    let fill := Z.min base_to_get liquidity in
    quote_consumed ← ok_or (base_to_quote fill tk Up) under_overflow;
    Ok (fill, fill, quote_consumed).

Fixpoint quote_in_loop (fuel : nat) (bk : Orderbook) (bid : bool) (current_tick remaining_in amount_out : Z) :
    Result Z :=
  if negb (0 <? remaining_in) then Ok amount_out
  else
    match fuel with
    | O => Err OutOfGas
    | S fuel =>
        let level := tick_level bk current_tick bid in
        if total_liquidity level =? 0 then
          t ← next_quote_tick bk current_tick bid remaining_in;
          quote_in_loop fuel bk bid t remaining_in amount_out
        else
          fa ← quote_in_step bid remaining_in current_tick (total_liquidity level);
          rest ← ok_or (checked_sub remaining_in fa.2) under_overflow;
          total ← ok_or (checked_add U128_MAX amount_out fa.1.2) under_overflow;
          if fa.1.1 =? total_liquidity level then
            t ← next_quote_tick bk current_tick bid rest;
            quote_in_loop fuel bk bid t rest total
          else Ok total
    end.

Definition quote_exact_in (d : DexState) (k : B256) (amount_in : Z) (bid : bool) : Result Z :=
  let bk := (books d).[k] in
  let current_tick := best_tick bk bid in
  if (current_tick =? I16_MIN) || (current_tick =? I16_MAX) then Err (dex_error DEXError.InsufficientLiquidity)
  else quote_in_loop QUOTE_FUEL bk bid current_tick amount_in 0.

Fixpoint quote_hops (quote_hop : B256 → Z → bool → Result Z) (route : list (B256 * bool)) (amt : Z) : Result Z :=
  match route with
  | [] => Ok amt
  | (k, base_for_quote) :: route =>
      a ← quote_hop k amt base_for_quote;
      quote_hops quote_hop route a
  end.

Definition quote_swap_exact_amount_out (e : Env) (x : DexWorld) (token_in token_out : Address) (amount_out : Z) :
    Result Z :=
  route ← find_trade_path e x token_in token_out;
  quote_hops (quote_exact_out (dex x)) (reverse route) amount_out.

Definition quote_swap_exact_amount_in (e : Env) (x : DexWorld) (token_in token_out : Address) (amount_in : Z) :
    Result Z :=
  route ← find_trade_path e x token_in token_out;
  quote_hops (quote_exact_in (dex x)) route amount_in.

(** ** Getters *)
Definition get_price_level (x : DexWorld) (b : Address) (tk : Z) (bid : bool) : Result TickLevel :=
  q ← quote_of (dex_world x) b;
  Ok (tick_level (books (dex x)).[compute_book_key b q] tk bid).

Definition dex_tick_to_price (e : Env) (tk : Z) : Result Z :=
  (if is_t2 (spec e) then validate_tick_spacing tk else Ok tt);;
  Ok (tick_to_price tk).

Definition dex_price_to_tick (e : Env) (price : Z) : Result Z :=
  tk ← price_to_tick price;
  (if is_t2 (spec e) then validate_tick_spacing tk else Ok tt);;
  Ok tk.
End dex.
