(* ===== verification/DexBooks.v ===== *)
(** * Order books as queues

    The linked lists, levels, bitmaps and best ticks of the exchange represent one queue of
    orders per book, side and tick ([Books]).  Linking, filling, popping and
    cancelling an order are the operations of those queues. *)
From Stdlib Require Import ZArith Lia String.
From stdpp Require Import base tactics option list fin_maps gmap sets strings.
From S2P Require Import Prelude Base StorageSet AddressRegistry Keychain TIP403 TIP20Ledger TIP20 OrderBook OrderBookProps Dex.
Open Scope Z_scope.
Open Scope storage_scope.

(** ** Doubly linked segments *)
(** The orders of [l], linked in this order, between the neighbours [p] and [n]. *)
Fixpoint seg (os : gmap Z Order) (p n : Z) (l : list Z) : Prop :=
  match l with
  | [] => True
  | id :: l => (∃ o, os !! id = Some o ∧ prev o = p ∧ next o = List.hd n l) ∧ seg os id n l
  end.

Lemma last_cons {A} (x : A) l d : List.last (x :: l) d = List.last l x.
Proof. revert x d. induction l as [|y l IH]; intros x d; [done|]. change (List.last (y :: l) d = List.last (y :: l) x). by rewrite !IH. Qed.

Lemma last_app_default {A} (l1 l2 : list A) d : List.last (l1 ++ l2) d = List.last l2 (List.last l1 d).
Proof. revert d. induction l1 as [|x l1 IH]; intros d; [done|]. cbn [app]. by rewrite !last_cons, IH. Qed.

Lemma hd_app {A} (l1 l2 : list A) d : List.hd d (l1 ++ l2) = List.hd (List.hd d l2) l1.
Proof. by destruct l1. Qed.

Lemma last_snoc_default {A} (l : list A) x d : List.last (l ++ [x]) d = x.
Proof. apply List.last_last. Qed.

Lemma seg_app os p n l1 l2 :
  seg os p n (l1 ++ l2) ↔ seg os p (List.hd n l2) l1 ∧ seg os (List.last l1 p) n l2.
Proof.
  revert p. induction l1 as [|x l1 IH]; intros p; cbn [app seg]; [cbn; tauto|].
  rewrite IH, hd_app, last_cons. tauto.
Qed.

Lemma seg_ext os os' p n l : (∀ id, id ∈ l → os' !! id = os !! id) → seg os p n l → seg os' p n l.
Proof.
  revert p. induction l as [|x l IH]; intros p Heq; cbn; [done|].
  intros [(o & Ho & Hl) Hs]. split; [|apply IH; [|done]; intros; apply Heq; by right].
  exists o. rewrite Heq by left. done.
Qed.

Lemma seg_lookup os p n l id : seg os p n l → id ∈ l → is_Some (os !! id).
Proof.
  revert p. induction l as [|x l IH]; intros p; [by intros _ ?%elem_of_nil|].
  intros [(o & Ho & _) Hs] [->|Hin]%elem_of_cons; eauto.
Qed.

(** Redirecting the last link of a segment, and the first. *)
Lemma seg_set_next os p n n' l x o :
  x ∉ l → os !! x = Some o → seg os p n (l ++ [x]) → seg (<[x:=set_next n' o]> os) p n' (l ++ [x]).
Proof.
  intros Hx Ho [Hl [(o' & Ho' & Hp & _) _]]%seg_app. simplify_eq. apply seg_app. split.
  - eapply seg_ext; [|exact Hl]. intros id Hid. apply lookup_insert_ne. by intros ->.
  - split; [|done]. eexists. rewrite lookup_insert_eq. done.
Qed.

Lemma seg_set_prev os p p' n l x o :
  x ∉ l → os !! x = Some o → seg os p n (x :: l) → seg (<[x:=set_prev p' o]> os) p' n (x :: l).
Proof.
  intros Hx Ho [(o' & Ho' & _ & Hn) Hl]. simplify_eq. split.
  - eexists. rewrite lookup_insert_eq. done.
  - eapply seg_ext; [|exact Hl]. intros id Hid. apply lookup_insert_ne. by intros ->.
Qed.

(** ** Orders without their links *)
Definition strip (o : Order) : Order := set_prev 0 (set_next 0 o).
Definition strips (d : DexState) : gmap Z Order := strip <$> orders d.

Lemma strip_set_next n o : strip (set_next n o) = strip o.
Proof. done. Qed.
Lemma strip_set_prev p o : strip (set_prev p o) = strip o.
Proof. done. Qed.

(** A change of links only. *)
Lemma strips_relink (os : gmap Z Order) id o o' :
  os !! id = Some o → strip o' = strip o → strip <$> <[id:=o']> os = strip <$> os.
Proof.
  intros Ho Hs. rewrite fmap_insert, Hs. apply insert_id. by rewrite lookup_fmap, Ho.
Qed.

(** ** The orders of a queue *)
Record node (k : B256) (b : bool) (t id : Z) (o : Order) : Prop := {
  node_id : order_id o = id;
  node_key : book_key o = k;
  node_side : is_bid o = b;
  node_tick : tick o = t;
  node_remaining : 0 < remaining o ≤ amount o;
  node_escrow : b = true → is_Some (base_to_quote (amount o) t Up);
  node_maker : maker o ≠ ZERO;
}.

Lemma node_strip k b t id o o' : strip o' = strip o → node k b t id o → node k b t id o'.
Proof. intros Hs [? ? ? ? ? ? ?]. destruct o, o'. cbn in *. simplify_eq. by constructor. Qed.

Definition nodes (ss : gmap Z Order) (k : B256) (b : bool) (t : Z) (l : list Z) : Prop :=
  ∀ id, id ∈ l → ∃ o, ss !! id = Some o ∧ node k b t id o.

Definition liquidity (ss : gmap Z Order) (l : list Z) : Z :=
  foldr (λ id acc, from_option remaining 0 (ss !! id) + acc) 0 l.

Lemma liquidity_app ss l1 l2 : liquidity ss (l1 ++ l2) = liquidity ss l1 + liquidity ss l2.
Proof. induction l1 as [|x l1 IH]; cbn; [done|]. fold (liquidity ss (l1 ++ l2)) (liquidity ss l1). lia. Qed.

Lemma liquidity_ext ss ss' l : (∀ id, id ∈ l → ss' !! id = ss !! id) → liquidity ss' l = liquidity ss l.
Proof.
  induction l as [|x l IH]; intros Heq; [done|]. cbn. fold (liquidity ss' l) (liquidity ss l).
  rewrite IH, Heq by (by left || (intros; apply Heq; by right)). done.
Qed.

(** ** The representation *)
Notation Queues := (B256 → bool → Z → list Z).

Definition qset (q : Queues) (k : B256) (b : bool) (t : Z) (l : list Z) : Queues :=
  λ k' b' t', if decide (k' = k ∧ b' = b ∧ t' = t) then l else q k' b' t'.

Lemma qset_eq q k b t l : qset q k b t l k b t = l.
Proof. unfold qset. by rewrite decide_True. Qed.
Lemma qset_ne q k b t l k' b' t' : ¬ (k' = k ∧ b' = b ∧ t' = t) → qset q k b t l k' b' t' = q k' b' t'.
Proof. intros. unfold qset. by rewrite decide_False. Qed.

Definition level_of (d : DexState) (k : B256) (b : bool) (t : Z) : TickLevel := tick_level (books d).[k] t b.

Record level_rep (d : DexState) (k : B256) (b : bool) (t : Z) (l : list Z) : Prop := {
  lr_head : head (level_of d k b t) = List.hd 0 l;
  lr_tail : tail (level_of d k b t) = List.last l 0;
  lr_liquidity : total_liquidity (level_of d k b t) = liquidity (strips d) l;
  lr_links : seg (orders d) 0 0 l;
  lr_nodes : nodes (strips d) k b t l;
  lr_nodup : NoDup l;
  lr_active : tick_in_bounds t = true → active (books d).[k] b t = bool_decide (l ≠ []);
  lr_bounds : l ≠ [] → tick_in_bounds t = true ∧ is_initialized (books d).[k] = true;
}.

Definition no_better (b : bool) (best t : Z) : Prop := if b then t ≤ best else best ≤ t.
Definition sentinel (b : bool) : Z := if b then I16_MIN else I16_MAX.

(** The recorded best tick is the best non-empty tick, or the sentinel. *)
Definition best_ok (bk : Orderbook) (b : bool) (qs : Z → list Z) : Prop :=
  (best_tick bk b = sentinel b ∧ ∀ t, qs t = []) ∨
  (qs (best_tick bk b) ≠ [] ∧ ∀ t, qs t ≠ [] → no_better b (best_tick bk b) t).

Lemma best_ok_ext (qs qs' : Z → list Z) bk b : (∀ t, qs' t = qs t) → best_ok bk b qs → best_ok bk b qs'.
Proof.
  intros Heq [[H1 H2]|[H1 H2]]; [left|right]; rewrite ?Heq; (split; [done|]); intros t; rewrite Heq; auto.
Qed.

Record Books (d : DexState) (q : Queues) : Prop := {
  bk_levels k b t : level_rep d k b t (q k b t);
  bk_best k b : is_initialized (books d).[k] = true → best_ok (books d).[k] b (q k b);
  bk_complete id o : orders d !! id = Some o → id ∈ q (book_key o) (is_bid o) (tick o);
  bk_ids id : is_Some (orders d !! id) → 1 ≤ id < next_order_id d;
}.

Lemma Books_strip d q k b t id : Books d q → id ∈ q k b t →
  ∃ o, orders d !! id = Some o ∧ node k b t id o.
Proof.
  intros HB Hin. destruct (lr_nodes _ _ _ _ _ (bk_levels _ _ HB k b t) id Hin) as (s & Hs & Hn).
  unfold strips in Hs. rewrite lookup_fmap in Hs. apply fmap_Some in Hs as (o & Ho & ->).
  exists o. split; [done|]. by apply (node_strip _ _ _ _ (strip o)).
Qed.

(** An order is in one queue only. *)
Lemma Books_unique d q k b t k' b' t' id :
  Books d q → id ∈ q k b t → id ∈ q k' b' t' → k' = k ∧ b' = b ∧ t' = t.
Proof.
  intros HB (o & Ho & Hn)%(Books_strip _ _ _ _ _ _ HB) (o' & Ho' & Hn')%(Books_strip _ _ _ _ _ _ HB).
  simplify_eq. destruct Hn, Hn'. naive_solver.
Qed.

(** One queue changes, with the part of the book that represents it. *)
Record side_frame (b : bool) (t : Z) (bk bk' : Orderbook) : Prop := {
  sf_base : base bk' = base bk;
  sf_quote : quote bk' = quote bk;
  sf_best : best_tick bk' (negb b) = best_tick bk (negb b);
  sf_level b' t' : ¬ (b' = b ∧ t' = t) → tick_level bk' t' b' = tick_level bk t' b';
  sf_active b' t' : ¬ (b' = b ∧ t' = t) → active bk' b' t' = active bk b' t';
}.

Lemma Books_change d d' q k b t l :
  Books d q → (∀ k', k' ≠ k → (books d').[k'] = (books d).[k']) →
  side_frame b t (books d).[k] (books d').[k] →
  level_rep d' k b t l → (is_initialized (books d').[k] = true → best_ok (books d').[k] b (qset q k b t l k b)) →
  (∀ id, id ∉ q k b t → id ∉ l → orders d' !! id = orders d !! id) →
  (∀ id, id ∈ l → id ∈ q k b t ∨ orders d !! id = None) →
  (∀ id, is_Some (orders d' !! id) → id ∈ l ∨ id ∉ q k b t) →
  (∀ id, id ∈ l → 1 ≤ id < next_order_id d') → next_order_id d ≤ next_order_id d' →
  Books d' (qset q k b t l).
Proof.
  intros HB Hk Hsf Hl Hbest Hsame Hfrom Hgone Hids Hnext.
  assert (∀ k' b' t' id, ¬ (k' = k ∧ b' = b ∧ t' = t) → id ∈ q k' b' t' → id ∉ q k b t ∧ id ∉ l) as Hother.
  { intros k' b' t' id Hne Hin. assert (id ∉ q k b t) as Hnq by (intros Hq; by eapply Hne, Books_unique).
    split; [done|]. intros [?|Hnone]%Hfrom; [done|].
    destruct (Books_strip _ _ _ _ _ _ HB Hin) as (o & Ho & _). congruence. }
  assert (∀ k' b' t' id, ¬ (k' = k ∧ b' = b ∧ t' = t) → id ∈ q k' b' t' → orders d' !! id = orders d !! id) as Hord.
  { intros k' b' t' id Hne Hin. destruct (Hother _ _ _ _ Hne Hin). by apply Hsame. }
  assert (∀ k', is_initialized (books d').[k'] = is_initialized (books d).[k']) as Hinit.
  { intros k'. unfold is_initialized. destruct (decide (k' = k)) as [->|Hne]; [by rewrite (sf_base _ _ _ _ Hsf)|by rewrite Hk]. }
  split.
  - intros k' b' t'. destruct (decide (k' = k ∧ b' = b ∧ t' = t)) as [(-> & -> & ->)|Hne]; [by rewrite qset_eq|].
    rewrite qset_ne by done. destruct (bk_levels _ _ HB k' b' t') as [H1 H2 H3 H4 H5 H6 H7 H8].
    assert (level_of d' k' b' t' = level_of d k' b' t' ∧ active (books d').[k'] b' t' = active (books d).[k'] b' t') as [Hlv Hac].
    { unfold level_of. destruct (decide (k' = k)) as [->|?]; [|by rewrite Hk].
      split; [apply (sf_level _ _ _ _ Hsf)|apply (sf_active _ _ _ _ Hsf)]; naive_solver. }
    assert (∀ id, id ∈ q k' b' t' → strips d' !! id = strips d !! id) as Hst.
    { intros id Hin. unfold strips. rewrite !lookup_fmap. f_equal. by eapply Hord. }
    split; rewrite ?Hlv, ?Hac, ?Hinit; try done.
    + rewrite H3. symmetry. by apply liquidity_ext.
    + eapply seg_ext; [|done]. intros id Hin. by eapply Hord.
    + intros id Hin. destruct (H5 id Hin) as (o & Ho & Hn). exists o. by rewrite Hst.
  - intros k' b' Hi. destruct (decide (k' = k ∧ b' = b)) as [[-> ->]|Hne]; [auto|].
    apply (best_ok_ext (q k' b')); [intros t'; rewrite qset_ne; naive_solver|].
    rewrite Hinit in Hi. pose proof (bk_best _ _ HB k' b' Hi) as Hb.
    destruct (decide (k' = k)) as [->|?]; [|by rewrite Hk].
    assert (b' = negb b) as -> by (destruct b, b'; naive_solver).
    unfold best_ok in *. by rewrite (sf_best _ _ _ _ Hsf).
  - intros id o Ho. destruct (decide (id ∈ l)) as [Hin|Hin].
    + destruct (lr_nodes _ _ _ _ _ Hl id Hin) as (s & Hs & Hn).
      unfold strips in Hs. rewrite lookup_fmap, Ho in Hs. injection Hs as <-.
      destruct Hn as [_ H1 H2 H3 _ _ _]. cbn in *. by rewrite H1, H2, H3, qset_eq.
    + destruct (Hgone id) as [?|Hnq]; [by eexists|done|]. rewrite Hsame in Ho by done.
      pose proof (bk_complete _ _ HB _ _ Ho) as Hq. rewrite qset_ne; [done|].
      intros (E1 & E2 & E3). by rewrite E1, E2, E3 in Hq.
  - intros id Hid. destruct (decide (id ∈ l)) as [Hin|Hin]; [auto|].
    destruct (Hgone id Hid) as [?|Hnq]; [done|]. rewrite Hsame in Hid by done.
    pose proof (bk_ids _ _ HB id Hid). lia.
Qed.

(** ** Relinking the ends of a queue *)
(** The maps differ in links of the orders of [l] only. *)
Record relinked (l : list Z) (os os' : gmap Z Order) : Prop := {
  rl_strip : strip <$> os' = strip <$> os;
  rl_other id : id ∉ l → os' !! id = os !! id;
}.

Lemma relinked_refl l os : relinked l os os.
Proof. done. Qed.

Lemma relinked_insert l os id o o' : id ∈ l → os !! id = Some o → strip o' = strip o → relinked l os (<[id:=o']> os).
Proof.
  intros Hin Ho Hs. split; [by eapply strips_relink|]. intros j Hj. apply lookup_insert_ne. by intros ->.
Qed.

Definition redirect_last (os : gmap Z Order) (x n : Z) : gmap Z Order :=
  if x =? 0 then os else <[x:=set_next n os.[x]]> os.
Definition redirect_first (os : gmap Z Order) (y p : Z) : gmap Z Order :=
  if y =? 0 then os else <[y:=set_prev p os.[y]]> os.

Lemma redirect_last_ok os p n n' l : NoDup l → 0 ∉ l → (l = [] → p = 0) → seg os p n l →
  seg (redirect_last os (List.last l p) n') p n' l ∧ relinked l os (redirect_last os (List.last l p) n').
Proof.
  intros Hnd H0 Hp Hs. destruct l as [|x l _] using rev_ind; [by rewrite Hp|].
  rewrite last_snoc_default. unfold redirect_last.
  assert (x ≠ 0) as Hx by (intros ->; apply H0, elem_of_app; right; by left).
  rewrite (proj2 (Z.eqb_neq _ _)) by done.
  destruct (seg_lookup _ _ _ _ x Hs) as [o Ho]; [apply elem_of_app; right; by left|].
  rewrite (mread_lookup _ _ _ Ho). split.
  - eapply seg_set_next; [|done|done]. apply NoDup_app in Hnd as (_ & Hd & _). intros Hin.
    by apply (Hd x Hin); left.
  - eapply relinked_insert; [apply elem_of_app; right; by left|done|done].
Qed.

Lemma redirect_first_ok os p p' n l : NoDup l → 0 ∉ l → (l = [] → n = 0) → seg os p n l →
  seg (redirect_first os (List.hd n l) p') p' n l ∧ relinked l os (redirect_first os (List.hd n l) p').
Proof.
  intros Hnd H0 Hn Hs. destruct l as [|y l]; [cbn; by rewrite Hn|]. cbn [List.hd]. unfold redirect_first.
  assert (y ≠ 0) as Hy by (intros ->; apply H0; by left).
  rewrite (proj2 (Z.eqb_neq _ _)) by done.
  destruct (seg_lookup _ _ _ _ y Hs) as [o Ho]; [by left|]. rewrite (mread_lookup _ _ _ Ho). split.
  - eapply seg_set_prev; [|done|done]. by apply NoDup_cons in Hnd as [? _].
  - eapply relinked_insert; [by left|done|done].
Qed.

(** Appending a fresh order. *)
Lemma seg_append os l id o :
  NoDup l → 0 ∉ l → seg os 0 0 l → os !! id = None →
  prev o = List.last l 0 → next o = 0 →
  seg (<[id:=o]> (redirect_last os (List.last l 0) id)) 0 0 (l ++ [id]) ∧
  strip <$> <[id:=o]> (redirect_last os (List.last l 0) id) = <[id:=strip o]> (strip <$> os) ∧
  (∀ j, j ∉ l → j ≠ id → <[id:=o]> (redirect_last os (List.last l 0) id) !! j = os !! j).
Proof.
  intros Hnd H0 Hs Hid Hp Hn.
  destruct (redirect_last_ok os 0 0 id l Hnd H0 (λ _, eq_refl) Hs) as [Hs' [Hst Hoth]].
  assert (id ∉ l) as Hl by (intros Hin; destruct (seg_lookup _ _ _ _ _ Hs Hin); congruence).
  split_and!.
  - apply seg_app. cbn [List.hd]. split.
    + eapply seg_ext; [|exact Hs']. intros j Hj. apply lookup_insert_ne. by intros ->.
    + split; [|done]. exists o. rewrite lookup_insert_eq. done.
  - by rewrite fmap_insert, Hst.
  - intros j Hj Hne. rewrite lookup_insert_ne by done. by apply Hoth.
Qed.

(** Taking an order out of the middle. *)
Lemma seg_remove os l1 id l2 o :
  NoDup (l1 ++ id :: l2) → 0 ∉ l1 ++ id :: l2 → seg os 0 0 (l1 ++ id :: l2) → os !! id = Some o →
  let os' := redirect_first (redirect_last os (prev o) (next o)) (next o) (prev o) in
  prev o = List.last l1 0 ∧ next o = List.hd 0 l2 ∧
  seg (delete id os') 0 0 (l1 ++ l2) ∧ strip <$> delete id os' = delete id (strip <$> os) ∧
  (∀ j, j ∉ l1 ++ id :: l2 → delete id os' !! j = os !! j) ∧ strip <$> os' = strip <$> os.
Proof.
  intros Hnd H0 Hs Ho. apply seg_app in Hs as [Hs1 [(o' & Ho' & Hp & Hn) Hs2]].
  assert (o' = o) as -> by congruence. cbn [List.hd] in Hs1.
  pose proof Hnd as (Hnd1 & Hdis & [Hid Hnd2]%NoDup_cons)%NoDup_app.
  rewrite elem_of_app, elem_of_cons in H0.
  assert (id ∉ l1) as Hid1 by (intros Hin; apply (Hdis _ Hin); by left).
  destruct (redirect_last_ok os 0 id (next o) l1 Hnd1 ltac:(tauto) (λ _, eq_refl) Hs1) as [Ha [Hb Hc]].
  rewrite <- Hp in Ha, Hb, Hc. set (os1 := redirect_last os (prev o) (next o)) in *.
  assert (seg os1 id 0 l2) as Hs2'.
  { eapply seg_ext; [|exact Hs2]. intros j Hj. apply Hc. intros Hj1. apply (Hdis _ Hj1). by right. }
  destruct (redirect_first_ok os1 id (prev o) 0 l2 Hnd2 ltac:(tauto) (λ _, eq_refl) Hs2') as [Hd [He Hf]].
  rewrite <- Hn in Hd, He, Hf. set (os2 := redirect_first os1 (next o) (prev o)) in *. cbv zeta.
  split_and!; try done.
  - apply seg_app. rewrite <- Hn, <- Hp. split.
    + eapply (seg_ext os1); [|exact Ha]. intros j Hj. rewrite lookup_delete_ne by (by intros ->).
      apply Hf. intros Hj2. apply (Hdis _ Hj). by right.
    + eapply (seg_ext os2); [|exact Hd]. intros j Hj. apply lookup_delete_ne. by intros ->.
  - by rewrite fmap_delete, He, Hb.
  - intros j Hj. rewrite elem_of_app, elem_of_cons in Hj. rewrite lookup_delete_ne by naive_solver.
    rewrite Hf, Hc by tauto. done.
  - by rewrite He, Hb.
Qed.

(** ** Writes to a book *)
Lemma in_book_ok {A} k (m : M Orderbook A) e d l a d' l' :
  in_book k m e (d, l) = (Ok a, (d', l')) →
  ∃ bk', m e ((books d).[k], l) = (Ok a, (bk', l')) ∧ d' = write_book k bk' d.
Proof. unfold in_book. intros (t & l1 & Hm & Heq)%zoom_ok. simplify_eq. eauto. Qed.

Lemma level_write b t lv bk t' b' :
  tick_level (write_level b t lv bk) t' b' = if decide (b' = b ∧ t' = t) then lv else tick_level bk t' b'.
Proof.
  unfold tick_level, write_level, levels, set_levels.
  destruct b, b'; cbn; try (by rewrite decide_False by naive_solver); rewrite mread_insert;
    repeat case_decide; naive_solver.
Qed.
Lemma level_delete b t bk t' b' :
  tick_level (delete_level b t bk) t' b' = if decide (b' = b ∧ t' = t) then zeroed else tick_level bk t' b'.
Proof.
  unfold tick_level, delete_level, levels, set_levels.
  destruct b, b'; cbn; try (by rewrite decide_False by naive_solver);
    (destruct (decide (t' = t)) as [->|]; [rewrite mread_delete_eq, decide_True|rewrite mread_delete_ne, decide_False]); naive_solver.
Qed.
Lemma level_set_best b v bk t' b' : tick_level (set_best b v bk) t' b' = tick_level bk t' b'.
Proof. by destruct b, b'. Qed.
Lemma level_word b w v bk t' b' : tick_level (write_word b w v bk) t' b' = tick_level bk t' b'.
Proof. by destruct b, b'. Qed.
Lemma active_write_level b t lv bk b' t' : active (write_level b t lv bk) b' t' = active bk b' t'.
Proof. by destruct b, b'. Qed.
Lemma active_delete_level b t bk b' t' : active (delete_level b t bk) b' t' = active bk b' t'.
Proof. by destruct b, b'. Qed.
Lemma active_set_best b v bk b' t' : active (set_best b v bk) b' t' = active bk b' t'.
Proof. by destruct b, b'. Qed.
Lemma best_set b v bk b' : best_tick (set_best b v bk) b' = if eqb b b' then v else best_tick bk b'.
Proof. by destruct b, b'. Qed.
Lemma best_write_level b t lv bk b' : best_tick (write_level b t lv bk) b' = best_tick bk b'.
Proof. by destruct b, b'. Qed.
Lemma best_delete_level b t bk b' : best_tick (delete_level b t bk) b' = best_tick bk b'.
Proof. by destruct b, b'. Qed.
Lemma best_word b w v bk b' : best_tick (write_word b w v bk) b' = best_tick bk b'.
Proof. by destruct b, b'. Qed.
#[export] Hint Rewrite level_write level_delete level_set_best level_word active_write_level active_delete_level
  active_set_best best_set best_write_level best_delete_level best_word : book.

Lemma tokens_write b t lv v w bk :
  (base (write_level b t lv bk) = base bk ∧ quote (write_level b t lv bk) = quote bk) ∧
  (base (delete_level b t bk) = base bk ∧ quote (delete_level b t bk) = quote bk) ∧
  (base (set_best b v bk) = base bk ∧ quote (set_best b v bk) = quote bk) ∧
  (base (write_word b w v bk) = base bk ∧ quote (write_word b w v bk) = quote bk).
Proof. by destruct b. Qed.

Lemma side_frame_trans b t bk1 bk2 bk3 : side_frame b t bk1 bk2 → side_frame b t bk2 bk3 → side_frame b t bk1 bk3.
Proof. intros [? ? ? H1 H2] [? ? ? H3 H4]. split; try congruence; intros; [rewrite H3, H1|rewrite H4, H2]; done. Qed.
Lemma side_frame_refl b t bk : side_frame b t bk bk.
Proof. done. Qed.
Lemma side_frame_level b t lv bk : side_frame b t bk (write_level b t lv bk).
Proof. split; intros; autorewrite with book; try (by destruct b); by rewrite decide_False. Qed.
Lemma side_frame_delete b t bk : side_frame b t bk (delete_level b t bk).
Proof. split; intros; autorewrite with book; try (by destruct b); by rewrite decide_False. Qed.
Lemma side_frame_best b t v bk : side_frame b t bk (set_best b v bk).
Proof. split; intros; autorewrite with book; by destruct b. Qed.
Lemma side_frame_bit b t x bk bk' : bit_written b t x bk bk' → side_frame b t bk bk'.
Proof.
  intros (v & -> & Ha). split; intros; autorewrite with book; try (by destruct b).
  rewrite Ha. by rewrite decide_False.
Qed.
Lemma best_bit b t x bk bk' b' : bit_written b t x bk bk' → best_tick bk' b' = best_tick bk b'.
Proof. intros (v & -> & _). apply best_word. Qed.
Lemma level_bit b t x bk bk' t' b' : bit_written b t x bk bk' → tick_level bk' t' b' = tick_level bk t' b'.
Proof. intros (v & -> & _). apply level_word. Qed.

Create HintDb frame.
#[export] Hint Resolve side_frame_trans side_frame_refl side_frame_level side_frame_delete side_frame_best side_frame_bit : frame.

(** ** Facts about a represented queue *)
Section queue_facts.
Context (d : DexState) (q : Queues) (HB : Books d q).

Lemma queue_id_pos k b t id : id ∈ q k b t → 1 ≤ id < next_order_id d.
Proof.
  intros (o & Ho & _)%(Books_strip _ _ _ _ _ _ HB). apply (bk_ids _ _ HB). by eexists.
Qed.
Lemma queue_no_zero k b t : 0 ∉ q k b t.
Proof. intros Hin%queue_id_pos. lia. Qed.

Lemma queue_tail_zero k b t : tail (level_of d k b t) = 0 ↔ q k b t = [].
Proof.
  rewrite (lr_tail _ _ _ _ _ (bk_levels _ _ HB k b t)). split; [|by intros ->].
  destruct (q k b t) as [|x l _] eqn:Hq using rev_ind; [done|]. rewrite last_snoc_default. intros ->.
  destruct (queue_no_zero k b t). rewrite Hq, elem_of_app. right. by left.
Qed.

Lemma queue_lookup k b t id o : id ∈ q k b t → orders d !! id = Some o → node k b t id o.
Proof. intros (o' & Ho' & Hn)%(Books_strip _ _ _ _ _ _ HB) Ho. by simplify_eq. Qed.
End queue_facts.

(** ** Operations on the queues *)
(** What the queue operations leave alone. *)
Record dex_frame (d d' : DexState) : Prop := {
  df_next : stored_next_order_id d' = stored_next_order_id d;
  df_keys : book_keys d' = book_keys d;
  df_base k : base (books d').[k] = base (books d).[k];
  df_quote k : quote (books d').[k] = quote (books d).[k];
}.

Lemma dex_frame_refl d : dex_frame d d.
Proof. done. Qed.
Lemma dex_frame_trans d1 d2 d3 : dex_frame d1 d2 → dex_frame d2 d3 → dex_frame d1 d3.
Proof. intros [H1 H2 H3 H4] [H5 H6 H7 H8]. split; intros; rewrite ?H5, ?H6, ?H7, ?H8; auto. Qed.

Lemma frame_of_side d d' k b t :
  stored_next_order_id d' = stored_next_order_id d → book_keys d' = book_keys d →
  (∀ k', k' ≠ k → (books d').[k'] = (books d).[k']) → side_frame b t (books d).[k] (books d').[k] → dex_frame d d'.
Proof.
  intros Hn Hk Hoth [Hb Hq _ _ _]. split; try done; intros k'; (destruct (decide (k' = k)) as [->|]; [done|by rewrite Hoth]).
Qed.

Definition better (b : bool) (best t : Z) : bool := if b then best <? t else t <? best.

(** The book after a tick became active. *)
Record marked (b : bool) (t : Z) (bk bk' : Orderbook) : Prop := {
  mk_frame : side_frame b t bk bk';
  mk_level : tick_level bk' t b = tick_level bk t b;
  mk_active : active bk' b t = true;
  mk_best : best_tick bk' b = if better b (best_tick bk b) t then t else best_tick bk b;
}.

Ltac dex_step :=
  match goal with
  | Hr : in_book _ _ _ (_, _) = (Ok _, ?st) |- _ =>
      let bk := fresh "bk" in let Hm := fresh "Hbook" in
      try (is_var st; destruct st as [? ?]); apply in_book_ok in Hr as (bk & Hm & ?); subst
  | p : prod _ _ |- _ => destruct p
  end.
Ltac dex_steps := repeat (first [minv_step | dex_step]; cbn [fst snd] in *).

Lemma write_book_twice k b1 b2 d : write_book k b2 (write_book k b1 d) = write_book k b2 d.
Proof. unfold write_book. cbn. by rewrite insert_insert_eq. Qed.
Lemma write_book_read k bk d : (books (write_book k bk d)).[k] = bk.
Proof. apply mread_insert_eq. Qed.
Lemma write_book_same k d : write_book k (books d).[k] d = d ∨ books d !! k = None.
Proof.
  unfold write_book, mread. destruct d as [bs ? ? ? ?]. cbn. destruct (bs !! k) eqn:Hk; [left|by right].
  cbn. by rewrite insert_id.
Qed.
#[export] Hint Rewrite write_book_twice write_book_read : book.

Lemma link_order_ok o e d l lv1 o1 d' l' :
  let k := book_key o in let b := is_bid o in let t := tick o in let lv := level_of d k b t in
  tick_in_bounds t = true → link_order o (books d).[k] lv e (d, l) = (Ok (lv1, o1), (d', l')) →
  l' = l ∧
  if tail lv =? 0 then
    lv1 = mkLevel (order_id o) (order_id o) (total_liquidity lv) ∧ o1 = o ∧
    ∃ bk, d' = write_book k bk d ∧ marked b t (books d).[k] bk
  else
    lv1 = mkLevel (head lv) (order_id o) (total_liquidity lv) ∧ o1 = set_prev (tail lv) o ∧
    d' = write_order (tail lv) (set_next (order_id o) (orders d).[tail lv]) d.
Proof.
  intros k b t lv Ht Hrun. unfold link_order in Hrun. fold k b t in Hrun.
  destruct (tail lv =? 0).
  - minv_step. destruct st as [d1 l1]. destruct (set_tick_bit_ok t b e (books d).[k] l Ht) as (bk1 & Hset & Hbit).
    match goal with Hb : in_book _ _ _ _ = _ |- _ => apply in_book_ok in Hb as (bk & Hm & ->) end.
    rewrite Hset in Hm. injection Hm as <- <-. minv_step. apply ret_ok in Hrun as [[= -> ->] <-].
    set (bk2 := if better b (best_tick (books d).[k] b) t then set_best b t bk1 else bk1).
    assert (l' = l ∧ d' = write_book k bk2 d) as [-> ->].
    { unfold bk2, better, best_tick. destruct b; dex_steps; autorewrite with book; done. }
    split_and!; try done. exists bk2. split; [done|].
    assert (side_frame b t (books d).[k] bk1) by eauto with frame.
    unfold bk2. destruct (better _ _ _) eqn:Hbet; split; autorewrite with book; eauto with frame.
    + by apply (level_bit _ _ _ _ _ _ _ Hbit).
    + destruct Hbit as (v & _ & ->). by rewrite decide_True.
    + rewrite Hbet. by destruct b.
    + by apply (level_bit _ _ _ _ _ _ _ Hbit).
    + destruct Hbit as (v & _ & ->). by rewrite decide_True.
    + rewrite Hbet. apply (best_bit _ _ _ _ _ _ Hbit).
  - dex_steps. simplify_eq. done.
Qed.

(** The storage after [commit_order_to_book]. *)
Lemma commit_run o e d l u d' l' :
  tick_in_bounds (tick o) = true → commit_order_to_book o e (d, l) = (Ok u, (d', l')) →
  let k := book_key o in let b := is_bid o in let t := tick o in let lv := level_of d k b t in
  ∃ bk, l' = l ∧ total_liquidity lv + remaining o ≤ U128_MAX ∧
  d' = mkDex (<[k := write_level b t (mkLevel (if tail lv =? 0 then order_id o else head lv) (order_id o)
                       (total_liquidity lv + remaining o)) bk]> (books d))
         (<[order_id o := if tail lv =? 0 then o else set_prev (tail lv) o]>
            (redirect_last (orders d) (tail lv) (order_id o)))
         (dex_balances d) (stored_next_order_id d) (book_keys d) ∧
  if tail lv =? 0 then marked b t (books d).[k] bk else bk = (books d).[k].
Proof.
  intros Ht Hrun k b t lv. unfold commit_order_to_book in Hrun. fold k b t in Hrun.
  do 4 (minv_step; cbn [fst snd] in *). minv_step. destruct a1 as [lv1 o1], st1 as [d1 l1].
  match goal with Hl : link_order _ _ _ _ _ = _ |- _ =>
    apply (link_order_ok o e d l lv1 o1 d1 l1) in Hl as [-> Hlink]; [|exact Ht] end.
  fold k b t lv in Hlink. unfold redirect_last. destruct (tail lv =? 0).
  - destruct Hlink as (-> & -> & bk & -> & Hmk). dex_steps. rinvs. ariths.
    autorewrite with book. exists bk. done.
  - destruct Hlink as (-> & -> & ->). dex_steps. rinvs. ariths. exists (books d).[k]. done.
Qed.

Lemma no_better_of b best t : better b best t = false → no_better b best t.
Proof. unfold better, no_better. destruct b; intros; bprop; lia. Qed.
Lemma no_better_trans b t1 t2 t3 : no_better b t1 t2 → no_better b t2 t3 → no_better b t1 t3.
Proof. unfold no_better. destruct b; lia. Qed.
Lemma better_no_better b best t : better b best t = true → no_better b t best.
Proof. unfold better, no_better. destruct b; intros; bprop; lia. Qed.

(** A tick becomes non-empty and is compared with the best one. *)
Lemma best_ok_add bk bk' b q k t l :
  best_ok bk b (q k b) → q k b t = [] → l ≠ [] → tick_in_bounds t = true →
  best_tick bk' b = (if better b (best_tick bk b) t then t else best_tick bk b) →
  best_ok bk' b (qset q k b t l k b).
Proof.
  intros Hb Hq Hl Ht Hbt. right. rewrite Hbt. clear Hbt.
  assert (best_tick bk b = sentinel b → better b (best_tick bk b) t = true) as Hs.
  { intros ->. apply tick_in_bounds_iff in Ht. unfold sentinel, better, I16_MIN, I16_MAX, MIN_TICK, MAX_TICK in *.
    destruct b; apply Z.ltb_lt; lia. }
  assert (∀ t', qset q k b t l k b t' ≠ [] → t' = t ∨ q k b t' ≠ []) as Hne.
  { intros t'. unfold qset. case_decide; naive_solver. }
  destruct Hb as [[H1 H2]|[H1 H2]].
  - rewrite (Hs H1). rewrite qset_eq. split; [done|].
    intros t' [->|?]%Hne; [unfold no_better; destruct b; lia|]. by rewrite H2 in *.
  - destruct (better b (best_tick bk b) t) eqn:Hbet.
    + rewrite qset_eq. split; [done|]. intros t' [->|?]%Hne; [unfold no_better; destruct b; lia|].
      eapply no_better_trans; [by apply better_no_better|auto].
    + split; [rewrite qset_ne; [done|intros (_ & _ & <-); done]|].
      intros t' [->|?]%Hne; [by apply no_better_of|auto].
Qed.

(** The queues a non-empty queue is replaced by a non-empty one in. *)
Lemma best_ok_keep bk bk' b q k t l :
  best_ok bk b (q k b) → q k b t ≠ [] → l ≠ [] → best_tick bk' b = best_tick bk b →
  best_ok bk' b (qset q k b t l k b).
Proof.
  intros [[H1 H2]|[H1 H2]] Hq Hl Hbt; [by rewrite H2 in Hq|]. right. rewrite Hbt.
  assert (∀ t', qset q k b t l k b t' ≠ [] ↔ q k b t' ≠ []) as Hiff.
  { intros t'. unfold qset. case_decide as He; [|done]. destruct He as (_ & _ & ->). naive_solver. }
  split; [by apply Hiff|]. intros t' Ht'%Hiff. auto.
Qed.

Lemma liquidity_insert_fresh ss id o l : id ∉ l → liquidity (<[id:=o]> ss) l = liquidity ss l.
Proof. intros. apply liquidity_ext. intros j Hj. apply lookup_insert_ne. by intros ->. Qed.

Lemma strips_None d id : orders d !! id = None → strips d !! id = None.
Proof. intros Ho. unfold strips. by rewrite lookup_fmap, Ho. Qed.
Lemma strips_Some d id o : orders d !! id = Some o → strips d !! id = Some (strip o).
Proof. intros Ho. unfold strips. by rewrite lookup_fmap, Ho. Qed.

(** Only the queue of the level and the order [id] are touched. *)
Record queue_frame (k : B256) (b : bool) (t id : Z) (d d' : DexState) (l : list Z) : Prop := {
  qf_other k' : k' ≠ k → (books d').[k'] = (books d).[k'];
  qf_side : side_frame b t (books d).[k] (books d').[k];
  qf_orders j : j ∉ l → j ≠ id → orders d' !! j = orders d !! j;
}.

(** Queueing an order appends it. *)
Lemma commit_ok o e d l u d' l' q :
  let k := book_key o in let b := is_bid o in let t := tick o in let id := order_id o in
  Books d q → commit_order_to_book o e (d, l) = (Ok u, (d', l')) →
  tick_in_bounds t = true → is_initialized (books d).[k] = true → orders d !! id = None →
  1 ≤ id < next_order_id d → prev o = 0 → next o = 0 → node k b t id o →
  Books d' (qset q k b t (q k b t ++ [id])) ∧ strips d' = <[id:=strip o]> (strips d) ∧
  dex_frame d d' ∧ dex_balances d' = dex_balances d ∧ l' = l ∧ queue_frame k b t id d d' (q k b t).
Proof.
  intros k b t id HB Hrun Ht Hinit Hfresh Hid Hp Hn Hnode.
  destruct (commit_run o e d l u d' l' Ht Hrun) as (bk & -> & Hle & Hd' & Hbk). fold k b t id in Hbk, Hd', Hle.
  set (lv := level_of d k b t) in *. set (o' := if tail lv =? 0 then o else _) in Hd'.
  pose proof (bk_levels _ _ HB k b t) as [L1 L2 L3 L4 L5 L6 L7 L8]. fold lv in L1, L2, L3.
  pose proof (queue_tail_zero d q HB k b t) as Htail. fold lv in Htail.
  destruct (seg_append (orders d) (q k b t) id o' L6 (queue_no_zero d q HB k b t) L4 Hfresh) as (S1 & S2 & S3).
  { unfold o'. rewrite <- L2. destruct (Z.eqb_spec (tail lv) 0) as [Hz|]; [by rewrite Hp, Hz|done]. }
  { unfold o'. by case_match. }
  assert (strip o' = strip o) as Hso by (unfold o'; by case_match). rewrite Hso in S2.
  rewrite <- L2 in S1, S2, S3.
  assert (orders d' = <[id:=o']> (redirect_last (orders d) (tail lv) id)) as Hord by (by rewrite Hd').
  assert (strips d' = <[id:=strip o]> (strips d)) as Hst by (unfold strips; by rewrite Hord).
  assert (id ∉ q k b t) as Hnin.
  { intros (o2 & Ho2 & _)%(Books_strip _ _ _ _ _ _ HB). congruence. }
  assert (side_frame b t (books d).[k] bk) as Hsf.
  { destruct (tail lv =? 0); [by apply mk_frame|subst bk; apply side_frame_refl]. }
  assert (tail lv = 0 → marked b t (books d).[k] bk) as Hmk by (intros Hz; by rewrite Hz in Hbk).
  assert (tail lv ≠ 0 → bk = (books d).[k]) as Hunch by (intros Hz%Z.eqb_neq; by rewrite Hz in Hbk).
  assert ((books d').[k] = write_level b t (mkLevel (if tail lv =? 0 then id else head lv) id
    (total_liquidity lv + remaining o)) bk) as Hbk' by (rewrite Hd'; apply mread_insert_eq).
  assert (side_frame b t (books d).[k] (books d').[k]) as Hsf' by (rewrite Hbk'; eauto with frame).
  assert (∀ k', k' ≠ k → (books d').[k'] = (books d).[k']) as Hother.
  { intros k' Hk'. rewrite Hd'. by apply mread_insert_ne. }
  assert (stored_next_order_id d' = stored_next_order_id d) as Hnx by (by rewrite Hd').
  assert (∀ j, j ∉ q k b t → j ≠ id → orders d' !! j = orders d !! j) as Hsame by (by rewrite Hord).
  split_and!; [|done|eapply frame_of_side; try done; by rewrite Hd'|by rewrite Hd'|done|done].
  apply (Books_change d); try done.
  - assert (level_of d' k b t = mkLevel (if tail lv =? 0 then id else head lv) id (total_liquidity lv + remaining o)) as Hlv.
    { unfold level_of. rewrite Hbk'. autorewrite with book. by rewrite decide_True. }
    split; rewrite ?Hlv, ?Hst, ?Hord; cbn [head tail total_liquidity]; try done.
    + destruct (Z.eqb_spec (tail lv) 0) as [Hz|Hz]; [apply Htail in Hz; by rewrite Hz|].
      rewrite hd_app, L1. destruct (q k b t); [by destruct Hz; apply Htail|done].
    + by rewrite last_snoc_default.
    + rewrite L3, liquidity_app, liquidity_insert_fresh by done. cbn. rewrite lookup_insert_eq. cbn. lia.
    + intros j [Hj|Hj]%elem_of_app.
      * rewrite lookup_insert_ne by (by intros ->). by apply L5.
      * apply list_elem_of_singleton in Hj as ->. rewrite lookup_insert_eq. eexists. split; [done|].
        by apply (node_strip _ _ _ _ o).
    + apply NoDup_app. split_and!; [done| |apply NoDup_singleton].
      intros j Hj Hj'%list_elem_of_singleton. by subst.
    + intros _. rewrite Hbk'. autorewrite with book. rewrite bool_decide_eq_true_2 by (by destruct (q k b t)).
      destruct (Z.eqb_spec (tail lv) 0) as [Hz|Hz]; [by apply (mk_active _ _ _ _ (Hmk Hz))|].
      rewrite (Hunch Hz), L7 by done.
      apply bool_decide_eq_true. by intros Hq%Htail.
    + intros _. split; [done|]. unfold is_initialized in *. by rewrite (sf_base _ _ _ _ Hsf').
  - intros _. destruct (Z.eqb_spec (tail lv) 0) as [Hz|Hz].
    + eapply (best_ok_add (books d).[k]); try done; [by apply bk_best|by apply Htail|by destruct (q k b t)|].
      rewrite Hbk'. autorewrite with book. by apply (mk_best _ _ _ _ (Hmk Hz)).
    + apply (best_ok_keep (books d).[k]); [by apply bk_best|by intros ?%Htail|by destruct (q k b t)|].
      rewrite Hbk'. autorewrite with book. by rewrite (Hunch Hz).
  - intros j Hj Hj'. apply Hsame; [done|]. intros ->. apply Hj', elem_of_app. right. by left.
  - intros j [Hj|Hj]%elem_of_app; [by left|]. apply list_elem_of_singleton in Hj as ->. by right.
  - intros j Hj. destruct (decide (j ∈ q k b t)); [left; apply elem_of_app; by left|by right].
  - unfold next_order_id in *. rewrite Hnx. intros j [Hj|Hj]%elem_of_app.
    + by apply (queue_id_pos d q HB) in Hj.
    + by apply list_elem_of_singleton in Hj as ->.
  - unfold next_order_id. by rewrite Hnx.
Qed.

(** The next active tick is the best one once the best level is empty. *)
Lemma best_ok_advance bk b t qs f h bk' :
  (∀ t', tick_in_bounds t' = true → active bk b t' = bool_decide (qs t' ≠ [])) →
  (∀ t', qs t' ≠ [] → tick_in_bounds t' = true ∧ no_better b t t') → qs t = [] → tick_in_bounds t = true →
  next_initialized_tick bk t b = Ok (f, h) → best_tick bk' b = (if h then f else sentinel b) →
  best_ok bk' b qs ∧ if h : bool then qs f ≠ [] else ∀ t', qs t' = [].
Proof.
  intros Hact Hall Hq Ht Hn Hbt.
  destruct (next_initialized_tick_found bk t b (bounds_i16 _ Ht)) as (f' & h' & Hok & Hspec).
  rewrite Hn in Hok. injection Hok as <- <-.
  assert (∀ t', qs t' ≠ [] → beyond b t t' ∧ active bk b t' = true) as Hin.
  { intros t' Ht'. destruct (Hall _ Ht') as [Hb Hnb]. rewrite Hact by done. split; [|by apply bool_decide_eq_true].
    assert (t' ≠ t) by (by intros ->). apply tick_in_bounds_iff in Hb. unfold beyond, no_better in *. destruct b; lia. }
  destruct h.
  - destruct Hspec as (Hf & Ha & Hnone).
    assert (qs f ≠ []) as Hqf.
    { rewrite Hact in Ha; [by apply bool_decide_eq_true in Ha|]. apply tick_in_bounds_iff.
      apply tick_in_bounds_iff in Ht. unfold beyond in Hf. destruct b; lia. }
    split; [|done]. right. rewrite Hbt. split; [done|]. intros t' Ht'. destruct (Hin _ Ht') as [Hb' Ha'].
    destruct (decide (beyond b t' f)) as [Hbt'|Hbt'].
    + rewrite Hnone in Ha' by done. done.
    + apply tick_in_bounds_iff in Ht. unfold beyond, no_better in *. destruct b; lia.
  - assert (∀ t', qs t' = []) as Hempty; [|split; [by left|done]].
    intros t'. destruct (decide (qs t' = [])) as [|Hne]; [done|].
    destruct (Hin _ Hne) as [Hb' Ha']. by rewrite Hspec in Ha'.
Qed.

Lemma liquidity_delete ss id l1 l2 o :
  id ∉ l1 ++ l2 → ss !! id = Some o →
  liquidity (delete id ss) (l1 ++ l2) = liquidity ss (l1 ++ id :: l2) - remaining o.
Proof.
  intros Hid Ho. rewrite (liquidity_ext ss); [|intros j Hj; apply lookup_delete_ne; by intros ->].
  rewrite !liquidity_app. cbn. rewrite Ho. cbn. fold (liquidity ss l2). lia.
Qed.

(** Unlinking an order removes it from its queue. *)
Lemma removed_ok d d' q k b t l1 id l2 o :
  Books d q → q k b t = l1 ++ id :: l2 → orders d !! id = Some o →
  orders d' = delete id (redirect_first (redirect_last (orders d) (prev o) (next o)) (next o) (prev o)) →
  (∀ k', k' ≠ k → (books d').[k'] = (books d).[k']) → side_frame b t (books d).[k] (books d').[k] →
  level_of d' k b t = mkLevel (List.hd 0 (l1 ++ l2)) (List.last (l1 ++ l2) 0)
    (total_liquidity (level_of d k b t) - remaining o) →
  active (books d').[k] b t = (if decide (l1 ++ l2 = []) then false else active (books d).[k] b t) →
  best_ok (books d').[k] b (qset q k b t (l1 ++ l2) k b) →
  stored_next_order_id d' = stored_next_order_id d →
  Books d' (qset q k b t (l1 ++ l2)) ∧ strips d' = delete id (strips d).
Proof.
  intros HB Hq Ho Hord Hother Hsf Hlv Hact Hbest Hnx.
  pose proof (bk_levels _ _ HB k b t) as [L1 L2 L3 L4 L5 L6 L7 L8]. rewrite Hq in *.
  pose proof (queue_no_zero d q HB k b t) as H0. rewrite Hq in H0.
  destruct (seg_remove (orders d) l1 id l2 o L6 H0 L4 Ho) as (_ & _ & S1 & S2 & S3 & _).
  rewrite <- Hord in S1, S2, S3. fold (strips d') (strips d) in S2.
  assert (NoDup (id :: l1 ++ l2)) as [Hid Hnd]%NoDup_cons by (by rewrite <- Permutation_middle in L6).
  assert (∀ j, j ∈ l1 ++ l2 → j ∈ l1 ++ id :: l2) as Hsub.
  { intros j. rewrite !elem_of_app, elem_of_cons. tauto. }
  split; [|done]. destruct (L8 ltac:(by destruct l1)) as [Ht Hi]. apply (Books_change d); try done; rewrite ?Hq.
  - split; rewrite ?Hlv, ?S2; cbn [head tail total_liquidity]; try done.
    + rewrite L3. symmetry. apply (liquidity_delete _ id _ _ (strip o)); [done|by apply strips_Some].
    + intros j Hj. rewrite lookup_delete_ne by (by intros ->). auto.
    + intros _. rewrite Hact. case_decide as Hemp; [by rewrite Hemp|]. rewrite L7 by done.
      rewrite !bool_decide_eq_true_2; [done|done|by destruct l1].
    + intros _. split; [done|]. unfold is_initialized in *. by rewrite (sf_base _ _ _ _ Hsf).
  - intros j Hj _. by apply S3.
  - intros j Hj. left. auto.
  - intros j Hj. destruct (decide (j ∈ l1 ++ l2)) as [|Hnin]; [by left|right]. intros Hin.
    assert (j = id) as -> by (rewrite elem_of_app, elem_of_cons in Hin; rewrite elem_of_app in Hnin; tauto).
    rewrite Hord, lookup_delete_eq in Hj. by destruct Hj.
  - unfold next_order_id. rewrite Hnx. intros j Hj. apply (queue_id_pos d q HB k b t). rewrite Hq. auto.
  - unfold next_order_id. by rewrite Hnx.
Qed.

(** Where a taker stands: the first order at the best tick, or nothing left. *)
Definition cursor (d : DexState) (q : Queues) (k : B256) (b : bool) (r : option (TickLevel * Order)) : Prop :=
  match r with
  | None => ∀ t, q k b t = []
  | Some (lv, o) => ∃ l, best_tick (books d).[k] b = tick o ∧ q k b (tick o) = order_id o :: l ∧
      lv = level_of d k b (tick o) ∧ orders d !! order_id o = Some o ∧ is_initialized (books d).[k] = true
  end.

Lemma cursor_node d q k b lv o : Books d q → cursor d q k b (Some (lv, o)) → node k b (tick o) (order_id o) o.
Proof. intros HB (l & _ & Hq & _ & Ho & _). eapply (queue_lookup d q HB); [|done]. rewrite Hq. by left. Qed.

(** The first order of the best level. *)
Lemma cursor_best d q k b : Books d q → is_initialized (books d).[k] = true → q k b (best_tick (books d).[k] b) ≠ [] →
  let lv := level_of d k b (best_tick (books d).[k] b) in cursor d q k b (Some (lv, (orders d).[head lv])).
Proof.
  intros HB Hi Hne lv. set (t := best_tick (books d).[k] b) in *.
  destruct (q k b t) as [|id l] eqn:Hq; [done|].
  pose proof (lr_head _ _ _ _ _ (bk_levels _ _ HB k b t)) as Hh. rewrite Hq in Hh. cbn in Hh.
  destruct (Books_strip _ _ k b t id HB) as (o & Ho & Hn); [rewrite Hq; by left|].
  unfold lv. rewrite Hh, (mread_lookup _ _ _ Ho). destruct Hn as [E1 E2 E3 E4 _ _ _].
  exists l. rewrite E1, E4. done.
Qed.

Lemma advance_best_ok k t b e d l r d' l' :
  advance_best k t b e (d, l) = (Ok r, (d', l')) →
  next_initialized_tick (books d).[k] t b = Ok r ∧ l' = l ∧
  d' = write_book k (set_best b (if r.2 then r.1 else sentinel b) (books d).[k]) d.
Proof.
  unfold advance_best. intros Hrun. dex_steps. simplify_eq. by destruct b.
Qed.

(** [pop_filled] on the last order of the best level. *)
Lemma pop_last_run k o lv e d l r d' l' :
  next o = 0 → tick_in_bounds (tick o) = true → pop_filled k o lv e (d, l) = (Ok r, (d', l')) →
  let b := is_bid o in let t := tick o in
  ∃ bk1 bk2 f h, bk1 = delete_level b t (books d).[k] ∧ bit_written b t false bk1 bk2 ∧
    next_initialized_tick bk2 t b = Ok (f, h) ∧ l' = l ∧
    d' = write_book k (set_best b (if h then f else sentinel b) bk2) (delete_order (order_id o) d) ∧
    r = (if h then let lv' := level_of d' k b f in Some (lv', (orders d').[head lv']) else None).
Proof.
  intros Hn Ht Hrun b t. unfold pop_filled in Hrun. fold b t in Hrun. rewrite Hn, Z.eqb_refl in Hrun.
  destruct (delete_tick_bit_ok t b e (delete_level b t (books d).[k]) l Ht) as (bk2 & Hdel & Hbit).
  dex_steps; autorewrite with book in *; cbn [books delete_order] in Hbook; rewrite Hdel in Hbook;
    apply pair_equal_spec in Hbook as [_ [= <- <-]];
    (match goal with Ha : advance_best _ _ _ _ _ = _ |- _ => apply advance_best_ok in Ha as (Hnx & -> & ->) end);
    autorewrite with book in *; eexists _, bk2, _, _; (split_and!; [reflexivity|exact Hbit|exact Hnx|reflexivity|reflexivity|]);
    bprop; subst; cbv zeta; unfold level_of; autorewrite with book; done.
Qed.

(** Once the best level is empty, the search finds the best of the others. *)
Lemma best_after_removal d q k b t bk2 f h bk' :
  Books d q → is_initialized (books d).[k] = true → best_tick (books d).[k] b = t → q k b t ≠ [] →
  (∀ t', active bk2 b t' = if decide (t' = t) then false else active (books d).[k] b t') →
  next_initialized_tick bk2 t b = Ok (f, h) → best_tick bk' b = (if h then f else sentinel b) →
  best_ok bk' b (qset q k b t [] k b) ∧ if h : bool then qset q k b t [] k b f ≠ [] else ∀ t', qset q k b t [] k b t' = [].
Proof.
  intros HB Hi Hbt Hq Hact Hn Hbt'.
  destruct (lr_bounds _ _ _ _ _ (bk_levels _ _ HB k b t) Hq) as [Ht _].
  assert (∀ t', t' ≠ t → qset q k b t [] k b t' = q k b t') as Hne by (intros; apply qset_ne; tauto).
  eapply (best_ok_advance bk2 b t); try done; [| |by rewrite qset_eq].
  - intros t' Ht'. rewrite Hact. case_decide as He; [subst; by rewrite qset_eq|].
    rewrite Hne by done. by apply (lr_active _ _ _ _ _ (bk_levels _ _ HB k b t')).
  - intros t' Hq'. destruct (decide (t' = t)) as [->|He]; [by rewrite qset_eq in Hq'|]. rewrite Hne in Hq' by done.
    split; [by apply (lr_bounds _ _ _ _ _ (bk_levels _ _ HB k b t'))|].
    destruct (bk_best _ _ HB k b Hi) as [[_ Hall]|[_ Hall]]; [by rewrite Hall in Hq|]. rewrite Hbt in Hall. auto.
Qed.

(** [pop_filled] when the level has a next order. *)
Lemma pop_next_run k o lv e d l r d' l' :
  next o ≠ 0 → pop_filled k o lv e (d, l) = (Ok r, (d', l')) →
  let lv' := mkLevel (next o) (tail lv) (total_liquidity lv - remaining o) in
  let os := delete (order_id o) (orders d) in
  l' = l ∧ r = Some (lv', (orders d').[next o]) ∧
  d' = mkDex (<[k := write_level (is_bid o) (tick o) lv' (books d).[k]]> (books d))
         (<[next o := set_prev 0 os.[next o]]> os) (dex_balances d) (stored_next_order_id d) (book_keys d).
Proof.
  intros Hn Hrun. unfold pop_filled in Hrun. rewrite (proj2 (Z.eqb_neq _ _) Hn) in Hrun.
  dex_steps. rinvs. ariths. simplify_eq. done.
Qed.

(** What popping the first order of the best level has to establish. *)
Definition popped (d : DexState) (q : Queues) (k : B256) (o : Order) (d' : DexState)
    (r : option (TickLevel * Order)) : Prop :=
  let b := is_bid o in let q' := qset q k b (tick o) (List.tl (q k b (tick o))) in
  Books d' q' ∧ strips d' = delete (order_id o) (strips d) ∧ dex_frame d d' ∧ dex_balances d' = dex_balances d ∧
  cursor d' q' k b r.

Section pop.
Context (d : DexState) (q : Queues) (k : B256) (o : Order) (lv : TickLevel) (HB : Books d q).
Let b := is_bid o.
Let t := tick o.
Let id := order_id o.
Context (ids : list Z) (Hbt : best_tick (books d).[k] b = t) (Hq : q k b t = id :: ids)
  (Hlv : lv = level_of d k b t) (Ho : orders d !! id = Some o) (Hi : is_initialized (books d).[k] = true)
  (Hp : prev o = 0) (Hn : next o = List.hd 0 ids).

Lemma pop_last_ok e l r d' l' :
  ids = [] → pop_filled k o lv e (d, l) = (Ok r, (d', l')) → l' = l ∧ popped d q k o d' r.
Proof.
  intros Hids Hrun. rewrite Hids in Hq, Hn. cbn in Hn.
  pose proof (bk_levels _ _ HB k b t) as HL. rewrite Hq in HL.
  destruct (lr_bounds _ _ _ _ _ HL ltac:(done)) as [Ht _]. unfold popped. fold b t id. rewrite Hq. cbn [List.tl]. cbv zeta.
  destruct (pop_last_run _ _ _ _ _ _ _ _ _ Hn Ht Hrun) as (bk1 & bk2 & f & h & Hb1 & Hbit & Hnx & -> & Hd' & Hr).
  fold b t id in Hb1, Hbit, Hnx, Hd', Hr.
  assert ((books d').[k] = set_best b (if h then f else sentinel b) bk2) as Hbk by (rewrite Hd'; apply write_book_read).
  assert (side_frame b t (books d).[k] (books d').[k]) as Hsf.
  { rewrite Hbk. apply (side_frame_trans _ _ _ bk1); [subst; eauto with frame|]. eauto with frame. }
  assert (∀ k', k' ≠ k → (books d').[k'] = (books d).[k']) as Hother.
  { intros k' Hk'. rewrite Hd'. by apply mread_insert_ne. }
  assert (stored_next_order_id d' = stored_next_order_id d) as Hsn by (by rewrite Hd').
  assert (active (books d').[k] b t = false) as Hact.
  { rewrite Hbk. autorewrite with book. destruct Hbit as (v & _ & ->). by rewrite decide_True. }
  destruct (best_after_removal d q k b t bk2 f h (books d').[k] HB Hi Hbt) as [Hbest Hfound]; try done.
  { by rewrite Hq. }
  { intros t'. destruct Hbit as (v & _ & ->). subst bk1. autorewrite with book. repeat case_decide; naive_solver. }
  { rewrite Hbk. autorewrite with book. by destruct b. }
  destruct (removed_ok d d' q k b t [] id [] o HB Hq Ho) as [HB' Hst]; try done.
  { rewrite Hd', Hp, Hn. done. }
  { unfold level_of. rewrite Hbk. autorewrite with book. rewrite (level_bit _ _ _ _ _ _ _ Hbit). subst bk1.
    autorewrite with book. rewrite decide_True by done. change (tick_level (books d).[k] t b) with (level_of d k b t).
    rewrite (lr_liquidity _ _ _ _ _ HL). cbn. rewrite (strips_Some _ _ _ Ho). cbn. unfold zeroed, TickLevel_zeroed. f_equal. lia. }
  split_and!; try done; [eapply frame_of_side; try done; by rewrite Hd'|by rewrite Hd'|].
  rewrite Hr. destruct h; [|done].
  assert (best_tick (books d').[k] b = f) as <- by (rewrite Hbk; autorewrite with book; by destruct b).
  apply cursor_best; [done| |done]. unfold is_initialized in *. by rewrite (sf_base _ _ _ _ Hsf).
Qed.

Lemma pop_next_ok e l r d' l' x ids' :
  ids = x :: ids' → pop_filled k o lv e (d, l) = (Ok r, (d', l')) → l' = l ∧ popped d q k o d' r.
Proof.
  intros Hids Hrun. rewrite Hids in Hq, Hn. cbn in Hn.
  pose proof (bk_levels _ _ HB k b t) as HL. pose proof (queue_no_zero d q HB k b t) as H0. rewrite Hq in HL, H0.
  assert (x ≠ 0 ∧ x ≠ id) as [Hx Hxid].
  { split; [intros ->; apply H0; right; by left|]. pose proof (lr_nodup _ _ _ _ _ HL) as [Hid _]%NoDup_cons.
    intros ->. apply Hid. by left. }
  destruct (pop_next_run k o lv e d l r d' l' ltac:(by rewrite Hn) Hrun) as (-> & Hr & Hd').
  unfold popped. fold b t id in Hd' |- *. rewrite Hn in Hr, Hd'. rewrite Hq. cbn [List.tl]. cbv zeta.
  set (lv' := mkLevel x (tail lv) (total_liquidity lv - remaining o)) in *.
  assert ((books d').[k] = write_level b t lv' (books d).[k]) as Hbk by (rewrite Hd'; apply mread_insert_eq).
  assert (side_frame b t (books d).[k] (books d').[k]) as Hsf by (rewrite Hbk; eauto with frame).
  assert (∀ k', k' ≠ k → (books d').[k'] = (books d).[k']) as Hother.
  { intros k' Hk'. rewrite Hd'. by apply mread_insert_ne. }
  assert (level_of d' k b t = lv') as Hlv'.
  { unfold level_of. rewrite Hbk. autorewrite with book. by rewrite decide_True. }
  assert (best_tick (books d').[k] b = t) as Hbt' by (rewrite Hbk; autorewrite with book; done).
  destruct (removed_ok d d' q k b t [] id (x :: ids') o HB Hq Ho) as [HB' Hst]; try done.
  - rewrite Hd', Hp, Hn. unfold redirect_first, redirect_last. cbn [orders]. rewrite Z.eqb_refl.
    rewrite (proj2 (Z.eqb_neq _ _) Hx), delete_insert_ne by done. by rewrite mread_delete_ne.
  - rewrite Hlv'. unfold lv'. rewrite Hlv, (lr_tail _ _ _ _ _ HL). done.
  - rewrite Hbk. autorewrite with book. by rewrite decide_False.
  - apply (best_ok_keep (books d).[k]); [by apply bk_best|by rewrite Hq|done|by rewrite Hbt', Hbt].
  - by rewrite Hd'.
  - split_and!; try done; [eapply frame_of_side; try done; by rewrite Hd'|by rewrite Hd'|].
    rewrite Hr. pose proof (cursor_best d' (qset q k b t (x :: ids')) k b HB') as Hc.
    rewrite Hbt', Hlv', qset_eq in Hc. apply Hc; [|done]. unfold is_initialized in *. by rewrite (sf_base _ _ _ _ Hsf).
Qed.
End pop.

(** Filling the first order of the best level removes it and moves on to the next in line. *)
Lemma pop_filled_ok k o lv e d l r d' l' q :
  Books d q → cursor d q k (is_bid o) (Some (lv, o)) → pop_filled k o lv e (d, l) = (Ok r, (d', l')) →
  l' = l ∧ popped d q k o d' r.
Proof.
  intros HB (ids & Hbt & Hq & Hlv & Ho & Hi) Hrun.
  pose proof (lr_links _ _ _ _ _ (bk_levels _ _ HB k (is_bid o) (tick o))) as Hs. rewrite Hq in Hs.
  destruct Hs as [(o2 & Ho2 & Hp & Hn) _]. assert (o2 = o) as -> by congruence.
  destruct ids as [|x ids]; [by eapply pop_last_ok|by eapply pop_next_ok].
Qed.

(** ** Cancelling *)
Lemma unlink_order_ok o lv e d l h t d' l' :
  unlink_order o lv e (d, l) = (Ok (h, t), (d', l')) →
  h = (if prev o =? 0 then next o else head lv) ∧ t = (if next o =? 0 then prev o else tail lv) ∧ l' = l ∧
  d' = mkDex (books d) (redirect_first (redirect_last (orders d) (prev o) (next o)) (next o) (prev o))
         (dex_balances d) (stored_next_order_id d) (book_keys d).
Proof.
  unfold unlink_order, redirect_first, redirect_last. intros Hrun. destruct d as [bs os ba n ks].
  destruct (prev o =? 0), (next o =? 0); cbn [negb] in *; dex_steps; simplify_eq; done.
Qed.

Lemma clear_level_ok k t b e d l u d' l' :
  tick_in_bounds t = true → clear_level k t b e (d, l) = (Ok u, (d', l')) →
  l' = l ∧ ∃ bk bk1, d' = write_book k bk d ∧ bit_written b t false (books d).[k] bk1 ∧
    if best_tick (books d).[k] b =? t then
      ∃ f h, next_initialized_tick bk1 t b = Ok (f, h) ∧ bk = set_best b (if h then f else sentinel b) bk1
    else bk = bk1.
Proof.
  intros Ht Hrun. unfold clear_level in Hrun.
  destruct (delete_tick_bit_ok t b e (books d).[k] l Ht) as (bk1 & Hdel & Hbit).
  dex_steps; rewrite Hdel in Hbook; apply pair_equal_spec in Hbook as [_ [= <- <-]]; autorewrite with book in *;
    rewrite (best_bit _ _ _ _ _ _ Hbit) in *;
    try (match goal with Ha : advance_best _ _ _ _ _ = _ |- _ => apply advance_best_ok in Ha as (Hnx & -> & ->) end);
    autorewrite with book in *; (split; [done|]); eexists _, bk1; (split_and!; [reflexivity|done|]).
  - match goal with Hb : (_ =? _) = true |- _ => rewrite Hb end. eauto.
  - match goal with Hb : (_ =? _) = false |- _ => rewrite Hb end. done.
Qed.

(** What an order gives back to its maker. *)
Definition refund (o : Order) : option Z :=
  if is_bid o then base_to_quote (remaining o) (tick o) Up else Some (remaining o).
Definition escrow_token (bk : Orderbook) (o : Order) : Address := if is_bid o then quote bk else base bk.

Lemma increment_balance_ok u t n e d l x d' l' :
  increment_balance u t n e (d, l) = (Ok x, (d', l')) →
  l' = l ∧ balance_of d u t + n ≤ U128_MAX ∧ d' = write_dex_balance u t (balance_of d u t + n) d.
Proof. unfold increment_balance. intros Hrun. dex_steps. rinvs. ariths. done. Qed.

Lemma refund_order_ok o e d l u d' l' :
  refund_order o e (d, l) = (Ok u, (d', l')) →
  l' = l ∧ ∃ n, refund o = Some n ∧ let et := escrow_token (books d).[book_key o] o in
    balance_of d (maker o) et + n ≤ U128_MAX ∧ d' = write_dex_balance (maker o) et (balance_of d (maker o) et + n) d.
Proof.
  unfold refund_order, refund, escrow_token. intros Hrun. destruct (is_bid o); dex_steps; rinvs;
    (match goal with Hi : increment_balance _ _ _ _ _ = _ |- _ => apply increment_balance_ok in Hi as (-> & ? & ->) end);
    (split; [done|]); eauto.
Qed.

Lemma Books_same d d' q :
  books d' = books d → orders d' = orders d → stored_next_order_id d' = stored_next_order_id d → Books d q → Books d' q.
Proof.
  destruct d as [bs os ba n ks], d' as [bs' os' ba' n' ks']. cbn. intros -> -> ->.
  intros [HL Hb Hc Hi]. split; try done. intros k b t. by destruct (HL k b t).
Qed.

Lemma hd_last_remove (l1 l2 : list Z) id h t p n :
  p = List.last l1 0 → n = List.hd 0 l2 → 0 ∉ l1 ++ id :: l2 → h = List.hd 0 (l1 ++ id :: l2) →
  t = List.last (l1 ++ id :: l2) 0 →
  (if p =? 0 then n else h) = List.hd 0 (l1 ++ l2) ∧ (if n =? 0 then p else t) = List.last (l1 ++ l2) 0.
Proof.
  intros -> -> H0 -> ->. rewrite elem_of_app, elem_of_cons in H0. split.
  - destruct l1 as [|x l1 _] using rev_ind; [done|]. rewrite last_snoc_default.
    rewrite (proj2 (Z.eqb_neq _ _)); [by destruct l1|]. intros ->. apply H0. left. apply elem_of_app. right. by left.
  - destruct l2 as [|y l2]; cbn [List.hd]; [by rewrite app_nil_r|].
    rewrite (proj2 (Z.eqb_neq _ _)); [|intros ->; apply H0; right; right; by left].
    by rewrite !last_app_default, !last_cons.
Qed.

(** The storage after [cancel_active_order]. *)
Lemma cancel_run o e d l u d' l' :
  tick_in_bounds (tick o) = true → cancel_active_order o e (d, l) = (Ok u, (d', l')) →
  let k := book_key o in let b := is_bid o in let t := tick o in let lv := level_of d k b t in
  let h := if prev o =? 0 then next o else head lv in let tl := if next o =? 0 then prev o else tail lv in
  ∃ bk n, refund o = Some n ∧
    (if h =? 0 then
       ∃ bk1, bit_written b t false (books d).[k] bk1 ∧
       if best_tick (books d).[k] b =? t then
         ∃ f hf, next_initialized_tick bk1 t b = Ok (f, hf) ∧ bk = set_best b (if hf then f else sentinel b) bk1
       else bk = bk1
     else bk = (books d).[k]) ∧
    let et := escrow_token (books d).[k] o in
    balance_of d (maker o) et + n ≤ U128_MAX ∧
    (books d').[k] = write_level b t (mkLevel h tl (total_liquidity lv - remaining o)) bk ∧
    (∀ k', k' ≠ k → (books d').[k'] = (books d).[k']) ∧
    orders d' = delete (order_id o) (redirect_first (redirect_last (orders d) (prev o) (next o)) (next o) (prev o)) ∧
    dex_balances d' = <[(maker o, et) := balance_of d (maker o) et + n]> (dex_balances d) ∧
    stored_next_order_id d' = stored_next_order_id d ∧ book_keys d' = book_keys d ∧
    l' = l ++ [(STABLECOIN_DEX_ADDRESS, OrderCancelled (order_id o))].
Proof.
  intros Ht Hrun k b t lv h tl. unfold cancel_active_order in Hrun. fold k b t in Hrun.
  apply bind_ok in Hrun as (lv0 & st0 & [-> ->]%gets_ok & Hrun).
  apply bind_ok in Hrun as ([h1 t1] & [d1 l1] & (Hh & Htl & -> & ->)%unlink_order_ok & Hrun).
  cbn [fst snd] in *. change (tick_level (books d).[k] t b) with lv in *. fold h in Hh. fold tl in Htl. subst h1 t1.
  apply bind_ok in Hrun as (liq & st1 & [Hliq ->]%lift_ok & Hrun). rinvs. ariths.
  apply bind_ok in Hrun as (u1 & [d2 l2] & Hclear & Hrun).
  set (d1 := mkDex (books d) _ _ _ _) in Hclear.
  assert (l2 = l ∧ ∃ bk, (d2 = write_book k bk d1 ∨ d2 = d1 ∧ bk = (books d).[k]) ∧
    if h =? 0 then
       ∃ bk1, bit_written b t false (books d).[k] bk1 ∧
       if best_tick (books d).[k] b =? t then
         ∃ f hf, next_initialized_tick bk1 t b = Ok (f, hf) ∧ bk = set_best b (if hf then f else sentinel b) bk1
       else bk = bk1
     else bk = (books d).[k]) as (-> & bk & Hd2 & Hbk).
  { destruct (h =? 0); cbn [when] in Hclear.
    - apply clear_level_ok in Hclear as (-> & bk & bk1 & -> & Hbit & Hbk); [|done].
      split; [done|]. exists bk. split; [by left|]. by exists bk1.
    - apply ret_ok in Hclear as [_ [= -> ->]]. split; [done|]. exists (books d).[k]. auto. }
  exists bk. clear Hclear.
  assert ((books d2).[k] = bk ∧ (∀ k', k' ≠ k → (books d2).[k'] = (books d).[k']) ∧ orders d2 = orders d1 ∧
    dex_balances d2 = dex_balances d ∧ stored_next_order_id d2 = stored_next_order_id d ∧ book_keys d2 = book_keys d)
    as (E1 & E2 & E3 & E4 & E5 & E6).
  { destruct Hd2 as [->|[-> ->]]; [|done]. autorewrite with book. split_and!; try done. intros. by apply mread_insert_ne. }
  assert (base bk = base (books d).[k] ∧ quote bk = quote (books d).[k]) as [E7 E8].
  { assert (∀ bk1, bit_written b t false (books d).[k] bk1 → base bk1 = base (books d).[k] ∧ quote bk1 = quote (books d).[k]) as Hb1.
    { intros bk1 []%side_frame_bit. done. }
    destruct (h =? 0); [|by subst]. destruct Hbk as (bk1 & Hbit & Hbk). destruct (Hb1 _ Hbit).
    destruct (_ =? t); [|by subst]. destruct Hbk as (f & hf & _ & ->). by destruct b. }
  clear Hd2. apply bind_ok in Hrun as (u2 & [d3 l3] & (bk3 & Hw & Hd3)%in_book_ok & Hrun).
  apply modify_ok in Hw. injection Hw as -> ->. cbn [fst] in Hd3.
  apply bind_ok in Hrun as (u3 & [d4 l4] & (-> & n & Hn & Hle & Hd4)%refund_order_ok & Hrun). fold k in Hle, Hd4.
  assert (escrow_token (books d3).[k] o = escrow_token (books d).[k] o) as Het.
  { rewrite Hd3, write_book_read, E1. unfold escrow_token. fold b. destruct b; cbn; congruence. }
  assert (∀ t', balance_of d3 (maker o) t' = balance_of d (maker o) t') as Hbal.
  { intros t'. unfold balance_of. rewrite Hd3. cbn. by rewrite E4. }
  rewrite Het, Hbal in Hle, Hd4. dex_steps. exists n. cbn [books orders dex_balances stored_next_order_id book_keys
    delete_order write_dex_balance write_book]. split_and!; try done.
  - rewrite mread_insert_eq. done.
  - intros k' Hk'. rewrite mread_insert_ne by done. auto.
  - by rewrite E3.
  - by rewrite E4.
Qed.

(** The best tick after a level that is not the best became empty. *)
Lemma best_ok_other bk bk' b q k t :
  best_ok bk b (q k b) → best_tick bk b ≠ t → q k b t ≠ [] → best_tick bk' b = best_tick bk b →
  best_ok bk' b (qset q k b t [] k b).
Proof.
  intros [[_ H2]|[H1 H2]] Hne Hq Hbt; [by rewrite H2 in Hq|]. right. rewrite Hbt. split.
  - rewrite qset_ne; [done|naive_solver].
  - intros t' Ht'. destruct (decide (t' = t)) as [->|]; [by rewrite qset_eq in Ht'|].
    rewrite qset_ne in Ht' by naive_solver. auto.
Qed.

(** The effect of a cancellation on one queue: the order leaves it, wherever it stands. *)
Record cancelled (d : DexState) (q : Queues) (o : Order) (d' : DexState) (q' : Queues) : Prop := {
  cc_books : Books d' q';
  cc_queue : ∃ l1 l2, q (book_key o) (is_bid o) (tick o) = l1 ++ order_id o :: l2 ∧
    q' = qset q (book_key o) (is_bid o) (tick o) (l1 ++ l2);
  cc_strips : strips d' = delete (order_id o) (strips d);
  cc_frame : dex_frame d d';
  cc_refund : ∃ n, refund o = Some n ∧ let et := escrow_token (books d).[book_key o] o in
    dex_balances d' = <[(maker o, et) := balance_of d (maker o) et + n]> (dex_balances d);
}.

Lemma cancel_ok o e d l u d' l' q :
  Books d q → orders d !! order_id o = Some o → cancel_active_order o e (d, l) = (Ok u, (d', l')) →
  ∃ q', cancelled d q o d' q'.
Proof.
  intros HB Ho Hrun. pose proof (bk_complete _ _ HB _ _ Ho) as Hin.
  pose proof (queue_lookup d q HB _ _ _ _ _ Hin Ho) as Hnode.
  destruct (list_elem_of_split _ _ Hin) as (l1 & l2 & Hq).
  pose proof (bk_levels _ _ HB (book_key o) (is_bid o) (tick o)) as HL. pose proof (queue_no_zero d q HB (book_key o) (is_bid o) (tick o)) as H0.
  rewrite Hq in HL, H0. destruct (lr_bounds _ _ _ _ _ HL ltac:(by destruct l1)) as [Ht Hi].
  destruct (cancel_run o e d l u d' l' Ht Hrun) as (bk & n & Hn & Hbk & _ & Hbk' & Hother & Hord & Hbal & Hsn & Hks & _).
  set (k := book_key o) in *. set (b := is_bid o) in *. set (t := tick o) in *. set (id := order_id o) in *.
  destruct (seg_remove (orders d) l1 id l2 o (lr_nodup _ _ _ _ _ HL) H0 (lr_links _ _ _ _ _ HL) Ho) as (Hp & Hnx & _).
  destruct (hd_last_remove l1 l2 id _ _ _ _ Hp Hnx H0 (lr_head _ _ _ _ _ HL) (lr_tail _ _ _ _ _ HL)) as [Hh Htl].
  rewrite Hh in Hbk, Hbk'. rewrite Htl in Hbk'.
  assert (List.hd 0 (l1 ++ l2) = 0 ↔ l1 ++ l2 = []) as Hempty.
  { split; [|by intros ->]. destruct (l1 ++ l2) as [|x l3] eqn:E; [done|]. cbn. intros ->. exfalso. apply H0.
    assert (0 ∈ l1 ++ l2) as Hz by (rewrite E; by left). rewrite elem_of_app, elem_of_cons. rewrite elem_of_app in Hz. tauto. }
  exists (qset q k b t (l1 ++ l2)).
  assert (side_frame b t (books d).[k] bk ∧
    active bk b t = (if decide (l1 ++ l2 = []) then false else active (books d).[k] b t) ∧
    best_ok bk b (qset q k b t (l1 ++ l2) k b)) as (Hsf & Hact & Hbest).
  { destruct (Z.eqb_spec (List.hd 0 (l1 ++ l2)) 0) as [Hz|Hz].
    - apply Hempty in Hz. rewrite Hz. destruct Hbk as (bk1 & Hbit & Hbk). rewrite decide_True by done.
      assert (active bk1 b t = false) as Hact1 by (destruct Hbit as (v & _ & ->); by rewrite decide_True).
      destruct (Z.eqb_spec (best_tick (books d).[k] b) t) as [Hbt|Hbt].
      + destruct Hbk as (f & hf & Hnext & ->). split_and!; [eauto with frame|by rewrite active_set_best|].
        eapply (best_after_removal d q k b t bk1 f hf); try done; [rewrite Hq; by destruct l1| |rewrite best_set; by destruct b].
        intros t'. destruct Hbit as (v & _ & ->). repeat case_decide; naive_solver.
      + subst bk1. split_and!; [eauto with frame|done|].
        apply (best_ok_other (books d).[k]); [by apply bk_best|done|rewrite Hq; by destruct l1|by apply (best_bit _ _ _ _ _ _ Hbit)].
    - assert (l1 ++ l2 ≠ []) as Hne by (by intros ?%Hempty). subst bk. rewrite decide_False by done.
      split_and!; [apply side_frame_refl|done|]. apply (best_ok_keep (books d).[k]); [by apply bk_best|rewrite Hq; by destruct l1|done|done]. }
  assert (side_frame b t (books d).[k] (books d').[k]) as Hsf' by (rewrite Hbk'; eauto with frame).
  destruct (removed_ok d d' q k b t l1 id l2 o HB Hq Ho Hord Hother Hsf') as [HB' Hst].
  - unfold level_of at 1. rewrite Hbk', level_write. by rewrite decide_True.
  - by rewrite Hbk', active_write_level.
  - unfold best_ok in *. by rewrite Hbk', best_write_level.
  - done.
  - split; [done|by exists l1, l2|done|by eapply frame_of_side|by exists n].
Qed.
