(* ===== verification/DexFills.v ===== *)
(** * Placing and filling orders

    Each operation of the exchange as an operation on the queues, on the internal balances
    and on the tokens the exchange holds. *)
From Stdlib Require Import ZArith Lia String.
From stdpp Require Import base tactics option list fin_maps gmap sets strings.
From S2P Require Import Prelude Base StorageSet AddressRegistry Keychain TIP403 TIP20Ledger TIP20 TIP20Props TIP20Admin TIP20Holdings OrderBook OrderBookProps Dex DexBooks.
Open Scope Z_scope.
Open Scope storage_scope.

Local Notation DEX := STABLECOIN_DEX_ADDRESS.

(** ** One side of one book *)
(** Nothing of this side of this book changes. *)
Record side_same (k : B256) (b : bool) (d : DexState) (q : Queues) (d' : DexState) (q' : Queues) : Prop := {
  ss_queue t : q' k b t = q k b t;
  ss_orders t id : id ∈ q k b t → orders d' !! id = orders d !! id;
  ss_level t : level_of d' k b t = level_of d k b t;
  ss_best : best_tick (books d').[k] b = best_tick (books d).[k] b;
  ss_init : is_initialized (books d').[k] = is_initialized (books d).[k];
}.

Lemma side_same_refl k b d q : side_same k b d q d q.
Proof. done. Qed.
Lemma side_same_trans k b d1 q1 d2 q2 d3 q3 :
  side_same k b d1 q1 d2 q2 → side_same k b d2 q2 d3 q3 → side_same k b d1 q1 d3 q3.
Proof.
  intros [A1 A2 A3 A4 A5] [B1 B2 B3 B4 B5]. split; intros; try congruence.
  rewrite (B2 t), (A2 t) by (rewrite ?A1; done). done.
Qed.

Lemma side_same_cursor k b d q d' q' r : side_same k b d q d' q' → cursor d q k b r → cursor d' q' k b r.
Proof.
  intros [A1 A2 A3 A4 A5]. destruct r as [[lv o]|]; cbn.
  - intros (l & H1 & H2 & H3 & H4 & H5). exists l. rewrite A1, A3, A4, A5, (A2 (tick o)) by (rewrite H2; by left). done.
  - intros Hq t. by rewrite A1.
Qed.

(** A change of balances and identifiers only. *)
Lemma side_same_books k b d d' q : books d' = books d → orders d' = orders d → side_same k b d q d' q.
Proof. intros Hb Ho. split; intros; unfold level_of; by rewrite ?Hb, ?Ho. Qed.

(** A change of the other side, or of another book. *)
Lemma side_same_queue k b k' b' t' id d q d' l :
  Books d q → queue_frame k' b' t' id d d' (q k' b' t') → orders d !! id = None → ¬ (k' = k ∧ b' = b) →
  side_same k b d q d' (qset q k' b' t' l).
Proof.
  intros HB [F1 F2 F3] Hid Hne. split.
  - intros t. apply qset_ne. naive_solver.
  - intros t j Hj. destruct (Books_strip _ _ _ _ _ _ HB Hj) as (o & Ho & _). apply F3; [|congruence].
    intros Hj'. destruct (Books_unique _ _ _ _ _ _ _ _ _ HB Hj' Hj) as (-> & -> & _). naive_solver.
  - intros t. unfold level_of. destruct (decide (k' = k)) as [->|]; [|by rewrite F1].
    apply (sf_level _ _ _ _ F2). naive_solver.
  - destruct (decide (k' = k)) as [->|]; [|by rewrite F1].
    assert (b = negb b') as -> by (destruct b, b'; naive_solver). apply (sf_best _ _ _ _ F2).
  - unfold is_initialized. destruct (decide (k' = k)) as [->|]; [by rewrite (sf_base _ _ _ _ F2)|by rewrite F1].
Qed.

(** ** Creating a pair *)
Definition with_pair (k : B256) (bs qt : Address) (d : DexState) : DexState :=
  push_book_key k (write_book k (book_new bs qt (books d).[k]) d).

Lemma with_pair_other k bs qt d k' : k' ≠ k → (books (with_pair k bs qt d)).[k'] = (books d).[k'].
Proof. intros. by apply mread_insert_ne. Qed.
Lemma with_pair_book k bs qt d : (books (with_pair k bs qt d)).[k] = book_new bs qt (books d).[k].
Proof. apply mread_insert_eq. Qed.

Lemma with_pair_empty k d q b t : Books d q → is_initialized (books d).[k] = false → q k b t = [].
Proof.
  intros HB Hi. destruct (decide (q k b t = [])) as [|Hne]; [done|].
  destruct (lr_bounds _ _ _ _ _ (bk_levels _ _ HB k b t) Hne). congruence.
Qed.

Lemma Books_pair k bs qt d q :
  Books d q → is_initialized (books d).[k] = false → Books (with_pair k bs qt d) q.
Proof.
  intros HB Hi. pose proof (λ b t, with_pair_empty k d q b t HB Hi) as Hempty.
  split; [| |apply (bk_complete _ _ HB)|apply (bk_ids _ _ HB)].
  - intros k' b t. destruct (bk_levels _ _ HB k' b t) as [L1 L2 L3 L4 L5 L6 L7 L8].
    destruct (decide (k' = k)) as [->|Hne].
    + split; unfold level_of in *; rewrite ?with_pair_book; try done; try (by destruct b).
      intros Hq. by rewrite Hempty in Hq.
    + split; unfold level_of; rewrite ?with_pair_other by done; done.
  - intros k' b Hk'. destruct (decide (k' = k)) as [->|Hne].
    + left. rewrite with_pair_book. by destruct b.
    + rewrite with_pair_other in Hk' |- * by done. by apply bk_best.
Qed.

Lemma side_same_pair k' bs qt d q k b :
  is_initialized (books d).[k] = true → is_initialized (books d).[k'] = false →
  side_same k b d q (with_pair k' bs qt d) q.
Proof.
  intros Hi Hi'. assert (k ≠ k') as Hne by (intros ->; congruence).
  split; intros; unfold level_of; rewrite ?with_pair_other by done; done.
Qed.

(** ** A partial fill *)
Lemma liquidity_set ss id s s' l : NoDup l → id ∈ l → ss !! id = Some s →
  liquidity (<[id:=s']> ss) l = liquidity ss l - remaining s + remaining s'.
Proof.
  intros Hnd Hin Hs. destruct (list_elem_of_split _ _ Hin) as (l1 & l2 & ->).
  apply NoDup_app in Hnd as (_ & Hd & [Hid _]%NoDup_cons).
  rewrite !liquidity_app. cbn. rewrite lookup_insert_eq, Hs. cbn. fold (liquidity ss l2) (liquidity (<[id:=s']> ss) l2).
  rewrite !liquidity_insert_fresh; [lia|done|]. intros Hl1. apply (Hd _ Hl1). by left.
Qed.

(** The first order of the best level keeps [r] of what it had. *)
Lemma reduce_ok d d' q k b lv o r :
  Books d q → cursor d q k b (Some (lv, o)) → 0 < r ≤ remaining o →
  orders d' = <[order_id o := set_remaining r o]> (orders d) →
  (∀ k', k' ≠ k → (books d').[k'] = (books d).[k']) →
  (books d').[k] = write_level b (tick o)
     (mkLevel (head lv) (tail lv) (total_liquidity lv - (remaining o - r))) (books d).[k] →
  stored_next_order_id d' = stored_next_order_id d →
  Books d' q ∧ strips d' = <[order_id o := set_remaining r (strip o)]> (strips d).
Proof.
  intros HB Hcur Hr Hord Hother Hbk Hsn. pose proof (cursor_node _ _ _ _ _ _ HB Hcur) as Hn.
  destruct Hcur as (ids & Hbt & Hq & Hlv & Ho & Hi). set (t := tick o) in *. set (id := order_id o) in *.
  pose proof (bk_levels _ _ HB k b t) as [L1 L2 L3 L4 L5 L6 L7 L8].
  assert (id ∈ q k b t) as Hin by (rewrite Hq; by left).
  assert (strips d' = <[id := set_remaining r (strip o)]> (strips d)) as Hst by (unfold strips; by rewrite Hord, fmap_insert).
  split; [|done].
  assert (level_of d' k b t = mkLevel (head lv) (tail lv) (total_liquidity lv - (remaining o - r))) as Hlv'.
  { unfold level_of. rewrite Hbk, level_write. by rewrite decide_True. }
  assert (side_frame b t (books d).[k] (books d').[k]) as Hsf by (rewrite Hbk; eauto with frame).
  assert (∀ k0 b0 t0, qset q k b t (q k b t) k0 b0 t0 = q k0 b0 t0) as Hqs.
  { intros. unfold qset. case_decide as He; [|done]. by destruct He as (-> & -> & ->). }
  assert (Books d' (qset q k b t (q k b t))) as HB'.
  { apply (Books_change d); try done.
    - split; rewrite ?Hlv', ?Hst, ?Hord; cbn [head tail total_liquidity]; rewrite ?Hlv; try done.
      + rewrite L3, (liquidity_set _ id (strip o)); [cbn; lia|done|done|by apply strips_Some].
      + revert L4 L6. rewrite Hq. intros [(o2 & Ho2 & Hp & Hnx) Hs] [Hnin _]%NoDup_cons. assert (o2 = o) as -> by congruence. split.
        * eexists. rewrite lookup_insert_eq. done.
        * eapply seg_ext; [|exact Hs]. intros j Hj. apply lookup_insert_ne. by intros <-.
      + intros j Hj. destruct (decide (j = id)) as [->|Hne].
        * rewrite lookup_insert_eq. eexists. split; [done|]. destruct Hn as [? ? ? ? ? ? ?]. split; cbn; try done. lia.
        * rewrite lookup_insert_ne by done. auto.
      + intros Ht. rewrite Hbk, active_write_level. auto.
      + intros Hne. destruct (L8 Hne). split; [done|]. unfold is_initialized in *. by rewrite (sf_base _ _ _ _ Hsf).
    - intros _. apply (best_ok_keep (books d).[k]); [by apply bk_best|by rewrite Hq|by rewrite Hq|].
      by rewrite Hbk, best_write_level.
    - intros j Hj _. rewrite Hord. apply lookup_insert_ne. by intros <-.
    - by left.
    - intros j _. destruct (decide (j ∈ q k b t)); tauto.
    - unfold next_order_id. rewrite Hsn. intros j Hj. by apply (queue_id_pos d q HB) in Hj.
    - unfold next_order_id. by rewrite Hsn. }
  destruct HB' as [H1 H2 H3 H4]. split; try done.
  - intros k0 b0 t0. by rewrite <- Hqs.
  - intros k0 b0 Hi0. eapply best_ok_ext; [|by apply H2]. intros t0. by rewrite Hqs.
  - intros j o0 Hj. rewrite <- Hqs. auto.
Qed.

(** ** Runs over the exchange and the tokens *)
Lemma in_world_ok {A} (m : M World A) e x l a x' l' :
  in_world m e (x, l) = (Ok a, (x', l')) →
  ∃ w, m e (dex_world x, l) = (Ok a, (w, l')) ∧ x' = mkDexWorld w (dex x).
Proof. unfold in_world. intros (w & l1 & Hm & Heq)%zoom_ok. simplify_eq. eauto. Qed.

Lemma in_dex_ok {A} (m : M DexState A) e x l a x' l' :
  in_dex m e (x, l) = (Ok a, (x', l')) →
  ∃ d, m e (dex x, l) = (Ok a, (d, l')) ∧ x' = mkDexWorld (dex_world x) d.
Proof. unfold in_dex. intros (d & l1 & Hm & Heq)%zoom_ok. simplify_eq. eauto. Qed.

Ltac mx_step :=
  match goal with
  | Hr : in_world _ _ (_, _) = (Ok _, ?st) |- _ =>
      let w := fresh "w" in let Hm := fresh "Hw" in
      try (is_var st; destruct st as [? ?]); apply in_world_ok in Hr as (w & Hm & ?); subst
  | Hr : in_dex _ _ (_, _) = (Ok _, ?st) |- _ =>
      let d := fresh "d" in let Hm := fresh "Hd" in
      try (is_var st; destruct st as [? ?]); apply in_dex_ok in Hr as (d & Hm & ?); subst
  end.
Ltac mx_steps := repeat (first [minv_step | mx_step | dex_step]; cbn [fst snd dex_world dex] in *).

Section operations.
Context `{Primitives}.

Lemma ensure_authorized_same self f t e w l u w' l' :
  ensure_transfer_authorized self f t e (w, l) = (Ok u, (w', l')) → w' = w ∧ l' = l.
Proof. unfold ensure_transfer_authorized. intros Hrun. minvs. simplify_eq. done. Qed.

Lemma from_address_ok t a : from_address t = Ok a ↔ a = t ∧ addr_is_tip20 t = true.
Proof. unfold from_address. destruct (addr_is_tip20 t); cbn; naive_solver. Qed.

Lemma sub_balance_ok u t n e d l v d' l' :
  sub_balance u t n e (d, l) = (Ok v, (d', l')) →
  l' = l ∧ n ≤ balance_of d u t ∧ d' = write_dex_balance u t (balance_of d u t - n) d.
Proof. unfold sub_balance. intros Hrun. dex_steps. rinvs. ariths. done. Qed.

(** Collecting [n] of [t] from a user: from its balance here, or from its wallet. *)
Definition collected (u t : Address) (n : Z) (e : Env) (x x' : DexWorld) : Prop :=
  let b := balance_of (dex x) u t in
  (n ≤ b ∧ x' = mkDexWorld (dex_world x) (write_dex_balance u t (b - n) (dex x))) ∨
  (b < n ∧ dex x' = write_dex_balance u t 0 (dex x) ∧
   wruns (transfer_from t DEX u DEX (n - b)) e (dex_world x) (dex_world x')).

Lemma decrement_ok u t n e x l v x' l' :
  decrement_balance_or_transfer_from u t n e (x, l) = (Ok v, (x', l')) →
  addr_is_tip20 t = true ∧ collected u t n e x x'.
Proof.
  unfold decrement_balance_or_transfer_from, dex_transfer_from, collected. intros Hrun.
  apply bind_ok in Hrun as (self & st & [[-> Ht]%from_address_ok ->]%lift_ok & Hrun). split; [done|].
  apply bind_ok in Hrun as (u1 & [x1 l1] & (w1 & [-> ->]%ensure_authorized_same & ->)%in_world_ok & Hrun).
  replace (mkDexWorld (dex_world x) (dex x)) with x in Hrun by (by destruct x).
  apply bind_ok in Hrun as (b & st & [-> ->]%gets_ok & Hrun). cbn [fst] in Hrun.
  destruct (Z.leb_spec n (balance_of (dex x) u t)) as [Hle|Hlt].
  - left. mx_steps. apply sub_balance_ok in Hd as (-> & _ & ->). done.
  - right. mx_steps. rinvs. ariths.
    match goal with Hf : from_address _ = _ |- _ => apply from_address_ok in Hf as [-> _] end.
    cbn [dex dex_world]. split_and!; try done. by do 3 eexists.
Qed.

(** ** Pairs *)
Definition quote_in (x : DexWorld) (t : Address) : Address := quote_token (meta (token (dex_world x) t)).

Lemma create_pair_ok b e x l k x' l' :
  create_pair b e (x, l) = (Ok k, (x', l')) →
  let q := quote_in x b in
  k = compute_book_key b q ∧ addr_is_tip20 b = true ∧ addr_is_tip20 q = true ∧
  is_initialized (books (dex x)).[k] = false ∧ x' = mkDexWorld (dex_world x) (with_pair k b q (dex x)).
Proof.
  intros Hrun q. unfold create_pair, validate_usd_currency in Hrun. mx_steps.
  repeat match goal with Hf : from_address _ = Ok _ |- _ => apply from_address_ok in Hf as [-> ?] end. rinvs.
  repeat match goal with Hf : from_address _ = Ok _ |- _ => apply from_address_ok in Hf as [-> ?] end. bprop.
  simplify_eq. done.
Qed.

(** The book of [t] exists afterwards: it did before, or it was just created. *)
Definition paired (t : Address) (x x1 : DexWorld) : Prop :=
  let q := quote_in x t in let k := compute_book_key t q in
  if is_initialized (books (dex x)).[k] then x1 = x
  else addr_is_tip20 t = true ∧ addr_is_tip20 q = true ∧ x1 = mkDexWorld (dex_world x) (with_pair k t q (dex x)).

Lemma validate_or_create_pair_ok t e x l u x1 l1 :
  validate_or_create_pair (books (dex x)).[compute_book_key t (quote_in x t)] t e (x, l) = (Ok u, (x1, l1)) →
  paired t x x1.
Proof.
  unfold validate_or_create_pair, paired. intros Hrun.
  destruct (is_initialized _) eqn:Hi; cbn [negb when] in Hrun.
  - by apply ret_ok in Hrun as [_ [= -> ->]].
  - apply bind_ok in Hrun as (k & [x2 l2] & (-> & Ht & Hq & _ & ->)%create_pair_ok & Hrun).
    by apply ret_ok in Hrun as [_ [= -> ->]].
Qed.

(** ** Orders *)
(** What an order of [amt] at [tk] escrows, in base for an ask and in quote for a bid. *)
Definition escrow_needed (b : bool) (amt tk : Z) : option Z := if b then base_to_quote amt tk Up else Some amt.

(** An accepted order: the pair exists, the escrow is collected, the order is queued. *)
Record placed (sender t : Address) (amt : Z) (b : bool) (tk : Z) (flip : bool) (ftick : Z) (internal : bool)
    (e : Env) (x x' : DexWorld) (id : Z) : Prop := {
  pl_tick : tick_in_bounds tk = true;
  pl_amount : MIN_ORDER_AMOUNT ≤ amt;
  pl_tokens : addr_is_tip20 t = true ∧ addr_is_tip20 (quote_in x t) = true;
  pl_run : let q := quote_in x t in let k := compute_book_key t q in
    ∃ x1 n x2 d', paired t x x1 ∧ escrow_needed b amt tk = Some n ∧
      collected sender (if b then q else t) n e x1 x2 ∧ (internal = true → n ≤ balance_of (dex x1) sender (if b then q else t)) ∧
      id = next_order_id (dex x2) ∧ x' = mkDexWorld (dex_world x2) d' ∧
      ∃ l1 u l2, commit_order_to_book (order_new id sender k amt tk b flip ftick) e
        (write_next_order_id (id + 1) (dex x2), l1) = (Ok u, (d', l2));
}.

Lemma increment_next_order_id_ok e d l u d' l' :
  increment_next_order_id e (d, l) = (Ok u, (d', l')) → l' = l ∧ d' = write_next_order_id (next_order_id d + 1) d.
Proof. unfold increment_next_order_id. intros Hrun. dex_steps. done. Qed.

Lemma escrow_of_order_ok t q amt b tk a n c :
  escrow_of_order t q amt b tk = Ok (a, n, c) →
  a = (if b then q else t) ∧ c = (if b then t else q) ∧ escrow_needed b amt tk = Some n.
Proof. unfold escrow_of_order, escrow_needed. destruct b; intros Hr; rinvs; naive_solver. Qed.

Lemma place_ok sender t amt b tk e x l id x' l' :
  place sender t amt b tk e (x, l) = (Ok id, (x', l')) → placed sender t amt b tk false 0 false e x x' id.
Proof.
  unfold place. intros Hrun.
  apply bind_ok in Hrun as (self & st & [[-> Ht]%from_address_ok ->]%lift_ok & Hrun).
  apply bind_ok in Hrun as (q & st & [-> ->]%gets_ok & Hrun).
  apply bind_ok in Hrun as (bk & st & [-> ->]%gets_ok & Hrun). cbn [fst] in Hrun. fold (quote_in x t) in Hrun.
  apply bind_ok in Hrun as (u1 & [x1 l1] & Hpair%validate_or_create_pair_ok & Hrun).
  do 3 (apply bind_ok in Hrun as ([] & ? & [? ->]%require_ok & Hrun)).
  apply bind_ok in Hrun as ([[a n] c] & st & [Hesc ->]%lift_ok & Hrun).
  apply escrow_of_order_ok in Hesc as (-> & -> & Hn).
  apply bind_ok in Hrun as (oth & st & [[-> Hoth]%from_address_ok ->]%lift_ok & Hrun).
  apply bind_ok in Hrun as (u2 & [xa la] & (w1 & [-> ->]%ensure_authorized_same & ->)%in_world_ok & Hrun).
  replace (mkDexWorld (dex_world x1) (dex x1)) with x1 in Hrun by (by destruct x1).
  apply bind_ok in Hrun as (u3 & [x2 l2] & [Hesct Hcol]%decrement_ok & Hrun).
  mx_steps. 
  repeat match goal with Hi : increment_next_order_id _ _ = _ |- _ => apply increment_next_order_id_ok in Hi as [-> ->] end.
  bprop. split; [done|done| |].
  - destruct b; done.
  - cbv zeta. eexists x1, n, x2, _. split_and!; try done. do 3 eexists. destruct b; eassumption.
Qed.

Lemma checkpoint_ok {S A} (m : M S A) e st a st' : checkpoint m e st = (Ok a, st') → m e st = (Ok a, st').
Proof. unfold checkpoint. destruct (is_t1c (spec e)); [apply atomically_ok|done]. Qed.

Lemma place_flip_ok sender t amt b tk ftick internal e x l id x' l' :
  place_flip sender t amt b tk ftick internal e (x, l) = (Ok id, (x', l')) →
  placed sender t amt b tk true ftick internal e x x' id ∧ tick_in_bounds ftick = true ∧ (if b then tk < ftick else ftick < tk).
Proof.
  unfold place_flip. intros Hrun.
  apply bind_ok in Hrun as (self & st & [[-> Ht]%from_address_ok ->]%lift_ok & Hrun).
  apply bind_ok in Hrun as (q & st & [-> ->]%gets_ok & Hrun). cbn [fst] in Hrun. fold (quote_in x t) in Hrun.
  apply checkpoint_ok in Hrun.
  apply bind_ok in Hrun as (bk & st & [-> ->]%gets_ok & Hrun). cbn [fst] in Hrun.
  apply bind_ok in Hrun as (u1 & [x1 l1] & Hpair%validate_or_create_pair_ok & Hrun).
  do 6 (apply bind_ok in Hrun as ([] & ? & [? ->]%require_ok & Hrun)).
  apply bind_ok in Hrun as ([[a n] c] & st & [Hesc ->]%lift_ok & Hrun).
  apply escrow_of_order_ok in Hesc as (-> & -> & Hn).
  apply bind_ok in Hrun as (oth & st & [[-> Hoth]%from_address_ok ->]%lift_ok & Hrun).
  apply bind_ok in Hrun as (u2 & [xa la] & (w1 & [-> ->]%ensure_authorized_same & ->)%in_world_ok & Hrun).
  replace (mkDexWorld (dex_world x1) (dex x1)) with x1 in Hrun by (by destruct x1).
  set (et := if b then quote_in x t else t) in *.
  apply bind_ok in Hrun as (u3 & [x2 l2] & Hpay & Hrun).
  assert (addr_is_tip20 et = true ∧ collected sender et n e x1 x2 ∧ (internal = true → n ≤ balance_of (dex x1) sender et))
    as (Het & Hcol & Hint).
  { clear Hrun. destruct internal; [|apply decrement_ok in Hpay as [? ?]; done].
    apply bind_ok in Hpay as (? & ? & [[-> Het]%from_address_ok ->]%lift_ok & Hpay).
    apply bind_ok in Hpay as (? & [xb lb] & (w1 & [-> ->]%ensure_authorized_same & ->)%in_world_ok & Hpay).
    replace (mkDexWorld (dex_world x1) (dex x1)) with x1 in Hpay by (by destruct x1).
    mx_steps. apply sub_balance_ok in Hd as (-> & Hle & ->). bprop. split_and!; try done. by left. }
  clear Hpay. apply bind_ok in Hrun as (id0 & st & [-> ->]%gets_ok & Hrun). cbn [fst] in Hrun.
  apply bind_ok in Hrun as (o & st & [Ho ->]%lift_ok & Hrun).
  destruct (new_flip _ _ _ _ _ _ _) as [o'|] eqn:Hnf; [|done]. injection Ho as ->. apply new_flip_ok in Hnf as [-> Hlt].
  apply bind_ok in Hrun as (e0 & st & [-> ->]%ask_ok & Hrun).
  apply bind_ok in Hrun as (u4 & [x3 l3] & Hnext & Hrun).
  assert (x3 = mkDexWorld (dex_world x2) (write_next_order_id (next_order_id (dex x2) + 1) (dex x2))) as ->.
  { clear Hrun. destruct (is_t1c (spec e)); mx_steps; [done|]. by apply increment_next_order_id_ok in Hd as [-> ->]. }
  clear Hnext. mx_steps. bprop. split; [|done]. split; [done|done|by destruct b|].
  cbv zeta. eexists x1, n, x2, _. split_and!; try done. do 3 eexists. eassumption.
Qed.

(** ** Fills *)
(** What the taker gives and gets for [f] base units of the order. *)
Definition taker_in (o : Order) (f : Z) : option Z := if is_bid o then Some f else base_to_quote f (tick o) Up.
Definition taker_out (o : Order) (f : Z) : option Z := if is_bid o then base_to_quote f (tick o) Down else Some f.
Definition token_in_of (bk : Orderbook) (b : bool) : Address := if b then base bk else quote bk.
Definition token_out_of (bk : Orderbook) (b : bool) : Address := if b then quote bk else base bk.

Lemma partial_fill_ok o lv f taker e x l out x' l' :
  partial_fill_order o lv f taker e (x, l) = (Ok out, (x', l')) →
  let d := dex x in let k := book_key o in let b := is_bid o in let tin := token_in_of (books d).[k] b in
  ∃ inn, taker_in o f = Some inn ∧ taker_out o f = Some out ∧ dex_world x' = dex_world x ∧
    dex x' = mkDex (<[k := write_level b (tick o) (mkLevel (head lv) (tail lv) (total_liquidity lv - f)) (books d).[k]]> (books d))
      (<[order_id o := set_remaining (remaining o - f) (orders d).[order_id o]]> (orders d))
      (<[(maker o, tin) := balance_of d (maker o) tin + inn]> (dex_balances d)) (stored_next_order_id d) (book_keys d).
Proof.
  intros Hrun d k b tin. unfold partial_fill_order, emit_order_filled in Hrun. fold k b in Hrun.
  unfold taker_in, taker_out, tin, token_in_of. fold b. destruct b; mx_steps; rinvs; ariths;
    (match goal with Hi : increment_balance _ _ _ _ _ = _ |- _ => apply increment_balance_ok in Hi as (-> & ? & ->) end); eauto.
Qed.

Lemma settle_fill_ok o bk e d l out d' l' :
  settle_fill o bk e (d, l) = (Ok out, (d', l')) →
  let tin := token_in_of bk (is_bid o) in
  ∃ inn, taker_in o (remaining o) = Some inn ∧ taker_out o (remaining o) = Some out ∧ l' = l ∧
    d' = write_dex_balance (maker o) tin (balance_of d (maker o) tin + inn) d.
Proof.
  intros Hrun tin. unfold settle_fill in Hrun. unfold taker_in, taker_out, tin, token_in_of.
  destruct (is_bid o); mx_steps; rinvs; simplify_eq;
    (match goal with Hi : increment_balance _ _ _ _ _ = _ |- _ => apply increment_balance_ok in Hi as (-> & ? & ->) end); eauto.
Qed.

(** Under T1C a flip that fails leaves no trace. *)
Lemma place_flip_err sender t amt b tk ftick internal e st err st' :
  is_t1c (spec e) = true → place_flip sender t amt b tk ftick internal e st = (Err err, st') → st' = st.
Proof.
  intros Hc Hrun. unfold place_flip in Hrun.
  apply bind_err in Hrun as [Hrun|(self & st1 & [_ ->]%lift_ok & Hrun)]; [unfold lift in Hrun; congruence|].
  apply bind_err in Hrun as [Hrun|(q & st1 & [_ ->]%gets_ok & Hrun)]; [unfold gets in Hrun; congruence|].
  unfold checkpoint in Hrun. rewrite Hc in Hrun. by apply atomically_err in Hrun.
Qed.

Lemma flip_filled_ok o bk e x l u x' l' :
  is_t1c (spec e) = true → flip_filled o bk e (x, l) = (Ok u, (x', l')) →
  x' = x ∨ ∃ id, placed (maker o) (base bk) (amount o) (negb (is_bid o)) (flip_tick o) true (tick o) true e x x' id.
Proof.
  intros Hc Hrun. unfold flip_filled in Hrun.
  apply bind_ok in Hrun as (r & [x1 l1] & Hatt & Hrun). unfold attempt in Hatt.
  destruct (place_flip _ _ _ _ _ _ _ _ _) as [r' st] eqn:Hpf. injection Hatt as -> ->.
  apply bind_ok in Hrun as (e0 & st & [-> ->]%ask_ok & Hrun). destruct r as [id|err].
  - apply ret_ok in Hrun as [_ [= -> ->]]. apply place_flip_ok in Hpf as [Hp _]. eauto.
  - apply place_flip_err in Hpf; [|done]. injection Hpf as -> ->. left.
    destruct (_ && _); [by apply throw_ok in Hrun|]. by apply ret_ok in Hrun as [_ [= -> ->]].
Qed.

Lemma fill_order_ok k o lv taker e x l out r x' l' :
  fill_order k o lv taker e (x, l) = (Ok (out, r), (x', l')) →
  ∃ d1 x2 l1 d3 l2, let bk := (books (dex x)).[k] in
    (∃ l0, settle_fill o bk e (dex x, l) = (Ok out, (d1, l0))) ∧
    (if is_flip o then ∃ l0 u l3, flip_filled o bk e (mkDexWorld (dex_world x) d1, l0) = (Ok u, (x2, l3))
     else x2 = mkDexWorld (dex_world x) d1) ∧
    pop_filled k o lv e (dex x2, l1) = (Ok r, (d3, l2)) ∧ x' = mkDexWorld (dex_world x2) d3.
Proof.
  intros Hrun. unfold fill_order, emit_order_filled in Hrun.
  apply bind_ok in Hrun as (bk & st & [-> ->]%gets_ok & Hrun). cbn [fst] in Hrun.
  apply bind_ok in Hrun as (out1 & [x1 l1] & (d1 & Hs & ->)%in_dex_ok & Hrun).
  apply bind_ok in Hrun as (u1 & st & Hem & Hrun). apply emit_ok in Hem as ->. cbn [fst snd] in Hrun.
  apply bind_ok in Hrun as (u2 & [x2 l2] & Hflip & Hrun).
  apply bind_ok in Hrun as (r1 & [x3 l3] & (d3 & Hpop & ->)%in_dex_ok & Hrun).
  apply ret_ok in Hrun as [[= -> ->] [= -> ->]].
  exists d1, x2, l2, d3, l3. cbv zeta. split_and!; [by eexists| |done|done].
  unfold when in Hflip. destruct (is_flip o); [by do 3 eexists|]. by apply ret_ok in Hflip as [_ [= -> ->]].
Qed.
End operations.
