(* ===== verification/DexSolvency.v ===== *)
(** * Solvency of the exchange

    For every token the exchange holds what it owes: the escrow of every open order and
    every internal balance. *)
From Stdlib Require Import ZArith Lia String.
From stdpp Require Import base tactics option list fin_maps gmap sets strings.
From S2P Require Import Prelude Base StorageSet AddressRegistry Keychain TIP403 TIP20Ledger TIP20 TIP20Props TIP20Admin TIP20Holdings OrderBook OrderBookProps Dex DexBooks DexFills.
Open Scope Z_scope.
Open Scope storage_scope.

Local Notation DEX := STABLECOIN_DEX_ADDRESS.

(** ** Obligations *)
Definition escrow_amount (o : Order) : Z :=
  if is_bid o then div_ceil (remaining o * tick_to_price (tick o)) PRICE_SCALE else remaining o.
Definition order_owed (d : DexState) (T : Address) (o : Order) : Z :=
  if escrow_token (books d).[book_key o] o =? T then escrow_amount o else 0.

Definition owed_orders (d : DexState) (T : Address) : Z := msum (λ _ o, order_owed d T o) (orders d).
Definition owed_users (d : DexState) (T : Address) : Z := msum (λ k n, if k.2 =? T then n else 0) (dex_balances d).
Definition owed (d : DexState) (T : Address) : Z := owed_orders d T + owed_users d T.

Definition dex_held (x : DexWorld) (T : Address) : Z := bal (dex_world x) T DEX.
(** What the exchange holds beyond what it owes. *)
Definition margin (x : DexWorld) (T : Address) : Z := dex_held x T - owed (dex x) T.

(** [n] of token [t]. *)
Definition only (t : Address) (n : Z) (T : Address) : Z := if t =? T then n else 0.

Lemma owed_orders_strips d T : owed_orders d T = msum (λ _ s, order_owed d T s) (strips d).
Proof. unfold owed_orders, strips. by rewrite msum_fmap. Qed.

Lemma owed_users_write d d' u t v T :
  dex_balances d' = <[(u, t):=v]> (dex_balances d) →
  owed_users d' T = owed_users d T + only t (v - balance_of d u t) T.
Proof.
  intros Hb. unfold owed_users, only, balance_of. rewrite Hb, (msum_write _ _ (u, t)); cbn; [|by case_match].
  case_match; lia.
Qed.

(** The orders' books keep their tokens. *)
Definition tokens_kept (d d' : DexState) : Prop :=
  ∀ k, is_initialized (books d).[k] = true →
    base (books d').[k] = base (books d).[k] ∧ quote (books d').[k] = quote (books d).[k].

Lemma frame_tokens d d' : dex_frame d d' → tokens_kept d d'.
Proof. intros [_ _ Hb Hq] k _. done. Qed.
Lemma tokens_kept_init d d' k : tokens_kept d d' → is_initialized (books d).[k] = true → is_initialized (books d').[k] = true.
Proof. intros Ht Hi. destruct (Ht k Hi) as [Hb _]. unfold is_initialized in *. by rewrite Hb. Qed.
Lemma tokens_kept_trans d1 d2 d3 : tokens_kept d1 d2 → tokens_kept d2 d3 → tokens_kept d1 d3.
Proof.
  intros H1 H2 k Hk. destruct (H1 k Hk) as [Hb Hq]. destruct (H2 k (tokens_kept_init _ _ _ H1 Hk)) as [Hb' Hq']. split; congruence.
Qed.
Lemma tokens_kept_refl d : tokens_kept d d.
Proof. done. Qed.

Lemma order_owed_kept d d' T o :
  tokens_kept d d' → is_initialized (books d).[book_key o] = true → order_owed d' T o = order_owed d T o.
Proof. intros Ht Hi. destruct (Ht _ Hi) as [Hb Hq]. unfold order_owed, escrow_token. by rewrite Hb, Hq. Qed.

Lemma strips_init d q id s : Books d q → strips d !! id = Some s → is_initialized (books d).[book_key s] = true.
Proof.
  intros HB. unfold strips. rewrite lookup_fmap. intros (o & Ho & ->)%fmap_Some.
  pose proof (bk_complete _ _ HB _ _ Ho) as Hin.
  eapply (lr_bounds _ _ _ _ _ (bk_levels _ _ HB (book_key o) (is_bid o) (tick o))). intros Hq. rewrite Hq in Hin.
  by apply elem_of_nil in Hin.
Qed.

Section owed_orders.
Context (d d' : DexState) (q : Queues) (HB : Books d q) (Ht : tokens_kept d d').

Lemma owed_orders_same T : strips d' = strips d → owed_orders d' T = owed_orders d T.
Proof.
  intros Hs. rewrite !owed_orders_strips, Hs. apply msum_ext. intros id s Hid.
  apply order_owed_kept; [done|]. by eapply strips_init.
Qed.
Lemma owed_orders_insert id s T :
  strips d' = <[id:=s]> (strips d) →
  owed_orders d' T = owed_orders d T - from_option (order_owed d T) 0 (strips d !! id) + order_owed d' T s.
Proof.
  intros Hs. rewrite !owed_orders_strips, Hs, msum_insert.
  rewrite (msum_ext (λ _ s0, order_owed d' T s0) (λ _ s0, order_owed d T s0)).
  2:{ intros j s0 Hj. apply order_owed_kept; [done|]. by eapply strips_init. }
  destruct (strips d !! id) as [s0|] eqn:Hid; cbn; [|done].
  rewrite (order_owed_kept d d'); [done|done|]. by eapply strips_init.
Qed.
Lemma owed_orders_delete id s T :
  strips d' = delete id (strips d) → strips d !! id = Some s → owed_orders d' T = owed_orders d T - order_owed d T s.
Proof.
  intros Hs Hid. rewrite !owed_orders_strips, Hs.
  rewrite (msum_ext (λ _ s0, order_owed d' T s0) (λ _ s0, order_owed d T s0)).
  2:{ intros j s0 [_ Hj]%lookup_delete_Some. apply order_owed_kept; [done|]. by eapply strips_init. }
  rewrite (msum_delete _ (strips d) id s Hid). lia.
Qed.
End owed_orders.

Lemma order_owed_strip d T o : order_owed d T (strip o) = order_owed d T o.
Proof. done. Qed.

Lemma refund_escrow o n : refund o = Some n → n = escrow_amount o.
Proof.
  unfold refund, escrow_amount, base_to_quote. destruct (is_bid o); [|congruence]. by intros [-> _]%try_into_Some.
Qed.

(** ** The invariant of the exchange *)
(** What the exchange relies on of the code outside the repository: its own address is an ordinary
    account that is no token, no virtual address and has no private key, and the hash
    gives distinct pairs of tokens distinct keys. *)
Class ExchangeEnvironment `{Primitives} : Prop := {
  dex_not_tip20 : addr_is_tip20 DEX = false;
  dex_not_virtual : addr_decode_virtual DEX = None;
  dex_signs_nothing d v r s : recover_signer d v r s ≠ Some DEX;
  zero_not_tip20 : addr_is_tip20 ZERO = false;
  fee_manager_not_tip20 : addr_is_tip20 TIP_FEE_MANAGER_ADDRESS = false;
  book_keys_distinct b q b' q' : addr_is_tip20 b = true → addr_is_tip20 q = true →
    addr_is_tip20 b' = true → addr_is_tip20 q' = true →
    compute_book_key b q = compute_book_key b' q' → b = b' ∧ q = q';
}.

Section dex_invariant.
Context `{Primitives}.

(** A book is filed under the key of its tokens. *)
Definition keys_ok (d : DexState) : Prop :=
  ∀ k, is_initialized (books d).[k] = true →
    let b := base (books d).[k] in let q := quote (books d).[k] in
    k = compute_book_key b q ∧ addr_is_tip20 b = true ∧ addr_is_tip20 q = true.

(** The tokens' ledgers are sound, and the exchange approved nobody to spend what it holds. *)
Definition custody (w : World) : Prop := no_allowance DEX w ∧ ledgers_inv w.

Record DInv (x : DexWorld) (q : Queues) : Prop := {
  di_books : Books (dex x) q;
  di_keys : keys_ok (dex x);
  di_custody : custody (dex_world x);
  di_balances k : 0 ≤ (dex_balances (dex x)).[k];
}.

Lemma keys_ok_kept d d' :
  keys_ok d → (∀ k, base (books d').[k] = base (books d).[k] ∧ quote (books d').[k] = quote (books d).[k]) → keys_ok d'.
Proof.
  intros Hk Hsame k Hi. unfold is_initialized in Hi. destruct (Hsame k) as [Hb Hq]. rewrite Hb, Hq in *. by apply Hk.
Qed.

(** What an operation does to the margin, and that it keeps the books' tokens. *)
Record effect (x x' : DexWorld) (δ : Address → Z) : Prop := {
  ef_margin T : margin x T + δ T ≤ margin x' T;
  ef_tokens : tokens_kept (dex x) (dex x');
}.

Lemma effect_trans x1 x2 x3 δ1 δ2 δ : effect x1 x2 δ1 → effect x2 x3 δ2 → (∀ T, δ T ≤ δ1 T + δ2 T) → effect x1 x3 δ.
Proof.
  intros [M1 T1] [M2 T2] Hle. split; [|by eapply tokens_kept_trans].
  intros T. specialize (M1 T). specialize (M2 T). specialize (Hle T). lia.
Qed.

Context `{!ExchangeEnvironment}.

(** The exchange's own calls on the tokens. *)
Lemma dex_external : external DEX.
Proof. split_and!; [done|apply dex_not_tip20|done]. Qed.

Lemma own_call_ledgers t c e w l a w' l' :
  addr_is_tip20 t = true → amounts_ok c → exec_token t DEX c e (w, l) = (Ok a, (w', l')) →
  ledgers_inv w → ledgers_inv w'.
Proof.
  intros Ht Hn [Ho Heff]%exec_token_ledger HI t'. destruct (decide (t' = t)) as [->|Hne]; [|by rewrite Ho].
  by eapply (ledger_effect_inv zero_not_tip20 fee_manager_not_tip20 t DEX c e (ledger_of w t)); eauto using dex_external.
Qed.

Lemma wruns_discard {A} (m : M World A) e w w' : wruns m e w w' → ∃ l l', discard m e (w, l) = (Ok tt, (w', l')).
Proof. intros (a & l & l' & Hm). exists l, l'. unfold discard, mbind, M_bind. by rewrite Hm. Qed.

(** Internal balances and tokens: collecting from a user. *)
Lemma collected_effect x x' q u t n e :
  addr_is_tip20 t = true → DInv x q → collected u t n e x x' → 0 ≤ n → (u ≠ DEX ∨ n ≤ balance_of (dex x) u t) →
  DInv x' q ∧ effect x x' (only t n) ∧
  ∃ v, dex x' = write_dex_balance u t v (dex x).
Proof.
  intros Htip [HB Hk Ha Hb] Hcol Hn Hu. unfold collected in Hcol. cbv zeta in Hcol.
  set (b := balance_of (dex x) u t) in *.
  assert (∃ v, 0 ≤ v ∧ dex x' = write_dex_balance u t v (dex x) ∧ custody (dex_world x') ∧
    ∀ T, dex_held x' T + only t (b - v) T = dex_held x T + only t n T) as (v & Hv & Hd & Ha' & Hh).
  { destruct Hcol as [[Hle ->]|(Hlt & Hd & Hw)].
    - exists (b - n). split_and!; try done; [lia|]. intros T. unfold dex_held, only. cbn. case_match; lia.
    - destruct Hu as [Hu|Hu]; [|lia]. destruct (transfer_from_moved DEX dex_not_virtual _ _ _ _ _ _ _ Hw Hu) as (Hbal & Ho & Hno).
      exists 0. split_and!; auto; [lia|split; [apply Hno, Ha|]|].
      { destruct (wruns_discard _ _ _ _ Hw) as (l & l' & Hrun).
        eapply (own_call_ledgers t (TTransferFrom u DEX (n - b))); [done|cbn; lia|exact Hrun|apply Ha]. }
      intros T. unfold dex_held, only. destruct (Z.eqb_spec t T) as [<-|Hne].
      + rewrite Hbal. lia.
      + unfold bal. rewrite Ho by done. lia. }
  split_and!; [split| |by exists v].
  - rewrite Hd. by apply (Books_same (dex x)).
  - rewrite Hd. by apply (keys_ok_kept (dex x)).
  - done.
  - intros k. rewrite Hd. cbn. rewrite mread_insert. by case_decide.
  - split; [|rewrite Hd; done]. intros T. unfold margin. specialize (Hh T).
    unfold owed. rewrite (owed_users_write (dex x) (dex x') u t v) by (by rewrite Hd). fold b.
    rewrite (owed_orders_same (dex x) (dex x') q HB); [|by rewrite Hd|by rewrite Hd].
    unfold only in *. case_match; lia.
Qed.

Lemma paired_effect x x1 q t :
  DInv x q → paired t x x1 → addr_is_tip20 t = true → addr_is_tip20 (quote_in x t) = true →
  let k := compute_book_key t (quote_in x t) in
  DInv x1 q ∧ effect x x1 (λ _, 0) ∧ dex_world x1 = dex_world x ∧ dex_balances (dex x1) = dex_balances (dex x) ∧
  orders (dex x1) = orders (dex x) ∧ stored_next_order_id (dex x1) = stored_next_order_id (dex x) ∧
  is_initialized (books (dex x1)).[k] = true ∧ base (books (dex x1)).[k] = t ∧ quote (books (dex x1)).[k] = quote_in x t ∧
  (∀ k0 b0, is_initialized (books (dex x)).[k0] = true → side_same k0 b0 (dex x) q (dex x1) q).
Proof.
  intros HI Hp Ht Hq k. unfold paired in Hp. fold k in Hp. cbv zeta in Hp.
  destruct (is_initialized (books (dex x)).[k]) eqn:Hi.
  - subst x1. destruct (di_keys _ _ HI k Hi) as (Hk & Hb & Hqq).
    destruct (book_keys_distinct _ _ _ _ Ht Hq Hb Hqq Hk) as [E1 E2].
    split_and!; try done. split; [lia|done].
  - destruct Hp as (_ & _ & ->). destruct HI as [HB Hk Ha Hbal].
    assert (tokens_kept (dex x) (with_pair k t (quote_in x t) (dex x))) as Htk.
    { intros k' Hk'. rewrite with_pair_other; [done|]. intros ->. congruence. }
    cbn [dex dex_world]. split_and!; try done.
    + split; cbn [dex dex_world]; try done; [by apply Books_pair|].
      intros k' Hk'. destruct (decide (k' = k)) as [->|Hne].
      * rewrite with_pair_book. done.
      * rewrite with_pair_other in Hk' |- * by done. by apply Hk.
    + split; [|done]. intros T. unfold margin, owed, dex_held. cbn [dex dex_world].
      rewrite (owed_orders_same (dex x) _ q HB Htk T) by done. unfold owed_users. cbn. lia.
    + rewrite with_pair_book. unfold is_initialized. cbn. apply negb_true_iff, Z.eqb_neq. intros ->. pose proof zero_not_tip20. congruence.
    + by rewrite with_pair_book.
    + by rewrite with_pair_book.
    + intros k0 b0 Hk0. by apply side_same_pair.
Qed.

Lemma escrow_needed_new b amt tk n id sender k flip ftick :
  escrow_needed b amt tk = Some n → escrow_amount (order_new id sender k amt tk b flip ftick) = n.
Proof.
  unfold escrow_needed, escrow_amount. cbn. destruct b; [|congruence]. unfold base_to_quote.
  by intros [-> _]%try_into_Some.
Qed.

Lemma escrow_needed_nonneg b amt tk n : tick_in_bounds tk = true → 0 ≤ amt → escrow_needed b amt tk = Some n → 0 ≤ n.
Proof.
  intros Ht Ha. unfold escrow_needed, base_to_quote. destruct b; [|by intros [= <-]]. intros [-> _]%try_into_Some.
  apply div_ceil_nonneg; [done|]. pose proof (price_pos tk (bounds_i16 _ Ht)). nia.
Qed.

Lemma fresh_id x q : DInv x q → orders (dex x) !! next_order_id (dex x) = None.
Proof.
  intros HI. destruct (orders (dex x) !! next_order_id (dex x)) eqn:Ho; [|done].
  pose proof (bk_ids _ _ (di_books _ _ HI) (next_order_id (dex x)) ltac:(by eexists)). lia.
Qed.

(** The storage ready for the order: the pair exists, the escrow is in, the identifier is taken. *)
Lemma collected_ready x x1 q sender t n e :
  addr_is_tip20 t = true → DInv x q → collected sender t n e x x1 → 0 ≤ n → (sender ≠ DEX ∨ n ≤ balance_of (dex x) sender t) →
  let d := write_next_order_id (next_order_id (dex x1) + 1) (dex x1) in
  DInv (mkDexWorld (dex_world x1) d) q ∧ effect x (mkDexWorld (dex_world x1) d) (only t n) ∧
  next_order_id (dex x1) = next_order_id (dex x) ∧ books d = books (dex x) ∧ orders d = orders (dex x) ∧
  next_order_id d = next_order_id (dex x) + 1 ∧ strips d = strips (dex x).
Proof.
  intros Htip HI Hcol Hn Hu d. pose proof (fresh_id _ _ HI) as Hfr.
  destruct (collected_effect _ _ _ _ _ _ _ Htip HI Hcol Hn Hu) as ([HB Hk Ha Hb] & [Hm Htk] & v & Hv).
  assert (next_order_id (dex x1) = next_order_id (dex x)) as Hnx by (by rewrite Hv).
  assert (next_order_id d = next_order_id (dex x) + 1) as Hnd.
  { unfold d, next_order_id. cbn. rewrite Hv. cbn. lia. }
  split_and!; try done; try (unfold d; rewrite Hv; done).
  split; cbn [dex dex_world]; try done. destruct HB as [B1 B2 B3 B4]. split; try done.
  - intros k b t'. by destruct (B1 k b t').
  - intros id Hid. specialize (B4 id Hid). rewrite Hnd. lia.
Qed.

Definition placed_at (x : DexWorld) (q : Queues) (t : Address) (b : bool) (tk id : Z) : Queues :=
  let k := compute_book_key t (quote_in x t) in qset q k b tk (q k b tk ++ [id]).

(** Placing an order owes exactly the escrow it collects. *)
Lemma placed_effect x x' q sender t amt b tk flip ftick internal e id :
  DInv x q → placed sender t amt b tk flip ftick internal e x x' id → sender ≠ ZERO → (sender ≠ DEX ∨ internal = true) →
  let k := compute_book_key t (quote_in x t) in
  DInv x' (placed_at x q t b tk id) ∧ effect x x' (λ _, 0) ∧
  strips (dex x') = <[id := strip (order_new id sender k amt tk b flip ftick)]> (strips (dex x)) ∧
  id = next_order_id (dex x) ∧
  (∀ k0 b0, is_initialized (books (dex x)).[k0] = true → ¬ (k = k0 ∧ b = b0) →
     side_same k0 b0 (dex x) q (dex x') (placed_at x q t b tk id)).
Proof.
  intros HI [Htk Hamt [Ht Hqt] (x1 & n & x2 & d' & Hpair & Hn & Hcol & Hint & Hid & -> & l1 & u & l2 & Hcommit)] Hz Hs k.
  fold k in Hcommit. set (o := order_new id sender k amt tk b flip ftick) in *.
  destruct (paired_effect _ _ _ _ HI Hpair Ht Hqt) as (HI1 & Hef1 & Hw1 & Hb1 & Ho1 & Hn1 & Hi1 & Hba & Hqu & Hss1).
  fold k in Hi1, Hba, Hqu. set (et := if b then quote_in x t else t) in *.
  assert (0 ≤ amt) as Hamt0 by (unfold MIN_ORDER_AMOUNT in Hamt; lia).
  assert (addr_is_tip20 et = true) as Hte by (unfold et; by destruct b).
  destruct (collected_ready _ _ _ _ _ _ _ Hte HI1 Hcol (escrow_needed_nonneg _ _ _ _ Htk Hamt0 Hn)) as
    ([HB2 Hk2 Ha2 Hbal2] & Hef2 & Hnx2 & Hbk2 & Hor2 & Hnd2 & Hst2).
  { destruct Hs as [?|?]; [by left|right; auto]. }
  cbn [dex dex_world] in *. rewrite <- Hid in *. set (d := write_next_order_id (id + 1) (dex x2)) in *.
  assert (node k b tk id o) as Hnode.
  { split; cbn; try done; [unfold MIN_ORDER_AMOUNT in Hamt; lia|]. intros ->. by exists n. }
  assert (orders d !! id = None) as Hfresh by (rewrite Hor2, Hnx2; by eapply fresh_id).
  assert (1 ≤ id < next_order_id d) as Hidb by (rewrite Hnd2, Hnx2; unfold next_order_id; lia).
  destruct (commit_ok o e d l1 u d' l2 q) as (HB' & Hst' & Hfr & Hbal' & _ & Hqf); try done.
  { change (is_initialized (books d).[k] = true). by rewrite Hbk2. }
  change (Books d' (qset q k b tk (q k b tk ++ [id]))) in HB'. change (strips d' = <[id:=strip o]> (strips d)) in Hst'.
  change (queue_frame k b tk id d d' (q k b tk)) in Hqf. assert (tokens_kept d d') as Htok by by apply frame_tokens.
  split_and!.
  - split; cbn [dex dex_world]; try done; [|by rewrite Hbal'].
    apply (keys_ok_kept d); [done|]. intros k'. split; [apply (df_base _ _ Hfr)|apply (df_quote _ _ Hfr)].
  - apply (effect_trans x x1 _ _ (λ _, 0) _ Hef1); [|intros; lia].
    apply (effect_trans x1 (mkDexWorld (dex_world x2) d) _ (only et n) (λ T, - only et n T) _ Hef2); [|intros; lia].
    split; [|done]. intros T. unfold margin, owed, dex_held. cbn [dex dex_world].
    rewrite (owed_orders_insert d d' q HB2 Htok id (strip o) T Hst'), (strips_None d id Hfresh). cbn [from_option].
    rewrite order_owed_strip, (order_owed_kept d d' T o Htok) by (change (is_initialized (books d).[k] = true); by rewrite Hbk2).
    assert (order_owed d T o = only et n T) as ->; [|unfold owed_users; rewrite Hbal'; lia].
    unfold order_owed, only. assert (escrow_amount o = n) as -> by (by apply escrow_needed_new).
    unfold escrow_token. change (book_key o) with k. rewrite Hbk2, Hba, Hqu. done.
  - cbn [dex]. rewrite Hst', Hst2. unfold strips. by rewrite Ho1.
  - rewrite Hnx2. unfold next_order_id. by rewrite Hn1.
  - intros k0 b0 Hk0 Hne. apply (side_same_trans _ _ _ q (dex x1) q); [by apply Hss1|].
    apply (side_same_trans _ _ _ q d q); [by apply side_same_books|]. by apply (side_same_queue k0 b0 k b tk id).
Qed.

(** ** Fills *)
(** Rounding never makes the exchange pay more than it holds in escrow. *)
Lemma ceil_split a b p s : 0 < s → div_ceil ((a - b) * p) s + b * p / s ≤ div_ceil (a * p) s.
Proof.
  intros Hs. pose proof (div_ceil_spec ((a - b) * p) s Hs). pose proof (div_ceil_spec (a * p) s Hs).
  pose proof (div_floor_spec (b * p) s Hs). nia.
Qed.

Lemma taker_out_escrow o f out : taker_out o f = Some out →
  escrow_amount (set_remaining (remaining o - f) o) + out ≤ escrow_amount o.
Proof.
  unfold taker_out, escrow_amount, base_to_quote. cbn. destruct (is_bid o).
  - intros [-> _]%try_into_Some. by apply ceil_split.
  - intros [= <-]. lia.
Qed.

Lemma taker_in_nonneg o f inn : tick_in_bounds (tick o) = true → 0 ≤ f → taker_in o f = Some inn → 0 ≤ inn.
Proof.
  intros Ht Hf. unfold taker_in, base_to_quote. destruct (is_bid o); [congruence|]. intros [-> _]%try_into_Some.
  apply div_ceil_nonneg; [done|]. pose proof (price_pos _ (bounds_i16 _ Ht)). nia.
Qed.

(** The margin moves by what the taker gives and gets. *)
Definition flow (bk : Orderbook) (b : bool) (inn out : Z) (T : Address) : Z :=
  only (token_out_of bk b) out T - only (token_in_of bk b) inn T.

Lemma cursor_bounds d q k b lv o : Books d q → cursor d q k b (Some (lv, o)) →
  tick_in_bounds (tick o) = true ∧ is_initialized (books d).[k] = true.
Proof.
  intros HB (l & _ & Hq & _ & _ & Hi). split; [|done].
  apply (lr_bounds _ _ _ _ _ (bk_levels _ _ HB k b (tick o))). by rewrite Hq.
Qed.

Lemma partial_effect x x' q k b lv o f taker e l out l' :
  DInv x q → cursor (dex x) q k b (Some (lv, o)) → 0 ≤ f < remaining o →
  partial_fill_order o lv f taker e (x, l) = (Ok out, (x', l')) →
  ∃ inn, taker_in o f = Some inn ∧ taker_out o f = Some out ∧ DInv x' q ∧
    effect x x' (flow (books (dex x)).[k] b inn out) ∧
    strips (dex x') = <[order_id o := set_remaining (remaining o - f) (strip o)]> (strips (dex x)).
Proof.
  intros HI Hcur Hf Hrun. pose proof (cursor_node _ _ _ _ _ _ (di_books _ _ HI) Hcur) as Hn.
  destruct (cursor_bounds _ _ _ _ _ _ (di_books _ _ HI) Hcur) as [Ht Hi].
  pose proof Hcur as (ids & _ & _ & _ & Ho & _).
  apply partial_fill_ok in Hrun as (inn & Hin & Hout & Hw & Hd). destruct Hn as [_ Hk Hb _ _ _ _].
  rewrite Hk, Hb, (mread_lookup _ _ _ Ho) in Hd. set (d := dex x) in *. set (bk := (books d).[k]) in *.
  exists inn. split; [done|]. split; [done|]. destruct HI as [HB Hks Ha Hbal].
  assert (side_frame b (tick o) bk (books (dex x')).[k]) as Hsf.
  { rewrite Hd. cbn. rewrite mread_insert_eq. apply side_frame_level. }
  assert (dex_frame d (dex x')) as Hfr.
  { eapply frame_of_side; try (by rewrite Hd). 2: exact Hsf. intros k' Hk'. rewrite Hd. cbn. by apply mread_insert_ne. }
  destruct (reduce_ok d (dex x') q k b lv o (remaining o - f) HB Hcur ltac:(lia)) as [HB' Hst]; try (by rewrite Hd).
  { intros k' Hk'. rewrite Hd. cbn. by apply mread_insert_ne. }
  { rewrite Hd. cbn. rewrite mread_insert_eq. f_equal. f_equal. lia. }
  split_and!; [| |done].
  - split; [done| |by rewrite Hw|].
    + apply (keys_ok_kept d); [done|]. intros k'. split; [apply (df_base _ _ Hfr)|apply (df_quote _ _ Hfr)].
    + intros kk. rewrite Hd. cbn. rewrite mread_insert. case_decide; [|done].
      pose proof (taker_in_nonneg o f inn Ht ltac:(lia) Hin). unfold balance_of.
      pose proof (Hbal (maker o, token_in_of bk b)) as Hb0. fold d in Hb0. lia.
  - assert (tokens_kept d (dex x')) as Htk by (by apply frame_tokens). split; [|done].
    intros T. unfold margin, owed, dex_held. rewrite Hw. fold d.
    rewrite (owed_orders_insert d (dex x') q HB Htk (order_id o) _ T Hst), (strips_Some d _ o Ho). cbn [from_option].
    rewrite order_owed_strip, (owed_users_write d (dex x') (maker o) (token_in_of bk b) (balance_of d (maker o) (token_in_of bk b) + inn)) by (by rewrite Hd).
    pose proof (taker_out_escrow o f out Hout) as Hle.
    unfold order_owed. change (book_key (set_remaining (remaining o - f) (strip o))) with (book_key o). rewrite Hk.
    destruct (df_base _ _ Hfr k), (df_quote _ _ Hfr k). fold bk.
    unfold escrow_token. cbn [is_bid set_remaining strip set_prev set_next]. rewrite Hb, (df_base _ _ Hfr k), (df_quote _ _ Hfr k).
    change (escrow_amount (set_remaining (remaining o - f) (strip o))) with (escrow_amount (set_remaining (remaining o - f) o)).
    unfold flow, only, token_out_of. fold bk. destruct (_ =? T) eqn:E1; destruct (token_in_of bk b =? T); lia.
Qed.

(** Crediting a user: it owes more. *)
Lemma credit_effect x q u t n :
  DInv x q → 0 ≤ n →
  let x' := mkDexWorld (dex_world x) (write_dex_balance u t (balance_of (dex x) u t + n) (dex x)) in
  DInv x' q ∧ effect x x' (λ T, - only t n T).
Proof.
  intros [HB Hk Ha Hb] Hn x'. split; [split; cbn [dex dex_world x']|].
  - by apply (Books_same (dex x)).
  - by apply (keys_ok_kept (dex x)).
  - done.
  - intros k. cbn. rewrite mread_insert. case_decide; [|done]. unfold balance_of. pose proof (Hb (u, t)). lia.
  - split; [|done]. intros T. unfold margin, owed, dex_held. change (dex_world x') with (dex_world x).
    rewrite (owed_orders_same (dex x) (dex x') q HB) by done.
    rewrite (owed_users_write (dex x) (dex x') u t (balance_of (dex x) u t + n)) by done. unfold only. case_match; lia.
Qed.

Lemma flip_effect x x' q o bk e l u l' :
  is_t1c (spec e) = true → DInv x q → maker o ≠ ZERO → flip_filled o bk e (x, l) = (Ok u, (x', l')) →
  ∃ q', DInv x' q' ∧ effect x x' (λ _, 0) ∧
    ∀ k, is_initialized (books (dex x)).[k] = true → side_same k (is_bid o) (dex x) q (dex x') q'.
Proof.
  intros Hc HI Hm Hrun. apply flip_filled_ok in Hrun as [->|(id & Hpl)]; [| |done].
  - exists q. split_and!; try done. split; [lia|done].
  - destruct (placed_effect _ _ _ _ _ _ _ _ _ _ _ _ _ HI Hpl Hm ltac:(by right)) as (HI' & Hef & _ & _ & Hss).
    eexists. split_and!; [exact HI'|done|]. intros k Hk. apply Hss; [done|]. intros [_ Hb]. by destruct (is_bid o).
Qed.

(** A complete fill: the maker is paid, a flip order may appear on the other side, the order
    leaves the head of the queue. *)
Lemma fill_effect x x' q k b lv o taker e l out r l' :
  is_t1c (spec e) = true → DInv x q → cursor (dex x) q k b (Some (lv, o)) →
  fill_order k o lv taker e (x, l) = (Ok (out, r), (x', l')) →
  ∃ inn d1 q1 q', taker_in o (remaining o) = Some inn ∧ taker_out o (remaining o) = Some out ∧
    side_same k b (dex x) q d1 q1 ∧ Books d1 q1 ∧ popped d1 q1 k o (dex x') r ∧
    q' = qset q1 k b (tick o) (List.tl (q1 k b (tick o))) ∧
    DInv x' q' ∧ cursor (dex x') q' k b r ∧ effect x x' (flow (books (dex x)).[k] b inn out).
Proof.
  intros Hc HI Hcur Hrun. pose proof (cursor_node _ _ _ _ _ _ (di_books _ _ HI) Hcur) as [_ Hk Hb _ Hrem _ Hm].
  destruct (cursor_bounds _ _ _ _ _ _ (di_books _ _ HI) Hcur) as [Ht Hi].
  apply fill_order_ok in Hrun as (d0 & x2 & l1 & d3 & l2 & (l0 & Hset) & Hflip & Hpop & ->). cbv zeta in *.
  set (bk := (books (dex x)).[k]) in *.
  apply settle_fill_ok in Hset as (inn & Hin & Hout & -> & ->). rewrite Hb in *.
  set (x1 := mkDexWorld (dex_world x) (write_dex_balance (maker o) (token_in_of bk b)
    (balance_of (dex x) (maker o) (token_in_of bk b) + inn) (dex x))) in *.
  pose proof (taker_in_nonneg o (remaining o) inn Ht ltac:(lia) Hin) as Hinn.
  destruct (credit_effect x q (maker o) (token_in_of bk b) inn HI Hinn) as [HI1 Hef1]. fold x1 in HI1, Hef1.
  assert (∃ q1, DInv x2 q1 ∧ effect x1 x2 (λ _, 0) ∧ side_same k b (dex x1) q (dex x2) q1) as (q1 & HI2 & Hef2 & Hss).
  { destruct (is_flip o).
    - destruct Hflip as (? & ? & ? & Hflip). destruct (flip_effect _ _ _ _ _ _ _ _ _ Hc HI1 Hm Hflip) as (q1 & ? & ? & Hss).
      exists q1. split_and!; try done. rewrite <- Hb. by apply Hss.
    - subst x2. exists q. split_and!; try done. split; [lia|done]. }
  assert (side_same k b (dex x) q (dex x2) q1) as Hss'.
  { eapply side_same_trans; [|exact Hss]. by apply side_same_books. }
  assert (cursor (dex x2) q1 k (is_bid o) (Some (lv, o))) as Hcur2 by (rewrite Hb; by eapply side_same_cursor).
  destruct (pop_filled_ok k o lv e (dex x2) l1 r d3 l2 q1 (di_books _ _ HI2) Hcur2 Hpop) as [_ Hpopped].
  pose proof Hpopped as (HB3 & Hst & Hfr & Hbal & Hcur3). rewrite Hb in HB3, Hcur3.
  exists inn, (dex x2), q1, (qset q1 k b (tick o) (List.tl (q1 k b (tick o)))).
  split_and!; try done; [by apply di_books| |].
  - destruct HI2 as [_ Hks Ha Hb2]. split; cbn [dex dex_world]; try done; [|by rewrite Hbal].
    apply (keys_ok_kept (dex x2)); [done|]. intros k'. split; [apply (df_base _ _ Hfr)|apply (df_quote _ _ Hfr)].
  - pose proof (ef_tokens _ _ _ Hef2 k Hi) as [Eb Eq]. change (books (dex x1)).[k] with bk in Eb, Eq.
    apply (effect_trans x x1 _ _ (only (token_out_of bk b) out) _ Hef1); [|unfold flow; intros; lia].
    apply (effect_trans x1 x2 _ _ (only (token_out_of bk b) out) _ Hef2); [|intros; lia].
    split; [|by apply frame_tokens]. intros T. unfold margin, owed, dex_held. cbn [dex dex_world].
    destruct Hcur2 as (ids & _ & _ & _ & Ho2 & _).
    rewrite (owed_orders_delete (dex x2) d3 q1 (di_books _ _ HI2) (frame_tokens _ _ Hfr) _ _ T Hst (strips_Some _ _ _ Ho2)).
    unfold owed_users. rewrite Hbal, order_owed_strip.
    pose proof (taker_out_escrow o _ _ Hout) as Hle. unfold order_owed, escrow_token. rewrite Hk, Hb, Eb, Eq.
    assert (0 ≤ escrow_amount (set_remaining (remaining o - remaining o) o)) as Hz.
    { unfold escrow_amount. cbn. rewrite Z.sub_diag. by destruct (is_bid o). }
    unfold only, token_out_of. destruct ((if b then quote bk else base bk) =? T); lia.
Qed.
End dex_invariant.
