(* ===== verification/DexMatching.v ===== *)
(** * Price-time priority

    The orders of one side of a book, best price first and oldest first at a price, form a list.
    The loops over linked lists, bitmaps and best ticks fill exactly along that list
    ([match_in], [match_out]), and never give a taker more than the escrow they release. *)
From Stdlib Require Import ZArith Lia String.
From stdpp Require Import base tactics option list fin_maps gmap sets strings.
From S2P Require Import Prelude Base StorageSet AddressRegistry Keychain TIP403 TIP20Ledger TIP20 TIP20Props TIP20Admin TIP20Holdings OrderBook OrderBookProps Dex DexBooks DexFills DexSolvency.
Open Scope Z_scope.
Open Scope storage_scope.

(** ** The orders of a side in priority order *)
(** The ticks of a side, best first. *)
Definition side_ticks (b : bool) : list Z :=
  let ts := seqZ MIN_TICK (MAX_TICK - MIN_TICK + 1) in if b then reverse ts else ts.

Definition reads (d : DexState) (ids : list Z) : list Order := (λ id, (strips d).[id]) <$> ids.
Definition at_ticks (d : DexState) (q : Queues) (k : B256) (b : bool) (ts : list Z) : list Order :=
  flat_map (λ t, reads d (q k b t)) ts.
Definition side_list (d : DexState) (q : Queues) (k : B256) (b : bool) : list Order := at_ticks d q k b (side_ticks b).

Lemma side_ticks_split b t : tick_in_bounds t = true →
  ∃ ts1 ts2, side_ticks b = ts1 ++ t :: ts2 ∧ (∀ t', t' ∈ ts1 → ¬ no_better b t t') ∧ t ∉ ts1 ∧ t ∉ ts2.
Proof.
  rewrite tick_in_bounds_iff. intros Ht.
  assert (seqZ MIN_TICK (MAX_TICK - MIN_TICK + 1) = seqZ MIN_TICK (t - MIN_TICK) ++ t :: seqZ (t + 1) (MAX_TICK - t)) as Heq.
  { replace (MAX_TICK - MIN_TICK + 1) with ((t - MIN_TICK) + (MAX_TICK - t + 1)) by lia.
    rewrite seqZ_app by lia. f_equal. replace (MIN_TICK + (t - MIN_TICK)) with t by lia.
    rewrite seqZ_cons by lia. f_equal. f_equal; lia. }
  unfold side_ticks. cbv zeta. rewrite Heq. destruct b.
  - exists (reverse (seqZ (t + 1) (MAX_TICK - t))), (reverse (seqZ MIN_TICK (t - MIN_TICK))).
    rewrite reverse_app, reverse_cons, <- app_assoc. split_and!; [done|..];
      setoid_rewrite elem_of_reverse; setoid_rewrite elem_of_seqZ; unfold no_better; intros; lia.
  - eexists _, _. split_and!; [reflexivity|..]; setoid_rewrite elem_of_seqZ; unfold no_better; intros; lia.
Qed.

Lemma reads_ext d d' ids : (∀ id, id ∈ ids → strips d' !! id = strips d !! id) → reads d' ids = reads d ids.
Proof. intros Heq. apply list_fmap_ext. intros i id Hid. unfold mread. by rewrite Heq by (by eapply list_elem_of_lookup_2). Qed.

Lemma at_ticks_ext d q d' q' k b ts :
  (∀ t, t ∈ ts → q' k b t = q k b t) → (∀ t id, t ∈ ts → id ∈ q k b t → strips d' !! id = strips d !! id) →
  at_ticks d' q' k b ts = at_ticks d q k b ts.
Proof.
  intros Hq Hs. unfold at_ticks. induction ts as [|t ts IH]; cbn; [done|]. rewrite IH.
  - f_equal. rewrite Hq by left. apply reads_ext. intros id Hid. apply (Hs t); [by left|done].
  - intros t' Ht'. apply Hq. by right.
  - intros t' id Ht'. apply Hs. by right.
Qed.

Lemma at_ticks_empty d q k b ts : (∀ t, t ∈ ts → q k b t = []) → at_ticks d q k b ts = [].
Proof.
  intros Hq. unfold at_ticks. induction ts as [|t ts IH]; cbn; [done|]. rewrite Hq by left. cbn. apply IH.
  intros t' Ht'. apply Hq. by right.
Qed.

Lemma side_list_same k b d q d' q' : side_same k b d q d' q' → side_list d' q' k b = side_list d q k b.
Proof.
  intros [Hq Ho _ _ _]. apply at_ticks_ext; [done|]. intros t id _ Hid. unfold strips. by rewrite !lookup_fmap, (Ho t).
Qed.

(** The list around the taker's position. *)
Lemma cursor_split d q k b lv o : Books d q → cursor d q k b (Some (lv, o)) →
  ∃ ids ts, q k b (tick o) = order_id o :: ids ∧ tick o ∉ ts ∧
    side_list d q k b = strip o :: (reads d ids ++ at_ticks d q k b ts) ∧
    ∀ d' q', (∀ t, t ≠ tick o → q' k b t = q k b t) →
      (∀ t id, t ≠ tick o → id ∈ q k b t → strips d' !! id = strips d !! id) →
      side_list d' q' k b = reads d' (q' k b (tick o)) ++ at_ticks d q k b ts.
Proof.
  intros HB Hcur. destruct (cursor_bounds _ _ _ _ _ _ HB Hcur) as [Ht Hi].
  destruct Hcur as (ids & Hbt & Hq & _ & Ho & _).
  destruct (side_ticks_split b _ Ht) as (ts1 & ts & Hts & Hbetter & Hn1 & Hn2).
  assert (∀ t, t ∈ ts1 → q k b t = []) as Hempty.
  { intros t Hin. destruct (decide (q k b t = [])) as [|Hne]; [done|].
    destruct (bk_best _ _ HB k b Hi) as [[_ Hall]|[_ Hall]]; [by rewrite Hall|].
    destruct (Hbetter t Hin). rewrite <- Hbt. by apply Hall. }
  exists ids, ts. split; [done|]. split; [done|].
  assert (∀ d' q', (∀ t, t ≠ tick o → q' k b t = q k b t) →
      (∀ t id, t ≠ tick o → id ∈ q k b t → strips d' !! id = strips d !! id) →
      side_list d' q' k b = reads d' (q' k b (tick o)) ++ at_ticks d q k b ts) as Hgen.
  { intros d' q' Hq' Hs'. unfold side_list. rewrite Hts. unfold at_ticks at 1. rewrite flat_map_app. cbn.
    fold (at_ticks d' q' k b ts1) (at_ticks d' q' k b ts).
    rewrite at_ticks_empty; [|intros t Hin; rewrite Hq' by (by intros ->); auto]. cbn. f_equal.
    apply at_ticks_ext; [intros t Hin; apply Hq'|intros t id Hin; apply Hs']; by intros ->. }
  split; [|done]. rewrite (Hgen d q) by done. rewrite Hq. cbn. f_equal.
  unfold mread. by rewrite (strips_Some _ _ _ Ho).
Qed.

Lemma popped_list d q k o lv d' r :
  Books d q → cursor d q k (is_bid o) (Some (lv, o)) → popped d q k o d' r →
  side_list d q k (is_bid o) =
    strip o :: side_list d' (qset q k (is_bid o) (tick o) (List.tl (q k (is_bid o) (tick o)))) k (is_bid o).
Proof.
  intros HB Hcur (_ & Hst & _). set (b := is_bid o) in *.
  destruct (cursor_split _ _ _ _ _ _ HB Hcur) as (ids & ts & Hq & _ & Hlist & Hgen). rewrite Hlist. f_equal.
  assert (∀ t id, id ∈ q k b t → id ≠ order_id o → strips d' !! id = strips d !! id) as Hsame.
  { intros t id _ Hne. rewrite Hst. by apply lookup_delete_ne. }
  rewrite Hq. cbn [List.tl]. rewrite Hgen; [rewrite qset_eq; f_equal; symmetry; apply reads_ext| |].
  - intros id Hid. apply (Hsame (tick o)); [rewrite Hq; by right|].
    pose proof (lr_nodup _ _ _ _ _ (bk_levels _ _ HB k b (tick o))) as Hnd. rewrite Hq in Hnd.
    apply NoDup_cons in Hnd as [Hnin _]. by intros ->.
  - intros t Hne. apply qset_ne. naive_solver.
  - intros t id Hne Hid. apply (Hsame t); [done|]. intros ->.
    destruct (Books_unique d q k b t k b (tick o) (order_id o) HB Hid) as (_ & _ & ?); [rewrite Hq; by left|done].
Qed.

Lemma reduced_list d q k b lv o d' r :
  Books d q → cursor d q k b (Some (lv, o)) →
  strips d' = <[order_id o := set_remaining r (strip o)]> (strips d) →
  ∃ rest, side_list d q k b = strip o :: rest ∧ side_list d' q k b = set_remaining r (strip o) :: rest.
Proof.
  intros HB Hcur Hst. destruct (cursor_split _ _ _ _ _ _ HB Hcur) as (ids & ts & Hq & _ & Hlist & Hgen).
  eexists. split; [exact Hlist|]. rewrite (Hgen d' q); [|done|].
  - rewrite Hq. change (reads d' (order_id o :: ids)) with ((strips d').[order_id o] :: reads d' ids).
    rewrite (reads_ext d d'); [by rewrite Hst, mread_insert_eq|].
    intros id Hid. rewrite Hst. apply lookup_insert_ne.
    pose proof (lr_nodup _ _ _ _ _ (bk_levels _ _ HB k b (tick o))) as Hnd. rewrite Hq in Hnd.
    apply NoDup_cons in Hnd as [Hnin _]. by intros <-.
  - intros t id Hne Hid. rewrite Hst. apply lookup_insert_ne. intros <-.
    destruct (Books_unique d q k b t k b (tick o) (order_id o) HB Hid) as (_ & _ & ?); [rewrite Hq; by left|done].
Qed.

(** ** Matching along the list *)
Section matching.
Context `{Primitives}.

(** Selling [a] into a side: the orders are filled one after the other, the last one partly. *)
Fixpoint match_in (b : bool) (a total : Z) (os : list Order) : Result (Z * list Order) :=
  if negb (0 <? a) then Ok (total, os)
  else
    match os with
    | [] => Err (dex_error DEXError.InsufficientLiquidity)
    | o :: os =>
        f ← exact_in_step b a (tick o) (remaining o);
        if f <? remaining o then
          out ← ok_or (taker_out o f) under_overflow;
          Ok (total + out, set_remaining (remaining o - f) o :: os)
        else
          out ← ok_or (taker_out o (remaining o)) under_overflow;
          rest ← exact_in_rest b a (tick o) (remaining o);
          match_in b rest (total + out) os
    end.

(** Buying [a] from a side; the total is what the taker pays. *)
Fixpoint match_out (b : bool) (a total : Z) (os : list Order) : Result (Z * list Order) :=
  if negb (0 <? a) then Ok (total, os)
  else
    match os with
    | [] => Err (dex_error DEXError.InsufficientLiquidity)
    | o :: os =>
        fa ← exact_out_step b a (tick o) (remaining o);
        if fa.1 <? remaining o then Ok (total + fa.2, set_remaining (remaining o - fa.1) o :: os)
        else
          out ← ok_or (taker_out o (remaining o)) under_overflow;
          rest ← exact_out_rest b a (tick o) (remaining o) out;
          match_out b rest (total + fa.2) os
    end.

(** *** Arithmetic of an iteration *)
Lemma quote_to_base_some a t r v : I16_MIN ≤ t ≤ I16_MAX → quote_to_base a t r = Some v →
  rounded r (a * PRICE_SCALE) (tick_to_price t) v.
Proof. intros Ht Hv. pose proof (quote_to_base_rounded a t r Ht) as Hr. rewrite Hv in Hr. apply Hr. Qed.
Lemma base_to_quote_some a t r v : I16_MIN ≤ t ≤ I16_MAX → base_to_quote a t r = Some v →
  rounded r (a * tick_to_price t) PRICE_SCALE v.
Proof. intros Ht Hv. pose proof (base_to_quote_rounded a t r Ht) as Hr. rewrite Hv in Hr. apply Hr. Qed.

Lemma exact_in_step_ok o a f inn :
  tick_in_bounds (tick o) = true → 0 ≤ a → 0 < remaining o →
  exact_in_step (is_bid o) a (tick o) (remaining o) = Ok f → taker_in o f = Some inn →
  0 ≤ f ≤ remaining o ∧ inn ≤ a.
Proof.
  intros Ht%bounds_i16 Ha Hr Hs Hin. pose proof (price_pos _ Ht) as Hp. assert (0 < PRICE_SCALE) by done.
  unfold exact_in_step, taker_in in *. destruct (is_bid o); rinvs; [simplify_eq; lia|].
  apply quote_to_base_some in Hres; [|done]. apply base_to_quote_some in Hin; [|done]. cbn in *. nia.
Qed.

Lemma exact_in_rest_ok o a f inn rest :
  tick_in_bounds (tick o) = true → 0 ≤ a → 0 < remaining o →
  exact_in_step (is_bid o) a (tick o) (remaining o) = Ok f → remaining o ≤ f →
  taker_in o (remaining o) = Some inn → exact_in_rest (is_bid o) a (tick o) (remaining o) = Ok rest →
  0 ≤ rest ∧ inn + rest ≤ a.
Proof.
  intros Ht Ha Hr Hs Hf Hin Hrest.
  assert (f = remaining o) as ->.
  { unfold exact_in_step in Hs. destruct (is_bid o); rinvs; lia. }
  destruct (exact_in_step_ok o a _ inn Ht Ha Hr Hs Hin) as [_ Hle].
  unfold exact_in_rest, taker_in in *. destruct (is_bid o); rinvs; ariths; simplify_eq; lia.
Qed.

Lemma exact_out_step_ok o a f inn :
  tick_in_bounds (tick o) = true → 0 ≤ a → 0 < remaining o →
  exact_out_step (is_bid o) a (tick o) (remaining o) = Ok (f, inn) → taker_in o f = Some inn ∧ 0 ≤ f ≤ remaining o.
Proof.
  intros Ht%bounds_i16 Ha Hr Hs. pose proof (price_pos _ Ht) as Hp. assert (0 < PRICE_SCALE) by done.
  unfold exact_out_step, taker_in in *. destruct (is_bid o); rinvs; simplify_eq.
  - apply quote_to_base_some in Hres; [|done]. cbn in *. split; [done|]. nia.
  - split; [done|lia].
Qed.

Lemma exact_out_partial o a f inn out :
  tick_in_bounds (tick o) = true → 0 ≤ a → exact_out_step (is_bid o) a (tick o) (remaining o) = Ok (f, inn) →
  f < remaining o → taker_out o f = Some out → a ≤ out.
Proof.
  intros Ht%bounds_i16 Ha Hs Hlt Hout. pose proof (price_pos _ Ht) as Hp. assert (0 < PRICE_SCALE) by done.
  unfold exact_out_step, taker_out in *. destruct (is_bid o); rinvs; simplify_eq; [|lia].
  apply quote_to_base_some in Hres; [|done]. rewrite Z.min_l in Hout by lia.
  apply base_to_quote_some in Hout; [|done]. cbn in *. nia.
Qed.

Lemma exact_out_rest_ok o a f inn out rest :
  tick_in_bounds (tick o) = true → 0 ≤ a → exact_out_step (is_bid o) a (tick o) (remaining o) = Ok (f, inn) →
  remaining o ≤ f → taker_out o (remaining o) = Some out →
  exact_out_rest (is_bid o) a (tick o) (remaining o) out = Ok rest → 0 ≤ rest ∧ a ≤ out + rest.
Proof.
  intros Ht%bounds_i16 Ha Hs Hlt Hout Hrest. pose proof (price_pos _ Ht) as Hp. assert (0 < PRICE_SCALE) by done.
  unfold exact_out_step, exact_out_rest, taker_out in *. destruct (is_bid o); rinvs; ariths; bprop; simplify_eq; try lia.
  match goal with Hq : quote_to_base _ _ _ = Some ?n |- _ =>
    assert (n = remaining o) as -> by lia; apply quote_to_base_some in Hq; [|done] end.
  apply base_to_quote_some in Hout; [|done]. cbn in *. nia.
Qed.

(** ** The loops *)
Context `{!ExchangeEnvironment}.

Lemma flow_same bk bk' b inn out T : base bk' = base bk → quote bk' = quote bk → flow bk' b inn out T = flow bk b inn out T.
Proof. intros Hb Hq. unfold flow, token_in_of, token_out_of. by rewrite Hb, Hq. Qed.

(** What a taker's run establishes: the invariant, the margins, the matching. *)
Definition taken (x : DexWorld) (q : Queues) (k : B256) (b : bool) (inn out : Z) (x' : DexWorld)
    (spec : list Order → Result (Z * list Order)) (r : Z) : Prop :=
  ∃ q', DInv x' q' ∧ effect x x' (flow (books (dex x)).[k] b inn out) ∧
    spec (side_list (dex x) q k b) = Ok (r, side_list (dex x') q' k b).

(** One complete fill, as seen by the loops. *)
Lemma fill_step x q k b lv o taker e l out r x1 l1 :
  is_t1c (spec e) = true → DInv x q → cursor (dex x) q k b (Some (lv, o)) →
  fill_order k o lv taker e (x, l) = (Ok (out, r), (x1, l1)) →
  ∃ inn q1, is_bid o = b ∧ taker_in o (remaining o) = Some inn ∧ taker_out o (remaining o) = Some out ∧
    DInv x1 q1 ∧ cursor (dex x1) q1 k b r ∧ effect x x1 (flow (books (dex x)).[k] b inn out) ∧
    side_list (dex x) q k b = strip o :: side_list (dex x1) q1 k b.
Proof.
  intros Hc HI Hcur Hrun. pose proof (cursor_node _ _ _ _ _ _ (di_books _ _ HI) Hcur) as [_ _ Hb _ _ _ _].
  destruct (fill_effect _ _ _ _ _ _ _ _ _ _ _ _ _ Hc HI Hcur Hrun) as
    (inn & d1 & q1 & q' & Hin & Hout & Hss & HB1 & Hpop & -> & HI' & Hcur' & Hef).
  exists inn, (qset q1 k b (tick o) (List.tl (q1 k b (tick o)))). split_and!; try done.
  rewrite <- (side_list_same _ _ _ _ _ _ Hss). rewrite <- Hb in *.
  eapply popped_list; [done| |done]. by eapply side_same_cursor.
Qed.

(** The rest of the run after a complete fill. *)
Lemma taken_after x k b x1 q1 inn out inn' out' x' sp r :
  is_initialized (books (dex x)).[k] = true →
  effect x x1 (flow (books (dex x)).[k] b inn out) → taken x1 q1 k b inn' out' x' sp r →
  ∀ a s, inn + inn' ≤ a → s ≤ out + out' →
  ∃ q', DInv x' q' ∧ effect x x' (flow (books (dex x)).[k] b a s) ∧ sp (side_list (dex x1) q1 k b) = Ok (r, side_list (dex x') q' k b).
Proof.
  intros Hi Hef (q' & HI' & Hef' & Hsp) a s Ha Hs. exists q'. split_and!; try done.
  eapply effect_trans; [exact Hef|exact Hef'|]. destruct (ef_tokens _ _ _ Hef k Hi) as [Hb Hq].
  intros T. rewrite (flow_same _ _ _ _ _ _ Hb Hq). unfold flow, only. repeat case_match; lia.
Qed.

Lemma taken_nothing x q k b sp r : DInv x q → sp (side_list (dex x) q k b) = Ok (r, side_list (dex x) q k b) →
  taken x q k b 0 0 x sp r.
Proof.
  intros HI Hsp. exists q. split_and!; [done| |done]. split; [|done]. intros T. unfold flow, only. repeat case_match; lia.
Qed.

Lemma effect_weaken x x' bk b inn out a s :
  effect x x' (flow bk b inn out) → inn ≤ a → s ≤ out → effect x x' (flow bk b a s).
Proof.
  intros [Hm Htk] Ha Hs. split; [|done]. intros T. specialize (Hm T). unfold flow, only in *. repeat case_match; lia.
Qed.

(** The specification, order by order. *)
Lemma match_done b a total os : a = 0 → match_in b a total os = Ok (total, os) ∧ match_out b a total os = Ok (total, os).
Proof. intros ->. by destruct os. Qed.

Lemma match_in_partial b a total o os f out :
  0 < a → exact_in_step b a (tick o) (remaining o) = Ok f → f < remaining o → taker_out o f = Some out →
  match_in b a total (strip o :: os) = Ok (total + out, set_remaining (remaining o - f) (strip o) :: os).
Proof.
  intros Ha Hs Hlt Hout. cbn [match_in]. rewrite (proj2 (Z.ltb_lt 0 a) Ha). cbn [negb tick remaining strip set_prev set_next].
  rewrite Hs. cbn [mbind result_bind]. rewrite (proj2 (Z.ltb_lt _ _) Hlt).
  change (taker_out (strip o) f) with (taker_out o f). by rewrite Hout.
Qed.

Lemma match_in_full b a total o os f out rest :
  0 < a → exact_in_step b a (tick o) (remaining o) = Ok f → remaining o ≤ f → taker_out o (remaining o) = Some out →
  exact_in_rest b a (tick o) (remaining o) = Ok rest →
  match_in b a total (strip o :: os) = match_in b rest (total + out) os.
Proof.
  intros Ha Hs Hge Hout Hrest. cbn [match_in]. rewrite (proj2 (Z.ltb_lt 0 a) Ha). cbn [negb tick remaining strip set_prev set_next].
  rewrite Hs. cbn [mbind result_bind]. rewrite (proj2 (Z.ltb_ge _ _) Hge).
  change (taker_out (strip o) (remaining o)) with (taker_out o (remaining o)). rewrite Hout. cbn. by rewrite Hrest.
Qed.

Lemma match_out_partial b a total o os f inn :
  0 < a → exact_out_step b a (tick o) (remaining o) = Ok (f, inn) → f < remaining o →
  match_out b a total (strip o :: os) = Ok (total + inn, set_remaining (remaining o - f) (strip o) :: os).
Proof.
  intros Ha Hs Hlt. cbn [match_out]. rewrite (proj2 (Z.ltb_lt 0 a) Ha). cbn [negb tick remaining strip set_prev set_next].
  rewrite Hs. cbn [mbind result_bind fst snd]. by rewrite (proj2 (Z.ltb_lt _ _) Hlt).
Qed.

Lemma match_out_full b a total o os f inn out rest :
  0 < a → exact_out_step b a (tick o) (remaining o) = Ok (f, inn) → remaining o ≤ f → taker_out o (remaining o) = Some out →
  exact_out_rest b a (tick o) (remaining o) out = Ok rest →
  match_out b a total (strip o :: os) = match_out b rest (total + inn) os.
Proof.
  intros Ha Hs Hge Hout Hrest. cbn [match_out]. rewrite (proj2 (Z.ltb_lt 0 a) Ha). cbn [negb tick remaining strip set_prev set_next].
  rewrite Hs. cbn [mbind result_bind fst snd]. rewrite (proj2 (Z.ltb_ge _ _) Hge).
  change (taker_out (strip o) (remaining o)) with (taker_out o (remaining o)). rewrite Hout. cbn. by rewrite Hrest.
Qed.

Lemma exact_in_step_nonneg b a t r f : tick_in_bounds t = true → 0 ≤ a → 0 ≤ r → exact_in_step b a t r = Ok f → 0 ≤ f.
Proof.
  intros Ht%bounds_i16 Ha Hr Hs. pose proof (price_pos _ Ht). assert (0 < PRICE_SCALE) by done.
  unfold exact_in_step in Hs. destruct b; rinvs; [lia|]. apply quote_to_base_some in Hres; [|done]. cbn in Hres. nia.
Qed.

Lemma exact_in_loop_ok fuel k b taker lv o a total e x l r x' l' q :
  is_t1c (spec e) = true → DInv x q → cursor (dex x) q k b (Some (lv, o)) → 0 ≤ a →
  exact_in_loop fuel k b taker lv o a total e (x, l) = (Ok r, (x', l')) →
  taken x q k b a (r - total) x' (match_in b a total) r.
Proof.
  intros Hc. revert lv o a total x l q. induction fuel as [|fuel IH]; intros lv o a total x l q HI Hcur Ha Hrun;
    cbn [exact_in_loop] in Hrun; destruct (Z.ltb_spec 0 a) as [Hpos|Hzero]; cbn [negb] in Hrun.
  1: by apply throw_ok in Hrun.
  1,3: apply ret_ok in Hrun as [-> [= -> ->]]; assert (a = 0) as -> by lia; rewrite Z.sub_diag;
    apply taken_nothing; [done|by apply match_done].
  pose proof (cursor_node _ _ _ _ _ _ (di_books _ _ HI) Hcur) as [_ _ Hb _ Hrem _ _].
  destruct (cursor_bounds _ _ _ _ _ _ (di_books _ _ HI) Hcur) as [Ht Hi].
  apply bind_ok in Hrun as (f & st & [Hstep ->]%lift_ok & Hrun).
  destruct (Z.ltb_spec f (remaining o)) as [Hlt|Hge].
  - apply bind_ok in Hrun as (out & [x1 l1] & Hpart & Hrun). apply lift_ok in Hrun as [Hadd [= -> ->]].
    apply ok_or_ok, checked_add_Some in Hadd as [-> _].
    pose proof (exact_in_step_nonneg b a (tick o) (remaining o) f Ht Ha ltac:(lia) Hstep) as Hf.
    destruct (partial_effect _ _ _ _ _ _ _ _ _ _ _ _ _ HI Hcur (conj Hf Hlt) Hpart) as (inn & Hin & Hout & HI' & Hef & Hst).
    destruct (exact_in_step_ok o a f inn Ht Ha (proj1 Hrem) ltac:(by rewrite Hb) Hin) as [_ Hle].
    destruct (reduced_list _ _ _ _ _ _ _ _ (di_books _ _ HI) Hcur Hst) as (rest & Hl1 & Hl2).
    exists q. split_and!; [done|apply (effect_weaken _ _ _ _ _ _ _ _ Hef); lia|].
    rewrite Hl1, Hl2. by apply match_in_partial.
  - apply bind_ok in Hrun as ([out r1] & [x1 l1] & Hfill & Hrun).
    destruct (fill_step _ _ _ _ _ _ _ _ _ _ _ _ _ Hc HI Hcur Hfill) as (inn & q1 & _ & Hin & Hout & HI1 & Hcur1 & Hef & Hlist).
    apply bind_ok in Hrun as (tot & st & [Hadd ->]%lift_ok & Hrun). apply ok_or_ok, checked_add_Some in Hadd as [-> _].
    apply bind_ok in Hrun as (rest & st & [Hrest ->]%lift_ok & Hrun). cbn [fst snd] in Hrun.
    destruct (exact_in_rest_ok o a f inn rest Ht Ha (proj1 Hrem) ltac:(by rewrite Hb) Hge Hin ltac:(by rewrite Hb)) as [Hr0 Hle].
    assert (taken x1 q1 k b rest (r - (total + out)) x' (match_in b rest (total + out)) r) as Htaken.
    { destruct r1 as [[lv2 o2]|]; [by eapply IH|].
      apply bind_ok in Hrun as ([] & st & [Hz ->]%require_ok & Hrun). bprop. assert (rest = 0) as -> by lia.
      apply ret_ok in Hrun as [-> [= -> ->]]. rewrite Z.sub_diag. apply taken_nothing; [done|by apply match_done]. }
    destruct (taken_after _ _ _ _ _ _ _ _ _ _ _ _ Hi Hef Htaken a (r - total) Hle ltac:(lia)) as (q' & HI' & Hef' & Hsp).
    exists q'. by rewrite Hlist, (match_in_full b a total o _ f out rest).
Qed.

Lemma exact_out_loop_ok fuel k b taker lv o a total e x l r x' l' q :
  is_t1c (spec e) = true → DInv x q → cursor (dex x) q k b (Some (lv, o)) → 0 ≤ a →
  exact_out_loop fuel k b taker lv o a total e (x, l) = (Ok r, (x', l')) →
  taken x q k b (r - total) a x' (match_out b a total) r.
Proof.
  intros Hc. revert lv o a total x l q. induction fuel as [|fuel IH]; intros lv o a total x l q HI Hcur Ha Hrun;
    cbn [exact_out_loop] in Hrun; destruct (Z.ltb_spec 0 a) as [Hpos|Hzero]; cbn [negb] in Hrun.
  1: by apply throw_ok in Hrun.
  1,3: apply ret_ok in Hrun as [-> [= -> ->]]; assert (a = 0) as -> by lia; rewrite Z.sub_diag;
    apply taken_nothing; [done|by apply match_done].
  pose proof (cursor_node _ _ _ _ _ _ (di_books _ _ HI) Hcur) as [_ _ Hb _ Hrem _ _].
  destruct (cursor_bounds _ _ _ _ _ _ (di_books _ _ HI) Hcur) as [Ht Hi].
  apply bind_ok in Hrun as ([f inn] & st & [Hstep ->]%lift_ok & Hrun). cbn [fst snd] in Hrun.
  destruct (exact_out_step_ok o a f inn Ht Ha (proj1 Hrem) ltac:(by rewrite Hb)) as [Hin [Hf Hfr]].
  destruct (Z.ltb_spec f (remaining o)) as [Hlt|Hge].
  - apply bind_ok in Hrun as (out & [x1 l1] & Hpart & Hrun). apply lift_ok in Hrun as [Hadd [= -> ->]].
    apply ok_or_ok, checked_add_Some in Hadd as [-> _].
    destruct (partial_effect _ _ _ _ _ _ _ _ _ _ _ _ _ HI Hcur (conj Hf Hlt) Hpart) as (inn' & Hin' & Hout & HI' & Hef & Hst).
    assert (inn' = inn) as -> by congruence.
    pose proof (exact_out_partial o a f inn out Ht Ha ltac:(by rewrite Hb) Hlt Hout) as Hle.
    destruct (reduced_list _ _ _ _ _ _ _ _ (di_books _ _ HI) Hcur Hst) as (rest & Hl1 & Hl2).
    exists q. split_and!; [done|apply (effect_weaken _ _ _ _ _ _ _ _ Hef); lia|].
    rewrite Hl1, Hl2. by apply match_out_partial.
  - apply bind_ok in Hrun as ([out r1] & [x1 l1] & Hfill & Hrun).
    destruct (fill_step _ _ _ _ _ _ _ _ _ _ _ _ _ Hc HI Hcur Hfill) as (inn' & q1 & _ & Hin' & Hout & HI1 & Hcur1 & Hef & Hlist).
    assert (f = remaining o) as -> by lia. assert (inn' = inn) as -> by congruence.
    apply bind_ok in Hrun as (tot & st & [Hadd ->]%lift_ok & Hrun). apply ok_or_ok, checked_add_Some in Hadd as [-> _].
    apply bind_ok in Hrun as (rest & st & [Hrest ->]%lift_ok & Hrun). cbn [fst snd] in *.
    destruct (exact_out_rest_ok o a _ inn out rest Ht Ha ltac:(by rewrite Hb) Hge Hout ltac:(by rewrite Hb)) as [Hr0 Hle].
    assert (taken x1 q1 k b (r - (total + inn)) rest x' (match_out b rest (total + inn)) r) as Htaken.
    { destruct r1 as [[lv2 o2]|]; [by eapply IH|].
      apply bind_ok in Hrun as ([] & st & [Hz ->]%require_ok & Hrun). bprop. assert (rest = 0) as -> by lia.
      apply ret_ok in Hrun as [-> [= -> ->]]. rewrite Z.sub_diag. apply taken_nothing; [done|by apply match_done]. }
    destruct (taken_after _ _ _ _ _ _ _ _ _ _ _ _ Hi Hef Htaken (r - total) a ltac:(lia) Hle) as (q' & HI' & Hef' & Hsp).
    exists q'. by rewrite Hlist, (match_out_full b a total o _ (remaining o) inn out rest).
Qed.

(** The first order of the best level is where both loops start. *)
Lemma best_level_cursor x q k b lv :
  DInv x q → is_initialized (books (dex x)).[k] = true → get_best_price_level (dex x) k b = Ok lv →
  cursor (dex x) q k b (Some (lv, (orders (dex x)).[head lv])).
Proof.
  intros HI Hi Hlv. unfold get_best_price_level in Hlv. cbv zeta in Hlv.
  change (if b then I16_MIN else I16_MAX) with (sentinel b) in Hlv.
  destruct (Z.eqb_spec (best_tick (books (dex x)).[k] b) (sentinel b)) as [|Hne]; [done|]. injection Hlv as <-.
  apply cursor_best; [by apply di_books|done|].
  destruct (bk_best _ _ (di_books _ _ HI) k b Hi) as [[? _]|[? _]]; done.
Qed.

Lemma fill_exact_in_ok x q k b a taker e l r x' l' :
  is_t1c (spec e) = true → DInv x q → is_initialized (books (dex x)).[k] = true → 0 ≤ a →
  fill_orders_exact_in k b a taker e (x, l) = (Ok r, (x', l')) → taken x q k b a r x' (match_in b a 0) r.
Proof.
  intros Hc HI Hi Ha Hrun. unfold fill_orders_exact_in in Hrun.
  apply bind_ok in Hrun as (lv & st & [Hlv ->]%view_ok & Hrun). apply bind_ok in Hrun as (o & st & [-> ->]%gets_ok & Hrun).
  apply bind_ok in Hrun as (fuel & st & [-> ->]%gets_ok & Hrun). cbn [fst] in *.
  rewrite <- (Z.sub_0_r r) at 1. eapply exact_in_loop_ok; try done. by apply best_level_cursor.
Qed.

Lemma fill_exact_out_ok x q k b a taker e l r x' l' :
  is_t1c (spec e) = true → DInv x q → is_initialized (books (dex x)).[k] = true → 0 ≤ a →
  fill_orders_exact_out k b a taker e (x, l) = (Ok r, (x', l')) → taken x q k b r a x' (match_out b a 0) r.
Proof.
  intros Hc HI Hi Ha Hrun. unfold fill_orders_exact_out in Hrun.
  apply bind_ok in Hrun as (lv & st & [Hlv ->]%view_ok & Hrun). apply bind_ok in Hrun as (o & st & [-> ->]%gets_ok & Hrun).
  apply bind_ok in Hrun as (fuel & st & [-> ->]%gets_ok & Hrun). cbn [fst] in *.
  rewrite <- (Z.sub_0_r r) at 1. eapply exact_out_loop_ok; try done. by apply best_level_cursor.
Qed.
End matching.
