(* ===== verification/DexRoutes.v ===== *)
(** * Routes and swaps of the exchange

    A route is a chain of books from the token given to the token wanted; a swap along it
    takes its input, fills hop by hop, and pays its output, without touching what the exchange
    owes to anybody else. *)
From Stdlib Require Import ZArith Lia String.
From stdpp Require Import base tactics option list fin_maps gmap sets strings.
From S2P Require Import Prelude Base StorageSet AddressRegistry Keychain TIP403 TIP20Ledger TIP20 TIP20Props TIP20Admin TIP20Holdings OrderBook OrderBookProps Dex DexBooks DexFills DexSolvency DexMatching.
Open Scope Z_scope.
Open Scope storage_scope.

Local Notation DEX := STABLECOIN_DEX_ADDRESS.

(** ** Chains of books *)
Fixpoint chain (d : DexState) (route : list (B256 * bool)) (tin tout : Address) : Prop :=
  match route with
  | [] => tin = tout
  | (k, b) :: route =>
      is_initialized (books d).[k] = true ∧ token_in_of (books d).[k] b = tin ∧
      chain d route (token_out_of (books d).[k] b) tout
  end.

Lemma chain_app d r1 r2 tin tout : chain d (r1 ++ r2) tin tout ↔ ∃ mid, chain d r1 tin mid ∧ chain d r2 mid tout.
Proof.
  revert tin. induction r1 as [|[k b] r1 IH]; intros tin; cbn; [naive_solver|]. rewrite IH. naive_solver.
Qed.

Lemma chain_kept d d' r tin tout : tokens_kept d d' → chain d r tin tout → chain d' r tin tout.
Proof.
  intros Hk. revert tin. induction r as [|[k b] r IH]; intros tin; cbn; [done|]. intros (Hi & Hin & Hr).
  destruct (Hk k Hi) as [Hb Hq]. split_and!; [by eapply tokens_kept_init|..];
    unfold token_in_of, token_out_of in *; rewrite ?Hb, ?Hq; auto.
Qed.

(** ** Finding a route *)
Section routes.
Context `{Primitives, !ExchangeEnvironment}.

Lemma build_hop_ok e x tin tout k b :
  keys_ok (dex x) → addr_is_tip20 tout = true → build_hop e x tin tout = Ok (k, b) →
  addr_is_tip20 tin = true ∧ chain (dex x) [(k, b)] tin tout.
Proof.
  intros Hks Hout Hrun. unfold build_hop in Hrun.
  apply result_bind_ok in Hrun as (self & [-> Hin]%from_address_ok & Hrun). split; [done|].
  apply result_bind_ok in Hrun as (u & _ & Hrun). apply result_bind_ok in Hrun as ([bt qt] & Hbq & Hrun).
  apply result_bind_ok in Hrun as (u' & Hinit%ensure_ok & Hrun). injection Hrun as <- <-.
  set (bk := (books (dex x)).[compute_book_key bt qt]) in *.
  assert (is_initialized bk = true) as Hi by exact Hinit.
  destruct (Hks _ Hi) as (Hkey & Hb & Hq). fold bk in Hkey, Hb, Hq.
  assert ((bt = tin ∧ qt = tout) ∨ (bt = tout ∧ qt = tin)) as Hor.
  { destruct (_ =? tout); [injection Hbq as <- <-; auto|]. apply result_bind_ok in Hbq as (oq & _ & Hbq).
    destruct (_ =? _); [|done]. injection Hbq as <- <-. auto. }
  destruct (book_keys_distinct bt qt (base bk) (quote bk)) as [E1 E2]; try done; try (by destruct Hor as [[-> ->]|[-> ->]]).
  cbn. fold bk. split; [done|]. unfold token_in_of, token_out_of. rewrite <- E1, <- E2.
  destruct Hor as [[-> ->]|[-> ->]]; [by rewrite Z.eqb_refl|]. by destruct (Z.eqb_spec tin tout) as [->|].
Qed.

Lemma validate_route_ok e x path route d :
  keys_ok (dex x) → addr_is_tip20 (List.last path d) = true → path ≠ [] →
  validate_and_build_route e x path = Ok route → chain (dex x) route (List.hd d path) (List.last path d).
Proof.
  intros Hks. revert route. induction path as [|a [|b path] IH]; intros route Hlast Hne Hrun; [done|by injection Hrun as <-|].
  cbn [validate_and_build_route] in Hrun. apply result_bind_ok in Hrun as ([k c] & Hhop & Hrun).
  apply result_bind_ok in Hrun as (r & Hr & Hrun). injection Hrun as <-.
  change (List.last (a :: b :: path) d) with (List.last (b :: path) d) in *.
  specialize (IH r Hlast ltac:(done) Hr).
  assert (addr_is_tip20 b = true) as Hb.
  { destruct path as [|c' path]; [done|]. cbn [validate_and_build_route] in Hr. apply result_bind_ok in Hr as (h & Hh & _).
    unfold build_hop in Hh. by apply result_bind_ok in Hh as (s & [-> ?]%from_address_ok & _). }
  destruct (build_hop_ok _ _ _ _ _ _ Hks Hb Hhop) as [_ Hc]. apply (chain_app _ [(k, c)] r). by exists b.
Qed.

Lemma path_to_root_hd fuel w t p d : path_to_root fuel w t = Ok p → List.hd d p = t ∧ p ≠ [].
Proof. destruct fuel; cbn; destruct (t =? PATH_USD_ADDRESS); intros; rinvs; done. Qed.

Lemma take_until_ends a l d : a ∈ l → List.hd d (take_until a l) = List.hd d l ∧ List.last (take_until a l) d = a ∧ take_until a l ≠ [].
Proof.
  induction l as [|b l IH]; [by intros ?%elem_of_nil|]. cbn [take_until].
  destruct (Z.eqb_spec b a) as [->|Hne]; [done|]. intros [->|Hin]%elem_of_cons; [done|].
  destruct (IH Hin) as (_ & Hl & Hn). split_and!; [done| |done]. destruct (take_until a l) eqn:Heq; [done|]. exact Hl.
Qed.

Lemma take_before_hd a l d : take_before a l = [] ∧ (l = [] ∨ List.hd d l = a) ∨
  ∃ r, take_before a l = List.hd d l :: r.
Proof. destruct l as [|b l]; cbn; [auto|]. destruct (Z.eqb_spec b a); [auto|]. right. by eexists. Qed.

Lemma find_trade_path_ok e x tin tout route :
  keys_ok (dex x) → find_trade_path e x tin tout = Ok route →
  addr_is_tip20 tin = true ∧ addr_is_tip20 tout = true ∧ chain (dex x) route tin tout.
Proof.
  intros Hks Hrun. unfold find_trade_path in Hrun.
  apply result_bind_ok in Hrun as (u & _ & Hrun). apply result_bind_ok in Hrun as (u' & Htip%ensure_ok & Hrun).
  assert (addr_is_tip20 tin = true ∧ addr_is_tip20 tout = true) as [Hin Hout].
  { destruct (addr_is_tip20 tin), (addr_is_tip20 tout); done. }
  split; [done|]. split; [done|].
  apply result_bind_ok in Hrun as (qi & _ & Hrun). apply result_bind_ok in Hrun as (qo & _ & Hrun).
  destruct ((qi =? tout) || (qo =? tin)); [by apply (validate_route_ok e x [tin; tout] route tin)|].
  apply result_bind_ok in Hrun as (pin & Hpin & Hrun). apply result_bind_ok in Hrun as (pout & Hpout & Hrun).
  apply result_bind_ok in Hrun as (lca & Hlca%ok_or_ok & Hrun).
  apply List.find_some in Hlca as [Hl1%list_elem_of_In Hl2%bool_decide_eq_true].
  destruct (path_to_root_hd _ _ _ _ tin Hpin) as [Hh _]. destruct (path_to_root_hd _ _ _ _ tin Hpout) as [Ho Hno].
  destruct (take_until_ends lca pin tin Hl1) as (Hhd & Hlast & Hne).
  set (path := take_until lca pin ++ reverse (take_before lca pout)) in *.
  assert (List.hd tin path = tin) as Ehd.
  { unfold path. rewrite hd_app. destruct (take_until lca pin) eqn:E; [done|]. cbn in *. congruence. }
  assert (List.last path tin = tout) as Elast.
  { unfold path. rewrite last_app_default, Hlast. destruct (take_before_hd lca pout tin) as [[-> [?|Hl]]|[r Hr]].
    - done.
    - cbn. congruence.
    - rewrite Hr, reverse_cons, last_snoc_default. done. }
  rewrite <- Ehd at 1. rewrite <- Elast. eapply (validate_route_ok e x path route tin); rewrite ?Elast; try done.
  unfold path. by destruct (take_until lca pin).
Qed.

(** ** Amounts along a side *)
Definition on_side (b : bool) (o : Order) : Prop := is_bid o = b ∧ tick_in_bounds (tick o) = true ∧ 0 < remaining o.

Lemma side_list_orders d q k b : Books d q → Forall (on_side b) (side_list d q k b).
Proof.
  intros HB. apply Forall_forall. intros s. unfold side_list, at_ticks. rewrite list_elem_of_In, in_flat_map.
  intros (t & _ & Hs). apply list_elem_of_In in Hs. unfold reads in Hs. apply list_elem_of_fmap in Hs as (id & -> & Hid).
  destruct (Books_strip _ _ _ _ _ _ HB Hid) as (o & Ho & [? ? Hb Ht Hr _ _]).
  rewrite (mread_lookup _ _ _ (strips_Some _ _ _ Ho)). split_and!; [done| |apply Hr].
  change (tick (strip o)) with (tick o). rewrite Ht.
  apply (lr_bounds _ _ _ _ _ (bk_levels _ _ HB k b t)). intros Hn. rewrite Hn in Hid. by apply elem_of_nil in Hid.
Qed.

Lemma taker_out_nonneg o f out : tick_in_bounds (tick o) = true → 0 ≤ f → taker_out o f = Some out → 0 ≤ out.
Proof.
  intros Ht%bounds_i16 Hf. pose proof (price_pos _ Ht). unfold taker_out. destruct (is_bid o); [|congruence].
  unfold base_to_quote. intros [-> _]%try_into_Some. apply Z.div_pos; [nia|done].
Qed.

Lemma match_in_total b a total os r os' : Forall (on_side b) os → match_in b a total os = Ok (r, os') → total ≤ r.
Proof.
  intros Hf. revert a total. induction Hf as [|o os (Hb & Ht & Hr) _ IH]; intros a total; cbn [match_in];
    destruct (Z.ltb_spec 0 a); cbn [negb]; intros Hm; try done; try (injection Hm as <- _; lia).
  apply result_bind_ok in Hm as (f & Hs & Hm). destruct (Z.ltb_spec f (remaining o)).
  - apply result_bind_ok in Hm as (out & Hout%ok_or_ok & Hm). injection Hm as <- _.
    pose proof (exact_in_step_nonneg b a (tick o) (remaining o) f Ht ltac:(lia) ltac:(lia) Hs) as Hf0.
    pose proof (taker_out_nonneg o f out Ht Hf0 Hout). lia.
  - apply result_bind_ok in Hm as (out & Hout%ok_or_ok & Hm). apply result_bind_ok in Hm as (rest & _ & Hm).
    pose proof (taker_out_nonneg o (remaining o) out Ht ltac:(lia) Hout). apply IH in Hm. lia.
Qed.

Lemma match_out_total b a total os r os' : Forall (on_side b) os → match_out b a total os = Ok (r, os') → total ≤ r.
Proof.
  intros Hf. revert a total. induction Hf as [|o os (Hb & Ht & Hr) _ IH]; intros a total; cbn [match_out];
    destruct (Z.ltb_spec 0 a); cbn [negb]; intros Hm; try done; try (injection Hm as <- _; lia).
  apply result_bind_ok in Hm as ([f inn] & Hs & Hm). cbn [fst snd] in Hm.
  destruct (exact_out_step_ok o a f inn Ht ltac:(lia) Hr ltac:(by rewrite Hb)) as [Hin Hf0].
  pose proof (taker_in_nonneg o f inn Ht ltac:(lia) Hin). destruct (Z.ltb_spec f (remaining o)).
  - injection Hm as <- _. lia.
  - apply result_bind_ok in Hm as (out & _ & Hm). apply result_bind_ok in Hm as (rest & _ & Hm). apply IH in Hm. lia.
Qed.

(** ** Swaps along a chain *)
Lemma swap_hops_in_ok route tin tout a taker e x l r x' l' q :
  is_t1c (spec e) = true → DInv x q → chain (dex x) route tin tout → 0 ≤ a →
  swap_hops_in route a taker e (x, l) = (Ok r, (x', l')) →
  ∃ q', DInv x' q' ∧ effect x x' (λ T, only tout r T - only tin a T) ∧ 0 ≤ r.
Proof.
  intros Hc. revert tin a x l q. induction route as [|[k b] route IH]; intros tin a x l q HI Hch Ha Hrun; cbn in Hch, Hrun.
  - apply ret_ok in Hrun as [-> [= -> ->]]. subst. exists q. split_and!; try done. split; [intros; lia|done].
  - destruct Hch as (Hi & Hin & Hch). apply bind_ok in Hrun as (a1 & [x1 l1] & Hfill & Hrun).
    destruct (fill_exact_in_ok _ _ _ _ _ _ _ _ _ _ _ Hc HI Hi Ha Hfill) as (q1 & HI1 & Hef & Hm).
    apply match_in_total in Hm; [|apply side_list_orders, HI].
    destruct (IH _ _ _ _ _ HI1 (chain_kept _ _ _ _ _ (ef_tokens _ _ _ Hef) Hch) Hm Hrun) as (q' & HI' & Hef' & Hr).
    exists q'. split_and!; try done. eapply effect_trans; [exact Hef|exact Hef'|]. intros T. unfold flow. rewrite Hin. lia.
Qed.

Lemma swap_hops_out_ok route tin tout a taker e x l r x' l' q :
  is_t1c (spec e) = true → DInv x q → chain (dex x) (reverse route) tin tout → 0 ≤ a →
  swap_hops_out route a taker e (x, l) = (Ok r, (x', l')) →
  ∃ q', DInv x' q' ∧ effect x x' (λ T, only tout a T - only tin r T) ∧ 0 ≤ r.
Proof.
  intros Hc. revert tout a x l q. induction route as [|[k b] route IH]; intros tout a x l q HI Hch Ha Hrun; cbn [swap_hops_out] in Hrun.
  - apply ret_ok in Hrun as [-> [= -> ->]]. cbn in Hch. subst. exists q. split_and!; try done. split; [intros; lia|done].
  - rewrite reverse_cons in Hch. apply chain_app in Hch as (mid & Hch & Hi & Hin & Hout). cbn in Hout.
    apply bind_ok in Hrun as (a1 & [x1 l1] & Hfill & Hrun).
    destruct (fill_exact_out_ok _ _ _ _ _ _ _ _ _ _ _ Hc HI Hi Ha Hfill) as (q1 & HI1 & Hef & Hm).
    apply match_out_total in Hm; [|apply side_list_orders, HI].
    destruct (IH _ _ _ _ _ HI1 (chain_kept _ _ _ _ _ (ef_tokens _ _ _ Hef) Hch) Hm Hrun) as (q' & HI' & Hef' & Hr).
    exists q'. split_and!; try done. eapply effect_trans; [exact Hef|exact Hef'|]. intros T. unfold flow.
    rewrite Hin, Hout. lia.
Qed.

(** Paying out of the exchange. *)
Lemma dex_transfer_effect t to n e x l u x' l' q :
  DInv x q → 0 ≤ n → dex_transfer t to n e (x, l) = (Ok u, (x', l')) →
  DInv x' q ∧ effect x x' (λ T, - only t n T) ∧ dex x' = dex x.
Proof.
  intros [HB Hk [Hno HL] Hb] Hn Hrun. unfold dex_transfer in Hrun.
  apply bind_ok in Hrun as (self & st & [[-> Ht]%from_address_ok ->]%lift_ok & Hrun).
  apply bind_ok in Hrun as (ok & [x1 l1] & (w & Hw & ->)%in_world_ok & Hrun). apply ret_ok in Hrun as [_ [= -> ->]].
  assert (wruns (transfer t DEX to n) e (dex_world x) w) as Hwr by (by do 3 eexists).
  destruct (bal_out DEX _ _ _ _ _ _ Hwr Hn) as [Hbal Hal]. destruct (wruns_discard _ _ _ _ Hwr) as (? & ? & Hd).
  split_and!; [split; cbn; try done; split; [by apply Hal|]| |done].
  - by eapply (own_call_ledgers t (TTransfer to n)).
  - split; [|done]. intros T. specialize (Hbal T). unfold margin, dex_held, only. cbn [dex dex_world]. lia.
Qed.

Lemma swap_in_effect sender tin tout n mn e x l r x' l' q :
  is_t1c (spec e) = true → DInv x q → sender ≠ DEX → 0 ≤ n →
  swap_exact_amount_in sender tin tout n mn e (x, l) = (Ok r, (x', l')) →
  ∃ q', DInv x' q' ∧ effect x x' (λ _, 0) ∧ mn ≤ r.
Proof.
  intros Hc HI Hs Hn Hrun. unfold swap_exact_amount_in in Hrun.
  apply bind_ok in Hrun as (route & st & [Hpath ->]%view_ok & Hrun). cbn [fst] in Hpath.
  apply (find_trade_path_ok e x) in Hpath as (_ & _ & Hch); [|apply HI].
  apply bind_ok in Hrun as (u & [x1 l1] & [Ht Hcol]%decrement_ok & Hrun).
  destruct (collected_effect _ _ _ _ _ _ _ Ht HI Hcol Hn ltac:(by left)) as (HI1 & Hef1 & _).
  apply bind_ok in Hrun as (a & [x2 l2] & Hhops & Hrun).
  destruct (swap_hops_in_ok _ _ _ _ _ _ _ _ _ _ _ _ Hc HI1 (chain_kept _ _ _ _ _ (ef_tokens _ _ _ Hef1) Hch) Hn Hhops)
    as (q2 & HI2 & Hef2 & Ha).
  apply bind_ok in Hrun as (u2 & st & [Hmin ->]%require_ok & Hrun). bprop.
  apply bind_ok in Hrun as (u3 & [x3 l3] & Hpay & Hrun). apply ret_ok in Hrun as [-> [= -> ->]].
  destruct (dex_transfer_effect _ _ _ _ _ _ _ _ _ _ HI2 Ha Hpay) as (HI3 & Hef3 & _).
  exists q2. split_and!; [done| |done]. apply (effect_trans x x1 x3 _ (λ T, - only tin n T) _ Hef1); [|intros; lia].
  apply (effect_trans _ _ _ _ _ _ Hef2 Hef3). intros. lia.
Qed.

Lemma swap_out_effect sender tin tout n mx e x l r x' l' q :
  is_t1c (spec e) = true → DInv x q → sender ≠ DEX → 0 ≤ n →
  swap_exact_amount_out sender tin tout n mx e (x, l) = (Ok r, (x', l')) →
  ∃ q', DInv x' q' ∧ effect x x' (λ _, 0) ∧ r ≤ mx.
Proof.
  intros Hc HI Hs Hn Hrun. unfold swap_exact_amount_out in Hrun.
  apply bind_ok in Hrun as (route & st & [Hpath ->]%view_ok & Hrun). cbn [fst] in Hpath.
  apply (find_trade_path_ok e x) in Hpath as (_ & _ & Hch); [|apply HI].
  apply bind_ok in Hrun as (a & [x1 l1] & Hhops & Hrun).
  destruct (swap_hops_out_ok (reverse route) tin tout n sender e x l a x1 l1 q) as (q1 & HI1 & Hef1 & Ha); try done.
  { by rewrite reverse_involutive. }
  apply bind_ok in Hrun as (u2 & st & [Hmax ->]%require_ok & Hrun). bprop.
  apply bind_ok in Hrun as (u & [x2 l2] & [Ht Hcol]%decrement_ok & Hrun).
  destruct (collected_effect _ _ _ _ _ _ _ Ht HI1 Hcol Ha ltac:(by left)) as (HI2 & Hef2 & _).
  apply bind_ok in Hrun as (u3 & [x3 l3] & Hpay & Hrun). apply ret_ok in Hrun as [-> [= -> ->]].
  destruct (dex_transfer_effect _ _ _ _ _ _ _ _ _ _ HI2 Hn Hpay) as (HI3 & Hef3 & _).
  exists q1. split_and!; [done| |done]. apply (effect_trans x x1 x3 _ (λ T, only tin a T - only tout n T) _ Hef1); [|intros; lia].
  apply (effect_trans _ _ _ _ _ _ Hef2 Hef3). intros. lia.
Qed.
End routes.
