(* ===== verification/DexHistory.v ===== *)
(** * Histories of the exchange

    Any sequence of successful calls of users, on the tokens and on the exchange, from the
    empty state: the books stay well formed, and the exchange holds what it owes. *)
From Stdlib Require Import ZArith Lia String.
From stdpp Require Import base tactics option list fin_maps gmap sets strings.
From S2P Require Import Prelude Base StorageSet AddressRegistry Keychain TIP403 TIP20Ledger TIP20 TIP20Props TIP20Admin TIP20Holdings OrderBook OrderBookProps Dex DexBooks DexFills DexSolvency DexMatching DexRoutes.
Open Scope Z_scope.
Open Scope storage_scope.

Local Notation DEX := STABLECOIN_DEX_ADDRESS.

(** ** The queues, read off the storage *)
(** Following the [next] links from [id]. *)
Fixpoint walk (fuel : nat) (os : gmap Z Order) (id : Z) : list Z :=
  match fuel with
  | O => []
  | S fuel => if id =? 0 then [] else id :: walk fuel os (next os.[id])
  end.

(** The orders waiting at a tick, oldest first. *)
Definition queues (d : DexState) : Queues := λ k b t, walk (size (orders d)) (orders d) (head (level_of d k b t)).
(** The orders of a side, best price first, oldest first at a price. *)
Definition side (d : DexState) (k : B256) (b : bool) : list Order := side_list d (queues d) k b.

Lemma walk_seg fuel os p l : seg os p 0 l → 0 ∉ l → (length l ≤ fuel)%nat → walk fuel os (List.hd 0 l) = l.
Proof.
  revert fuel p. induction l as [|id l IH]; intros fuel p Hs H0 Hf; [by destruct fuel|].
  destruct fuel as [|fuel]; [cbn in Hf; lia|]. apply not_elem_of_cons in H0 as [Hid H0]. cbn [walk List.hd].
  rewrite (proj2 (Z.eqb_neq id 0)) by done. destruct Hs as [(o & Ho & _ & Hn) Hs]. f_equal.
  rewrite (mread_lookup _ _ _ Ho), Hn. eapply IH; [exact Hs|done|]. cbn in Hf. lia.
Qed.

Lemma ids_bounded (os : gmap Z Order) l : NoDup l → (∀ id, id ∈ l → is_Some (os !! id)) → (length l ≤ size os)%nat.
Proof.
  intros Hnd Hin. rewrite <- (size_list_to_set (C := gset Z) l Hnd), <- (size_dom (D := gset Z) os).
  apply subseteq_size. intros id Hid%elem_of_list_to_set. apply elem_of_dom. auto.
Qed.

Lemma queues_unique d q k b t : Books d q → q k b t = queues d k b t.
Proof.
  intros HB. pose proof (bk_levels _ _ HB k b t) as HL. unfold queues. rewrite (lr_head _ _ _ _ _ HL). symmetry.
  eapply walk_seg; [apply HL|by apply (queue_no_zero d q)|].
  apply ids_bounded; [apply HL|]. intros id Hid. destruct (Books_strip _ _ _ _ _ _ HB Hid) as (o & Ho & _). by eexists.
Qed.

Lemma Books_queues d q : Books d q → Books d (queues d).
Proof.
  intros HB. pose proof (λ k b t, queues_unique d q k b t HB) as Hq. destruct HB as [B1 B2 B3 B4]. split; try done.
  - intros k b t. rewrite <- Hq. done.
  - intros k b Hi. eapply best_ok_ext; [|by apply B2]. intros t. by rewrite Hq.
  - intros id o Ho. rewrite <- Hq. auto.
Qed.

Lemma side_queues d q k b : Books d q → side_list d q k b = side d k b.
Proof. intros HB. symmetry. apply at_ticks_ext; [|done]. intros t _. by rewrite (queues_unique d q). Qed.

(** ** Calls *)
Inductive DexCall :=
| DWorld (c : WorldCall)
| DInitialize
| DCreatePair (t : Address)
| DPlace (sender t : Address) (amt : Z) (bid : bool) (tk : Z)
| DPlaceFlip (sender t : Address) (amt : Z) (bid : bool) (tk ftick : Z)
| DCancel (sender : Address) (id : Z)
| DCancelStale (id : Z)
| DWithdraw (user t : Address) (n : Z)
| DSwapIn (sender tin tout : Address) (n minimum : Z)
| DSwapOut (sender tin tout : Address) (n maximum : Z).

Section history.
Context `{Primitives}.

Definition exec_dex (c : DexCall) : M DexWorld unit :=
  match c with
  | DWorld c => in_world (exec_world c)
  | DInitialize => dex_initialize
  | DCreatePair t => create_pair t;; mret tt
  | DPlace s t amt b tk => place s t amt b tk;; mret tt
  | DPlaceFlip s t amt b tk ftick => place_flip s t amt b tk ftick false;; mret tt
  | DCancel s id => cancel s id
  | DCancelStale id => cancel_stale_order id
  | DWithdraw u t n => withdraw u t n
  | DSwapIn s tin tout n m => swap_exact_amount_in s tin tout n m;; mret tt
  | DSwapOut s tin tout n m => swap_exact_amount_out s tin tout n m;; mret tt
  end.

(** A user of the exchange is neither the zero address nor the exchange. *)
Definition dex_user (a : Address) : Prop := a ≠ ZERO ∧ a ≠ DEX.

(** Calls of users, with unsigned amounts. *)
Definition dex_call_ok (x : DexWorld) (c : DexCall) : Prop :=
  match c with
  | DWorld c => call_ok (dex_world x) c ∧ user_world_call c ∧ not_by DEX c
  | DPlace s _ _ _ _ | DPlaceFlip s _ _ _ _ _ => dex_user s
  | DWithdraw _ _ n => 0 ≤ n
  | DSwapIn s _ _ n _ | DSwapOut s _ _ n _ => dex_user s ∧ 0 ≤ n
  | _ => True
  end.

(** States reached by successful calls from hard fork T1C on (failed calls are reverted). *)
Inductive dex_reach : DexWorld → Prop :=
| DReach_init : dex_reach dex_world_empty
| DReach_next x x' e c l l' u :
    dex_reach x → is_t1c (spec e) = true → dex_call_ok x c → exec_dex c e (x, l) = (Ok u, (x', l')) → dex_reach x'.

Context `{!ExchangeEnvironment}.

Lemma effect_none x : effect x x (λ _, 0).
Proof. split; [intros; lia|done]. Qed.

(** ** The remaining operations *)
Lemma world_effect x q c e l u x' l' :
  DInv x q → dex_call_ok x (DWorld c) → exec_dex (DWorld c) e (x, l) = (Ok u, (x', l')) → DInv x' q ∧ effect x x' (λ _, 0).
Proof.
  intros [HB Hk [Hno HL] Hb] (Hok & Hu & Hby) (w & Hw & ->)%in_world_ok.
  destruct (user_world_step DEX ltac:(by right) dex_not_tip20 dex_signs_nothing _ _ _ _ _ _ _ Hok Hu Hby Hno Hw) as [Hbal Hno'].
  destruct (world_step_inv zero_not_tip20 fee_manager_not_tip20 _ _ _ _ _ _ _ Hok Hw HL) as [HL' _].
  split; [split; try done; by split|]. split; [|done]. intros T. specialize (Hbal T). unfold margin, dex_held. cbn. lia.
Qed.

Lemma create_pair_effect t e x l k x' l' q :
  DInv x q → create_pair t e (x, l) = (Ok k, (x', l')) → DInv x' q ∧ effect x x' (λ _, 0).
Proof.
  intros HI (-> & Ht & Hq & Hi & ->)%create_pair_ok.
  destruct (paired_effect x (mkDexWorld (dex_world x) (with_pair (compute_book_key t (quote_in x t)) t (quote_in x t) (dex x))) q t)
    as (? & ? & _); try done.
  unfold paired. cbv zeta. by rewrite Hi.
Qed.

Lemma escrow_nonneg o : tick_in_bounds (tick o) = true → 0 < remaining o → 0 ≤ escrow_amount o.
Proof.
  intros Ht%bounds_i16 Hr. unfold escrow_amount. destruct (is_bid o); [|lia].
  apply div_ceil_nonneg; [done|]. pose proof (price_pos _ Ht). nia.
Qed.

(** An open order has an escrow, a tick in range and an initialized book. *)
Lemma order_facts d q id o : Books d q → orders d !! id = Some o →
  node (book_key o) (is_bid o) (tick o) id o ∧ tick_in_bounds (tick o) = true ∧ is_initialized (books d).[book_key o] = true.
Proof.
  intros HB Ho. pose proof (bk_complete _ _ HB _ _ Ho) as Hin. split; [by eapply queue_lookup|].
  apply (lr_bounds _ _ _ _ _ (bk_levels _ _ HB (book_key o) (is_bid o) (tick o))). intros Hn. rewrite Hn in Hin.
  by apply elem_of_nil in Hin.
Qed.

Lemma cancelled_effect x q o d' q' :
  DInv x q → orders (dex x) !! order_id o = Some o → cancelled (dex x) q o d' q' →
  DInv (mkDexWorld (dex_world x) d') q' ∧ effect x (mkDexWorld (dex_world x) d') (λ _, 0).
Proof.
  intros [HB Hk Ha Hb] Ho [HB' _ Hst Hfr (n & Hn & Hbal)]. cbv zeta in Hbal.
  destruct (order_facts _ _ _ _ HB Ho) as ([_ _ _ _ Hr _ _] & Ht & Hi).
  apply refund_escrow in Hn as ->. pose proof (escrow_nonneg o Ht ltac:(lia)) as Hn.
  split; [split; cbn [dex dex_world]; try done|split; [|by apply frame_tokens]].
  - apply (keys_ok_kept (dex x)); [done|]. intros k. split; [apply (df_base _ _ Hfr)|apply (df_quote _ _ Hfr)].
  - intros k. rewrite Hbal, mread_insert. case_decide; [|done]. unfold balance_of.
    pose proof (Hb (maker o, escrow_token (books (dex x)).[book_key o] o)). lia.
  - intros T. unfold margin, owed, dex_held. cbn [dex dex_world].
    rewrite (owed_orders_delete (dex x) d' q HB (frame_tokens _ _ Hfr) _ _ T Hst (strips_Some _ _ _ Ho)).
    rewrite (owed_users_write (dex x) d' _ _ _ T Hbal), order_owed_strip. unfold order_owed, only. case_match; lia.
Qed.

(** A stored order is the one its identifier names. *)
Lemma read_order d q id : Books d q → maker (orders d).[id] ≠ ZERO →
  orders d !! order_id (orders d).[id] = Some (orders d).[id].
Proof.
  intros HB Hm. destruct (orders d !! id) as [o|] eqn:Ho.
  - rewrite (mread_lookup _ _ _ Ho). destruct (order_facts _ _ _ _ HB Ho) as ([-> _ _ _ _ _ _] & _). done.
  - unfold mread in Hm. by rewrite Ho in Hm.
Qed.

Lemma cancel_active_effect o e x l u x' l' q :
  DInv x q → orders (dex x) !! order_id o = Some o → in_dex (cancel_active_order o) e (x, l) = (Ok u, (x', l')) →
  ∃ q', DInv x' q' ∧ effect x x' (λ _, 0).
Proof.
  intros HI Ho (d' & Hc & ->)%in_dex_ok. apply (cancel_ok _ _ _ _ _ _ _ q) in Hc as (q' & Hc); [|apply HI|done].
  exists q'. by eapply cancelled_effect.
Qed.

Lemma withdraw_effect u t n e x l v x' l' q :
  DInv x q → 0 ≤ n → withdraw u t n e (x, l) = (Ok v, (x', l')) → DInv x' q ∧ effect x x' (λ _, 0).
Proof.
  intros HI Hn Hrun. unfold withdraw in Hrun. apply bind_ok in Hrun as (b & st & [-> ->]%gets_ok & Hrun).
  apply bind_ok in Hrun as (v1 & st & [Hle ->]%require_ok & Hrun). bprop. cbn [fst] in Hle.
  apply bind_ok in Hrun as (v2 & [x1 l1] & (d & (_ & _ & ->)%sub_balance_ok & ->)%in_dex_ok & Hrun).
  set (x1 := mkDexWorld (dex_world x) _) in Hrun.
  assert (DInv x1 q ∧ effect x x1 (only t n)) as [HI1 Hef1].
  { destruct HI as [HB Hk Ha Hb]. split; [split; cbn [dex dex_world x1]; try done|].
    - by apply (Books_same (dex x)).
    - intros k. cbn. rewrite mread_insert. case_decide; [lia|done].
    - split; [|done]. intros T. unfold margin, owed, dex_held. change (dex_world x1) with (dex_world x).
      rewrite (owed_orders_same (dex x) (dex x1) q HB) by done.
      rewrite (owed_users_write (dex x) (dex x1) u t (balance_of (dex x) u t - n)) by done. unfold only. case_match; lia. }
  destruct (dex_transfer_effect _ _ _ _ _ _ _ _ _ _ HI1 Hn Hrun) as (HI2 & Hef2 & _). split; [done|].
  apply (effect_trans _ _ _ _ _ _ Hef1 Hef2). intros. lia.
Qed.

Lemma initialize_effect e x l u x' l' q : DInv x q → dex_initialize e (x, l) = (Ok u, (x', l')) → DInv x' q ∧ effect x x' (λ _, 0).
Proof.
  intros [HB Hk [Hno HL] Hb] (w & Hw & ->)%in_world_ok. apply modify_ok in Hw. injection Hw as -> _.
  split; [|split; [|done]]; [by split|]. intros T. unfold margin, dex_held. cbn. unfold bal, ledger_of, token. cbn. lia.
Qed.

Lemma exec_dex_effect c e x l u x' l' q :
  is_t1c (spec e) = true → DInv x q → dex_call_ok x c → exec_dex c e (x, l) = (Ok u, (x', l')) →
  ∃ q', DInv x' q' ∧ effect x x' (λ _, 0).
Proof.
  intros Ht HI Hok Hrun. destruct c; cbn [exec_dex dex_call_ok] in *;
    try (apply bind_ok in Hrun as (r & [x1 l1] & Hrun & Hret); apply ret_ok in Hret as [_ [= -> ->]]).
  - exists q. by eapply world_effect.
  - exists q. by eapply initialize_effect.
  - exists q. by eapply create_pair_effect.
  - apply place_ok in Hrun. destruct Hok. eexists.
    destruct (placed_effect _ _ _ _ _ _ _ _ _ _ _ _ _ HI Hrun ltac:(done) ltac:(by left)) as (? & ? & _). eauto.
  - apply place_flip_ok in Hrun as [Hrun _]. destruct Hok. eexists.
    destruct (placed_effect _ _ _ _ _ _ _ _ _ _ _ _ _ HI Hrun ltac:(done) ltac:(by left)) as (? & ? & _). eauto.
  - unfold cancel in Hrun. apply bind_ok in Hrun as (o & st & [-> ->]%gets_ok & Hrun).
    apply bind_ok in Hrun as (v1 & st & [Hm ->]%require_ok & Hrun). bprop. cbn [fst] in *.
    apply bind_ok in Hrun as (v2 & st & [_ ->]%require_ok & Hrun). apply bind_ok in Hrun as (v3 & st & [_ ->]%require_ok & Hrun).
    eapply cancel_active_effect; [exact HI| |exact Hrun]. by eapply read_order; [apply HI|].
  - unfold cancel_stale_order in Hrun. apply bind_ok in Hrun as (o & st & [-> ->]%gets_ok & Hrun).
    apply bind_ok in Hrun as (v1 & st & [Hm ->]%require_ok & Hrun). bprop. cbn [fst] in *.
    apply bind_ok in Hrun as (v2 & st & [_ ->]%view_ok & Hrun). apply bind_ok in Hrun as (v3 & st & [_ ->]%require_ok & Hrun).
    eapply cancel_active_effect; [exact HI| |exact Hrun]. by eapply read_order; [apply HI|].
  - exists q. by eapply withdraw_effect.
  - destruct Hok as [[_ Hs] Hn]. destruct (swap_in_effect _ _ _ _ _ _ _ _ _ _ _ _ Ht HI Hs Hn Hrun) as (q' & ? & ? & _). eauto.
  - destruct Hok as [[_ Hs] Hn]. destruct (swap_out_effect _ _ _ _ _ _ _ _ _ _ _ _ Ht HI Hs Hn Hrun) as (q' & ? & ? & _). eauto.
Qed.

Lemma book_empty k : (books dex_empty).[k] = zeroed.
Proof. apply mread_empty. Qed.

Lemma Books_empty : Books dex_empty (λ _ _ _, []).
Proof.
  split; [| |by intros id o Ho|by intros id [o Ho]].
  - intros k b t. split; unfold level_of; rewrite ?book_empty; try done; try (by destruct b); try (by constructor).
    + intros id Hid. by apply elem_of_nil in Hid.
    + intros _. unfold active. destruct b; cbn; by rewrite Z.testbit_0_l.
  - intros k b Hi. by rewrite book_empty in Hi.
Qed.

Lemma reach_inv x : dex_reach x → DInv x (queues (dex x)) ∧ ∀ T, 0 ≤ margin x T.
Proof.
  intros Hr. enough (∃ q, DInv x q ∧ ∀ T, 0 ≤ margin x T) as (q & [HB Hk Ha Hb] & Hm).
  { split; [|done]. split; try done. by eapply Books_queues. }
  induction Hr as [|x x' e c l l' u _ (q & HI & Hm) Ht Hok Hrun].
  - exists (λ _ _ _, []). split; [split|].
    + apply Books_empty.
    + intros k Hi. by rewrite book_empty in Hi.
    + split; [done|]. intros t. unfold ledger_of, token. cbn. rewrite mread_empty. apply LedgerInv_empty.
    + intros k. cbn. by rewrite mread_empty.
    + intros T. unfold margin, owed, dex_held, bal, ledger_of, token, owed_orders, owed_users. cbn. rewrite mread_empty. cbn.
      rewrite mread_empty. done.
  - destruct (exec_dex_effect _ _ _ _ _ _ _ _ Ht HI Hok Hrun) as (q' & HI' & [Hef _]). exists q'. split; [done|].
    intros T. specialize (Hm T). specialize (Hef T). lia.
Qed.
End history.
