(* ===== verification/DexTermination.v ===== *)
(** * The loops of the exchange terminate

    The loops that fill orders and quote amounts are given fuel in the model.  The fuel is always
    enough: every complete fill removes an order from the side it started on, and every
    quote step moves on to another tick. *)
From Stdlib Require Import ZArith Lia String.
From stdpp Require Import base tactics option list fin_maps gmap sets strings.
From S2P Require Import Prelude Base StorageSet AddressRegistry Keychain TIP403 TIP20Ledger TIP20 TIP20Props TIP20Admin TIP20Holdings OrderBook OrderBookProps Dex DexBooks DexFills DexSolvency DexMatching DexRoutes DexHistory.
Open Scope Z_scope.
Open Scope storage_scope.

(** ** Computations that do not exhaust any fuel *)
Definition rfuel {A} (r : Result A) : Prop := r ≠ Err OutOfGas.
Definition fuelled {S A} (m : M S A) : Prop := ∀ e st, rfuel (m e st).1.

Lemma rfuel_bind {A B} (r : Result A) (f : A → Result B) : rfuel r → (∀ a, rfuel (f a)) → rfuel (r ≫= f).
Proof. intros Hr Hf. destruct r as [a|err]; cbn; [apply Hf|]. intros [= ->]. by apply Hr. Qed.
Lemma rfuel_ok_or {A} (o : option A) err : err ≠ OutOfGas → rfuel (ok_or o err).
Proof. destruct o; cbn; [done|]. by intros ? [= ->]. Qed.
Lemma rfuel_ensure b err : err ≠ OutOfGas → rfuel (ensure b err).
Proof. destruct b; cbn; [done|]. by intros ? [= ->]. Qed.

(** Run by run: the error of a sequence is that of its first part or of the rest. *)
Lemma bind_fuel {S A B} (m : M S A) (f : A → M S B) e st :
  rfuel (m e st).1 → (∀ a st', m e st = (Ok a, st') → rfuel (f a e st').1) → rfuel ((m ≫= f) e st).1.
Proof.
  intros Hm Hf. unfold mbind, M_bind. destruct (m e st) as [[a|err] st'] eqn:Hrun; [by apply Hf|].
  cbn in *. intros [= ->]. by apply Hm.
Qed.

Lemma fuelled_bind {S A B} (m : M S A) (f : A → M S B) : fuelled m → (∀ a, fuelled (f a)) → fuelled (m ≫= f).
Proof. intros Hm Hf e st. apply bind_fuel; [apply Hm|]. intros a st' _. apply Hf. Qed.
Lemma fuelled_lift {S A} (r : Result A) : rfuel r → fuelled (lift (S := S) r).
Proof. by intros ? e st. Qed.
Lemma fuelled_view {S A} (f : Env → S → Result A) : (∀ e s, rfuel (f e s)) → fuelled (view f).
Proof. intros Hf e st. apply Hf. Qed.
Lemma fuelled_require {S} b err : err ≠ OutOfGas → fuelled (require (S := S) b err).
Proof. intros He e st. destruct b; cbn; [done|]. by intros [= ->]. Qed.
Lemma fuelled_zoom {S T A} (get : S → T) set (m : M T A) : fuelled m → fuelled (zoom get set m).
Proof. intros Hm e st. unfold zoom. specialize (Hm e (get st.1, st.2)). by destruct (m e _) as [r [t l]]. Qed.
Lemma fuelled_checkpoint {S A} (m : M S A) : fuelled m → fuelled (checkpoint m).
Proof.
  intros Hm e st. unfold checkpoint, atomically. destruct (is_t1c _); [|apply Hm].
  specialize (Hm e st). by destruct (m e st) as [[] ?].
Qed.
Lemma fuelled_ret {S A} (a : A) : fuelled (mret (M := M S) a).
Proof. done. Qed.
Lemma fuelled_gets {S A} (f : S → A) : fuelled (gets f).
Proof. done. Qed.
Lemma fuelled_modify {S} (f : S → S) : fuelled (modify f).
Proof. done. Qed.
Lemma fuelled_emit {S} a ev : fuelled (emit (S := S) a ev).
Proof. done. Qed.
Lemma fuelled_ask {S} : fuelled (ask (S := S)).
Proof. done. Qed.

Create HintDb fuel.
#[export] Hint Resolve fuelled_ret fuelled_gets fuelled_modify fuelled_emit fuelled_ask : fuel.

(** Syntax-directed: neither recursion nor an [OutOfGas] in the text. *)
Ltac fuel_step :=
  first
  [ progress auto with fuel
  | apply fuelled_bind; [|intros ?]
  | apply fuelled_lift | apply fuelled_view; intros ? ? | apply fuelled_require; discriminate
  | apply fuelled_zoom | apply fuelled_checkpoint
  | apply rfuel_bind; [|intros ?]
  | apply rfuel_ok_or; discriminate | apply rfuel_ensure; discriminate
  | match goal with
    | |- rfuel (Ok _) => discriminate
    | |- rfuel (Err (if ?b then _ else _)) => destruct b
    | |- rfuel (Err _) => discriminate
    | |- rfuel (match ?x with _ => _ end) => destruct x
    | |- fuelled (match ?x with _ => _ end) => destruct x
    | |- fuelled (when ?b _) => destruct b; cbn [when]
    | |- fuelled (let '_ := ?x in _) => destruct x
    end ].
Ltac fuels := repeat fuel_step.

Section fills.
Context `{Primitives}.

Lemma from_address_fuel t : rfuel (from_address t).
Proof. unfold from_address. fuels. Qed.
Lemma authorized_fuel e s p u role : rfuel (is_authorized_as e s p u role).
Proof.
  unfold is_authorized_as, is_authorized_simple, get_policy_data, is_simple, decode_policy_type, builtin_authorization. fuels.
Qed.
#[local] Hint Resolve from_address_fuel authorized_fuel : fuel.

Lemma increment_balance_fuel u t n : fuelled (increment_balance u t n).
Proof. unfold increment_balance. fuels. Qed.
#[local] Hint Resolve increment_balance_fuel : fuel.

Lemma partial_fill_fuel o lv f taker : fuelled (partial_fill_order o lv f taker).
Proof. unfold partial_fill_order, emit_order_filled, in_dex, in_book. cbv zeta. fuels. Qed.

Lemma settle_fill_fuel o bk : fuelled (settle_fill o bk).
Proof. unfold settle_fill. cbv zeta. fuels. Qed.

Lemma commit_fuel o : fuelled (commit_order_to_book o).
Proof. unfold commit_order_to_book, link_order, in_book, set_tick_bit, calc_tick_word_idx. cbv zeta. fuels. Qed.

Lemma create_pair_fuel t : fuelled (create_pair t).
Proof. unfold create_pair, validate_usd_currency, in_dex. cbv zeta. fuels. Qed.
#[local] Hint Resolve commit_fuel create_pair_fuel : fuel.

Lemma place_flip_fuel sender t amt b tk ftick : fuelled (place_flip sender t amt b tk ftick true).
Proof.
  unfold place_flip, validate_or_create_pair, escrow_of_order, ensure_transfer_authorized, is_transfer_authorized,
    in_dex, in_world, sub_balance, increment_next_order_id. cbv zeta. fuels.
Qed.

Lemma advance_best_fuel k t b : tick_in_bounds t = true → fuelled (advance_best k t b).
Proof.
  intros Ht. unfold advance_best, in_book. cbv zeta. apply fuelled_bind; [|intros; fuels]. apply fuelled_view. intros e d.
  destruct (next_initialized_tick_found (books d).[k] t b (bounds_i16 _ Ht)) as (f & h & -> & _). done.
Qed.

Lemma fill_order_fuel k o lv taker : tick_in_bounds (tick o) = true → fuelled (fill_order k o lv taker).
Proof.
  intros Ht. pose proof (advance_best_fuel k (tick o) (is_bid o) Ht). pose proof (settle_fill_fuel o).
  assert (∀ bk, fuelled (flip_filled o bk)) as Hflip.
  { intros bk e st. unfold flip_filled. apply bind_fuel; [unfold attempt; by destruct (place_flip _ _ _ _ _ _ _ e st)|].
    intros r st1 Hatt. unfold attempt in Hatt. destruct (place_flip _ _ _ _ _ _ _ e st) as [r' st'] eqn:Hpf. injection Hatt as <- <-.
    pose proof (place_flip_fuel (maker o) (base bk) (amount o) (negb (is_bid o)) (flip_tick o) (tick o) e st) as Hf. rewrite Hpf in Hf.
    apply bind_fuel; [done|]. intros e1 st1 [-> ->]%ask_ok. destruct r' as [|err]; [done|].
    destruct (is_system_error err && is_t1a (spec e)); [|done]. intros [= ->]. by apply Hf. }
  unfold fill_order, emit_order_filled, pop_filled, in_dex, in_book, delete_tick_bit, calc_tick_word_idx. cbv zeta. fuels.
Qed.

(** ** Orders of a side *)
Lemma at_ticks_reads d q k b ts : at_ticks d q k b ts = reads d (ts ≫= q k b).
Proof. unfold at_ticks, reads. induction ts as [|t ts IH]; [done|]. cbn. rewrite IH, fmap_app. done. Qed.

Lemma side_ticks_nodup b : NoDup (side_ticks b).
Proof. unfold side_ticks. destruct b; [rewrite reverse_Permutation|]; apply NoDup_seqZ. Qed.

Lemma side_list_size d q k b : Books d q → (length (side_list d q k b) ≤ size (orders d))%nat.
Proof.
  intros HB. unfold side_list. rewrite at_ticks_reads. unfold reads. rewrite length_fmap. apply ids_bounded.
  - apply NoDup_bind; [| |apply side_ticks_nodup].
    + intros t1 t2 id _ _ H1 H2. destruct (Books_unique _ _ _ _ _ _ _ _ _ HB H1 H2) as (_ & _ & ?). done.
    + intros t _. apply (bk_levels _ _ HB).
  - intros id (t & Hid & _)%list_elem_of_bind. destruct (Books_strip _ _ _ _ _ _ HB Hid) as (o & Ho & _). by eexists.
Qed.

(** ** The filling loops *)
Context `{!ExchangeEnvironment}.

Lemma exact_in_step_fuel b a t r : rfuel (exact_in_step b a t r).
Proof. unfold exact_in_step. fuels. Qed.
Lemma exact_in_rest_fuel b a t r : rfuel (exact_in_rest b a t r).
Proof. unfold exact_in_rest. fuels. Qed.
Lemma exact_out_step_fuel b a t r : rfuel (exact_out_step b a t r).
Proof. unfold exact_out_step. cbv zeta. fuels. Qed.
Lemma exact_out_rest_fuel b a t r n : rfuel (exact_out_rest b a t r n).
Proof. unfold exact_out_rest. fuels. Qed.

Lemma exact_in_loop_fuel fuel k b taker lv o a total e x l q :
  is_t1c (spec e) = true → DInv x q → cursor (dex x) q k b (Some (lv, o)) → 0 ≤ a →
  (length (side_list (dex x) q k b) ≤ fuel)%nat → rfuel (exact_in_loop fuel k b taker lv o a total e (x, l)).1.
Proof.
  intros Hc. revert lv o a total x l q. induction fuel as [|fuel IH]; intros lv o a total x l q HI Hcur Ha Hlen;
    cbn [exact_in_loop]; destruct (0 <? a); cbn [negb]; try done.
  { destruct (cursor_split _ _ _ _ _ _ (di_books _ _ HI) Hcur) as (? & ? & _ & _ & Hl & _). rewrite Hl in Hlen. cbn in Hlen. lia. }
  pose proof (cursor_node _ _ _ _ _ _ (di_books _ _ HI) Hcur) as [_ _ Hb _ Hrem _ _].
  destruct (cursor_bounds _ _ _ _ _ _ (di_books _ _ HI) Hcur) as [Ht Hi].
  apply bind_fuel; [apply exact_in_step_fuel|]. intros f st [Hstep ->]%lift_ok.
  destruct (Z.ltb_spec f (remaining o)) as [Hlt|Hge].
  { apply fuelled_bind; [apply partial_fill_fuel|]. intros out. fuels. }
  apply bind_fuel; [by apply fill_order_fuel|]. intros [out r] [x1 l1] Hfill.
  destruct (fill_step _ _ _ _ _ _ _ _ _ _ _ _ _ Hc HI Hcur Hfill) as (inn & q1 & _ & Hin & _ & HI1 & Hcur1 & _ & Hlist).
  apply bind_fuel; [apply rfuel_ok_or; discriminate|]. intros tot st [_ ->]%lift_ok.
  apply bind_fuel; [apply exact_in_rest_fuel|]. intros rest st [Hrest ->]%lift_ok. cbn [fst snd].
  destruct r as [[lv2 o2]|].
  - destruct (exact_in_rest_ok o a f inn rest Ht Ha (proj1 Hrem) ltac:(by rewrite Hb) Hge Hin ltac:(by rewrite Hb)) as [Hr0 _].
    apply (IH _ _ _ _ _ _ q1); try done. rewrite Hlist in Hlen. cbn in Hlen. lia.
  - apply fuelled_bind; [apply fuelled_require; discriminate|]. done.
Qed.

Lemma exact_out_loop_fuel fuel k b taker lv o a total e x l q :
  is_t1c (spec e) = true → DInv x q → cursor (dex x) q k b (Some (lv, o)) → 0 ≤ a →
  (length (side_list (dex x) q k b) ≤ fuel)%nat → rfuel (exact_out_loop fuel k b taker lv o a total e (x, l)).1.
Proof.
  intros Hc. revert lv o a total x l q. induction fuel as [|fuel IH]; intros lv o a total x l q HI Hcur Ha Hlen;
    cbn [exact_out_loop]; destruct (0 <? a); cbn [negb]; try done.
  { destruct (cursor_split _ _ _ _ _ _ (di_books _ _ HI) Hcur) as (? & ? & _ & _ & Hl & _). rewrite Hl in Hlen. cbn in Hlen. lia. }
  pose proof (cursor_node _ _ _ _ _ _ (di_books _ _ HI) Hcur) as [_ _ Hb _ Hrem _ _].
  destruct (cursor_bounds _ _ _ _ _ _ (di_books _ _ HI) Hcur) as [Ht Hi].
  apply bind_fuel; [apply exact_out_step_fuel|]. intros [f inn] st [Hstep ->]%lift_ok. cbn [fst snd].
  destruct (Z.ltb_spec f (remaining o)) as [Hlt|Hge].
  { apply fuelled_bind; [apply partial_fill_fuel|]. intros out. fuels. }
  apply bind_fuel; [by apply fill_order_fuel|]. intros [out r] [x1 l1] Hfill.
  destruct (fill_step _ _ _ _ _ _ _ _ _ _ _ _ _ Hc HI Hcur Hfill) as (inn' & q1 & _ & _ & Hout & HI1 & Hcur1 & _ & Hlist).
  apply bind_fuel; [apply rfuel_ok_or; discriminate|]. intros tot st [_ ->]%lift_ok.
  apply bind_fuel; [apply exact_out_rest_fuel|]. intros rest st [Hrest ->]%lift_ok. cbn [fst snd] in *.
  destruct r as [[lv2 o2]|].
  - destruct (exact_out_rest_ok o a f inn out rest Ht Ha ltac:(by rewrite Hb) Hge Hout ltac:(by rewrite Hb)) as [Hr0 _].
    apply (IH _ _ _ _ _ _ q1); try done. rewrite Hlist in Hlen. cbn in Hlen. lia.
  - apply fuelled_bind; [apply fuelled_require; discriminate|]. done.
Qed.

(** ** The quoting loops *)
(** How many ticks lie ahead of the current one. *)
Definition ticks_left (b : bool) (t : Z) : Z := if b then t - MIN_TICK else MAX_TICK - t.

Lemma next_quote_tick_ok bk t b left : tick_in_bounds t = true →
  rfuel (next_quote_tick bk t b left) ∧
  ∀ t', next_quote_tick bk t b left = Ok t' →
    left ≤ 0 ∨ (tick_in_bounds t' = true ∧ ticks_left b t' < ticks_left b t).
Proof.
  intros Ht. unfold next_quote_tick.
  destruct (next_initialized_tick_found bk t b (bounds_i16 _ Ht)) as (f & h & -> & Hf). cbn [mbind result_bind fst snd].
  split; [fuels|]. intros t' Hr. rinvs. destruct h; cbn in *.
  - right. destruct Hf as (Hf & _). rewrite tick_in_bounds_iff in *. unfold beyond, ticks_left in *. destruct b; lia.
  - left. bprop. lia.
Qed.

Lemma quote_out_loop_fuel fuel bk b t n total :
  tick_in_bounds t = true → (Z.to_nat (ticks_left b t) + 2 ≤ fuel)%nat → rfuel (quote_out_loop fuel bk b t n total).
Proof.
  assert (∀ fuel n total t, n ≤ 0 → rfuel (quote_out_loop fuel bk b t n total)) as Hdone.
  { intros fuel' n' total' t' Hn. destruct fuel'; cbn [quote_out_loop]; by rewrite (proj2 (Z.ltb_ge 0 n') Hn). }
  revert t n total. induction fuel as [|fuel IH]; intros t n total Ht Hf; [lia|]. cbn [quote_out_loop].
  destruct (0 <? n); [cbn [negb]|done].
  assert (∀ left total', rfuel (t' ← next_quote_tick bk t b left; quote_out_loop fuel bk b t' left total')) as Hnext.
  { intros left total'. destruct (next_quote_tick_ok bk t b left Ht) as [Hr Hok].
    destruct (next_quote_tick bk t b left) as [t'|err]; cbn; [|intros [= ->]; by apply Hr].
    destruct (Hok t' eq_refl) as [Hz|[Ht' Hlt]]; [by apply Hdone|]. apply IH; [done|].
    rewrite tick_in_bounds_iff in Ht'. unfold ticks_left in *. destruct b; lia. }
  destruct (_ =? 0); [apply Hnext|]. unfold quote_out_step. cbv zeta. fuels.
Qed.

Lemma quote_in_loop_fuel fuel bk b t n total :
  tick_in_bounds t = true → (Z.to_nat (ticks_left b t) + 2 ≤ fuel)%nat → rfuel (quote_in_loop fuel bk b t n total).
Proof.
  assert (∀ fuel n total t, n ≤ 0 → rfuel (quote_in_loop fuel bk b t n total)) as Hdone.
  { intros fuel' n' total' t' Hn. destruct fuel'; cbn [quote_in_loop]; by rewrite (proj2 (Z.ltb_ge 0 n') Hn). }
  revert t n total. induction fuel as [|fuel IH]; intros t n total Ht Hf; [lia|]. cbn [quote_in_loop].
  destruct (0 <? n); [cbn [negb]|done].
  assert (∀ left total', rfuel (t' ← next_quote_tick bk t b left; quote_in_loop fuel bk b t' left total')) as Hnext.
  { intros left total'. destruct (next_quote_tick_ok bk t b left Ht) as [Hr Hok].
    destruct (next_quote_tick bk t b left) as [t'|err]; cbn; [|intros [= ->]; by apply Hr].
    destruct (Hok t' eq_refl) as [Hz|[Ht' Hlt]]; [by apply Hdone|]. apply IH; [done|].
    rewrite tick_in_bounds_iff in Ht'. unfold ticks_left in *. destruct b; lia. }
  destruct (_ =? 0); [apply Hnext|]. unfold quote_in_step. cbv zeta. fuels.
Qed.

Lemma best_in_bounds x k b : DInv x (queues (dex x)) → is_initialized (books (dex x)).[k] = true →
  best_tick (books (dex x)).[k] b = sentinel b ∨ tick_in_bounds (best_tick (books (dex x)).[k] b) = true.
Proof.
  intros HI Hi. destruct (bk_best _ _ (di_books _ _ HI) k b Hi) as [[? _]|[Hne _]]; [by left|right].
  by apply (lr_bounds _ _ _ _ _ (bk_levels _ _ (di_books _ _ HI) k b _)).
Qed.

(** C27: the loops of the exchange terminate. In every reachable state a fill of either kind
    ends within one iteration per stored order, and a quote of either kind within one
    iteration per tick: the fuel the model gives the loops is never exhausted, so they return a
    result or an error of the code itself. *)
Theorem dex_loops_terminate x e k b a taker l :
  dex_reach x → is_t1c (spec e) = true → is_initialized (books (dex x)).[k] = true → 0 ≤ a →
  (fill_orders_exact_in k b a taker e (x, l)).1 ≠ Err OutOfGas ∧
  (fill_orders_exact_out k b a taker e (x, l)).1 ≠ Err OutOfGas ∧
  quote_exact_in (dex x) k a b ≠ Err OutOfGas ∧ quote_exact_out (dex x) k a b ≠ Err OutOfGas.
Proof.
  intros [HI _]%reach_inv Hc Hi Ha. pose proof (side_list_size _ _ k b (di_books _ _ HI)) as Hsz.
  assert (rfuel (get_best_price_level (dex x) k b)) as Hbest by (unfold get_best_price_level; cbv zeta; fuels).
  assert (∀ m : nat → TickLevel → Order → M DexWorld Z,
    (∀ lv, get_best_price_level (dex x) k b = Ok lv → rfuel (m (S (size (orders (dex x)))) lv (orders (dex x)).[head lv] e (x, l)).1) →
    rfuel ((level ← view (λ _ x, get_best_price_level (dex x) k b); o ← gets (λ x, (orders (dex x)).[head level]);
      fuel ← gets (λ x, S (size (orders (dex x)))); m fuel level o) e (x, l)).1) as Hloop.
  { intros m Hm. apply bind_fuel; [exact Hbest|]. intros lv st [Hlv ->]%view_ok. by apply Hm. }
  split_and!.
  - apply (Hloop (λ fuel lv o, exact_in_loop fuel k b taker lv o a 0)). intros lv Hlv.
    eapply exact_in_loop_fuel; try done; [by apply best_level_cursor|]. lia.
  - apply (Hloop (λ fuel lv o, exact_out_loop fuel k b taker lv o a 0)). intros lv Hlv.
    eapply exact_out_loop_fuel; try done; [by apply best_level_cursor|]. lia.
  - unfold quote_exact_in. cbv zeta. destruct (best_in_bounds x k b HI Hi) as [->|Ht]; [by destruct b|].
    destruct (_ || _); [discriminate|]. apply quote_in_loop_fuel; [done|]. rewrite tick_in_bounds_iff in Ht.
    unfold ticks_left, QUOTE_FUEL. destruct b; lia.
  - unfold quote_exact_out. cbv zeta. destruct (best_in_bounds x k b HI Hi) as [->|Ht]; [by destruct b|].
    destruct (_ || _); [discriminate|]. apply quote_out_loop_fuel; [done|]. rewrite tick_in_bounds_iff in Ht.
    unfold ticks_left, QUOTE_FUEL. destruct b; lia.
Qed.
End fills.
