(* ===== verification/DexProps.v ===== *)
(** * What the exchange promises

    The theorems about every history of the exchange: it is solvent, its books are well
    formed, takers are matched in price-time priority, and makers can always cancel. *)
From Stdlib Require Import ZArith Lia String.
From stdpp Require Import base tactics option list fin_maps gmap sets strings.
From S2P Require Import Prelude Base StorageSet AddressRegistry Keychain TIP403 TIP20Ledger TIP20 TIP20Props TIP20Admin TIP20Holdings OrderBook OrderBookProps Dex DexBooks DexFills DexSolvency DexMatching DexRoutes DexHistory.
Open Scope Z_scope.
Open Scope storage_scope.

Local Notation DEX := STABLECOIN_DEX_ADDRESS.

(** ** Runs that succeed *)
Definition succeeds {S A} (m : M S A) (e : Env) (st : S * list Log) : Prop := ∃ a st', m e st = (Ok a, st').

Lemma bind_succeeds {S A B} (m : M S A) (f : A → M S B) e st :
  succeeds m e st → (∀ a st', m e st = (Ok a, st') → succeeds (f a) e st') → succeeds (m ≫= f) e st.
Proof. intros (a & st' & Hm) Hf. destruct (Hf a st' Hm) as (b & st2 & Hb). exists b, st2. apply bind_ok. eauto. Qed.

Lemma zoom_succeeds {S T A} (get : S → T) set (m : M T A) e st :
  succeeds m e (get st.1, st.2) → succeeds (zoom get set m) e st.
Proof. intros (a & [t l] & Hm). exists a, (set t st.1, l). apply zoom_ok. eauto. Qed.

Lemma gets_succeeds {S A} (f : S → A) e st : succeeds (gets f) e st.
Proof. by do 2 eexists. Qed.
Lemma modify_succeeds {S} (f : S → S) e st : succeeds (modify f) e st.
Proof. by do 2 eexists. Qed.
Lemma ret_succeeds {S A} (a : A) e st : succeeds (mret (M := M S) a) e st.
Proof. by do 2 eexists. Qed.
Lemma emit_succeeds {S} self ev e st : succeeds (emit (S := S) self ev) e st.
Proof. by do 2 eexists. Qed.
Lemma lift_succeeds {S A} (r : Result A) a e st : r = Ok a → succeeds (lift (S := S) r) e st.
Proof. intros ->. by do 2 eexists. Qed.

Create HintDb succeeds.
#[export] Hint Resolve gets_succeeds modify_succeeds ret_succeeds emit_succeeds zoom_succeeds : succeeds.

Lemma unlink_succeeds o lv e st : succeeds (unlink_order o lv) e st.
Proof.
  unfold unlink_order. destruct (negb _), (negb _); repeat (apply bind_succeeds; [auto with succeeds|intros]); auto with succeeds;
    repeat (apply bind_succeeds; [auto with succeeds|intros]); auto with succeeds.
Qed.

Lemma clear_succeeds k t b e st : tick_in_bounds t = true → succeeds (clear_level k t b) e st.
Proof.
  intros Ht. unfold clear_level, in_book. apply bind_succeeds.
  - apply zoom_succeeds. destruct (delete_tick_bit_ok t b e (books st.1).[k] st.2 Ht) as (bk & Hd & _). by do 2 eexists.
  - intros _ st1 _. apply bind_succeeds; [auto with succeeds|]. intros best st2 _. unfold when. destruct (best =? t); [|auto with succeeds].
    apply bind_succeeds; [|auto with succeeds]. unfold advance_best.
    destruct (next_initialized_tick_found (books st2.1).[k] t b (bounds_i16 _ Ht)) as (f & h & Hn & _).
    apply bind_succeeds; [exists (f, h), st2; apply view_ok; auto|]. intros found st3 _.
    apply bind_succeeds; [apply zoom_succeeds; auto with succeeds|]. auto with succeeds.
Qed.

Lemma refund_succeeds o n e d l :
  refund o = Some n → let et := escrow_token (books d).[book_key o] o in
  balance_of d (maker o) et + n ≤ U128_MAX → succeeds (refund_order o) e (d, l).
Proof.
  intros Hn et Hle. unfold refund, escrow_token, refund_order in *. apply bind_succeeds; [auto with succeeds|].
  intros bk st [-> ->]%gets_ok. cbn [fst]. unfold increment_balance. destruct (is_bid o).
  - apply bind_succeeds; [eapply lift_succeeds, ok_or_ok, Hn|]. intros v st [Hv%ok_or_ok ->]%lift_ok.
    rewrite Hn in Hv. injection Hv as <-. apply bind_succeeds; [auto with succeeds|]. intros c st [-> ->]%gets_ok.
    apply bind_succeeds; [eapply lift_succeeds, ok_or_ok, checked_add_Some; split; [reflexivity|exact Hle]|auto with succeeds].
  - injection Hn as <-. apply bind_succeeds; [auto with succeeds|]. intros c st [-> ->]%gets_ok.
    apply bind_succeeds; [eapply lift_succeeds, ok_or_ok, checked_add_Some; split; [reflexivity|exact Hle]|auto with succeeds].
Qed.

(** Clearing a level keeps the tokens of its book and the balances. *)
Lemma clear_keeps (b0 : bool) k t b e d l u d' l' :
  tick_in_bounds t = true → when b0 (clear_level k t b) e (d, l) = (Ok u, (d', l')) →
  dex_balances d' = dex_balances d ∧ base (books d').[k] = base (books d).[k] ∧ quote (books d').[k] = quote (books d).[k].
Proof.
  intros Ht. destruct b0; cbn [when]; [|by intros [_ [= -> ->]]%ret_ok].
  intros (_ & bk & bk1 & -> & Hbit & Hbk)%clear_level_ok; [|done]. rewrite write_book_read. split; [done|].
  apply side_frame_bit in Hbit as [Hb Hq _ _]. destruct (_ =? t); [|by subst].
  destruct Hbk as (f & h & _ & ->). by destruct b.
Qed.

(** A part of an order is worth no more than the whole. *)
Lemma refund_defined k b t id o : node k b t id o → tick_in_bounds t = true → refund o = Some (escrow_amount o).
Proof.
  intros [_ _ Hb Ht Hr Hesc _] Hbd. unfold refund, escrow_amount. rewrite Hb. destruct b; [|done]. rewrite Ht.
  destruct (Hesc eq_refl) as [v Hv]. unfold base_to_quote in *.
  pose proof (price_pos t (bounds_i16 _ Hbd)) as Hp. assert (0 < PRICE_SCALE) as Hs by done.
  pose proof (div_ceil_spec (amount o * tick_to_price t) PRICE_SCALE Hs).
  pose proof (div_ceil_spec (remaining o * tick_to_price t) PRICE_SCALE Hs).
  unfold try_into in *. cbn in *. repeat case_match; simplify_eq; try done. bprop. nia.
Qed.

Section promises.
Context `{Primitives, !ExchangeEnvironment}.

(** ** Amounts stay in range *)
Lemma held_bounded x q T : DInv x q → dex_held x T ≤ U128_MAX.
Proof.
  intros [_ _ [_ HL] _]. specialize (HL T). unfold dex_held, bal.
  pose proof (wsum_elem (λ _, 1) (balances (ledger_of (dex_world x) T)) DEX (li_balance _ _ HL) (λ _, Z.le_0_1)) as He.
  cbn beta in He. rewrite (li_supply _ _ HL) in He. pose proof (li_cap _ _ HL). lia.
Qed.

Lemma balance_owed x q u T : DInv x q → balance_of (dex x) u T ≤ owed_users (dex x) T.
Proof.
  intros HI. unfold owed_users, balance_of.
  pose proof (msum_elem_le (λ k n, if k.2 =? T then n else 0) (dex_balances (dex x)) (u, T)) as He. cbn in He.
  rewrite Z.eqb_refl in He. apply He; [|done]. intros k n Hk. destruct (k.2 =? T); [|done].
  pose proof (di_balances _ _ HI k) as Hb. by rewrite (mread_lookup _ _ _ Hk) in Hb.
Qed.

Lemma order_owed_bound x q id o : DInv x q → orders (dex x) !! id = Some o →
  escrow_amount o ≤ owed_orders (dex x) (escrow_token (books (dex x)).[book_key o] o).
Proof.
  intros HI Ho. set (T := escrow_token _ _). unfold owed_orders.
  rewrite (msum_delete _ _ id o Ho). unfold order_owed at 1. fold T. rewrite Z.eqb_refl.
  enough (0 ≤ msum (λ _ o0, order_owed (dex x) T o0) (delete id (orders (dex x)))) by lia.
  apply msum_nonneg. intros j o' [_ Hj]%lookup_delete_Some. unfold order_owed. case_match; [|done].
  destruct (order_facts _ _ _ _ (di_books _ _ HI) Hj) as ([_ _ _ _ Hr _ _] & Ht & _). apply escrow_nonneg; [done|lia].
Qed.

Lemma refund_fits x id o : dex_reach x → orders (dex x) !! id = Some o →
  let et := escrow_token (books (dex x)).[book_key o] o in
  balance_of (dex x) (maker o) et + escrow_amount o ≤ U128_MAX.
Proof.
  intros [HI Hm]%reach_inv Ho et. specialize (Hm et). pose proof (held_bounded _ _ et HI).
  pose proof (balance_owed _ _ (maker o) et HI). pose proof (order_owed_bound _ _ _ _ HI Ho) as Hoo. fold et in Hoo.
  unfold margin, owed in Hm. lia.
Qed.

(** ** Cancelling always works *)
Lemma liquidity_bound x k b t id o :
  DInv x (queues (dex x)) → id ∈ queues (dex x) k b t → orders (dex x) !! id = Some o →
  remaining o ≤ total_liquidity (level_of (dex x) k b t).
Proof.
  intros HI Hin Ho. pose proof (bk_levels _ _ (di_books _ _ HI) k b t) as HL. rewrite (lr_liquidity _ _ _ _ _ HL).
  pose proof (lr_nodes _ _ _ _ _ HL) as Hn. revert Hin Hn. generalize (queues (dex x) k b t) as l.
  assert (∀ l, nodes (strips (dex x)) k b t l → 0 ≤ liquidity (strips (dex x)) l) as Hpos.
  { induction l as [|j l IH]; intros Hn; [done|]. cbn. fold (liquidity (strips (dex x)) l).
    destruct (Hn j ltac:(by left)) as (s & Hs & [_ _ _ _ Hr _ _]). rewrite Hs. cbn.
    assert (0 ≤ liquidity (strips (dex x)) l) by (apply IH; intros i Hi; apply Hn; by right). lia. }
  induction l as [|j l IH]; intros Hin Hn; [by apply elem_of_nil in Hin|]. cbn. fold (liquidity (strips (dex x)) l).
  destruct (Hn j ltac:(by left)) as (s & Hs & [_ _ _ _ Hr _ _]). rewrite Hs. cbn.
  assert (nodes (strips (dex x)) k b t l) as Hn' by (intros i Hi; apply Hn; by right).
  apply elem_of_cons in Hin as [->|Hin].
  - rewrite (strips_Some _ _ _ Ho) in Hs. injection Hs as <-. cbn. specialize (Hpos l Hn'). lia.
  - specialize (IH Hin Hn'). lia.
Qed.

Lemma cancel_active_succeeds x o e l :
  dex_reach x → orders (dex x) !! order_id o = Some o → succeeds (cancel_active_order o) e (dex x, l).
Proof.
  intros Hr Ho. destruct (reach_inv x Hr) as [HI _]. destruct (order_facts _ _ _ _ (di_books _ _ HI) Ho) as (Hn & Ht & Hi).
  pose proof (liquidity_bound x _ _ _ _ _ HI (bk_complete _ _ (di_books _ _ HI) _ _ Ho) Ho) as Hliq.
  unfold cancel_active_order. apply bind_succeeds; [auto with succeeds|]. intros lv st [-> ->]%gets_ok. cbn [fst].
  apply bind_succeeds; [apply unlink_succeeds|]. intros [h t] [d1 l1] (_ & _ & _ & ->)%unlink_order_ok.
  apply bind_succeeds; [eapply lift_succeeds, ok_or_ok, checked_sub_Some; split; [reflexivity|exact Hliq]|].
  intros liq st [_ ->]%lift_ok. set (d1 := mkDex _ _ _ _ _).
  apply bind_succeeds; [unfold when; destruct (_ =? 0); [by apply clear_succeeds|auto with succeeds]|].
  intros u1 [d2 l2] Hclear. apply bind_succeeds; [apply zoom_succeeds; auto with succeeds|].
  intros u2 [d3 l3] (bk & Hm & ->)%in_book_ok. apply modify_ok in Hm. injection Hm as -> ->. cbn [fst].
  apply bind_succeeds; [|intros; apply bind_succeeds; auto with succeeds].
  destruct (clear_keeps _ _ _ _ _ _ _ _ _ _ Ht Hclear) as (Hb & Hba & Hq).
  assert (escrow_token (books (write_book (book_key o) (write_level (is_bid o) (tick o) (mkLevel h t liq) (books d2).[book_key o]) d2)).[book_key o] o
    = escrow_token (books (dex x)).[book_key o] o) as Het.
  { rewrite write_book_read. unfold escrow_token. destruct (is_bid o); cbn; rewrite ?Hba, ?Hq; done. }
  eapply refund_succeeds; [by eapply refund_defined|]. cbv zeta. rewrite Het. unfold balance_of. cbn. rewrite Hb.
  by eapply refund_fits.
Qed.

(** ** The theorems *)
(** C2: the exchange is solvent. After any history of calls, for every token, the tokens the
    exchange holds cover the escrow of every open order in that token (rounded up, as a
    cancellation refunds it) and every internal balance in it, whatever swaps, partial fills,
    flips, cancellations, withdrawals and token calls happened in between. *)
Theorem dex_solvent x T : dex_reach x → owed_orders (dex x) T + owed_users (dex x) T ≤ dex_held x T.
Proof. intros [_ Hm]%reach_inv. specialize (Hm T). unfold margin, owed in Hm. lia. Qed.

(** C6: the order books are well formed in every reachable state. At every tick the links of the
    stored orders form one doubly linked list of distinct orders of that book, side and tick, from
    the level's head to its tail; the level's liquidity is the sum of what remains of them; its
    bit is set exactly if it is not empty; the best tick is the best non-empty tick or the
    sentinel; every stored order is in its queue and its identifier is below the counter. *)
Theorem dex_books_wf x : dex_reach x → Books (dex x) (queues (dex x)).
Proof. intros [HI _]%reach_inv. apply HI. Qed.

(** C5: takers are matched in price-time priority. A successful fill of a side is the walk of
    [match_in] (or [match_out]) along the list of its orders, best price first and oldest first
    at a price: it returns the same amount, and what it leaves in the linked lists, levels, bitmap
    and best tick is exactly the rest of that list. *)
Theorem price_time_priority x e k b a taker l r x' l' :
  dex_reach x → is_t1c (spec e) = true → is_initialized (books (dex x)).[k] = true → 0 ≤ a →
  (fill_orders_exact_in k b a taker e (x, l) = (Ok r, (x', l')) →
     match_in b a 0 (side (dex x) k b) = Ok (r, side (dex x') k b)) ∧
  (fill_orders_exact_out k b a taker e (x, l) = (Ok r, (x', l')) →
     match_out b a 0 (side (dex x) k b) = Ok (r, side (dex x') k b)).
Proof.
  intros [HI _]%reach_inv Ht Hi Ha. split; intros Hrun.
  - destruct (fill_exact_in_ok _ _ _ _ _ _ _ _ _ _ _ Ht HI Hi Ha Hrun) as (q' & HI' & _ & Hm).
    by rewrite (side_queues _ q') in Hm by apply HI'.
  - destruct (fill_exact_out_ok _ _ _ _ _ _ _ _ _ _ _ Ht HI Hi Ha Hrun) as (q' & HI' & _ & Hm).
    by rewrite (side_queues _ q') in Hm by apply HI'.
Qed.

(** C18: a maker can always cancel an open order, and nobody else can. In every reachable state
    the maker's [cancel] succeeds, removes exactly that order, credits the maker with
    exactly its escrow and touches no token, no other order and no other balance; a [cancel] by
    anybody else fails with [Unauthorized]. *)
Theorem maker_can_cancel x id o e l :
  dex_reach x → orders (dex x) !! id = Some o →
  let et := escrow_token (books (dex x)).[book_key o] o in
  (∃ x' l', cancel (maker o) id e (x, l) = (Ok tt, (x', l')) ∧ dex_world x' = dex_world x ∧
     strips (dex x') = delete id (strips (dex x)) ∧
     dex_balances (dex x') =
       <[(maker o, et) := balance_of (dex x) (maker o) et + escrow_amount o]> (dex_balances (dex x))) ∧
  (∀ s, s ≠ maker o → cancel s id e (x, l) = (Err (dex_error DEXError.Unauthorized), (x, l))).
Proof.
  intros Hr Ho et. destruct (reach_inv x Hr) as [HI _]. destruct (order_facts _ _ _ _ (di_books _ _ HI) Ho) as ([Hid _ _ _ Hrem _ Hm] & _).
  assert ((orders (dex x)).[id] = o) as Hread by by apply mread_lookup.
  unfold cancel, mbind, M_bind, gets, require. cbn [fst snd]. rewrite Hread, (proj2 (Z.eqb_neq _ _) Hm). split.
  - rewrite Z.eqb_refl, (proj2 (Z.eqb_neq (remaining o) 0)) by lia. unfold mret, M_ret. cbn [negb].
    rewrite <- Hid in Ho. destruct (cancel_active_succeeds x o e l Hr Ho) as ([] & [d' l'] & Hc).
    exists (mkDexWorld (dex_world x) d'), l'. split.
    { apply zoom_ok. cbn [fst snd]. eauto. }
    apply (cancel_ok _ _ _ _ _ _ _ _ (di_books _ _ HI) Ho) in Hc as (q' & [_ _ Hst _ (n & Hn & Hb)]).
    apply refund_escrow in Hn as ->. rewrite Hid in Hst. done.
  - intros s Hs. rewrite (proj2 (Z.eqb_neq (maker o) s)) by congruence. done.
Qed.
End promises.
