(* ===== verification/DexRuns.v ===== *)
(** * Concrete runs of the exchange

    Three USD tokens in a chain of quotes, makers on both sides, flip orders, swaps over one
    and two books, on which the theorems about the exchange are applied. *)
From Stdlib Require Import ZArith Lia String.
From stdpp Require Import base tactics option list fin_maps gmap sets strings.
From S2P Require Import Prelude Base StorageSet AddressRegistry Keychain TIP403 TIP20Ledger TIP20 TIP20Props TIP20Runs TIP20Holdings OrderBook OrderBookProps Dex DexBooks DexFills DexSolvency DexMatching DexRoutes DexHistory DexTermination DexProps.
Open Scope Z_scope.
Open Scope storage_scope.

(** ** Playing calls *)
Section play.
Context `{Primitives}.

Global Instance dex_user_world_call_dec c : Decision (user_world_call c).
Proof. destruct c as [? ? []| | | | |]; cbn; apply _. Defined.
Global Instance not_by_dec h c : Decision (not_by h c).
Proof. destruct c; cbn; apply _. Defined.
Global Instance dex_call_ok_dec x c : Decision (dex_call_ok x c).
Proof. unfold dex_call_ok, dex_user. destruct c; apply _. Defined.

Fixpoint dex_play (e : Env) (cs : list DexCall) (x : DexWorld) : option DexWorld :=
  match cs with
  | [] => Some x
  | c :: cs =>
      if decide (dex_call_ok x c) then
        match exec_dex c e (x, []) with
        | (Ok _, (x', _)) => dex_play e cs x'
        | (Err _, _) => None
        end
      else None
  end.

Lemma dex_play_reach e cs x x' : is_t1c (spec e) = true → dex_reach x → dex_play e cs x = Some x' → dex_reach x'.
Proof.
  intros He. revert x. induction cs as [|c cs IH]; intros x Hr; cbn; [by intros [= <-]|].
  case_decide as Hok; [|done]. destruct (exec_dex c e (x, [])) as [[u|] [x1 l1]] eqn:Hrun; [|done].
  apply IH. by eapply DReach_next.
Qed.
End play.

(** ** The outside code *)
(** The hash keeps the last eight bytes of each of two addresses. *)
Definition dex_primitives : Primitives := {|
  keccak256 l := if (length l =? 40)%nat then bytes_value (drop 12 (take 20 l)) * 2 ^ 64 + bytes_value (drop 32 l)
                 else bytes_value l mod 2 ^ 256;
  abi_encode l := l;
  abi_encode_packed l := l;
  secp256k1_recover digest r p s := if r =? STABLECOIN_DEX_ADDRESS then None else Some r;
  addr_is_tip20 a := a / 2 ^ 64 =? TIP20_PREFIX;
  addr_is_virtual a := false;
  addr_is_valid_master a := negb (a =? 0);
  addr_decode_virtual a := None;
|}.
#[local] Existing Instance dex_primitives.

Lemma book_key_value b q : compute_book_key b q = b mod 2 ^ 64 * 2 ^ 64 + q mod 2 ^ 64.
Proof.
  assert (∀ a, address_bytes a = be_bytes 12 (a / 2 ^ 64) ++ be_bytes 8 a) as Ha by (intros; exact (be_bytes_app 12 8 a)).
  assert (∀ a, length (address_bytes a) = 20%nat) as Hl by (intros; apply (be_bytes_length 20)).
  unfold compute_book_key. cbn [keccak256 dex_primitives]. rewrite length_app, !Hl. change (20 + 20 =? 40)%nat with true. cbv iota.
  rewrite take_app_length', drop_app_ge, Hl by (rewrite ?Hl; lia). change (32 - 20)%nat with 12%nat.
  rewrite !Ha, !drop_app_length' by (by rewrite be_bytes_length). rewrite !bytes_value_be. done.
Qed.

Global Instance dex_environment : ExchangeEnvironment.
Proof.
  split.
  - vm_compute. reflexivity.
  - reflexivity.
  - intros d v r s. unfold recover_signer. cbn -[STABLECOIN_DEX_ADDRESS]. destruct (negb (v =? 27) && negb (v =? 28)); [done|].
    destruct (Z.eqb_spec r STABLECOIN_DEX_ADDRESS) as [|Hne]; cbn; [done|]. case_match; congruence.
  - vm_compute. reflexivity.
  - vm_compute. reflexivity.
  - intros b q b' q'. cbn [addr_is_tip20 dex_primitives]. rewrite !book_key_value.
    intros H1%Z.eqb_eq H2%Z.eqb_eq H3%Z.eqb_eq H4%Z.eqb_eq Heq.
    pose proof (Z.div_mod b (2 ^ 64) ltac:(done)). pose proof (Z.div_mod q (2 ^ 64) ltac:(done)).
    pose proof (Z.div_mod b' (2 ^ 64) ltac:(done)). pose proof (Z.div_mod q' (2 ^ 64) ltac:(done)).
    pose proof (Z.mod_pos_bound b (2 ^ 64) ltac:(done)). pose proof (Z.mod_pos_bound q (2 ^ 64) ltac:(done)).
    pose proof (Z.mod_pos_bound b' (2 ^ 64) ltac:(done)). pose proof (Z.mod_pos_bound q' (2 ^ 64) ltac:(done)).
    rewrite H1, H2, H3, H4 in *. change (2 ^ 64) with 18446744073709551616 in *. split; lia.
Qed.

(** ** A history *)
Definition XUSD : Address := PATH_USD_ADDRESS + 1.
Definition YUSD : Address := PATH_USD_ADDRESS + 2.
Definition ONE : Z := 1000000.

Definition funded (t : Address) : list DexCall :=
  [DWorld (WToken t admin (TGrantRole ISSUER_ROLE admin));
   DWorld (WToken t admin (TMint alice (1000 * ONE))); DWorld (WToken t admin (TMint bob (1000 * ONE)));
   DWorld (WToken t alice (TApprove STABLECOIN_DEX_ADDRESS (1000 * ONE)));
   DWorld (WToken t bob (TApprove STABLECOIN_DEX_ADDRESS (1000 * ONE)))].

Definition dex_calls : list DexCall :=
  [DInitialize;
   DWorld (WCreateReserved PATH_USD_ADDRESS "pathUSD" "pathUSD" "USD" ZERO admin);
   DWorld (WCreateReserved XUSD "XUSD" "XUSD" "USD" PATH_USD_ADDRESS admin);
   DWorld (WCreateReserved YUSD "YUSD" "YUSD" "USD" PATH_USD_ADDRESS admin)] ++
  funded PATH_USD_ADDRESS ++ funded XUSD ++ funded YUSD ++
  [DPlace alice XUSD (100 * ONE) true (-10); DPlace alice XUSD (150 * ONE) true 20;
   DPlaceFlip alice XUSD (100 * ONE) true 20 50; DPlace bob XUSD (100 * ONE) false 100;
   DCreatePair YUSD; DPlaceFlip alice YUSD (200 * ONE) false 30 (-30)].

Definition played (cs : list DexCall) : DexWorld := default dex_world_empty (dex_play sample_now cs dex_world_empty).

Lemma played_reach cs :
  match dex_play sample_now cs dex_world_empty with Some _ => true | None => false end = true → dex_reach (played cs).
Proof.
  unfold played. destruct (dex_play sample_now cs dex_world_empty) as [x|] eqn:Hp; [|done]. intros _.
  exact (dex_play_reach sample_now cs _ x eq_refl DReach_init Hp).
Qed.

Definition quoted : DexWorld := played dex_calls.
Lemma quoted_reach : dex_reach quoted.
Proof. apply played_reach. vm_compute. reflexivity. Qed.

Definition kx : B256 := compute_book_key XUSD PATH_USD_ADDRESS.
(** Identifier, tick and remaining amount of the orders of a side, in priority order. *)
Definition shown (x : DexWorld) (k : B256) (b : bool) : list (Z * Z * Z) :=
  map (λ o, (order_id o, tick o, remaining o)) (side (dex x) k b).

(** A sale over one book, a sale and a purchase over two books, a cancellation and a withdrawal. *)
Definition sale : DexCall := DSwapIn bob XUSD PATH_USD_ADDRESS (180 * ONE) 0.
Definition busy : DexWorld := played (dex_calls ++
  [sale; DSwapIn bob XUSD YUSD (90 * ONE) 0; DSwapOut bob XUSD YUSD (20 * ONE) (90 * ONE); DCancel alice 1;
   DWithdraw alice PATH_USD_ADDRESS (10 * ONE)]).
Lemma busy_reach : dex_reach busy.
Proof. apply played_reach. vm_compute. reflexivity. Qed.

Example busy_run :
  shown quoted kx true = [(2, 20, 150 * ONE); (3, 20, 100 * ONE); (1, -10, 100 * ONE)] ∧
  shown (played (dex_calls ++ [sale])) kx true = [(3, 20, 70 * ONE); (1, -10, 100 * ONE)] ∧
  shown busy kx true = [] ∧ shown busy kx false = [(6, 50, 100 * ONE); (4, 100, 100 * ONE)].
Proof. vm_compute. done. Qed.

Lemma dex_solvent_witness :
  owed_orders (dex busy) XUSD + owed_users (dex busy) XUSD ≤ dex_held busy XUSD ∧
  owed_orders (dex busy) XUSD = 200 * ONE ∧ owed_users (dex busy) XUSD = 190008001.
Proof. split; [apply (dex_solvent busy XUSD busy_reach)|]. vm_compute. split; reflexivity. Defined.

Lemma dex_books_wf_witness : Books (dex quoted) (queues (dex quoted)) ∧ queues (dex quoted) kx true 20 = [2; 3].
Proof. split; [apply (dex_books_wf quoted quoted_reach)|]. vm_compute. reflexivity. Defined.

Definition fill_in : M DexWorld Z := fill_orders_exact_in kx true (180 * ONE) bob.
Definition after_fill : DexWorld := final fill_in sample_now quoted.
Lemma price_time_priority_witness :
  match_in true (180 * ONE) 0 (side (dex quoted) kx true) = Ok (180036000, side (dex after_fill) kx true).
Proof.
  pose proof (final_ok fill_in sample_now quoted 180036000) as Hrun. specialize (Hrun ltac:(vm_compute; reflexivity)).
  apply (proj1 (price_time_priority quoted sample_now kx true (180 * ONE) bob [] 180036000 after_fill _
    quoted_reach eq_refl ltac:(vm_compute; reflexivity) ltac:(vm_compute; discriminate)) Hrun).
Defined.

Lemma maker_can_cancel_witness :
  ∃ x' l', cancel alice 2 sample_now (quoted, []) = (Ok tt, (x', l')) ∧
    (dex_balances (dex x')).[(alice, PATH_USD_ADDRESS)] = 150030000.
Proof.
  destruct (maker_can_cancel quoted 2 (orders (dex quoted)).[2] sample_now [] quoted_reach) as [(x' & l' & Hc & _ & _ & Hb) _];
    [vm_compute; reflexivity|].
  exists x', l'. split.
  - assert (maker (orders (dex quoted)).[2] = alice) as Hm by (vm_compute; reflexivity). rewrite Hm in Hc. exact Hc.
  - rewrite Hb. vm_compute. reflexivity.
Defined.

Lemma dex_loops_terminate_witness :
  (fill_orders_exact_in kx true (500 * ONE) bob sample_now (quoted, [])).1 ≠ Err OutOfGas ∧
  quote_exact_in (dex quoted) kx (500 * ONE) true ≠ Err OutOfGas.
Proof.
  destruct (dex_loops_terminate quoted sample_now kx true (500 * ONE) bob [] quoted_reach eq_refl
    ltac:(vm_compute; reflexivity) ltac:(vm_compute; discriminate)) as (H1 & _ & H2 & _).
  split; [exact H1|exact H2].
Defined.
