(* ===== verification/NetAddr.v ===== *)
(** * Network addresses
    ([src/crates/tempo-precompiles/src/ip_validation.rs])

    The validator registries accept endpoints that Rust's standard library parses as
    [SocketAddr] or [IpAddr].  The parser below follows [core::net]: it works on the bytes of
    the text, and a failed alternative consumes nothing. *)
From Stdlib Require Import ZArith Lia String.
From stdpp Require Import base tactics option list strings.
From S2P Require Import Prelude Base.
Open Scope Z_scope.

(** ** The parser *)
Definition Parser (A : Type) : Type := list Z → option (A * list Z).
Global Instance parser_ret : MRet Parser := λ A a l, Some (a, l).
Global Instance parser_bind : MBind Parser := λ A B f p l, '(a, l') ← p l; f a l'.

Definition or_else {A} (p1 p2 : Parser A) : Parser A := λ l, match p1 l with Some r => Some r | None => p2 l end.

Definition char (s : string) : Z := List.hd 0 (string_bytes s).

Definition read_given_char (c : Z) : Parser unit := λ l,
  match l with
  | c' :: l => if c' =? c then Some (tt, l) else None
  | [] => None
  end.

(** [char::to_digit]. *)
Definition to_digit (radix c : Z) : option Z :=
  let d := if (char "0" <=? c) && (c <=? char "9") then c - char "0"
           else if (char "a" <=? c) && (c <=? char "z") then c - char "a" + 10
           else if (char "A" <=? c) && (c <=? char "Z") then c - char "A" + 10
           else radix in
  if d <? radix then Some d else None.

Fixpoint take_digits (radix : Z) (l : list Z) : list Z * list Z :=
  match l with
  | c :: l' =>
      match to_digit radix c with
      | Some d => let '(ds, rest) := take_digits radix l' in (d :: ds, rest)
      | None => ([], l)
      end
  | [] => ([], [])
  end.

Definition digits_value (radix : Z) (ds : list Z) : Z := fold_left (λ acc d, acc * radix + d) ds 0.

(** The longest run of digits, as a number of at most [max]; the value only grows along the
    digits, so that an overflow on the way is an overflow at the end. *)
Definition read_number (max radix : Z) (max_digits : option nat) (allow_zero_prefix : bool) : Parser Z := λ l,
  let '(ds, rest) := take_digits radix l in
  let has_leading_zero := match l with c :: _ => c =? char "0" | [] => false end in
  if match max_digits with Some m => (m <? length ds)%nat | None => false end then None
  else if (length ds =? 0)%nat then None
  else if negb allow_zero_prefix && has_leading_zero && (1 <? length ds)%nat then None
  else if digits_value radix ds <=? max then Some (digits_value radix ds, rest) else None.

(** A separator is read before every group but the first. *)
Definition read_separator {A} (sep : Z) (first : bool) (inner : Parser A) : Parser A :=
  if first then inner else (read_given_char sep;; inner).

(** The four octets. *)
Definition read_ipv4_addr : Parser (list Z) :=
  let octet first := read_separator (char ".") first (read_number 255 10 (Some 3%nat) false) in
  a ← octet true; b ← octet false; c ← octet false; d ← octet false;
  mret [a; b; c; d].

(** The octets as two segments. *)
Definition read_ipv4_pair : Parser (Z * Z) := λ l,
  match read_ipv4_addr l with
  | Some ([a; b; c; d], rest) => Some ((a * 256 + b, c * 256 + d), rest)
  | _ => None
  end.

(** At most [n] groups of an IPv6 address, the last two possibly as an IPv4 address: the groups, and
    whether they end with an IPv4 address. *)
Fixpoint read_groups (n : nat) (first : bool) (l : list Z) : list Z * bool * list Z :=
  match n with
  | O => ([], false, l)
  | S m =>
      match (if (0 <? m)%nat then read_separator (char ":") first read_ipv4_pair l else None) with
      | Some ((ab, cd), rest) => ([ab; cd], true, rest)
      | None =>
          match read_separator (char ":") first (read_number 65535 16 (Some 4%nat) true) l with
          | Some (g, rest) => let '(gs, v4, rest) := read_groups m false rest in (g :: gs, v4, rest)
          | None => ([], false, l)
          end
      end
  end.

(** The eight segments. *)
Definition read_ipv6_addr : Parser (list Z) := λ l,
  let '(head, head_ipv4, rest) := read_groups 8 true l in
  if (length head =? 8)%nat then Some (head, rest)
  else if head_ipv4 then None
  else
    '(_, rest) ← (read_given_char (char ":");; read_given_char (char ":")) rest;
    let limit := (8 - (length head + 1))%nat in
    let '(tail, _, rest) := read_groups limit true rest in
    Some (head ++ replicate (8 - length head - length tail) 0 ++ tail, rest).

Inductive IpAddr := IpV4 (octets : list Z) | IpV6 (segments : list Z).
Inductive SocketAddr := V4 (octets : list Z) (port : Z) | V6 (segments : list Z) (scope_id port : Z).

Definition read_port : Parser Z := read_given_char (char ":");; read_number 65535 10 None true.
Definition read_scope_id : Parser Z := read_given_char (char "%");; read_number U32_MAX 10 None true.

Definition read_ip_addr : Parser IpAddr :=
  or_else (a ← read_ipv4_addr; mret (IpV4 a)) (a ← read_ipv6_addr; mret (IpV6 a)).
Definition read_socket_addr_v4 : Parser SocketAddr := a ← read_ipv4_addr; p ← read_port; mret (V4 a p).
Definition read_socket_addr_v6 : Parser SocketAddr :=
  read_given_char (char "[");;
  a ← read_ipv6_addr; scope ← or_else read_scope_id (mret 0);
  read_given_char (char "]");;
  p ← read_port; mret (V6 a scope p).
Definition read_socket_addr : Parser SocketAddr := or_else read_socket_addr_v4 read_socket_addr_v6.

(** [str::parse]: the whole text is consumed. *)
Definition parse_with {A} (p : Parser A) (s : string) : option A :=
  match p (string_bytes s) with Some (a, []) => Some a | _ => None end.
Definition parse_socket_addr : string → option SocketAddr := parse_with read_socket_addr.
Definition parse_ip_addr : string → option IpAddr := parse_with read_ip_addr.

(** ** Printing ([Display] of [IpAddr]) *)
Definition show_digit (d : Z) : Z := if d <? 10 then char "0" + d else char "a" + (d - 10).
Fixpoint show_number_from (fuel : nat) (radix v : Z) : list Z :=
  match fuel with
  | O => []
  | S fuel => if v <? radix then [show_digit v] else show_number_from fuel radix (v / radix) ++ [show_digit (v mod radix)]
  end.
(** Octets have at most three decimal digits, segments at most four hexadecimal ones. *)
Definition show_number : Z → Z → list Z := show_number_from 4.

Fixpoint join (sep : Z) (ls : list (list Z)) : list Z :=
  match ls with
  | [] => []
  | [l] => l
  | l :: ls => l ++ sep :: join sep ls
  end.
Definition show_ipv4 (octets : list Z) : list Z := join (char ".") (map (show_number 10) octets).
Definition fmt_subslice (segments : list Z) : list Z := join (char ":") (map (show_number 16) segments).

(** The first longest run of zero segments: start and length. *)
Fixpoint longest_zeroes (i : nat) (current longest : nat * nat) (segments : list Z) : nat * nat :=
  match segments with
  | [] => longest
  | s :: segments =>
      if s =? 0 then
        let current := (if (current.2 =? 0)%nat then i else current.1, S current.2) in
        longest_zeroes (S i) current (if (longest.2 <? current.2)%nat then current else longest) segments
      else longest_zeroes (S i) (0%nat, 0%nat) longest segments
  end.

(** [Ipv6Addr::to_ipv4_mapped]: the octets of an address [::ffff:a.b.c.d]. *)
Definition to_ipv4_mapped (segments : list Z) : option (list Z) :=
  match segments with
  | [a; b; c; d; e; f; ab; cd] =>
      if forallb (λ s, s =? 0) [a; b; c; d; e] && (f =? 0xffff) then Some [ab / 256; ab mod 256; cd / 256; cd mod 256] else None
  | _ => None
  end.

Definition show_ipv6 (segments : list Z) : list Z :=
  match to_ipv4_mapped segments with
  | Some octets => string_bytes "::ffff:" ++ show_ipv4 octets
  | None =>
      let '(start, len) := longest_zeroes 0 (0%nat, 0%nat) (0%nat, 0%nat) segments in
      if (1 <? len)%nat then
        fmt_subslice (take start segments) ++ string_bytes "::" ++ fmt_subslice (drop (start + len) segments)
      else fmt_subslice segments
  end.

Definition bytes_string (l : list Z) : string :=
  String.string_of_list_ascii (map (λ b, Ascii.ascii_of_N (Z.to_N b)) l).
(** [SocketAddr::ip().to_string()]. *)
Definition socket_ip_string (a : SocketAddr) : string :=
  bytes_string (match a with V4 o _ => show_ipv4 o | V6 s _ _ => show_ipv6 s end).

(** ** The checks *)
Module IpError.
(** The texts of [IpWithPortParseError] and [IpParseError] ([Display]), and of the former's [Debug]. *)
Definition ip_port : string := "input was not of the form `<ip>:<port>`".
Definition ip_port_debug : string := "Parse(AddrParseError(Socket))".
Definition ip : string := "input was not a valid IP address".
End IpError.

Definition ensure_address_is_ip_port (input : string) : bool :=
  match parse_socket_addr input with Some _ => true | None => false end.
Definition ensure_address_is_ip (input : string) : bool :=
  match parse_ip_addr input with Some _ => true | None => false end.

(** The bytes of a socket address, as hashed by the registry. *)
Definition socket_bytes (a : SocketAddr) : list Z :=
  match a with
  | V4 octets port => octets ++ be_bytes 2 port
  | V6 segments scope_id port => concat (map (be_bytes 2) segments) ++ be_bytes 4 scope_id ++ be_bytes 2 port
  end.

(** ** Examples *)
Example parse_v4 : parse_socket_addr "192.168.1.1:8000" = Some (V4 [192; 168; 1; 1] 8000).
Proof. vm_compute. reflexivity. Qed.
Example parse_v6 : parse_socket_addr "[2001:db8::1%7]:443" = Some (V6 [0x2001; 0xdb8; 0; 0; 0; 0; 0; 1] 7 443).
Proof. vm_compute. reflexivity. Qed.
Example parse_v6_mapped : parse_ip_addr "::ffff:10.0.0.1" = Some (IpV6 [0; 0; 0; 0; 0; 0xffff; 0xa00; 1]).
Proof. vm_compute. reflexivity. Qed.
Example parse_refused :
  map parse_socket_addr ["192.168.01.1:80"; "localhost:80"; "1.2.3.4"; "1.2.3.4:65536"; "::1:80"] = [None; None; None; None; None]%string.
Proof. vm_compute. reflexivity. Qed.
Example show_v6 : socket_ip_string (V6 [0x2001; 0xdb8; 0; 0; 1; 0; 0; 1] 0 1) = "2001:db8::1:0:0:1"%string.
Proof. vm_compute. reflexivity. Qed.
Example show_v4 : socket_ip_string (V4 [10; 0; 200; 1] 1) = "10.0.200.1"%string.
Proof. vm_compute. reflexivity. Qed.
