(* ===== verification/NetAddrProps.v ===== *)
(** * Printing and parsing network addresses

    The text of a parsed address parses to the same address, and the texts of one
    address are unboundedly long. *)
From Stdlib Require Import ZArith Lia String.
From stdpp Require Import base tactics option list strings.
From S2P Require Import Prelude Base NetAddr.
Open Scope Z_scope.

(** ** Bytes and strings *)
Lemma bytes_string_roundtrip l : Forall (λ b, 0 ≤ b < 256) l → string_bytes (bytes_string l) = l.
Proof.
  intros Hl. unfold string_bytes, bytes_string. rewrite String.list_ascii_of_string_of_list_ascii, map_map.
  induction Hl as [|b l Hb _ IH]; [done|]. cbn [map]. f_equal; [|done].
  rewrite Ascii.N_ascii_embedding; lia.
Qed.

(** ** Numbers *)
Definition is_digit (radix c : Z) : Prop := is_Some (to_digit radix c).
(** No digit follows. *)
Definition ends (radix : Z) (rest : list Z) : Prop := match rest with c :: _ => to_digit radix c = None | [] => True end.

Lemma take_digits_app radix l rest :
  Forall (is_digit radix) l → ends radix rest → take_digits radix (l ++ rest) = ((take_digits radix l).1, rest).
Proof.
  intros Hl Hr. induction Hl as [|c l [d Hd] _ IH]; cbn.
  - destruct rest as [|c rest]; cbn in *; [done|]. by rewrite Hr.
  - rewrite Hd, IH. by destruct (take_digits radix l).
Qed.
Lemma take_digits_all radix l : (take_digits radix l).2 = [] → Forall (is_digit radix) l.
Proof.
  induction l as [|c l IH]; cbn; [constructor|]. destruct (to_digit radix c) as [d|] eqn:Hd; [|done].
  destruct (take_digits radix l) as [ds rest]. cbn in *. intros ->. constructor; [by exists d|auto].
Qed.

(** The bytes of a printed number: digits of the radix, in the range of bytes, and no separator. *)
Definition number_ok (radix : Z) (width : nat) (v : Z) : bool :=
  let l := show_number radix v in
  let '(ds, rest) := take_digits radix l in
  (length rest =? 0)%nat && (length ds <=? width)%nat && negb (length ds =? 0)%nat && (digits_value radix ds =? v) &&
  negb (match l with c :: _ => c =? char "0" | [] => true end && (1 <? length ds)%nat) &&
  forallb (λ c, (0 <=? c) && (c <? 256) && negb (c =? char ".")) l.

Lemma octets_checked : forallb (number_ok 10 3) (seqZ 0 256) = true.
Proof. vm_compute. reflexivity. Qed.
Lemma segments_checked : forallb (λ a, forallb (λ b, number_ok 16 4 (a * 256 + b)) (seqZ 0 256)) (seqZ 0 256) = true.
Proof. vm_compute. reflexivity. Qed.

Lemma byte_in v : 0 ≤ v < 256 → In v (seqZ 0 256).
Proof. intros Hv. apply list_elem_of_In, elem_of_seqZ. lia. Qed.
Lemma octet_ok v : 0 ≤ v ≤ 255 → number_ok 10 3 v = true.
Proof. intros Hv. apply (proj1 (forallb_forall _ _) octets_checked), byte_in. lia. Qed.
Lemma segment_parts a b : 0 ≤ a < 256 → 0 ≤ b < 256 → number_ok 16 4 (a * 256 + b) = true.
Proof.
  intros Ha Hb. pose proof (proj1 (forallb_forall _ _) segments_checked a (byte_in a Ha)) as Hc.
  exact (proj1 (forallb_forall _ _) Hc b (byte_in b Hb)).
Qed.
Lemma segment_ok v : 0 ≤ v ≤ 65535 → number_ok 16 4 v = true.
Proof.
  intros Hv. assert (v = v / 256 * 256 + v mod 256) as -> by (pose proof (Z.div_mod v 256); lia).
  apply segment_parts; [split; [apply Z.div_pos; lia|apply Z.div_lt_upper_bound; lia]|apply Z.mod_pos_bound; lia].
Qed.

Lemma number_bytes radix width v : number_ok radix width v = true →
  Forall (λ b, 0 ≤ b < 256) (show_number radix v) ∧ Forall (λ c, c ≠ char ".") (show_number radix v) ∧
  Forall (is_digit radix) (show_number radix v).
Proof.
  unfold number_ok. destruct (take_digits radix (show_number radix v)) as [ds rest] eqn:Ht. intros Hk.
  repeat (apply andb_true_iff in Hk as [Hk ?]). assert (rest = []) as -> by (apply length_zero_iff_nil; by apply Nat.eqb_eq).
  split; [|split; [|apply take_digits_all; by rewrite Ht]].
  all: apply Forall_forall; intros c Hc; rewrite forallb_forall in H; specialize (H c); rewrite <- list_elem_of_In in H; specialize (H Hc);
    bprop; lia || done.
Qed.

Lemma read_show radix width max zero v rest :
  number_ok radix width v = true → v ≤ max → ends radix rest →
  read_number max radix (Some width) zero (show_number radix v ++ rest) = Some (v, rest).
Proof.
  intros Hok Hmax Hr. destruct (number_bytes _ _ _ Hok) as (_ & _ & Hdig). unfold read_number. rewrite take_digits_app by done.
  unfold number_ok in Hok. destruct (take_digits radix (show_number radix v)) as [ds rest'] eqn:Ht. cbn [fst].
  repeat (apply andb_true_iff in Hok as [Hok ?]). apply Nat.leb_le in H3. apply Z.eqb_eq in H1.
  rewrite (proj2 (Nat.ltb_ge width (length ds)) H3). rewrite (proj1 (negb_true_iff _) H2). rewrite H1, (proj2 (Z.leb_le _ _) Hmax).
  destruct (show_number radix v) as [|c l]; [injection Ht as <- <-; done|]. cbn [app]. apply negb_true_iff in H0. rewrite <- andb_assoc, H0, andb_false_r. done.
Qed.

(** ** Reading forward *)
Lemma parser_bind_run {A B} (p : Parser A) (f : A → Parser B) l a l' : p l = Some (a, l') → (p ≫= f) l = f a l'.
Proof. unfold mbind, parser_bind. by intros ->. Qed.
Lemma parser_bind_none {A B} (p : Parser A) (f : A → Parser B) l : p l = None → (p ≫= f) l = None.
Proof. unfold mbind, parser_bind. by intros ->. Qed.
Lemma parser_bind_ok {A B} (p : Parser A) (f : A → Parser B) l b l' :
  (p ≫= f) l = Some (b, l') ↔ ∃ a l1, p l = Some (a, l1) ∧ f a l1 = Some (b, l').
Proof. unfold mbind, parser_bind. destruct (p l) as [[a l1]|]; cbn; naive_solver. Qed.

Lemma read_char c l : read_given_char c (c :: l) = Some (tt, l).
Proof. cbn. by rewrite Z.eqb_refl. Qed.

Definition octets_wf (o : list Z) : Prop := length o = 4%nat ∧ Forall (λ v, 0 ≤ v ≤ 255) o.
Definition segments_wf (g : list Z) : Prop := length g = 8%nat ∧ Forall (λ v, 0 ≤ v ≤ 65535) g.
Definition socket_wf (a : SocketAddr) : Prop := match a with V4 o _ => octets_wf o | V6 g _ _ => segments_wf g end.

Lemma read_ipv4_show o rest : octets_wf o → ends 10 rest → read_ipv4_addr (show_ipv4 o ++ rest) = Some (o, rest).
Proof.
  intros [Hl Ho] Hr. destruct o as [|a [|b [|c [|d [|]]]]]; try done.
  repeat match goal with H : Forall _ (_ :: _) |- _ => apply Forall_cons in H as [? H] end.
  unfold show_ipv4, read_ipv4_addr, read_separator. cbn [map join].
  repeat (rewrite <- app_assoc || rewrite <- app_comm_cons).
  erewrite parser_bind_run by (apply read_show; [by apply octet_ok|lia|done]).
  do 3 (erewrite parser_bind_run by (erewrite parser_bind_run by apply read_char; apply read_show; [by apply octet_ok|lia|done])).
  done.
Qed.

(** A text whose first non-digit is not a dot has no IPv4 address. *)
Lemma read_ipv4_none l :
  match (take_digits 10 l).2 with c :: _ => c ≠ char "." | [] => True end → read_ipv4_addr l = None.
Proof.
  intros Hl. unfold read_ipv4_addr, read_separator.
  destruct (read_number 255 10 (Some 3%nat) false l) as [[v rest]|] eqn:Hn; [|by apply parser_bind_none].
  erewrite parser_bind_run by exact Hn. apply parser_bind_none, parser_bind_none.
  unfold read_number in Hn. destruct (take_digits 10 l) as [ds r]. cbn [snd] in Hl. assert (r = rest) as -> by (by repeat case_match; simplify_eq). destruct rest; [done|].
  unfold read_given_char. by rewrite (proj2 (Z.eqb_neq _ _) Hl).
Qed.
Lemma first_after l rest : Forall (λ c, c ≠ char ".") l →
  match rest with c :: _ => to_digit 10 c = None ∧ c ≠ char "." | [] => True end →
  match (take_digits 10 (l ++ rest)).2 with c :: _ => c ≠ char "." | [] => True end.
Proof.
  intros Hl Hr. induction Hl as [|c l Hc _ IH]; cbn.
  - destruct rest as [|c rest]; cbn; [done|]. destruct Hr as [-> Hc]. done.
  - destruct (to_digit 10 c); [|done]. by destruct (take_digits 10 (l ++ rest)).
Qed.

(** The groups as they are read: a separator before all but the first. *)
Fixpoint gtext (first : bool) (g : list Z) : list Z :=
  match g with
  | [] => []
  | s :: g => (if first then [] else [char ":"]) ++ show_number 16 s ++ gtext false g
  end.
Lemma fmt_gtext g : fmt_subslice g = gtext true g.
Proof.
  unfold fmt_subslice. destruct g as [|s g]; [done|]. revert s. induction g as [|s' g IH]; intros s.
  - cbn. by rewrite app_nil_r.
  - cbn [map join gtext app]. f_equal. rewrite <- (app_nil_l (show_number 16 s' ++ _)). f_equal. exact (IH s').
Qed.

(** What stops the reading of groups: the end, or a double colon. *)
Definition stop (rest : list Z) : Prop := rest = [] ∨ ∃ r, rest = char ":" :: char ":" :: r.
Lemma after_group g rest : stop rest → let t := gtext false g ++ rest in
  ends 16 t ∧ match t with c :: _ => to_digit 10 c = None ∧ c ≠ char "." | [] => True end.
Proof. intros [->|[r ->]]; destruct g; cbn; done. Qed.

Lemma read_groups_stop n first rest : stop rest → read_groups n first rest = ([], false, rest).
Proof. intros [->|[r ->]]; destruct n as [|[|n]], first; reflexivity. Qed.

Lemma read_groups_show g n first rest :
  Forall (λ v, 0 ≤ v ≤ 65535) g → (length g ≤ n)%nat → stop rest →
  read_groups n first (gtext first g ++ rest) = (g, false, rest).
Proof.
  intros Hg. revert n first. induction Hg as [|s g Hs _ IH]; intros n first Hn Hr; [by apply read_groups_stop|].
  destruct n as [|n]; [cbn in Hn; lia|]. cbn [gtext]. destruct (after_group g rest Hr) as [He Ha].
  destruct (number_bytes _ _ _ (segment_ok s Hs)) as (_ & Hdot & _). rewrite <- !app_assoc.
  assert (read_separator (char ":") first read_ipv4_pair ((if first then [] else [char ":"]) ++ show_number 16 s ++ gtext false g ++ rest) = None) as H4.
  { assert (read_ipv4_pair (show_number 16 s ++ gtext false g ++ rest) = None)
      by (unfold read_ipv4_pair; by rewrite read_ipv4_none by (by apply first_after)).
    destruct first; [done|]. cbn [read_separator app]. by erewrite parser_bind_run by reflexivity. }
  assert (read_separator (char ":") first (read_number 65535 16 (Some 4%nat) true)
    ((if first then [] else [char ":"]) ++ show_number 16 s ++ gtext false g ++ rest) = Some (s, gtext false g ++ rest)) as H6.
  { assert (read_number 65535 16 (Some 4%nat) true (show_number 16 s ++ gtext false g ++ rest) = Some (s, gtext false g ++ rest))
      by (apply read_show; [by apply segment_ok|lia|done]).
    destruct first; [done|]. cbn [read_separator app]. by erewrite parser_bind_run by reflexivity. }
  cbn [read_groups]. rewrite H4, H6. rewrite (IH n false) by (cbn in Hn; lia || done). by destruct (0 <? n)%nat.
Qed.

(** ** The longest run of zeroes is a run of zeroes *)
Definition zero_run (g : list Z) (p : nat * nat) : Prop :=
  p.2 = 0%nat ∨ ((p.1 + p.2 ≤ length g)%nat ∧ ∀ k, (p.1 ≤ k < p.1 + p.2)%nat → g !! k = Some 0).

Lemma longest_run g rest i cur lon :
  (∃ pre, g = pre ++ rest ∧ length pre = i) → cur.2 = 0%nat ∨ (cur.1 + cur.2)%nat = i → zero_run g cur → zero_run g lon →
  zero_run g (longest_zeroes i cur lon rest).
Proof.
  revert i cur lon. induction rest as [|s rest IH]; intros i cur lon (pre & Hg & Hi) Hc Hz Hl; [done|]. cbn.
  assert (∃ pre', g = pre' ++ rest ∧ length pre' = S i) as Hpre.
  { exists (pre ++ [s]). rewrite <- app_assoc, length_app. cbn. split; [done|lia]. }
  destruct (Z.eqb_spec s 0) as [->|]; [|apply IH; [done|by left|by left|done]].
  assert (g !! i = Some 0) as Hgi by (rewrite Hg, lookup_app_r by lia; by rewrite Hi, Nat.sub_diag).
  assert (length g = i + S (length rest))%nat as Hlg by (rewrite Hg, length_app; cbn; lia).
  set (cur' := (if (cur.2 =? 0)%nat then i else cur.1, S cur.2)).
  assert ((cur'.1 + cur'.2)%nat = S i) as Hend by (unfold cur'; cbn; destruct (Nat.eqb_spec cur.2 0); cbn; lia).
  assert (zero_run g cur') as Hz'.
  { right. split; [lia|]. intros k Hk. destruct (decide (k = i)) as [->|]; [done|].
    unfold cur' in Hk, Hend. cbn in Hk, Hend. destruct (Nat.eqb_spec cur.2 0); [lia|].
    destruct Hz as [?|[_ Hz]]; [done|]. apply Hz. lia. }
  apply IH; [done|by right|done|]. by case_match.
Qed.

Lemma zero_run_split g s l : zero_run g (s, l) → l ≠ 0%nat → g = take s g ++ replicate l 0 ++ drop (s + l) g ∧ (s + l ≤ length g)%nat.
Proof.
  intros [?|[Hle Hz]] Hl; [done|]. cbn [fst snd] in *. split; [|done]. apply list_eq. intros k.
  destruct (decide (k < s)%nat); [by rewrite lookup_app_l, lookup_take_lt by (rewrite ?length_take; lia)|].
  rewrite lookup_app_r, length_take, Nat.min_l by (rewrite ?length_take; lia).
  destruct (decide (k < s + l)%nat).
  - rewrite lookup_app_l, (lookup_replicate_2 l 0 (k - s)) by (rewrite ?length_replicate; lia). apply Hz. lia.
  - rewrite lookup_app_r, length_replicate, lookup_drop by (rewrite ?length_replicate; lia). f_equal. lia.
Qed.

(** ** IPv6 addresses *)
Definition colons : list Z := string_bytes "::".
Lemma stop_colons r : stop (colons ++ r).
Proof. right. by exists r. Qed.
Lemma read_colons r : (read_given_char (char ":");; read_given_char (char ":")) (colons ++ r) = Some (tt, r).
Proof. done. Qed.

Lemma read_ipv6_full g : segments_wf g → read_ipv6_addr (gtext true g) = Some (g, []).
Proof.
  intros [Hl Hg]. unfold read_ipv6_addr. rewrite <- (app_nil_r (gtext true g)), (read_groups_show g 8) by (done || lia || by left).
  by rewrite Hl.
Qed.
Lemma read_ipv6_compressed hd tl z :
  Forall (λ v, 0 ≤ v ≤ 65535) hd → Forall (λ v, 0 ≤ v ≤ 65535) tl → (length hd + z + length tl = 8)%nat → (0 < z)%nat →
  read_ipv6_addr (gtext true hd ++ colons ++ gtext true tl) = Some (hd ++ replicate z 0 ++ tl, []).
Proof.
  intros Hh Ht Hl Hz. unfold read_ipv6_addr. rewrite (read_groups_show hd 8) by (done || lia || apply stop_colons).
  rewrite (proj2 (Nat.eqb_neq _ _)) by lia. rewrite read_colons. cbn [mbind option_bind].
  rewrite <- (app_nil_r (gtext true tl)), (read_groups_show tl) by (done || lia || by left).
  by replace (8 - length hd - length tl)%nat with z by lia.
Qed.
Lemma read_ipv6_mapped ab cd :
  0 ≤ ab ≤ 65535 → 0 ≤ cd ≤ 65535 →
  read_ipv6_addr (string_bytes "::ffff:" ++ show_ipv4 [ab / 256; ab mod 256; cd / 256; cd mod 256]) =
  Some ([0; 0; 0; 0; 0; 0xffff; ab; cd], []).
Proof.
  intros Hab Hcd. set (t := show_ipv4 _). unfold read_ipv6_addr.
  change (string_bytes "::ffff:" ++ t) with (colons ++ (string_bytes "ffff" ++ char ":" :: t)).
  rewrite read_groups_stop by apply stop_colons. cbn [length Nat.eqb]. rewrite read_colons. cbn [mbind option_bind].
  assert (read_ipv4_addr t = Some ([ab / 256; ab mod 256; cd / 256; cd mod 256], [])) as H4.
  { rewrite <- (app_nil_r t). apply read_ipv4_show; [|done]. split; [done|].
    assert (∀ v, 0 ≤ v ≤ 65535 → 0 ≤ v / 256 ≤ 255 ∧ 0 ≤ v mod 256 ≤ 255) as Hb.
    { intros v Hv. pose proof (Z.mod_pos_bound v 256). pose proof (Z.div_mod v 256). lia. }
    destruct (Hb ab Hab), (Hb cd Hcd). rewrite !Forall_cons, Forall_nil. done. }
  change (8 - (0 + 1))%nat with 7%nat. assert (read_groups 7 true (string_bytes "ffff" ++ char ":" :: t) = ([0xffff; ab; cd], true, [])) as ->; [|done].
  assert (read_groups 6 false (char ":" :: t) = ([ab; cd], true, [])) as H6.
  { cbn [read_groups read_separator]. change (0 <? 5)%nat with true. cbv iota. erewrite parser_bind_run by apply read_char.
    unfold read_ipv4_pair. rewrite H4. by rewrite (Z.mul_comm (ab / 256)), (Z.mul_comm (cd / 256)), <- !Z.div_mod by done. }
  change (read_groups 7 true (string_bytes "ffff" ++ char ":" :: t)) with
    (let '(gs, v4, rest) := read_groups 6 false (char ":" :: t) in (0xffff :: gs, v4, rest)). by rewrite H6.
Qed.

Lemma mapped_some g o : to_ipv4_mapped g = Some o →
  ∃ ab cd, g = [0; 0; 0; 0; 0; 0xffff; ab; cd] ∧ o = [ab / 256; ab mod 256; cd / 256; cd mod 256].
Proof.
  destruct g as [|a [|b [|c [|d [|f [|h [|ab [|cd [|]]]]]]]]]; try done. unfold to_ipv4_mapped.
  destruct (forallb _ _ && _) eqn:Hb; [|done]. intros [= <-]. exists ab, cd. apply andb_true_iff in Hb as [Hz Hf].
  apply Z.eqb_eq in Hf. cbn in Hz. repeat (apply andb_true_iff in Hz as [?%Z.eqb_eq Hz]). by subst.
Qed.

Lemma read_ipv6_show g : segments_wf g → read_ipv6_addr (show_ipv6 g) = Some (g, []).
Proof.
  intros [Hl Hg]. unfold show_ipv6. destruct (to_ipv4_mapped g) as [o|] eqn:Hm.
  - apply mapped_some in Hm as (ab & cd & -> & ->). repeat (apply Forall_cons in Hg as [? Hg]). by apply read_ipv6_mapped.
  - assert (zero_run g (longest_zeroes 0 (0%nat, 0%nat) (0%nat, 0%nat) g)) as Hz
      by (apply longest_run; [by exists []|by left|by left|by left]).
    destruct (longest_zeroes _ _ _ g) as [s l]. destruct (Nat.ltb_spec 1 l) as [Hlt|_].
    + destruct (zero_run_split g s l Hz ltac:(lia)) as [Hsplit Hle]. rewrite !fmt_gtext. fold colons. rewrite Hsplit at 3.
      apply read_ipv6_compressed; [by apply Forall_take|by apply Forall_drop| |lia]. rewrite length_take, length_drop. lia.
    + rewrite fmt_gtext. by apply read_ipv6_full.
Qed.

(** ** What the parser returns *)
Lemma to_digit_bounds radix c d : to_digit radix c = Some d → 0 ≤ d.
Proof.
  unfold to_digit. change (char "0") with 48. change (char "9") with 57. change (char "a") with 97. change (char "z") with 122.
  change (char "A") with 65. change (char "Z") with 90.
  destruct ((48 <=? c) && (c <=? 57)) eqn:H1; [|destruct ((97 <=? c) && (c <=? 122)) eqn:H2; [|destruct ((65 <=? c) && (c <=? 90)) eqn:H3]].
  all: destruct (_ <? radix) eqn:Hr; intros [= <-]; bprop; lia.
Qed.
Lemma take_digits_bounds radix l : Forall (λ d, 0 ≤ d) (take_digits radix l).1.
Proof.
  induction l as [|c l IH]; cbn; [constructor|]. destruct (to_digit radix c) eqn:Hd; [|constructor].
  destruct (take_digits radix l). cbn in *. constructor; [by eapply to_digit_bounds|done].
Qed.
Lemma fold_digits_nonneg radix ds acc : 0 ≤ radix → 0 ≤ acc → Forall (λ d, 0 ≤ d) ds →
  0 ≤ fold_left (λ acc d, acc * radix + d) ds acc.
Proof. intros Hr Ha Hd. revert acc Ha. induction Hd; intros acc Ha; cbn; [done|]. apply IHHd. nia. Qed.

Lemma read_number_bounds max radix w z l v rest :
  0 ≤ radix → read_number max radix w z l = Some (v, rest) → 0 ≤ v ≤ max.
Proof.
  intros Hr. unfold read_number. pose proof (take_digits_bounds radix l) as Hd. destruct (take_digits radix l) as [ds r]. cbn in Hd.
  intros Hn. destruct (digits_value radix ds <=? max) eqn:Hm.
  - assert (v = digits_value radix ds) as -> by (by repeat case_match; simplify_eq). bprop. split; [|done].
    by apply fold_digits_nonneg.
  - by repeat case_match.
Qed.

Lemma separator_ok {A} sep first (p : Parser A) l a rest :
  read_separator sep first p l = Some (a, rest) → ∃ l', p l' = Some (a, rest).
Proof. destruct first; cbn; [eauto|]. intros ([] & l' & _ & Hp)%parser_bind_ok. eauto. Qed.

Lemma read_ipv4_wf l o rest : read_ipv4_addr l = Some (o, rest) → octets_wf o.
Proof.
  unfold read_ipv4_addr. intros (a & l1 & (? & Ha)%separator_ok & Hl)%parser_bind_ok.
  apply parser_bind_ok in Hl as (b & l2 & (? & Hb)%separator_ok & Hl). apply parser_bind_ok in Hl as (c & l3 & (? & Hc)%separator_ok & Hl).
  apply parser_bind_ok in Hl as (d & l4 & (? & Hd)%separator_ok & Hl). injection Hl as <- _.
  apply read_number_bounds in Ha, Hb, Hc, Hd; try done. split; [done|]. by rewrite !Forall_cons, Forall_nil.
Qed.

Lemma read_pair_bounds l ab cd rest :
  read_ipv4_pair l = Some ((ab, cd), rest) → 0 ≤ ab ≤ 65535 ∧ 0 ≤ cd ≤ 65535.
Proof.
  unfold read_ipv4_pair. destruct (read_ipv4_addr l) as [[o r]|] eqn:Ho; [|done]. apply read_ipv4_wf in Ho as [Hl Ho].
  destruct o as [|a [|b [|c [|d [|]]]]]; try done. rewrite !Forall_cons in Ho. intros [= <- <- <-]. lia.
Qed.

Lemma read_groups_wf n first l g v4 rest :
  read_groups n first l = (g, v4, rest) → (length g ≤ n)%nat ∧ Forall (λ v, 0 ≤ v ≤ 65535) g.
Proof.
  revert first l g v4 rest. induction n as [|n IH]; intros first l g v4 rest; cbn [read_groups].
  { intros [= <- <- <-]. split; [done|constructor]. }
  destruct (if (0 <? n)%nat then _ else None) as [[[ab cd] r]|] eqn:H4.
  - intros [= <- <- <-]. destruct (Nat.ltb_spec 0 n); [|done]. apply separator_ok in H4 as (l' & H4%read_pair_bounds).
    split; [cbn; lia|]. rewrite !Forall_cons, Forall_nil. tauto.
  - destruct (read_separator _ _ (read_number _ _ _ _) _) as [[s r]|] eqn:Hs; [|intros [= <- <- <-]; split; [cbn; lia|constructor]].
    destruct (read_groups n false r) as [[gs v] r'] eqn:Hg. intros [= <- <- <-]. apply IH in Hg as [? ?].
    apply separator_ok in Hs as (l' & Hs%read_number_bounds); [|done]. split; [cbn; lia|]. by constructor.
Qed.

Lemma read_ipv6_wf l g rest : read_ipv6_addr l = Some (g, rest) → segments_wf g.
Proof.
  unfold read_ipv6_addr. destruct (read_groups 8 true l) as [[hd v4] r] eqn:Hh. apply read_groups_wf in Hh as [Hlh Hh].
  destruct (Nat.eqb_spec (length hd) 8) as [Heq|Hne]; [intros [= <- _]; done|]. destruct v4; [done|].
  destruct ((read_given_char (char ":");; read_given_char (char ":")) r) as [[u r']|]; [|done]. cbn [mbind option_bind].
  destruct (read_groups (8 - (length hd + 1)) true r') as [[tl v] r2] eqn:Ht. apply read_groups_wf in Ht as [Hlt Ht].
  intros [= <- _]. split; [rewrite !length_app, length_replicate; lia|]. rewrite !Forall_app. split; [done|]. split; [|done].
  apply Forall_replicate. lia.
Qed.

Lemma parse_socket_wf t a : parse_socket_addr t = Some a → socket_wf a.
Proof.
  unfold parse_socket_addr, parse_with, read_socket_addr, or_else.
  destruct (read_socket_addr_v4 (string_bytes t)) as [[a' r]|] eqn:H4.
  - destruct r; [|done]. intros [= <-]. apply parser_bind_ok in H4 as (o & l1 & Ho & Hr).
    apply parser_bind_ok in Hr as (p & l2 & _ & [= <- _]). by eapply read_ipv4_wf.
  - destruct (read_socket_addr_v6 (string_bytes t)) as [[a' r]|] eqn:H6; [|done]. destruct r; [|done]. intros [= <-].
    apply parser_bind_ok in H6 as (u & l1 & _ & Hr). apply parser_bind_ok in Hr as (g & l2 & Hg & Hr).
    apply parser_bind_ok in Hr as (sc & l3 & _ & Hr). apply parser_bind_ok in Hr as (u2 & l4 & _ & Hr).
    apply parser_bind_ok in Hr as (p & l5 & _ & [= <- _]). by eapply read_ipv6_wf.
Qed.

(** ** The text of an address parses to the address *)
Definition socket_ip (a : SocketAddr) : IpAddr := match a with V4 o _ => IpV4 o | V6 g _ _ => IpV6 g end.

Lemma show_ipv4_bytes o : octets_wf o → Forall (λ b, 0 ≤ b < 256) (show_ipv4 o).
Proof.
  intros [_ Ho]. unfold show_ipv4. induction Ho as [|v o Hv Ho IH]; [constructor|].
  destruct (number_bytes _ _ _ (octet_ok v Hv)) as (Hb & _). cbn [map join]. destruct (map (show_number 10) o); [done|].
  apply Forall_app. split; [done|]. by constructor.
Qed.
Lemma gtext_bytes first g : Forall (λ v, 0 ≤ v ≤ 65535) g → Forall (λ b, 0 ≤ b < 256) (gtext first g).
Proof.
  intros Hg. revert first. induction Hg as [|v g Hv _ IH]; intros first; cbn [gtext]; [constructor|].
  destruct (number_bytes _ _ _ (segment_ok v Hv)) as (Hb & _). rewrite !Forall_app. split; [|by split].
  destruct first; [constructor|]. by constructor.
Qed.
Lemma show_ipv6_bytes g : segments_wf g → Forall (λ b, 0 ≤ b < 256) (show_ipv6 g).
Proof.
  intros [Hl Hg]. unfold show_ipv6. destruct (to_ipv4_mapped g) as [o|] eqn:Hm.
  - apply mapped_some in Hm as (ab & cd & -> & ->). repeat (apply Forall_cons in Hg as [? Hg]). apply Forall_app.
    split; [by repeat constructor|]. apply show_ipv4_bytes. split; [done|].
    pose proof (Z.mod_pos_bound ab 256). pose proof (Z.div_mod ab 256). pose proof (Z.mod_pos_bound cd 256). pose proof (Z.div_mod cd 256).
    rewrite !Forall_cons, Forall_nil. lia.
  - destruct (longest_zeroes _ _ _ g) as [s l]. rewrite !fmt_gtext. destruct (1 <? l)%nat; [|by apply gtext_bytes].
    rewrite !Forall_app. split; [by apply gtext_bytes, Forall_take|]. split; [by repeat constructor|by apply gtext_bytes, Forall_drop].
Qed.

(** An IPv6 text is not read as an IPv4 address. *)
Lemma gtext_no_ipv4 g rest : Forall (λ v, 0 ≤ v ≤ 65535) g → stop rest → read_ipv4_addr (gtext true g ++ rest) = None.
Proof.
  intros Hg Hr. destruct Hg as [|v g Hv Hg]; [by destruct Hr as [->|[r ->]]|]. cbn [gtext app]. rewrite <- app_assoc.
  destruct (number_bytes _ _ _ (segment_ok v Hv)) as (_ & Hdot & _). apply read_ipv4_none, first_after; [done|]. by apply after_group.
Qed.
Lemma show_ipv6_no_ipv4 g : segments_wf g → read_ipv4_addr (show_ipv6 g) = None.
Proof.
  intros [Hl Hg]. unfold show_ipv6. destruct (to_ipv4_mapped g); [done|]. destruct (longest_zeroes _ _ _ g) as [s l]. rewrite !fmt_gtext.
  destruct (1 <? l)%nat; [apply gtext_no_ipv4; [by apply Forall_take|apply stop_colons]|].
  rewrite <- (app_nil_r (gtext true g)). apply gtext_no_ipv4; [done|by left].
Qed.

(** The IP address printed for a parsed endpoint, which migration records as the egress address of a
    validator, is a text the registry accepts as an IP address, and parses to the same address: octets or segments,
    with the longest run of zero segments compressed or not, and IPv4-mapped addresses. *)
Theorem socket_ip_roundtrip t a :
  parse_socket_addr t = Some a →
  parse_ip_addr (socket_ip_string a) = Some (socket_ip a) ∧ ensure_address_is_ip (socket_ip_string a) = true.
Proof.
  intros Hwf%parse_socket_wf. enough (parse_ip_addr (socket_ip_string a) = Some (socket_ip a)) as Hp
    by (split; [done|]; unfold ensure_address_is_ip; by rewrite Hp).
  unfold parse_ip_addr, parse_with, socket_ip_string, read_ip_addr, or_else. destruct a as [o p|g sc p]; cbn [socket_wf socket_ip] in *.
  - rewrite bytes_string_roundtrip by (by apply show_ipv4_bytes). rewrite <- (app_nil_r (show_ipv4 o)).
    by erewrite parser_bind_run by (by apply read_ipv4_show).
  - rewrite bytes_string_roundtrip by (by apply show_ipv6_bytes). rewrite parser_bind_none by (by apply show_ipv6_no_ipv4).
    by erewrite parser_bind_run by (by apply read_ipv6_show).
Qed.

(** ** Ports with leading zeroes *)
Lemma take_zeroes n l : take_digits 10 (replicate n (char "0") ++ l) = (replicate n 0 ++ (take_digits 10 l).1, (take_digits 10 l).2).
Proof.
  induction n as [|n IH]; [cbn [replicate app]; by destruct (take_digits 10 l)|]. cbn [replicate app take_digits].
  change (to_digit 10 (char "0")) with (Some 0). by rewrite IH.
Qed.
Lemma zeroes_value n ds : digits_value 10 (replicate n 0 ++ ds) = digits_value 10 ds.
Proof. unfold digits_value. rewrite fold_left_app. f_equal. induction n; [done|]. exact IHn. Qed.

Lemma read_number_zeroes max n l v rest :
  read_number max 10 None true l = Some (v, rest) → read_number max 10 None true (replicate n (char "0") ++ l) = Some (v, rest).
Proof.
  unfold read_number. rewrite take_zeroes. destruct (take_digits 10 l) as [ds r]. cbn [fst snd]. rewrite zeroes_value, length_app.
  destruct (Nat.eqb_spec (length ds) 0); [done|]. rewrite (proj2 (Nat.eqb_neq _ _)) by lia. done.
Qed.
