(* ===== verification/ValidatorConfig.v ===== *)
(** * The first validator registry
    ([src/crates/tempo-precompiles/src/validator_config/mod.rs])

    An owner registers consensus validators by address; a validator may replace its own
    record and rotate to another address.  The second registry migrates from this one. *)
From Stdlib Require Import ZArith Lia String.
From stdpp Require Import base tactics option list fin_maps gmap sets strings.
From S2P Require Import Prelude Base NetAddr.
Open Scope Z_scope.
Open Scope storage_scope.

(** ** Storage vectors ([storage/types/vec.rs])
    A length and elements; indexing is not checked, only [at] is.  The capacity of 2^32
    elements is never reached. *)
Record SVec (A : Type) := mkSVec { vlen : Z; velems : gmap Z A }.
Arguments mkSVec {_} _ _.
Arguments vlen {_} _.
Arguments velems {_} _.

Section vec.
Context {A : Type} `{Zeroed A}.
Definition vec_empty : SVec A := mkSVec 0 ∅.
Definition vec_read (v : SVec A) (i : Z) : A := (velems v).[i].
Definition vec_write (i : Z) (a : A) (v : SVec A) : SVec A := mkSVec (vlen v) (<[i:=a]> (velems v)).
Definition vec_at (v : SVec A) (i : Z) : option A := if vlen v <=? i then None else Some (vec_read v i).
Definition vec_push (a : A) (v : SVec A) : SVec A := mkSVec (vlen v + 1) (<[vlen v:=a]> (velems v)).
Definition vec_pop (v : SVec A) : SVec A :=
  if vlen v =? 0 then v else mkSVec (vlen v - 1) (delete (vlen v - 1) (velems v)).

Lemma vec_read_write v i a j : vec_read (vec_write i a v) j = if decide (i = j) then a else vec_read v j.
Proof. unfold vec_read, vec_write. cbn. apply mread_insert. Qed.
Lemma vec_read_push v a j : vec_read (vec_push a v) j = if decide (vlen v = j) then a else vec_read v j.
Proof. unfold vec_read, vec_push. cbn. apply mread_insert. Qed.
Lemma vec_read_pop v j : j < vlen v - 1 → vec_read (vec_pop v) j = vec_read v j.
Proof.
  intros Hj. unfold vec_read, vec_pop. destruct (Z.eqb_spec (vlen v) 0); [done|]. cbn.
  unfold mread. rewrite lookup_delete_ne; [done|lia].
Qed.
Lemma vlen_write v i a : vlen (vec_write i a v) = vlen v.
Proof. done. Qed.
Lemma vlen_push v a : vlen (vec_push a v) = vlen v + 1.
Proof. done. Qed.
Lemma vlen_pop v : vlen v ≠ 0 → vlen (vec_pop v) = vlen v - 1.
Proof. intros Hn. unfold vec_pop. by rewrite (proj2 (Z.eqb_neq _ _) Hn). Qed.
End vec.

(** ** State *)
Record Validator := mkValidator {
  v1_public_key : B256;
  v1_active : bool;
  v1_index : Z;
  v1_validator_address : Address;
  inbound_address : string;
  outbound_address : string;
}.
Global Instance Validator_zeroed : Zeroed Validator := mkValidator 0 false 0 ZERO EmptyString EmptyString.

Record ValidatorConfig := mkV1 {
  v1_owner : Address;
  validators_array : SVec Address;
  v1_validators : gmap Address Validator;
  next_dkg_ceremony : Z;
  v1_code : bool;
}.
Definition v1_empty : ValidatorConfig := mkV1 ZERO vec_empty ∅ 0 false.

Definition write_v1_owner (o : Address) (s : ValidatorConfig) : ValidatorConfig :=
  mkV1 o (validators_array s) (v1_validators s) (next_dkg_ceremony s) (v1_code s).
Definition write_array (v : SVec Address) (s : ValidatorConfig) : ValidatorConfig :=
  mkV1 (v1_owner s) v (v1_validators s) (next_dkg_ceremony s) (v1_code s).
Definition write_validator (a : Address) (v : Validator) (s : ValidatorConfig) : ValidatorConfig :=
  mkV1 (v1_owner s) (validators_array s) (<[a:=v]> (v1_validators s)) (next_dkg_ceremony s) (v1_code s).
Definition delete_validator (a : Address) (s : ValidatorConfig) : ValidatorConfig :=
  mkV1 (v1_owner s) (validators_array s) (delete a (v1_validators s)) (next_dkg_ceremony s) (v1_code s).
Definition write_dkg (n : Z) (s : ValidatorConfig) : ValidatorConfig :=
  mkV1 (v1_owner s) (validators_array s) (v1_validators s) n (v1_code s).
Definition write_v1_code (s : ValidatorConfig) : ValidatorConfig :=
  mkV1 (v1_owner s) (validators_array s) (v1_validators s) (next_dkg_ceremony s) true.

Notation MV1 := (M ValidatorConfig).
Definition v1_error (e : ValidatorConfigError.t) : TempoPrecompileError := ValidatorConfigError e.

(** ** Operations *)
Definition v1_initialize (o : Address) : MV1 unit := modify write_v1_code;; modify (write_v1_owner o).

Definition check_owner (caller : Address) : MV1 unit :=
  o ← gets v1_owner;
  require (o =? caller) (v1_error ValidatorConfigError.Unauthorized).

Definition change_owner (sender new_owner : Address) : MV1 unit :=
  check_owner sender;; modify (write_v1_owner new_owner).

Definition v1_validator_count (s : ValidatorConfig) : Z := vlen (validators_array s).

Definition get_validators_array (s : ValidatorConfig) (i : Z) : Result Address :=
  ok_or (vec_at (validators_array s) i) (Panic ArrayOutOfBounds).

Definition get_validator (s : ValidatorConfig) (a : Address) : Validator := (v1_validators s).[a].

Definition validator_exists (s : ValidatorConfig) (a : Address) : bool :=
  negb (v1_public_key (v1_validators s).[a] =? 0).

(** The records are read by the addresses of the array, and carry those addresses. *)
Definition v1_get_validators (s : ValidatorConfig) : list Validator :=
  map (λ i, let a := vec_read (validators_array s) i in
            let v := (v1_validators s).[a] in
            mkValidator (v1_public_key v) (v1_active v) (v1_index v) a (inbound_address v) (outbound_address v))
    (seqZ 0 (vlen (validators_array s))).

(** Both endpoints are [<ip>:<port>]; the text in the error depends on the hard fork. *)
Definition check_endpoints (e : Env) (inbound outbound : string) : Result unit :=
  let text := if is_t2 (spec e) then IpError.ip_port else IpError.ip_port_debug in
  ensure (ensure_address_is_ip_port inbound)
    (v1_error (ValidatorConfigError.NotHostPort "inboundAddress" inbound text));;
  ensure (ensure_address_is_ip_port outbound)
    (v1_error (ValidatorConfigError.NotIpPort "outboundAddress" outbound text)).

Definition v1_add_validator (sender new_address : Address) (key : B256) (active : bool) (inbound outbound : string) :
    MV1 unit :=
  require (negb (key =? 0)) (v1_error ValidatorConfigError.InvalidPublicKey);;
  check_owner sender;;
  exists_ ← gets (λ s, validator_exists s new_address);
  require (negb exists_) (v1_error ValidatorConfigError.ValidatorAlreadyExists);;
  e ← ask;
  lift (check_endpoints e inbound outbound);;
  count ← gets v1_validator_count;
  modify (write_validator new_address (mkValidator key active count new_address inbound outbound));;
  modify (λ s, write_array (vec_push new_address (validators_array s)) s).

Definition update_validator (sender new_address : Address) (key : B256) (inbound outbound : string) : MV1 unit :=
  require (negb (key =? 0)) (v1_error ValidatorConfigError.InvalidPublicKey);;
  exists_ ← gets (λ s, validator_exists s sender);
  require exists_ (v1_error ValidatorConfigError.ValidatorNotFound);;
  old ← gets (λ s, (v1_validators s).[sender]);
  when (negb (new_address =? sender)) (
    taken ← gets (λ s, validator_exists s new_address);
    require (negb taken) (v1_error ValidatorConfigError.ValidatorAlreadyExists);;
    modify (λ s, write_array (vec_write (v1_index old) new_address (validators_array s)) s);;
    modify (delete_validator sender));;
  e ← ask;
  lift (check_endpoints e inbound outbound);;
  modify (write_validator new_address
    (mkValidator key (v1_active old) (v1_index old) new_address inbound outbound)).

Definition set_active (b : bool) (v : Validator) : Validator :=
  mkValidator (v1_public_key v) b (v1_index v) (v1_validator_address v) (inbound_address v) (outbound_address v).

Definition change_validator_status (sender validator : Address) (active : bool) : MV1 unit :=
  check_owner sender;;
  exists_ ← gets (λ s, validator_exists s validator);
  require exists_ (v1_error ValidatorConfigError.ValidatorNotFound);;
  modify (λ s, write_validator validator (set_active active (v1_validators s).[validator]) s).

Definition change_validator_status_by_index (sender : Address) (i : Z) (active : bool) : MV1 unit :=
  check_owner sender;;
  found ← gets (λ s, vec_at (validators_array s) i);
  a ← lift (ok_or found (v1_error ValidatorConfigError.ValidatorNotFound));
  modify (λ s, write_validator a (set_active active (v1_validators s).[a]) s).

Definition set_next_full_dkg_ceremony (sender : Address) (epoch : Z) : MV1 unit :=
  check_owner sender;; modify (write_dkg epoch).
