(* ===== verification/ValidatorConfigV2.v ===== *)
(** * The second validator registry
    ([src/crates/tempo-precompiles/src/validator_config_v2/mod.rs])

    An append-only vector of validator records with block heights, lookup tables by address
    and public key, the set of ingress addresses in use, and a compact list of the
    active records.  It is filled once from the first registry. *)
From Stdlib Require Import ZArith Lia String.
From stdpp Require Import base tactics option list fin_maps gmap sets strings.
From S2P Require Import Prelude Base NetAddr ValidatorConfig.
Open Scope Z_scope.
Open Scope storage_scope.

Definition VALIDATOR_CONFIG_V2_ADDRESS : Address := 0xCCCCCCCC00000000000000000000000000000001.
Definition VALIDATOR_NS_ADD : list Z := string_bytes "TEMPO_VALIDATOR_CONFIG_V2_ADD_VALIDATOR".
Definition VALIDATOR_NS_ROTATE : list Z := string_bytes "TEMPO_VALIDATOR_CONFIG_V2_ROTATE_VALIDATOR".

(** The Ed25519 implementation of [commonware-cryptography]: which byte strings decode as a
    signature, which words decode as a public key, and verification in a namespace. *)
Class Ed25519 := {
  signature_decodes : list Z → bool;
  public_key_decodes : B256 → bool;
  ed25519_verify : B256 → list Z → B256 → list Z → bool;
}.

(** ** State *)
Record Config := mkConfig {
  owner : Address;
  is_init : bool;
  init_at_height : Z;
  migration_skipped_count : Z;
  v1_validator_count : Z;
}.
Definition config_empty : Config := mkConfig ZERO false 0 0 0.
Definition config_new (o : Address) (init : bool) (height : Z) : Config := mkConfig o init height 0 0.

Record ValidatorRecord := mkRecord {
  public_key : B256;
  validator_address : Address;
  ingress : string;
  egress : string;
  fee_recipient : Address;
  index : Z;
  active_idx : Z;
  added_at_height : Z;
  deactivated_at_height : Z;
}.
Global Instance ValidatorRecord_zeroed : Zeroed ValidatorRecord :=
  mkRecord 0 ZERO EmptyString EmptyString ZERO 0 0 0 0.

Record ValidatorConfigV2 := mkV2 {
  config : Config;
  validators : SVec ValidatorRecord;
  address_to_index : gmap Address Z;
  pubkey_to_index : gmap B256 Z;
  next_network_identity_rotation_epoch : Z;
  active_ingress_ips : gmap B256 bool;
  active_indices : SVec Z;
  v2_code : bool;
}.
Definition v2_empty : ValidatorConfigV2 := mkV2 config_empty vec_empty ∅ ∅ 0 ∅ vec_empty false.

Definition write_config (c : Config) (s : ValidatorConfigV2) : ValidatorConfigV2 :=
  mkV2 c (validators s) (address_to_index s) (pubkey_to_index s) (next_network_identity_rotation_epoch s)
    (active_ingress_ips s) (active_indices s) (v2_code s).
Definition write_validators (v : SVec ValidatorRecord) (s : ValidatorConfigV2) : ValidatorConfigV2 :=
  mkV2 (config s) v (address_to_index s) (pubkey_to_index s) (next_network_identity_rotation_epoch s)
    (active_ingress_ips s) (active_indices s) (v2_code s).
Definition write_record (i : Z) (r : ValidatorRecord) (s : ValidatorConfigV2) : ValidatorConfigV2 :=
  write_validators (vec_write i r (validators s)) s.
Definition write_addresses (m : gmap Address Z) (s : ValidatorConfigV2) : ValidatorConfigV2 :=
  mkV2 (config s) (validators s) m (pubkey_to_index s) (next_network_identity_rotation_epoch s)
    (active_ingress_ips s) (active_indices s) (v2_code s).
Definition write_pubkey (k : B256) (i : Z) (s : ValidatorConfigV2) : ValidatorConfigV2 :=
  mkV2 (config s) (validators s) (address_to_index s) (<[k:=i]> (pubkey_to_index s))
    (next_network_identity_rotation_epoch s) (active_ingress_ips s) (active_indices s) (v2_code s).
Definition write_epoch (n : Z) (s : ValidatorConfigV2) : ValidatorConfigV2 :=
  mkV2 (config s) (validators s) (address_to_index s) (pubkey_to_index s) n
    (active_ingress_ips s) (active_indices s) (v2_code s).
Definition write_ips (m : gmap B256 bool) (s : ValidatorConfigV2) : ValidatorConfigV2 :=
  mkV2 (config s) (validators s) (address_to_index s) (pubkey_to_index s)
    (next_network_identity_rotation_epoch s) m (active_indices s) (v2_code s).
Definition write_actives (v : SVec Z) (s : ValidatorConfigV2) : ValidatorConfigV2 :=
  mkV2 (config s) (validators s) (address_to_index s) (pubkey_to_index s)
    (next_network_identity_rotation_epoch s) (active_ingress_ips s) v (v2_code s).
Definition write_v2_code (s : ValidatorConfigV2) : ValidatorConfigV2 :=
  mkV2 (config s) (validators s) (address_to_index s) (pubkey_to_index s)
    (next_network_identity_rotation_epoch s) (active_ingress_ips s) (active_indices s) true.

Definition set_deactivated (h : Z) (r : ValidatorRecord) : ValidatorRecord :=
  mkRecord (public_key r) (validator_address r) (ingress r) (egress r) (fee_recipient r) (index r)
    (active_idx r) (added_at_height r) h.
Definition set_active_idx (i : Z) (r : ValidatorRecord) : ValidatorRecord :=
  mkRecord (public_key r) (validator_address r) (ingress r) (egress r) (fee_recipient r) (index r)
    i (added_at_height r) (deactivated_at_height r).

(** Both registries. *)
Record Registries := mkRegistries { v1 : ValidatorConfig; v2 : ValidatorConfigV2 }.
Definition registries_empty : Registries := mkRegistries v1_empty v2_empty.
Definition at_v1 {A} : M ValidatorConfig A → M Registries A := zoom v1 (λ s w, mkRegistries s (v2 w)).
Definition at_v2 {A} : M ValidatorConfigV2 A → M Registries A := zoom v2 (λ s w, mkRegistries (v1 w) s).

Notation MV2 := (M ValidatorConfigV2).
Definition v2_error (e : ValidatorConfigV2Error.t) : TempoPrecompileError := ValidatorConfigV2Error e.

(** ** Guards *)
Definition is_owner (c : Config) (a : Address) : bool := owner c =? a.
Definition require_init (c : Config) : Result Config :=
  if is_init c then Ok c else Err (v2_error ValidatorConfigV2Error.NotInitialized).
Definition require_not_init (c : Config) : Result Config :=
  if is_init c then Err (v2_error ValidatorConfigV2Error.AlreadyInitialized) else Ok c.
Definition require_owner (c : Config) (caller : Address) : Result Config :=
  if negb (is_owner c caller) then Err (v2_error ValidatorConfigV2Error.Unauthorized) else Ok c.
Definition require_owner_or_validator (c : Config) (caller validator : Address) : Result Config :=
  if negb (caller =? validator) && negb (is_owner c caller) then Err (v2_error ValidatorConfigV2Error.Unauthorized)
  else Ok c.

Definition v2_initialize (o : Address) : MV2 unit :=
  modify write_v2_code;;
  e ← ask;
  modify (write_config (config_new o true (block_number e))).

(** ** Reads *)
Definition validator_count (s : ValidatorConfigV2) : Z := vlen (validators s).

Definition get_active_validator (s : ValidatorConfigV2) (idx : Z) : Result ValidatorRecord :=
  if vlen (validators s) <=? idx then Err (v2_error ValidatorConfigV2Error.ValidatorNotFound)
  else
    let v := vec_read (validators s) idx in
    if negb (deactivated_at_height v =? 0) then Err (v2_error ValidatorConfigV2Error.ValidatorAlreadyDeactivated)
    else Ok v.

Definition read_validator_at (s : ValidatorConfigV2) (i : Z) : ValidatorRecord := vec_read (validators s) i.

Definition validator_by_index (s : ValidatorConfigV2) (i : Z) : Result ValidatorRecord :=
  if validator_count s <=? i then Err (v2_error ValidatorConfigV2Error.ValidatorNotFound)
  else Ok (read_validator_at s i).

Definition validator_by_address (s : ValidatorConfigV2) (a : Address) : Result ValidatorRecord :=
  let idx1 := (address_to_index s).[a] in
  if idx1 =? 0 then Err (v2_error ValidatorConfigV2Error.ValidatorNotFound) else Ok (read_validator_at s (idx1 - 1)).

Definition validator_by_public_key (s : ValidatorConfigV2) (k : B256) : Result ValidatorRecord :=
  let idx1 := (pubkey_to_index s).[k] in
  if idx1 =? 0 then Err (v2_error ValidatorConfigV2Error.ValidatorNotFound) else Ok (read_validator_at s (idx1 - 1)).

Definition get_active_validators (s : ValidatorConfigV2) : list ValidatorRecord :=
  map (λ i, read_validator_at s (vec_read (active_indices s) i - 1)) (seqZ 0 (vlen (active_indices s))).

(** ** Endpoints *)
Definition validate_endpoints (ingress egress : string) : Result unit :=
  ensure (ensure_address_is_ip_port ingress) (v2_error (ValidatorConfigV2Error.NotIpPort ingress IpError.ip_port));;
  ensure (ensure_address_is_ip egress) (v2_error (ValidatorConfigV2Error.NotIp egress IpError.ip)).

Section registry.
Context `{Primitives, Ed25519}.

Definition ingress_key (ingress : string) : Result B256 :=
  a ← ok_or (parse_socket_addr ingress) (v2_error (ValidatorConfigV2Error.NotIpPort ingress IpError.ip_port));
  Ok (keccak256 (socket_bytes a)).

Definition require_unique_ingress (s : ValidatorConfigV2) (ingress : string) : Result B256 :=
  h ← ingress_key ingress;
  if (active_ingress_ips s).[h] then Err (v2_error (ValidatorConfigV2Error.IngressAlreadyExists ingress)) else Ok h.

Definition update_ingress_ip_tracking (old_ingress new_ingress : string) : MV2 unit :=
  old_hash ← lift (ingress_key old_ingress);
  new_hash ← lift (ingress_key new_ingress);
  when (negb (old_hash =? new_hash)) (
    taken ← gets (λ s, (active_ingress_ips s).[new_hash]);
    require (negb taken) (v2_error (ValidatorConfigV2Error.IngressAlreadyExists new_ingress));;
    modify (λ s, write_ips (delete old_hash (active_ingress_ips s)) s);;
    modify (λ s, write_ips (<[new_hash:=true]> (active_ingress_ips s)) s)).

Definition append_validator (addr : Address) (key : B256) (ingress egress : string) (fee : Address)
    (added deactivated : Z) : MV2 Z :=
  count ← gets validator_count;
  active ← (if deactivated =? 0 then
              modify (λ s, write_actives (vec_push (count + 1) (active_indices s)) s);;
              gets (λ s, vlen (active_indices s))
            else mret 0);
  modify (λ s, write_validators (vec_push (mkRecord key addr ingress egress fee count active added deactivated)
                                   (validators s)) s);;
  modify (write_pubkey key (count + 1));;
  modify (λ s, write_addresses (<[addr:=count + 1]> (address_to_index s)) s);;
  mret count.

Definition require_new_address (s : ValidatorConfigV2) (a : Address) : Result unit :=
  ensure (negb (a =? ZERO)) (v2_error ValidatorConfigV2Error.InvalidValidatorAddress);;
  let idx1 := (address_to_index s).[a] in
  ensure (negb (negb (idx1 =? 0) && (deactivated_at_height (vec_read (validators s) (idx1 - 1)) =? 0)))
    (v2_error ValidatorConfigV2Error.AddressAlreadyHasValidator).

Definition require_new_pubkey (s : ValidatorConfigV2) (k : B256) : Result unit :=
  ensure (negb (k =? 0)) (v2_error ValidatorConfigV2Error.InvalidPublicKey);;
  ensure ((pubkey_to_index s).[k] =? 0) (v2_error ValidatorConfigV2Error.PublicKeyAlreadyExists).

(** ** Signatures *)
Inductive SignatureKind := SigAdd (fee_recipient : Address) | SigRotate.

(** [u8::try_from(s.len()).expect(..)]: a longer text is a Rust panic. *)
Definition length_u8 (s : string) : Result Z :=
  let n := Z.of_nat (String.length s) in
  if n <=? U8_MAX then Ok n else Err Aborted.

Definition verify_validator_signature (e : Env) (kind : SignatureKind) (key : B256) (signature : list Z)
    (addr : Address) (ingress egress : string) : Result unit :=
  ensure (signature_decodes signature) (v2_error ValidatorConfigV2Error.InvalidSignatureFormat);;
  ingress_len ← length_u8 ingress;
  egress_len ← length_u8 egress;
  let '(tail, namespace) := match kind with
                            | SigAdd fee => (address_bytes fee, VALIDATOR_NS_ADD)
                            | SigRotate => ([], VALIDATOR_NS_ROTATE)
                            end in
  let message := keccak256 (be_bytes 8 (chain_id e) ++ address_bytes VALIDATOR_CONFIG_V2_ADDRESS ++
    address_bytes addr ++ [ingress_len] ++ string_bytes ingress ++ [egress_len] ++ string_bytes egress ++ tail) in
  ensure (public_key_decodes key) (v2_error ValidatorConfigV2Error.InvalidPublicKey);;
  ensure (ed25519_verify key namespace message signature) (v2_error ValidatorConfigV2Error.InvalidSignature).

(** ** Operations of the owner *)
Definition add_validator (sender addr : Address) (key : B256) (ingress egress : string) (fee : Address)
    (signature : list Z) : MV2 Z :=
  c ← gets config;
  c ← lift (require_init c);
  lift (require_owner c sender);;
  view (λ _ s, require_new_pubkey s key);;
  view (λ _ s, require_new_address s addr);;
  lift (validate_endpoints ingress egress);;
  ingress_hash ← view (λ _ s, require_unique_ingress s ingress);
  view (λ e _, verify_validator_signature e (SigAdd fee) key signature addr ingress egress);;
  e ← ask;
  modify (λ s, write_ips (<[ingress_hash:=true]> (active_ingress_ips s)) s);;
  i ← append_validator addr key ingress egress fee (block_number e) 0;
  emit VALIDATOR_CONFIG_V2_ADDRESS (ValidatorAdded i addr key ingress egress fee);;
  mret i.

Definition transfer_ownership (sender new_owner : Address) : MV2 unit :=
  require (negb (new_owner =? ZERO)) (v2_error ValidatorConfigV2Error.InvalidOwner);;
  c ← gets config;
  c ← lift (require_init c);
  c ← lift (require_owner c sender);
  modify (write_config (mkConfig new_owner (is_init c) (init_at_height c) (migration_skipped_count c)
                          (v1_validator_count c)));;
  emit VALIDATOR_CONFIG_V2_ADDRESS (OwnershipTransferred (owner c) new_owner).

Definition set_network_identity_rotation_epoch (sender : Address) (epoch : Z) : MV2 unit :=
  c ← gets config;
  c ← lift (require_init c);
  lift (require_owner c sender);;
  previous ← gets next_network_identity_rotation_epoch;
  modify (write_epoch epoch);;
  emit VALIDATOR_CONFIG_V2_ADDRESS (NetworkIdentityRotationEpochSet previous epoch).

(** ** Operations of the owner or the validator *)
(** Swap-and-pop: the last active index fills the gap. *)
Definition remove_active (pos : Z) : MV2 unit :=
  last_pos ← gets (λ s, vlen (active_indices s) - 1);
  when (negb (pos =? last_pos)) (
    moved ← gets (λ s, vec_read (active_indices s) last_pos);
    modify (λ s, write_actives (vec_write pos moved (active_indices s)) s);;
    modify (λ s, write_record (moved - 1) (set_active_idx (pos + 1) (vec_read (validators s) (moved - 1))) s));;
  modify (λ s, write_actives (vec_pop (active_indices s)) s).

Definition deactivate_validator (sender : Address) (idx : Z) : MV2 unit :=
  v ← view (λ _ s, get_active_validator s idx);
  c ← gets config;
  lift (require_owner_or_validator c sender (validator_address v));;
  h ← lift (ingress_key (ingress v));
  modify (λ s, write_ips (delete h (active_ingress_ips s)) s);;
  e ← ask;
  modify (λ s, write_record idx (set_deactivated (block_number e) (vec_read (validators s) idx)) s);;
  remove_active (active_idx v - 1);;
  modify (λ s, write_record idx (set_active_idx 0 (vec_read (validators s) idx)) s);;
  emit VALIDATOR_CONFIG_V2_ADDRESS (ValidatorDeactivated idx (validator_address v)).

Definition rotate_validator (sender : Address) (idx : Z) (key : B256) (new_ingress new_egress : string)
    (signature : list Z) : MV2 unit :=
  v ← view (λ _ s, get_active_validator s idx);
  c ← gets config;
  c ← lift (require_init c);
  lift (require_owner_or_validator c sender (validator_address v));;
  view (λ _ s, require_new_pubkey s key);;
  lift (validate_endpoints new_ingress new_egress);;
  view (λ _ s, require_unique_ingress s new_ingress);;
  view (λ e _, verify_validator_signature e SigRotate key signature (validator_address v) new_ingress new_egress);;
  e ← ask;
  update_ingress_ip_tracking (ingress v) new_ingress;;
  appended_idx ← gets (λ s, vlen (validators s));
  modify (λ s, write_validators (vec_push
    (mkRecord (public_key v) (validator_address v) (ingress v) (egress v) (fee_recipient v) appended_idx 0
       (added_at_height v) (block_number e)) (validators s)) s);;
  modify (write_pubkey (public_key v) (appended_idx + 1));;
  modify (λ s, let u := vec_read (validators s) idx in
    write_record idx (mkRecord key (validator_address u) new_ingress new_egress (fee_recipient u) (index u)
                        (active_idx u) (block_number e) (deactivated_at_height u)) s);;
  modify (write_pubkey key (idx + 1));;
  emit VALIDATOR_CONFIG_V2_ADDRESS (ValidatorRotated idx appended_idx (validator_address v) (public_key v) key
                                      new_ingress new_egress sender).

(** The guards the in-place updates share. *)
Definition guard_update (sender : Address) (idx : Z) : MV2 ValidatorRecord :=
  v ← view (λ _ s, get_active_validator s idx);
  c ← gets config;
  c ← lift (require_init c);
  lift (require_owner_or_validator c sender (validator_address v));;
  mret v.

Definition set_fee_recipient (sender : Address) (idx : Z) (fee : Address) : MV2 unit :=
  v ← guard_update sender idx;
  modify (write_record idx (mkRecord (public_key v) (validator_address v) (ingress v) (egress v) fee (index v)
                              (active_idx v) (added_at_height v) (deactivated_at_height v)));;
  emit VALIDATOR_CONFIG_V2_ADDRESS (FeeRecipientUpdated idx fee sender).

Definition set_ip_addresses (sender : Address) (idx : Z) (new_ingress new_egress : string) : MV2 unit :=
  v ← guard_update sender idx;
  lift (validate_endpoints new_ingress new_egress);;
  update_ingress_ip_tracking (ingress v) new_ingress;;
  modify (write_record idx (mkRecord (public_key v) (validator_address v) new_ingress new_egress (fee_recipient v)
                              (index v) (active_idx v) (added_at_height v) (deactivated_at_height v)));;
  emit VALIDATOR_CONFIG_V2_ADDRESS (IpAddressesUpdated idx new_ingress new_egress sender).

Definition transfer_validator_ownership (sender : Address) (idx : Z) (new_address : Address) : MV2 unit :=
  v ← guard_update sender idx;
  view (λ _ s, require_new_address s new_address);;
  let old_address := validator_address v in
  modify (write_record idx (mkRecord (public_key v) new_address (ingress v) (egress v) (fee_recipient v) (index v)
                              (active_idx v) (added_at_height v) (deactivated_at_height v)));;
  modify (λ s, write_addresses (delete old_address (address_to_index s)) s);;
  modify (λ s, write_addresses (<[new_address:=idx + 1]> (address_to_index s)) s);;
  emit VALIDATOR_CONFIG_V2_ADDRESS (ValidatorOwnershipTransferred idx old_address new_address sender).

(** ** Migration *)
(** [v1_count as u8]. *)
Definition as_u8 (n : Z) : Z := n mod 256.

Definition require_migration_owner (caller : Address) : M Registries Config :=
  c ← gets (λ w, config (v2 w));
  c ← lift (require_not_init c);
  c ← (if owner c =? ZERO then
         o ← gets (λ w, v1_owner (v1 w));
         v1_count ← gets (λ w, ValidatorConfig.v1_validator_count (v1 w));
         require (negb (v1_count =? 0)) (v2_error ValidatorConfigV2Error.EmptyV1ValidatorSet);;
         at_v2 (modify (write_config (mkConfig o false 0 0 (as_u8 v1_count))));;
         mret (mkConfig o (is_init c) (init_at_height c) (migration_skipped_count c) (as_u8 v1_count))
       else mret c);
  lift (require_owner c caller).

Definition skip_migration (idx : Z) (v1_val : Validator) (skipped : Z) : M Registries unit :=
  emit VALIDATOR_CONFIG_V2_ADDRESS
    (SkippedValidatorMigration idx (v1_validator_address v1_val) (v1_public_key v1_val));;
  at_v2 (modify (λ s, let c := config s in
    write_config (mkConfig (owner c) (is_init c) (init_at_height c) (Z.min U8_MAX (skipped + 1))
                    (v1_validator_count c)) s)).

(** The migration of one record of the first registry, after the checks of the index. *)
Definition migrate_record (idx : Z) (v1_val : Validator) (skipped : Z) : M Registries unit :=
  if negb (public_key_decodes (v1_public_key v1_val)) then skip_migration idx v1_val skipped
  else
    match parse_socket_addr (outbound_address v1_val) with
    | None => skip_migration idx v1_val skipped
    | Some sa =>
        known ← gets (λ w, negb ((pubkey_to_index (v2 w)).[v1_public_key v1_val] =? 0));
        if known : bool then skip_migration idx v1_val skipped
        else
          let addr := v1_validator_address v1_val in
          addr_idx ← gets (λ w, (address_to_index (v2 w)).[addr]);
          addr_active ← gets (λ w, deactivated_at_height (vec_read (validators (v2 w)) (addr_idx - 1)) =? 0);
          require (negb (negb (addr_idx =? 0) && addr_active)) (v2_error ValidatorConfigV2Error.AddressAlreadyHasValidator);;
          h ← lift (ingress_key (inbound_address v1_val));
          taken ← gets (λ w, (active_ingress_ips (v2 w)).[h]);
          if v1_active v1_val && taken then skip_migration idx v1_val skipped
          else
            e ← ask;
            i ← at_v2 (append_validator addr (v1_public_key v1_val) (inbound_address v1_val) (socket_ip_string sa)
                         ZERO (block_number e) (if v1_active v1_val then 0 else block_number e));
            at_v2 (when (v1_active v1_val) (modify (λ s, write_ips (<[h:=true]> (active_ingress_ips s)) s)));;
            emit VALIDATOR_CONFIG_V2_ADDRESS (ValidatorMigrated i addr (v1_public_key v1_val))
    end.

Definition migrate_validator (sender : Address) (idx : Z) : M Registries unit :=
  c ← require_migration_owner sender;
  let v1_count := v1_validator_count c in
  migrated ← gets (λ w, validator_count (v2 w));
  let skipped := migration_skipped_count c in
  let total_processed := migrated + skipped in
  require (negb ((v1_count <=? total_processed) || negb (idx =? v1_count - total_processed - 1)))
    (v2_error ValidatorConfigV2Error.InvalidMigrationIndex);;
  a ← view (λ _ w, get_validators_array (v1 w) idx);
  v1_val ← gets (λ w, get_validator (v1 w) a);
  migrate_record idx v1_val skipped.

Definition initialize_if_migrated (sender : Address) : M Registries unit :=
  c ← require_migration_owner sender;
  count ← gets (λ w, validator_count (v2 w));
  require (negb ((v1_validator_count c =? 0) || (count + migration_skipped_count c <? v1_validator_count c)))
    (v2_error ValidatorConfigV2Error.MigrationNotComplete);;
  epoch ← gets (λ w, next_dkg_ceremony (v1 w));
  at_v2 (modify (write_epoch epoch));;
  e ← ask;
  at_v2 (modify (write_config (mkConfig (owner c) true (block_number e) (migration_skipped_count c)
                                 (v1_validator_count c))));;
  emit VALIDATOR_CONFIG_V2_ADDRESS (ValidatorsInitialized (block_number e)).
End registry.
