(* ===== verification/ValidatorRegistry.v ===== *)
(** * The invariant of the second validator registry

    The registry keeps one fact in several places: the records, the compact list of active
    records with the positions back into it, the lookup tables and the set of ingress
    addresses.  Each of these is an invariant of its own below, stated on the records as a
    function of their position; every operation keeps all of them. *)
From Stdlib Require Import ZArith Lia String.
From stdpp Require Import base tactics option list fin_maps gmap sets strings.
From S2P Require Import Prelude Base NetAddr ValidatorConfig ValidatorConfigV2.
Open Scope Z_scope.
Open Scope storage_scope.

Implicit Types (n m i j h now : Z) (r : Z → ValidatorRecord) (f : Z → Z).

(** A record is active until its deactivation height is set. *)
Definition is_active (v : ValidatorRecord) : Prop := deactivated_at_height v = 0.

(** ** The parts *)
Section parts.
Context `{Primitives}.

(** The active list and the positions in the records are inverse to each other. *)
Record Slots n r m f : Prop := {
  sl_len : 0 ≤ n;
  sl_active_len : 0 ≤ m;
  sl_index : ∀ i, 0 ≤ i < n → index (r i) = i;
  sl_back : ∀ i, 0 ≤ i < n → is_active (r i) → 1 ≤ active_idx (r i) ≤ m ∧ f (active_idx (r i) - 1) = i + 1;
  sl_fwd : ∀ j, 0 ≤ j < m → 1 ≤ f j ≤ n ∧ is_active (r (f j - 1)) ∧ active_idx (r (f j - 1)) = j + 1;
  sl_idle : ∀ i, 0 ≤ i < n → ¬ is_active (r i) → active_idx (r i) = 0;
}.

Definition Heights now n r : Prop := ∀ i, 0 ≤ i < n →
  0 ≤ added_at_height (r i) ≤ now ∧
  (is_active (r i) ∨ added_at_height (r i) ≤ deactivated_at_height (r i) ≤ now).

(** An active validator is found by its address, and what is found has that address. *)
Record Addresses n r f : Prop := {
  ad_found : ∀ i, 0 ≤ i < n → is_active (r i) → f (validator_address (r i)) = i + 1;
  ad_sound : ∀ a, f a = 0 ∨ (1 ≤ f a ≤ n ∧ validator_address (r (f a - 1)) = a);
}.

(** Every record, active or not, is found by its public key. *)
Record Keys n r f : Prop := {
  ke_found : ∀ i, 0 ≤ i < n → f (public_key (r i)) = i + 1;
  ke_sound : ∀ k, f k = 0 ∨ (1 ≤ f k ≤ n ∧ public_key (r (f k - 1)) = k);
}.

(** The ingress addresses in use are those of the active validators, each of one. *)
Record Ingresses n r (g : Z → bool) : Prop := {
  in_used : ∀ i, 0 ≤ i < n → is_active (r i) → ∃ h, ingress_key (ingress (r i)) = Ok h ∧ g h = true;
  in_unique : ∀ i j, 0 ≤ i < n → 0 ≤ j < n → is_active (r i) → is_active (r j) →
    ingress_key (ingress (r i)) = ingress_key (ingress (r j)) → i = j;
  in_sound : ∀ h, g h = true → ∃ i, 0 ≤ i < n ∧ is_active (r i) ∧ ingress_key (ingress (r i)) = Ok h;
}.

Record RegInv now (s : ValidatorConfigV2) : Prop := {
  ri_slots : Slots (vlen (validators s)) (vec_read (validators s)) (vlen (active_indices s)) (vec_read (active_indices s));
  ri_heights : Heights now (vlen (validators s)) (vec_read (validators s));
  ri_addresses : Addresses (vlen (validators s)) (vec_read (validators s)) (mread (address_to_index s));
  ri_keys : Keys (vlen (validators s)) (vec_read (validators s)) (mread (pubkey_to_index s));
  ri_ingresses : Ingresses (vlen (validators s)) (vec_read (validators s)) (mread (active_ingress_ips s));
}.
End parts.

(** The function that differs from [f] at one point. *)
Definition upd {A} (f : Z → A) (i : Z) (a : A) : Z → A := λ j, if decide (i = j) then a else f j.
Lemma upd_eq {A} (f : Z → A) i a : upd f i a i = a.
Proof. unfold upd. by case_decide. Qed.
Lemma upd_ne {A} (f : Z → A) i a j : i ≠ j → upd f i a j = f j.
Proof. intros. unfold upd. by case_decide. Qed.

(** Case analysis on the updated points, and arithmetic. *)
Ltac point f i a j :=
  let Hp := fresh "Hp" in
  destruct (decide (i = j)) as [Hp|Hp]; [subst; rewrite ?upd_eq in * | rewrite ?(upd_ne f i a j Hp) in *].
Ltac points :=
  repeat match goal with
  | _ : context [upd ?f ?i ?a ?j] |- _ => point f i a j
  | |- context [upd ?f ?i ?a ?j] => point f i a j
  end.

(** ** Each part under the changes the operations make *)
Section changes.
Context `{Primitives}.

Lemma slots_ext n r r' m f :
  (∀ i, 0 ≤ i < n → index (r' i) = index (r i) ∧ active_idx (r' i) = active_idx (r i) ∧
                    deactivated_at_height (r' i) = deactivated_at_height (r i)) →
  Slots n r m f → Slots n r' m f.
Proof.
  intros He [Hn Hm Hi Hb Hf Hd]. split; [done|done|..]; unfold is_active in *.
  - intros i Hir. destruct (He i Hir) as (-> & _ & _). auto.
  - intros i Hir. destruct (He i Hir) as (_ & -> & ->). auto.
  - intros j Hj. destruct (Hf j Hj) as (Hr & Ha & Hx). destruct (He (f j - 1) ltac:(lia)) as (_ & -> & ->). auto.
  - intros i Hir. destruct (He i Hir) as (_ & -> & ->). auto.
Qed.

Lemma slots_push_active n r m f v :
  index v = n → active_idx v = m + 1 → is_active v → Slots n r m f →
  Slots (n + 1) (upd r n v) (m + 1) (upd f m (n + 1)).
Proof.
  intros Hiv Hav Hv [Hn Hm Hi Hb Hf Hd]. split; [lia|lia|..].
  - intros i Hir. points; [done|]. apply Hi. lia.
  - intros i Hir Ha. destruct (decide (n = i)) as [->|].
    + rewrite upd_eq in *. split; [lia|]. rewrite Hav. replace (m + 1 - 1) with m by lia. apply upd_eq.
    + rewrite upd_ne in Ha |- * by done. destruct (Hb i ltac:(lia) Ha). rewrite upd_ne by lia. split; [lia|done].
  - intros j Hj. destruct (decide (m = j)) as [->|].
    + rewrite upd_eq. replace (n + 1 - 1) with n by lia. rewrite upd_eq. repeat split; auto; lia.
    + rewrite (upd_ne f) by done. destruct (Hf j ltac:(lia)) as (? & ? & ?). rewrite upd_ne by lia. repeat split; auto; lia.
  - intros i Hir Ha. points; [done|]. apply Hd; [lia|done].
Qed.

Lemma slots_push_idle n r m f v :
  index v = n → active_idx v = 0 → ¬ is_active v → Slots n r m f → Slots (n + 1) (upd r n v) m f.
Proof.
  intros Hiv Hav Hv [Hn Hm Hi Hb Hf Hd]. split; [lia|lia|..].
  - intros i Hir. points; [done|]. apply Hi. lia.
  - intros i Hir Ha. points; [done|]. apply Hb; [lia|done].
  - intros j Hj. destruct (Hf j Hj) as (? & ? & ?). rewrite upd_ne by lia. repeat split; auto; lia.
  - intros i Hir Ha. points; [done|]. apply Hd; [lia|done].
Qed.

(** The active list is compacted by moving its last entry into the gap. *)
Lemma slots_remove n r m f i v (r' : Z → ValidatorRecord) f' :
  0 ≤ i < n → is_active (r i) → ¬ is_active v → index v = i → active_idx v = 0 → Slots n r m f →
  let p := active_idx (r i) - 1 in
  (∀ j, 0 ≤ j < m - 1 → f' j = if decide (p = j) then f (m - 1) else f j) →
  (∀ j, 0 ≤ j < n → r' j = if decide (i = j) then v
                            else if decide (f (m - 1) - 1 = j) then set_active_idx (p + 1) (r j) else r j) →
  Slots n r' (m - 1) f'.
Proof.
  intros Hir Hai Hv Hiv Hav [Hn Hm Hi Hb Hf Hd] p Hf' Hr'. destruct (Hb i Hir Hai) as [Hp Hfp]. fold p in Hfp.
  assert (∀ j k, 0 ≤ j < m → 0 ≤ k < m → f j = f k → j = k) as Hinj.
  { intros j k Hj Hk Hjk. destruct (Hf j Hj) as (_ & _ & H1), (Hf k Hk) as (_ & _ & H2). rewrite Hjk in H1. lia. }
  destruct (Hf (m - 1) ltac:(lia)) as (Hl1 & Hl2 & Hl3). split; [lia|lia|..].
  - intros j Hj. rewrite Hr' by done. repeat case_decide; subst; cbn; auto.
  - intros j Hj. rewrite Hr' by done. case_decide as Hij; [done|]. case_decide as Hlj.
    + intros Ha. cbn. subst j. assert (p ≠ m - 1) by (intros Hpm; rewrite Hpm in Hfp; lia).
      split; [lia|]. rewrite Hf' by lia. replace (p + 1 - 1) with p by lia. case_decide; [lia|done].
    + intros Ha. destruct (Hb j Hj Ha) as [Hq Hfq].
      assert (active_idx (r j) - 1 ≠ m - 1) by (intros Hqm; rewrite Hqm in Hfq; lia).
      split; [lia|]. rewrite Hf' by lia. case_decide as Hpq; [|done]. rewrite <- Hpq in Hfq. lia.
  - intros j Hj. rewrite Hf' by done. case_decide as Hpj.
    + subst j. rewrite Hr' by lia. assert (f (m - 1) - 1 ≠ i) as Hne.
      { intros Heq. assert (p = m - 1); [|lia]. apply Hinj; [lia|lia|lia]. }
      split; [lia|]. case_decide; [lia|]. by case_decide.
    + destruct (Hf j ltac:(lia)) as (Hj1 & Hj2 & Hj3). split; [done|]. rewrite Hr' by lia.
      case_decide as Hij; [exfalso; apply Hpj, Hinj; lia|].
      case_decide as Hlj; [|done]. assert (j = m - 1); [apply Hinj; lia|lia].
  - intros j Hj. rewrite Hr' by done. case_decide; [done|]. case_decide; subst; [|auto]. intros Hna. by destruct Hna.
Qed.

Lemma heights_mono now now' n r : now ≤ now' → Heights now n r → Heights now' n r.
Proof. intros Hle Hh i Hi. destruct (Hh i Hi) as [? [?|?]]; split; [lia|by left|lia|right; lia]. Qed.
Lemma heights_ext now n r r' :
  (∀ i, 0 ≤ i < n → added_at_height (r' i) = added_at_height (r i) ∧
                    deactivated_at_height (r' i) = deactivated_at_height (r i)) →
  Heights now n r → Heights now n r'.
Proof. intros He Hh i Hi. unfold is_active. destruct (He i Hi) as [-> ->]. exact (Hh i Hi). Qed.
Lemma heights_push now n r v :
  0 ≤ added_at_height v ≤ now → is_active v ∨ added_at_height v ≤ deactivated_at_height v ≤ now →
  Heights now n r → Heights now (n + 1) (upd r n v).
Proof. intros Ha Hd Hh i Hi. points; [auto|]. apply Hh. lia. Qed.

Lemma heights_write now n r i v :
  0 ≤ added_at_height v ≤ now → is_active v → Heights now n r → Heights now n (upd r i v).
Proof. intros Ha Hd Hh j Hj. points; [auto|]. by apply Hh. Qed.

Lemma addresses_ext n r r' f :
  (∀ i, 0 ≤ i < n → validator_address (r' i) = validator_address (r i) ∧ (is_active (r' i) → is_active (r i))) →
  Addresses n r f → Addresses n r' f.
Proof.
  intros He [Hf Hs]. split.
  - intros i Hi Ha. destruct (He i Hi) as [-> Ha']. auto.
  - intros a. destruct (Hs a) as [?|[Hr Ha]]; [by left|]. right. destruct (He (f a - 1) ltac:(lia)) as [-> _]. auto.
Qed.

(** A record whose address no active validator has. *)
Definition free_address n r (f : Z → Z) (a : Address) : Prop := f a = 0 ∨ ¬ is_active (r (f a - 1)).

Lemma free_not_active n r f a i :
  Addresses n r f → free_address n r f a → 0 ≤ i < n → is_active (r i) → validator_address (r i) ≠ a.
Proof.
  intros [Hf _] Hfree Hi Ha <-. unfold free_address in Hfree. rewrite (Hf i Hi Ha) in Hfree.
  destruct Hfree as [?|Hna]; [lia|]. apply Hna. by replace (i + 1 - 1) with i by lia.
Qed.

Lemma addresses_push n r f v :
  0 ≤ n → free_address n r f (validator_address v) → Addresses n r f →
  Addresses (n + 1) (upd r n v) (upd f (validator_address v) (n + 1)).
Proof.
  intros Hn Hfree HA. pose proof HA as [Hf Hs]. split.
  - intros i Hi Ha. destruct (decide (n = i)) as [->|].
    + rewrite (upd_eq r), upd_eq. done.
    + rewrite (upd_ne r) in Ha |- * by done. rewrite upd_ne; [apply Hf; [lia|done]|].
      intros Heq. eapply (free_not_active n r f _ i HA Hfree); [lia|done..].
  - intros a. destruct (decide (validator_address v = a)) as [<-|].
    + right. rewrite upd_eq. replace (n + 1 - 1) with n by lia. rewrite upd_eq. split; [lia|done].
    + rewrite (upd_ne f) by done. destruct (Hs a) as [?|[Hr Ha]]; [by left|]. right. rewrite upd_ne by lia. split; [lia|done].
Qed.

(** A record pushed with an address that stays with its holder: the snapshot of a rotation. *)
Lemma addresses_push_idle n r f v : 0 ≤ n → ¬ is_active v → Addresses n r f → Addresses (n + 1) (upd r n v) f.
Proof.
  intros Hn Hv [Hf Hs]. split.
  - intros i Hi Ha. points; [done|]. apply Hf; [lia|done].
  - intros a. destruct (Hs a) as [?|[Hr Ha]]; [by left|]. right. rewrite upd_ne by lia. split; [lia|done].
Qed.

Lemma addresses_move n r f f' i v a :
  0 ≤ i < n → is_active (r i) → validator_address v = a → free_address n r f a → Addresses n r f →
  (∀ b, f' b = if decide (a = b) then i + 1 else if decide (validator_address (r i) = b) then 0 else f b) →
  Addresses n (upd r i v) f'.
Proof.
  intros Hi Hai Hva Hfree HA Hf'. pose proof HA as [Hf Hs]. split.
  - intros j Hj Ha. rewrite Hf'. destruct (decide (i = j)) as [->|].
    + rewrite upd_eq in *. by rewrite decide_True.
    + rewrite upd_ne in Ha |- * by done.
      rewrite decide_False by (intros Heq; by eapply (free_not_active n r f _ j HA Hfree)).
      case_decide as Heq; [|by apply Hf]. pose proof (Hf i Hi Hai) as H1. rewrite Heq, (Hf j Hj Ha) in H1. lia.
  - intros b. rewrite Hf'. case_decide; subst.
    + right. replace (i + 1 - 1) with i by lia. rewrite upd_eq. split; [lia|done].
    + case_decide as Hne; [by left|]. destruct (Hs b) as [?|[Hr Hb]]; [by left|]. right. split; [done|].
      rewrite upd_ne; [done|]. intros ->. by rewrite Hb in Hne.
Qed.

Lemma keys_ext n r r' f :
  (∀ i, 0 ≤ i < n → public_key (r' i) = public_key (r i)) → Keys n r f → Keys n r' f.
Proof.
  intros He [Hf Hs]. split.
  - intros i Hi. rewrite He by done. auto.
  - intros k. destruct (Hs k) as [?|[Hr Hk]]; [by left|]. right. rewrite He by lia. auto.
Qed.
Lemma keys_push n r f v :
  0 ≤ n → f (public_key v) = 0 → Keys n r f → Keys (n + 1) (upd r n v) (upd f (public_key v) (n + 1)).
Proof.
  intros Hn H0 [Hf Hs]. split.
  - intros i Hi. destruct (decide (n = i)) as [->|]; [by rewrite (upd_eq r), upd_eq|].
    rewrite (upd_ne r) by done. rewrite upd_ne; [apply Hf; lia|]. intros Heq. rewrite Heq, Hf in H0; lia.
  - intros k. destruct (decide (public_key v = k)) as [<-|].
    + right. rewrite upd_eq. replace (n + 1 - 1) with n by lia. rewrite upd_eq. split; [lia|done].
    + rewrite (upd_ne f) by done. destruct (Hs k) as [?|[Hr Hk]]; [by left|]. right. rewrite upd_ne by lia. split; [lia|done].
Qed.

(** A rotation: the old key moves to the snapshot, the new key takes the slot. *)
Lemma keys_rotate n r f i v w :
  0 ≤ i < n → public_key v = public_key (r i) → f (public_key w) = 0 → Keys n r f →
  Keys (n + 1) (upd (upd r n v) i w) (upd (upd f (public_key v) (n + 1)) (public_key w) (i + 1)).
Proof.
  intros Hi Hv H0 HK. pose proof HK as [Hf Hs].
  assert (∀ j, 0 ≤ j < n → public_key (r j) ≠ public_key w) as Hnew by (intros j Hj Heq; rewrite <- Heq, Hf in H0; lia).
  split.
  - intros j Hj. destruct (decide (i = j)) as [->|]; [by rewrite (upd_eq _ j w), upd_eq|]. rewrite (upd_ne _ i w) by done.
    destruct (decide (n = j)) as [->|].
    + rewrite upd_eq, upd_ne by (rewrite Hv; intros Heq; by apply (Hnew i Hi)). by rewrite upd_eq.
    + rewrite (upd_ne r) by done. rewrite upd_ne by (intros Heq; apply (Hnew j); [lia|done]).
      rewrite upd_ne; [apply Hf; lia|]. rewrite Hv. intros Heq. pose proof (Hf i Hi) as H1. rewrite Heq, Hf in H1; lia.
  - intros k. destruct (decide (public_key w = k)) as [<-|].
    + right. rewrite upd_eq. replace (i + 1 - 1) with i by lia. rewrite upd_eq. split; [lia|done].
    + rewrite (upd_ne _ (public_key w)) by done. destruct (decide (public_key v = k)) as [<-|].
      * right. rewrite upd_eq. replace (n + 1 - 1) with n by lia. rewrite upd_ne, upd_eq by lia. split; [lia|done].
      * rewrite (upd_ne f) by done. destruct (Hs k) as [?|[Hr Hk]]; [by left|]. right. split; [lia|].
        rewrite upd_ne by (intros ->; congruence). by rewrite upd_ne by lia.
Qed.

Lemma ingresses_ext n r r' g :
  (∀ i, 0 ≤ i < n → ingress (r' i) = ingress (r i) ∧ deactivated_at_height (r' i) = deactivated_at_height (r i)) →
  Ingresses n r g → Ingresses n r' g.
Proof.
  intros He [Hu Hq Hs]. split; unfold is_active in *.
  - intros i Hi. destruct (He i Hi) as [-> ->]. auto.
  - intros i j Hi Hj. destruct (He i Hi) as [-> ->], (He j Hj) as [-> ->]. auto.
  - intros h Hh. destruct (Hs h Hh) as (i & Hi & ? & ?). exists i. destruct (He i Hi) as [-> ->]. auto.
Qed.
Lemma ingresses_push_idle n r g v : 0 ≤ n → ¬ is_active v → Ingresses n r g → Ingresses (n + 1) (upd r n v) g.
Proof.
  intros Hn Hv [Hu Hq Hs]. split.
  - intros i Hi Ha. points; [done|]. apply Hu; [lia|done].
  - intros i j Hi Hj Ha Hb. points; try done. apply Hq; (lia || done).
  - intros h Hh. destruct (Hs h Hh) as (i & Hi & ? & ?). exists i. rewrite upd_ne by lia. split; [lia|done].
Qed.
Lemma ingresses_push_active n r g v h :
  0 ≤ n → is_active v → ingress_key (ingress v) = Ok h → g h = false → Ingresses n r g →
  Ingresses (n + 1) (upd r n v) (upd g h true).
Proof.
  intros Hn Hv Hk Hg [Hu Hq Hs].
  assert (∀ i, 0 ≤ i < n → is_active (r i) → ingress_key (ingress (r i)) ≠ Ok h) as Hnew.
  { intros i Hi Ha Heq. destruct (Hu i Hi Ha) as (h' & Hh' & Ht). rewrite Heq in Hh'. injection Hh' as <-. congruence. }
  split.
  - intros i Hi Ha. destruct (decide (n = i)) as [->|].
    + rewrite upd_eq. exists h. by rewrite upd_eq.
    + rewrite upd_ne in Ha |- * by done. destruct (Hu i ltac:(lia) Ha) as (h' & Hh' & Ht). exists h'. split; [done|].
      unfold upd. by case_decide.
  - intros i j Hi Hj Ha Hb Heq. destruct (decide (n = i)) as [<-|], (decide (n = j)) as [<-|]; [done|..].
    + rewrite upd_eq, upd_ne in Heq by done. rewrite upd_ne in Hb by done. exfalso. apply (Hnew j); [lia|done|congruence].
    + rewrite upd_ne, upd_eq in Heq by done. rewrite upd_ne in Ha by done. exfalso. apply (Hnew i); [lia|done|congruence].
    + rewrite !upd_ne in * by done. apply Hq; (lia || done).
  - intros h' Hh'. destruct (decide (h = h')) as [<-|].
    + exists n. rewrite upd_eq. split; [lia|done].
    + rewrite upd_ne in Hh' by done. destruct (Hs h' Hh') as (i & Hi & ? & ?). exists i. rewrite upd_ne by lia. split; [lia|done].
Qed.

(** An active record leaves, or moves to a free ingress address. *)
Lemma ingresses_remove n r r' g i h :
  0 ≤ i < n → is_active (r i) → ingress_key (ingress (r i)) = Ok h → ¬ is_active (r' i) →
  (∀ j, 0 ≤ j < n → i ≠ j → ingress (r' j) = ingress (r j) ∧ deactivated_at_height (r' j) = deactivated_at_height (r j)) →
  Ingresses n r g → Ingresses n r' (upd g h false).
Proof.
  intros Hi Hai Hk Hna He [Hu Hq Hs]. split; unfold is_active in *.
  - intros j Hj Ha. destruct (decide (i = j)) as [->|Hne]; [done|]. destruct (He j Hj Hne) as [E1 E2]. rewrite E1. rewrite E2 in Ha.
    destruct (Hu j Hj Ha) as (h' & Hh' & Ht). exists h'. split; [done|]. rewrite upd_ne; [done|]. intros <-.
    apply Hne, Hq; congruence.
  - intros j k Hj Hk' Ha Hb. destruct (decide (i = j)) as [->|Hj']; [done|]. destruct (decide (i = k)) as [->|Hk'']; [done|].
    destruct (He j Hj Hj') as [-> E2], (He k Hk' Hk'') as [-> E4]. rewrite E2 in Ha. rewrite E4 in Hb. auto.
  - intros h' Hh'. destruct (decide (h = h')) as [<-|]; [by rewrite upd_eq in Hh'|]. rewrite upd_ne in Hh' by done.
    destruct (Hs h' Hh') as (j & Hj & Ha & Hk'). exists j. split; [done|].
    assert (i ≠ j) as Hne by (intros ->; congruence). destruct (He j Hj Hne) as [-> ->]. auto.
Qed.
Lemma ingresses_move n r g i v h h' :
  0 ≤ i < n → is_active (r i) → is_active v → ingress_key (ingress (r i)) = Ok h →
  ingress_key (ingress v) = Ok h' → h = h' ∨ g h' = false → Ingresses n r g →
  Ingresses n (upd r i v) (upd (upd g h false) h' true).
Proof.
  intros Hi Hai Hv Hk Hk' Hfree [Hu Hq Hs].
  assert (∀ j, 0 ≤ j < n → i ≠ j → is_active (r j) → ingress_key (ingress (r j)) ≠ Ok h') as Hnew.
  { intros j Hj Hne Ha Heq. destruct Hfree as [->|Hg]; [apply Hne, Hq; congruence|].
    destruct (Hu j Hj Ha) as (h2 & Hh2 & Ht). congruence. }
  split.
  - intros j Hj Ha. destruct (decide (i = j)) as [->|Hne].
    + rewrite upd_eq. exists h'. by rewrite upd_eq.
    + rewrite upd_ne in Ha |- * by done. destruct (Hu j Hj Ha) as (h2 & Hh2 & Ht). exists h2. split; [done|].
      unfold upd. repeat case_decide; [done| |done]. subst. exfalso. apply Hne, Hq; congruence.
  - intros j k Hj Hk2 Ha Hb Heq. destruct (decide (i = j)) as [<-|], (decide (i = k)) as [<-|]; [done|..].
    + rewrite upd_eq, upd_ne in Heq by done. rewrite upd_ne in Hb by done. exfalso. apply (Hnew k); [done..|congruence].
    + rewrite upd_ne, upd_eq in Heq by done. rewrite upd_ne in Ha by done. exfalso. apply (Hnew j); [done..|congruence].
    + rewrite !upd_ne in * by done. auto.
  - intros h2 Hh2. destruct (decide (h' = h2)) as [<-|]; [exists i; by rewrite upd_eq|]. rewrite upd_ne in Hh2 by done.
    destruct (decide (h = h2)) as [<-|]; [by rewrite upd_eq in Hh2|]. rewrite upd_ne in Hh2 by done.
    destruct (Hs h2 Hh2) as (j & Hj & Ha & Hk2). exists j. split; [done|].
    rewrite upd_ne; [done|]. intros <-. congruence.
Qed.
End changes.
