(* ===== verification/ValidatorOps.v ===== *)
(** * The operations of the second validator registry keep its invariant

    For each operation: what holds when it succeeds and the state it leaves, and that the
    invariant is kept at the height of the block. *)
From Stdlib Require Import ZArith Lia String.
From stdpp Require Import base tactics option list fin_maps gmap sets strings.
From S2P Require Import Prelude Base NetAddr ValidatorConfig ValidatorConfigV2 ValidatorRegistry.
Open Scope Z_scope.
Open Scope storage_scope.

Section invariants.
Context `{Primitives, Ed25519}.

(** The invariant from the state as functions. *)
Lemma reg_intro now s n r m f fa fk g :
  vlen (validators s) = n → vlen (active_indices s) = m →
  (∀ i, vec_read (validators s) i = r i) → (∀ j, 0 ≤ j < m → vec_read (active_indices s) j = f j) →
  (∀ a, (address_to_index s).[a] = fa a) → (∀ k, (pubkey_to_index s).[k] = fk k) →
  (∀ h, (active_ingress_ips s).[h] = g h) →
  Slots n r m f → Heights now n r → Addresses n r fa → Keys n r fk → Ingresses n r g → RegInv now s.
Proof.
  intros En Em Er Ef Ea Ek Eg [? ? Hi Hb Hf Hd] Hh [Ha Has] [Hk Hks] [Hu Hq Hs]. split; rewrite ?En, ?Em.
  - split; [done|done|..].
    + intros i. rewrite Er. auto.
    + intros i. rewrite Er. intros Hr HA. destruct (Hb i Hr HA). rewrite Ef by lia. done.
    + intros j Hj. rewrite Ef, Er by done. auto.
    + intros i. rewrite Er. auto.
  - intros i. rewrite Er. apply Hh.
  - split; [intros i; rewrite Er, Ea; auto|]. intros a. rewrite Ea, Er. auto.
  - split; [intros i; rewrite Er, Ek; auto|]. intros k. rewrite Ek, Er. auto.
  - split.
    + intros i. rewrite Er. intros Hr HA. destruct (Hu i Hr HA) as (h & ? & ?). exists h. by rewrite Eg.
    + intros i j. rewrite !Er. auto.
    + intros h. rewrite Eg. intros Hg. destruct (Hs h Hg) as (i & ?). exists i. by rewrite Er.
Qed.

Lemma reg_mono now now' s : now ≤ now' → RegInv now s → RegInv now' s.
Proof. intros Hle [? Hh ? ? ?]. split; try done. by eapply heights_mono. Qed.

Lemma reg_empty : RegInv 0 v2_empty.
Proof.
  split; cbn.
  - split; cbn; intros; lia.
  - intros i; cbn; lia.
  - split; [intros i; lia|]. intros a. by left.
  - split; [intros i; lia|]. intros a. by left.
  - split; [intros i; lia|intros i j; lia|]. intros h. unfold mread. by rewrite lookup_empty.
Qed.

(** Only the configuration and the epoch change. *)
Lemma reg_config now s c : RegInv now s → RegInv now (write_config c s).
Proof. intros []. by split. Qed.
Lemma reg_epoch now s n : RegInv now s → RegInv now (write_epoch n s).
Proof. intros []. by split. Qed.
Lemma reg_code now s : RegInv now s → RegInv now (write_v2_code s).
Proof. intros []. by split. Qed.

(** ** Guards *)
Lemma get_active_ok s i v :
  get_active_validator s i = Ok v → i < vlen (validators s) ∧ v = vec_read (validators s) i ∧ is_active v.
Proof.
  unfold get_active_validator. destruct (Z.leb_spec (vlen (validators s)) i); [done|].
  destruct (Z.eqb_spec (deactivated_at_height (vec_read (validators s) i)) 0); [|done]. intros [= <-]. auto.
Qed.

Lemma new_pubkey_ok s k u : require_new_pubkey s k = Ok u → k ≠ 0 ∧ (pubkey_to_index s).[k] = 0.
Proof. unfold require_new_pubkey. intros ([] & H1%ensure_ok & H2%ensure_ok)%result_bind_ok. bprop. auto. Qed.

Lemma new_address_ok s a u :
  require_new_address s a = Ok u →
  a ≠ ZERO ∧ free_address (vlen (validators s)) (vec_read (validators s)) (mread (address_to_index s)) a.
Proof.
  unfold require_new_address, free_address, is_active. intros ([] & H1%ensure_ok & H2%ensure_ok)%result_bind_ok. bprop.
  split; [done|]. cbn. destruct (Z.eqb_spec (address_to_index s).[a] 0); [by left|]. right. cbn in *. bprop. done.
Qed.

Lemma unique_ingress_ok s t h :
  require_unique_ingress s t = Ok h → ingress_key t = Ok h ∧ (active_ingress_ips s).[h] = false.
Proof.
  unfold require_unique_ingress. intros (h' & Hk & Hr)%result_bind_ok. destruct (active_ingress_ips s).[h'] eqn:Hg; [done|].
  injection Hr as <-. auto.
Qed.

Lemma guard_update_ok sender i e s l v st :
  guard_update sender i e (s, l) = (Ok v, st) →
  st = (s, l) ∧ i < vlen (validators s) ∧ v = vec_read (validators s) i ∧ is_active v ∧
  is_init (config s) = true ∧ (sender = validator_address v ∨ sender = owner (config s)).
Proof.
  unfold guard_update. intros Hrun.
  apply bind_ok in Hrun as (v' & st1 & [Hv ->]%view_ok & Hrun). apply get_active_ok in Hv as (Hi & -> & Ha).
  apply bind_ok in Hrun as (c & st1 & [-> ->]%gets_ok & Hrun).
  apply bind_ok in Hrun as (c & st1 & [Hc ->]%lift_ok & Hrun).
  apply bind_ok in Hrun as (c' & st1 & [Hc' ->]%lift_ok & [-> ->]%ret_ok). cbn [fst] in *.
  unfold require_init in Hc. destruct (is_init (config s)) eqn:Hinit; [|done]. injection Hc as <-.
  unfold require_owner_or_validator, is_owner in Hc'.
  destruct (negb (sender =? _) && negb (owner (config s) =? sender)) eqn:Hg; [done|]. repeat split; try done.
  apply andb_false_iff in Hg as [Hg|Hg]; bprop; auto.
Qed.

(** The set of ingress addresses after a change of one. *)
Lemma tracking_ok old new e s l u st :
  update_ingress_ip_tracking old new e (s, l) = (Ok u, st) →
  ∃ h h', ingress_key old = Ok h ∧ ingress_key new = Ok h' ∧ (h = h' ∨ (active_ingress_ips s).[h'] = false) ∧
    st = (if h =? h' then s else write_ips (<[h':=true]> (delete h (active_ingress_ips s))) s, l).
Proof.
  unfold update_ingress_ip_tracking. intros Hrun.
  apply bind_ok in Hrun as (h & st1 & [Hh ->]%lift_ok & Hrun). apply bind_ok in Hrun as (h' & st1 & [Hh' ->]%lift_ok & Hrun).
  exists h, h'. split; [done|]. split; [done|]. destruct (Z.eqb_spec h h') as [->|Hne]; cbn [negb when] in Hrun.
  - apply ret_ok in Hrun as [_ ->]. auto.
  - apply bind_ok in Hrun as (b & st1 & [-> ->]%gets_ok & Hrun). apply bind_ok in Hrun as (? & st1 & [Hb ->]%require_ok & Hrun).
    apply bind_ok in Hrun as (? & st1 & ->%modify_ok & ->%modify_ok). cbn in *. bprop. auto.
Qed.

(** The tracked set as a function. *)
Lemma tracking_fun s h h' k :
  (active_ingress_ips s).[h] = true →
  (active_ingress_ips (if h =? h' then s else write_ips (<[h':=true]> (delete h (active_ingress_ips s))) s)).[k] =
  upd (upd (mread (active_ingress_ips s)) h false) h' true k.
Proof.
  intros Hh. destruct (Z.eqb_spec h h') as [->|Hne]; cbn.
  - destruct (decide (h' = k)) as [->|]; [by rewrite upd_eq|]. by rewrite !upd_ne.
  - rewrite mread_insert. unfold upd. repeat case_decide; try done; subst; [by rewrite mread_delete_eq|].
    by rewrite mread_delete_ne.
Qed.

(** ** Appending a record *)
Definition appended (v : ValidatorRecord) (s : ValidatorConfigV2) : ValidatorConfigV2 :=
  let n := vlen (validators s) in
  write_addresses (<[validator_address v := n + 1]> (address_to_index s))
    (write_pubkey (public_key v) (n + 1)
      (write_validators (vec_push v (validators s))
        (if deactivated_at_height v =? 0 then write_actives (vec_push (n + 1) (active_indices s)) s else s))).

Lemma append_ok addr key ing egr fee added deact e s l i st :
  append_validator addr key ing egr fee added deact e (s, l) = (Ok i, st) →
  let n := vlen (validators s) in
  let v := mkRecord key addr ing egr fee n (if deact =? 0 then vlen (active_indices s) + 1 else 0) added deact in
  i = n ∧ st = (appended v s, l).
Proof.
  unfold append_validator, appended, validator_count. intros Hrun.
  apply bind_ok in Hrun as (n & st1 & [-> ->]%gets_ok & Hrun). apply bind_ok in Hrun as (a & st1 & Ha & Hrun).
  apply bind_ok in Hrun as (? & st2 & ->%modify_ok & Hrun). apply bind_ok in Hrun as (? & st2 & ->%modify_ok & Hrun).
  apply bind_ok in Hrun as (? & st2 & ->%modify_ok & [-> ->]%ret_ok). cbn in *. destruct (deact =? 0).
  - apply bind_ok in Ha as (? & st2 & ->%modify_ok & [-> ->]%gets_ok). done.
  - apply ret_ok in Ha as [-> ->]. done.
Qed.

Lemma appended_inv now s v h :
  let n := vlen (validators s) in
  RegInv now s → index v = n → 0 ≤ added_at_height v ≤ now →
  (pubkey_to_index s).[public_key v] = 0 →
  free_address n (vec_read (validators s)) (mread (address_to_index s)) (validator_address v) →
  (is_active v → active_idx v = vlen (active_indices s) + 1 ∧ ingress_key (ingress v) = Ok h ∧
                 (active_ingress_ips s).[h] = false) →
  (¬ is_active v → active_idx v = 0 ∧ added_at_height v ≤ deactivated_at_height v ≤ now) →
  RegInv now (if deactivated_at_height v =? 0 then write_ips (<[h:=true]> (active_ingress_ips s)) (appended v s)
              else appended v s).
Proof.
  intros n [HS HH HA HK HI] Hiv Hadd Hkey Hfree Hact Hidle. pose proof (sl_len _ _ _ _ HS) as Hn. fold n in Hn.
  set (act := deactivated_at_height v =? 0).
  eapply (reg_intro now _ (n + 1) (upd (vec_read (validators s)) n v)
    (if act then vlen (active_indices s) + 1 else vlen (active_indices s))
    (if act then upd (vec_read (active_indices s)) (vlen (active_indices s)) (n + 1) else vec_read (active_indices s))
    (upd (mread (address_to_index s)) (validator_address v) (n + 1))
    (upd (mread (pubkey_to_index s)) (public_key v) (n + 1))
    (if act then upd (mread (active_ingress_ips s)) h true else mread (active_ingress_ips s)));
    unfold appended; fold act n; try (by destruct act).
  - intros i. destruct act; cbn; apply vec_read_push.
  - intros j _. destruct act; cbn; [apply vec_read_push|done].
  - intros a. destruct act; cbn; apply mread_insert.
  - intros k. destruct act; cbn; apply mread_insert.
  - intros g. destruct act; cbn; [apply mread_insert|done].
  - unfold act. destruct (Z.eqb_spec (deactivated_at_height v) 0) as [Hv|Hv].
    + destruct (Hact Hv) as (? & _). by apply slots_push_active.
    + destruct (Hidle Hv) as (? & _). by apply slots_push_idle.
  - apply heights_push; [done| |done]. destruct (decide (deactivated_at_height v = 0)) as [Hv|Hv]; [by left|]. right. by apply Hidle.
  - by apply addresses_push.
  - by apply keys_push.
  - unfold act. destruct (Z.eqb_spec (deactivated_at_height v) 0) as [Hv|Hv].
    + destruct (Hact Hv) as (_ & ? & ?). by apply ingresses_push_active.
    + by apply ingresses_push_idle.
Qed.

(** ** Updating a record in place *)
Definition same_identity (v u : ValidatorRecord) : Prop :=
  public_key v = public_key u ∧ index v = index u ∧ active_idx v = active_idx u ∧
  added_at_height v = added_at_height u ∧ deactivated_at_height v = deactivated_at_height u.

Lemma record_updated_inv now s s' i v h h' :
  RegInv now s → 0 ≤ i < vlen (validators s) →
  let u := vec_read (validators s) i in
  is_active u → validators s' = vec_write i v (validators s) → active_indices s' = active_indices s →
  pubkey_to_index s' = pubkey_to_index s → same_identity v u →
  ingress_key (ingress u) = Ok h → ingress_key (ingress v) = Ok h' → h = h' ∨ (active_ingress_ips s).[h'] = false →
  (∀ k, (active_ingress_ips s').[k] = upd (upd (mread (active_ingress_ips s)) h false) h' true k) →
  Addresses (vlen (validators s)) (upd (vec_read (validators s)) i v) (mread (address_to_index s')) →
  RegInv now s'.
Proof.
  intros [HS HH HA HK HI] Hi u Hu Ev Ea Ek (Hpk & Hix & Hai & Had & Hde) Hk Hk' Hfree Eg HA'.
  assert (is_active v) as Hv by (unfold is_active in *; congruence).
  eapply (reg_intro now s' _ (upd (vec_read (validators s)) i v)); rewrite ?Ev, ?Ea; try done.
  - intros j. apply vec_read_write.
  - eapply slots_ext; [|exact HS]. intros j Hj. points; subst u; auto.
  - eapply heights_ext; [|exact HH]. intros j Hj. points; subst u; auto.
  - rewrite Ek. eapply keys_ext; [|exact HK]. intros j Hj. points; subst u; auto.
  - by eapply ingresses_move.
Qed.

(** An active record has an ingress address in use. *)
Lemma active_ingress now s i :
  RegInv now s → 0 ≤ i < vlen (validators s) → is_active (vec_read (validators s) i) →
  ∃ h, ingress_key (ingress (vec_read (validators s) i)) = Ok h ∧ (active_ingress_ips s).[h] = true.
Proof. intros [_ _ _ _ HI]. apply (in_used _ _ _ HI). Qed.

(** ** The operations *)
Lemma add_validator_ok sender addr key ing egr fee sig e s l i st :
  add_validator sender addr key ing egr fee sig e (s, l) = (Ok i, st) →
  let n := vlen (validators s) in
  let v := mkRecord key addr ing egr fee n (vlen (active_indices s) + 1) (block_number e) 0 in
  ∃ h, is_init (config s) = true ∧ owner (config s) = sender ∧ key ≠ 0 ∧ (pubkey_to_index s).[key] = 0 ∧ addr ≠ ZERO ∧
    free_address n (vec_read (validators s)) (mread (address_to_index s)) addr ∧
    ingress_key ing = Ok h ∧ (active_ingress_ips s).[h] = false ∧
    verify_validator_signature e (SigAdd fee) key sig addr ing egr = Ok tt ∧
    i = n ∧ st = (write_ips (<[h:=true]> (active_ingress_ips s)) (appended v s),
                  l ++ [(VALIDATOR_CONFIG_V2_ADDRESS, ValidatorAdded n addr key ing egr fee)]).
Proof.
  unfold add_validator. intros Hrun.
  apply bind_ok in Hrun as (c & st1 & [-> ->]%gets_ok & Hrun). apply bind_ok in Hrun as (c & st1 & [Hc ->]%lift_ok & Hrun).
  apply bind_ok in Hrun as (c' & st1 & [Ho ->]%lift_ok & Hrun). apply bind_ok in Hrun as (? & st1 & [Hk ->]%view_ok & Hrun).
  apply bind_ok in Hrun as (? & st1 & [Ha ->]%view_ok & Hrun). apply bind_ok in Hrun as (? & st1 & [_ ->]%lift_ok & Hrun).
  apply bind_ok in Hrun as (h & st1 & [Hh ->]%view_ok & Hrun). apply bind_ok in Hrun as ([] & st1 & [Hs ->]%view_ok & Hrun).
  apply bind_ok in Hrun as (e' & st1 & [-> ->]%ask_ok & Hrun). apply bind_ok in Hrun as (? & st1 & ->%modify_ok & Hrun).
  apply bind_ok in Hrun as (j & st1 & Happ & Hrun). apply bind_ok in Hrun as (? & st2 & ->%emit_ok & [-> ->]%ret_ok).
  cbn [fst snd] in *. apply append_ok in Happ as [-> ->]. unfold require_init in Hc. destruct (is_init _) eqn:Hinit; [|done].
  injection Hc as <-. unfold require_owner, is_owner in Ho. destruct (Z.eqb_spec (owner (config s)) sender); [|done].
  apply new_pubkey_ok in Hk as [? ?]. apply new_address_ok in Ha as [? ?]. apply unique_ingress_ok in Hh as [? ?].
  exists h. repeat split; done.
Qed.

Lemma add_validator_inv now sender addr key ing egr fee sig e s l i s' l' :
  block_number e = now → 0 ≤ now → RegInv now s →
  add_validator sender addr key ing egr fee sig e (s, l) = (Ok i, (s', l')) → RegInv now s'.
Proof.
  intros <- Hnow HR (h & _ & _ & _ & Hk & _ & Ha & Hh & Hg & _ & _ & [= -> _])%add_validator_ok.
  apply (appended_inv _ s (mkRecord _ _ _ _ _ _ _ _ 0) h); cbn; try done.
Qed.

Lemma set_fee_recipient_ok sender i fee e s l u st :
  set_fee_recipient sender i fee e (s, l) = (Ok u, st) →
  let v := vec_read (validators s) i in
  i < vlen (validators s) ∧ is_active v ∧
  st.1 = write_record i (mkRecord (public_key v) (validator_address v) (ingress v) (egress v) fee (index v)
                           (active_idx v) (added_at_height v) (deactivated_at_height v)) s.
Proof.
  unfold set_fee_recipient. intros Hrun. apply bind_ok in Hrun as (v & st1 & Hg & Hrun).
  apply guard_update_ok in Hg as (-> & Hi & -> & Ha & _). apply bind_ok in Hrun as (? & st1 & ->%modify_ok & ->%emit_ok). done.
Qed.

Lemma set_ip_addresses_ok sender i ing egr e s l u st :
  set_ip_addresses sender i ing egr e (s, l) = (Ok u, st) →
  let v := vec_read (validators s) i in
  ∃ h h', i < vlen (validators s) ∧ is_active v ∧ ingress_key (ingress v) = Ok h ∧ ingress_key ing = Ok h' ∧
    (h = h' ∨ (active_ingress_ips s).[h'] = false) ∧
    st.1 = write_record i (mkRecord (public_key v) (validator_address v) ing egr (fee_recipient v) (index v)
                             (active_idx v) (added_at_height v) (deactivated_at_height v))
             (if h =? h' then s else write_ips (<[h':=true]> (delete h (active_ingress_ips s))) s).
Proof.
  unfold set_ip_addresses. intros Hrun. apply bind_ok in Hrun as (v & st1 & Hg & Hrun).
  apply guard_update_ok in Hg as (-> & Hi & -> & Ha & _). apply bind_ok in Hrun as (? & st1 & [_ ->]%lift_ok & Hrun).
  apply bind_ok in Hrun as (? & st1 & Ht & Hrun). apply tracking_ok in Ht as (h & h' & ? & ? & ? & ->).
  apply bind_ok in Hrun as (? & st1 & ->%modify_ok & ->%emit_ok). exists h, h'. done.
Qed.

Lemma transfer_validator_ok sender i a e s l u st :
  transfer_validator_ownership sender i a e (s, l) = (Ok u, st) →
  let v := vec_read (validators s) i in
  i < vlen (validators s) ∧ is_active v ∧ a ≠ ZERO ∧
  free_address (vlen (validators s)) (vec_read (validators s)) (mread (address_to_index s)) a ∧
  st.1 = write_addresses (<[a:=i + 1]> (delete (validator_address v) (address_to_index s)))
           (write_record i (mkRecord (public_key v) a (ingress v) (egress v) (fee_recipient v) (index v)
                              (active_idx v) (added_at_height v) (deactivated_at_height v)) s).
Proof.
  unfold transfer_validator_ownership. intros Hrun. apply bind_ok in Hrun as (v & st1 & Hg & Hrun).
  apply guard_update_ok in Hg as (-> & Hi & -> & Ha & _). apply bind_ok in Hrun as (? & st1 & [Hn ->]%view_ok & Hrun).
  apply new_address_ok in Hn as [? ?]. apply bind_ok in Hrun as (? & st1 & ->%modify_ok & Hrun).
  apply bind_ok in Hrun as (? & st1 & ->%modify_ok & Hrun). apply bind_ok in Hrun as (? & st1 & ->%modify_ok & ->%emit_ok).
  done.
Qed.

(** The set of ingress addresses is unchanged by moving to the same address. *)
Lemma tracking_same s h k : (active_ingress_ips s).[h] = true →
  (active_ingress_ips s).[k] = upd (upd (mread (active_ingress_ips s)) h false) h true k.
Proof. intros Hh. pose proof (tracking_fun s h h k Hh) as Ht. by rewrite Z.eqb_refl in Ht. Qed.

Lemma updates_inv now s i s' :
  RegInv now s → 0 ≤ i →
  (∃ sender fee e l u l', set_fee_recipient sender i fee e (s, l) = (Ok u, (s', l'))) ∨
  (∃ sender ing egr e l u l', set_ip_addresses sender i ing egr e (s, l) = (Ok u, (s', l'))) ∨
  (∃ sender a e l u l', transfer_validator_ownership sender i a e (s, l) = (Ok u, (s', l'))) → RegInv now s'.
Proof.
  intros HR Hi [(?&fee&?&?&?&?&Hrun)|[(?&ing&egr&?&?&?&?&Hrun)|(?&a&?&?&?&?&Hrun)]].
  - apply set_fee_recipient_ok in Hrun as (Hlt & Ha & E). cbn in E. subst s'.
    destruct (active_ingress now s i HR ltac:(lia) Ha) as (h & Hk & Hg).
    eapply (record_updated_inv now s _ i _ h h HR ltac:(lia) Ha); [done|done|done|done|done|done|by left|intros k; exact (tracking_same s h k Hg)|].
    eapply addresses_ext; [|apply HR]. intros j Hj. points; done.
  - apply set_ip_addresses_ok in Hrun as (h & h' & Hlt & Ha & Hk & Hk' & Hf & E). cbn in E. subst s'.
    destruct (active_ingress now s i HR ltac:(lia) Ha) as (h2 & Hk2 & Hg). rewrite Hk in Hk2. injection Hk2 as <-.
    pose proof (λ k, tracking_fun s h h' k Hg) as Ht.
    eapply (record_updated_inv now s _ i _ h h' HR ltac:(lia) Ha); [by destruct (h =? h')..|done|done|done|done|exact Ht|].
    eapply addresses_ext; [|destruct (h =? h'); apply HR]. intros j Hj. points; done.
  - apply transfer_validator_ok in Hrun as (Hlt & Ha & _ & Hfree & E). cbn in E. subst s'.
    destruct (active_ingress now s i HR ltac:(lia) Ha) as (h & Hk & Hg).
    eapply (record_updated_inv now s _ i _ h h HR ltac:(lia) Ha); [done|done|done|done|done|done|by left|intros k; exact (tracking_same s h k Hg)|].
    eapply (addresses_move _ _ (mread (address_to_index s)) _ i _ a); [lia|done|done|done|apply HR|]. intros b. cbn.
    rewrite mread_insert. repeat case_decide; subst; try done; [by rewrite mread_delete_eq|by rewrite mread_delete_ne].
Qed.

(** ** Deactivation *)
Lemma remove_active_ok pos e s l u st :
  remove_active pos e (s, l) = (Ok u, st) →
  let last := vlen (active_indices s) - 1 in
  let moved := vec_read (active_indices s) last in
  st = (if pos =? last then write_actives (vec_pop (active_indices s)) s
        else write_actives (vec_pop (vec_write pos moved (active_indices s)))
               (write_record (moved - 1) (set_active_idx (pos + 1) (vec_read (validators s) (moved - 1))) s), l).
Proof.
  unfold remove_active. intros Hrun. apply bind_ok in Hrun as (last & st1 & [-> ->]%gets_ok & Hrun).
  apply bind_ok in Hrun as (? & st1 & Hw & ->%modify_ok). cbn [fst snd] in *.
  destruct (Z.eqb_spec pos (vlen (active_indices s) - 1)) as [->|Hne]; cbn [negb when] in Hw.
  - apply ret_ok in Hw as [_ ->]. done.
  - apply bind_ok in Hw as (mv & st2 & [-> ->]%gets_ok & Hw). apply bind_ok in Hw as (? & st2 & ->%modify_ok & ->%modify_ok). done.
Qed.

(** The state a deactivation leaves: the record keeps its identity and gets the height, the last
    entry of the active list fills its position. *)
Record Deactivated (now i h : Z) (s s' : ValidatorConfigV2) : Prop := {
  de_addresses : address_to_index s' = address_to_index s;
  de_pubkeys : pubkey_to_index s' = pubkey_to_index s;
  de_ips : active_ingress_ips s' = delete h (active_ingress_ips s);
  de_len : vlen (validators s') = vlen (validators s);
  de_active_len : vlen (active_indices s') = vlen (active_indices s) - 1;
  de_actives : ∀ j, 0 ≤ j < vlen (active_indices s) - 1 → vec_read (active_indices s') j =
    if decide (active_idx (vec_read (validators s) i) - 1 = j) then vec_read (active_indices s) (vlen (active_indices s) - 1)
    else vec_read (active_indices s) j;
  de_records : ∀ j, vec_read (validators s') j =
    if decide (i = j) then set_active_idx 0 (set_deactivated now (vec_read (validators s) j))
    else if decide (vec_read (active_indices s) (vlen (active_indices s) - 1) - 1 = j)
      then set_active_idx (active_idx (vec_read (validators s) i)) (vec_read (validators s) j)
    else vec_read (validators s) j;
}.

Lemma deactivate_ok now sender i e s l u s' l' :
  RegInv now s → 0 ≤ i → deactivate_validator sender i e (s, l) = (Ok u, (s', l')) →
  let v := vec_read (validators s) i in
  ∃ h, i < vlen (validators s) ∧ is_active v ∧ (sender = validator_address v ∨ sender = owner (config s)) ∧
    ingress_key (ingress v) = Ok h ∧ Deactivated (block_number e) i h s s'.
Proof.
  intros HR Hi Hrun v. unfold deactivate_validator in Hrun.
  apply bind_ok in Hrun as (v' & st1 & [Hv ->]%view_ok & Hrun). apply get_active_ok in Hv as (Hlt & -> & Ha).
  apply bind_ok in Hrun as (c & st1 & [-> ->]%gets_ok & Hrun). apply bind_ok in Hrun as (c' & st1 & [Hc ->]%lift_ok & Hrun).
  apply bind_ok in Hrun as (h & st1 & [Hh ->]%lift_ok & Hrun). apply bind_ok in Hrun as (? & st1 & ->%modify_ok & Hrun).
  apply bind_ok in Hrun as (e' & st1 & [-> ->]%ask_ok & Hrun). apply bind_ok in Hrun as (? & st1 & ->%modify_ok & Hrun).
  apply bind_ok in Hrun as (? & st1 & Hrem & Hrun). apply bind_ok in Hrun as (? & st2 & ->%modify_ok & Hem%emit_ok).
  apply remove_active_ok in Hrem. cbn [fst snd] in *. fold v in Ha, Hc, Hh, Hrem, Hem. injection Hem as -> _. subst st1. cbn [fst].
  exists h. split; [done|]. split; [done|]. split.
  { unfold require_owner_or_validator, is_owner in Hc.
    destruct (negb (sender =? validator_address v) && negb (owner (config s) =? sender)) eqn:Hg; [done|].
    apply andb_false_iff in Hg as [Hg|Hg]; bprop; auto. }
  split; [done|]. destruct (sl_back _ _ _ _ (ri_slots _ _ HR) i ltac:(lia) Ha) as [Hp Hfp]. fold v in Hp, Hfp.
  assert (vlen (active_indices s) ≠ 0) as Hne by lia.
  destruct (Z.eqb_spec (active_idx v - 1) (vlen (active_indices s) - 1)) as [Hl|Hl]; cbn; rewrite ?Hl, Z.eqb_refl in * || rewrite (proj2 (Z.eqb_neq _ _) Hl); cbn.
  - split; cbn; try done.
    + by apply vlen_pop.
    + intros j Hj. fold v. rewrite vec_read_pop by lia. by rewrite decide_False by lia.
    + intros j. rewrite !vec_read_write, Hfp. repeat case_decide; subst; try done; lia.
  - split; cbn; try done.
    + by apply (vlen_pop (vec_write _ _ _)).
    + intros j Hj. fold v. rewrite vec_read_pop by (cbn; lia). by rewrite vec_read_write.
    + intros j. rewrite !vec_read_write. fold v. replace (active_idx v - 1 + 1) with (active_idx v) by lia.
      repeat case_decide; subst; try done; congruence.
Qed.

Lemma deactivate_inv now sender i e s l u s' l' :
  block_number e = now → 0 < now → RegInv now s → 0 ≤ i →
  deactivate_validator sender i e (s, l) = (Ok u, (s', l')) → RegInv now s'.
Proof.
  intros <- Hnow HR Hi Hrun. destruct (deactivate_ok _ _ _ _ _ _ _ _ _ HR Hi Hrun) as (h & Hlt & Ha & _ & Hh & HD).
  destruct HD as [Ea Ek Eg En Em Ef Er]. set (n := vlen (validators s)) in *. set (v := vec_read (validators s) i) in *.
  pose proof HR as [HS HH HA HK HI]. fold n in HS, HH, HA, HK, HI.
  eapply (reg_intro _ s' n (vec_read (validators s')) (vlen (active_indices s) - 1) (vec_read (active_indices s')) _ _
    (upd (mread (active_ingress_ips s)) h false)); try done; rewrite ?Ea, ?Ek.
  - intros k. rewrite Eg. unfold upd. case_decide; subst; [apply mread_delete_eq|by apply mread_delete_ne].
  - eapply (slots_remove n _ _ _ i (set_active_idx 0 (set_deactivated (block_number e) v)));
      [lia|done| |apply HS; lia|done|exact HS|done|].
    + unfold is_active. cbn. lia.
    + intros j Hj. rewrite Er. fold v. replace (active_idx v - 1 + 1) with (active_idx v) by lia.
      repeat case_decide; by subst.
  - intros j Hj. rewrite Er. destruct (HH j Hj) as [? ?]. repeat case_decide; subst; cbn; [|done..].
    split; [done|]. right. lia.
  - eapply addresses_ext; [|exact HA]. intros j Hj. rewrite Er. repeat case_decide; subst; by cbn.
  - eapply keys_ext; [|exact HK]. intros j Hj. rewrite Er. repeat case_decide; by subst.
  - eapply (ingresses_remove n _ _ _ i h); [lia|done|done| | |exact HI].
    + rewrite Er, decide_True by done. unfold is_active. cbn. lia.
    + intros j Hj Hne. rewrite Er, decide_False by done. case_decide; by subst.
Qed.

(** ** Rotation *)
(** The snapshot of the old identity, and the record with the new one. *)
Definition snapshot (now n : Z) (v : ValidatorRecord) : ValidatorRecord :=
  mkRecord (public_key v) (validator_address v) (ingress v) (egress v) (fee_recipient v) n 0 (added_at_height v) now.
Definition rotated (now : Z) (key : B256) (ing egr : string) (v : ValidatorRecord) : ValidatorRecord :=
  mkRecord key (validator_address v) ing egr (fee_recipient v) (index v) (active_idx v) now (deactivated_at_height v).

Lemma rotate_ok sender i key ing egr sig e s l u st :
  0 ≤ i → rotate_validator sender i key ing egr sig e (s, l) = (Ok u, st) →
  let v := vec_read (validators s) i in
  let n := vlen (validators s) in
  ∃ h h', i < n ∧ is_active v ∧ (sender = validator_address v ∨ sender = owner (config s)) ∧
    key ≠ 0 ∧ (pubkey_to_index s).[key] = 0 ∧
    ingress_key (ingress v) = Ok h ∧ ingress_key ing = Ok h' ∧ (active_ingress_ips s).[h'] = false ∧
    verify_validator_signature e SigRotate key sig (validator_address v) ing egr = Ok tt ∧
    let s1 := if h =? h' then s else write_ips (<[h':=true]> (delete h (active_ingress_ips s))) s in
    st.1 = write_pubkey key (i + 1)
             (write_record i (rotated (block_number e) key ing egr v)
               (write_pubkey (public_key v) (n + 1)
                 (write_validators (vec_push (snapshot (block_number e) n v) (validators s)) s1))).
Proof.
  unfold rotate_validator. intros Hi Hrun.
  apply bind_ok in Hrun as (v' & st1 & [Hv ->]%view_ok & Hrun). apply get_active_ok in Hv as (Hlt & -> & Ha).
  apply bind_ok in Hrun as (c & st1 & [-> ->]%gets_ok & Hrun). apply bind_ok in Hrun as (c & st1 & [Hc ->]%lift_ok & Hrun).
  apply bind_ok in Hrun as (c' & st1 & [Ho ->]%lift_ok & Hrun). apply bind_ok in Hrun as (? & st1 & [Hk ->]%view_ok & Hrun).
  apply bind_ok in Hrun as (? & st1 & [_ ->]%lift_ok & Hrun). apply bind_ok in Hrun as (h' & st1 & [Hh' ->]%view_ok & Hrun).
  apply bind_ok in Hrun as ([] & st1 & [Hs ->]%view_ok & Hrun). apply bind_ok in Hrun as (e' & st1 & [-> ->]%ask_ok & Hrun).
  apply bind_ok in Hrun as (? & st1 & Ht & Hrun). apply tracking_ok in Ht as (h & h2 & Hh & Hh2 & _ & ->).
  apply unique_ingress_ok in Hh' as [Hh' Hg]. assert (h2 = h') as -> by congruence.
  apply bind_ok in Hrun as (n & st1 & [-> ->]%gets_ok & Hrun). apply bind_ok in Hrun as (? & st1 & ->%modify_ok & Hrun).
  apply bind_ok in Hrun as (? & st1 & ->%modify_ok & Hrun). apply bind_ok in Hrun as (? & st1 & ->%modify_ok & Hrun).
  apply bind_ok in Hrun as (? & st1 & ->%modify_ok & ->%emit_ok). cbn [fst snd] in *. apply new_pubkey_ok in Hk as [? ?].
  exists h, h'. do 2 (split; [done|]). split.
  { unfold require_init in Hc. destruct (is_init _); [|done]. injection Hc as <-. unfold require_owner_or_validator, is_owner in Ho.
    destruct (negb (sender =? validator_address (vec_read (validators s) i)) && negb (owner (config s) =? sender)) eqn:Hg2; [done|].
    apply andb_false_iff in Hg2 as [Hg2|Hg2]; bprop; auto. }
  do 6 (split; [done|]). unfold rotated, snapshot.
  destruct (h =? h'); cbn; rewrite !vec_read_push, !decide_False by lia; done.
Qed.

(** The state a rotation leaves, as functions. *)
Record Rotated (now i : Z) (key : B256) (ing egr : string) (s s' : ValidatorConfigV2) : Prop := {
  ro_addresses : address_to_index s' = address_to_index s;
  ro_pubkeys : ∀ k, (pubkey_to_index s').[k] =
    upd (upd (mread (pubkey_to_index s)) (public_key (vec_read (validators s) i)) (vlen (validators s) + 1)) key (i + 1) k;
  ro_actives : active_indices s' = active_indices s;
  ro_len : vlen (validators s') = vlen (validators s) + 1;
  ro_records : ∀ j, vec_read (validators s') j =
    upd (upd (vec_read (validators s)) (vlen (validators s)) (snapshot now (vlen (validators s)) (vec_read (validators s) i)))
      i (rotated now key ing egr (vec_read (validators s) i)) j;
}.

Lemma rotate_rotated sender i key ing egr sig e s l u st :
  0 ≤ i → rotate_validator sender i key ing egr sig e (s, l) = (Ok u, st) →
  Rotated (block_number e) i key ing egr s st.1.
Proof.
  intros Hi (h & h' & _ & _ & _ & _ & _ & _ & _ & _ & _ & E)%rotate_ok; [|done]. rewrite E. destruct (h =? h').
  all: split; cbn; try done;
    [intros k; by rewrite !mread_insert|intros j; rewrite vec_read_write; unfold upd; case_decide; [done|apply vec_read_push]].
Qed.

Lemma rotate_inv now sender i key ing egr sig e s l u s' l' :
  block_number e = now → 0 < now → RegInv now s → 0 ≤ i →
  rotate_validator sender i key ing egr sig e (s, l) = (Ok u, (s', l')) → RegInv now s'.
Proof.
  intros <- Hnow HR Hi Hrun. pose proof (rotate_rotated _ _ _ _ _ _ _ _ _ _ _ Hi Hrun) as [Ea Ek Ef En Er].
  apply rotate_ok in Hrun as (h & h' & Hlt & Ha & _ & _ & Hnew & Hk & Hk' & Hg & _ & E); [|done]. cbn [fst] in *.
  destruct (active_ingress _ s i HR ltac:(lia) Ha) as (h2 & Hk2 & Hg2). rewrite Hk in Hk2. injection Hk2 as <-.
  pose proof (λ k, tracking_fun s h h' k Hg2) as Ht. pose proof HR as [HS HH HA HK HI].
  set (n := vlen (validators s)) in *. set (v := vec_read (validators s) i) in *.
  set (w := snapshot (block_number e) n v) in *. set (x := rotated (block_number e) key ing egr v) in *.
  assert (¬ is_active w) as Hw by (unfold is_active; cbn; lia). assert (is_active x) as Hx by done.
  assert (upd (vec_read (validators s)) n w i = v) as Hv by (apply upd_ne; lia).
  eapply (reg_intro _ s' (n + 1) (upd (upd (vec_read (validators s)) n w) i x) _ _ _ _
    (upd (upd (mread (active_ingress_ips s)) h false) h' true) En); rewrite ?Ea, ?Ef; try done.
  - intros k. rewrite <- Ht, E. by destruct (h =? h').
  - eapply slots_ext; [|apply (slots_push_idle n _ _ _ w eq_refl eq_refl Hw HS)].
    intros j Hj. destruct (decide (i = j)) as [<-|]; [by rewrite Hv, upd_eq|by rewrite (upd_ne _ i) by done].
  - apply heights_write; [cbn; lia|done|]. apply heights_push; [..|done]; destruct (HH i ltac:(lia)) as [? _].
    + cbn. fold v in H1. lia.
    + right. cbn. fold v in H1. lia.
  - eapply addresses_ext; [|apply addresses_push_idle; [lia|exact Hw|exact HA]].
    intros j Hj. destruct (decide (i = j)) as [<-|]; [by rewrite Hv, upd_eq|by rewrite (upd_ne _ i) by done].
  - apply (keys_rotate n (vec_read (validators s)) _ i w x); [lia|done|done|done].
  - apply (ingresses_move (n + 1) (upd (vec_read (validators s)) n w) _ i x h h'); rewrite ?Hv; try done; [lia|by right|].
    apply ingresses_push_idle; [lia|done|done].
Qed.

(** ** Migration *)
(** The first call copies the owner and the number of records of the first registry. *)
Lemma migration_owner_ok caller e w l c st :
  require_migration_owner caller e (w, l) = (Ok c, st) →
  ∃ s, st = (mkRegistries (v1 w) s, l) ∧ (s = v2 w ∨ ∃ c', s = write_config c' (v2 w)) ∧ owner c = caller ∧
       is_init (config (v2 w)) = false.
Proof.
  unfold require_migration_owner. intros Hrun. apply bind_ok in Hrun as (c0 & st1 & [-> ->]%gets_ok & Hrun).
  apply bind_ok in Hrun as (c0 & st1 & [Hc ->]%lift_ok & Hrun). apply bind_ok in Hrun as (c1 & st1 & Hc1 & [Ho ->]%lift_ok).
  cbn [fst] in *. unfold require_not_init in Hc. destruct (is_init _) eqn:Hinit; [done|]. injection Hc as <-.
  unfold require_owner, is_owner in Ho. destruct (Z.eqb_spec (owner c1) caller); [|done]. injection Ho as <-.
  destruct (owner (config (v2 w)) =? ZERO).
  - apply bind_ok in Hc1 as (o & st2 & [-> ->]%gets_ok & Hc1). apply bind_ok in Hc1 as (n & st2 & [-> ->]%gets_ok & Hc1).
    apply bind_ok in Hc1 as (? & st2 & [_ ->]%require_ok & Hc1). apply bind_ok in Hc1 as (? & st2 & Hm & [-> ->]%ret_ok).
    apply zoom_ok in Hm as (s & l' & Hm%modify_ok & ->). injection Hm as -> ->. eexists. split; [done|]. eauto.
  - apply ret_ok in Hc1 as [-> ->]. exists (v2 w). destruct w. eauto.
Qed.

Lemma skip_ok idx v skipped e w l u st :
  skip_migration idx v skipped e (w, l) = (Ok u, st) → ∃ c, st.1 = mkRegistries (v1 w) (write_config c (v2 w)).
Proof.
  unfold skip_migration. intros Hrun. apply bind_ok in Hrun as (? & st1 & ->%emit_ok & Hm).
  apply zoom_ok in Hm as (s & l' & Hm%modify_ok & ->). injection Hm as -> ->. eauto.
Qed.

Lemma migrate_record_ok idx val skipped e w l u st :
  migrate_record idx val skipped e (w, l) = (Ok u, st) →
  (∃ c, st.1 = mkRegistries (v1 w) (write_config c (v2 w))) ∨
  ∃ sa h, let s := v2 w in
    let deact := if v1_active val then 0 else block_number e in
    let v := mkRecord (v1_public_key val) (v1_validator_address val) (inbound_address val) (socket_ip_string sa) ZERO
               (vlen (validators s)) (if deact =? 0 then vlen (active_indices s) + 1 else 0) (block_number e) deact in
    parse_socket_addr (outbound_address val) = Some sa ∧ ingress_key (inbound_address val) = Ok h ∧
    public_key_decodes (v1_public_key val) = true ∧ (pubkey_to_index s).[v1_public_key val] = 0 ∧
    free_address (vlen (validators s)) (vec_read (validators s)) (mread (address_to_index s)) (v1_validator_address val) ∧
    (v1_active val = true → (active_ingress_ips s).[h] = false) ∧
    st.1 = mkRegistries (v1 w) (if v1_active val then write_ips (<[h:=true]> (active_ingress_ips s)) (appended v s)
                                else appended v s).
Proof.
  unfold migrate_record. intros Hrun. destruct (public_key_decodes _) eqn:Hdec; cbn [negb] in Hrun;
    [|left; by apply skip_ok in Hrun].
  destruct (parse_socket_addr _) as [sa|]; [|left; by apply skip_ok in Hrun].
  apply bind_ok in Hrun as (b & st1 & [-> ->]%gets_ok & Hrun). cbn [fst] in Hrun.
  destruct (Z.eqb_spec (pubkey_to_index (v2 w)).[v1_public_key val] 0) as [Hk|]; cbn [negb] in Hrun;
    [|left; by apply skip_ok in Hrun].
  apply bind_ok in Hrun as (a & st1 & [-> ->]%gets_ok & Hrun). apply bind_ok in Hrun as (b & st1 & [-> ->]%gets_ok & Hrun).
  apply bind_ok in Hrun as (? & st1 & [Ha ->]%require_ok & Hrun). apply bind_ok in Hrun as (h & st1 & [Hh ->]%lift_ok & Hrun).
  apply bind_ok in Hrun as (b & st1 & [-> ->]%gets_ok & Hrun). cbn [fst] in *.
  destruct (v1_active val && (active_ingress_ips (v2 w)).[h]) eqn:Hact; [left; by apply skip_ok in Hrun|]. right. exists sa, h.
  apply bind_ok in Hrun as (e' & st1 & [-> ->]%ask_ok & Hrun). apply bind_ok in Hrun as (i & st1 & Happ & Hrun).
  apply zoom_ok in Happ as (s1 & l1 & Happ & ->). apply append_ok in Happ as (-> & [= -> ->]).
  apply bind_ok in Hrun as (? & st1 & Hw & ->%emit_ok). apply zoom_ok in Hw as (s2 & l2 & Hw & ->). cbn [fst snd] in *.
  do 4 (split; [done|]). split.
  { unfold free_address, is_active. destruct (Z.eqb_spec (address_to_index (v2 w)).[v1_validator_address val] 0); [by left|].
    right. cbn in Ha. bprop. done. }
  split; [by intros Hac; rewrite Hac in Hact|]. destruct (v1_active val); cbn [when] in Hw.
  - apply modify_ok in Hw. injection Hw as -> ->. done.
  - apply ret_ok in Hw as [_ Hw]. injection Hw as -> ->. done.
Qed.

Lemma migrate_ok sender idx e w l u st :
  migrate_validator sender idx e (w, l) = (Ok u, st) →
  ∃ s val skipped l' u', (s = v2 w ∨ ∃ c', s = write_config c' (v2 w)) ∧
    migrate_record idx val skipped e (mkRegistries (v1 w) s, l') = (Ok u', st).
Proof.
  unfold migrate_validator. intros Hrun. apply bind_ok in Hrun as (c & st1 & Hc & Hrun).
  apply migration_owner_ok in Hc as (s & -> & Hs & _). apply bind_ok in Hrun as (m & st1 & [-> ->]%gets_ok & Hrun).
  apply bind_ok in Hrun as (? & st1 & [_ ->]%require_ok & Hrun). apply bind_ok in Hrun as (a & st1 & [_ ->]%view_ok & Hrun).
  apply bind_ok in Hrun as (val & st1 & [-> ->]%gets_ok & Hrun). eauto 10.
Qed.

Lemma initialize_migrated_ok sender e w l u st :
  initialize_if_migrated sender e (w, l) = (Ok u, st) →
  ∃ s c n, (s = v2 w ∨ ∃ c', s = write_config c' (v2 w)) ∧
    st.1 = mkRegistries (v1 w) (write_config c (write_epoch n s)).
Proof.
  unfold initialize_if_migrated. intros Hrun. apply bind_ok in Hrun as (c & st1 & Hc & Hrun).
  apply migration_owner_ok in Hc as (s & -> & Hs & _). apply bind_ok in Hrun as (m & st1 & [-> ->]%gets_ok & Hrun).
  apply bind_ok in Hrun as (? & st1 & [_ ->]%require_ok & Hrun). apply bind_ok in Hrun as (n & st1 & [-> ->]%gets_ok & Hrun).
  apply bind_ok in Hrun as (? & st1 & Hm & Hrun). apply zoom_ok in Hm as (s1 & l1 & Hm%modify_ok & ->). injection Hm as -> ->.
  apply bind_ok in Hrun as (e' & st1 & [-> ->]%ask_ok & Hrun). apply bind_ok in Hrun as (? & st1 & Hm & ->%emit_ok).
  apply zoom_ok in Hm as (s1 & l1 & Hm%modify_ok & ->). injection Hm as -> ->. cbn. eauto 10.
Qed.
End invariants.
