(* ===== verification/ValidatorHistory.v ===== *)
(** * Histories of the validator registries

    Any sequence of calls to the two registries in blocks of nondecreasing height.  The
    second registry keeps its invariant, deactivated records are final, and the public keys
    active at a height can be read off any later state. *)
From Stdlib Require Import ZArith Lia String.
From stdpp Require Import base tactics option list fin_maps gmap sets strings relations.
From S2P Require Import Prelude Base NetAddr ValidatorConfig ValidatorConfigV2 ValidatorRegistry ValidatorOps.
Open Scope Z_scope.
Open Scope storage_scope.

(** ** Calls *)
Inductive RegistryCall :=
| V2Initialize (o : Address)
| AddValidator (addr : Address) (key : B256) (ingress egress : string) (fee : Address) (signature : list Z)
| TransferOwnership (new_owner : Address)
| SetNetworkIdentityRotationEpoch (epoch : Z)
| DeactivateValidator (idx : Z)
| RotateValidator (idx : Z) (key : B256) (ingress egress : string) (signature : list Z)
| SetFeeRecipient (idx : Z) (fee : Address)
| SetIpAddresses (idx : Z) (ingress egress : string)
| TransferValidatorOwnership (idx : Z) (new_address : Address)
| MigrateValidator (idx : Z)
| InitializeIfMigrated
| V1Initialize (o : Address)
| V1AddValidator (addr : Address) (key : B256) (active : bool) (inbound outbound : string)
| V1UpdateValidator (addr : Address) (key : B256) (inbound outbound : string)
| V1ChangeValidatorStatus (validator : Address) (active : bool)
| V1ChangeValidatorStatusByIndex (idx : Z) (active : bool)
| V1ChangeOwner (new_owner : Address)
| V1SetNextFullDkgCeremony (epoch : Z).

Section history.
Context `{Primitives, Ed25519}.

Definition exec_registry (sender : Address) (c : RegistryCall) : M Registries unit :=
  match c with
  | V2Initialize o => at_v2 (v2_initialize o)
  | AddValidator a k i o f sg => at_v2 (add_validator sender a k i o f sg);; mret tt
  | TransferOwnership o => at_v2 (transfer_ownership sender o)
  | SetNetworkIdentityRotationEpoch n => at_v2 (set_network_identity_rotation_epoch sender n)
  | DeactivateValidator i => at_v2 (deactivate_validator sender i)
  | RotateValidator i k ing egr sg => at_v2 (rotate_validator sender i k ing egr sg)
  | SetFeeRecipient i f => at_v2 (set_fee_recipient sender i f)
  | SetIpAddresses i ing egr => at_v2 (set_ip_addresses sender i ing egr)
  | TransferValidatorOwnership i a => at_v2 (transfer_validator_ownership sender i a)
  | MigrateValidator i => migrate_validator sender i
  | InitializeIfMigrated => initialize_if_migrated sender
  | V1Initialize o => at_v1 (v1_initialize o)
  | V1AddValidator a k b i o => at_v1 (v1_add_validator sender a k b i o)
  | V1UpdateValidator a k i o => at_v1 (update_validator sender a k i o)
  | V1ChangeValidatorStatus a b => at_v1 (change_validator_status sender a b)
  | V1ChangeValidatorStatusByIndex i b => at_v1 (change_validator_status_by_index sender i b)
  | V1ChangeOwner o => at_v1 (change_owner sender o)
  | V1SetNextFullDkgCeremony n => at_v1 (set_next_full_dkg_ceremony sender n)
  end.

(** Indices are unsigned, and only the initializations may run in block 0, the genesis. *)
Definition call_ok (c : RegistryCall) (now : Z) : Prop :=
  match c with
  | V2Initialize _ | V1Initialize _ => 0 ≤ now
  | DeactivateValidator i | RotateValidator i _ _ _ _ | SetFeeRecipient i _ | SetIpAddresses i _ _
  | TransferValidatorOwnership i _ | MigrateValidator i | V1ChangeValidatorStatusByIndex i _ => 0 ≤ i ∧ 0 < now
  | _ => 0 < now
  end.

(** Time passes, or a call succeeds in the current block; a failed call changes nothing. *)
Inductive registry_step : Z * Registries → Z * Registries → Prop :=
| Blocks now now' w : now ≤ now' → registry_step (now, w) (now', w)
| Called e sender c w l u w' l' :
    call_ok c (block_number e) → exec_registry sender c e (w, l) = (Ok u, (w', l')) →
    registry_step (block_number e, w) (block_number e, w').
Definition registry_run : relation (Z * Registries) := rtc registry_step.

(** ** What a call changes in the records and the table of public keys *)
Inductive Change (now : Z) (s s' : ValidatorConfigV2) : Prop :=
| Unchanged :
    validators s' = validators s → pubkey_to_index s' = pubkey_to_index s → Change now s s'
| Appended v :
    vlen (validators s') = vlen (validators s) + 1 →
    (∀ j, vec_read (validators s') j = upd (vec_read (validators s)) (vlen (validators s)) v j) →
    (∀ k, (pubkey_to_index s').[k] = upd (mread (pubkey_to_index s)) (public_key v) (vlen (validators s) + 1) k) →
    added_at_height v = now → Change now s s'
| Updated i v :
    0 ≤ i < vlen (validators s) → is_active (vec_read (validators s) i) →
    same_identity v (vec_read (validators s) i) → vlen (validators s') = vlen (validators s) →
    (∀ j, vec_read (validators s') j = upd (vec_read (validators s)) i v j) →
    pubkey_to_index s' = pubkey_to_index s → Change now s s'
| Deactivation i h :
    0 ≤ i < vlen (validators s) → is_active (vec_read (validators s) i) → Deactivated now i h s s' → Change now s s'
| Rotation i key ing egr :
    0 ≤ i < vlen (validators s) → is_active (vec_read (validators s) i) → (pubkey_to_index s).[key] = 0 →
    Rotated now i key ing egr s s' → Change now s s'.

Lemma appended_change now s v h :
  added_at_height v = now →
  Change now s (appended v s) ∧ Change now s (write_ips (<[h:=true]> (active_ingress_ips s)) (appended v s)).
Proof.
  intros Hv. split; apply (Appended _ _ _ v); try done; unfold appended; destruct (deactivated_at_height v =? 0); cbn; try done;
    intros; (apply vec_read_push || apply mread_insert).
Qed.

Lemma updated_change now s s' i v :
  validators s' = vec_write i v (validators s) → 0 ≤ i < vlen (validators s) → is_active (vec_read (validators s) i) →
  same_identity v (vec_read (validators s) i) → pubkey_to_index s' = pubkey_to_index s → Change now s s'.
Proof. intros E ? ? ? ?. apply (Updated now s s' i v); rewrite ?E; try done. intros j. apply vec_read_write. Qed.

(** A change after a change of the configuration only. *)
Lemma reconfigured now (s0 s : ValidatorConfigV2) :
  s = s0 ∨ (∃ c, s = write_config c s0) → RegInv now s0 →
  RegInv now s ∧ ∀ s', Change now s s' → Change now s0 s'.
Proof.
  intros [->|[c ->]] HR; [done|]. split; [by apply reg_config|]. intros s' HC. destruct HC.
  - by apply Unchanged.
  - by eapply Appended.
  - by eapply Updated.
  - eapply (Deactivation _ _ _ i h); [done|done|]. destruct H3. by split.
  - eapply (Rotation _ _ _ i key ing egr); [done|done|done|]. destruct H4. by split.
Qed.

(** ** Every call keeps the invariant *)
Lemma at_v2_ok {A} (m : M ValidatorConfigV2 A) e w l a w' l' :
  at_v2 m e (w, l) = (Ok a, (w', l')) → v1 w' = v1 w ∧ m e (v2 w, l) = (Ok a, (v2 w', l')).
Proof. intros (s & l1 & Hm & [= -> ->])%zoom_ok. done. Qed.
Lemma at_v1_ok {A} (m : M ValidatorConfig A) e w l a w' l' :
  at_v1 m e (w, l) = (Ok a, (w', l')) → v2 w' = v2 w ∧ m e (v1 w, l) = (Ok a, (v1 w', l')).
Proof. intros (s & l1 & Hm & [= -> ->])%zoom_ok. done. Qed.

(** The operations that only configure the registry. *)
Lemma initialize_config o e s l u s' l' :
  v2_initialize o e (s, l) = (Ok u, (s', l')) → s' = write_config (config_new o true (block_number e)) (write_v2_code s).
Proof.
  unfold v2_initialize. intros Hrun. apply bind_ok in Hrun as (? & st1 & ->%modify_ok & Hrun).
  apply bind_ok in Hrun as (e' & st1 & [-> ->]%ask_ok & Hm%modify_ok). by injection Hm as -> _.
Qed.
Lemma transfer_ownership_config sender o e s l u s' l' :
  transfer_ownership sender o e (s, l) = (Ok u, (s', l')) → ∃ c, s' = write_config c s.
Proof.
  unfold transfer_ownership. intros Hrun. apply bind_ok in Hrun as (? & st1 & [_ ->]%require_ok & Hrun).
  apply bind_ok in Hrun as (c & st1 & [-> ->]%gets_ok & Hrun). apply bind_ok in Hrun as (c & st1 & [_ ->]%lift_ok & Hrun).
  apply bind_ok in Hrun as (c' & st1 & [_ ->]%lift_ok & Hrun). apply bind_ok in Hrun as (? & st1 & ->%modify_ok & Hm%emit_ok).
  injection Hm as -> _. cbn. eauto.
Qed.
Lemma set_epoch_config sender n e s l u s' l' :
  set_network_identity_rotation_epoch sender n e (s, l) = (Ok u, (s', l')) → s' = write_epoch n s.
Proof.
  unfold set_network_identity_rotation_epoch. intros Hrun. apply bind_ok in Hrun as (c & st1 & [-> ->]%gets_ok & Hrun).
  apply bind_ok in Hrun as (c & st1 & [_ ->]%lift_ok & Hrun). apply bind_ok in Hrun as (c' & st1 & [_ ->]%lift_ok & Hrun).
  apply bind_ok in Hrun as (p & st1 & [-> ->]%gets_ok & Hrun). apply bind_ok in Hrun as (? & st1 & ->%modify_ok & Hm%emit_ok).
  by injection Hm as -> _.
Qed.

Lemma migrate_change now sender i e w l u w' l' :
  block_number e = now → 0 < now → RegInv now (v2 w) → migrate_validator sender i e (w, l) = (Ok u, (w', l')) →
  RegInv now (v2 w') ∧ Change now (v2 w) (v2 w').
Proof.
  intros <- Hnow HR (s & val & sk & l1 & u1 & Hs & Hrun)%migrate_ok.
  destruct (reconfigured _ _ _ Hs HR) as [HR' HC].
  apply migrate_record_ok in Hrun as [[c E]|(sa & h & _ & Hh & _ & Hk & Hfree & Hg & E)]; cbn in *; subst w'; cbn.
  - split; [by apply reg_config|]. apply HC. by apply Unchanged.
  - set (v := mkRecord _ _ _ _ _ _ _ _ _) in *. destruct (appended_change (block_number e) s v h eq_refl) as [HC1 HC2].
    pose proof (appended_inv (block_number e) s v h HR' eq_refl ltac:(cbn; lia) Hk Hfree) as HI. cbn in HI.
    destruct (v1_active val); cbn in HI.
    + split; [|by apply HC]. apply HI; [by intros _; repeat split; auto|]. intros Hn. by destruct Hn.
    + split; [|by apply HC]. rewrite (proj2 (Z.eqb_neq (block_number e) 0)) in HI by lia.
      apply HI; [unfold is_active; cbn; lia|]. intros _. split; [done|lia].
Qed.

Lemma exec_change now sender c e w l u w' l' :
  block_number e = now → call_ok c now → RegInv now (v2 w) → exec_registry sender c e (w, l) = (Ok u, (w', l')) →
  RegInv now (v2 w') ∧ Change now (v2 w) (v2 w').
Proof.
  intros He Hc HR Hrun. destruct c; cbn [exec_registry call_ok] in *;
    try (apply at_v1_ok in Hrun as [-> _]; split; [done|by apply Unchanged]).
  - apply at_v2_ok in Hrun as [_ ->%initialize_config]. split; [by apply reg_config, reg_code|by apply Unchanged].
  - apply bind_ok in Hrun as (i & [w1 l1] & Hrun & [_ [= -> ->]]%ret_ok). apply at_v2_ok in Hrun as [_ Hrun]. split.
    + eapply add_validator_inv; [exact He|lia|exact HR|exact Hrun].
    + apply add_validator_ok in Hrun as (h & _ & _ & _ & _ & _ & _ & _ & _ & _ & _ & [= -> _]). by apply appended_change.
  - apply at_v2_ok in Hrun as [_ [c ->]%transfer_ownership_config]. split; [by apply reg_config|by apply Unchanged].
  - apply at_v2_ok in Hrun as [_ ->%set_epoch_config]. split; [by apply reg_epoch|by apply Unchanged].
  - apply at_v2_ok in Hrun as [_ Hrun]. destruct Hc as [Hi Hn]. split; [by eapply deactivate_inv|].
    destruct (deactivate_ok _ _ _ _ _ _ _ _ _ HR Hi Hrun) as (h & ? & ? & _ & _ & HD). subst now. by eapply (Deactivation _ _ _ idx h).
  - apply at_v2_ok in Hrun as [_ Hrun]. destruct Hc as [Hi Hn]. split; [by eapply rotate_inv|].
    pose proof (rotate_rotated _ _ _ _ _ _ _ _ _ _ _ Hi Hrun) as HD. apply rotate_ok in Hrun as (h & h' & ? & ? & _ & _ & ? & _); [|done].
    subst now. by eapply (Rotation _ _ _ idx).
  - apply at_v2_ok in Hrun as [_ Hrun]. destruct Hc as [Hi Hn]. split; [eapply updates_inv; eauto 10|].
    apply set_fee_recipient_ok in Hrun as (? & ? & E). cbn in E. rewrite E. by eapply (updated_change _ _ _ idx).
  - apply at_v2_ok in Hrun as [_ Hrun]. destruct Hc as [Hi Hn]. split; [eapply updates_inv; eauto 15|].
    apply set_ip_addresses_ok in Hrun as (h & h' & ? & ? & _ & _ & _ & E). cbn in E. rewrite E.
    destruct (h =? h'); by eapply (updated_change _ _ _ idx).
  - apply at_v2_ok in Hrun as [_ Hrun]. destruct Hc as [Hi Hn]. split; [eapply updates_inv; eauto 15|].
    apply transfer_validator_ok in Hrun as (? & ? & _ & _ & E). cbn in E. rewrite E. by eapply (updated_change _ _ _ idx).
  - destruct Hc as [Hi Hn]. by eapply migrate_change.
  - apply initialize_migrated_ok in Hrun as (s & c & n & Hs & E). cbn in E. subst w'. cbn.
    destruct (reconfigured _ _ _ Hs HR) as [HR' HC]. split; [by apply reg_config, reg_epoch|]. apply HC. by apply Unchanged.
Qed.

(** A property of states and changes, carried along a run. *)
Lemma run_ind (P : Z → ValidatorConfigV2 → Prop) p q :
  (∀ now now' s, now ≤ now' → P now s → P now' s) →
  (∀ now s s', RegInv now s → RegInv now s' → Change now s s' → P now s → P now s') →
  registry_run p q → RegInv p.1 (v2 p.2) → P p.1 (v2 p.2) → RegInv q.1 (v2 q.2) ∧ P q.1 (v2 q.2) ∧ p.1 ≤ q.1.
Proof.
  intros Hmono Hstep Hrun. induction Hrun as [p|p p' q Hs _ IH]; intros HR HP; [auto with lia|].
  destruct Hs as [now now' w Hle|e sender c w l u w' l' Hc Hex]; cbn in *.
  - destruct IH as (? & ? & ?); [by eapply reg_mono|by eapply Hmono|]. split; [done|]. split; [done|lia].
  - destruct (exec_change _ _ _ _ _ _ _ _ _ eq_refl Hc HR Hex) as [HR' HC].
    destruct IH as (? & ? & ?); [done|by eapply (Hstep _ (v2 w))|]. auto.
Qed.

Lemma run_inv h w : registry_run (0, registries_empty) (h, w) → RegInv h (v2 w).
Proof.
  intros Hrun. destruct (run_ind (λ _ _, True) _ _ ltac:(done) ltac:(done) Hrun) as (HR & _); [apply reg_empty|done|done].
Qed.

(** ** The views of a well-formed registry agree *)
Record registry_wf (s : ValidatorConfigV2) : Prop := {
  wf_actives : ∀ v, v ∈ get_active_validators s ↔
    ∃ i, 0 ≤ i ∧ validator_by_index s i = Ok v ∧ deactivated_at_height v = 0;
  wf_indices : NoDup (index <$> get_active_validators s);
  wf_addresses : NoDup (validator_address <$> get_active_validators s);
  wf_ingresses : NoDup ((λ v, ingress_key (ingress v)) <$> get_active_validators s);
  wf_by_address : ∀ v, v ∈ get_active_validators s → validator_by_address s (validator_address v) = Ok v;
  wf_by_key : ∀ i v, 0 ≤ i → validator_by_index s i = Ok v →
    index v = i ∧ validator_by_public_key s (public_key v) = Ok v;
  wf_ips : ∀ h, (active_ingress_ips s).[h] = true ↔ ∃ v, v ∈ get_active_validators s ∧ ingress_key (ingress v) = Ok h;
}.

Lemma by_index_ok s i v : validator_by_index s i = Ok v ↔ i < vlen (validators s) ∧ v = vec_read (validators s) i.
Proof. unfold validator_by_index, validator_count, read_validator_at. destruct (Z.leb_spec (vlen (validators s)) i); naive_solver lia. Qed.

Lemma active_elem now s v :
  RegInv now s → v ∈ get_active_validators s ↔
  ∃ i, 0 ≤ i < vlen (validators s) ∧ v = vec_read (validators s) i ∧ is_active v.
Proof.
  intros [HS _ _ _ _]. unfold get_active_validators, read_validator_at. rewrite list_elem_of_In, in_map_iff. split.
  - intros (j & <- & Hj). apply list_elem_of_In, elem_of_seqZ in Hj. destruct (sl_fwd _ _ _ _ HS j ltac:(lia)) as (? & ? & ?).
    eexists. split; [|done]. lia.
  - intros (i & Hi & -> & Ha). destruct (sl_back _ _ _ _ HS i Hi Ha) as [Hp Hf].
    exists (active_idx (vec_read (validators s) i) - 1). split; [by rewrite Hf, Z.add_simpl_r|].
    apply list_elem_of_In, elem_of_seqZ. lia.
Qed.

Lemma active_nodup now s : RegInv now s → NoDup (get_active_validators s).
Proof.
  intros [HS _ _ _ _]. unfold get_active_validators, read_validator_at.
  change (NoDup ((λ j, vec_read (validators s) (vec_read (active_indices s) j - 1)) <$> seqZ 0 (vlen (active_indices s)))).
  apply NoDup_fmap_2_strong; [|apply NoDup_seqZ]. intros i j Hi%elem_of_seqZ Hj%elem_of_seqZ Heq.
  destruct (sl_fwd _ _ _ _ HS i ltac:(lia)) as (? & _ & Hi2), (sl_fwd _ _ _ _ HS j ltac:(lia)) as (? & _ & Hj2).
  rewrite Heq in Hi2. lia.
Qed.

Lemma reg_wf now s : RegInv now s → registry_wf s.
Proof.
  intros HR. pose proof HR as [HS HH HA HK HI].
  assert (∀ {B} (g : ValidatorRecord → B),
    (∀ i j, 0 ≤ i < vlen (validators s) → 0 ≤ j < vlen (validators s) → is_active (vec_read (validators s) i) →
       is_active (vec_read (validators s) j) → g (vec_read (validators s) i) = g (vec_read (validators s) j) → i = j) →
    NoDup (g <$> get_active_validators s)) as Hnd.
  { intros B g Hg. apply NoDup_fmap_2_strong; [|by eapply active_nodup]. intros v w Hv Hw Heq.
    apply (active_elem now) in Hv as (i & Hi & -> & Hai); [|done]. apply (active_elem now) in Hw as (j & Hj & -> & Haj); [|done].
    by rewrite (Hg i j Hi Hj Hai Haj Heq). }
  split.
  - intros v. rewrite (active_elem now) by done. split.
    + intros (i & Hi & -> & Ha). exists i. rewrite by_index_ok. split; [lia|]. split; [|done]. split; [lia|done].
    + intros (i & Hi & [? ->]%by_index_ok & Ha). exists i. split; [lia|done].
  - apply Hnd. intros i j Hi Hj _ _. by rewrite !(sl_index _ _ _ _ HS).
  - apply Hnd. intros i j Hi Hj Ha Hb Heq. pose proof (ad_found _ _ _ HA i Hi Ha) as H1.
    rewrite Heq, (ad_found _ _ _ HA j Hj Hb) in H1. lia.
  - apply Hnd. apply (in_unique _ _ _ HI).
  - intros v Hv. apply (active_elem now) in Hv as (i & Hi & -> & Ha); [|done].
    unfold validator_by_address, read_validator_at. rewrite (ad_found _ _ _ HA i Hi Ha).
    rewrite (proj2 (Z.eqb_neq _ _)) by lia. by rewrite Z.add_simpl_r.
  - intros i v Hi [Hlt ->]%by_index_ok. split; [apply (sl_index _ _ _ _ HS); lia|].
    unfold validator_by_public_key, read_validator_at. rewrite (ke_found _ _ _ HK i) by lia.
    rewrite (proj2 (Z.eqb_neq _ _)) by lia. by rewrite Z.add_simpl_r.
  - intros h. split.
    + intros Hh. destruct (in_sound _ _ _ HI h Hh) as (i & Hi & Ha & Hk). eexists. split; [apply (active_elem now); eauto|done].
    + intros (v & Hv & Hk). apply (active_elem now) in Hv as (i & Hi & -> & Ha); [|done].
      destruct (in_used _ _ _ HI i Hi Ha) as (h' & Hh' & Hg). congruence.
Qed.

(** C16: in every state any sequence of calls to the two registries reaches, the enumeration of the active
    validators lists exactly the records that are not deactivated, once each, with pairwise
    different indices, addresses and ingress addresses; every active validator is found by its
    address, and every record by its index and its public key; and the ingress
    addresses marked as used are those of the active validators. *)
Theorem validator_registry_wf h w : registry_run (0, registries_empty) (h, w) → registry_wf (v2 w).
Proof. intros Hrun. by eapply reg_wf, run_inv. Qed.

(** ** Deactivated records are final *)
Lemma change_final now s s' i :
  RegInv now s → Change now s s' → 0 ≤ i < vlen (validators s) → ¬ is_active (vec_read (validators s) i) →
  vlen (validators s) ≤ vlen (validators s') ∧ vec_read (validators s') i = vec_read (validators s) i.
Proof.
  intros HR HC Hi Hna. destruct HC as [E _|v En Er _ _|j v Hj Ha _ En Er _|j h Hj Ha HD|j k ing egr Hj Ha _ HD].
  - by rewrite E.
  - rewrite Er, upd_ne by lia. split; [lia|done].
  - rewrite Er, upd_ne by (intros ->; done). split; [lia|done].
  - destruct HD as [_ _ _ En _ _ Er]. rewrite Er, En. split; [done|]. rewrite decide_False by (intros ->; done).
    case_decide as Hm; [|done]. exfalso. apply Hna. rewrite <- Hm.
    destruct (sl_back _ _ _ _ (ri_slots _ _ HR) j Hj Ha) as [? _].
    apply (sl_fwd _ _ _ _ (ri_slots _ _ HR)). lia.
  - destruct HD as [_ _ _ En Er]. rewrite Er, !upd_ne by (lia || intros ->; done). split; [lia|done].
Qed.

Lemma change_reserved now s s' k :
  RegInv now s → Change now s s' → (pubkey_to_index s).[k] ≠ 0 → (pubkey_to_index s').[k] ≠ 0.
Proof.
  intros HR HC Hk. pose proof (sl_len _ _ _ _ (ri_slots _ _ HR)) as Hn.
  destruct HC as [_ E|v _ _ Ek _|? ? _ _ _ _ _ E|? ? _ _ HD|j key ? ? Hj _ _ HD].
  - by rewrite E.
  - rewrite Ek. points; [lia|done].
  - by rewrite E.
  - by rewrite (de_pubkeys _ _ _ _ _ HD).
  - rewrite (ro_pubkeys _ _ _ _ _ _ _ HD). points; [lia|lia|done].
Qed.

(** A deactivated record never changes and stays at its index and under its public key, whatever
    is called later; and the public key of every record ever registered stays reserved: no
    later state accepts it for a new validator or a rotation. *)
Theorem deactivation_final h w h' w' :
  registry_run (0, registries_empty) (h, w) → registry_run (h, w) (h', w') →
  (∀ i v, 0 ≤ i → validator_by_index (v2 w) i = Ok v → deactivated_at_height v ≠ 0 →
     validator_by_index (v2 w') i = Ok v ∧ validator_by_public_key (v2 w') (public_key v) = Ok v) ∧
  (∀ i v, 0 ≤ i → validator_by_index (v2 w) i = Ok v → is_ok (require_new_pubkey (v2 w') (public_key v)) = false).
Proof.
  intros HR%run_inv Hrun. split.
  - intros i v Hi [Hlt ->]%by_index_ok Hd. set (v := vec_read (validators (v2 w)) i) in *.
    destruct (run_ind (λ _ s, i < vlen (validators s) ∧ vec_read (validators s) i = v) (h, w) (h', w'))
      as (HR' & [Hlt' Hv] & _); [done| |done|done|done|].
    + intros now s s' HRs _ HC [Hl Hv]. destruct (change_final now s s' i HRs HC) as [? ->]; [lia|by rewrite Hv|]. split; [lia|done].
    + cbn in *. assert (validator_by_index (v2 w') i = Ok v) as Hx by (apply by_index_ok; done). split; [done|].
      by eapply (wf_by_key _ (reg_wf _ _ HR') i).
  - intros i v Hi [Hlt ->]%by_index_ok. set (k := public_key _).
    destruct (run_ind (λ _ s, (pubkey_to_index s).[k] ≠ 0) (h, w) (h', w')) as (_ & Hk & _);
      [done| |done|done| |].
    + intros now s s' HRs _ HC. by apply (change_reserved now).
    + cbn. unfold k. rewrite (ke_found _ _ _ (ri_keys _ _ HR)) by lia. lia.
    + cbn in Hk. unfold require_new_pubkey. destruct (k =? 0); cbn; [done|]. by rewrite (proj2 (Z.eqb_neq _ _) Hk).
Qed.

(** ** The validator set of an earlier height *)
Definition was_active (h : Z) (v : ValidatorRecord) : bool :=
  (added_at_height v <=? h) && ((deactivated_at_height v =? 0) || (h <? deactivated_at_height v)).
Definition all_records (s : ValidatorConfigV2) : list ValidatorRecord :=
  read_validator_at s <$> seqZ 0 (validator_count s).
Definition validator_set_at (h : Z) (s : ValidatorConfigV2) : list B256 :=
  public_key <$> filter (λ v, was_active h v = true) (all_records s).

Definition recorded (h : Z) (s : ValidatorConfigV2) (k : B256) : Prop :=
  ∃ i, 0 ≤ i < vlen (validators s) ∧ public_key (vec_read (validators s) i) = k ∧
       was_active h (vec_read (validators s) i) = true.

Lemma set_at_elem h s k : k ∈ validator_set_at h s ↔ recorded h s k.
Proof.
  unfold validator_set_at, all_records, recorded, read_validator_at, validator_count. rewrite list_elem_of_fmap. split.
  - intros (v & -> & [Hw Hv]%list_elem_of_filter). apply list_elem_of_fmap in Hv as (i & -> & Hi%elem_of_seqZ). exists i.
    split; [lia|done].
  - intros (i & Hi & <- & Hw). eexists. split; [done|]. apply list_elem_of_filter. split; [done|]. apply list_elem_of_fmap.
    exists i. split; [done|]. apply elem_of_seqZ. lia.
Qed.

Lemma set_at_nodup now h s : RegInv now s → NoDup (validator_set_at h s).
Proof.
  intros HR. pose proof (ri_keys _ _ HR) as HK.
  assert (∀ v w, v ∈ all_records s → w ∈ all_records s → public_key v = public_key w → v = w) as Hinj.
  { unfold all_records, read_validator_at, validator_count. intros v w Hv Hw Heq.
    apply list_elem_of_fmap in Hv as (i & -> & Hi%elem_of_seqZ). apply list_elem_of_fmap in Hw as (j & -> & Hj%elem_of_seqZ).
    pose proof (ke_found _ _ _ HK i ltac:(lia)) as H1. rewrite Heq, (ke_found _ _ _ HK j ltac:(lia)) in H1.
    by replace j with i by lia. }
  apply NoDup_fmap_2_strong.
  - intros v w [_ Hv]%list_elem_of_filter [_ Hw]%list_elem_of_filter. by apply Hinj.
  - apply NoDup_filter, NoDup_fmap_2_strong; [|apply NoDup_seqZ]. unfold read_validator_at, validator_count.
    intros i j Hi%elem_of_seqZ Hj%elem_of_seqZ Heq.
    pose proof (ke_found _ _ _ HK i ltac:(lia)) as H1. rewrite Heq, (ke_found _ _ _ HK j ltac:(lia)) in H1. lia.
Qed.

(** At its own height, the set is that of the active records. *)
Lemma recorded_now h s k :
  RegInv h s → recorded h s k ↔ k ∈ public_key <$> get_active_validators s.
Proof.
  intros HR. rewrite list_elem_of_fmap. unfold recorded, was_active. split.
  - intros (i & Hi & <- & Hw). eexists. split; [done|]. apply (active_elem h); [done|]. exists i. do 2 (split; [done|]).
    destruct (ri_heights _ _ HR i Hi) as [? [?|?]]; [done|]. unfold is_active.
    apply andb_true_iff in Hw as [_ [Hw|Hw]%orb_true_iff]; bprop; lia.
  - intros (v & -> & Hv). apply (active_elem h) in Hv as (i & Hi & -> & Ha); [|done]. exists i. do 2 (split; [done|]).
    destruct (ri_heights _ _ HR i Hi) as [? _]. unfold is_active in Ha. rewrite Ha.
    apply andb_true_iff. split; [apply Z.leb_le; lia|done].
Qed.

(** Calls in later blocks do not change the set of an earlier height. *)
Lemma was_active_ext h v w :
  added_at_height v = added_at_height w → deactivated_at_height v = deactivated_at_height w → was_active h v = was_active h w.
Proof. unfold was_active. by intros -> ->. Qed.
Lemma was_active_deactivated h now v :
  h < now → is_active v → was_active h (set_deactivated now v) = was_active h v.
Proof.
  unfold was_active, is_active. cbn. intros Hh ->. f_equal. rewrite orb_true_l. apply orb_true_iff. right. by apply Z.ltb_lt.
Qed.
Lemma was_active_later h v : h < added_at_height v → was_active h v = false.
Proof. intros Hh. unfold was_active. by rewrite (proj2 (Z.leb_gt _ _) Hh). Qed.

(** The same set of records in both states, up to a correspondence of the positions that count. *)
Lemma recorded_transfer h s s' :
  (∀ i, 0 ≤ i < vlen (validators s) → was_active h (vec_read (validators s) i) = true →
     ∃ j, 0 ≤ j < vlen (validators s') ∧ public_key (vec_read (validators s') j) = public_key (vec_read (validators s) i) ∧
          was_active h (vec_read (validators s') j) = true) →
  ∀ k, recorded h s k → recorded h s' k.
Proof. intros Hs k (i & Hi & <- & Hw). destruct (Hs i Hi Hw) as (j & ? & ? & ?). exists j. auto. Qed.

Lemma change_recorded h now s s' k :
  RegInv now s → h < now → Change now s s' → recorded h s k ↔ recorded h s' k.
Proof.
  intros HR Hh HC. assert (0 ≤ vlen (validators s)) as Hn by apply HR.
  destruct HC as [E _|v En Er _ Hv|j v Hj Ha (Hpk & _ & _ & Had & Hde) En Er _|j g Hj Ha HD|j key ing egr Hj Ha _ HD].
  - unfold recorded. by rewrite E.
  - split; apply recorded_transfer; rewrite En; intros i Hi Hw.
    + exists i. rewrite Er, upd_ne by lia. split; [lia|done].
    + rewrite Er in *. destruct (decide (vlen (validators s) = i)) as [<-|]; [by rewrite upd_eq, was_active_later in Hw by lia|].
      rewrite upd_ne in * by done. exists i. split; [lia|done].
  - assert (∀ i, public_key (vec_read (validators s') i) = public_key (vec_read (validators s) i) ∧
                 was_active h (vec_read (validators s') i) = was_active h (vec_read (validators s) i)) as Hsame.
    { intros i. rewrite Er. points; [split; [done|by apply was_active_ext]|done]. }
    unfold recorded. rewrite En. by setoid_rewrite (λ i, proj1 (Hsame i)); setoid_rewrite (λ i, proj2 (Hsame i)).
  - destruct HD as [_ _ _ En _ _ Er].
    assert (∀ i, public_key (vec_read (validators s') i) = public_key (vec_read (validators s) i) ∧
                 was_active h (vec_read (validators s') i) = was_active h (vec_read (validators s) i)) as Hsame.
    { intros i. rewrite Er. repeat case_decide; subst; try done. split; [done|]. by apply (was_active_deactivated h now). }
    unfold recorded. rewrite En. by setoid_rewrite (λ i, proj1 (Hsame i)); setoid_rewrite (λ i, proj2 (Hsame i)).
  - destruct HD as [_ _ _ En Er]. set (n := vlen (validators s)) in *. set (v := vec_read (validators s) j) in *.
    assert (was_active h (rotated now key ing egr v) = false) as Hnew by (apply was_active_later; cbn; lia).
    assert (was_active h (snapshot now n v) = was_active h v) as Hold by exact (was_active_deactivated h now v Hh Ha).
    split; apply recorded_transfer; rewrite En; intros i Hi Hw.
    + destruct (decide (j = i)) as [<-|].
      * exists n. rewrite Er, upd_ne, upd_eq by lia. split; [lia|]. split; [done|by rewrite Hold].
      * exists i. rewrite Er, upd_ne, upd_ne by lia. split; [lia|done].
    + rewrite Er in *. destruct (decide (j = i)) as [<-|]; [by rewrite upd_eq, Hnew in Hw|]. rewrite upd_ne in * by done.
      destruct (decide (n = i)) as [<-|].
      * rewrite upd_eq in *. exists j. split; [lia|]. split; [done|by rewrite Hold in Hw].
      * rewrite upd_ne in * by done. exists i. split; [lia|done].
Qed.

(** C17: the public keys of the validators active at the end of block [h] are, in every later state, those
    of the records added by [h] and not deactivated by [h]: the validator set of any past height can
    be read off the current records, without the state of that height. *)
Theorem historical_set_recoverable h w h' w' :
  registry_run (0, registries_empty) (h, w) → registry_run (h + 1, w) (h', w') →
  public_key <$> get_active_validators (v2 w) ≡ₚ validator_set_at h (v2 w').
Proof.
  intros HR%run_inv Hrun.
  destruct (run_ind (λ now s, h < now ∧ ∀ k, recorded h (v2 w) k ↔ recorded h s k) (h + 1, w) (h', w')) as (HR' & [_ Hk] & _).
  - intros now now' s Hle [? ?]. split; [lia|done].
  - intros now s s' HRs _ HC [Hh Hk]. split; [done|]. intros k. rewrite Hk. by apply (change_recorded h now).
  - done.
  - eapply reg_mono; [|exact HR]. cbn. lia.
  - cbn. split; [lia|done].
  - cbn in *. apply NoDup_Permutation.
    + apply NoDup_fmap_2_strong; [|by eapply active_nodup]. intros v1 v2 Hv1 Hv2 Heq.
      apply (active_elem h) in Hv1 as (i & Hi & -> & _); [|done]. apply (active_elem h) in Hv2 as (j & Hj & -> & _); [|done].
      pose proof (ke_found _ _ _ (ri_keys _ _ HR) i Hi) as H1. rewrite Heq, (ke_found _ _ _ (ri_keys _ _ HR) j Hj) in H1.
      by replace j with i by lia.
    + by eapply set_at_nodup.
    + intros k. rewrite set_at_elem, <- Hk. symmetry. by apply recorded_now.
Qed.
End history.
