(* ===== verification/ValidatorMigration.v ===== *)
(** * Migration from the first validator registry to the second

    The invariant of the first registry, and what the owner's migration of its records in
    reverse order leaves in the second. *)
From Stdlib Require Import ZArith Lia String.
From stdpp Require Import base tactics option list fin_maps gmap sets strings relations.
From S2P Require Import Prelude Base NetAddr ValidatorConfig ValidatorConfigV2 ValidatorRegistry ValidatorOps ValidatorHistory.
Open Scope Z_scope.
Open Scope storage_scope.

(** ** The first registry *)
(** The record at a position of the array. *)
Definition v1_record (s : ValidatorConfig) (i : Z) : Validator := get_validator s (vec_read (validators_array s) i).

(** The array lists the registered addresses, each at the index in its record; endpoints
    are network addresses. *)
Record V1Inv (s : ValidatorConfig) : Prop := {
  v1_len : 0 ≤ vlen (validators_array s);
  v1_listed : ∀ i, 0 ≤ i < vlen (validators_array s) →
    validator_exists s (vec_read (validators_array s) i) = true ∧ v1_index (v1_record s i) = i;
  v1_sound : ∀ a, validator_exists s a = true →
    0 ≤ v1_index (get_validator s a) < vlen (validators_array s) ∧
    vec_read (validators_array s) (v1_index (get_validator s a)) = a ∧
    v1_validator_address (get_validator s a) = a ∧
    ensure_address_is_ip_port (inbound_address (get_validator s a)) = true ∧
    ensure_address_is_ip_port (outbound_address (get_validator s a)) = true;
}.

Lemma v1_empty_inv : V1Inv v1_empty.
Proof. split; cbn; [done|lia|]. intros a. unfold validator_exists. cbn. by rewrite mread_empty. Qed.

(** Writing a registered record, or a record for the next position. *)
Lemma exists_write s a v b :
  validator_exists (write_validator a v s) b = if decide (a = b) then negb (v1_public_key v =? 0) else validator_exists s b.
Proof. unfold validator_exists. cbn. rewrite mread_insert. by case_decide. Qed.
Lemma get_write s a v b : get_validator (write_validator a v s) b = if decide (a = b) then v else get_validator s b.
Proof. unfold get_validator. cbn. apply mread_insert. Qed.

Definition good_record (a : Address) (v : Validator) : Prop :=
  v1_public_key v ≠ 0 ∧ v1_validator_address v = a ∧
  ensure_address_is_ip_port (inbound_address v) = true ∧ ensure_address_is_ip_port (outbound_address v) = true.

Lemma v1_update_inv s a v :
  V1Inv s → validator_exists s a = true → v1_index v = v1_index (get_validator s a) → good_record a v →
  V1Inv (write_validator a v s).
Proof.
  intros [Hn Hl Hs] Ha Hi (Hk & Had & Hin & Hout). split; [done| |].
  - intros i Hir. unfold v1_record. rewrite exists_write, get_write. cbn. destruct (Hl i Hir) as [? Hx].
    case_decide as Heq; [|done]. split; [by apply negb_true_iff, Z.eqb_neq|]. rewrite Hi, Heq. exact Hx.
  - intros b. rewrite exists_write, get_write. cbn. case_decide; [|by apply Hs]. subst b. intros _. rewrite Hi, Had.
    destruct (Hs a Ha) as (? & ? & _). done.
Qed.

Lemma v1_add_inv s a v :
  V1Inv s → validator_exists s a = false → v1_index v = vlen (validators_array s) → good_record a v →
  V1Inv (write_array (vec_push a (validators_array s)) (write_validator a v s)).
Proof.
  intros [Hn Hl Hs] Ha Hi (Hk & Had & Hin & Hout). split; cbn; [lia| |].
  - intros i Hir. unfold v1_record. cbn. rewrite vec_read_push. change (get_validator (write_array _ ?x)) with (get_validator x).
    change (validator_exists (write_array _ ?x)) with (validator_exists x). rewrite exists_write, get_write.
    destruct (decide (vlen (validators_array s) = i)) as [<-|Hp];
      [rewrite !decide_True by done; split; [by apply negb_true_iff, Z.eqb_neq|done]|].
    destruct (Hl i ltac:(lia)) as [He ?]. rewrite decide_False by congruence. by rewrite decide_False by congruence.
  - intros b. change (get_validator (write_array _ ?x)) with (get_validator x).
    change (validator_exists (write_array _ ?x)) with (validator_exists x). rewrite exists_write, get_write, vec_read_push.
    destruct (decide (a = b)) as [<-|]; [intros _; rewrite Hi, Had, decide_True by done; split; [lia|done]|]. intros Hb.
    destruct (Hs b Hb) as (? & ? & ?). rewrite decide_False by lia. split; [lia|done].
Qed.

(** A registered validator moves to another address. *)
Lemma v1_move_inv s a b v :
  V1Inv s → validator_exists s a = true → validator_exists s b = false → v1_index v = v1_index (get_validator s a) →
  good_record b v →
  V1Inv (write_validator b v (delete_validator a (write_array (vec_write (v1_index (get_validator s a)) b (validators_array s)) s))).
Proof.
  intros [Hn Hl Hs] Ha Hb Hi (Hk & Had & Hin & Hout). destruct (Hs a Ha) as (Hia & Hra & _).
  set (p := v1_index (get_validator s a)) in *. set (s1 := delete_validator _ _).
  assert (∀ c, validator_exists s1 c = true → a ≠ c ∧ validator_exists s c = true ∧ get_validator s1 c = get_validator s c) as Hdel.
  { intros c. unfold validator_exists, get_validator. cbn. destruct (decide (a = c)) as [<-|]; [by rewrite mread_delete_eq|].
    by rewrite mread_delete_ne. }
  split; cbn; [lia| |].
  - intros i Hir. unfold v1_record. cbn. rewrite vec_read_write, exists_write, get_write. destruct (Hl i Hir) as [He Hx].
    destruct (decide (p = i)) as [<-|Hp]; [rewrite !decide_True by done; split; [by apply negb_true_iff, Z.eqb_neq|done]|].
    rewrite decide_False by congruence. rewrite decide_False by congruence.
    assert (a ≠ vec_read (validators_array s) i) by (intros Heq; apply Hp; unfold p; rewrite Heq; exact Hx).
    unfold validator_exists, v1_record, get_validator in *. cbn. by rewrite mread_delete_ne.
  - intros c. rewrite exists_write, get_write, vec_read_write. destruct (decide (b = c)) as [<-|Hbc].
    + intros _. rewrite Hi, Had. rewrite decide_True by done. done.
    + intros (Hac & Hc & ->)%Hdel. destruct (Hs c Hc) as (? & Hrc & ?). rewrite decide_False; [done|].
      intros Heq. rewrite <- Heq in Hrc. congruence.
Qed.

(** ** The operations of the first registry *)
Lemma endpoints_ok e i o u : check_endpoints e i o = Ok u → ensure_address_is_ip_port i = true ∧ ensure_address_is_ip_port o = true.
Proof. unfold check_endpoints. by intros ([] & H1%ensure_ok & H2%ensure_ok)%result_bind_ok. Qed.

Lemma check_owner_ok caller e s l u st :
  check_owner caller e (s, l) = (Ok u, st) → st = (s, l) ∧ v1_owner s = caller.
Proof.
  unfold check_owner. intros Hrun. apply bind_ok in Hrun as (o & st1 & [-> ->]%gets_ok & [Hb ->]%require_ok). cbn in Hb. bprop. done.
Qed.

Lemma v1_add_validator_inv sender a k b i o e s l u s' l' :
  V1Inv s → v1_add_validator sender a k b i o e (s, l) = (Ok u, (s', l')) → V1Inv s'.
Proof.
  intros HV Hrun. unfold v1_add_validator in Hrun. apply bind_ok in Hrun as (? & st1 & [Hk ->]%require_ok & Hrun).
  apply bind_ok in Hrun as (? & st1 & Ho & Hrun). apply check_owner_ok in Ho as [-> _].
  apply bind_ok in Hrun as (ex & st1 & [-> ->]%gets_ok & Hrun). apply bind_ok in Hrun as (? & st1 & [Hx ->]%require_ok & Hrun).
  apply bind_ok in Hrun as (e' & st1 & [-> ->]%ask_ok & Hrun). apply bind_ok in Hrun as (? & st1 & [He ->]%lift_ok & Hrun).
  apply bind_ok in Hrun as (n & st1 & [-> ->]%gets_ok & Hrun). apply bind_ok in Hrun as (? & st1 & ->%modify_ok & Hm%modify_ok).
  injection Hm as -> _. cbn [fst] in *. apply endpoints_ok in He as [? ?]. bprop.
  apply v1_add_inv; try done.
Qed.

Lemma update_validator_inv sender a k i o e s l u s' l' :
  V1Inv s → update_validator sender a k i o e (s, l) = (Ok u, (s', l')) → V1Inv s'.
Proof.
  intros HV Hrun. unfold update_validator in Hrun. apply bind_ok in Hrun as (? & st1 & [Hk ->]%require_ok & Hrun).
  apply bind_ok in Hrun as (ex & st1 & [-> ->]%gets_ok & Hrun). apply bind_ok in Hrun as (? & st1 & [Hx ->]%require_ok & Hrun).
  apply bind_ok in Hrun as (old & st1 & [-> ->]%gets_ok & Hrun). apply bind_ok in Hrun as (? & st1 & Hw & Hrun).
  apply bind_ok in Hrun as (e' & st2 & [-> ->]%ask_ok & Hrun). apply bind_ok in Hrun as (? & st2 & [He ->]%lift_ok & Hm%modify_ok).
  injection Hm as -> _. cbn [fst snd] in *. apply endpoints_ok in He as [? ?]. bprop.
  destruct (Z.eqb_spec a sender) as [->|Hne]; cbn [negb when] in Hw.
  - apply ret_ok in Hw as [_ ->]. cbn. by apply v1_update_inv.
  - apply bind_ok in Hw as (t & st2 & [-> ->]%gets_ok & Hw). apply bind_ok in Hw as (? & st2 & [Ht ->]%require_ok & Hw).
    apply bind_ok in Hw as (? & st2 & ->%modify_ok & ->%modify_ok). cbn in *. bprop. by apply (v1_move_inv s sender a).
Qed.

Lemma set_active_inv s a b : V1Inv s → validator_exists s a = true →
  V1Inv (write_validator a (set_active b (v1_validators s).[a]) s).
Proof.
  intros HV Ha. pose proof (v1_sound _ HV a Ha) as (_ & _ & ? & ? & ?).
  apply v1_update_inv; [done|done|done|]. split; [|done]. unfold validator_exists in Ha. bprop. done.
Qed.

Lemma exec_v1 `{Primitives, Ed25519} sender c e w l u w' l' :
  call_ok c (block_number e) → V1Inv (v1 w) → exec_registry sender c e (w, l) = (Ok u, (w', l')) → V1Inv (v1 w').
Proof.
  intros Hc HV Hrun. destruct c; cbn [exec_registry] in Hrun; try (by apply at_v2_ok in Hrun as [-> _]).
  - apply bind_ok in Hrun as (i & [w1 l1] & Hrun & [_ [= -> ->]]%ret_ok). by apply at_v2_ok in Hrun as [-> _].
  - apply migrate_ok in Hrun as (s & val & sk & l1 & u1 & Hs & Hrun).
    apply migrate_record_ok in Hrun as [[c E]|(sa & h & _ & _ & _ & _ & _ & _ & E)]; cbn in E; by subst w'.
  - apply initialize_migrated_ok in Hrun as (s & c & n & Hs & E). cbn in E. by subst w'.
  - apply at_v1_ok in Hrun as [_ Hrun]. unfold v1_initialize in Hrun. apply bind_ok in Hrun as (? & st1 & ->%modify_ok & Hm%modify_ok).
    injection Hm as -> _. by destruct HV.
  - apply at_v1_ok in Hrun as [_ Hrun]. by eapply v1_add_validator_inv.
  - apply at_v1_ok in Hrun as [_ Hrun]. by eapply update_validator_inv.
  - apply at_v1_ok in Hrun as [_ Hrun]. unfold change_validator_status in Hrun. apply bind_ok in Hrun as (? & st1 & Ho & Hrun).
    apply check_owner_ok in Ho as [-> _]. apply bind_ok in Hrun as (ex & st1 & [-> ->]%gets_ok & Hrun).
    apply bind_ok in Hrun as (? & st1 & [Hx ->]%require_ok & Hm%modify_ok). injection Hm as -> _. by apply set_active_inv.
  - apply at_v1_ok in Hrun as [_ Hrun]. unfold change_validator_status_by_index in Hrun. apply bind_ok in Hrun as (? & st1 & Ho & Hrun).
    apply check_owner_ok in Ho as [-> _]. apply bind_ok in Hrun as (ex & st1 & [-> ->]%gets_ok & Hrun).
    apply bind_ok in Hrun as (a & st1 & [Ha%ok_or_ok ->]%lift_ok & Hm%modify_ok). injection Hm as -> _. cbn in Ha |- *.
    apply set_active_inv; [done|]. unfold vec_at in Ha. case_match; [done|]. injection Ha as <-. apply HV. bprop. cbn in Hc. lia.
  - apply at_v1_ok in Hrun as [_ Hrun]. unfold change_owner in Hrun. apply bind_ok in Hrun as (? & st1 & Ho & Hm%modify_ok).
    apply check_owner_ok in Ho as [-> _]. injection Hm as -> _. by destruct HV.
  - apply at_v1_ok in Hrun as [_ Hrun]. unfold set_next_full_dkg_ceremony in Hrun. apply bind_ok in Hrun as (? & st1 & Ho & Hm%modify_ok).
    apply check_owner_ok in Ho as [-> _]. injection Hm as -> _. by destruct HV.
Qed.

Lemma run_v1 `{Primitives, Ed25519} p q : registry_run p q → V1Inv (v1 p.2) → V1Inv (v1 q.2).
Proof.
  intros Hrun. induction Hrun as [p|p p' q Hs _ IH]; [done|]. intros HV. apply IH.
  destruct Hs as [|e sender c w l u w' l' Hc Hex]; [done|]. by eapply exec_v1.
Qed.

(** The records have the addresses of their positions, which differ. *)
Lemma v1_record_address s i :
  V1Inv s → 0 ≤ i < vlen (validators_array s) → v1_validator_address (v1_record s i) = vec_read (validators_array s) i.
Proof. intros HV Hi. destruct (v1_listed _ HV i Hi) as [He _]. by destruct (v1_sound _ HV _ He) as (_ & _ & ? & _). Qed.
Lemma v1_address_inj s i j :
  V1Inv s → 0 ≤ i < vlen (validators_array s) → 0 ≤ j < vlen (validators_array s) →
  v1_validator_address (v1_record s i) = v1_validator_address (v1_record s j) → i = j.
Proof.
  intros HV Hi Hj. rewrite !v1_record_address by done. intros Heq.
  destruct (v1_listed _ HV i Hi) as [_ <-], (v1_listed _ HV j Hj) as [_ <-]. unfold v1_record at 1. by rewrite Heq.
Qed.

(** ** Running forward *)
Lemma bind_gets {S A B} (f : S → A) (g : A → M S B) e st : (gets f ≫= g) e st = g (f st.1) e st.
Proof. done. Qed.
Lemma bind_ask {S B} (g : Env → M S B) e st : (ask ≫= g) e st = g e e st.
Proof. done. Qed.
Lemma bind_run {S A B} (m : M S A) (g : A → M S B) e st a st1 : m e st = (Ok a, st1) → (m ≫= g) e st = g a e st1.
Proof. unfold mbind, M_bind. by intros ->. Qed.
Lemma bind_require {S B} b err (g : M S B) e st : b = true → (require b err;; g) e st = g e st.
Proof. by intros ->. Qed.
Lemma bind_lift {S A B} (r : Result A) a (g : A → M S B) e st : r = Ok a → (lift r ≫= g) e st = g a e st.
Proof. by intros ->. Qed.

Section migration.
Context `{Primitives, Ed25519}.
Variable (s1 : ValidatorConfig) (o : Address) (n : Z) (e : Env).
Hypotheses (HV1 : V1Inv s1) (Ho : v1_owner s1 = o) (Ho0 : o ≠ ZERO).
Hypotheses (Hn : n = as_u8 (ValidatorConfig.v1_validator_count s1)) (Hn0 : n ≠ 0) (Hnow : 0 < block_number e).

Lemma n_bounds : 0 < n ≤ U8_MAX ∧ n ≤ vlen (validators_array s1).
Proof.
  unfold as_u8, ValidatorConfig.v1_validator_count in Hn. pose proof (v1_len _ HV1).
  pose proof (Z.mod_pos_bound (vlen (validators_array s1)) 256 ltac:(lia)).
  pose proof (Z.mod_le (vlen (validators_array s1)) 256 ltac:(lia) ltac:(lia)). unfold U8_MAX. lia.
Qed.

(** What a migrated record keeps of the old one. *)
Definition migrated_from (val : Validator) (v : ValidatorRecord) : Prop :=
  public_key v = v1_public_key val ∧ validator_address v = v1_validator_address val ∧ ingress v = inbound_address val ∧
  (∃ sa, parse_socket_addr (outbound_address val) = Some sa ∧ egress v = socket_ip_string sa) ∧
  (is_active v ↔ v1_active val = true).

(** The records that must not be skipped: a valid key, and no record of higher index has the same
    key, or is active at the same ingress address. *)
Definition migratable (i : Z) : Prop :=
  public_key_decodes (v1_public_key (v1_record s1 i)) = true ∧
  ∀ j, i < j < n → v1_public_key (v1_record s1 j) ≠ v1_public_key (v1_record s1 i) ∧
    (v1_active (v1_record s1 i) = true → v1_active (v1_record s1 j) = true →
     ingress_key (inbound_address (v1_record s1 j)) ≠ ingress_key (inbound_address (v1_record s1 i))).

Definition configured (k : Z) (s : ValidatorConfigV2) : Prop :=
  (config s = config_empty ∧ k = 0) ∨ config s = mkConfig o false 0 k n.

(** The records of index [m] and above are migrated or skipped. *)
Record Progress (m : Z) (s : ValidatorConfigV2) : Prop := {
  pr_count : ∃ k, 0 ≤ k ∧ configured k s ∧ vlen (validators s) + k = n - m;
  pr_from : ∀ j, 0 ≤ j < vlen (validators s) →
    ∃ i, m ≤ i < n ∧ migrated_from (v1_record s1 i) (vec_read (validators s) j);
  pr_done : ∀ i, m ≤ i < n → migratable i →
    ∃ j, 0 ≤ j < vlen (validators s) ∧ migrated_from (v1_record s1 i) (vec_read (validators s) j);
}.

Lemma migration_owner_run k w l :
  v1 w = s1 → configured k (v2 w) →
  require_migration_owner o e (w, l) =
    (Ok (mkConfig o false 0 k n), (mkRegistries s1 (write_config (mkConfig o false 0 k n) (v2 w)), l)).
Proof.
  intros Hw Hc. unfold require_migration_owner. rewrite bind_gets. cbn [fst]. destruct Hc as [[Hc ->]|Hc]; rewrite Hc.
  - rewrite (bind_lift _ config_empty) by done. cbn [owner config_empty]. change (ZERO =? ZERO) with true. cbv iota.
    erewrite bind_run; [|rewrite !bind_gets; cbn [fst]; rewrite Hw, Ho, <- Hn; rewrite bind_require; [reflexivity|]].
    + unfold lift, require_owner, is_owner. cbn. by rewrite Z.eqb_refl, Hw.
    + apply negb_true_iff, Z.eqb_neq. intros Hz. apply Hn0. by rewrite Hn, Hz.
  - rewrite (bind_lift _ (mkConfig o false 0 k n)) by done. cbn [owner].
    rewrite (proj2 (Z.eqb_neq _ _) Ho0). erewrite bind_run; [|reflexivity]. unfold lift, require_owner, is_owner. cbn.
    rewrite Z.eqb_refl. cbn. do 2 f_equal. destruct w as [x y]. cbn in *. subst. destruct y. cbn in *. by subst.
Qed.

(** The endpoints of the first registry are network addresses. *)
Lemma v1_record_facts i : 0 ≤ i < n →
  ∃ h sa, ingress_key (inbound_address (v1_record s1 i)) = Ok h ∧ parse_socket_addr (outbound_address (v1_record s1 i)) = Some sa.
Proof.
  intros Hi. destruct n_bounds as [_ Hle]. destruct (v1_listed _ HV1 i ltac:(lia)) as [He _].
  destruct (v1_sound _ HV1 _ He) as (_ & _ & _ & Hin & Hout). fold (v1_record s1 i) in Hin, Hout.
  unfold ensure_address_is_ip_port in Hin, Hout. unfold ingress_key.
  destruct (parse_socket_addr (inbound_address _)) as [si|]; [|done]. destruct (parse_socket_addr (outbound_address _)) as [so|]; [|done].
  exists (keccak256 (socket_bytes si)), so. done.
Qed.
(** A record that is not skipped. *)
Lemma progress_append m k s v :
  0 < m ≤ n → Progress m s → configured k s → vlen (validators s) + k = n - m → 0 ≤ k → 0 ≤ vlen (validators s) →
  migrated_from (v1_record s1 (m - 1)) v →
  ∀ s', config s' = config s → vlen (validators s') = vlen (validators s) + 1 →
  (∀ j, vec_read (validators s') j = upd (vec_read (validators s)) (vlen (validators s)) v j) → Progress (m - 1) s'.
Proof.
  intros Hm [_ Hf Hd] Hc Hk Hk0 Hl Hv s' Ec En Er. split.
  - exists k. unfold configured. rewrite Ec, En. split; [done|]. split; [done|lia].
  - intros j Hj. rewrite Er. points.
    + exists (m - 1). split; [lia|done].
    + destruct (Hf j ltac:(lia)) as (i & ? & ?). exists i. split; [lia|done].
  - intros i Hi Hmi. destruct (decide (i = m - 1)) as [->|].
    + exists (vlen (validators s)). rewrite Er, upd_eq. split; [lia|done].
    + destruct (Hd i ltac:(lia) Hmi) as (j & ? & ?). exists j. rewrite Er, upd_ne by lia. split; [lia|done].
Qed.

Lemma progress_skip m k s :
  0 < m ≤ n → Progress m s → config s = mkConfig o false 0 k n → vlen (validators s) + k = n - m → 0 ≤ k →
  0 ≤ vlen (validators s) → ¬ migratable (m - 1) → Progress (m - 1) (write_config (mkConfig o false 0 (Z.min U8_MAX (k + 1)) n) s).
Proof.
  intros Hm [_ Hf Hd] Hc Hk Hk0 Hl Hnm. destruct n_bounds as [Hn1 _]. split; cbn.
  - exists (k + 1). split; [lia|]. split; [|lia]. right. cbn. by rewrite Z.min_r by lia.
  - intros j Hj. destruct (Hf j Hj) as (i & ? & ?). exists i. split; [lia|done].
  - intros i Hi Hmi. destruct (decide (i = m - 1)) as [->|]; [done|]. apply Hd; [lia|done].
Qed.

(** The migration of one record. *)
Lemma migrate_record_run m k s l :
  0 < m ≤ n → RegInv (block_number e) s → Progress m s → config s = mkConfig o false 0 k n →
  vlen (validators s) + k = n - m → 0 ≤ k →
  ∃ s' l', migrate_record (m - 1) (v1_record s1 (m - 1)) k e (mkRegistries s1 s, l) = (Ok tt, (mkRegistries s1 s', l')) ∧
    Progress (m - 1) s'.
Proof.
  intros Hm HR HP Hc Hk Hk0. pose proof (sl_len _ _ _ _ (ri_slots _ _ HR)) as Hl. set (val := v1_record s1 (m - 1)).
  destruct (v1_record_facts (m - 1) ltac:(lia)) as (h & sa & Hh & Hsa). fold val in Hh, Hsa. destruct n_bounds as [_ Hle].
  assert (¬ migratable (m - 1) → ∃ s' l', skip_migration (m - 1) val k e (mkRegistries s1 s, l) = (Ok tt, (mkRegistries s1 s', l')) ∧
    Progress (m - 1) s') as Hskip.
  { intros Hnm. eexists _, _. split; [reflexivity|]. cbn. rewrite Hc. cbn. by apply (progress_skip m k). }
  assert (∀ j, 0 ≤ j < vlen (validators s) → ∃ i, m - 1 < i < n ∧ migrated_from (v1_record s1 i) (vec_read (validators s) j)) as Hf.
  { intros j Hj. destruct (pr_from _ _ HP j Hj) as (i & ? & ?). exists i. split; [lia|done]. }
  unfold migrate_record. destruct (public_key_decodes (v1_public_key val)) eqn:Hdec; cbn [negb];
    [|apply Hskip; intros [Hx _]; fold val in Hx; congruence].
  rewrite Hsa, bind_gets. cbn [fst v2]. destruct (ke_sound _ _ _ (ri_keys _ _ HR) (v1_public_key val)) as [Hz|[Hr Hpk]].
  2: { rewrite (proj2 (Z.eqb_neq _ 0)) by lia. cbn [negb]. apply Hskip. intros [_ Hdup].
       edestruct Hf as (i & Hi & Hmf & _); [|rewrite Hpk in Hmf]; [lia|]. destruct (Hdup i Hi) as [Hne _].
       by apply Hne. }
  rewrite Hz. cbn [Z.eqb negb]. rewrite !bind_gets, bind_require.
  2: { cbn [fst v2]. destruct (ad_sound _ _ _ (ri_addresses _ _ HR) (v1_validator_address val)) as [->|[Hr Hpa]]; [done|].
       edestruct Hf as (i & Hi & _ & Hmf & _); [|rewrite Hpa in Hmf]; [lia|].
       pose proof (v1_address_inj s1 (m - 1) i HV1 ltac:(lia) ltac:(lia) Hmf). lia. }
  rewrite (bind_lift _ h), bind_gets by done. cbn [fst v2].
  destruct (v1_active val && (active_ingress_ips s).[h]) eqn:Htaken.
  { apply Hskip. intros [_ Hdup]. apply andb_true_iff in Htaken as [Hva Ht].
    destruct (in_sound _ _ _ (ri_ingresses _ _ HR) h Ht) as (j & Hj & Hja & Hji). destruct (Hf j Hj) as (i & Hi & _ & _ & Hin & _ & Hact).
    destruct (Hdup i Hi) as [_ Hne]. apply Hne; [done|by apply Hact|]. rewrite <- Hin. fold val. congruence. }
  rewrite bind_ask. unfold at_v2.
  destruct (append_validator (v1_validator_address val) (v1_public_key val) (inbound_address val) (socket_ip_string sa) ZERO
    (block_number e) (if v1_active val then 0 else block_number e) e (s, l)) as [[i|er] [s2 l2]] eqn:Happ.
  2: { exfalso. clear -Happ. unfold append_validator in Happ. destruct (v1_active val); [done|].
       rewrite bind_gets in Happ. destruct (block_number e =? 0); done. }
  erewrite bind_run by (unfold zoom; cbn [fst snd v2]; rewrite Happ; reflexivity).
  apply append_ok in Happ as (-> & [= -> ->]). cbn [fst snd v1].
  set (v := mkRecord _ _ _ _ _ _ _ _ _).
  assert (migrated_from val v) as Hmf.
  { unfold migrated_from, is_active. cbn. repeat split; try done; [by exists sa|..]; destruct (v1_active val); (done || lia). }
  assert (∀ s', config s' = config s → vlen (validators s') = vlen (validators s) + 1 →
    (∀ j, vec_read (validators s') j = upd (vec_read (validators s)) (vlen (validators s)) v j) → Progress (m - 1) s') as Hend
    by (apply (progress_append m k); try done; by right).
  assert (config (appended v s) = config s ∧ validators (appended v s) = vec_push v (validators s)) as [Ec Ev]
    by (unfold appended; by destruct (deactivated_at_height v =? 0)).
  destruct (v1_active val); cbn [when].
  - eexists _, _. split; [reflexivity|]. cbn. apply Hend; cbn; rewrite ?Ev; [done|done|]. intros j. apply vec_read_push.
  - eexists _, _. split; [reflexivity|]. cbn. apply Hend; rewrite ?Ev; [done|done|]. intros j. apply vec_read_push.
Qed.

Lemma migrate_run m w l :
  0 < m ≤ n → v1 w = s1 → RegInv (block_number e) (v2 w) → Progress m (v2 w) →
  ∃ w' l', migrate_validator o (m - 1) e (w, l) = (Ok tt, (w', l')) ∧
    v1 w' = s1 ∧ RegInv (block_number e) (v2 w') ∧ Progress (m - 1) (v2 w').
Proof.
  intros Hm Hw HR HP. destruct (pr_count _ _ HP) as (k & Hk0 & Hc & Hk). destruct n_bounds as [_ Hle].
  set (s := write_config (mkConfig o false 0 k n) (v2 w)).
  assert (RegInv (block_number e) s) as HRs by (by apply reg_config).
  assert (Progress m s) as HPs.
  { destruct HP as [_ Hf Hd]. split; [|exact Hf|exact Hd]. exists k. split; [done|]. split; [by right|done]. }
  destruct (migrate_record_run m k s l Hm HRs HPs eq_refl Hk Hk0) as (s' & l' & Hrun & HP').
  assert (migrate_validator o (m - 1) e (w, l) = (Ok tt, (mkRegistries s1 s', l'))) as Hmig.
  { unfold migrate_validator. rewrite (bind_run _ _ _ _ _ _ (migration_owner_run k w l Hw Hc)). fold s.
    cbn [v1_validator_count migration_skipped_count]. rewrite bind_gets. cbn [fst v2]. unfold validator_count at 1 2. cbn [s validators write_config].
    rewrite bind_require.
    - erewrite bind_run; [rewrite bind_gets; exact Hrun|]. unfold view. cbn [fst v1]. unfold get_validators_array, vec_at.
      rewrite (proj2 (Z.leb_gt _ _)) by lia. reflexivity.
    - rewrite (proj2 (Z.leb_gt _ _)) by lia. rewrite (proj2 (Z.eqb_eq _ _)) by lia. done. }
  exists (mkRegistries s1 s'), l'. split; [done|]. split; [done|]. split; [|done].
  by eapply (migrate_change _ o (m - 1) e w).
Qed.

(** The owner migrates the records from the last to the first. *)
Fixpoint migrate_all (m : nat) : M Registries unit :=
  match m with
  | O => mret tt
  | S p => migrate_validator o (Z.of_nat p);; migrate_all p
  end.

Lemma migrate_all_run m w l :
  Z.of_nat m ≤ n → v1 w = s1 → RegInv (block_number e) (v2 w) → Progress (Z.of_nat m) (v2 w) →
  ∃ w' l', migrate_all m e (w, l) = (Ok tt, (w', l')) ∧ v1 w' = s1 ∧ RegInv (block_number e) (v2 w') ∧ Progress 0 (v2 w').
Proof.
  revert w l. induction m as [|m IH]; intros w l Hm Hw HR HP; [exists w, l; done|]. cbn [migrate_all].
  destruct (migrate_run (Z.of_nat (S m)) w l ltac:(lia) Hw HR HP) as (w1 & l1 & Hrun & Hw1 & HR1 & HP1).
  replace (Z.of_nat (S m) - 1) with (Z.of_nat m) in Hrun, HP1 by lia. erewrite bind_run by exact Hrun. apply IH; (done || lia).
Qed.

Lemma migration_run l :
  ∃ w' l', (migrate_all (Z.to_nat n);; initialize_if_migrated o) e (mkRegistries s1 v2_empty, l) = (Ok tt, (w', l')) ∧
    v1 w' = s1 ∧ RegInv (block_number e) (v2 w') ∧
    validator_count (v2 w') ≤ n ∧
    (∀ j, 0 ≤ j < validator_count (v2 w') → ∃ i, 0 ≤ i < n ∧ migrated_from (v1_record s1 i) (read_validator_at (v2 w') j)) ∧
    (∀ i, 0 ≤ i < n → migratable i →
       ∃ j, 0 ≤ j < validator_count (v2 w') ∧ migrated_from (v1_record s1 i) (read_validator_at (v2 w') j)) ∧
    next_network_identity_rotation_epoch (v2 w') = next_dkg_ceremony s1 ∧
    ∃ k, config (v2 w') = mkConfig o true (block_number e) k n.
Proof.
  destruct n_bounds as [Hn1 _]. destruct (migrate_all_run (Z.to_nat n) (mkRegistries s1 v2_empty) l) as (w & l1 & Hrun & Hw & HR & HP).
  - lia.
  - done.
  - eapply reg_mono; [|apply reg_empty]. lia.
  - split; cbn.
    + exists 0. split; [done|]. split; [by left|lia].
    + intros j Hj. lia.
    + intros i Hi. lia.
  - erewrite bind_run by exact Hrun. destruct (pr_count _ _ HP) as (k & Hk0 & Hc & Hk).
    unfold initialize_if_migrated. rewrite (bind_run _ _ _ _ _ _ (migration_owner_run k w l1 Hw Hc)). rewrite bind_gets.
    cbn [v1_validator_count migration_skipped_count fst v2]. unfold validator_count. cbn [validators write_config].
    rewrite bind_require by (rewrite (proj2 (Z.eqb_neq _ _)), (proj2 (Z.ltb_ge _ _)) by lia; done).
    eexists _, _. split; [reflexivity|]. split; [done|]. split; [by apply reg_config, reg_epoch, reg_config|].
    split; [unfold validator_count; cbn; lia|]. split; [exact (pr_from _ _ HP)|]. split; [exact (pr_done _ _ HP)|].
    split; [by rewrite <- Hw|]. by exists k.
Qed.
End migration.

Section promises.
Context `{Primitives, Ed25519}.

(** C36: for at most 255 validators in the first registry, the migration by its owner, one call per
    record from the last to the first, always goes through, whatever the records: no call
    fails, the registry can then be initialized and is well formed, every record in it comes from the
    first registry, and only records with an invalid key, or whose key or (if
    active) ingress address a record of higher index has too, are left out. *)
Theorem migration_completes h w o e l :
  registry_run (0, registries_empty) (h, w) → v2 w = v2_empty → v1_owner (v1 w) = o → o ≠ ZERO →
  let n := ValidatorConfig.v1_validator_count (v1 w) in
  0 < n ≤ U8_MAX → 0 < block_number e →
  ∃ w' l', (migrate_all o (Z.to_nat n);; initialize_if_migrated o) e (w, l) = (Ok tt, (w', l')) ∧
    is_init (config (v2 w')) = true ∧ owner (config (v2 w')) = o ∧
    next_network_identity_rotation_epoch (v2 w') = next_dkg_ceremony (v1 w) ∧ registry_wf (v2 w') ∧
    (∀ j, 0 ≤ j < validator_count (v2 w') →
       ∃ i, 0 ≤ i < n ∧ migrated_from (v1_record (v1 w) i) (read_validator_at (v2 w') j)) ∧
    (∀ i, 0 ≤ i < n → migratable (v1 w) n i →
       ∃ j, 0 ≤ j < validator_count (v2 w') ∧ migrated_from (v1_record (v1 w) i) (read_validator_at (v2 w') j)).
Proof.
  intros Hrun Hv2 Ho Ho0 n Hn Hnow. pose proof (run_v1 _ _ Hrun v1_empty_inv) as HV. cbn in HV. destruct w as [s1 s2]. cbn in *. subst s2.
  assert (n = as_u8 n) as Hu8 by (unfold as_u8; rewrite Z.mod_small; unfold U8_MAX in Hn; lia).
  destruct (migration_run s1 o n e HV Ho Ho0 Hu8 ltac:(lia) Hnow l)
    as (w' & l' & Hr & _ & HR & _ & Hfrom & Hdone & Hep & k & Hc).
  exists w', l'. rewrite Hc. do 4 (split; [done|]). split; [by eapply reg_wf|]. done.
Qed.

(** The first call copies the number of records at the width of a byte. *)
Lemma fresh_owner caller e w l c st :
  v2 w = v2_empty → require_migration_owner caller e (w, l) = (Ok c, st) →
  v1_validator_count c = as_u8 (ValidatorConfig.v1_validator_count (v1 w)) ∧
  migration_skipped_count c = 0 ∧ validator_count (v2 st.1) = 0.
Proof.
  intros Hv2 Hrun. unfold require_migration_owner in Hrun. apply bind_ok in Hrun as (c0 & st1 & [-> ->]%gets_ok & Hrun).
  apply bind_ok in Hrun as (c0 & st1 & [Hc ->]%lift_ok & Hrun). cbn [fst] in Hc. rewrite Hv2 in Hc. injection Hc as <-.
  apply bind_ok in Hrun as (c1 & st1 & Hc1 & [Ho ->]%lift_ok). unfold require_owner in Ho.
  destruct (negb (is_owner c1 caller)); [done|]. injection Ho as <-. cbn in Hc1.
  apply bind_ok in Hc1 as (o & st2 & [-> ->]%gets_ok & Hc1). apply bind_ok in Hc1 as (n & st2 & [-> ->]%gets_ok & Hc1).
  apply bind_ok in Hc1 as (? & st2 & [_ ->]%require_ok & Hc1). apply bind_ok in Hc1 as (? & st2 & Hm & [-> ->]%ret_ok).
  apply zoom_ok in Hm as (s & l' & Hm%modify_ok & ->). injection Hm as -> ->. cbn. by rewrite Hv2.
Qed.

(** C37: the number of validators to migrate is kept at the width of a byte.  With 256 validators or more in the
    first registry it wraps around: at a multiple of 256, no migration call and no initialization
    ever succeeds; otherwise the migration counts as complete after the first [n mod 256] records, and
    the second registry is initialized without the validators of all the other records. *)
Theorem migration_count_truncated h w o e l :
  registry_run (0, registries_empty) (h, w) → v2 w = v2_empty → v1_owner (v1 w) = o → o ≠ ZERO →
  let n := ValidatorConfig.v1_validator_count (v1 w) in
  256 ≤ n → 0 < block_number e →
  (n mod 256 = 0 → ∀ sender idx, is_ok (migrate_validator sender idx e (w, l)).1 = false ∧
                                 is_ok (initialize_if_migrated sender e (w, l)).1 = false) ∧
  (n mod 256 ≠ 0 → ∃ w' l', (migrate_all o (Z.to_nat (n mod 256));; initialize_if_migrated o) e (w, l) = (Ok tt, (w', l')) ∧
    is_init (config (v2 w')) = true ∧
    ∀ i j, n mod 256 ≤ i < n → 0 ≤ j < validator_count (v2 w') →
      validator_address (read_validator_at (v2 w') j) ≠ v1_validator_address (v1_record (v1 w) i)).
Proof.
  intros Hrun Hv2 Ho Ho0 n Hn Hnow. pose proof (run_v1 _ _ Hrun v1_empty_inv) as HV. cbn in HV. split.
  - intros Hz sender idx. split.
    + destruct (migrate_validator sender idx e (w, l)) as [[u|] st] eqn:Hm; [|done]. exfalso. unfold migrate_validator in Hm.
      apply bind_ok in Hm as (c & st1 & Hc & Hm). apply fresh_owner in Hc as (Hcount & Hsk & Hlen); [|done].
      apply bind_ok in Hm as (x & st2 & [-> ->]%gets_ok & Hm). apply bind_ok in Hm as (? & st2 & [Hb _]%require_ok & _).
      fold n in Hcount. unfold as_u8 in Hcount. rewrite Hcount, Hz, Hsk, Hlen in Hb. done.
    + destruct (initialize_if_migrated sender e (w, l)) as [[u|] st] eqn:Hm; [|done]. exfalso. unfold initialize_if_migrated in Hm.
      apply bind_ok in Hm as (c & st1 & Hc & Hm). apply fresh_owner in Hc as (Hcount & Hsk & Hlen); [|done].
      apply bind_ok in Hm as (x & st2 & [-> ->]%gets_ok & Hm). apply bind_ok in Hm as (? & st2 & [Hb _]%require_ok & _).
      fold n in Hcount. unfold as_u8 in Hcount. rewrite Hcount, Hz in Hb. done.
  - intros Hnz. destruct w as [s1 s2]. cbn in *. subst s2.
    destruct (migration_run s1 o (n mod 256) e HV Ho Ho0 eq_refl Hnz Hnow l) as (w' & l' & Hr & _ & _ & _ & Hfrom & _ & _ & k & Hc).
    exists w', l'. rewrite Hc. do 2 (split; [done|]). intros i j Hi Hj Heq.
    destruct (Hfrom j Hj) as (i' & Hi' & _ & Ha & _). rewrite Heq in Ha.
    pose proof (Z.mod_pos_bound n 256 ltac:(lia)). assert (vlen (validators_array s1) = n) as Elen by done.
    apply v1_address_inj in Ha; [lia|done|lia|lia].
Qed.
End promises.
