(* ===== verification/ValidatorLimits.v ===== *)
(** * Endpoints that are too long

    Ports are parsed with any number of leading zeroes, while the signed message of an addition or a
    rotation writes the lengths of the endpoints in one byte. *)
From Stdlib Require Import ZArith Lia String.
From stdpp Require Import base tactics option list fin_maps gmap sets strings.
From S2P Require Import Prelude Base NetAddr NetAddrProps ValidatorConfig ValidatorConfigV2 ValidatorRegistry ValidatorOps ValidatorHistory ValidatorMigration.
Open Scope Z_scope.
Open Scope storage_scope.

(** The endpoint [10.0.0.1:80] with [n] more zeroes in the port. *)
Definition padded_endpoint (n : nat) : string := bytes_string (string_bytes "10.0.0.1:" ++ replicate n (char "0") ++ string_bytes "80").

Lemma padded_bytes n : string_bytes (padded_endpoint n) = string_bytes "10.0.0.1:" ++ replicate n (char "0") ++ string_bytes "80".
Proof.
  apply bytes_string_roundtrip. rewrite !Forall_app. split; [by repeat constructor|]. split; [|by repeat constructor].
  by apply Forall_replicate.
Qed.
Lemma string_bytes_length t : length (string_bytes t) = String.length t.
Proof. unfold string_bytes. rewrite length_map. induction t; cbn; congruence. Qed.
Lemma padded_length n : String.length (padded_endpoint n) = (11 + n)%nat.
Proof. rewrite <- string_bytes_length, padded_bytes, !length_app, length_replicate. cbn. lia. Qed.

Lemma padded_parses n : parse_socket_addr (padded_endpoint n) = Some (V4 [10; 0; 0; 1] 80).
Proof.
  unfold parse_socket_addr, parse_with, read_socket_addr, or_else. rewrite padded_bytes. unfold read_socket_addr_v4.
  set (z := replicate n (char "0") ++ string_bytes "80").
  assert (read_port (char ":" :: z) = Some (80, [])) as Hp.
  { unfold read_port. erewrite parser_bind_run by apply read_char. by apply read_number_zeroes. }
  change (string_bytes "10.0.0.1:" ++ z) with (show_ipv4 [10; 0; 0; 1] ++ char ":" :: z).
  rewrite (parser_bind_run _ _ _ _ _ (read_ipv4_show [10; 0; 0; 1] (char ":" :: z) ltac:(split; [done|by repeat constructor]) eq_refl)).
  by rewrite (parser_bind_run _ _ _ _ _ Hp).
Qed.

Section limits.
Context `{Primitives, Ed25519}.

(** Padding the port of an accepted endpoint with 256 zeroes gives another accepted text of the same
    address, and a rotation to it by an active validator, with a fresh key and any
    well-formed signature, runs into the conversion of its length to a byte, which panics. *)
Theorem long_ingress_panics n i key egr sig e s l v h :
  (256 ≤ n)%nat → get_active_validator s i = Ok v → is_init (config s) = true →
  require_new_pubkey s key = Ok tt → ensure_address_is_ip egr = true →
  require_unique_ingress s "10.0.0.1:80" = Ok h → signature_decodes sig = true →
  validate_endpoints (padded_endpoint n) egr = Ok tt ∧ ingress_key (padded_endpoint n) = Ok h ∧
  (rotate_validator (validator_address v) i key (padded_endpoint n) egr sig e (s, l)).1 = Err Aborted.
Proof.
  intros Hn Hv Hinit Hkey Hegr Huniq Hsig. pose proof (padded_parses n) as Hp. pose proof Huniq as [Hk Hg]%unique_ingress_ok.
  assert (validate_endpoints (padded_endpoint n) egr = Ok tt) as Hend
    by (unfold validate_endpoints, ensure_address_is_ip_port; by rewrite Hp, Hegr).
  assert (ingress_key (padded_endpoint n) = Ok h) as Hik by (rewrite <- Hk; unfold ingress_key; by rewrite Hp).
  split; [done|]. split; [done|]. unfold rotate_validator.
  rewrite (bind_run _ _ _ _ v (s, l)) by (unfold view; cbn [fst]; by rewrite Hv). rewrite bind_gets. cbn [fst].
  rewrite (bind_lift _ (config s)) by (unfold require_init; by rewrite Hinit).
  rewrite (bind_lift _ (config s)) by (unfold require_owner_or_validator; by rewrite Z.eqb_refl).
  rewrite (bind_run _ _ _ _ tt (s, l)) by (unfold view; cbn [fst]; by rewrite Hkey). rewrite (bind_lift _ tt) by done.
  rewrite (bind_run _ _ _ _ h (s, l)) by (unfold view, require_unique_ingress; cbn [fst]; by rewrite Hik; cbn; rewrite Hg).
  unfold mbind at 1, M_bind at 1, view at 1. cbn [fst]. unfold verify_validator_signature. rewrite Hsig.
  assert (length_u8 (padded_endpoint n) = Err Aborted) as ->; [|done].
  unfold length_u8. rewrite padded_length. rewrite (proj2 (Z.leb_gt _ _)); [done|]. unfold U8_MAX. lia.
Qed.
End limits.
