(* ===== verification/ValidatorRuns.v ===== *)
(** * Concrete runs of the validator registries

    Registrations, rotations, deactivations and migrations with a concrete signature scheme, on which
    the theorems about the registries are applied. *)
From Stdlib Require Import ZArith Lia String.
From stdpp Require Import base tactics option list fin_maps gmap sets strings relations.
From S2P Require Import Prelude Base NetAddr NetAddrProps ValidatorConfig ValidatorConfigV2 ValidatorRegistry ValidatorOps ValidatorHistory ValidatorMigration ValidatorLimits.
Open Scope Z_scope.
Open Scope storage_scope.

(** ** Playing calls *)
Section play.
Context `{Primitives, Ed25519}.

Global Instance registry_call_ok_dec c now : Decision (call_ok c now).
Proof. destruct c; cbn; apply _. Defined.

Fixpoint registry_play (e : Env) (cs : list (Address * RegistryCall)) (w : Registries) : option Registries :=
  match cs with
  | [] => Some w
  | (sender, c) :: cs =>
      if decide (call_ok c (block_number e)) then
        match exec_registry sender c e (w, []) with
        | (Ok _, (w', _)) => registry_play e cs w'
        | (Err _, _) => None
        end
      else None
  end.

(** One block of calls after another state. *)
Lemma registry_play_run e cs p w w' :
  p ≤ block_number e → registry_play e cs w = Some w' → registry_run (p, w) (block_number e, w').
Proof.
  intros Hp Hplay. eapply rtc_l; [by apply Blocks|]. revert w Hplay.
  induction cs as [|[sender c] cs IH]; intros w; cbn; [intros [= <-]; apply rtc_refl|].
  case_decide as Hok; [|done]. destruct (exec_registry sender c e (w, [])) as [[u|] [w1 l1]] eqn:Hrun; [|done].
  intros Hplay. eapply rtc_l; [by eapply Called|]. by apply IH.
Qed.

Lemma run_trans p q r : registry_run p q → registry_run q r → registry_run p r.
Proof. unfold registry_run. apply transitivity. Qed.

Definition played (o : option Registries) : Registries := default registries_empty o.
End play.

(** ** The outside code *)
(** Signatures are 64 bytes that end with the low byte of the key; odd keys are points. *)
Definition sample_ed25519 : Ed25519 := {|
  signature_decodes s := (length s =? 64)%nat;
  public_key_decodes k := Z.odd k;
  ed25519_verify k _ _ s := List.last s 0 =? k mod 256;
|}.
#[local] Existing Instance sample_primitives.
#[local] Existing Instance sample_ed25519.
Definition sign (k : B256) : list Z := replicate 63 0 ++ [k mod 256].

(** ** A history *)
Definition registry_owner : Address := 900.
Definition block1 : list (Address * RegistryCall) := [
  (0, V2Initialize registry_owner);
  (registry_owner, AddValidator 101 11 "10.0.0.1:8000" "10.0.0.1" 201 (sign 11));
  (registry_owner, AddValidator 102 13 "10.0.0.2:8000" "10.0.0.2" 202 (sign 13));
  (registry_owner, AddValidator 103 15 "[2001:db8::1]:443" "2001:db8::1" 203 (sign 15))]%string.
Definition block5 : list (Address * RegistryCall) := [
  (101, DeactivateValidator 0);
  (102, RotateValidator 1 17 "10.0.0.3:8000" "10.0.0.3" (sign 17));
  (103, SetIpAddresses 2 "10.0.0.1:8000" "10.0.0.9");
  (103, TransferValidatorOwnership 2 101)]%string.
Definition block9 : list (Address * RegistryCall) := [
  (registry_owner, AddValidator 104 19 "10.0.0.4:1" "10.0.0.4" 204 (sign 19));
  (102, RotateValidator 1 21 "10.0.0.2:8000" "10.0.0.2" (sign 21));
  (registry_owner, DeactivateValidator 2)]%string.
Definition history1 : Registries := Eval vm_compute in played (registry_play (sample_env 1) block1 registries_empty).
Definition history5 : Registries := Eval vm_compute in played (registry_play (sample_env 5) block5 history1).
Definition history9 : Registries := Eval vm_compute in played (registry_play (sample_env 9) block9 history5).

Lemma history1_run : registry_run (0, registries_empty) (1, history1).
Proof. apply (registry_play_run (sample_env 1) block1); [done|vm_compute; reflexivity]. Qed.
Lemma history5_run p : p ≤ 5 → registry_run (p, history1) (5, history5).
Proof. intros Hp. apply (registry_play_run (sample_env 5) block5); [done|vm_compute; reflexivity]. Qed.
Lemma history9_run p : p ≤ 9 → registry_run (p, history5) (9, history9).
Proof. intros Hp. apply (registry_play_run (sample_env 9) block9); [done|vm_compute; reflexivity]. Qed.

Lemma validator_registry_wf_witness :
  registry_wf (v2 history9) ∧ map public_key (get_active_validators (v2 history9)) = [19; 21].
Proof.
  split; [|vm_compute; reflexivity]. apply (validator_registry_wf 9). eapply run_trans; [apply history1_run|].
  eapply run_trans; [apply (history5_run 1); lia|apply (history9_run 5); lia].
Defined.

(** The first validator, deactivated in block 5, and its key after block 9. *)
Lemma deactivation_final_witness :
  ∃ v, deactivated_at_height v = 5 ∧ validator_by_index (v2 history9) 0 = Ok v ∧
    is_ok (require_new_pubkey (v2 history9) 11) = false.
Proof.
  exists (read_validator_at (v2 history5) 0). split; [vm_compute; reflexivity|].
  destruct (deactivation_final 5 history5 9 history9) as [Hfinal Hkey].
  - eapply run_trans; [apply history1_run|apply (history5_run 1); lia].
  - apply (history9_run 5). lia.
  - split; [by eapply Hfinal; [done|vm_compute; reflexivity|vm_compute; congruence]|].
    eapply (Hkey 0 (read_validator_at (v2 history5) 0)); [done|vm_compute; reflexivity].
Defined.

(** The validators of block 5 from the records after block 9. *)
Lemma historical_set_recoverable_witness :
  public_key <$> get_active_validators (v2 history5) ≡ₚ validator_set_at 5 (v2 history9) ∧
  validator_set_at 5 (v2 history9) = [15; 17].
Proof.
  split; [|vm_compute; reflexivity]. apply (historical_set_recoverable 5 history5 9 history9).
  - eapply run_trans; [apply history1_run|apply (history5_run 1); lia].
  - apply (history9_run 6). lia.
Defined.

(** ** Migrations *)
(** The first registry with [n] validators: the third has an invalid key, the fifth is inactive, and the sixth has the
    ingress address of the first, spelt with more zeroes. *)
Definition v1_call (i : nat) : Address * RegistryCall :=
  let z := Z.of_nat i in
  let inbound := if z =? 5 then padded_endpoint 5 else bytes_string (string_bytes "10.0.0.1:" ++ show_number 10 (80 + z)) in
  (registry_owner, V1AddValidator (1000 + z) (if z =? 2 then 8 else 2 * z + 1) (negb (z =? 4)) inbound "10.0.0.1:90").
Definition v1_block (n : nat) : list (Address * RegistryCall) := (0, V1Initialize registry_owner) :: map v1_call (seq 0 n).
Definition v1_registry (n : nat) : Registries := played (registry_play (sample_env 1) (v1_block n) registries_empty).

Lemma v1_registry_run n :
  match registry_play (sample_env 1) (v1_block n) registries_empty with Some _ => true | None => false end = true →
  registry_run (0, registries_empty) (1, v1_registry n).
Proof.
  intros Hs. apply (registry_play_run (sample_env 1) (v1_block n)); [done|]. unfold v1_registry.
  by destruct (registry_play _ _ _).
Qed.

(** Of six validators, those at the indices 1, 3, 4 and 5 are migrated. *)
Lemma migration_completes_witness :
  ∃ w' l', (migrate_all registry_owner 6;; initialize_if_migrated registry_owner) (sample_env 2) (v1_registry 6, []) = (Ok tt, (w', l')) ∧
    is_init (config (v2 w')) = true ∧ map public_key (all_records (v2 w')) = [11; 9; 7; 3].
Proof.
  destruct (migration_completes 1 (v1_registry 6) registry_owner (sample_env 2) []) as (w' & l' & Hrun & Hinit & _).
  - apply v1_registry_run. vm_compute. reflexivity.
  - vm_compute. reflexivity.
  - vm_compute. reflexivity.
  - done.
  - vm_compute. split; congruence.
  - done.
  - assert (Z.to_nat (ValidatorConfig.v1_validator_count (v1 (v1_registry 6))) = 6%nat) as En by (vm_compute; reflexivity).
    rewrite En in Hrun. exists w', l'. split; [exact Hrun|]. split; [exact Hinit|].
    assert (w' = final (migrate_all registry_owner 6;; initialize_if_migrated registry_owner) (sample_env 2) (v1_registry 6)) as ->
      by (unfold final; by rewrite Hrun).
    vm_compute. reflexivity.
Defined.

(** With 256 validators the migration cannot start; with 258 it ends after two. *)
Lemma migration_count_truncated_witness :
  is_ok (migrate_validator registry_owner 255 (sample_env 2) (v1_registry 256, [])).1 = false ∧
  ∃ w' l', (migrate_all registry_owner 2;; initialize_if_migrated registry_owner) (sample_env 2) (v1_registry 258, []) = (Ok tt, (w', l')) ∧
    is_init (config (v2 w')) = true.
Proof.
  split.
  - destruct (migration_count_truncated 1 (v1_registry 256) registry_owner (sample_env 2) []) as [Hz _];
      [apply v1_registry_run; vm_compute; reflexivity|vm_compute; reflexivity|vm_compute; reflexivity|done|vm_compute; congruence|done|].
    assert (ValidatorConfig.v1_validator_count (v1 (v1_registry 256)) = 256) as En by (vm_compute; reflexivity).
    rewrite En in Hz. exact (proj1 (Hz eq_refl registry_owner 255)).
  - destruct (migration_count_truncated 1 (v1_registry 258) registry_owner (sample_env 2) []) as [_ Hnz];
      [apply v1_registry_run; vm_compute; reflexivity|vm_compute; reflexivity|vm_compute; reflexivity|done|vm_compute; congruence|done|].
    assert (ValidatorConfig.v1_validator_count (v1 (v1_registry 258)) = 258) as En by (vm_compute; reflexivity).
    rewrite En in Hnz. destruct Hnz as (w' & l' & Hrun & Hinit & _); [done|]. exists w', l'. split; [exact Hrun|exact Hinit].
Defined.

(** ** Endpoints *)
Lemma socket_ip_roundtrip_witness :
  ensure_address_is_ip (socket_ip_string (V6 [0x2001; 0xdb8; 0; 0; 1; 0; 0; 1] 7 443)) = true.
Proof. apply (socket_ip_roundtrip "[2001:db8::1:0:0:1%7]:443"). vm_compute. reflexivity. Defined.

Lemma long_ingress_panics_witness :
  (rotate_validator 102 1 17 (padded_endpoint 256) "10.0.0.3" (sign 17) (sample_env 5) (v2 history1, [])).1 = Err Aborted.
Proof.
  apply (long_ingress_panics 256 1 17 "10.0.0.3" (sign 17) (sample_env 5) (v2 history1) [] (read_validator_at (v2 history1) 1)
    (keccak256 (socket_bytes (V4 [10; 0; 0; 1] 80)))); vm_compute; reflexivity.
Defined.
