(* ===== verification/StorageWords.v ===== *)
(** * Words of storage and the fields packed in them

    The bit-level code of the storage layer: masks, extraction, insertion and
    deletion of a field of a 32-byte word, the place of an array element
    ([storage/packing.rs]), and the conversion of every primitive type to and from
    a word ([FromWord] of [storage/types], generated by
    [tempo-precompiles-macros/src/storable_primitives.rs]).  Words are [Z] in [[0, 2^256)];
    byte counts and offsets are [Z]. *)
From Stdlib Require Import ZArith Lia.
From stdpp Require Import base tactics option list.
From S2P Require Import Prelude Base.
Open Scope Z_scope.

(** ** 256-bit words

    [U256] addition wraps around, a left shift drops the bits that leave the word. *)
Definition word_add (a b : Z) : Z := wrap U256_MAX (a + b).
Definition word_shl (w n : Z) : Z := wrap U256_MAX (Z.shiftl w n).
Definition word_not (w : Z) : Z := Z.lxor w U256_MAX.

Lemma U256_wrap v : wrap U256_MAX v = v mod 2 ^ 256.
Proof. done. Qed.

(** ** Fields of a word ([packing.rs]) *)
Definition create_element_mask (byte_count : Z) : Z :=
  if 32 <=? byte_count then U256_MAX else word_shl 1 (byte_count * 8) - 1.

(** [FromWord]: a primitive as a right-aligned word. *)
Class FromWord (A : Type) := {
  to_word : A → Z;
  from_word : Z → Result A;
}.

Definition extract_from_word {A} `{FromWord A} (slot_value offset bytes : Z) : Result A :=
  ensure (offset + bytes <=? 32) Fatal;;
  from_word (Z.land (Z.shiftr slot_value (offset * 8)) (create_element_mask bytes)).

Definition insert_into_word {A} `{FromWord A} (current : Z) (value : A) (offset bytes : Z) : Result Z :=
  ensure (offset + bytes <=? 32) Fatal;;
  let mask := create_element_mask bytes in
  let clear_mask := word_not (word_shl mask (offset * 8)) in
  let cleared := Z.land current clear_mask in
  let positioned := word_shl (Z.land (to_word value) mask) (offset * 8) in
  Ok (Z.lor cleared positioned).

Definition delete_from_word (current offset bytes : Z) : Result Z :=
  ensure (offset + bytes <=? 32) Fatal;;
  Ok (Z.land current (word_not (word_shl (create_element_mask bytes) (offset * 8)))).

(** ** Places of array elements *)
Record FieldLocation := mkFieldLocation { offset_slots : Z; offset_bytes : Z; size : Z }.

Definition calc_element_slot (idx elem_bytes : Z) : Z := idx / (32 / elem_bytes).
Definition calc_element_offset (idx elem_bytes : Z) : Z := (idx mod (32 / elem_bytes)) * elem_bytes.
Definition calc_element_loc (idx elem_bytes : Z) : FieldLocation :=
  mkFieldLocation (calc_element_slot idx elem_bytes) (calc_element_offset idx elem_bytes) elem_bytes.
Definition calc_packed_slot_count (n elem_bytes : Z) : Z := div_ceil n (32 / elem_bytes).

(** ** Primitive types

    A value of a Rust type is tagged with its width, so that each type has its
    own conversion.  [uint n] is [u8] ... [u128] and [U8] ... [U256], [sint n] is
    [i8] ... [i128] and [I8] ... [I256], [fbytes n] is [FixedBytes<n>]; [n] counts bytes. *)
Inductive uint (n : Z) : Type := UInt (v : Z).
Inductive sint (n : Z) : Type := SInt (v : Z).
Inductive fbytes (n : nat) : Type := FBytes (l : list Z).
Inductive address : Type := Addr (v : Z).
Global Arguments UInt {n} v.
Global Arguments SInt {n} v.
Global Arguments FBytes {n} l.

Definition uint_val {n} (x : uint n) : Z := match x with UInt v => v end.
Definition sint_val {n} (x : sint n) : Z := match x with SInt v => v end.
Definition fbytes_val {n} (x : fbytes n) : list Z := match x with FBytes l => l end.
Definition addr_val (x : address) : Z := match x with Addr v => v end.

Definition UMAX (n : Z) : Z := 2 ^ (8 * n) - 1.

(** [UnsignedRust] and [UnsignedAlloy]: a word that does not fit is an error. *)
Global Instance uint_word n : FromWord (uint n) := {|
  to_word := uint_val;
  from_word := λ w, if UMAX n <? w then Err under_overflow else Ok (UInt w);
|}.

(** [SignedRust] and [SignedAlloy]: the unsigned representation, [x as uN], and back, [u as iN]. *)
Definition to_unsigned (n v : Z) : Z := v mod 2 ^ (8 * n).
Definition to_signed (n u : Z) : Z := if u <? 2 ^ (8 * n - 1) then u else u - 2 ^ (8 * n).
Global Instance sint_word n : FromWord (sint n) := {|
  to_word := λ x, to_unsigned n (sint_val x);
  from_word := λ w, if UMAX n <? w then Err under_overflow else Ok (SInt (to_signed n w));
|}.

(** [FixedBytes(size)]: the bytes at the low end of the word. *)
Global Instance fbytes_word n : FromWord (fbytes n) := {|
  to_word := λ x, bytes_value (replicate (32 - n)%nat 0 ++ fbytes_val x);
  from_word := λ w, Ok (FBytes (drop (32 - n)%nat (be_bytes 32 w)));
|}.

Global Instance bool_word : FromWord bool := {|
  to_word := λ b : bool, if b then 1 else 0;
  from_word := λ w, Ok (negb (w =? 0));
|}.

(** [IntoU256] and [IntoAddress]: the low 20 bytes. *)
Global Instance address_word : FromWord address := {|
  to_word := addr_val;
  from_word := λ w, Ok (Addr (w mod 2 ^ 160));
|}.

(** ** Bit by bit *)
Definition in_field (offset bytes i : Z) : bool := (8 * offset <=? i) && (i <? 8 * (offset + bytes)).

Lemma mask_ones b : 0 ≤ b ≤ 32 → create_element_mask b = Z.ones (8 * b).
Proof.
  intros Hb. unfold create_element_mask. destruct (Z.leb_spec 32 b).
  - by replace b with 32 by lia.
  - unfold word_shl. rewrite U256_wrap, Z.shiftl_1_l, Z.mod_small.
    + rewrite Z.ones_equiv, (Z.mul_comm b). lia.
    + split; [lia|]. apply Z.pow_lt_mono_r; lia.
Qed.

Lemma mask_bits b i : 0 ≤ b ≤ 32 → 0 ≤ i → Z.testbit (create_element_mask b) i = (i <? 8 * b).
Proof. intros. rewrite mask_ones by done. rewrite Z.testbit_ones_nonneg; lia. Qed.

Lemma word_shl_bits w n i : 0 ≤ n → 0 ≤ i → Z.testbit (word_shl w n) i = (i <? 256) && Z.testbit w (i - n).
Proof.
  intros Hn Hi. unfold word_shl. rewrite U256_wrap, Z.testbit_mod_pow2, Z.shiftl_spec by lia. done.
Qed.

Lemma word_not_bits w i : 0 ≤ i → Z.testbit (word_not w) i = xorb (Z.testbit w i) (i <? 256).
Proof.
  intros Hi. unfold word_not. rewrite Z.lxor_spec. f_equal. apply (Z.testbit_ones_nonneg 256 i); lia.
Qed.

(** The bits of a word below [2^n], and a number determined by them. *)
Lemma high_bits w n i : 0 ≤ w < 2 ^ n → n ≤ i → Z.testbit w i = false.
Proof.
  intros Hw Hi. destruct (Z.eq_dec w 0) as [->|]; [apply Z.bits_0|].
  apply Z.bits_above_log2; [lia|]. apply Z.log2_lt_pow2; [lia|].
  eapply Z.lt_le_trans; [apply Hw|]. destruct (Z.le_gt_cases 0 n); [by apply Z.pow_le_mono_r; lia|].
  rewrite Z.pow_neg_r in Hw; lia.
Qed.

Lemma range_of_bits w n : 0 ≤ n → (∀ i, n ≤ i → Z.testbit w i = false) → 0 ≤ w < 2 ^ n.
Proof.
  intros Hn Hbits. replace w with (w mod 2 ^ n); [apply Z.mod_pos_bound; lia|].
  apply Z.bits_inj'. intros i Hi. rewrite Z.testbit_mod_pow2 by lia.
  destruct (Z.ltb_spec i n); [done|]. by rewrite Hbits by lia.
Qed.

Section fields.
Context {A : Type} `{FromWord A}.
Implicit Types (w offset bytes i : Z) (v : A).

(** The field of a word, as a number. *)
Definition field_of w offset bytes : Z := Z.land (Z.shiftr w (offset * 8)) (create_element_mask bytes).

Lemma field_bits w offset bytes i :
  0 ≤ offset → 0 ≤ bytes ≤ 32 → 0 ≤ i →
  Z.testbit (field_of w offset bytes) i = Z.testbit w (i + offset * 8) && (i <? 8 * bytes).
Proof.
  intros. unfold field_of. rewrite Z.land_spec, Z.shiftr_spec, mask_bits by lia. done.
Qed.

Lemma extract_field w offset bytes :
  offset + bytes ≤ 32 → extract_from_word w offset bytes = from_word (A := A) (field_of w offset bytes).
Proof. intros Hb. unfold extract_from_word. by rewrite (proj2 (Z.leb_le _ _) Hb). Qed.

Lemma insert_bits w v offset bytes :
  0 ≤ offset → 0 ≤ bytes → offset + bytes ≤ 32 →
  ∃ w', insert_into_word w v offset bytes = Ok w' ∧
    ∀ i, 0 ≤ i → Z.testbit w' i = if in_field offset bytes i then Z.testbit (to_word v) (i - 8 * offset)
                                  else (i <? 256) && Z.testbit w i.
Proof.
  intros Ho Hb Hs. unfold insert_into_word. rewrite (proj2 (Z.leb_le _ _) Hs). eexists; split; [done|].
  intros i Hi. rewrite Z.lor_spec, Z.land_spec, word_not_bits, !word_shl_bits by lia.
  unfold in_field. rewrite (Z.mul_comm offset 8), Z.land_spec.
  destruct (Z.leb_spec (8 * offset) i); cbn [andb].
  - rewrite !mask_bits by lia.
    destruct (Z.ltb_spec i (8 * (offset + bytes))).
    + rewrite (proj2 (Z.ltb_lt i 256)), (proj2 (Z.ltb_lt (i - 8 * offset) _)) by lia.
      cbn. by rewrite andb_false_r, andb_true_r.
    + rewrite (proj2 (Z.ltb_ge (i - 8 * offset) _)) by lia.
      rewrite !andb_false_r, orb_false_r. cbn. apply andb_comm.
  - rewrite !(Z.testbit_neg_r _ (i - 8 * offset)) by lia.
    rewrite !andb_false_r, orb_false_r. cbn. apply andb_comm.
Qed.

Lemma delete_bits w offset bytes :
  0 ≤ offset → 0 ≤ bytes → offset + bytes ≤ 32 →
  ∃ w', delete_from_word w offset bytes = Ok w' ∧
    ∀ i, 0 ≤ i → Z.testbit w' i = if in_field offset bytes i then false else (i <? 256) && Z.testbit w i.
Proof.
  intros Ho Hb Hs. unfold delete_from_word. rewrite (proj2 (Z.leb_le _ _) Hs). eexists; split; [done|].
  intros i Hi. rewrite Z.land_spec, word_not_bits, word_shl_bits by lia.
  unfold in_field. rewrite (Z.mul_comm offset 8).
  destruct (Z.leb_spec (8 * offset) i); cbn [andb].
  - rewrite mask_bits by lia. destruct (Z.ltb_spec i (8 * (offset + bytes))).
    + rewrite (proj2 (Z.ltb_lt i 256)), (proj2 (Z.ltb_lt (i - 8 * offset) _)) by lia. cbn. apply andb_false_r.
    + rewrite (proj2 (Z.ltb_ge (i - 8 * offset) _)) by lia. rewrite andb_false_r. cbn. apply andb_comm.
  - rewrite (Z.testbit_neg_r _ (i - 8 * offset)) by lia. rewrite andb_false_r. cbn. apply andb_comm.
Qed.
End fields.

(** Two words that agree on the bits of a field have the same field. *)
Lemma field_of_ext w w' offset bytes :
  0 ≤ offset → 0 ≤ bytes → offset + bytes ≤ 32 →
  (∀ i, in_field offset bytes i = true → Z.testbit w' i = Z.testbit w i) →
  field_of w' offset bytes = field_of w offset bytes.
Proof.
  intros Ho Hb Hs Hext. apply Z.bits_inj'. intros i Hi. rewrite !field_bits by lia.
  destruct (Z.ltb_spec i (8 * bytes)); [|by rewrite !andb_false_r].
  rewrite Hext; [done|]. unfold in_field. lia.
Qed.

(** ** What a primitive type promises

    [from_word] undoes [to_word] and a value fits in the bytes of its type: the warning of
    the trait, here a class that the client code is proved against. *)
Class Primitive (A : Type) (bytes : Z) `{FromWord A} := {
  prim_valid : A → Prop;
  prim_bytes : 1 ≤ bytes ≤ 32;
  prim_range v : prim_valid v → 0 ≤ to_word v < 2 ^ (8 * bytes);
  prim_roundtrip v : prim_valid v → from_word (to_word v) = Ok v;
}.

Lemma UMAX_ltb n w : 0 ≤ w < 2 ^ (8 * n) → (UMAX n <? w) = false.
Proof. unfold UMAX. lia. Qed.

Global Program Instance uint_primitive n (Hn : 1 ≤ n ≤ 32) : Primitive (uint n) n :=
  {| prim_valid x := 0 ≤ uint_val x ≤ UMAX n |}.
Next Obligation. done. Qed.
Next Obligation. unfold UMAX. intros n Hn [v]; cbn. lia. Qed.
Next Obligation. unfold UMAX. intros n Hn [v]; cbn. intros Hv. rewrite UMAX_ltb by lia. done. Qed.

Lemma to_signed_unsigned n v :
  1 ≤ n → - 2 ^ (8 * n - 1) ≤ v < 2 ^ (8 * n - 1) → to_signed n (to_unsigned n v) = v.
Proof.
  intros Hn Hv. unfold to_signed, to_unsigned.
  assert (2 ^ (8 * n) = 2 * 2 ^ (8 * n - 1)) as Hpow by (rewrite <- Z.pow_succ_r by lia; f_equal; lia).
  destruct (Z.lt_ge_cases v 0).
  - replace (v mod 2 ^ (8 * n)) with (v + 2 ^ (8 * n)).
    + destruct (Z.ltb_spec (v + 2 ^ (8 * n)) (2 ^ (8 * n - 1))); lia.
    + apply Z.mod_unique with (-1); lia.
  - rewrite Z.mod_small by lia. destruct (Z.ltb_spec v (2 ^ (8 * n - 1))); lia.
Qed.

Global Program Instance sint_primitive n (Hn : 1 ≤ n ≤ 32) : Primitive (sint n) n :=
  {| prim_valid x := - 2 ^ (8 * n - 1) ≤ sint_val x < 2 ^ (8 * n - 1) |}.
Next Obligation. done. Qed.
Next Obligation. intros n Hn [v] Hv; cbn. apply Z.mod_pos_bound. lia. Qed.
Next Obligation.
  intros n Hn [v] Hv; cbn in *. rewrite UMAX_ltb by (apply Z.mod_pos_bound; lia).
  rewrite to_signed_unsigned by lia. done.
Qed.

Definition bytes_ok (l : list Z) : Prop := Forall (λ b, 0 ≤ b < 256) l.

Lemma bytes_value_snoc l b : bytes_value (l ++ [b]) = bytes_value l * 256 + b.
Proof. unfold bytes_value. by rewrite fold_left_app. Qed.

Lemma bytes_value_range l : bytes_ok l → 0 ≤ bytes_value l < 256 ^ Z.of_nat (length l).
Proof.
  induction l as [|b l IH] using rev_ind; intros Hl; [done|].
  apply Forall_app in Hl as [Hl Hb]. rewrite Forall_singleton in Hb. specialize (IH Hl).
  rewrite bytes_value_snoc, length_app. cbn [length].
  rewrite Nat2Z.inj_add, Z.pow_add_r by lia. change (256 ^ Z.of_nat 1) with 256. lia.
Qed.

Lemma be_bytes_value l : bytes_ok l → be_bytes (length l) (bytes_value l) = l.
Proof.
  induction l as [|b l IH] using rev_ind; intros Hl; [done|].
  apply Forall_app in Hl as [Hl Hb]. rewrite Forall_singleton in Hb.
  rewrite bytes_value_snoc, length_app. cbn [length]. rewrite Nat.add_1_r. cbn [be_bytes].
  rewrite Z.div_add_l, Z.div_small, Z.add_0_r, IH by (done || lia).
  rewrite Z.add_comm, Z.mod_add, Z.mod_small by lia. done.
Qed.

Lemma be_bytes_ok n v : bytes_ok (be_bytes n v).
Proof.
  revert v. induction n as [|n IH]; intros v; cbn; [constructor|].
  apply Forall_app. split; [apply IH|]. apply Forall_singleton, Z.mod_pos_bound. lia.
Qed.

Lemma bytes_value_pad k l : bytes_value (replicate k 0 ++ l) = bytes_value l.
Proof.
  unfold bytes_value. rewrite fold_left_app. f_equal. induction k as [|k IH]; [done|apply IH].
Qed.

Global Program Instance fbytes_primitive n (Hn : (1 ≤ n ≤ 32)%nat) : Primitive (fbytes n) (Z.of_nat n) :=
  {| prim_valid x := bytes_ok (fbytes_val x) ∧ length (fbytes_val x) = n |}.
Next Obligation. lia. Qed.
Next Obligation.
  intros n Hn [l] [Hl Hlen]; cbn in *. rewrite bytes_value_pad.
  apply bytes_value_range in Hl. rewrite Hlen in Hl. rewrite Z.pow_mul_r by lia. done.
Qed.
Next Obligation.
  intros n Hn [l] [Hl Hlen]. cbn [to_word from_word fbytes_word fbytes_val] in *. do 2 f_equal.
  pose proof (be_bytes_value (replicate (32 - n) 0 ++ l)) as Hbe.
  rewrite length_app, length_replicate in Hbe. replace (32 - n + length l)%nat with 32%nat in Hbe by lia.
  rewrite Hbe.
  - rewrite drop_app_length' by (by rewrite length_replicate). done.
  - apply Forall_app. split; [|done]. apply Forall_replicate. lia.
Qed.

Global Program Instance bool_primitive : Primitive bool 1 := {| prim_valid _ := True |}.
Next Obligation. lia. Qed.
Next Obligation. intros []; cbn; lia. Qed.
Next Obligation. by intros []. Qed.

Global Program Instance address_primitive : Primitive address 20 :=
  {| prim_valid a := 0 ≤ addr_val a < 2 ^ 160 |}.
Next Obligation. lia. Qed.
Next Obligation. by intros [v]. Qed.
Next Obligation. intros [v] Hv; cbn in *. by rewrite Z.mod_small. Qed.

(** A stored value reads back wherever its bits are found. *)
Lemma field_of_value {A bytes} `{Primitive A bytes} w v offset :
  prim_valid v → 0 ≤ offset → offset + bytes ≤ 32 →
  (∀ i, in_field offset bytes i = true → Z.testbit w i = Z.testbit (to_word v) (i - 8 * offset)) →
  field_of w offset bytes = to_word v.
Proof.
  intros Hv Ho Hs Hext. pose proof prim_bytes as Hb. apply Z.bits_inj'. intros i Hi.
  rewrite field_bits by lia. destruct (Z.ltb_spec i (8 * bytes)).
  - rewrite andb_true_r, Hext by (unfold in_field; lia). f_equal. lia.
  - rewrite andb_false_r. symmetry. by apply (high_bits _ (8 * bytes)); [apply prim_range|].
Qed.

(** Deletion of a field, and what the three operations do outside the field. *)
Lemma extract_frame {B} `{FromWord B} w w' offset bytes offset' bytes' :
  0 ≤ offset' → 0 ≤ bytes' → offset + bytes ≤ offset' ∨ offset' + bytes' ≤ offset →
  (∀ i, 0 ≤ i < 256 → in_field offset bytes i = false → Z.testbit w' i = Z.testbit w i) →
  extract_from_word (A := B) w' offset' bytes' = extract_from_word w offset' bytes'.
Proof.
  intros Ho Hb Hdis Hext. destruct (Z.le_gt_cases (offset' + bytes') 32) as [Hs|Hs].
  - rewrite !extract_field by done. f_equal. apply field_of_ext; [done..|].
    unfold in_field in *. intros i Hi. apply Hext; lia.
  - unfold extract_from_word. by rewrite (proj2 (Z.leb_gt _ _) Hs).
Qed.

(** A field written into a word of storage reads back as the value written, and neither
    the write nor the deletion of it changes any other field of the word, whatever its
    type; the deleted field reads as the zero word, and the results are words.  A field that
    would cross the end of the word is refused by all three operations. *)
Theorem packed_fields_independent {A B : Type} {bytes bytes' : Z} `{Primitive A bytes} `{FromWord B}
    (w offset : Z) (v : A) :
  prim_valid v → 0 ≤ offset →
  if offset + bytes <=? 32
  then ∃ wi wd, insert_into_word w v offset bytes = Ok wi ∧ delete_from_word w offset bytes = Ok wd ∧
    extract_from_word wi offset bytes = Ok v ∧ field_of wd offset bytes = 0 ∧
    0 ≤ wi < 2 ^ 256 ∧ 0 ≤ wd < 2 ^ 256 ∧
    ∀ offset', 0 ≤ offset' → 0 ≤ bytes' → offset + bytes ≤ offset' ∨ offset' + bytes' ≤ offset →
      extract_from_word (A := B) wi offset' bytes' = extract_from_word w offset' bytes' ∧
      extract_from_word (A := B) wd offset' bytes' = extract_from_word w offset' bytes'
  else insert_into_word w v offset bytes = Err Fatal ∧ delete_from_word w offset bytes = Err Fatal ∧
    extract_from_word (A := A) w offset bytes = Err Fatal.
Proof.
  intros Hv Ho. pose proof prim_bytes as Hb. destruct (Z.leb_spec (offset + bytes) 32) as [Hs|Hs].
  - destruct (insert_bits w v offset bytes) as (wi & Hwi & Hbi); [lia..|].
    destruct (delete_bits w offset bytes) as (wd & Hwd & Hbd); [lia..|].
    exists wi, wd. refine (conj Hwi (conj Hwd (conj _ (conj _ (conj _ (conj _ _)))))).
    + rewrite extract_field, (field_of_value wi v) by (try done; intros i Hi; rewrite Hbi, Hi by (unfold in_field in Hi; lia); done).
      by apply prim_roundtrip.
    + apply Z.bits_inj'. intros i Hi. rewrite field_bits, Z.bits_0, Hbd by lia.
      destruct (Z.ltb_spec i (8 * bytes)); [|apply andb_false_r].
      replace (in_field offset bytes (i + offset * 8)) with true; [done|]. unfold in_field. lia.
    + apply range_of_bits; [done|]. intros i Hi. rewrite Hbi by lia.
      replace (in_field offset bytes i) with false by (unfold in_field; lia).
      by rewrite (proj2 (Z.ltb_ge i 256)).
    + apply range_of_bits; [done|]. intros i Hi. rewrite Hbd by lia. destruct (in_field _ _ _); [done|].
      by rewrite (proj2 (Z.ltb_ge i 256)).
    + intros offset' Ho' Hb' Hdis. split; apply (extract_frame _ _ offset bytes); try done; intros i [Hi Hi'] Hf.
      * rewrite Hbi, Hf, (proj2 (Z.ltb_lt i 256)) by lia. done.
      * rewrite Hbd, Hf, (proj2 (Z.ltb_lt i 256)) by lia. done.
  - unfold insert_into_word, delete_from_word, extract_from_word.
    rewrite (proj2 (Z.leb_gt _ _) Hs). done.
Qed.

Global Hint Extern 0 (1 ≤ _ ≤ 32) => lia : typeclass_instances.
Global Hint Extern 0 (1 ≤ _ ≤ 32)%nat => lia : typeclass_instances.

(** A [u64] at byte 20, behind an address. *)
Lemma packed_fields_independent_witness :
  ∃ wi, insert_into_word (2 ^ 160 - 1) (UInt 7 : uint 8) 20 8 = Ok wi ∧
    extract_from_word wi 20 8 = Ok (UInt 7 : uint 8) ∧ extract_from_word wi 0 20 = Ok (Addr (2 ^ 160 - 1)).
Proof.
  destruct (packed_fields_independent (B := address) (bytes' := 20) (2 ^ 160 - 1) 20 (UInt 7 : uint 8))
    as (wi & wd & Hi & _ & Hx & _ & _ & _ & Hf); [cbn; unfold UMAX; lia|lia|].
  exists wi. split_and!; [done|done|]. rewrite (proj1 (Hf 0 ltac:(lia) ltac:(lia) ltac:(lia))). done.
Defined.

(** ** Decoding any word *)
Lemma to_unsigned_signed n u : 1 ≤ n → 0 ≤ u < 2 ^ (8 * n) →
  - 2 ^ (8 * n - 1) ≤ to_signed n u < 2 ^ (8 * n - 1) ∧ to_unsigned n (to_signed n u) = u.
Proof.
  intros Hn Hu. unfold to_signed, to_unsigned.
  assert (2 ^ (8 * n) = 2 * 2 ^ (8 * n - 1)) as Hpow by (rewrite <- Z.pow_succ_r by lia; f_equal; lia).
  destruct (Z.ltb_spec u (2 ^ (8 * n - 1))).
  - split; [lia|]. apply Z.mod_small. lia.
  - split; [lia|]. symmetry. apply Z.mod_unique with (-1); lia.
Qed.

Lemma drop_be_bytes n w : (n ≤ 32)%nat → drop (32 - n) (be_bytes 32 w) = be_bytes n w.
Proof.
  intros Hn. replace 32%nat with ((32 - n) + n)%nat at 2 by lia. rewrite be_bytes_app.
  rewrite drop_app_length' by (by rewrite be_bytes_length). done.
Qed.

(** C38: Decoding a word of storage is well typed for every primitive type: an integer of any
    width is in the range of its type and encodes back to the very word, and a word too
    large for it is the overflow error; fixed bytes have their length, and they and
    addresses keep the low bytes of the word; and what is encoded decodes to itself. *)
Theorem primitive_words_typed (n : nat) (w : Z) (Hn : (1 ≤ n ≤ 32)%nat) :
  0 ≤ w < 2 ^ 256 →
  (match from_word (A := uint (Z.of_nat n)) w with
   | Ok x => 0 ≤ uint_val x ≤ UMAX (Z.of_nat n) ∧ to_word x = w
   | Err e => e = under_overflow ∧ UMAX (Z.of_nat n) < w
   end) ∧
  (match from_word (A := sint (Z.of_nat n)) w with
   | Ok x => - 2 ^ (8 * Z.of_nat n - 1) ≤ sint_val x < 2 ^ (8 * Z.of_nat n - 1) ∧ to_word x = w
   | Err e => e = under_overflow ∧ UMAX (Z.of_nat n) < w
   end) ∧
  (∃ x, from_word (A := fbytes n) w = Ok x ∧ bytes_ok (fbytes_val x) ∧ length (fbytes_val x) = n ∧
    to_word x = w mod 2 ^ (8 * Z.of_nat n)) ∧
  (∃ a, from_word (A := address) w = Ok a ∧ 0 ≤ addr_val a < 2 ^ 160 ∧ to_word a = w mod 2 ^ 160) ∧
  from_word (A := bool) w = Ok (bool_decide (w ≠ 0)) ∧
  (∀ x : uint (Z.of_nat n), 0 ≤ uint_val x ≤ UMAX (Z.of_nat n) → from_word (to_word x) = Ok x) ∧
  (∀ x : sint (Z.of_nat n), - 2 ^ (8 * Z.of_nat n - 1) ≤ sint_val x < 2 ^ (8 * Z.of_nat n - 1) → from_word (to_word x) = Ok x) ∧
  (∀ x : fbytes n, bytes_ok (fbytes_val x) → length (fbytes_val x) = n → from_word (to_word x) = Ok x) ∧
  (∀ a : address, 0 ≤ addr_val a < 2 ^ 160 → from_word (to_word a) = Ok a) ∧
  (∀ b : bool, from_word (to_word b) = Ok b).
Proof.
  intros Hw. assert (1 ≤ Z.of_nat n ≤ 32) as HnZ by lia.
  refine (conj _ (conj _ (conj _ (conj _ (conj _ (conj _ (conj _ (conj _ (conj _ _))))))))).
  - cbn. destruct (Z.ltb_spec (UMAX (Z.of_nat n)) w); cbn; [done|lia].
  - cbn. destruct (Z.ltb_spec (UMAX (Z.of_nat n)) w); cbn; [done|]. unfold UMAX in *. apply to_unsigned_signed; lia.
  - cbn [from_word fbytes_word]. eexists. split; [done|]. cbn [fbytes_val to_word fbytes_word].
    rewrite drop_be_bytes, bytes_value_pad by lia. split; [apply be_bytes_ok|]. split; [apply be_bytes_length|].
    rewrite bytes_value_be, Z.pow_mul_r by lia. done.
  - eexists. split; [done|]. cbn. split; [by apply Z.mod_pos_bound|done].
  - cbn. f_equal. case_bool_decide; destruct (Z.eqb_spec w 0); done.
  - intros x Hx. exact (@prim_roundtrip _ _ _ (uint_primitive (Z.of_nat n) HnZ) x Hx).
  - intros x Hx. exact (@prim_roundtrip _ _ _ (sint_primitive (Z.of_nat n) HnZ) x Hx).
  - intros x Hx Hl. exact (@prim_roundtrip _ _ _ (fbytes_primitive n Hn) x (conj Hx Hl)).
  - intros a Ha. exact (prim_roundtrip a Ha).
  - intros b. exact (prim_roundtrip b I).
Qed.

Lemma primitive_words_typed_witness :
  from_word (A := uint (Z.of_nat 16)) (2 ^ 128) = Err under_overflow ∧
  from_word (A := sint (Z.of_nat 2)) 65535 = Ok (SInt (-1)).
Proof.
  destruct (primitive_words_typed 16 (2 ^ 128)) as (H1 & _); [lia|lia|].
  destruct (primitive_words_typed 2 65535) as (_ & H2 & _); [lia|lia|].
  split; [|done]. destruct (from_word _) as [x|e] eqn:Hx in H1; [|by rewrite Hx; destruct H1 as [-> _]].
  exfalso. unfold UMAX in H1. cbn in H1. lia.
Defined.
