(* ===== verification/StorageTypes.v ===== *)
(** * Storable types

    The type system of the storage layer ([storage/types]): the interface of a
    storage ([StorageOps]), layouts, and [load], [store] and [delete] of primitives,
    unit enums, byte strings, vectors and fixed-size arrays, as the traits and the
    macros of [tempo-precompiles-macros] define them, and the slots of mappings.  Reading is
    a [Result], writing a state-and-error computation that keeps the partial writes of
    a failed call.  Slots are words and slot arithmetic wraps around. *)
From Stdlib Require Import ZArith Lia.
From stdpp Require Import base tactics option list list_numbers fin_maps gmap.
From S2P Require Import Prelude Base StorageWords.
Open Scope Z_scope.
Open Scope storage_scope.

(** ** Computations on a storage *)
Definition SM (S A : Type) : Type := S → Result A * S.
Global Instance SM_ret S : MRet (SM S) := λ A a s, (Ok a, s).
Global Instance SM_bind S : MBind (SM S) := λ A B f m s,
  match m s with
  | (Ok a, s') => f a s'
  | (Err e, s') => (Err e, s')
  end.

(** A read, [&self] operation inside a write. *)
Definition sread {S A} (f : S → Result A) : SM S A := λ s, (f s, s).

Fixpoint sfor {S A} (l : list A) (body : A → SM S unit) : SM S unit :=
  match l with
  | [] => mret tt
  | a :: l => body a;; sfor l body
  end.

(** The trait [StorageOps]. *)
Class StorageOps (S : Type) := {
  ops_load : S → Z → Result Z;
  ops_store : Z → Z → SM S unit;
}.

(** [PackedSlot]: one word in memory, whatever the slot. *)
Record PackedSlot := mkPackedSlot { packed_word : Z }.
Global Instance packed_slot_ops : StorageOps PackedSlot := {|
  ops_load := λ p _, Ok (packed_word p);
  ops_store := λ _ v p, (Ok tt, mkPackedSlot v);
|}.

(** The words of all accounts, persistent ([sload], [sstore]) and transient ([tload], [tstore]),
    seen by [Slot] and [TransientOps] at the address of a contract. *)
Record StorageCtx := mkStorageCtx { persistent : gmap (Z * Z) Z; transient : gmap (Z * Z) Z }.

Definition slot_ops (self : Address) : StorageOps StorageCtx := {|
  ops_load := λ s slot, Ok (persistent s).[(self, slot)];
  ops_store := λ slot v s, (Ok tt, mkStorageCtx (<[(self, slot):=v]> (persistent s)) (transient s));
|}.
Definition transient_ops (self : Address) : StorageOps StorageCtx := {|
  ops_load := λ s slot, Ok (transient s).[(self, slot)];
  ops_store := λ slot v s, (Ok tt, mkStorageCtx (persistent s) (<[(self, slot):=v]> (transient s)));
|}.

(** ** Layouts *)
Inductive Layout := Bytes (n : Z) | Slots (n : Z).
Definition is_packable (l : Layout) : bool := match l with Bytes n => n <? 32 | Slots _ => false end.
Definition slots (l : Layout) : Z := match l with Bytes _ => 1 | Slots n => n end.
Definition bytes (l : Layout) : Z := match l with Bytes n => n | Slots n => n * 32 end.

(** A context is a [usize]: the greatest one for a whole slot, or the offset of a packed field. *)
Definition LayoutCtx : Type := Z.
Definition FULL : LayoutCtx := U64_MAX.
Definition packed (offset : Z) : LayoutCtx := offset.
Definition packed_offset (ctx : LayoutCtx) : option Z := if ctx =? U64_MAX then None else Some ctx.

Class StorableType (A : Type) := { LAYOUT : Layout; IS_DYNAMIC : bool }.
Global Arguments LAYOUT A {_}.
Global Arguments IS_DYNAMIC A {_}.
Definition SLOTS A `{StorableType A} : Z := slots (LAYOUT A).
Definition BYTES A `{StorableType A} : Z := bytes (LAYOUT A).
Definition IS_PACKABLE A `{StorableType A} : bool := is_packable (LAYOUT A).

Class Storable (A : Type) `{StorableType A} := {
  load {S} `{StorageOps S} : S → Z → LayoutCtx → Result A;
  store {S} `{StorageOps S} : A → Z → LayoutCtx → SM S unit;
  delete_at {S} `{StorageOps S} : Z → LayoutCtx → SM S unit;
}.
Global Arguments delete_at A {_ _ S _}.

(** The default [Storable::delete]. *)
Definition default_delete A `{StorableType A} {S} `{StorageOps S} (slot : Z) (ctx : LayoutCtx) : SM S unit :=
  match packed_offset ctx with
  | None => sfor (seqZ 0 (SLOTS A)) (λ offset, ops_store (word_add slot offset) 0)
  | Some offset =>
      current ← sread (λ s, ops_load s slot);
      cleared ← sread (λ _, delete_from_word current offset (BYTES A));
      ops_store slot cleared
  end.

(** ** Primitive types *)
Section primitives.
Context {A : Type} `{FromWord A, StorableType A}.

(** The blanket implementation for [Packable] types. *)
Definition packable_storable : Storable A := {|
  load S ops s slot ctx :=
    match packed_offset ctx with
    | None => ops_load s slot ≫= from_word
    | Some offset => slot_value ← ops_load s slot; extract_from_word slot_value offset (BYTES A)
    end;
  store S ops v slot ctx :=
    match packed_offset ctx with
    | None => ops_store slot (to_word v)
    | Some offset =>
        current ← sread (λ s, ops_load s slot);
        updated ← sread (λ _, insert_into_word current v offset (BYTES A));
        ops_store slot updated
    end;
  delete_at S ops := default_delete A;
|}.

(** The implementation for types of 32 bytes, which ignores the context. *)
Definition full_word_storable : Storable A := {|
  load S ops s slot ctx := ops_load s slot ≫= from_word;
  store S ops v slot ctx := ops_store slot (to_word v);
  delete_at S ops := default_delete A;
|}.

(** [gen_complete_impl_set]. *)
Definition primitive_storable (byte_count : Z) : Storable A :=
  if byte_count <? 32 then packable_storable else full_word_storable.
End primitives.

Global Instance uint_type n : StorableType (uint n) := {| LAYOUT := Bytes n; IS_DYNAMIC := false |}.
Global Instance sint_type n : StorableType (sint n) := {| LAYOUT := Bytes n; IS_DYNAMIC := false |}.
Global Instance fbytes_type n : StorableType (fbytes n) := {| LAYOUT := Bytes (Z.of_nat n); IS_DYNAMIC := false |}.
Global Instance bool_type : StorableType bool := {| LAYOUT := Bytes 1; IS_DYNAMIC := false |}.
Global Instance address_type : StorableType address := {| LAYOUT := Bytes 20; IS_DYNAMIC := false |}.

Global Instance uint_storable n : Storable (uint n) := primitive_storable n.
Global Instance sint_storable n : Storable (sint n) := primitive_storable n.
Global Instance fbytes_storable n : Storable (fbytes n) := primitive_storable (Z.of_nat n).
Global Instance bool_storable : Storable bool := packable_storable.
Global Instance address_storable : Storable address := packable_storable.

(** ** Unit enums ([derive_unit_enum_impl])

    A variant is stored as its position, through [u8]. *)
Class UnitEnum (E : Type) `{EqDecision E} := { variants : list E }.
Definition discriminant {E} `{UnitEnum E} (v : E) : Z :=
  from_option (λ p, Z.of_nat p.1) 0 (list_find (v =.) variants).

Global Instance enum_type {E} `{UnitEnum E} : StorableType E | 10 := {| LAYOUT := Bytes 1; IS_DYNAMIC := false |}.
Global Instance enum_storable {E} `{UnitEnum E} : Storable E | 10 := {|
  load S ops s slot ctx :=
    value ← load (A := uint 1) s slot ctx;
    ok_or (variants !! Z.to_nat (uint_val value)) (Panic EnumConversionError);
  store S ops v slot ctx := store (UInt (discriminant v) : uint 1) slot ctx;
  delete_at S ops := default_delete E;
|}.

(** ** Byte strings ([bytes_like.rs]) *)
Section dynamic.
Context `{Primitives}.

(** [calc_data_slot], the same in [bytes_like.rs] and [vec.rs]: the hash of the slot. *)
Definition calc_data_slot (base_slot : Z) : Z := wrap U256_MAX (keccak256 (be_bytes 32 base_slot)).

Definition is_long_string (slot_value : Z) : bool := negb (Z.land (slot_value mod 256) 1 =? 0).

Definition calc_string_length (slot_value : Z) (is_long : bool) : Result Z :=
  if is_long then
    let length_u256 := Z.shiftr (wrap U256_MAX (slot_value - 1)) 1 in
    ensure (length_u256 <=? U32_MAX) under_overflow;;
    Ok length_u256
  else
    let length := slot_value mod 256 / 2 in
    ensure (length <=? 31) Fatal;;
    Ok length.

Definition calc_chunks (byte_length : Z) : Z := div_ceil byte_length 32.

(** The bytes at the front of a word, then the length in its last byte. *)
Definition encode_short_string (l : list Z) : Z :=
  bytes_value (<[31%nat := (Z.of_nat (length l) * 2) mod 256]> (l ++ replicate (32 - length l) 0)).
Definition encode_long_string_length (byte_length : Z) : Z := wrap U256_MAX (byte_length * 2 + 1).

Definition load_bytes_like {T S} `{StorageOps S} (s : S) (base_slot : Z) (into : list Z → Result T) : Result T :=
  base_value ← ops_load s base_slot;
  let is_long := is_long_string base_value in
  length ← calc_string_length base_value is_long;
  if is_long then
    let slot_start := calc_data_slot base_slot in
    let chunks := calc_chunks length in
    data ← mapM (λ i,
      chunk_value ← ops_load s (word_add slot_start i);
      let bytes_to_take := if i =? chunks - 1 then length - i * 32 else 32 in
      Ok (take (Z.to_nat bytes_to_take) (be_bytes 32 chunk_value))) (seqZ 0 chunks);
    into (concat data)
  else into (take (Z.to_nat length) (be_bytes 32 base_value)).

Definition store_bytes_like {S} `{StorageOps S} (l : list Z) (base_slot : Z) : SM S unit :=
  let len := Z.of_nat (length l) in
  if len <=? 31 then ops_store base_slot (encode_short_string l)
  else
    ops_store base_slot (encode_long_string_length len);;
    let slot_start := calc_data_slot base_slot in
    sfor (seqZ 0 (calc_chunks len)) (λ i,
      let chunk := take 32 (drop (Z.to_nat (i * 32)) l) in
      ops_store (word_add slot_start i) (bytes_value (chunk ++ replicate (32 - length chunk) 0))).

Definition delete_bytes_like {S} `{StorageOps S} (base_slot : Z) : SM S unit :=
  base_value ← sread (λ s, ops_load s base_slot);
  (if is_long_string base_value then
     length ← sread (λ _, calc_string_length base_value true);
     let slot_start := calc_data_slot base_slot in
     sfor (seqZ 0 (calc_chunks length)) (λ i, ops_store (word_add slot_start i) 0)
   else mret tt);;
  ops_store base_slot 0.

(** [Bytes] and [String]; a [String] must be UTF-8 ([std::str::from_utf8]). *)
Inductive Bytes_ : Type := MkBytes (l : list Z).
Inductive String_ : Type := MkString (l : list Z).
Definition bytes_val (b : Bytes_) : list Z := match b with MkBytes l => l end.
Definition string_val (b : String_) : list Z := match b with MkString l => l end.

Definition continuation (b : Z) : bool := (0x80 <=? b) && (b <=? 0xBF).
Fixpoint is_utf8 (l : list Z) : bool :=
  match l with
  | [] => true
  | a :: l1 =>
      if a <=? 0x7F then is_utf8 l1
      else match l1 with
      | [] => false
      | b :: l2 =>
          if (0xC2 <=? a) && (a <=? 0xDF) then continuation b && is_utf8 l2
          else match l2 with
          | [] => false
          | c :: l3 =>
              if (0xE0 <=? a) && (a <=? 0xEF) then
                ((if a =? 0xE0 then 0xA0 else 0x80) <=? b) && (b <=? (if a =? 0xED then 0x9F else 0xBF))
                && continuation c && is_utf8 l3
              else match l3 with
              | [] => false
              | d :: l4 =>
                  (0xF0 <=? a) && (a <=? 0xF4)
                  && ((if a =? 0xF0 then 0x90 else 0x80) <=? b) && (b <=? (if a =? 0xF4 then 0x8F else 0xBF))
                  && continuation c && continuation d && is_utf8 l4
              end
          end
      end
  end.

Global Instance bytes_type : StorableType Bytes_ := {| LAYOUT := Slots 1; IS_DYNAMIC := true |}.
Global Instance string_type : StorableType String_ := {| LAYOUT := Slots 1; IS_DYNAMIC := true |}.
Global Instance bytes_storable : Storable Bytes_ := {|
  load S ops s slot ctx := load_bytes_like s slot (λ data, Ok (MkBytes data));
  store S ops v slot ctx := store_bytes_like (bytes_val v) slot;
  delete_at S ops slot ctx := delete_bytes_like slot;
|}.
Global Instance string_storable : Storable String_ := {|
  load S ops s slot ctx := load_bytes_like s slot (λ data, if is_utf8 data then Ok (MkString data) else Err Fatal);
  store S ops v slot ctx := store_bytes_like (string_val v) slot;
  delete_at S ops slot ctx := delete_bytes_like slot;
|}.

(** [BytesLikeHandler::len]: reads the base slot only. *)
Definition bytes_len {S} `{StorageOps S} (s : S) (base_slot : Z) : Result Z :=
  base_value ← ops_load s base_slot;
  calc_string_length base_value (is_long_string base_value).

(** ** Vectors ([vec.rs]) *)
Section vec.
Context {A : Type} `{Storable A}.

Definition load_checked_len {S} `{StorageOps S} (s : S) (slot : Z) : Result Z :=
  raw ← ops_load s slot;
  ensure (raw <=? U32_MAX) under_overflow;;
  Ok raw.

(** The inner loop of [load_packed_elements]. *)
Fixpoint load_slot_elements (slot_packed : PackedSlot) (slot_addr byte_count : Z) (count : nat)
    (current_offset : Z) : Result (list A) :=
  match count with
  | O => Ok []
  | S count =>
      elem ← load slot_packed slot_addr (packed current_offset);
      let next := current_offset + byte_count in
      rest ← load_slot_elements slot_packed slot_addr byte_count count (if 32 <=? next then 0 else next);
      Ok (elem :: rest)
  end.

Definition load_packed_elements {S} `{StorageOps S} (s : S) (data_start length byte_count : Z) : Result (list A) :=
  let elements_per_slot := 32 / byte_count in
  let slot_count := calc_packed_slot_count length byte_count in
  elems ← mapM (λ slot_idx,
    let slot_addr := word_add data_start slot_idx in
    slot_value ← ops_load s slot_addr;
    let elements_in_this_slot :=
      if slot_idx =? slot_count - 1 then length - slot_idx * elements_per_slot else elements_per_slot in
    load_slot_elements (mkPackedSlot slot_value) slot_addr byte_count (Z.to_nat elements_in_this_slot) 0)
    (seqZ 0 slot_count);
  Ok (concat elems).

Fixpoint build_packed_slot_from (elements : list A) (byte_count current_offset : Z) : SM PackedSlot unit :=
  match elements with
  | [] => mret tt
  | elem :: elements =>
      store elem 0 (packed current_offset);;
      build_packed_slot_from elements byte_count (current_offset + byte_count)
  end.
Definition build_packed_slot (elements : list A) (byte_count : Z) : Result Z :=
  match build_packed_slot_from elements byte_count 0 (mkPackedSlot 0) with
  | (Ok _, p) => Ok (packed_word p)
  | (Err e, _) => Err e
  end.

Definition store_packed_elements {S} `{StorageOps S} (elements : list A) (data_start byte_count : Z) : SM S unit :=
  let elements_per_slot := 32 / byte_count in
  sfor (seqZ 0 (calc_packed_slot_count (Z.of_nat (length elements)) byte_count)) (λ slot_idx,
    let start_elem := slot_idx * elements_per_slot in
    slot_value ← sread (λ _, build_packed_slot
      (take (Z.to_nat elements_per_slot) (drop (Z.to_nat start_elem) elements)) byte_count);
    ops_store (word_add data_start slot_idx) slot_value).

Definition load_unpacked_elements {S} `{StorageOps S} (s : S) (data_start length : Z) : Result (list A) :=
  mapM (λ index, load s (word_add data_start (index * SLOTS A)) FULL) (seqZ 0 length).

Definition store_unpacked_elements {S} `{StorageOps S} (elements : list A) (data_start : Z) : SM S unit :=
  sfor (zip (seqZ 0 (Z.of_nat (length elements))) elements) (λ '(elem_idx, elem),
    store elem (word_add data_start (elem_idx * SLOTS A)) FULL).

Global Instance vec_type : StorableType (list A) := {| LAYOUT := Slots 1; IS_DYNAMIC := true |}.
Global Instance vec_storable : Storable (list A) := {|
  load S ops s len_slot ctx :=
    length ← load_checked_len s len_slot;
    if length =? 0 then Ok []
    else
      let data_start := calc_data_slot len_slot in
      if BYTES A <=? 16 then load_packed_elements s data_start length (BYTES A)
      else load_unpacked_elements s data_start length;
  store S ops v len_slot ctx :=
    ops_store len_slot (Z.of_nat (length v));;
    if (length v =? 0)%nat then mret tt
    else
      let data_start := calc_data_slot len_slot in
      if BYTES A <=? 16 then store_packed_elements v data_start (BYTES A)
      else store_unpacked_elements v data_start;
  delete_at S ops len_slot ctx :=
    length ← sread (λ s, load_checked_len s len_slot);
    ops_store len_slot 0;;
    if length =? 0 then mret tt
    else
      let data_start := calc_data_slot len_slot in
      if BYTES A <=? 16 then
        sfor (seqZ 0 (calc_packed_slot_count length (BYTES A))) (λ slot_idx,
          ops_store (word_add data_start slot_idx) 0)
      else
        sfor (seqZ 0 length) (λ elem_idx, delete_at A (word_add data_start (elem_idx * SLOTS A)) FULL);
|}.

(** *** [VecHandler]

    The handler of an element is the slot and the context at which the element is
    loaded, stored and deleted. *)
Definition max_index : Z := if BYTES A <=? 16 then U32_MAX / BYTES A else U32_MAX / SLOTS A.

Definition compute_handler (data_start index : Z) : Z * LayoutCtx :=
  if BYTES A <=? 16 then
    let location := calc_element_loc index (BYTES A) in
    (word_add data_start (offset_slots location), packed (offset_bytes location))
  else (word_add data_start (index * SLOTS A), FULL).

Definition vec_len {S} `{StorageOps S} (s : S) (len_slot : Z) : Result Z := load_checked_len s len_slot.

Definition vec_handler_at {S} `{StorageOps S} (s : S) (len_slot index : Z) : Result (option (Z * LayoutCtx)) :=
  len ← vec_len s len_slot;
  if len <=? index then Ok None
  else Ok (Some (compute_handler (calc_data_slot len_slot) index)).

Definition vec_handler_push {S} `{StorageOps S} (len_slot : Z) (value : A) : SM S unit :=
  length ← sread (λ s, vec_len s len_slot);
  sread (λ _, ensure (negb (max_index <=? length)) Fatal);;
  let '(slot, ctx) := compute_handler (calc_data_slot len_slot) length in
  store value slot ctx;;
  ops_store len_slot (length + 1).

Definition vec_handler_pop {S} `{StorageOps S} (len_slot : Z) : SM S (option A) :=
  length ← sread (λ s, vec_len s len_slot);
  if length =? 0 then mret None
  else
    let last_index := length - 1 in
    let '(slot, ctx) := compute_handler (calc_data_slot len_slot) last_index in
    element ← sread (λ s, load s slot ctx);
    delete_at A slot ctx;;
    ops_store len_slot last_index;;
    mret (Some element).
End vec.

(** ** Mappings ([StorageKey], [Mapping]) *)
Definition mapping_preimage (key_bytes : list Z) (slot : Z) : list Z :=
  (replicate (32 - length key_bytes) 0 ++ key_bytes) ++ be_bytes 32 slot.
Definition mapping_slot (key_bytes : list Z) (slot : Z) : Z :=
  wrap U256_MAX (keccak256 (mapping_preimage key_bytes slot)).
End dynamic.

(** [StorageKey]: the bytes of a key. *)
Class StorageKey (K : Type) := { as_storage_bytes : K → list Z }.
Global Instance uint_key n : StorageKey (uint n) := {| as_storage_bytes := λ k, be_bytes (Z.to_nat n) (uint_val k) |}.
Global Instance sint_key n : StorageKey (sint n) := {| as_storage_bytes := λ k, be_bytes (Z.to_nat n) (to_unsigned n (sint_val k)) |}.
Global Instance fbytes_key n : StorageKey (fbytes n) := {| as_storage_bytes := fbytes_val |}.
Global Instance address_key : StorageKey address := {| as_storage_bytes := λ a, be_bytes 20 (addr_val a) |}.
Global Instance bool_key : StorageKey bool := {| as_storage_bytes := λ b : bool, if b then [1] else [0] |}.

(** ** Fixed-size arrays ([gen_array_impl], [ArrayHandler]) *)
Inductive array (A : Type) (n : nat) : Type := Array (l : list A).
Global Arguments Array {A n} l.
Definition array_val {A n} (a : array A n) : list A := match a with Array l => l end.

Definition is_packable_bytes (byte_count : Z) : bool := (byte_count <? 32) && (32 mod byte_count =? 0).

Section arrays.
Context {A : Type} `{FromWord A} `{Storable A} (N : nat).

Definition packed_array_load {S} `{StorageOps S} (elem_byte_count : Z) (s : S) (base_slot : Z) : Result (list A) :=
  mapM (λ i,
    slot_value ← ops_load s (word_add base_slot (calc_element_slot i elem_byte_count));
    extract_from_word slot_value (calc_element_offset i elem_byte_count) elem_byte_count) (seqZ 0 (Z.of_nat N)).

(** The word of slot [slot_idx]: every element of the array that belongs to it. *)
Definition pack_array_slot (elem_byte_count : Z) (l : list A) (slot_idx : Z) : Result Z :=
  fold_left (λ acc '(i, elem),
    slot_value ← acc;
    if calc_element_slot i elem_byte_count =? slot_idx
    then insert_into_word slot_value elem (calc_element_offset i elem_byte_count) elem_byte_count
    else Ok slot_value) (zip (seqZ 0 (Z.of_nat N)) l) (Ok 0).

Definition packed_array_store {S} `{StorageOps S} (elem_byte_count : Z) (l : list A) (base_slot : Z) : SM S unit :=
  sfor (seqZ 0 (div_ceil (Z.of_nat N * elem_byte_count) 32)) (λ slot_idx,
    slot_value ← sread (λ _, pack_array_slot elem_byte_count l slot_idx);
    ops_store (word_add base_slot slot_idx) slot_value).

Definition packed_array_slots : Z := div_ceil (Z.of_nat N * BYTES A) 32.
End arrays.

Definition unpacked_array_load {A} `{Storable A} {S} `{StorageOps S} (N : nat) (s : S) (base_slot : Z) : Result (list A) :=
  mapM (λ i, load s (word_add base_slot i) FULL) (seqZ 0 (Z.of_nat N)).
Definition unpacked_array_store {A} `{Storable A} {S} `{StorageOps S} (l : list A) (base_slot : Z) : SM S unit :=
  sfor (zip (seqZ 0 (Z.of_nat (length l))) l) (λ '(i, elem), store elem (word_add base_slot i) FULL).

Global Instance array_type {A} `{StorableType A} (n : nat) : StorableType (array A n) := {|
  LAYOUT := Slots (if is_packable_bytes (BYTES A) then packed_array_slots (A := A) n else Z.of_nat n);
  IS_DYNAMIC := false;
|}.

(** Arrays of primitives, and arrays of arrays of one slot. *)
Global Instance array_storable {A} `{FromWord A} `{Storable A} (n : nat) : Storable (array A n) := {|
  load S ops s slot ctx :=
    l ← (if is_packable_bytes (BYTES A) then packed_array_load n (BYTES A) s slot else unpacked_array_load n s slot);
    Ok (Array l);
  store S ops v slot ctx :=
    if is_packable_bytes (BYTES A) then packed_array_store n (BYTES A) (array_val v) slot
    else unpacked_array_store (array_val v) slot;
  delete_at S ops := default_delete (array A n);
|}.
Global Instance nested_array_storable {A m} `{FromWord A} `{Storable A} (n : nat) : Storable (array (array A m) n) := {|
  load S ops s slot ctx := l ← unpacked_array_load n s slot; Ok (Array l);
  store S ops v slot ctx := unpacked_array_store (array_val v) slot;
  delete_at S ops := default_delete (array (array A m) n);
|}.

(** [ArrayHandler::at]: the slot and context of an element, as for a vector. *)
Definition array_handler_at {A} `{Storable A} (n base_slot index : Z) : option (Z * LayoutCtx) :=
  if n <=? index then None else Some (compute_handler (A := A) base_slot index).
