(* ===== verification/StorageLayout.v ===== *)
(** * Layout of structs and contracts

    What the macros [#[derive(Storable)]] and [#[contract]] compute and generate
    ([tempo-precompiles-macros/src/packing.rs], [storable.rs], [layout.rs]): the slot and
    offset of every field, the context in which its handler accesses it, the check of
    collisions, and the [load], [store] and [delete] of a struct.  The generated constants are
    evaluated at compile time; [None] is a compile error ([slot overflow]). *)
From Stdlib Require Import ZArith Lia.
From stdpp Require Import base tactics option list list_numbers.
From S2P Require Import Prelude Base StorageWords StorageTypes.
Open Scope Z_scope.

(** ** Slot allocation *)
Record FieldInfo := mkFieldInfo { fi_layout : Layout; fi_slot : option Z; fi_base_slot : option Z }.

Inductive SlotAssignment := Manual (slot : Z) | Auto (base_slot : Z).
Definition ref_slot (a : SlotAssignment) : Z := match a with Manual s => s | Auto s => s end.

Record LayoutField := mkLayoutField { lf_layout : Layout; assigned_slot : SlotAssignment }.

Fixpoint allocate_slots_from (current_base_slot : Z) (fields : list FieldInfo) : list LayoutField :=
  match fields with
  | [] => []
  | f :: fields =>
      match fi_slot f, fi_base_slot f with
      | Some explicit, _ => mkLayoutField (fi_layout f) (Manual explicit) :: allocate_slots_from current_base_slot fields
      | None, Some new_base => mkLayoutField (fi_layout f) (Auto new_base) :: allocate_slots_from new_base fields
      | None, None => mkLayoutField (fi_layout f) (Auto current_base_slot) :: allocate_slots_from current_base_slot fields
      end
  end.
Definition allocate_slots : list FieldInfo → list LayoutField := allocate_slots_from 0.

(** [SLOT = SLOT + (TYPE_LEN - 1) - (TYPE_LEN - 1)]: the slot, if the whole type fits behind it. *)
Definition fitting_slot (l : Layout) (slot : Z) : option Z :=
  let slots_to_end := saturating_sub (slots l) 1 in
  e ← checked_add U256_MAX slot slots_to_end; Some (saturating_sub e slots_to_end).

Definition can_pack (prev curr : Layout) (prev_offset : Z) : bool := prev_offset + bytes prev + bytes curr <=? 32.

Definition gen_slot_packing_logic (prev curr : Layout) (prev_slot prev_offset : Z) : option (Z * Z) :=
  if can_pack prev curr prev_offset then Some (prev_slot, prev_offset + bytes prev)
  else
    next ← checked_add U256_MAX prev_slot (slots prev);
    slot ← fitting_slot curr next;
    Some (slot, 0).

(** The slot and the offset of every field; [current] is the last auto-assigned field. *)
Fixpoint gen_constants_from (current : option (LayoutField * (Z * Z))) (fields : list LayoutField)
    : option (list (Z * Z)) :=
  match fields with
  | [] => Some []
  | f :: fields =>
      match assigned_slot f with
      | Manual manual_slot =>
          slot ← fitting_slot (lf_layout f) manual_slot;
          rest ← gen_constants_from current fields;
          Some ((slot, 0) :: rest)
      | Auto base_slot =>
          loc ← match current with
                | Some (p, (prev_slot, prev_offset)) =>
                    if ref_slot (assigned_slot p) =? base_slot
                    then gen_slot_packing_logic (lf_layout p) (lf_layout f) prev_slot prev_offset
                    else slot ← fitting_slot (lf_layout f) base_slot; Some (slot, 0)
                | None => slot ← fitting_slot (lf_layout f) base_slot; Some (slot, 0)
                end;
          rest ← gen_constants_from (Some (f, loc)) fields;
          Some (loc :: rest)
      end
  end.
Definition gen_constants_from_ir : list LayoutField → option (list (Z * Z)) := gen_constants_from None.

(** [gen_layout_ctx_expr]: a packed access when the slot is shared with a neighbour. *)
Definition gen_layout_ctx_expr (l : Layout) (is_manual_slot : bool) (slot offset : Z)
    (prev_slot next_slot : option Z) : LayoutCtx :=
  if negb is_manual_slot && (bool_decide (is_Some prev_slot) || bool_decide (is_Some next_slot)) then
    if (bool_decide (prev_slot = Some slot) || bool_decide (next_slot = Some slot)) && is_packable l
    then packed offset else FULL
  else FULL.

(** [get_neighbor_slot_refs] and [gen_handler_field_init]: the slot and the context of the
    handler of every field of a contract. *)
Definition is_manual (a : SlotAssignment) : bool := match a with Manual _ => true | Auto _ => false end.
Fixpoint gen_handlers (prev_slot : option Z) (fields : list LayoutField) (consts : list (Z * Z))
    : list (Z * LayoutCtx) :=
  match fields, consts with
  | f :: fields, (slot, offset) :: consts =>
      (slot, gen_layout_ctx_expr (lf_layout f) (is_manual (assigned_slot f)) slot offset prev_slot (fst <$> head consts))
      :: gen_handlers (Some slot) fields consts
  | _, _ => []
  end.
Definition gen_constructor (fields : list FieldInfo) : option (list (Z * LayoutCtx)) :=
  let ir := allocate_slots fields in
  consts ← gen_constants_from_ir ir;
  Some (gen_handlers None ir consts).

(** [gen_collision_check_fn]: the assertion for one pair of fields. *)
Definition no_overlap (l : Layout) (loc : Z * Z) (l' : Layout) (loc' : Z * Z) : option bool :=
  let '(slot, offset) := loc in
  let '(other_slot, other_offset) := loc' in
  slot_end ← checked_add U256_MAX slot (slots l);
  other_slot_end ← checked_add U256_MAX other_slot (slots l');
  Some (if slot =? other_slot
        then (offset + bytes l <=? other_offset) || (other_offset + bytes l' <=? offset)
        else (slot_end <=? other_slot) || (other_slot_end <=? slot)).

(** ** Structs

    The fields of a struct in order; a mapping takes a slot but has no value. *)
Inductive fields : Type → Type :=
| fnil : fields unit
| fcons {A B : Type} `{Storable A} (rest : fields B) : fields (A * B)
| fmapping {B : Type} (rest : fields B) : fields B.

Fixpoint field_layouts {B} (fs : fields B) : list Layout :=
  match fs with
  | fnil => []
  | @fcons A _ _ _ rest => LAYOUT A :: field_layouts rest
  | fmapping rest => Slots 1 :: field_layouts rest
  end.

Definition struct_infos {B} (fs : fields B) : list FieldInfo :=
  map (λ l, mkFieldInfo l None None) (field_layouts fs).
Definition struct_constants {B} (fs : fields B) : option (list (Z * Z)) :=
  gen_constants_from_ir (allocate_slots (struct_infos fs)).

(** [SLOT_COUNT]: the end of the last field, as a [usize]. *)
Definition slot_count_of (layouts : list Layout) (consts : list (Z * Z)) : Z :=
  match last layouts, last consts with
  | Some l, Some (slot, _) => saturating_add U256_MAX slot (slots l) mod 2 ^ 64
  | _, _ => 0
  end.

(** The direct fields with their [FieldLocation]s. *)
Inductive located : Type → Type :=
| lnil : located unit
| lcons {A B : Type} `{Storable A} (loc : FieldLocation) (rest : located B) : located (A * B).

Fixpoint locate {B} (fs : fields B) (consts : list (Z * Z)) : located B :=
  match fs with
  | fnil => lnil
  | @fcons A _ _ _ rest =>
      let c := default (0, 0) (head consts) in
      lcons (mkFieldLocation (c.1 mod 2 ^ 64) c.2 (BYTES A)) (locate rest (tail consts))
  | fmapping rest => locate rest (tail consts)
  end.

Definition next_loc {B} (fs : located B) : option (Z * bool) :=
  match fs with
  | lnil => None
  | @lcons A _ _ _ loc _ => Some (offset_slots loc, IS_PACKABLE A)
  end.

Section generated.
Context {S : Type} `{StorageOps S} (base_slot : Z).

(** [gen_load_impl]: a slot shared by consecutive packable fields is read once. *)
Fixpoint gen_load {B} (fs : located B) (prev_offset : option Z) (cached_slot : Z) (s : S) : Result B :=
  match fs with
  | lnil => Ok tt
  | @lcons A B _ _ loc rest =>
      let slot_addr := word_add base_slot (offset_slots loc) in
      let packed_ctx := packed (offset_bytes loc) in
      p ← (if IS_PACKABLE A && bool_decide (prev_offset = Some (offset_slots loc)) then
             v ← load (mkPackedSlot cached_slot) 0 packed_ctx; Ok (v, cached_slot)
           else if IS_PACKABLE A then
             cached_slot ← ops_load s slot_addr;
             v ← load (mkPackedSlot cached_slot) 0 packed_ctx; Ok (v, cached_slot)
           else v ← load s slot_addr FULL; Ok (v, cached_slot));
      rest ← gen_load rest (Some (offset_slots loc)) (snd p) s;
      Ok (fst p, rest)
  end.

Definition store_in_word {A} `{Storable A} (v : A) (w : Z) (ctx : LayoutCtx) : Result Z :=
  match store v 0 ctx (mkPackedSlot w) with
  | (Ok _, p) => Ok (packed_word p)
  | (Err e, _) => Err e
  end.

Definition commit (pending_offset : option Z) (pending_val : Z) : SM S unit :=
  match pending_offset with
  | Some offset => ops_store (word_add base_slot offset) pending_val
  | None => mret tt
  end.

(** [gen_store_impl]: writes to a shared slot are gathered in [pending_val] and written once. *)
Fixpoint gen_store {B} (fs : located B) (prev_offset pending_offset : option Z) (pending_val : Z) : B → SM S unit :=
  match fs with
  | lnil => λ _, mret tt
  | @lcons A B _ _ loc rest => λ '(v, vs),
      let slot_addr := word_add base_slot (offset_slots loc) in
      let packed_ctx := packed (offset_bytes loc) in
      let should_store :=
        match next_loc rest with
        | Some (next_slot, next_packable) => negb (offset_slots loc =? next_slot) || negb next_packable
        | None => true
        end in
      p ← (if IS_PACKABLE A && bool_decide (prev_offset = Some (offset_slots loc)) then
             pending_val ← sread (λ _, store_in_word v pending_val packed_ctx);
             mret (pending_offset, pending_val)
           else if IS_PACKABLE A then
             commit pending_offset pending_val;;
             pending_val ← sread (λ s, ops_load s slot_addr);
             pending_val ← sread (λ _, store_in_word v pending_val packed_ctx);
             mret (Some (offset_slots loc), pending_val)
           else
             commit pending_offset pending_val;;
             store v slot_addr FULL;;
             mret (None, pending_val));
      if should_store then
        commit (fst p) (snd p);;
        gen_store rest (Some (offset_slots loc)) None (snd p) vs
      else gen_store rest (Some (offset_slots loc)) (fst p) (snd p) vs
  end.

(** [gen_delete_impl]: dynamic fields clean up after themselves, then the slots of the
    static fields are zeroed. *)
Fixpoint dynamic_deletes {B} (fs : located B) : SM S unit :=
  match fs with
  | lnil => mret tt
  | @lcons A _ _ _ loc rest =>
      (if IS_DYNAMIC A then delete_at A (word_add base_slot (offset_slots loc)) FULL else mret tt);;
      dynamic_deletes rest
  end.
Fixpoint is_static_slot {B} (fs : located B) (slot_offset : Z) : bool :=
  match fs with
  | lnil => false
  | @lcons A _ _ _ loc rest =>
      ((offset_slots loc <=? slot_offset) && (slot_offset <? offset_slots loc + SLOTS A) && negb (IS_DYNAMIC A))
      || is_static_slot rest slot_offset
  end.
Definition gen_delete {B} (fs : located B) (slot_count : Z) : SM S unit :=
  dynamic_deletes fs;;
  sfor (seqZ 0 slot_count) (λ slot_offset,
    if is_static_slot fs slot_offset then ops_store (word_add base_slot slot_offset) 0 else mret tt).
End generated.

Fixpoint any_dynamic {B} (fs : fields B) : bool :=
  match fs with
  | fnil => false
  | @fcons A _ _ _ rest => IS_DYNAMIC A || any_dynamic rest
  | fmapping rest => any_dynamic rest
  end.

(** [derive_struct_impl]. *)
Definition struct_type {B} (fs : fields B) (consts : list (Z * Z)) : StorableType B := {|
  LAYOUT := Slots (slot_count_of (field_layouts fs) consts);
  IS_DYNAMIC := any_dynamic fs;
|}.
Definition struct_storable {B} (fs : fields B) (consts : list (Z * Z)) : @Storable B (struct_type fs consts) :=
  @Build_Storable B (struct_type fs consts)
    (λ S ops s base_slot _, gen_load base_slot (locate fs consts) None 0 s)
    (λ S ops v base_slot _, gen_store base_slot (locate fs consts) None None 0 v)
    (λ S ops base_slot _, gen_delete base_slot (locate fs consts) (slot_count_of (field_layouts fs) consts)).
