(* ===== verification/StorageLaws.v ===== *)
(** * What storable types promise

    A storage is a map of words ([LawfulOps]); a storable type occupies a set of bits of it,
    its extent, stores and deletes within its extent and reads back what it stored
    ([LawfulStorable]).  The class is the interface between the types: a vector, an array or a
    struct is proved lawful from the laws of its elements. *)
From Stdlib Require Import ZArith Lia.
From stdpp Require Import base tactics option list list_numbers fin_maps gmap.
From S2P Require Import Prelude Base StorageWords StorageTypes StorageLayout.
Open Scope Z_scope.
Open Scope storage_scope.

(** ** Lawful storages *)
Class LawfulOps (S : Type) `{StorageOps S} := {
  cell : S → Z → Z;
  put : Z → Z → S → S;
  load_cell s k : ops_load s k = Ok (cell s k);
  store_put k v s : ops_store k v s = (Ok tt, put k v s);
  cell_put k v s k' : cell (put k v s) k' = if decide (k = k') then v else cell s k';
  put_put k v v' s : put k v' (put k v s) = put k v' s;
}.

Global Program Instance slot_lawful (self : Address) : @LawfulOps StorageCtx (slot_ops self) :=
  @Build_LawfulOps StorageCtx (slot_ops self) (λ s k, (persistent s).[(self, k)])
    (λ k v s, mkStorageCtx (<[(self, k):=v]> (persistent s)) (transient s)) _ _ _ _.
Next Obligation. done. Qed.
Next Obligation. done. Qed.
Next Obligation. intros self k v s k'; cbn. rewrite mread_insert. do 2 case_decide; naive_solver. Qed.
Next Obligation. intros self k v v' s; cbn. by rewrite insert_insert_eq. Qed.

Global Program Instance transient_lawful (self : Address) : @LawfulOps StorageCtx (transient_ops self) :=
  @Build_LawfulOps StorageCtx (transient_ops self) (λ s k, (transient s).[(self, k)])
    (λ k v s, mkStorageCtx (persistent s) (<[(self, k):=v]> (transient s))) _ _ _ _.
Next Obligation. done. Qed.
Next Obligation. done. Qed.
Next Obligation. intros self k v s k'; cbn. rewrite mread_insert. do 2 case_decide; naive_solver. Qed.
Next Obligation. intros self k v v' s; cbn. by rewrite insert_insert_eq. Qed.

(** Sets of bits: a slot and a bit of its word. *)
Definition extent : Type := Z → Z → Prop.
Definition disjoint_extents (R R' : extent) : Prop := ∀ k i, 0 ≤ i → R k i → R' k i → False.

Section storages.
Context {S : Type} `{LawfulOps S}.
Implicit Types (s : S) (R : extent).

Definition words s : Prop := ∀ k, 0 ≤ cell s k < 2 ^ 256.
Definition bit s k i : bool := Z.testbit (cell s k) i.
(** [s'] differs from [s] inside [R] only; [s'] is [s] on [R]; [s] is zero on [R]. *)
Definition frame R s s' : Prop := ∀ k i, 0 ≤ i → ¬ R k i → bit s' k i = bit s k i.
Definition agree R s s' : Prop := ∀ k i, 0 ≤ i → R k i → bit s' k i = bit s k i.
Definition cleared R s : Prop := ∀ k i, 0 ≤ i → R k i → bit s k i = false.

Lemma frame_trans R R' s s1 s2 :
  frame R s s1 → frame R' s1 s2 → frame (λ k i, R k i ∨ R' k i) s s2.
Proof. intros H1 H2 k i Hi HR. rewrite H2, H1 by (done || tauto). done. Qed.
Lemma frame_weaken R R' s s' : frame R s s' → (∀ k i, 0 ≤ i → R k i → R' k i) → frame R' s s'.
Proof. intros H1 HR k i Hi HR'. apply H1; naive_solver. Qed.
Lemma agree_weaken R R' s s' : agree R s s' → (∀ k i, 0 ≤ i → R' k i → R k i) → agree R' s s'.
Proof. intros H1 HR k i Hi HR'. apply H1; naive_solver. Qed.
Lemma agree_trans R s s1 s2 : agree R s s1 → agree R s1 s2 → agree R s s2.
Proof. intros H1 H2 k i Hi HR. rewrite H2, H1 by done. done. Qed.
Lemma agree_refl R s : agree R s s.
Proof. done. Qed.
Lemma frame_agree R R' s s' : frame R s s' → disjoint_extents R R' → agree R' s s'.
Proof. intros H1 Hd k i Hi HR. apply H1; [done|]. intros HR'. by eapply Hd. Qed.
Lemma cleared_agree R s s' : cleared R s → agree R s s' → cleared R s'.
Proof. intros H1 H2 k i Hi HR. rewrite H2 by done. by apply H1. Qed.

Lemma words_put k v s : words s → 0 ≤ v < 2 ^ 256 → words (put k v s).
Proof. intros Hs Hv k'. rewrite cell_put. by case_decide. Qed.
Lemma bit_put k v s k' i : bit (put k v s) k' i = if decide (k = k') then Z.testbit v i else bit s k' i.
Proof. unfold bit. rewrite cell_put. by case_decide. Qed.
Lemma cell_agree k s s' : agree (λ k' _, k' = k) s s' → cell s' k = cell s k.
Proof. intros Ha. apply Z.bits_inj'. intros i Hi. by apply Ha. Qed.

(** A write of a whole slot. *)
Lemma frame_put k v s : frame (λ k' _, k' = k) s (put k v s).
Proof. intros k' i Hi Hk. rewrite bit_put. case_decide; naive_solver. Qed.
End storages.

(** ** Lawful types *)
Definition ctx_ok A `{StorableType A} (ctx : LayoutCtx) : Prop :=
  match packed_offset ctx with
  | None => True
  | Some o => IS_PACKABLE A = true ∧ 0 ≤ o ∧ o + BYTES A ≤ 32
  end.

Definition layout_ok (l : Layout) : Prop :=
  match l with Bytes n => 1 ≤ n ≤ 32 | Slots n => 1 ≤ n < 2 ^ 64 end.

(** The slots behind [slot], and the bits of a field of a slot. *)
Definition slots_extent (slot n : Z) : extent := λ k _, ∃ j, 0 ≤ j < n ∧ k = word_add slot j.
Definition field_extent (slot offset n : Z) : extent := λ k i, k = slot ∧ in_field offset n i = true.

Class LawfulStorable (A : Type) `{Storable A} := {
  (* the value is of its type and can be stored at the slot *)
  placed : Z → A → Prop;
  extent_of : Z → LayoutCtx → A → extent;
  law_layout : layout_ok (LAYOUT A);
  law_store {S} `{LawfulOps S} (s : S) slot ctx v :
    words s → 0 ≤ slot < 2 ^ 256 → placed slot v → ctx_ok A ctx →
    ∃ s', store v slot ctx s = (Ok tt, s') ∧ words s' ∧ frame (extent_of slot ctx v) s s' ∧
      ∀ s2, words s2 → agree (extent_of slot ctx v) s' s2 →
        load s2 slot ctx = Ok v ∧
        ∃ s3, delete_at A slot ctx s2 = (Ok tt, s3) ∧ words s3 ∧
          frame (extent_of slot ctx v) s2 s3 ∧ cleared (extent_of slot ctx v) s3;
  law_static slot v : 0 ≤ slot < 2 ^ 256 → IS_DYNAMIC A = false → ∀ k i, extent_of slot FULL v k i ↔ slots_extent slot (SLOTS A) k i;
  law_covers slot v : 0 ≤ slot < 2 ^ 256 → ∀ k i, slots_extent slot (SLOTS A) k i → extent_of slot FULL v k i;
  law_packed slot o v : IS_PACKABLE A = true → o ≠ FULL → ∀ k i,
    extent_of slot (packed o) v k i ↔ field_extent slot o (BYTES A) k i;
  law_packable : IS_PACKABLE A = true → IS_DYNAMIC A = false;
  law_word_load {S} `{LawfulOps S} (s : S) slot slot' o : IS_PACKABLE A = true → o ≠ FULL →
    load s slot (packed o) = load (mkPackedSlot (cell s slot)) slot' (packed o);
  law_word_store {S} `{LawfulOps S} (s : S) slot o (v : A) : IS_PACKABLE A = true → o ≠ FULL →
    store v slot (packed o) s =
    match store_in_word v (cell s slot) (packed o) with
    | Ok w => (Ok tt, put slot w s)
    | Err e => (Err e, s)
    end;
}.

(** ** Loops of writes *)
Section loops.
Context {S : Type} `{LawfulOps S}.
Implicit Types (s : S).

Lemma sbind_ok {A B} (m : SM S A) (f : A → SM S B) s a s' : m s = (Ok a, s') → (m ≫= f) s = f a s'.
Proof. intros Hm. unfold mbind, SM_bind. by rewrite Hm. Qed.
Lemma sread_bind {A B} (g : S → Result A) (f : A → SM S B) s a : g s = Ok a → (sread g ≫= f) s = f a s.
Proof. intros Hg. unfold mbind, SM_bind, sread. by rewrite Hg. Qed.
Lemma load_bind {B} k (f : Z → SM S B) s : (sread (λ s, ops_load s k) ≫= f) s = f (cell s k) s.
Proof. apply sread_bind, load_cell. Qed.
Lemma pure_bind {A B} (r : Result A) (f : A → SM S B) s a : r = Ok a → (sread (λ _, r) ≫= f) s = f a s.
Proof. intros Hr. by apply sread_bind. Qed.
Lemma store_bind {B} k v (f : SM S B) s : (ops_store k v;; f) s = f (put k v s).
Proof. unfold mbind, SM_bind. by rewrite store_put. Qed.

(** One write per element of a list; places written twice get the same word. *)
Lemma store_slots {A} (l : list A) (f g : A → Z) s :
  words s → (∀ j, j ∈ l → 0 ≤ g j < 2 ^ 256) →
  (∀ j j', j ∈ l → j' ∈ l → f j = f j' → g j = g j') →
  ∃ s', sfor l (λ j, ops_store (f j) (g j)) s = (Ok tt, s') ∧ words s' ∧
    (∀ j, j ∈ l → cell s' (f j) = g j) ∧ (∀ k, (∀ j, j ∈ l → k ≠ f j) → cell s' k = cell s k).
Proof.
  revert s. induction l as [|a l IH]; intros s Hs Hg Hfg.
  { exists s. repeat split; try done; [apply Hs..|]. intros j Hj. by apply elem_of_nil in Hj. }
  destruct (IH (put (f a) (g a) s)) as (s' & Hrun & Hs' & Hin & Hout).
  { apply words_put; [done|]. apply Hg. left. }
  { intros j Hj. apply Hg. by right. }
  { intros j j' Hj Hj'. apply Hfg; by right. }
  exists s'. split; [by cbn; rewrite store_bind|]. split; [done|]. split.
  - intros j [->|Hj]%elem_of_cons; [|by apply Hin].
    destruct (decide (Exists (λ j, f j = f a) l)) as [(j & Hj & Heq)%Exists_exists|Hne].
    + rewrite <- Heq, Hin by done. apply Hfg; [by right|left|done].
    + rewrite Hout, cell_put; [by rewrite decide_True|].
      intros j Hj Heq. apply Hne, Exists_exists. eauto.
  - intros k Hk. rewrite Hout, cell_put, decide_False; [done| |].
    + intros Heq. by eapply Hk; [left|].
    + intros j Hj. apply Hk. by right.
Qed.

Lemma clear_slots {A} (l : list A) (f : A → Z) s :
  words s →
  ∃ s', sfor l (λ j, ops_store (f j) 0) s = (Ok tt, s') ∧ words s' ∧
    frame (λ k _, ∃ j, j ∈ l ∧ k = f j) s s' ∧ cleared (λ k _, ∃ j, j ∈ l ∧ k = f j) s'.
Proof.
  intros Hs. destruct (store_slots l f (λ _, 0) s) as (s' & Hrun & Hs' & Hin & Hout); [done|done|done|].
  exists s'. split_and!; [done|apply Hs'..| |].
  - intros k i Hi Hk. unfold bit. rewrite Hout; [done|]. intros j Hj ->. eauto.
  - intros k i Hi (j & Hj & ->). unfold bit. rewrite Hin by done. apply Z.bits_0.
Qed.
End loops.

Lemma word_add_0 slot : 0 ≤ slot < 2 ^ 256 → word_add slot 0 = slot.
Proof. intros Hs. unfold word_add. rewrite U256_wrap, Z.add_0_r, Z.mod_small by done. done. Qed.

Lemma word_add_range slot j : 0 ≤ word_add slot j < 2 ^ 256.
Proof. unfold word_add. rewrite U256_wrap. by apply Z.mod_pos_bound. Qed.

Lemma word_add_inj slot j j' : 0 ≤ j < 2 ^ 256 → 0 ≤ j' < 2 ^ 256 → word_add slot j = word_add slot j' → j = j'.
Proof.
  unfold word_add. rewrite !U256_wrap. intros Hj Hj' Heq.
  assert ((j - j') mod 2 ^ 256 = 0) as Hmod.
  { replace (j - j') with (slot + j - (slot + j')) by lia. rewrite Zminus_mod, Heq, Z.sub_diag. done. }
  apply Z.mod_divide in Hmod as [q Hq]; [|done]. nia.
Qed.

Lemma packed_offset_FULL : packed_offset FULL = None.
Proof. done. Qed.
Lemma packed_offset_packed o : o ≠ FULL → packed_offset (packed o) = Some o.
Proof. intros Ho. unfold packed_offset, packed. destruct (Z.eqb_spec o U64_MAX); [by destruct Ho|done]. Qed.

Lemma in_field_nonneg o n i : 0 ≤ o → in_field o n i = true → 0 ≤ i.
Proof. unfold in_field. lia. Qed.

(** ** Primitives are lawful *)
Section primitive.
Context {A : Type} {n : Z} `{Primitive A n} `{StorableType A}.
Hypotheses (Hlayout : LAYOUT A = Bytes n) (Hstatic : IS_DYNAMIC A = false).

Definition primitive_extent (slot : Z) (ctx : LayoutCtx) (v : A) : extent :=
  match packed_offset ctx with
  | None => λ k _, k = slot
  | Some o => field_extent slot o n
  end.

Lemma primitive_bytes : BYTES A = n.
Proof. unfold BYTES. by rewrite Hlayout. Qed.
Lemma primitive_packable : IS_PACKABLE A = (n <? 32).
Proof. unfold IS_PACKABLE. by rewrite Hlayout. Qed.
Lemma primitive_slots : SLOTS A = 1.
Proof. unfold SLOTS. by rewrite Hlayout. Qed.

Lemma prim_word v : prim_valid v → 0 ≤ to_word v < 2 ^ 256.
Proof.
  intros Hv. pose proof (prim_range v Hv). pose proof prim_bytes.
  assert (2 ^ (8 * n) ≤ 2 ^ 256) by (apply Z.pow_le_mono_r; lia). lia.
Qed.

(** A whole slot, whichever of the two implementations. *)
Lemma primitive_full {S} `{LawfulOps S} (s : S) slot v :
  words s → 0 ≤ slot < 2 ^ 256 → prim_valid v →
  words (put slot (to_word v) s) ∧ frame (λ k _, k = slot) s (put slot (to_word v) s) ∧
  ∀ s2, words s2 → agree (λ k _, k = slot) (put slot (to_word v) s) s2 →
    (ops_load s2 slot ≫= from_word) = Ok v ∧
    ∃ s3, default_delete A slot FULL s2 = (Ok tt, s3) ∧ words s3 ∧
      frame (λ k _, k = slot) s2 s3 ∧ cleared (λ k _, k = slot) s3.
Proof.
  intros Hs Hslot Hv. split; [by apply words_put, prim_word|]. split; [apply frame_put|].
  intros s2 Hs2 Ha. split.
  - rewrite load_cell, (cell_agree _ _ _ Ha), cell_put, decide_True by done. by apply prim_roundtrip.
  - unfold default_delete. rewrite packed_offset_FULL, primitive_slots.
    destruct (clear_slots (seqZ 0 1) (word_add slot) s2 Hs2) as (s3 & Hrun & Hs3 & Hf & Hc).
    assert (∀ k, (∃ j, j ∈ seqZ 0 1 ∧ k = word_add slot j) ↔ k = slot) as Hext.
    { intros k. split; [|intros ->; exists 0; rewrite elem_of_seqZ, word_add_0 by done; lia].
      intros (j & Hj%elem_of_seqZ & ->). replace j with 0 by lia. by apply word_add_0. }
    exists s3. split_and!; [done|apply Hs3..| |].
    + intros k i Hi Hk. apply Hf; [done|]. by rewrite Hext.
    + intros k i Hi Hk. apply Hc; [done|]. by rewrite Hext.
Qed.

(** A field of a slot, for the packable types. *)
Lemma primitive_field {S} `{LawfulOps S} (s : S) slot o v :
  n < 32 → words s → prim_valid v → 0 ≤ o → o + n ≤ 32 → o ≠ FULL →
  ∃ s', store (Storable := packable_storable) v slot (packed o) s = (Ok tt, s') ∧ words s' ∧
    frame (field_extent slot o n) s s' ∧
    ∀ s2, words s2 → agree (field_extent slot o n) s' s2 →
      load (Storable := packable_storable) s2 slot (packed o) = Ok v ∧
      ∃ s3, default_delete A slot (packed o) s2 = (Ok tt, s3) ∧ words s3 ∧
        frame (field_extent slot o n) s2 s3 ∧ cleared (field_extent slot o n) s3.
Proof.
  intros Hn Hs Hv Ho Hon HoF. pose proof prim_bytes as Hb.
  destruct (insert_bits (cell s slot) v o n) as (w & Hw & Hbits); [lia..|].
  assert (∀ i, 0 ≤ i → in_field o n i = false → Z.testbit w i = bit s slot i) as Hout.
  { intros i Hi Hf. rewrite Hbits, Hf by done. unfold bit.
    destruct (Z.ltb_spec i 256); [done|]. by rewrite (high_bits _ 256) by (done || apply Hs). }
  exists (put slot w s). cbn [store load packable_storable]. rewrite packed_offset_packed, primitive_bytes by done.
  split; [by rewrite load_bind, (pure_bind _ _ _ _ Hw), store_put|].
  split. { apply words_put; [done|]. apply range_of_bits; [done|]. intros i Hi. rewrite Hbits by lia.
    replace (in_field o n i) with false by (unfold in_field; lia). by rewrite (proj2 (Z.ltb_ge i 256)). }
  split. { intros k i Hi Hk. rewrite bit_put. case_decide; [subst k|done]. apply Hout; [done|].
    destruct (in_field o n i) eqn:?; [|done]. by destruct Hk. }
  intros s2 Hs2 Ha.
  assert (∀ i, 0 ≤ i → in_field o n i = true → Z.testbit (cell s2 slot) i = Z.testbit (to_word v) (i - 8 * o)) as Hval.
  { intros i Hi Hf. specialize (Ha slot i Hi (conj eq_refl Hf)). rewrite bit_put, decide_True in Ha by done.
    unfold bit in Ha. by rewrite Ha, Hbits, Hf. }
  split.
  - rewrite load_cell. cbn. rewrite extract_field, (field_of_value _ v) by (done || eauto using in_field_nonneg).
    by apply prim_roundtrip.
  - destruct (delete_bits (cell s2 slot) o n) as (w2 & Hw2 & Hbits2); [lia..|].
    exists (put slot w2 s2). unfold default_delete. rewrite packed_offset_packed, primitive_bytes by done.
    split; [by rewrite load_bind, (pure_bind _ _ _ _ Hw2), store_put|].
    split. { apply words_put; [done|]. apply range_of_bits; [done|]. intros i Hi. rewrite Hbits2 by lia.
      destruct (in_field o n i); [done|]. by rewrite (proj2 (Z.ltb_ge i 256)). }
    split.
    + intros k i Hi Hk. rewrite bit_put. case_decide; [subst k|done]. rewrite Hbits2 by done.
      destruct (in_field o n i) eqn:?; [by destruct Hk|]. unfold bit.
      destruct (Z.ltb_spec i 256); [done|]. by rewrite (high_bits _ 256) by (done || apply Hs2).
    + intros k i Hi [-> Hf]. rewrite bit_put, decide_True, Hbits2, Hf by done. done.
Qed.

Lemma primitive_store_law {S} `{LawfulOps S} (s : S) slot ctx v :
  words s → 0 ≤ slot < 2 ^ 256 → prim_valid v → ctx_ok A ctx →
  ∃ s', store (Storable := primitive_storable n) v slot ctx s = (Ok tt, s') ∧ words s' ∧
    frame (primitive_extent slot ctx v) s s' ∧
    ∀ s2, words s2 → agree (primitive_extent slot ctx v) s' s2 →
      load (Storable := primitive_storable n) s2 slot ctx = Ok v ∧
      ∃ s3, default_delete A slot ctx s2 = (Ok tt, s3) ∧ words s3 ∧
        frame (primitive_extent slot ctx v) s2 s3 ∧ cleared (primitive_extent slot ctx v) s3.
Proof.
  intros Hs Hslot Hv Hctx. unfold primitive_extent, ctx_ok, primitive_storable in *.
  destruct (packed_offset ctx) as [o|] eqn:Ho.
  - destruct Hctx as (Hp & Ho0 & Hob). rewrite primitive_packable, Z.ltb_lt in Hp. rewrite primitive_bytes in Hob.
    rewrite (proj2 (Z.ltb_lt _ _) Hp).
    assert (ctx = packed o ∧ o ≠ FULL) as [-> HoF].
    { unfold packed_offset in Ho. destruct (Z.eqb_spec ctx U64_MAX); naive_solver. }
    by apply primitive_field.
  - assert (ctx = FULL) as ->.
    { unfold packed_offset in Ho. destruct (Z.eqb_spec ctx U64_MAX); naive_solver. }
    destruct (primitive_full s slot v Hs Hslot Hv) as (Hw & Hf & Hrest).
    exists (put slot (to_word v) s). split; [|split_and!; [apply Hw..|done|]].
    + destruct (n <? 32); cbn; apply store_put.
    + intros s2 Hs2 Ha. destruct (Hrest s2 Hs2 Ha) as [Hl Hd]. split; [by destruct (n <? 32)|done].
Qed.

Program Definition primitive_lawful : @LawfulStorable A _ (primitive_storable n) :=
  @Build_LawfulStorable A _ (primitive_storable n) (λ _, prim_valid) primitive_extent _ _ _ _ _ _ _ _.
Next Obligation. rewrite Hlayout. exact prim_bytes. Qed.
Next Obligation.
  intros. destruct (primitive_store_law s slot ctx v) as (s' & ? & ? & ? & Hrest); [done..|].
  exists s'. split_and!; [done|done|done|]. intros s2 Hs2 Ha. destruct (Hrest s2 Hs2 Ha) as [? Hd].
  split; [done|]. by unfold primitive_storable; destruct (n <? 32).
Qed.
Next Obligation.
  intros slot v Hslot _ k i. unfold primitive_extent, slots_extent. rewrite packed_offset_FULL, primitive_slots.
  split; [intros ->; exists 0; rewrite word_add_0 by done; lia|].
  intros (j & Hj & ->). replace j with 0 by lia. by apply word_add_0.
Qed.
Next Obligation.
  intros slot v Hslot k i. unfold primitive_extent, slots_extent. rewrite packed_offset_FULL, primitive_slots.
  intros (j & Hj & ->). replace j with 0 by lia. by apply word_add_0.
Qed.
Next Obligation.
  intros slot o v _ Ho k i. unfold primitive_extent. by rewrite packed_offset_packed, primitive_bytes.
Qed.
Next Obligation. done. Qed.
Next Obligation.
  intros S ops Hlaw s slot slot' o Hp Ho. rewrite primitive_packable in Hp. unfold primitive_storable. rewrite Hp. cbn.
  by rewrite packed_offset_packed, load_cell.
Qed.
Next Obligation.
  intros S ops Hlaw s slot o v Hp Ho. rewrite primitive_packable in Hp. unfold primitive_storable, store_in_word.
  rewrite Hp. cbn. rewrite packed_offset_packed by done. rewrite load_bind. cbn.
  unfold sread, mbind, SM_bind. cbn. destruct (insert_into_word _ _ _ _); [apply store_put|done].
Qed.
End primitive.

Global Instance uint_lawful n (Hn : 1 ≤ n ≤ 32) : LawfulStorable (uint n) := primitive_lawful (A := uint n) (n := n) eq_refl eq_refl.
Global Instance sint_lawful n (Hn : 1 ≤ n ≤ 32) : LawfulStorable (sint n) := primitive_lawful (A := sint n) (n := n) eq_refl eq_refl.
Global Instance fbytes_lawful n (Hn : (1 ≤ n ≤ 32)%nat) : LawfulStorable (fbytes n) :=
  primitive_lawful (A := fbytes n) (n := Z.of_nat n) eq_refl eq_refl.
Global Instance bool_lawful : LawfulStorable bool := primitive_lawful (A := bool) (n := 1) eq_refl eq_refl.
Global Instance address_lawful : LawfulStorable address := primitive_lawful (A := address) (n := 20) eq_refl eq_refl.

(** ** Unit enums are lawful

    The macro accepts at most 256 variants; Rust gives each a position of its own. *)
Class UnitEnumLaws (E : Type) `{UnitEnum E} := {
  variants_complete (v : E) : v ∈ variants;
  variants_NoDup : NoDup (variants : list E);
  variants_bound : (length (variants : list E) ≤ 256)%nat;
}.

Section enums.
Context {E : Type} `{UnitEnumLaws E}.

Lemma discriminant_lookup (v : E) : variants !! Z.to_nat (discriminant v) = Some v ∧ 0 ≤ discriminant v ≤ UMAX 1.
Proof.
  unfold discriminant. destruct (list_find_elem_of (v =.) variants v) as [[i x] Hi]; [apply variants_complete|done|].
  rewrite Hi. cbn. apply list_find_Some in Hi as (Hl & <- & _). rewrite Nat2Z.id. split; [done|].
  apply lookup_lt_Some in Hl. pose proof variants_bound. unfold UMAX. lia.
Qed.

Program Definition enum_lawful : LawfulStorable E :=
  @Build_LawfulStorable E enum_type enum_storable (λ _ _, True)
    (λ slot ctx v, extent_of slot ctx (UInt (discriminant v) : uint 1)) _ _ _ _ _ _ _ _.
Next Obligation. cbn. lia. Qed.
Next Obligation.
  intros S ops Hlaw s slot ctx v Hs Hslot _ Hctx. destruct (discriminant_lookup v) as [Hlk Hr].
  destruct (law_store (A := uint 1) s slot ctx (UInt (discriminant v))) as (s' & Hst & Hs' & Hf & Hrest); [done..|].
  exists s'. split; [exact Hst|]. split; [done|]. split; [done|].
  intros s2 Hs2 Ha. destruct (Hrest s2 Hs2 Ha) as [Hl Hd]. split; [|exact Hd].
  cbn [load enum_storable]. rewrite Hl. cbn. by rewrite Hlk.
Qed.
Next Obligation. intros slot v Hslot _. exact (law_static slot (UInt (discriminant v) : uint 1) Hslot eq_refl). Qed.
Next Obligation. intros slot v Hslot. exact (law_covers slot (UInt (discriminant v) : uint 1) Hslot). Qed.
Next Obligation. intros slot o v _ Ho. exact (law_packed slot o (UInt (discriminant v) : uint 1) eq_refl Ho). Qed.
Next Obligation. done. Qed.
Next Obligation.
  intros S ops Hlaw s slot slot' o _ Ho. cbn [load enum_storable].
  by rewrite (law_word_load (A := uint 1) s slot slot' o) by done.
Qed.
Next Obligation.
  intros S ops Hlaw s slot o v _ Ho. by apply (law_word_store (A := uint 1) s slot o (UInt (discriminant v))).
Qed.
End enums.
Global Existing Instance enum_lawful | 10.

(** ** Stored values

    [holds s slot ctx v]: [v] is stored at the place, and stays so as long as its extent is not
    touched. *)
Section holds.
Context {S : Type} `{LawfulOps S} {A : Type} `{LawfulStorable A}.
Implicit Types (s : S) (v : A).

Definition holds s slot ctx v : Prop := ∀ s2, words s2 → agree (extent_of slot ctx v) s s2 →
  load s2 slot ctx = Ok v ∧
  ∃ s3, delete_at A slot ctx s2 = (Ok tt, s3) ∧ words s3 ∧
    frame (extent_of slot ctx v) s2 s3 ∧ cleared (extent_of slot ctx v) s3.

Lemma store_holds s slot ctx v :
  words s → 0 ≤ slot < 2 ^ 256 → placed slot v → ctx_ok A ctx →
  ∃ s', store v slot ctx s = (Ok tt, s') ∧ words s' ∧ frame (extent_of slot ctx v) s s' ∧ holds s' slot ctx v.
Proof. apply law_store. Qed.
Lemma holds_agree s s2 slot ctx v : holds s slot ctx v → agree (extent_of slot ctx v) s s2 → holds s2 slot ctx v.
Proof. intros Hh Ha s3 Hs3 Ha3. apply Hh; [done|]. by eapply agree_trans. Qed.
Lemma holds_frame s s2 slot ctx v R :
  holds s slot ctx v → frame R s s2 → disjoint_extents R (extent_of slot ctx v) → holds s2 slot ctx v.
Proof. intros Hh Hf Hd. eapply holds_agree; [done|]. by eapply frame_agree. Qed.
Lemma holds_load s slot ctx v : words s → holds s slot ctx v → load s slot ctx = Ok v.
Proof. intros Hs Hh. by apply (Hh s Hs), agree_refl. Qed.
End holds.
