(* ===== verification/StorageBytes.v ===== *)
(** * Byte strings in storage are lawful

    The encodings of [bytes_like.rs] decode to the string, and [Bytes] and [String] keep the
    promise of [LawfulStorable]: the base slot and, for a long string, the data slots of its
    chunks are its extent. *)
From Stdlib Require Import ZArith Lia.
From stdpp Require Import base tactics option list list_numbers fin_maps gmap.
From S2P Require Import Prelude Base StorageWords StorageTypes StorageLayout StorageLaws.
Open Scope Z_scope.

(** ** Lists *)
Lemma mapM_ok {E A B} (f : A → result E B) (g : A → B) (l : list A) :
  (∀ x, x ∈ l → f x = Ok (g x)) → mapM f l = Ok (g <$> l).
Proof.
  induction l as [|a l IH]; intros Hf; [done|]. cbn. rewrite Hf by left. cbn.
  rewrite IH; [done|]. intros x Hx. apply Hf. by right.
Qed.

Lemma concat_chunks {A} (k m : nat) (l : list A) :
  concat ((λ i, take k (drop (i * k) l)) <$> seq 0 m) = take (m * k) l.
Proof.
  induction m as [|m IH]; [done|]. rewrite seq_S, fmap_app, concat_app, IH. cbn.
  rewrite app_nil_r. replace (k + m * k)%nat with (m * k + k)%nat by lia. by rewrite take_take_drop.
Qed.

(** The same with the indices of a Rust range. *)
Lemma concat_chunksZ {A} (k : nat) (m : Z) (f : Z → list A) (l : list A) :
  (∀ i, 0 ≤ i < m → f i = take k (drop (Z.to_nat (i * Z.of_nat k)) l)) →
  concat (f <$> seqZ 0 m) = take (Z.to_nat m * k) l.
Proof.
  intros Hf. rewrite <- concat_chunks. unfold seqZ. rewrite <- list_fmap_compose. f_equal.
  apply list_fmap_ext. intros i j Hj. apply lookup_seq in Hj as [-> Hj]. cbn [compose].
  rewrite Hf by lia. do 2 f_equal. lia.
Qed.

Lemma bytes_ok_pad k l : bytes_ok l → bytes_ok (l ++ replicate k 0).
Proof. intros Hl. apply Forall_app. split; [done|]. apply Forall_replicate. lia. Qed.

Lemma bytes_value_word l : bytes_ok l → length l = 32%nat → 0 ≤ bytes_value l < 2 ^ 256.
Proof. intros Hl Hlen. apply bytes_value_range in Hl. by rewrite Hlen in Hl. Qed.

(** ** Encodings *)
Lemma low_bit x : Z.land x 1 = x mod 2.
Proof. apply (Z.land_ones x 1). lia. Qed.

Section short.
Context (l : list Z) (Hok : bytes_ok l) (Hlen : (length l ≤ 31)%nat).

Let padded := <[31%nat := (Z.of_nat (length l) * 2) mod 256]> (l ++ replicate (32 - length l) 0).

Lemma short_padded : bytes_ok padded ∧ length padded = 32%nat ∧ take (length l) padded = l ∧
  ∃ front, padded = front ++ [Z.of_nat (length l) * 2].
Proof.
  assert (length padded = 32%nat) as H32.
  { unfold padded. rewrite length_insert, length_app, length_replicate. lia. }
  split_and!; [|done| |].
  - apply Forall_insert; [by apply bytes_ok_pad|]. apply Z.mod_pos_bound. lia.
  - unfold padded. rewrite take_insert_ge by lia. by rewrite take_app_length.
  - exists (take 31 (l ++ replicate (32 - length l) 0)). unfold padded. rewrite Z.mod_small by lia.
    rewrite insert_take_drop by (rewrite length_app, length_replicate; lia).
    do 2 f_equal. apply nil_length_inv. rewrite length_drop, length_app, length_replicate. lia.
Qed.

Lemma encode_short_ok :
  0 ≤ encode_short_string l < 2 ^ 256 ∧ is_long_string (encode_short_string l) = false ∧
  calc_string_length (encode_short_string l) false = Ok (Z.of_nat (length l)) ∧
  take (length l) (be_bytes 32 (encode_short_string l)) = l.
Proof.
  destruct short_padded as (Hp & H32 & Htake & front & Hfront).
  assert (encode_short_string l mod 256 = Z.of_nat (length l) * 2) as Hmod.
  { change (encode_short_string l) with (bytes_value padded). rewrite Hfront, bytes_value_snoc.
    rewrite Z.add_comm, Z.mod_add, Z.mod_small; lia. }
  refine (conj (bytes_value_word _ Hp H32) (conj _ (conj _ _))).
  - unfold is_long_string. rewrite Hmod, low_bit, Z.mod_mul by lia. done.
  - unfold calc_string_length. rewrite Hmod, Z.div_mul by lia.
    by rewrite (proj2 (Z.leb_le (Z.of_nat (length l)) 31)) by lia.
  - change (encode_short_string l) with (bytes_value padded).
    pose proof (be_bytes_value _ Hp) as Hbe. rewrite H32 in Hbe. by rewrite Hbe.
Qed.
End short.

Lemma encode_long_ok n :
  0 ≤ n ≤ U32_MAX →
  0 ≤ encode_long_string_length n < 2 ^ 256 ∧ is_long_string (encode_long_string_length n) = true ∧
  calc_string_length (encode_long_string_length n) true = Ok n.
Proof.
  unfold U32_MAX. intros Hn.
  assert (encode_long_string_length n = n * 2 + 1) as Heq.
  { unfold encode_long_string_length. rewrite U256_wrap, Z.mod_small by lia. done. }
  rewrite Heq. refine (conj _ (conj _ _)); [lia| |].
  - unfold is_long_string. rewrite low_bit. change 256 with (2 * 128). rewrite Z.rem_mul_r by lia.
    rewrite (Z.add_comm _ 1), (Z.mul_comm n), (Z.mul_comm 2 n), Z.mod_add by lia. change (1 mod 2) with 1.
    rewrite Z.add_comm, (Z.mul_comm 2), Z.add_comm, Z.mod_add by lia. done.
  - unfold calc_string_length. replace (n * 2 + 1 - 1) with (n * 2) by lia.
    rewrite U256_wrap, Z.mod_small, Z.shiftr_div_pow2 by lia. change (2 ^ 1) with 2. rewrite Z.div_mul by lia.
    unfold U32_MAX. by rewrite (proj2 (Z.leb_le n _)) by lia.
Qed.

(** The chunks of a long string and their words. *)
Definition chunk_of (l : list Z) (i : Z) : list Z := take 32 (drop (Z.to_nat (i * 32)) l).
Definition chunk_word (l : list Z) (i : Z) : Z :=
  bytes_value (chunk_of l i ++ replicate (32 - length (chunk_of l i)) 0).

Lemma chunk_length l i : (length (chunk_of l i) = Nat.min 32 (length l - Z.to_nat (i * 32)))%nat.
Proof. unfold chunk_of. by rewrite length_take, length_drop. Qed.

Lemma chunk_word_ok l i : bytes_ok l →
  0 ≤ chunk_word l i < 2 ^ 256 ∧
  be_bytes 32 (chunk_word l i) = chunk_of l i ++ replicate (32 - length (chunk_of l i)) 0.
Proof.
  intros Hl. assert (bytes_ok (chunk_of l i)) as Hc by (by apply Forall_take, Forall_drop).
  pose proof (chunk_length l i) as Hlen.
  assert (length (chunk_of l i ++ replicate (32 - length (chunk_of l i)) 0) = 32%nat) as H32.
  { rewrite length_app, length_replicate. lia. }
  split; [by apply bytes_value_word; [apply bytes_ok_pad|]|].
  pose proof (be_bytes_value _ (bytes_ok_pad (32 - length (chunk_of l i)) _ Hc)) as Hbe. by rewrite H32 in Hbe.
Qed.

Lemma chunks_bounds n : 32 * (calc_chunks n - 1) < n ≤ 32 * calc_chunks n.
Proof. pose proof (div_ceil_spec n 32). unfold calc_chunks. lia. Qed.

(** ** Loads, stores and deletes *)
Section bytes_like.
Context `{Primitives}.

Definition data_slots (slot n : Z) : extent := slots_extent (calc_data_slot slot) (calc_chunks n).
Definition bytes_extent (slot : Z) (l : list Z) : extent := λ k i,
  k = slot ∨ 31 < Z.of_nat (length l) ∧ data_slots slot (Z.of_nat (length l)) k i.
Definition bytes_placed (slot : Z) (l : list Z) : Prop :=
  bytes_ok l ∧ Z.of_nat (length l) ≤ U32_MAX ∧
  (31 < Z.of_nat (length l) → ¬ data_slots slot (Z.of_nat (length l)) slot 0).

Section lawful.
Context {S : Type} `{LawfulOps S}.
Implicit Types (s : S).

(** The words of a stored string. *)
Definition bytes_stored s slot (l : list Z) : Prop :=
  if Z.of_nat (length l) <=? 31 then cell s slot = encode_short_string l
  else cell s slot = encode_long_string_length (Z.of_nat (length l)) ∧
    ∀ i, 0 ≤ i < calc_chunks (Z.of_nat (length l)) → cell s (word_add (calc_data_slot slot) i) = chunk_word l i.

Lemma load_bytes_ok {T} s slot l (into : list Z → Result T) :
  bytes_placed slot l → bytes_stored s slot l → load_bytes_like s slot into = into l.
Proof.
  intros (Hok & Hmax & _) Hst. unfold load_bytes_like, bytes_stored in *. rewrite load_cell. cbn [mbind result_bind].
  destruct (Z.leb_spec (Z.of_nat (length l)) 31) as [Hs|Hs].
  - destruct (encode_short_ok l Hok ltac:(lia)) as (_ & Hl & Hc & Ht). rewrite Hst, Hl, Hc. cbn [mbind result_bind]. by rewrite Nat2Z.id, Ht.
  - destruct Hst as [Hb Hd]. destruct (encode_long_ok (Z.of_nat (length l)) ltac:(lia)) as (_ & Hl & Hc).
    rewrite Hb, Hl, Hc. cbn [mbind result_bind]. set (chunks := calc_chunks (Z.of_nat (length l))) in *.
    pose proof (chunks_bounds (Z.of_nat (length l))) as Hch. fold chunks in Hch.
    rewrite (mapM_ok _ (λ i, chunk_of l i)).
    + cbn. f_equal. rewrite (concat_chunksZ 32 _ _ l) by done. apply take_ge. lia.
    + intros i Hi%elem_of_seqZ. rewrite load_cell, Hd by lia. cbn [mbind result_bind]. f_equal.
      rewrite (proj2 (chunk_word_ok l i Hok)), take_app_length'; [done|]. rewrite chunk_length.
      destruct (Z.eqb_spec i (chunks - 1)); lia.
Qed.

Lemma store_bytes_ok s slot l :
  words s → bytes_placed slot l →
  ∃ s', store_bytes_like l slot s = (Ok tt, s') ∧ words s' ∧ frame (bytes_extent slot l) s s' ∧ bytes_stored s' slot l.
Proof.
  intros Hs (Hok & Hmax & Hsep). unfold store_bytes_like, bytes_stored, bytes_extent.
  destruct (Z.leb_spec (Z.of_nat (length l)) 31) as [Hle|Hgt].
  - exists (put slot (encode_short_string l) s). rewrite store_put.
    split_and!; [done|apply words_put; [done|apply encode_short_ok; [done|lia]]..| |].
    + apply (frame_weaken (λ k _, k = slot)); [apply frame_put|]. by left.
    + by rewrite cell_put, decide_True.
  - set (s1 := put slot (encode_long_string_length (Z.of_nat (length l))) s).
    assert (words s1) as Hs1 by (apply words_put; [done|]; apply encode_long_ok; lia).
    destruct (store_slots (seqZ 0 (calc_chunks (Z.of_nat (length l)))) (word_add (calc_data_slot slot)) (chunk_word l) s1)
      as (s' & Hrun & Hs' & Hin & Hout); [done|intros; by apply chunk_word_ok| |].
    { pose proof (chunks_bounds (Z.of_nat (length l))). unfold U32_MAX in *.
      intros j j' Hj%elem_of_seqZ Hj'%elem_of_seqZ Heq. f_equal. revert Heq. apply word_add_inj; lia. }
    exists s'. split; [by rewrite store_bind|]. split; [done|]. split.
    + intros k i Hi Hk. unfold bit. rewrite Hout.
      * unfold s1. rewrite cell_put, decide_False by naive_solver. done.
      * intros j Hj%elem_of_seqZ ->. apply Hk. right. split; [done|]. exists j. split; [lia|done].
    + split.
      * rewrite Hout; [unfold s1; by rewrite cell_put, decide_True|].
        intros j Hj%elem_of_seqZ Heq. apply (Hsep Hgt). exists j. split; [lia|done].
      * intros i Hi. apply Hin. apply elem_of_seqZ. lia.
Qed.

Lemma delete_bytes_ok s slot l :
  words s → bytes_placed slot l → bytes_stored s slot l →
  ∃ s', delete_bytes_like slot s = (Ok tt, s') ∧ words s' ∧
    frame (bytes_extent slot l) s s' ∧ cleared (bytes_extent slot l) s'.
Proof.
  intros Hs (Hok & Hmax & Hsep) Hst. unfold delete_bytes_like, bytes_stored, bytes_extent in *.
  rewrite load_bind. destruct (Z.leb_spec (Z.of_nat (length l)) 31) as [Hle|Hgt].
  - destruct (encode_short_ok l Hok ltac:(lia)) as (_ & Hl & _ & _). rewrite Hst, Hl.
    exists (put slot 0 s). split; [apply store_put|]. split; [by apply words_put|]. split.
    + apply (frame_weaken (λ k _, k = slot)); [apply frame_put|]. by left.
    + intros k i Hi [->|[? _]]; [|lia]. rewrite bit_put, decide_True by done. apply Z.bits_0.
  - destruct Hst as [Hb _]. destruct (encode_long_ok (Z.of_nat (length l)) ltac:(lia)) as (_ & Hl & Hc). rewrite Hb, Hl.
    destruct (clear_slots (seqZ 0 (calc_chunks (Z.of_nat (length l)))) (word_add (calc_data_slot slot)) s Hs)
      as (s1 & Hrun & Hs1 & Hf & Hcl).
    exists (put slot 0 s1). split.
    { erewrite sbind_ok; [apply store_put|]. rewrite (pure_bind _ _ _ _ Hc). exact Hrun. }
    split; [by apply words_put|]. split.
    + intros k i Hi Hk. rewrite bit_put, decide_False by naive_solver. apply Hf; [done|].
      intros (j & Hj%elem_of_seqZ & ->). apply Hk. right. split; [done|]. exists j. split; [lia|done].
    + intros k i Hi Hk. rewrite bit_put. case_decide; [apply Z.bits_0|].
      destruct Hk as [->|[_ (j & Hj & ->)]]; [done|]. apply Hcl; [done|]. exists j. rewrite elem_of_seqZ. split; [lia|done].
Qed.

Lemma bytes_stored_agree s s2 slot l :
  bytes_stored s slot l → agree (bytes_extent slot l) s s2 → bytes_stored s2 slot l.
Proof.
  unfold bytes_stored. intros Hst Ha.
  assert (cell s2 slot = cell s slot) as Hbase.
  { apply cell_agree. eapply agree_weaken; [exact Ha|]. intros k i _ ->. by left. }
  destruct (Z.leb_spec (Z.of_nat (length l)) 31) as [Hle|Hgt]; [by rewrite Hbase|].
  destruct Hst as [Hb Hd]. split; [by rewrite Hbase|]. intros j Hj. rewrite <- Hd by done. apply cell_agree.
  eapply agree_weaken; [exact Ha|]. intros k i _ ->. right. split; [done|]. by exists j.
Qed.
End lawful.

Program Definition bytes_lawful : LawfulStorable Bytes_ :=
  @Build_LawfulStorable Bytes_ bytes_type bytes_storable (λ slot v, bytes_placed slot (bytes_val v))
    (λ slot _ v, bytes_extent slot (bytes_val v)) _ _ _ _ _ _ _ _.
Next Obligation. cbn. lia. Qed.
Next Obligation.
  intros S ops Hlaw s slot ctx [l] Hs _ Hp _. destruct (store_bytes_ok s slot l Hs Hp) as (s' & Hrun & Hs' & Hf & Hst).
  exists s'. split; [done|]. split; [done|]. split; [done|]. intros s2 Hs2 Ha.
  assert (bytes_stored s2 slot l) as Hst2 by (by eapply bytes_stored_agree).
  split; [exact (load_bytes_ok _ _ _ _ Hp Hst2)|exact (delete_bytes_ok _ _ _ Hs2 Hp Hst2)].
Qed.
Next Obligation. done. Qed.
Next Obligation. intros slot v Hslot k i (j & Hj & ->). left. replace j with 0 by (cbn in Hj; lia). by apply word_add_0. Qed.
Solve Obligations with done.

Program Definition string_lawful : LawfulStorable String_ :=
  @Build_LawfulStorable String_ string_type string_storable
    (λ slot v, bytes_placed slot (string_val v) ∧ is_utf8 (string_val v) = true)
    (λ slot _ v, bytes_extent slot (string_val v)) _ _ _ _ _ _ _ _.
Next Obligation. cbn. lia. Qed.
Next Obligation.
  intros S ops Hlaw s slot ctx [l] Hs _ [Hp Hu] _. destruct (store_bytes_ok s slot l Hs Hp) as (s' & Hrun & Hs' & Hf & Hst).
  exists s'. split; [done|]. split; [done|]. split; [done|]. intros s2 Hs2 Ha.
  assert (bytes_stored s2 slot l) as Hst2 by (by eapply bytes_stored_agree).
  split; [|exact (delete_bytes_ok _ _ _ Hs2 Hp Hst2)].
  cbn [load string_storable]. rewrite (load_bytes_ok _ _ _ _ Hp Hst2). by rewrite Hu.
Qed.
Next Obligation. done. Qed.
Next Obligation. intros slot v Hslot k i (j & Hj & ->). left. replace j with 0 by (cbn in Hj; lia). by apply word_add_0. Qed.
Solve Obligations with done.

(** ** The contract of byte strings *)

(** A byte string of any length up to [u32::MAX] that is stored reads back as the same bytes
    and its length can be read from the base slot alone; the write touches only the base slot
    and the slots of its 32-byte chunks, and deleting the string sets all of these to
    zero and touches no other slot; provided the hashed data slots do not hit the base slot. *)
Theorem bytes_store_load_delete {S} `{LawfulOps S} (s : S) (slot : Z) (l : list Z) :
  words s → bytes_ok l → Z.of_nat (length l) ≤ U32_MAX →
  (∀ j, 0 ≤ j < calc_chunks (Z.of_nat (length l)) → word_add (calc_data_slot slot) j ≠ slot) →
  let touched k := k = slot ∨ 31 < Z.of_nat (length l) ∧
    ∃ j, 0 ≤ j < calc_chunks (Z.of_nat (length l)) ∧ k = word_add (calc_data_slot slot) j in
  ∃ s', store (MkBytes l) slot FULL s = (Ok tt, s') ∧
    load s' slot FULL = Ok (MkBytes l) ∧ bytes_len s' slot = Ok (Z.of_nat (length l)) ∧
    (∀ k, ¬ touched k → cell s' k = cell s k) ∧
    ∃ s2, delete_at Bytes_ slot FULL s' = (Ok tt, s2) ∧
      (∀ k, touched k → cell s2 k = 0) ∧ (∀ k, ¬ touched k → cell s2 k = cell s k).
Proof.
  intros Hs Hok Hmax Hsep touched.
  assert (bytes_placed slot l) as Hp by (split_and!; [done..|]; intros _ (j & Hj & Heq); by eapply Hsep).
  destruct (store_bytes_ok s slot l Hs Hp) as (s' & Hrun & Hs' & Hf & Hst).
  destruct (delete_bytes_ok s' slot l Hs' Hp Hst) as (s2 & Hrun2 & Hs2 & Hf2 & Hc2).
  exists s'. split; [done|]. split; [by apply (load_bytes_ok s' slot l)|]. split.
  { unfold bytes_len. rewrite load_cell. cbn [mbind result_bind]. unfold bytes_stored in Hst.
    destruct (Z.leb_spec (Z.of_nat (length l)) 31) as [Hle|Hgt].
    - destruct (encode_short_ok l Hok ltac:(lia)) as (_ & Hl & Hc & _). by rewrite Hst, Hl, Hc.
    - destruct Hst as [Hb _]. destruct (encode_long_ok (Z.of_nat (length l)) ltac:(lia)) as (_ & Hl & Hc).
      by rewrite Hb, Hl, Hc. }
  assert (∀ k, ¬ touched k → cell s' k = cell s k) as Hframe.
  { intros k Hk. apply Z.bits_inj'. intros i Hi. by apply Hf. }
  split; [done|]. exists s2. split; [done|]. split.
  - intros k Hk. apply Z.bits_inj'. intros i Hi. rewrite Z.bits_0. by apply Hc2.
  - intros k Hk. rewrite <- Hframe by done. apply Z.bits_inj'. intros i Hi. by apply Hf2.
Qed.
End bytes_like.
Global Existing Instances bytes_lawful string_lawful.
