(* ===== verification/StorageStructs.v ===== *)
(** * Structs in storage

    The layout computed for a struct keeps its fields apart, and the batched [load], [store] and
    [delete] generated for it are those of its fields one by one: structs are lawful
    ([LawfulStorable]) when their fields are. *)
From Stdlib Require Import ZArith Lia.
From stdpp Require Import base tactics option list list_numbers fin_maps gmap.
From S2P Require Import Prelude Base StorageWords StorageTypes StorageLayout StorageLaws.
Open Scope Z_scope.

(** ** The layout of fields without attributes *)
Definition loc_ok (l : Layout) (c : Z * Z) : Prop :=
  layout_ok l ∧ 0 ≤ c.1 ∧ c.1 + slots l ≤ 2 ^ 256 ∧ 0 ≤ c.2 ∧
  match l with Bytes n => c.2 + n ≤ 32 | Slots _ => c.2 = 0 end.

(** Places as numbers of bytes from slot 0. *)
Definition loc_start (c : Z * Z) : Z := 32 * c.1 + c.2.
Definition loc_end (l : Layout) (c : Z * Z) : Z := loc_start c + bytes l.

(** The next field shares the slot or starts behind the previous one. *)
Definition follows (p : Layout) (pc : Z * Z) (l : Layout) (c : Z * Z) : Prop :=
  c.1 = pc.1 ∧ c.2 = pc.2 + bytes p ∧ c.2 + bytes l ≤ 32 ∨ c.1 = pc.1 + slots p ∧ c.2 = 0.

Fixpoint chained (p : Layout) (pc : Z * Z) (ls : list Layout) (cs : list (Z * Z)) : Prop :=
  match ls, cs with
  | [], [] => True
  | l :: ls, c :: cs => follows p pc l c ∧ loc_ok l c ∧ chained l c ls cs
  | _, _ => False
  end.

Lemma fitting_slot_ok l slot s :
  layout_ok l → 0 ≤ slot → fitting_slot l slot = Some s → s = slot ∧ slot + slots l ≤ 2 ^ 256.
Proof.
  intros Hl Hs. unfold fitting_slot, saturating_sub.
  assert (1 ≤ slots l) by (destruct l; cbn in *; lia).
  destruct (checked_add _ _ _) as [e|] eqn:He; [|done]. cbn. intros [= <-].
  apply checked_add_Some in He as [-> He]. unfold U256_MAX in He. lia.
Qed.

Lemma bytes_slots l : layout_ok l → 1 ≤ bytes l ∧ bytes l ≤ 32 * slots l ∧ 1 ≤ slots l ∧ (is_packable l = false → bytes l = 32 * slots l).
Proof. destruct l as [n|n]; cbn [bytes slots is_packable layout_ok]; intros; repeat split; intros; lia. Qed.

Lemma packing_follows p pc l c :
  layout_ok p → layout_ok l → loc_ok p pc → gen_slot_packing_logic p l pc.1 pc.2 = Some c →
  follows p pc l c ∧ loc_ok l c.
Proof.
  intros Hp Hl (_ & Hp1 & Hp2 & Hp3 & Hp4). unfold gen_slot_packing_logic, can_pack.
  pose proof (bytes_slots p Hp) as (Hbp & Hbp' & Hsp & _). pose proof (bytes_slots l Hl) as (Hbl & _ & Hsl & _).
  destruct (Z.leb_spec (pc.2 + bytes p + bytes l) 32) as [Hle|Hgt].
  - intros [= <-]. unfold follows, loc_ok. destruct p, l; cbn [fst snd bytes slots layout_ok] in *; lia.
  - destruct (checked_add _ _ _) as [next|] eqn:Hn; [|done]. cbn. apply checked_add_Some in Hn as [-> Hn].
    destruct (fitting_slot l _) as [s|] eqn:Hs; [|done]. cbn. intros [= <-].
    apply fitting_slot_ok in Hs as [-> Hs]; [|done|lia]. unfold follows, loc_ok.
    destruct l; cbn [fst snd bytes slots layout_ok] in *; lia.
Qed.

Definition autos (ls : list Layout) : list LayoutField := map (λ l, mkLayoutField l (Auto 0)) ls.

Lemma allocate_autos ls : allocate_slots (map (λ l, mkFieldInfo l None None) ls) = autos ls.
Proof. unfold allocate_slots. induction ls as [|l ls IH]; [done|]. cbn. by rewrite IH. Qed.

Lemma constants_chained p pc ls cs :
  layout_ok p → loc_ok p pc → Forall layout_ok ls →
  gen_constants_from (Some (mkLayoutField p (Auto 0), pc)) (autos ls) = Some cs → chained p pc ls cs.
Proof.
  revert p pc cs. induction ls as [|l ls IH]; intros p pc cs Hp Hpc Hls; cbn; [by intros [= <-]|].
  apply Forall_cons in Hls as [Hl Hls]. destruct pc as [ps po].
  destruct (gen_slot_packing_logic _ _ _ _) as [c|] eqn:Hc; [|done]. cbn.
  destruct (gen_constants_from _ _) as [rest|] eqn:Hr; [|done]. cbn. intros [= <-].
  destruct (packing_follows p (ps, po) l c Hp Hl Hpc Hc) as [Hf Hok]. split; [done|]. split; [done|].
  by apply IH.
Qed.

(** The first field is at slot 0, the others follow it. *)
Lemma struct_chained l ls cs :
  Forall layout_ok (l :: ls) → gen_constants_from_ir (autos (l :: ls)) = Some cs →
  ∃ cs', cs = (0, 0) :: cs' ∧ loc_ok l (0, 0) ∧ chained l (0, 0) ls cs'.
Proof.
  intros [Hl Hls]%Forall_cons. unfold gen_constants_from_ir. cbn.
  destruct (fitting_slot l 0) as [s|] eqn:Hs; [|done]. cbn. apply fitting_slot_ok in Hs as [-> Hs]; [|done|lia].
  assert (loc_ok l (0, 0)) as Hok by (unfold loc_ok; destruct l; cbn [fst snd bytes slots layout_ok] in *; lia).
  destruct (gen_constants_from _ _) as [rest|] eqn:Hr; [|done]. cbn. intros [= <-].
  exists rest. split; [done|]. split; [done|]. by apply constants_chained in Hr.
Qed.

Lemma follows_end p pc l c : loc_ok p pc → loc_ok l c → follows p pc l c → loc_end p pc ≤ loc_start c.
Proof.
  intros (Hp & H1 & H2 & H3 & H4) (Hl & H1' & H2' & H3' & H4'). unfold follows, loc_end, loc_start.
  pose proof (bytes_slots p Hp). destruct p; cbn in *; lia.
Qed.

Lemma chained_length p pc ls cs : chained p pc ls cs → length cs = length ls.
Proof. revert p pc cs. induction ls as [|l ls IH]; intros p pc [|c cs]; cbn; try done. intros (_ & _ & Hch). f_equal. eauto. Qed.

(** Every field behind the first one starts behind its end. *)
Lemma chained_behind p pc ls cs i l c :
  loc_ok p pc → chained p pc ls cs → ls !! i = Some l → cs !! i = Some c → loc_ok l c ∧ loc_end p pc ≤ loc_start c.
Proof.
  revert p pc cs i. induction ls as [|l0 ls IH]; intros p pc [|c0 cs] i Hp Hch Hl Hc; try done.
  destruct Hch as (Hf & Hok & Hch). pose proof (follows_end _ _ _ _ Hp Hok Hf) as Hle.
  destruct i as [|i]; cbn in Hl, Hc; [by simplify_eq|].
  destruct (IH _ _ _ _ Hok Hch Hl Hc) as [Hok' Hle']. split; [done|].
  pose proof (bytes_slots l0 (proj1 Hok)). unfold loc_end in *. lia.
Qed.

Lemma chained_ordered p pc ls cs i j li lj ci cj :
  loc_ok p pc → chained p pc ls cs → (i < j)%nat →
  ls !! i = Some li → cs !! i = Some ci → ls !! j = Some lj → cs !! j = Some cj →
  loc_end li ci ≤ loc_start cj.
Proof.
  revert p pc cs i j. induction ls as [|l0 ls IH]; intros p pc [|c0 cs] i j Hp Hch Hij Hli Hci Hlj Hcj; try done.
  destruct Hch as (Hf & Hok & Hch). destruct j as [|j]; [lia|]. destruct i as [|i]; cbn in *.
  - simplify_eq. by eapply chained_behind.
  - eapply (IH _ _ _ i j); eauto. lia.
Qed.

(** Ordered fields pass the collision check, both ways. *)
Lemma ordered_no_overlap l c l' c' :
  loc_ok l c → loc_ok l' c' → loc_end l c ≤ loc_start c' → c'.1 + slots l' < 2 ^ 256 → c.1 + slots l < 2 ^ 256 →
  no_overlap l c l' c' = Some true ∧ no_overlap l' c' l c = Some true.
Proof.
  destruct c as [s o], c' as [s' o']. intros (Hl & H1 & H2 & H3 & H4) (Hl' & H1' & H2' & H3' & H4').
  unfold loc_end, loc_start, no_overlap, checked_add, U256_MAX. cbn in *. intros Hord Hb' Hb.
  pose proof (bytes_slots l Hl). pose proof (bytes_slots l' Hl').
  rewrite (proj2 (Z.leb_le (s + slots l) _)), (proj2 (Z.leb_le (s' + slots l') _)) by lia. cbn.
  destruct (Z.eqb_spec s s'), (Z.eqb_spec s' s); try lia.
  - rewrite (proj2 (Z.leb_le (o + bytes l) o')) by lia. by rewrite orb_true_r.
  - assert (s + slots l ≤ s') by (destruct l, l'; cbn in *; lia).
    rewrite (proj2 (Z.leb_le (s + slots l) s')) by lia. by rewrite orb_true_r.
Qed.

(** *** All fields of a struct *)
Section layout.
Context (ls : list Layout) (cs : list (Z * Z)).
Hypotheses (Hls : Forall layout_ok ls) (Hcs : gen_constants_from_ir (autos ls) = Some cs).

Lemma struct_length : length cs = length ls.
Proof.
  destruct ls as [|l ls']; [by injection Hcs as <-|].
  destruct (struct_chained _ _ _ Hls Hcs) as (cs' & -> & _ & Hch). cbn. f_equal. by eapply chained_length.
Qed.

Lemma struct_loc_ok i l c : ls !! i = Some l → cs !! i = Some c → loc_ok l c.
Proof.
  intros Hl Hc. destruct ls as [|l0 ls']; [done|].
  destruct (struct_chained _ _ _ Hls Hcs) as (cs' & -> & Hok & Hch).
  destruct i as [|i]; cbn in *; [by simplify_eq|]. by eapply chained_behind.
Qed.

Lemma struct_ordered i j li lj ci cj :
  (i < j)%nat → ls !! i = Some li → cs !! i = Some ci → ls !! j = Some lj → cs !! j = Some cj →
  loc_end li ci ≤ loc_start cj.
Proof.
  intros Hij Hli Hci Hlj Hcj. destruct ls as [|l0 ls']; [done|].
  destruct (struct_chained _ _ _ Hls Hcs) as (cs' & -> & Hok & Hch).
  destruct j as [|j]; [lia|]. destruct i as [|i]; cbn in *.
  - simplify_eq. by eapply chained_behind.
  - eapply chained_ordered; [exact Hok|exact Hch| |done..]. lia.
Qed.

(** No field ends behind the last one. *)
Lemma struct_last_end i l c ll cl :
  ls !! i = Some l → cs !! i = Some c → last ls = Some ll → last cs = Some cl → c.1 + slots l ≤ cl.1 + slots ll.
Proof.
  intros Hl Hc Hll Hcl. rewrite last_lookup in Hll. rewrite last_lookup, struct_length in Hcl.
  destruct (decide (i = pred (length ls))) as [->|Hi]; [by simplify_eq|].
  assert (i < pred (length ls))%nat as Hlt by (apply lookup_lt_Some in Hl; lia).
  pose proof (struct_ordered _ _ _ _ _ _ Hlt Hl Hc Hll Hcl) as Hord.
  pose proof (struct_loc_ok _ _ _ Hl Hc) as (Hok & H1 & H2 & H3 & H4).
  pose proof (struct_loc_ok _ _ _ Hll Hcl) as (Hok' & H1' & H2' & H3' & H4').
  unfold loc_end, loc_start in Hord. destruct l, ll; cbn [bytes slots layout_ok] in *; lia.
Qed.
End layout.

(** The layout of a struct keeps its fields apart, for any list of field types: every
    field gets a place, a packed field lies inside one slot and any other starts a slot, no
    two fields share a byte (the generated collision check accepts every pair), and all lie
    within the slots the struct takes. *)
Theorem struct_fields_apart (ls : list Layout) (cs : list (Z * Z)) (ll : Layout) (cl : Z * Z) :
  Forall layout_ok ls →
  gen_constants_from_ir (allocate_slots (map (λ l, mkFieldInfo l None None) ls)) = Some cs →
  last ls = Some ll → last cs = Some cl → cl.1 + slots ll < 2 ^ 64 →
  length cs = length ls ∧
  (∀ i l c, ls !! i = Some l → cs !! i = Some c →
    0 ≤ c.1 ∧ c.1 + slots l ≤ slot_count_of ls cs ∧ 0 ≤ c.2 ∧ (if is_packable l then c.2 + bytes l ≤ 32 else c.2 = 0)) ∧
  (∀ i j li lj ci cj, i ≠ j → ls !! i = Some li → cs !! i = Some ci → ls !! j = Some lj → cs !! j = Some cj →
    no_overlap li ci lj cj = Some true).
Proof.
  rewrite allocate_autos. intros Hls Hcs Hll Hcl Hfit. split; [by apply struct_length|]. split.
  - intros i l c Hl Hc. pose proof (struct_loc_ok _ _ Hls Hcs _ _ _ Hl Hc) as (Hok & H1 & H2 & H3 & H4).
    pose proof (struct_last_end _ _ Hls Hcs _ _ _ _ _ Hl Hc Hll Hcl) as Hend.
    unfold slot_count_of, saturating_add. rewrite Hll, Hcl. destruct cl as [sl ol]. cbn [fst snd] in *.
    assert (0 ≤ slots l) by (destruct l; cbn [slots layout_ok] in *; lia).
    rewrite Z.min_r, Z.mod_small by (unfold U256_MAX; lia).
    split; [done|]. split; [done|]. split; [done|]. destruct l as [n|n]; cbn in *; [|done].
    destruct (Z.ltb_spec n 32); lia.
  - intros i j li lj ci cj Hij Hli Hci Hlj Hcj.
    pose proof (struct_loc_ok _ _ Hls Hcs _ _ _ Hli Hci) as Hoki.
    pose proof (struct_loc_ok _ _ Hls Hcs _ _ _ Hlj Hcj) as Hokj.
    pose proof (struct_last_end _ _ Hls Hcs _ _ _ _ _ Hli Hci Hll Hcl) as Hei.
    pose proof (struct_last_end _ _ Hls Hcs _ _ _ _ _ Hlj Hcj Hll Hcl) as Hej.
    destruct (decide (i < j)%nat).
    + refine (proj1 (ordered_no_overlap _ _ _ _ Hoki Hokj _ _ _)); [|lia..]. by apply (struct_ordered ls cs Hls Hcs i j li lj).
    + refine (proj2 (ordered_no_overlap _ _ _ _ Hokj Hoki _ _ _)); [|lia..]. apply (struct_ordered ls cs Hls Hcs j i lj li); [lia|done..].
Qed.

(** The documented example [RewardStream]: [Address], [u64], [u64], [U256], [U256]. *)
Lemma struct_fields_apart_witness :
  gen_constants_from_ir (allocate_slots (map (λ l, mkFieldInfo l None None) [Bytes 20; Bytes 8; Bytes 8; Bytes 32; Bytes 32]))
    = Some [(0, 0); (0, 20); (1, 0); (2, 0); (3, 0)] ∧
  no_overlap (Bytes 20) (0, 0) (Bytes 8) (0, 20) = Some true.
Proof.
  split; [vm_compute; reflexivity|].
  destruct (struct_fields_apart [Bytes 20; Bytes 8; Bytes 8; Bytes 32; Bytes 32]
    [(0, 0); (0, 20); (1, 0); (2, 0); (3, 0)] (Bytes 32) (3, 0)) as (_ & _ & Happart).
  - repeat (apply Forall_cons; split; [cbn; lia|]). constructor.
  - vm_compute. reflexivity.
  - reflexivity.
  - reflexivity.
  - cbn. lia.
  - by apply (Happart 0%nat 1%nat).
Defined.

(** ** Lawful fields

    The located fields of a struct, each with its laws. *)
Inductive lfields : Type → Type :=
| lfnil : lfields unit
| lfcons {A B : Type} `{LawfulStorable A} (loc : FieldLocation) (rest : lfields B) : lfields (A * B).

Fixpoint erase {B} (fs : lfields B) : located B :=
  match fs with
  | lfnil => lnil
  | lfcons loc rest => lcons loc (erase rest)
  end.

(** The fields are in order, from byte [floor] on. *)
Fixpoint well_located {B} (floor : Z) (fs : lfields B) : Prop :=
  match fs with
  | lfnil => True
  | @lfcons A _ _ _ _ loc rest =>
      let c := (offset_slots loc, offset_bytes loc) in
      loc_ok (LAYOUT A) c ∧ offset_slots loc + SLOTS A ≤ 2 ^ 64 ∧ floor ≤ loc_start c ∧
      well_located (loc_end (LAYOUT A) c) rest
  end.

Definition field_ctx A `{StorableType A} (loc : FieldLocation) : LayoutCtx :=
  if IS_PACKABLE A then packed (offset_bytes loc) else FULL.

Section fieldwise.
Context (base : Z).

Definition field_slot (loc : FieldLocation) : Z := word_add base (offset_slots loc).

Section run.
Context {S : Type} `{LawfulOps S}.

(** Field by field, as the handlers of the fields do. *)
Fixpoint seq_store {B} (fs : lfields B) : B → SM S unit :=
  match fs with
  | lfnil => λ _, mret tt
  | @lfcons A _ _ _ _ loc rest => λ '(v, vs),
      store v (field_slot loc) (field_ctx A loc);; seq_store rest vs
  end.
Fixpoint seq_load {B} (fs : lfields B) (s : S) : Result B :=
  match fs with
  | lfnil => Ok tt
  | @lfcons A _ _ _ _ loc rest =>
      v ← load s (field_slot loc) (field_ctx A loc);
      vs ← seq_load rest s;
      Ok (v, vs)
  end.
End run.

Fixpoint fields_placed {B} (fs : lfields B) : B → Prop :=
  match fs with
  | lfnil => λ _, True
  | lfcons loc rest => λ '(v, vs), placed (field_slot loc) v ∧ fields_placed rest vs
  end.
Fixpoint fields_extent {B} (fs : lfields B) : B → extent :=
  match fs with
  | lfnil => λ _ _ _, False
  | @lfcons A _ _ _ _ loc rest => λ '(v, vs) k i,
      extent_of (field_slot loc) (field_ctx A loc) v k i ∨ fields_extent rest vs k i
  end.
Fixpoint separated {B} (fs : lfields B) : B → Prop :=
  match fs with
  | lfnil => λ _, True
  | @lfcons A _ _ _ _ loc rest => λ '(v, vs),
      disjoint_extents (extent_of (field_slot loc) (field_ctx A loc) v) (fields_extent rest vs) ∧ separated rest vs
  end.

Lemma field_slot_range loc : 0 ≤ field_slot loc < 2 ^ 256.
Proof. apply word_add_range. Qed.

Lemma loc_offset {A} `{LawfulStorable A} loc :
  loc_ok (LAYOUT A) (offset_slots loc, offset_bytes loc) →
  0 ≤ offset_bytes loc < 32 ∧ offset_bytes loc ≠ FULL ∧
  (if IS_PACKABLE A then offset_bytes loc + BYTES A ≤ 32
   else offset_bytes loc = 0 ∧ BYTES A = 32 * SLOTS A ∧ 1 ≤ SLOTS A).
Proof.
  intros (Hl & _ & _ & H3 & H4). unfold IS_PACKABLE, BYTES, SLOTS, FULL, U64_MAX. cbn [fst snd] in *.
  destruct (LAYOUT A) as [n|n]; cbn [is_packable bytes slots layout_ok] in *.
  - destruct (Z.ltb_spec n 32); lia.
  - lia.
Qed.

Lemma field_ctx_ok {A} `{LawfulStorable A} loc :
  loc_ok (LAYOUT A) (offset_slots loc, offset_bytes loc) → ctx_ok A (field_ctx A loc).
Proof.
  intros Hok. destruct (loc_offset _ Hok) as (Ho & HoF & Hp). unfold ctx_ok, field_ctx.
  destruct (IS_PACKABLE A) eqn:Hpk; [|by rewrite packed_offset_FULL].
  rewrite packed_offset_packed by done. lia.
Qed.

(** A field behind a non-packable one, or in a later slot, does not share its slot. *)
Lemma next_slot_new {B} (fs : lfields B) floor ps : well_located floor fs → 32 * (ps + 1) ≤ floor →
  next_loc (erase fs) ≠ Some (ps, true).
Proof.
  intros Hwl Hf. destruct fs as [|A B ? ? ? loc rest]; [done|]. cbn. intros [= <- Hp].
  destruct Hwl as (Hok & _ & Hfl & _). destruct (loc_offset _ Hok) as (Ho & _). unfold loc_start in Hfl. cbn in Hfl. lia.
Qed.

(** ** The generated load *)
Lemma gen_load_seq {S} `{LawfulOps S} {B} (fs : lfields B) floor prev cached (s : S) :
  well_located floor fs →
  (∀ ps, prev = Some ps → 32 * (ps + 1) ≤ floor ∨ cached = cell s (word_add base ps)) →
  gen_load base (erase fs) prev cached s = seq_load fs s.
Proof.
  revert floor prev cached. induction fs as [|A B ? ? ? loc rest IH]; intros floor prev cached Hwl Hcache; [done|].
  destruct Hwl as (Hok & _ & Hfl & Hrest). destruct (loc_offset _ Hok) as (Ho & HoF & Hp).
  cbn [gen_load erase seq_load]. unfold field_ctx, field_slot in *.
  destruct (IS_PACKABLE A) eqn:Hpk; cbn [andb].
  - rewrite (law_word_load s _ 0 _ Hpk HoF), load_cell. case_bool_decide as Hprev.
    + destruct (Hcache _ Hprev) as [Hnew| ->]; [unfold loc_start in Hfl; cbn in Hfl; lia|].
      destruct (load _ 0 _) as [v|e]; [|done]. cbn. rewrite (IH _ _ _ Hrest); [done|]. intros ps [= <-]. by right.
    + cbn. destruct (load _ 0 _) as [v|e]; [|done]. cbn. rewrite (IH _ _ _ Hrest); [done|]. intros ps [= <-]. by right.
  - destruct (load s _ FULL) as [v|e]; [|done]. cbn. rewrite (IH _ _ _ Hrest); [done|]. intros ps [= <-]. left.
    unfold loc_end, loc_start. cbn. unfold BYTES in Hp. lia.
Qed.

(** ** The generated store *)
Definition flush {S} `{LawfulOps S} (pending : option Z) (val : Z) (s : S) : S :=
  match pending with
  | Some o => put (word_add base o) val s
  | None => s
  end.

Lemma field_store_ok {S} `{LawfulOps S} {A} `{LawfulStorable A} loc (v : A) (s : S) :
  loc_ok (LAYOUT A) (offset_slots loc, offset_bytes loc) → words s → placed (field_slot loc) v →
  ∃ s', store v (field_slot loc) (field_ctx A loc) s = (Ok tt, s') ∧ words s'.
Proof.
  intros Hok Hs Hp. destruct (law_store s (field_slot loc) (field_ctx A loc) v) as (s' & Hrun & Hs' & _);
    [done|apply field_slot_range|done|by apply field_ctx_ok|eauto].
Qed.

(** For a packable field the same write through a word in memory. *)
Lemma field_store_word {S} `{LawfulOps S} {A} `{LawfulStorable A} loc (v : A) (s s' : S) :
  IS_PACKABLE A = true → offset_bytes loc ≠ FULL →
  store v (field_slot loc) (field_ctx A loc) s = (Ok tt, s') →
  ∃ w, store_in_word v (cell s (field_slot loc)) (packed (offset_bytes loc)) = Ok w ∧ s' = put (field_slot loc) w s.
Proof.
  intros Hpk HoF. unfold field_ctx. rewrite Hpk, law_word_store by done.
  destruct (store_in_word _ _ _) as [w|e]; [|done]. intros [= <-]. eauto.
Qed.

Lemma gen_store_seq {S} `{LawfulOps S} {B} (fs : lfields B) floor prev pending val vs (s : S) :
  well_located floor fs → fields_placed fs vs → words (flush pending val s) →
  (∀ o, pending = Some o → prev = Some o ∧ next_loc (erase fs) = Some (o, true)) →
  (∀ o, prev = Some o → next_loc (erase fs) = Some (o, true) → pending = Some o) →
  gen_store base (erase fs) prev pending val vs s = seq_store fs vs (flush pending val s).
Proof.
  revert floor prev pending val s.
  induction fs as [|A B ? ? ? loc rest IH]; intros floor prev pending val s Hwl Hpl Hw Hpend Hnext.
  { destruct pending as [o|]; [|done]. by destruct (Hpend o eq_refl). }
  destruct vs as [v vs], Hpl as [Hv Hvs], Hwl as (Hok & _ & Hfl & Hrest). destruct (loc_offset _ Hok) as (Ho & HoF & Hp).
  destruct (field_store_ok loc v _ Hok Hw Hv) as (s1 & Hs1 & Hws1).
  cbn [seq_store]. erewrite sbind_ok by exact Hs1. cbn [gen_store erase].
  fold (field_slot loc). set (should := match next_loc (erase rest) with Some (n, p) => _ | None => true end).
  assert (should = false → next_loc (erase rest) = Some (offset_slots loc, true)) as Hno.
  { unfold should. destruct (next_loc (erase rest)) as [[n p]|]; [|done].
    destruct (Z.eqb_spec (offset_slots loc) n), p; cbn; naive_solver. }
  assert (should = true → next_loc (erase rest) ≠ Some (offset_slots loc, true)) as Hyes.
  { unfold should. destruct (next_loc (erase rest)) as [[n p]|]; [|done]. intros Hsh [= -> ->].
    rewrite Z.eqb_refl in Hsh. done. }
  (* a pending word of this slot, then the rest *)
  assert (∀ w (s0 : S), s1 = put (field_slot loc) w s0 →
    (if should then commit base (Some (offset_slots loc)) w;; gen_store base (erase rest) (Some (offset_slots loc)) None w vs
     else gen_store base (erase rest) (Some (offset_slots loc)) (Some (offset_slots loc)) w vs) s0 = seq_store rest vs s1) as Hgo.
  { intros w s0 ->. destruct should.
    - cbn [commit]. fold (field_slot loc). rewrite store_bind. rewrite (IH vs _ _ _ _ _ Hrest Hvs); [done|done|done|].
      intros o [= <-] Hn. by destruct (Hyes eq_refl).
    - rewrite (IH vs _ _ _ _ _ Hrest Hvs); [done|done| |naive_solver]. intros o [= <-]. auto. }
  destruct (IS_PACKABLE A) eqn:Hpk; cbn [andb].
  - destruct (field_store_word loc v _ _ Hpk HoF Hs1) as (w & Hstore & ->).
    case_bool_decide as Hprev.
    + assert (pending = Some (offset_slots loc)) as -> by (apply Hnext; [done|]; cbn; by rewrite Hpk).
      cbn [flush] in *. fold (field_slot loc) in *. rewrite cell_put, decide_True in Hstore by done.
      unfold mbind, SM_bind, sread at 1. rewrite Hstore. cbn [fst snd mret SM_ret].
      rewrite put_put in Hgo. unfold mbind, SM_bind in Hgo. by rewrite (Hgo w s), put_put.
    + assert (pending = None) as ->.
      { destruct pending as [o|]; [|done]. destruct (Hpend o eq_refl) as [-> Hn]. cbn in Hn. by injection Hn as <-. }
      cbn [flush commit] in *. unfold mbind, SM_bind, sread at 1. cbn [mret SM_ret]. rewrite load_cell. cbn [mret SM_ret].
      unfold sread. rewrite Hstore. cbn [fst snd mret SM_ret]. apply (Hgo w s eq_refl).
  - assert (pending = None) as ->.
    { destruct pending as [o|]; [|done]. destruct (Hpend o eq_refl) as [_ Hn]. cbn in Hn. by rewrite Hpk in Hn. }
    cbn [flush commit] in *. unfold field_ctx in Hs1. rewrite Hpk in Hs1.
    rewrite (sbind_ok _ _ _ (None, val) s1).
    2:{ unfold mbind, SM_bind. cbn. by rewrite Hs1. }
    assert (next_loc (erase rest) ≠ Some (offset_slots loc, true)) as Hnew.
    { apply (next_slot_new _ _ _ Hrest). unfold loc_end, loc_start. cbn. unfold BYTES in Hp. lia. }
    assert (gen_store base (erase rest) (Some (offset_slots loc)) None val vs s1 = seq_store rest vs s1) as Hgen.
    { rewrite (IH vs _ _ _ _ _ Hrest Hvs); [done|done|done|]. intros o [= <-] Hn. done. }
    by destruct should.
Qed.

(** ** Fields one by one *)
Fixpoint dynamic_extent {B} (fs : lfields B) : B → extent :=
  match fs with
  | lfnil => λ _ _ _, False
  | @lfcons A _ _ _ _ loc rest => λ '(v, vs) k i,
      IS_DYNAMIC A = true ∧ extent_of (field_slot loc) FULL v k i ∨ dynamic_extent rest vs k i
  end.

Lemma dynamic_ctx {A} `{LawfulStorable A} loc : IS_DYNAMIC A = true → field_ctx A loc = FULL.
Proof. intros Hd. unfold field_ctx. destruct (IS_PACKABLE A) eqn:Hp; [|done]. apply law_packable in Hp. congruence. Qed.

Lemma dynamic_in_fields {B} (fs : lfields B) vs k i : dynamic_extent fs vs k i → fields_extent fs vs k i.
Proof.
  induction fs as [|A B ? ? ? loc rest IH]; [done|]. destruct vs as [v vs].
  intros [[Hd He]|He]; [left; by rewrite (dynamic_ctx _ Hd)|right; eauto].
Qed.

Lemma seq_store_ok {S} `{LawfulOps S} {B} (fs : lfields B) floor vs (s : S) :
  words s → well_located floor fs → fields_placed fs vs → separated fs vs →
  ∃ s', seq_store fs vs s = (Ok tt, s') ∧ words s' ∧ frame (fields_extent fs vs) s s' ∧
    ∀ s2, words s2 → agree (fields_extent fs vs) s' s2 →
      seq_load fs s2 = Ok vs ∧
      ∃ s3, dynamic_deletes base (erase fs) s2 = (Ok tt, s3) ∧ words s3 ∧
        frame (dynamic_extent fs vs) s2 s3 ∧ cleared (dynamic_extent fs vs) s3.
Proof.
  revert floor s. induction fs as [|A B ? ? ? loc rest IH]; intros floor s Hs Hwl Hpl Hsep.
  { destruct vs. exists s. do 3 (split; [done|]). intros s2 Hs2 _. split; [done|]. exists s2. do 3 (split; [done|]). by intros ???[]. }
  destruct vs as [v vs], Hpl as [Hv Hvs], Hwl as (Hok & _ & _ & Hrest), Hsep as [Hd Hsep].
  destruct (law_store s (field_slot loc) (field_ctx A loc) v) as (s1 & Hrun1 & Hs1 & Hf1 & Hlaw1);
    [done|apply field_slot_range|done|by apply field_ctx_ok|].
  destruct (IH vs _ s1 Hs1 Hrest Hvs Hsep) as (s' & Hrun & Hs' & Hf & Hlaw).
  exists s'. split; [cbn; by erewrite sbind_ok|]. split; [done|]. split; [by eapply frame_trans|].
  intros s2 Hs2 Ha.
  assert (agree (extent_of (field_slot loc) (field_ctx A loc) v) s1 s2) as Ha1.
  { apply (agree_trans _ _ s').
    - eapply frame_agree; [exact Hf|]. intros k i Hi Hx Hy. by eapply Hd.
    - eapply agree_weaken; [exact Ha|]. intros k i _ Hx. by left. }
  destruct (Hlaw1 s2 Hs2 Ha1) as [Hl1 (s3 & Hdel & Hs3 & Hf3 & Hc3)].
  assert (agree (fields_extent rest vs) s' s2) as Ha2.
  { eapply agree_weaken; [exact Ha|]. intros k i _ Hx. by right. }
  split.
  { cbn [seq_load]. rewrite Hl1. cbn. by rewrite (proj1 (Hlaw s2 Hs2 Ha2)). }
  cbn [dynamic_deletes erase dynamic_extent]. destruct (IS_DYNAMIC A) eqn:Hdyn.
  - rewrite (dynamic_ctx _ Hdyn) in *. fold (field_slot loc).
    destruct (Hlaw s3) as [_ (s4 & Hrun4 & Hs4 & Hf4 & Hc4)]; [done| |].
    { eapply agree_trans; [exact Ha2|]. by eapply frame_agree. }
    exists s4. split; [by erewrite sbind_ok|]. split; [done|]. split.
    + eapply frame_weaken; [by eapply frame_trans|]. cbn. tauto.
    + intros k i Hi [[_ Hx]|Hx]; [|by apply Hc4].
      rewrite Hf4; [by apply Hc3|done|]. intros Hy%dynamic_in_fields. by eapply Hd.
  - destruct (Hlaw s2 Hs2 Ha2) as [_ (s4 & Hrun4 & Hs4 & Hf4 & Hc4)].
    exists s4. split; [done|]. split; [done|]. split.
    + eapply frame_weaken; [exact Hf4|]. tauto.
    + intros k i Hi [[? _]|Hx]; [done|by apply Hc4].
Qed.

(** ** The generated delete *)
Lemma sfor_filter {S A} (l : list A) (b : A → bool) (f : A → SM S unit) s :
  sfor l (λ j, if b j then f j else mret tt) s = sfor (filter (λ j, b j = true) l) f s.
Proof.
  revert s. induction l as [|a l IH]; intros s; [done|]. cbn [sfor]. rewrite filter_cons.
  destruct (b a) eqn:Hb; [rewrite decide_True by done|rewrite decide_False by congruence].
  - cbn. unfold mbind, SM_bind. destruct (f a s) as [[[]|] s1]; [apply IH|done].
  - apply IH.
Qed.

Definition static_slots {B} (fs : lfields B) (count : Z) : extent := λ k _,
  ∃ j, 0 ≤ j < count ∧ is_static_slot (erase fs) j = true ∧ k = word_add base j.

Lemma gen_delete_ok {S} `{LawfulOps S} {B} (fs : lfields B) floor vs count (s : S) :
  words s → well_located floor fs → fields_placed fs vs → separated fs vs →
  ∀ s', seq_store fs vs s = (Ok tt, s') →
  ∀ s2, words s2 → agree (fields_extent fs vs) s' s2 →
    ∃ s3, gen_delete base (erase fs) count s2 = (Ok tt, s3) ∧ words s3 ∧
      frame (λ k i, dynamic_extent fs vs k i ∨ static_slots fs count k i) s2 s3 ∧
      cleared (λ k i, dynamic_extent fs vs k i ∨ static_slots fs count k i) s3.
Proof.
  intros Hs Hwl Hpl Hsep s' Hrun s2 Hs2 Ha.
  destruct (seq_store_ok fs floor vs s) as (s0 & Hrun0 & _ & _ & Hlaw); [done..|].
  rewrite Hrun in Hrun0. injection Hrun0 as <-.
  destruct (Hlaw s2 Hs2 Ha) as [_ (s3 & Hdel & Hs3 & Hf3 & Hc3)].
  destruct (clear_slots (filter (λ j, is_static_slot (erase fs) j = true) (seqZ 0 count)) (word_add base) s3 Hs3)
    as (s4 & Hclear & Hs4 & Hf4 & Hc4).
  assert (∀ k i, static_slots fs count k i ↔
    ∃ j, j ∈ filter (λ j, is_static_slot (erase fs) j = true) (seqZ 0 count) ∧ k = word_add base j) as Hst.
  { intros k i. unfold static_slots. setoid_rewrite list_elem_of_filter. setoid_rewrite elem_of_seqZ.
    split; intros (j & ? & ?); exists j; [|split_and!]; naive_solver lia. }
  exists s4. split.
  { unfold gen_delete. erewrite sbind_ok by exact Hdel. rewrite sfor_filter. exact Hclear. }
  split; [done|]. split.
  - eapply frame_weaken; [eapply frame_trans; [exact Hf3|exact Hf4]|]. intros k i _ [Hx|Hx]; [by left|right; by apply Hst].
  - intros k i Hi [Hx|Hx]; [|by apply Hc4, (Hst k i)].
    destruct (decide (bit s4 k i = false)) as [|Hne]; [done|]. exfalso. apply Hne.
    destruct (decide (Exists (λ j, k = word_add base j) (filter (λ j, is_static_slot (erase fs) j = true) (seqZ 0 count))))
      as [Hex|Hex].
    + apply Hc4; [done|]. by apply Exists_exists.
    + rewrite Hf4; [by apply Hc3|done|]. intros Hin. by apply Hex, Exists_exists.
Qed.
End fieldwise.

Lemma word_add_assoc a b c : word_add (word_add a b) c = word_add a (b + c).
Proof. unfold word_add. rewrite !U256_wrap, Zplus_mod_idemp_l. f_equal. lia. Qed.

(** ** Structs with lawful fields *)
Inductive sfields : Type → Type :=
| sfnil : sfields unit
| sfcons {A B : Type} `{LawfulStorable A} (rest : sfields B) : sfields (A * B).

Fixpoint to_fields {B} (fs : sfields B) : fields B :=
  match fs with
  | sfnil => fnil
  | sfcons rest => fcons (to_fields rest)
  end.
Definition layouts {B} (fs : sfields B) : list Layout := field_layouts (to_fields fs).

Fixpoint slocate {B} (fs : sfields B) (cs : list (Z * Z)) : lfields B :=
  match fs with
  | sfnil => lfnil
  | @sfcons A _ _ _ _ rest =>
      let c := default (0, 0) (head cs) in
      lfcons (mkFieldLocation (c.1 mod 2 ^ 64) c.2 (BYTES A)) (slocate rest (tail cs))
  end.

Lemma slocate_erase {B} (fs : sfields B) cs : erase (slocate fs cs) = locate (to_fields fs) cs.
Proof. revert cs. induction fs as [|A B ? ? ? rest IH]; intros cs; [done|]. cbn. by rewrite IH. Qed.

Lemma layouts_ok {B} (fs : sfields B) : Forall layout_ok (layouts fs).
Proof. induction fs as [|A B ? ? ? rest IH]; constructor; [apply law_layout|done]. Qed.

Definition small (ls : list Layout) (cs : list (Z * Z)) : Prop := Forall2 (λ l c, c.1 + slots l < 2 ^ 64) ls cs.

Lemma slocate_well {B} (fs : sfields B) p pc cs :
  loc_ok p pc → chained p pc (layouts fs) cs → small (layouts fs) cs → well_located (loc_end p pc) (slocate fs cs).
Proof.
  revert p pc cs. induction fs as [|A B ? ? ? rest IH]; intros p pc [|c cs] Hp Hch Hsm; try done.
  destruct Hch as (Hf & Hok & Hch). apply Forall2_cons in Hsm as [Hc Hsm]. destruct c as [cs1 cs2].
  pose proof (follows_end _ _ _ _ Hp Hok Hf) as Hle. cbn [slocate well_located head tail default fst snd offset_slots offset_bytes].
  cbn [id fst snd] in *.
  assert (1 ≤ slots (LAYOUT A)) by (pose proof (bytes_slots _ (proj1 Hok)); lia).
  rewrite Z.mod_small by (destruct Hok as (_ & ? & _); cbn in *; lia).
  split; [done|]. split; [unfold SLOTS; lia|]. split; [done|]. by apply IH.
Qed.

(** The slot behind the last field. *)
Fixpoint chain_end (p : Layout) (pc : Z * Z) (ls : list Layout) (cs : list (Z * Z)) : Z :=
  match ls, cs with
  | l :: ls, c :: cs => chain_end l c ls cs
  | _, _ => pc.1 + slots p
  end.

Lemma chain_end_last p pc ls cs ll cl :
  chained p pc ls cs → last (p :: ls) = Some ll → last (pc :: cs) = Some cl → chain_end p pc ls cs = cl.1 + slots ll.
Proof.
  revert p pc cs. induction ls as [|l ls IH]; intros p pc [|c cs] Hch; try done; [cbn; intros [= <-] [= <-]; done|].
  destruct Hch as (_ & _ & Hch). rewrite !last_cons_cons. cbn [chain_end]. by apply IH.
Qed.

(** Every slot of the struct belongs to a static or to a dynamic field. *)
Lemma slot_covered {B} base (fs : sfields B) p pc cs j :
  0 ≤ base < 2 ^ 256 → loc_ok p pc → chained p pc (layouts fs) cs → small (layouts fs) cs →
  pc.1 + slots p ≤ j < chain_end p pc (layouts fs) cs →
  is_static_slot (erase (slocate fs cs)) j = true ∨ ∀ vs i, dynamic_extent base (slocate fs cs) vs (word_add base j) i.
Proof.
  intros Hb. revert p pc cs. induction fs as [|A B ? ? ? rest IH]; intros p pc [|c cs] Hp Hch Hsm Hj; try done; [cbn in Hj; lia|].
  destruct Hch as (Hf & Hok & Hch). apply Forall2_cons in Hsm as [Hc Hsm]. destruct c as [c1 c2].
  cbn [slocate erase is_static_slot dynamic_extent head tail].
  cbn [default from_option id fst snd offset_slots] in *.
  assert (1 ≤ slots (LAYOUT A)) as Hsl by (pose proof (bytes_slots _ (proj1 Hok)); lia).
  rewrite Z.mod_small by (destruct Hok as (_ & ? & _); cbn in *; lia).
  destruct (Z.lt_ge_cases j (c1 + slots (LAYOUT A))) as [Hlt|Hge].
  - assert (c1 ≤ j) as Hle.
    { destruct Hf as [(? & ? & ?)|[? ?]]; cbn in *; [|lia].
      destruct Hp as (Hlp & _ & _ & ? & _), Hok as (Hl & _). pose proof (bytes_slots _ Hlp). pose proof (bytes_slots _ Hl). lia. }
    destruct (IS_DYNAMIC A) eqn:Hd.
    + right. intros [v vs] i. left. split; [done|]. apply law_covers; [apply word_add_range|].
      exists (j - c1). unfold SLOTS. split; [lia|]. unfold field_slot. cbn. rewrite word_add_assoc. f_equal. lia.
    + left. unfold SLOTS. rewrite (proj2 (Z.leb_le c1 j)), (proj2 (Z.ltb_lt j _)) by lia. done.
  - destruct (IH (LAYOUT A) (c1, c2) cs Hok Hch Hsm) as [Hst|Hdy]; [split; [exact Hge|apply Hj]|left; rewrite Hst; apply orb_true_r|].
    right. intros [v vs] i. right. apply Hdy.
Qed.

(** The fields of a static struct lie in its slots, and apart. *)
Definition static_extent (base : Z) (l : Layout) (c : Z * Z) : extent :=
  if is_packable l then field_extent (word_add base c.1) c.2 (bytes l) else slots_extent (word_add base c.1) (slots l).

Lemma static_field_extent {A} `{LawfulStorable A} base loc (v : A) k i :
  IS_DYNAMIC A = false → offset_bytes loc ≠ FULL →
  extent_of (field_slot base loc) (field_ctx A loc) v k i ↔
  static_extent base (LAYOUT A) (offset_slots loc, offset_bytes loc) k i.
Proof.
  intros Hd HoF. unfold static_extent, field_ctx, field_slot. fold (IS_PACKABLE A).
  destruct (IS_PACKABLE A) eqn:Hp; [by apply law_packed|]. apply law_static; [apply word_add_range|done].
Qed.

Lemma static_disjoint base l c l' c' :
  loc_ok l c → loc_ok l' c' → c.1 + slots l ≤ 2 ^ 64 → c'.1 + slots l' ≤ 2 ^ 64 → loc_end l c ≤ loc_start c' →
  disjoint_extents (static_extent base l c) (static_extent base l' c').
Proof.
  intros (Hl & H1 & H2 & H3 & H4) (Hl' & H1' & H2' & H3' & H4') Hs Hs' Hord k i Hi.
  unfold static_extent, field_extent, slots_extent, loc_end, loc_start in *.
  assert (∀ j j', 0 ≤ j < 2 ^ 64 → 0 ≤ j' < 2 ^ 64 → word_add base j = word_add base j' → j = j') as Hinj.
  { intros j j' ? ?. apply word_add_inj; lia. }
  pose proof (bytes_slots l Hl) as (? & ? & ? & Hfl). pose proof (bytes_slots l' Hl') as (? & ? & ? & Hfl').
  destruct (is_packable l) eqn:Hp, (is_packable l') eqn:Hp'.
  - intros [-> Hx] [Heq Hy]. apply Hinj in Heq; [|lia..]. unfold in_field in *. lia.
  - intros [-> Hx] (j & Hj & Heq). rewrite word_add_assoc in Heq. apply Hinj in Heq; [|lia..].
    specialize (Hfl' eq_refl). destruct l, l'; cbn [bytes slots layout_ok is_packable] in *; lia.
  - intros (j & Hj & ->) [Heq Hy]. rewrite word_add_assoc in Heq. apply Hinj in Heq; [|lia..].
    specialize (Hfl eq_refl). destruct l, l'; cbn [bytes slots layout_ok is_packable] in *; lia.
  - intros (j & Hj & ->) (j' & Hj' & Heq). rewrite !word_add_assoc in Heq. apply Hinj in Heq; [|lia..].
    specialize (Hfl eq_refl). destruct l, l'; cbn [bytes slots layout_ok is_packable] in *; lia.
Qed.

Fixpoint all_static {B} (fs : lfields B) : bool :=
  match fs with
  | lfnil => true
  | @lfcons A _ _ _ _ _ rest => negb (IS_DYNAMIC A) && all_static rest
  end.

Lemma static_rest_disjoint {B} base (fs : lfields B) floor l c vs :
  well_located floor fs → all_static fs = true → loc_ok l c → c.1 + slots l ≤ 2 ^ 64 → loc_end l c ≤ floor →
  disjoint_extents (static_extent base l c) (fields_extent base fs vs).
Proof.
  revert floor. induction fs as [|A B ? ? ? loc rest IH]; intros floor Hwl Hst Hok Hs Hfl; [by intros k i _ _ []|].
  destruct vs as [v vs], Hwl as (Hok' & Hs' & Hfl' & Hrest). cbn in Hst. apply andb_true_iff in Hst as [Hd%negb_true_iff Hst].
  destruct (loc_offset _ Hok') as (_ & HoF & _). pose proof (bytes_slots _ (proj1 Hok')) as (? & _).
  intros k i Hi Hx [Hy|Hy].
  - apply static_field_extent in Hy; [|done..]. eapply (static_disjoint base l c); [exact Hok|exact Hok'|done|exact Hs'|lia|done..].
  - eapply (IH vs _ Hrest Hst Hok Hs); [unfold loc_end in *; lia|done..].
Qed.

Lemma static_separated {B} base (fs : lfields B) floor vs :
  well_located floor fs → all_static fs = true → separated base fs vs.
Proof.
  revert floor. induction fs as [|A B ? ? ? loc rest IH]; intros floor Hwl Hst; [done|].
  destruct vs as [v vs], Hwl as (Hok & Hs & Hfl & Hrest). cbn in Hst. apply andb_true_iff in Hst as [Hd%negb_true_iff Hst].
  destruct (loc_offset _ Hok) as (_ & HoF & _). split; [|by eapply IH].
  intros k i Hi Hx Hy. apply static_field_extent in Hx; [|done..].
  by eapply (static_rest_disjoint base rest _ _ _ vs Hrest Hst Hok Hs).
Qed.

(** What a field occupies belongs to a dynamic field or to a slot of a static one. *)
Lemma fields_split {B} base (fs : lfields B) floor vs count k i :
  well_located floor fs → (∀ j, is_static_slot (erase fs) j = true → j < count) →
  fields_extent base fs vs k i → dynamic_extent base fs vs k i ∨ static_slots base fs count k i.
Proof.
  revert floor. induction fs as [|A B ? ? ? loc rest IH]; intros floor Hwl Hcnt; [by intros []|].
  destruct vs as [v vs], Hwl as (Hok & Hs & Hfl & Hrest).
  destruct (loc_offset _ Hok) as (_ & HoF & _). pose proof (bytes_slots _ (proj1 Hok)) as (_ & _ & Hsl & _).
  intros [Hx|Hx].
  - destruct (IS_DYNAMIC A) eqn:Hd; [left; left; split; [done|]; by rewrite (dynamic_ctx _ Hd) in Hx|]. right.
    apply static_field_extent in Hx; [|done..].
    assert (∃ j, offset_slots loc ≤ j < offset_slots loc + SLOTS A ∧ k = word_add base j) as (j & Hj & ->).
    { unfold static_extent, SLOTS in *. destruct (is_packable _); [destruct Hx as [-> _]; exists (offset_slots loc); split; [lia|done]|].
      destruct Hx as (j & Hj & ->). exists (offset_slots loc + j). rewrite word_add_assoc. split; [cbn; lia|done]. }
    assert (is_static_slot (erase (lfcons loc rest)) j = true) as Hin.
    { cbn. rewrite Hd, (proj2 (Z.leb_le _ j)), (proj2 (Z.ltb_lt j _)) by lia. done. }
    assert (0 ≤ offset_slots loc) by apply Hok. specialize (Hcnt _ Hin). exists j. split; [lia|done].
  - destruct (IH vs _ Hrest) as [Hdy|(j & Hj & Hjs & ->)]; [|done|left; by right|].
    + intros j Hj. apply Hcnt. cbn. rewrite Hj. apply orb_true_r.
    + right. exists j. split; [done|]. split; [|done]. cbn. rewrite Hjs. apply orb_true_r.
Qed.

Lemma static_no_dynamic {B} base (fs : lfields B) vs k i : all_static fs = true → ¬ dynamic_extent base fs vs k i.
Proof.
  induction fs as [|A B ? ? ? loc rest IH]; [tauto|]. destruct vs as [v vs]. cbn.
  intros [Hd%negb_true_iff Hst]%andb_true_iff [[? _]|Hx]; [congruence|by eapply IH].
Qed.

Lemma all_static_fields {B} (fs : sfields B) cs : all_static (slocate fs cs) = negb (any_dynamic (to_fields fs)).
Proof. revert cs. induction fs as [|A B ? ? ? rest IH]; intros cs; [done|]. cbn. rewrite IH. by rewrite negb_orb. Qed.

Lemma static_slot_bound {B} (fs : sfields B) cs n j :
  n < 2 ^ 64 → Forall (λ c, 0 ≤ c.1) cs → Forall2 (λ l c, c.1 + slots l ≤ n) (layouts fs) cs →
  is_static_slot (erase (slocate fs cs)) j = true → j < n.
Proof.
  intros Hn. revert cs. induction fs as [|A B ? ? ? rest IH]; intros [|[c1 c2] cs] Hpos Hle; try done.
  { by apply Forall2_cons_nil_inv in Hle. }
  apply Forall2_cons in Hle as [Hc Hle]. apply Forall_cons in Hpos as [H0c Hpos].
  cbn [slocate erase is_static_slot head tail default from_option id fst snd offset_slots] in *. unfold SLOTS.
  pose proof (bytes_slots _ (law_layout (A := A))) as (_ & _ & ? & _).
  rewrite Z.mod_small by lia. intros [Hs|Hs]%orb_true_iff; [|by eapply IH]. lia.
Qed.

Section struct.
Context {B : Type} (fs : sfields B) (cs : list (Z * Z)) (ll : Layout) (cl : Z * Z).
Hypotheses (Hcs : struct_constants (to_fields fs) = Some cs)
  (Hll : last (layouts fs) = Some ll) (Hcl : last cs = Some cl) (Hfit : cl.1 + slots ll < 2 ^ 64).

Let count : Z := slot_count_of (layouts fs) cs.
Let lfs : lfields B := slocate fs cs.

Lemma struct_consts : gen_constants_from_ir (autos (layouts fs)) = Some cs.
Proof. rewrite <- allocate_autos. exact Hcs. Qed.

Lemma struct_small : small (layouts fs) cs.
Proof.
  apply Forall2_same_length_lookup. split; [symmetry; apply struct_length, struct_consts; apply layouts_ok|].
  intros i l c Hl Hc. pose proof (struct_last_end _ _ (layouts_ok fs) struct_consts _ _ _ _ _ Hl Hc Hll Hcl). lia.
Qed.

Lemma struct_count : count = cl.1 + slots ll ∧ 1 ≤ count < 2 ^ 64.
Proof.
  assert (cs !! pred (length (layouts fs)) = Some cl) as Hcl'.
  { rewrite <- (struct_length _ _ (layouts_ok fs) struct_consts). by rewrite <- last_lookup. }
  rewrite last_lookup in Hll.
  pose proof (struct_loc_ok _ _ (layouts_ok fs) struct_consts _ _ _ Hll Hcl') as (Hok & H0 & _).
  rewrite <- last_lookup in Hll. pose proof (bytes_slots _ Hok) as (_ & _ & ? & _).
  unfold count, slot_count_of, saturating_add. rewrite Hll, Hcl. destruct cl as [c1 c2]. cbn [fst snd] in *.
  rewrite Z.min_r, Z.mod_small by (unfold U256_MAX; lia). lia.
Qed.

Lemma struct_located : well_located 0 lfs ∧
  ∀ base j, 0 ≤ base < 2 ^ 256 → 0 ≤ j < count →
    is_static_slot (erase lfs) j = true ∨ ∀ vs i, dynamic_extent base lfs vs (word_add base j) i.
Proof.
  pose proof struct_consts as Hc. pose proof struct_small as Hsm. destruct struct_count as [Hcount _].
  pose proof (layouts_ok fs) as Hlo. unfold lfs, count, layouts in *. clear Hcs. destruct fs as [|A B' ? ? ? rest]; [done|].
  cbn [to_fields field_layouts] in *. fold (layouts rest) in *.
  destruct (struct_chained _ _ _ Hlo Hc) as (cs' & -> & Hok & Hch). apply Forall2_cons in Hsm as [Hsm0 Hsm].
  pose proof (bytes_slots _ (proj1 Hok)) as (_ & _ & ? & _).
  assert (chain_end (LAYOUT A) (0, 0) (layouts rest) cs' = cl.1 + slots ll) as Hend by (by apply chain_end_last).
  cbn [slocate head tail default from_option id fst snd]. split.
  - cbn [well_located offset_slots offset_bytes]. change (0 mod 2 ^ 64) with 0. cbn [fst] in Hsm0.
    split; [done|]. split; [unfold SLOTS; lia|]. split; [done|]. by apply slocate_well.
  - intros base j Hb Hj. rewrite Hcount, <- Hend in Hj. cbn [erase is_static_slot dynamic_extent offset_slots].
    change (0 mod 2 ^ 64) with 0.
    destruct (Z.lt_ge_cases j (slots (LAYOUT A))) as [Hlt|Hge].
    + destruct (IS_DYNAMIC A) eqn:Hd.
      * right. intros [v vs] i. left. split; [done|]. apply law_covers; [apply word_add_range|].
        exists j. unfold SLOTS, field_slot. cbn [offset_slots]. rewrite word_add_assoc. split; [lia|]. f_equal.
      * left. unfold SLOTS. rewrite (proj2 (Z.leb_le 0 j)), (proj2 (Z.ltb_lt j _)) by lia. done.
    + destruct (slot_covered base rest _ _ _ j Hb Hok Hch Hsm) as [Hs|Hd]; [cbn [fst]; lia|left; rewrite Hs; apply orb_true_r|].
      right. intros [v vs] i. right. apply Hd.
Qed.

Lemma struct_static_bound j : is_static_slot (erase lfs) j = true → j < count.
Proof.
  destruct struct_count as [Hcount Hlt]. apply static_slot_bound; [lia| |].
  - apply Forall_lookup. intros i c Hc. destruct (lookup_lt_is_Some_2 (layouts fs) i) as [l Hl].
    { rewrite <- (struct_length _ _ (layouts_ok fs) struct_consts). by eapply lookup_lt_Some. }
    by apply (struct_loc_ok _ _ (layouts_ok fs) struct_consts i l c).
  - apply Forall2_same_length_lookup. split; [symmetry; apply struct_length, struct_consts; apply layouts_ok|].
    intros i l c Hl Hc. pose proof (struct_last_end _ _ (layouts_ok fs) struct_consts _ _ _ _ _ Hl Hc Hll Hcl). lia.
Qed.

Definition struct_placed (base : Z) (vs : B) : Prop := fields_placed base lfs vs ∧ separated base lfs vs.
Definition struct_extent (base : Z) (vs : B) : extent := λ k i,
  slots_extent base count k i ∨ fields_extent base lfs vs k i.

Local Instance struct_type_ : StorableType B := struct_type (to_fields fs) cs.
Local Instance struct_storable_ : Storable B := struct_storable (to_fields fs) cs.

Lemma struct_store_seq {S} `{LawfulOps S} (s : S) base ctx vs :
  words s → fields_placed base lfs vs → store vs base ctx s = seq_store base lfs vs s.
Proof.
  intros Hs Hp. cbn [store struct_storable_ struct_storable]. rewrite <- slocate_erase. fold lfs.
  by rewrite (gen_store_seq base lfs 0 None None 0 vs s (proj1 struct_located) Hp Hs).
Qed.
Lemma struct_load_seq {S} `{LawfulOps S} (s : S) base ctx : load s base ctx = seq_load base lfs s.
Proof.
  cbn [load struct_storable_ struct_storable]. rewrite <- slocate_erase. fold lfs.
  by apply (gen_load_seq base lfs 0 None 0 s (proj1 struct_located)).
Qed.

Lemma struct_law {S} `{LawfulOps S} (s : S) base ctx vs :
  words s → 0 ≤ base < 2 ^ 256 → struct_placed base vs →
  ∃ s', store vs base ctx s = (Ok tt, s') ∧ words s' ∧ frame (struct_extent base vs) s s' ∧
    ∀ s2, words s2 → agree (struct_extent base vs) s' s2 →
      load s2 base ctx = Ok vs ∧
      ∃ s3, delete_at B base ctx s2 = (Ok tt, s3) ∧ words s3 ∧
        frame (struct_extent base vs) s2 s3 ∧ cleared (struct_extent base vs) s3.
Proof.
  intros Hs Hb [Hp Hsep]. destruct struct_located as [Hwl Hcov].
  destruct (seq_store_ok base lfs 0 vs s Hs Hwl Hp Hsep) as (s' & Hrun & Hs' & Hf & Hlaw).
  exists s'. split; [by rewrite struct_store_seq|]. split; [done|].
  split; [eapply frame_weaken; [exact Hf|]; by right|]. intros s2 Hs2 Ha.
  assert (agree (fields_extent base lfs vs) s' s2) as Ha2 by (eapply agree_weaken; [exact Ha|]; by right).
  split; [rewrite struct_load_seq; by apply Hlaw|].
  destruct (gen_delete_ok base lfs 0 vs count s Hs Hwl Hp Hsep s' Hrun s2 Hs2 Ha2) as (s3 & Hdel & Hs3 & Hf3 & Hc3).
  exists s3. split; [cbn [delete_at struct_storable_ struct_storable]; rewrite <- slocate_erase; exact Hdel|].
  split; [done|]. split.
  - eapply frame_weaken; [exact Hf3|]. intros k i _ [Hx|(j & Hj & _ & ->)]; [right; by apply dynamic_in_fields|].
    left. by exists j.
  - intros k i Hi Hx. apply Hc3; [done|]. destruct Hx as [(j & Hj & ->)|Hx].
    + destruct (Hcov base j Hb Hj) as [Hst|Hdy]; [right; by exists j|left; apply Hdy].
    + apply (fields_split base lfs 0 vs count k i Hwl struct_static_bound Hx).
Qed.

Program Definition struct_lawful : LawfulStorable B :=
  @Build_LawfulStorable B struct_type_ struct_storable_ struct_placed (λ base _ vs, struct_extent base vs) _ _ _ _ _ _ _ _.
Next Obligation. cbn. fold (layouts fs). fold count. by destruct struct_count. Qed.
Next Obligation. intros S ops Hlaw s slot ctx v Hs Hslot Hp _. by apply struct_law. Qed.
Next Obligation.
  intros slot v Hslot Hd k i. split; [|intros Hx; by left]. intros [Hx|Hx]; [done|].
  destruct (fields_split slot lfs 0 v count k i (proj1 struct_located) struct_static_bound Hx) as [Hdy|(j & Hj & _ & ->)].
  - exfalso. revert Hdy. apply static_no_dynamic. unfold lfs. rewrite all_static_fields. cbn in Hd. by rewrite Hd.
  - by exists j.
Qed.
Next Obligation. intros slot v Hslot k i Hx. by left. Qed.
Solve Obligations with done.

(** The values of a static struct need only be of their types. *)
Lemma struct_placed_static base vs :
  any_dynamic (to_fields fs) = false → fields_placed base lfs vs → struct_placed base vs.
Proof.
  intros Hd Hp. split; [done|]. apply (static_separated base lfs 0); [apply struct_located|].
  unfold lfs. by rewrite all_static_fields, Hd.
Qed.
End struct.

(** C23: The [load] and [store] the macro generates for a struct are those of its fields one by
    one, each in its packed place: reading a shared slot once and gathering the writes
    to it in memory changes neither the values read nor any word written, for every list of
    field types (primitives, enums, strings, nested structs) and every storage. *)
Theorem struct_batched_is_fieldwise {B : Type} (fs : sfields B) (cs : list (Z * Z)) (ll : Layout) (cl : Z * Z)
    {S : Type} `{LawfulOps S} (s : S) (base : Z) (vs : B) :
  struct_constants (to_fields fs) = Some cs → last (layouts fs) = Some ll → last cs = Some cl →
  cl.1 + slots ll < 2 ^ 64 → words s → fields_placed base (slocate fs cs) vs →
  store (Storable := struct_storable (to_fields fs) cs) vs base FULL s = seq_store base (slocate fs cs) vs s ∧
  load (Storable := struct_storable (to_fields fs) cs) s base FULL = seq_load base (slocate fs cs) s.
Proof.
  intros Hcs Hll Hcl Hfit Hs Hp. split.
  - exact (struct_store_seq fs cs ll cl Hcs Hll Hcl Hfit s base FULL vs Hs Hp).
  - exact (struct_load_seq fs cs ll cl Hcs Hll Hcl Hfit s base FULL).
Qed.

(** C24: A struct that is stored reads back as the same value, whatever its fields were before and
    whatever is written afterwards outside of its slots (and the data of its strings); the store changes nothing
    else; and deleting it, in any such later state, sets its slots and data to zero and touches nothing else. *)
Theorem struct_roundtrip {B : Type} (fs : sfields B) (cs : list (Z * Z)) (ll : Layout) (cl : Z * Z)
    {S : Type} `{LawfulOps S} (s : S) (base : Z) (vs : B) :
  struct_constants (to_fields fs) = Some cs → last (layouts fs) = Some ll → last cs = Some cl →
  cl.1 + slots ll < 2 ^ 64 → words s → 0 ≤ base < 2 ^ 256 → struct_placed fs cs base vs →
  ∃ s', store (Storable := struct_storable (to_fields fs) cs) vs base FULL s = (Ok tt, s') ∧ words s' ∧
    frame (struct_extent fs cs base vs) s s' ∧
    ∀ s2, words s2 → agree (struct_extent fs cs base vs) s' s2 →
      load (Storable := struct_storable (to_fields fs) cs) s2 base FULL = Ok vs ∧
      ∃ s3, delete_at (Storable := struct_storable (to_fields fs) cs) B base FULL s2 = (Ok tt, s3) ∧
        frame (struct_extent fs cs base vs) s2 s3 ∧ cleared (struct_extent fs cs base vs) s3.
Proof.
  intros Hcs Hll Hcl Hfit Hs Hb Hp.
  destruct (struct_law fs cs ll cl Hcs Hll Hcl Hfit s base FULL vs Hs Hb Hp) as (s' & Hst & Hs' & Hf & Hlaw).
  exists s'. split; [done|]. split; [done|]. split; [done|]. intros s2 Hs2 Ha.
  destruct (Hlaw s2 Hs2 Ha) as [Hl (s3 & Hdel & _ & Hf3 & Hc3)]. eauto.
Qed.
