(* ===== verification/StorageVecs.v ===== *)
(** * Vectors in storage refine lists

    A vector of a static type represents a list ([vec_rep]): the length is in its slot and
    element [i] is stored at the place [compute_handler] gives.  The handler's operations and the
    bulk [load], [store] and [delete] of the trait are those of lists on it. *)
From Stdlib Require Import ZArith Lia.
From stdpp Require Import base tactics option list list_numbers fin_maps gmap.
From S2P Require Import Prelude Base StorageWords StorageTypes StorageLayout StorageLaws StorageBytes StorageStructs.
Open Scope Z_scope.

(** ** Places of elements *)
Section places.
Context {A : Type} `{LawfulStorable A}.

Lemma small_bytes : BYTES A ≤ 16 → IS_PACKABLE A = true ∧ LAYOUT A = Bytes (BYTES A) ∧ 1 ≤ BYTES A ∧ 2 ≤ 32 / BYTES A ∧ 32 / BYTES A * BYTES A ≤ 32.
Proof.
  intros Hb. pose proof law_layout as Hl. unfold BYTES, IS_PACKABLE in *.
  destruct (LAYOUT A) as [n|n]; cbn [bytes layout_ok is_packable] in *; [|lia].
  assert (2 ≤ 32 / n) by (apply Z.div_le_lower_bound; lia).
  pose proof (Z.mul_div_le 32 n). split; [apply Z.ltb_lt; lia|]. split; [done|]. lia.
Qed.

Lemma slots_pos : 1 ≤ SLOTS A < 2 ^ 64.
Proof. pose proof law_layout as Hl. unfold SLOTS. destruct (LAYOUT A); cbn in *; lia. Qed.

Lemma max_index_bound i : 0 ≤ i < max_index (A := A) → (i + 1) * (if BYTES A <=? 16 then 1 else SLOTS A) ≤ U32_MAX.
Proof.
  unfold max_index. pose proof slots_pos. destruct (Z.leb_spec (BYTES A) 16) as [Hb|Hb].
  - destruct (small_bytes Hb) as (_ & _ & ? & _). intros Hi.
    assert (U32_MAX / BYTES A ≤ U32_MAX) by (apply Z.div_le_upper_bound; unfold U32_MAX; nia). lia.
  - intros Hi. pose proof (Z.mul_div_le U32_MAX (SLOTS A)). nia.
Qed.

Context (data_start : Z).

Definition elem_slot (i : Z) : Z := (compute_handler (A := A) data_start i).1.
Definition elem_ctx (i : Z) : LayoutCtx := (compute_handler (A := A) data_start i).2.

(** The slots of an element, counted from the start of the data. *)
Definition elem_index (i : Z) : Z := if BYTES A <=? 16 then calc_element_slot i (BYTES A) else i * SLOTS A.

Lemma elem_slot_eq i : elem_slot i = word_add data_start (elem_index i).
Proof. unfold elem_slot, compute_handler, elem_index. by destruct (BYTES A <=? 16). Qed.

Lemma elem_slot_range i : 0 ≤ elem_slot i < 2 ^ 256.
Proof. rewrite elem_slot_eq. apply word_add_range. Qed.

Lemma elem_offset i : BYTES A ≤ 16 → 0 ≤ i →
  elem_ctx i = packed (calc_element_offset i (BYTES A)) ∧ calc_element_offset i (BYTES A) ≠ FULL ∧
  0 ≤ calc_element_offset i (BYTES A) ∧ calc_element_offset i (BYTES A) + BYTES A ≤ 32.
Proof.
  intros Hb Hi. destruct (small_bytes Hb) as (_ & _ & ? & ? & ?).
  unfold elem_ctx, compute_handler. rewrite (proj2 (Z.leb_le _ _) Hb). split; [done|].
  unfold calc_element_offset, FULL, U64_MAX. pose proof (Z.mod_pos_bound i (32 / BYTES A)). nia.
Qed.

Lemma elem_ctx_ok i : 0 ≤ i → ctx_ok A (elem_ctx i).
Proof.
  intros Hi. destruct (Z.leb_spec (BYTES A) 16) as [Hb|Hb].
  - destruct (elem_offset i Hb Hi) as (-> & Ho & ? & ?). unfold ctx_ok. rewrite packed_offset_packed by done.
    split; [by apply small_bytes|done].
  - unfold elem_ctx, compute_handler. by rewrite (proj2 (Z.leb_gt _ _) Hb).
Qed.

Hypothesis Hstatic : IS_DYNAMIC A = false.

(** Distinct elements occupy distinct bits, all in the slots of the data. *)
Lemma elem_extent_slots i v k b :
  0 ≤ i < max_index (A := A) → extent_of (elem_slot i) (elem_ctx i) v k b →
  ∃ j, elem_index i ≤ j < elem_index i + (if BYTES A <=? 16 then 1 else SLOTS A) ∧ 0 ≤ j ≤ U32_MAX ∧ k = word_add data_start j.
Proof.
  intros Hi Hx. pose proof (max_index_bound i Hi) as Hmax. pose proof slots_pos.
  assert (elem_index i = if BYTES A <=? 16 then calc_element_slot i (BYTES A) else i * SLOTS A) as Hidx by done.
  destruct (Z.leb_spec (BYTES A) 16) as [Hb|Hb].
  - destruct (elem_offset i Hb) as (Hc & Ho & _); [lia|]. rewrite Hc in Hx.
    apply law_packed in Hx as [-> _]; [|by apply small_bytes|done]. exists (elem_index i). rewrite elem_slot_eq.
    destruct (small_bytes Hb) as (_ & _ & _ & He & _). rewrite Hidx. unfold calc_element_slot.
    pose proof (Z.div_pos i (32 / BYTES A)). assert (i / (32 / BYTES A) ≤ i) by (apply Z.div_le_upper_bound; nia).
    split; [lia|]. split; [lia|done].
  - assert (elem_ctx i = FULL) as Hc by (unfold elem_ctx, compute_handler; by rewrite (proj2 (Z.leb_gt _ _) Hb)).
    rewrite Hc in Hx. apply law_static in Hx as (j & Hj & ->); [|apply elem_slot_range|done].
    rewrite elem_slot_eq, word_add_assoc. exists (elem_index i + j). rewrite Hidx in *. split; [lia|]. split; [nia|done].
Qed.

Lemma elem_disjoint i j (v w : A) :
  0 ≤ i < max_index (A := A) → 0 ≤ j < max_index (A := A) → i ≠ j →
  disjoint_extents (extent_of (elem_slot i) (elem_ctx i) v) (extent_of (elem_slot j) (elem_ctx j) w).
Proof.
  intros Hi Hj Hij k b Hb0 Hx Hy.
  pose proof (elem_extent_slots i v k b Hi Hx) as (ki & Hki & Hri & Hk).
  pose proof (elem_extent_slots j w k b Hj Hy) as (kj & Hkj & Hrj & Hk'). pose proof slots_pos.
  assert (ki = kj) as ->. { apply (word_add_inj data_start); unfold U32_MAX in *; [lia|lia|congruence]. }
  unfold elem_index in *. destruct (Z.leb_spec (BYTES A) 16) as [Hb|Hb]; [|nia].
  destruct (small_bytes Hb) as (Hpk & _ & ? & ? & ?).
  destruct (elem_offset i Hb) as (Hci & Hoi & _); [lia|]. destruct (elem_offset j Hb) as (Hcj & Hoj & _); [lia|].
  rewrite Hci in Hx. rewrite Hcj in Hy. apply law_packed in Hx as [_ Hx]; [|done..]. apply law_packed in Hy as [_ Hy]; [|done..].
  unfold in_field, calc_element_offset, calc_element_slot in *.
  assert (i / (32 / BYTES A) = j / (32 / BYTES A)) as Hq by lia.
  pose proof (Z.div_mod i (32 / BYTES A)). pose proof (Z.div_mod j (32 / BYTES A)).
  assert (i mod (32 / BYTES A) ≠ j mod (32 / BYTES A)) by nia. nia.
Qed.
End places.

(** ** The handler *)
Section handler.
Context `{Primitives} {S : Type} `{LawfulOps S} {A : Type} `{LawfulStorable A}.
Context (Hstatic : IS_DYNAMIC A = false) (slot data : Z) (Hdata : data = calc_data_slot slot).
Implicit Types (s : S) (l : list A).

Definition vec_slot (i : Z) : Z := elem_slot (A := A) data i.
Definition vec_ctx (i : Z) : LayoutCtx := elem_ctx (A := A) data i.

(** The hashed data does not reach the slot of the length. *)
Definition data_apart : Prop := ∀ j, 0 ≤ j ≤ U32_MAX → word_add data j ≠ slot.
Hypothesis (Hsep : data_apart).

Definition vec_rep s l : Prop :=
  words s ∧ cell s slot = Z.of_nat (length l) ∧ Z.of_nat (length l) ≤ max_index (A := A) ∧
  ∀ i v, l !! i = Some v → holds s (vec_slot (Z.of_nat i)) (vec_ctx (Z.of_nat i)) v.

(** Only the length and the data of the vector change. *)
Definition vec_frame s s' : Prop :=
  ∀ k, k ≠ slot → (∀ j, 0 ≤ j ≤ U32_MAX → k ≠ word_add data j) → cell s' k = cell s k.

Lemma max_index_le : 0 ≤ max_index (A := A) ≤ U32_MAX.
Proof.
  unfold max_index. pose proof (slots_pos (A := A)). destruct (Z.leb_spec (BYTES A) 16) as [Hb|Hb].
  - destruct (small_bytes (A := A) Hb) as (_ & _ & ? & _). unfold U32_MAX.
    split; [apply Z.div_pos; lia|apply Z.div_le_upper_bound; nia].
  - unfold U32_MAX. split; [apply Z.div_pos; lia|apply Z.div_le_upper_bound; nia].
Qed.

Lemma vec_len_ok s l : vec_rep s l → vec_len s slot = Ok (Z.of_nat (length l)).
Proof.
  intros (_ & Hc & Hm & _). pose proof max_index_le. unfold vec_len, load_checked_len. rewrite load_cell, Hc.
  cbn. by rewrite (proj2 (Z.leb_le _ U32_MAX)) by lia.
Qed.

Lemma elem_apart i (v : A) k b : 0 ≤ i < max_index (A := A) → extent_of (vec_slot i) (vec_ctx i) v k b → k ≠ slot.
Proof.
  intros Hi Hx. destruct (elem_extent_slots data Hstatic i v k b Hi Hx) as (j & _ & Hj & ->). by apply Hsep.
Qed.

(** The place of an element, as the handler splits it. *)
Lemma handler_eq i : compute_handler (A := A) (calc_data_slot slot) i = (vec_slot i, vec_ctx i).
Proof. rewrite <- Hdata. unfold vec_slot, vec_ctx, elem_slot, elem_ctx. by destruct (compute_handler _ _). Qed.

Lemma frame_elem s s' i (v : A) :
  0 ≤ i < max_index (A := A) → frame (extent_of (vec_slot i) (vec_ctx i) v) s s' → vec_frame s s' ∧ cell s' slot = cell s slot.
Proof.
  intros Hi Hf. split.
  - intros k Hk Hkd. apply Z.bits_inj'. intros b Hb. apply Hf; [done|]. intros Hx.
    destruct (elem_extent_slots data Hstatic i v k b Hi Hx) as (j & _ & Hj & ->). by eapply Hkd.
  - apply Z.bits_inj'. intros b Hb. apply Hf; [done|]. intros Hx. by eapply elem_apart.
Qed.

(** Writing the length keeps the elements. *)
Lemma holds_len s n i (v : A) : 0 ≤ i < max_index (A := A) → holds s (vec_slot i) (vec_ctx i) v →
  holds (put slot n s) (vec_slot i) (vec_ctx i) v.
Proof.
  intros Hi Hh. eapply holds_frame; [exact Hh|apply frame_put|]. intros k b Hb -> Hx. by eapply elem_apart.
Qed.

Lemma rep_lookup_bound s l i v : vec_rep s l → l !! i = Some v → 0 ≤ Z.of_nat i < max_index (A := A).
Proof. intros (_ & _ & Hm & _) Hi%lookup_lt_Some. lia. Qed.

Lemma push_ok s l v :
  vec_rep s l → Z.of_nat (length l) < max_index (A := A) → placed (vec_slot (Z.of_nat (length l))) v →
  ∃ s', vec_handler_push slot v s = (Ok tt, s') ∧ vec_rep s' (l ++ [v]) ∧ vec_frame s s'.
Proof.
  intros Hrep Hm Hv. set (n := Z.of_nat (length l)) in *.
  destruct (store_holds s (vec_slot n) (vec_ctx n) v) as (s1 & Hrun & Hs1 & Hf & Hh);
    [by apply Hrep|apply elem_slot_range|done|apply elem_ctx_ok; lia|].
  assert (0 ≤ n < max_index (A := A)) as Hn by lia.
  destruct (frame_elem s s1 n v Hn Hf) as [Hfr _]. exists (put slot (n + 1) s1). split; [|split].
  - unfold vec_handler_push. rewrite (sread_bind (λ s, vec_len s slot) _ _ _ (vec_len_ok s l Hrep)). fold n.
    rewrite (pure_bind _ _ _ tt) by (rewrite (proj2 (Z.leb_gt _ _) Hm); done).
    rewrite handler_eq. erewrite sbind_ok by exact Hrun. apply store_put.
  - pose proof max_index_le. unfold U32_MAX in *. split_and!.
    + apply words_put; [done|]. lia.
    + rewrite cell_put, decide_True, length_app by done. cbn. lia.
    + rewrite length_app. cbn. lia.
    + intros i w Hiw. assert (0 ≤ Z.of_nat i < max_index (A := A)) as Hi.
      { apply lookup_lt_Some in Hiw. rewrite length_app in Hiw. cbn in Hiw. lia. }
      apply holds_len; [done|]. apply lookup_app_Some in Hiw as [Hiw|[Hge Hiw]].
      * eapply holds_frame; [by apply Hrep|exact Hf|]. apply elem_disjoint; [done..|].
        apply lookup_lt_Some in Hiw. lia.
      * apply list_lookup_singleton_Some in Hiw as [Hz <-]. replace (Z.of_nat i) with n by lia. done.
  - intros k Hk Hkd. rewrite cell_put, decide_False by done. by apply Hfr.
Qed.

Lemma push_full s l v :
  vec_rep s l → max_index (A := A) ≤ Z.of_nat (length l) → vec_handler_push slot v s = (Err Fatal, s).
Proof.
  intros Hrep Hm. unfold vec_handler_push. rewrite (sread_bind (λ s, vec_len s slot) _ _ _ (vec_len_ok s l Hrep)).
  unfold mbind, SM_bind, sread. by rewrite (proj2 (Z.leb_le _ _) Hm).
Qed.

Lemma pop_ok s l v :
  vec_rep s (l ++ [v]) →
  ∃ s', vec_handler_pop slot s = (Ok (Some v), s') ∧ vec_rep s' l ∧ vec_frame s s'.
Proof.
  intros Hrep. set (n := Z.of_nat (length l)).
  assert ((l ++ [v]) !! length l = Some v) as Hlast by (by apply list_lookup_middle).
  pose proof (rep_lookup_bound _ _ _ _ Hrep Hlast) as Hn. fold n in Hn.
  pose proof (vec_len_ok s _ Hrep) as Hlen. destruct Hrep as (Hs & Hc & Hm & Hel).
  rewrite length_app, Nat2Z.inj_add in *. cbn [length] in *. fold n in Hlen, Hc, Hm.
  destruct (Hel _ _ Hlast s Hs (agree_refl _ _)) as [Hload (s1 & Hdel & Hs1 & Hf & Hcl)].
  destruct (frame_elem s s1 n v Hn Hf) as [Hfr _].
  exists (put slot n s1). split; [|split].
  - unfold vec_handler_pop. rewrite (sread_bind (λ s, vec_len s slot) _ _ _ Hlen).
    rewrite (proj2 (Z.eqb_neq (n + Z.of_nat 1) 0)) by lia. replace (n + Z.of_nat 1 - 1) with n by lia.
    rewrite handler_eq. rewrite (sread_bind (λ s, load s (vec_slot n) (vec_ctx n)) _ _ _ Hload). erewrite sbind_ok by exact Hdel. by rewrite store_bind.
  - pose proof max_index_le. unfold U32_MAX in *. split_and!.
    + apply words_put; [done|]. lia.
    + by rewrite cell_put, decide_True.
    + lia.
    + intros i w Hiw. pose proof (lookup_lt_Some _ _ _ Hiw). apply holds_len; [lia|].
      eapply holds_frame; [apply Hel; by apply lookup_app_l_Some|exact Hf|]. apply elem_disjoint; [done|lia|lia|lia].
  - intros k Hk Hkd. rewrite cell_put, decide_False by done. by apply Hfr.
Qed.

Lemma pop_empty s : vec_rep s [] → vec_handler_pop slot s = (Ok None, s).
Proof. intros Hrep. unfold vec_handler_pop. by rewrite (sread_bind (λ s, vec_len s slot) _ _ _ (vec_len_ok s [] Hrep)). Qed.

Lemma at_ok s l i :
  vec_rep s l → 0 ≤ i →
  match l !! Z.to_nat i with
  | None => vec_handler_at (A := A) s slot i = Ok None
  | Some v => vec_handler_at (A := A) s slot i = Ok (Some (vec_slot i, vec_ctx i)) ∧ load s (vec_slot i) (vec_ctx i) = Ok v
  end.
Proof.
  intros Hrep Hi. unfold vec_handler_at. rewrite (vec_len_ok s l Hrep). cbn.
  destruct (l !! Z.to_nat i) as [v|] eqn:Hv.
  - pose proof (lookup_lt_Some _ _ _ Hv). rewrite (proj2 (Z.leb_gt _ _)) by lia. rewrite handler_eq. split; [done|].
    destruct Hrep as (Hs & _ & _ & Hel). apply Hel in Hv. rewrite Z2Nat.id in Hv by done. by apply holds_load.
  - apply lookup_ge_None in Hv. by rewrite (proj2 (Z.leb_le _ _)) by lia.
Qed.

(** Writing an element through its handler. *)
Lemma write_ok s l i v :
  vec_rep s l → (i < length l)%nat → placed (vec_slot (Z.of_nat i)) v →
  ∃ s', store v (vec_slot (Z.of_nat i)) (vec_ctx (Z.of_nat i)) s = (Ok tt, s') ∧ vec_rep s' (<[i:=v]> l) ∧ vec_frame s s'.
Proof.
  intros (Hs & Hc & Hm & Hel) Hi Hv.
  destruct (store_holds s (vec_slot (Z.of_nat i)) (vec_ctx (Z.of_nat i)) v) as (s1 & Hrun & Hs1 & Hf & Hh);
    [done|apply elem_slot_range|done|apply elem_ctx_ok; lia|].
  destruct (frame_elem s s1 (Z.of_nat i) v) as [Hfr Hcell]; [lia|done|]. exists s1. split; [done|]. split; [|done].
  split_and!; [apply Hs1..|by rewrite Hcell, length_insert|by rewrite length_insert|].
  intros j w [(<- & <- & _)|[Hne Hj]]%list_lookup_insert_Some; [done|].
  pose proof (lookup_lt_Some _ _ _ Hj). eapply holds_frame; [by apply Hel|exact Hf|]. apply elem_disjoint; [done|lia|lia|lia].
Qed.

(** ** Bulk load *)
Lemma mapM_seq_ok {B} (f : Z → Result B) (l : list B) k :
  (∀ i v, l !! i = Some v → f (Z.of_nat (k + i)) = Ok v) → mapM f (Z.of_nat <$> seq k (length l)) = Ok l.
Proof.
  revert k. induction l as [|v l IH]; intros k Hf; [done|]. cbn.
  pose proof (Hf 0%nat v eq_refl) as H0'. rewrite Nat.add_0_r in H0'. rewrite H0'. cbn. rewrite IH; [done|].
  intros i w Hi. rewrite Nat.add_succ_comm. by apply Hf.
Qed.

Lemma seqZ_nat n : seqZ 0 (Z.of_nat n) = Z.of_nat <$> seq 0 n.
Proof. unfold seqZ. rewrite Nat2Z.id. apply list_fmap_ext. intros; lia. Qed.

Lemma load_slot_ok (p : PackedSlot) addr b (chunk : list A) o :
  1 ≤ b → o + Z.of_nat (length chunk) * b ≤ 32 →
  (∀ t v, chunk !! t = Some v → load p addr (packed (o + Z.of_nat t * b)) = Ok v) →
  load_slot_elements p addr b (length chunk) o = Ok chunk.
Proof.
  intros Hb. revert o. induction chunk as [|v chunk IH]; intros o Ho Hl; [done|]. cbn [length load_slot_elements].
  pose proof (Hl 0%nat v eq_refl) as H0'. rewrite Z.mul_0_l, Z.add_0_r in H0'. rewrite H0'. cbn [mbind result_bind].
  destruct chunk as [|v' chunk']; [done|].
  rewrite (proj2 (Z.leb_gt 32 (o + b))) by (cbn [length] in Ho; nia). rewrite IH; [done|cbn [length] in *; lia|].
  intros t w Ht. rewrite <- (Hl (Datatypes.S t) w Ht). f_equal. unfold packed. lia.
Qed.

(** The chunk of elements in a slot. *)
Definition eps : Z := 32 / BYTES A.
Definition slot_chunk l (j : Z) : list A := take (Z.to_nat eps) (drop (Z.to_nat (j * eps)) l).

Lemma chunk_lookup l j t v : 0 ≤ j → 0 ≤ eps → slot_chunk l j !! t = Some v →
  (t < Z.to_nat eps)%nat ∧ l !! Z.to_nat (j * eps + Z.of_nat t) = Some v.
Proof.
  intros Hj He. unfold slot_chunk. rewrite lookup_take_Some, lookup_drop. intros [Hl Ht]. split; [done|].
  rewrite <- Hl. f_equal. lia.
Qed.

Lemma chunk_place j t : BYTES A ≤ 16 → 0 ≤ j → 0 ≤ t < eps →
  vec_slot (j * eps + t) = word_add data j ∧ vec_ctx (j * eps + t) = packed (t * BYTES A).
Proof.
  intros Hb Hj Ht. unfold vec_slot, vec_ctx, elem_slot, elem_ctx, compute_handler, calc_element_loc.
  rewrite (proj2 (Z.leb_le _ _) Hb). cbn [fst snd offset_slots offset_bytes].
  unfold calc_element_slot, calc_element_offset. fold eps.
  rewrite Z.div_add_l, Z.div_small, Z.add_0_r by lia.
  rewrite (Z.add_comm _ t), Z.mod_add, Z.mod_small by lia. done.
Qed.

Lemma slot_count_bounds n : BYTES A ≤ 16 → 0 ≤ n →
  0 ≤ calc_packed_slot_count n (BYTES A) ∧ (calc_packed_slot_count n (BYTES A) - 1) * eps < n ≤ calc_packed_slot_count n (BYTES A) * eps.
Proof.
  intros Hb Hn. destruct (small_bytes (A := A) Hb) as (_ & _ & _ & He & _). unfold calc_packed_slot_count. fold eps in *.
  pose proof (div_ceil_spec n eps). pose proof (div_ceil_nonneg n eps). lia.
Qed.

Lemma bulk_load_ok s l ctx : vec_rep s l → load s slot ctx = Ok l.
Proof.
  intros Hrep. cbn [load vec_storable]. rewrite <- Hdata. fold (vec_len s slot). rewrite (vec_len_ok s l Hrep). cbn [mbind result_bind].
  destruct Hrep as (Hs & Hc & Hm & Hel).
  destruct (Z.eqb_spec (Z.of_nat (length l)) 0) as [Hz|Hz]; [by destruct l|].
  destruct (Z.leb_spec (BYTES A) 16) as [Hb|Hb].
  - destruct (small_bytes (A := A) Hb) as (Hpk & _ & Hb1 & He & Hb32). fold eps in He, Hb32.
    pose proof (slot_count_bounds (Z.of_nat (length l)) Hb ltac:(lia)) as [Hsc0 Hsc].
    unfold load_packed_elements. set (count := calc_packed_slot_count _ _) in *.
    rewrite (mapM_ok _ (slot_chunk l)).
    + cbn [mbind result_bind]. f_equal. rewrite (concat_chunksZ (Z.to_nat eps) _ _ l); [apply take_ge; nia|].
      intros j Hj. unfold slot_chunk. do 3 f_equal. lia.
    + intros j Hj%elem_of_seqZ. rewrite load_cell. cbn [mbind result_bind]. fold eps.
      assert (length (slot_chunk l j) = Z.to_nat (if j =? count - 1 then Z.of_nat (length l) - j * eps else eps)) as Hlen.
      { unfold slot_chunk. rewrite length_take, length_drop. destruct (Z.eqb_spec j (count - 1)); nia. }
      rewrite <- Hlen. apply load_slot_ok; [done| |].
      { assert (length (slot_chunk l j) ≤ Z.to_nat eps)%nat by (unfold slot_chunk; rewrite length_take; lia). nia. }
      intros t v Ht. apply chunk_lookup in Ht as [Ht Hl]; [|lia..].
      destruct (chunk_place j (Z.of_nat t) Hb) as [Hsl Hctx]; [lia..|].
      apply Hel, (holds_load _ _ _ _ Hs) in Hl. rewrite Z2Nat.id, Hsl, Hctx in Hl by lia.
      rewrite <- Hl. symmetry. cbn [Z.add]. apply law_word_load; [done|]. unfold FULL, U64_MAX. nia.
  - unfold load_unpacked_elements. rewrite seqZ_nat. apply mapM_seq_ok. intros i v Hi. cbn.
    apply Hel, (holds_load _ _ _ _ Hs) in Hi.
    unfold vec_slot, vec_ctx, elem_slot, elem_ctx, compute_handler in Hi. by rewrite (proj2 (Z.leb_gt _ _) Hb) in Hi.
Qed.

(** ** Bulk store *)
Lemma sfor_app {B} (l1 l2 : list B) (f : B → SM S unit) s s1 :
  sfor l1 f s = (Ok tt, s1) → sfor (l1 ++ l2) f s = sfor l2 f s1.
Proof.
  revert s. induction l1 as [|a l1 IH]; intros s Hrun; [by injection Hrun as ->|].
  cbn in *. unfold mbind, SM_bind in *. destruct (f a s) as [[[]|] s2]; [by apply IH|done].
Qed.

(** A word built from zero in memory and written once is the elements written one by one. *)
Lemma build_ok s k b (chunk : list A) o w :
  BYTES A = b → IS_PACKABLE A = true → 0 ≤ k < 2 ^ 256 → 0 ≤ o → o + Z.of_nat (length chunk) * b ≤ 32 →
  words (put k w s) → Forall (placed k) chunk →
  ∃ w', build_packed_slot_from chunk b o (mkPackedSlot w) = (Ok tt, mkPackedSlot w') ∧ words (put k w' s) ∧
    frame (λ k' i, k' = k ∧ 8 * o ≤ i) (put k w s) (put k w' s) ∧
    ∀ t v, chunk !! t = Some v → holds (put k w' s) k (packed (o + Z.of_nat t * b)) v.
Proof.
  intros Hb Hpk Hk. pose proof (bytes_slots _ (law_layout (A := A))) as (Hb1 & _). fold (BYTES A) in Hb1.
  revert o w. induction chunk as [|v chunk IH]; intros o w Ho Hlen Hw Hpl; [by exists w|].
  apply Forall_cons in Hpl as [Hv Hpl]. cbn [length] in Hlen.
  assert (o ≠ FULL) as HoF by (unfold FULL, U64_MAX; nia).
  destruct (store_holds (put k w s) k (packed o) v) as (s1 & Hrun & Hs1 & Hf & Hh); [done|done|done| |].
  { unfold ctx_ok. rewrite packed_offset_packed by done. split; [done|]. nia. }
  rewrite law_word_store in Hrun by done. rewrite cell_put, decide_True in Hrun by done. unfold store_in_word in Hrun.
  destruct (store v 0 (packed o) (mkPackedSlot w)) as [[[]|e] [w1]] eqn:Hst; [|done]. injection Hrun as <-.
  cbn [packed_word] in *. rewrite put_put in *.
  destruct (IH (o + b) w1) as (w' & Hbuild & Hw' & Hf' & Hh'); [lia|lia|done|done|].
  exists w'. split; [cbn [build_packed_slot_from]; unfold mbind, SM_bind; by rewrite Hst|]. split; [done|].
  assert (∀ k' i, 0 ≤ i → extent_of k (packed o) v k' i ↔ k' = k ∧ in_field o b i = true) as Hext.
  { intros k' i Hi. rewrite law_packed by done. unfold field_extent. by rewrite Hb. }
  split.
  - intros k' i Hi Hk'. rewrite Hf', Hf; [done|done| |done|].
    + rewrite Hext by done. intros [-> Hin]. apply Hk'. unfold in_field in Hin. split; [done|lia].
    + intros [-> Hge]. apply Hk'. split; [done|lia].
  - intros [|t] u Ht; cbn in Ht.
    + injection Ht as <-. rewrite Z.mul_0_l, Z.add_0_r. eapply holds_frame; [exact Hh|exact Hf'|].
      intros k' i Hi [-> Hge] Hx. apply Hext in Hx as [_ Hin]; [|done]. unfold in_field in Hin. lia.
    + apply Hh' in Ht. replace (o + Z.of_nat (Datatypes.S t) * b) with (o + b + Z.of_nat t * b) by lia. done.
Qed.

(** The elements stored so far, the first [n] of the list. *)
Definition prefix_stored s l (n : Z) : Prop :=
  ∀ i v, l !! i = Some v → Z.of_nat i < n → holds s (vec_slot (Z.of_nat i)) (vec_ctx (Z.of_nat i)) v.
Definition elems_placed l : Prop := ∀ i v, l !! i = Some v → placed (vec_slot (Z.of_nat i)) v.

Lemma store_packed_ok s l (m : nat) :
  BYTES A ≤ 16 → words s → elems_placed l → Z.of_nat (length l) ≤ max_index (A := A) →
  Z.of_nat m ≤ calc_packed_slot_count (Z.of_nat (length l)) (BYTES A) →
  ∃ s', sfor (seqZ 0 (Z.of_nat m)) (λ slot_idx,
      slot_value ← sread (λ _, build_packed_slot (slot_chunk l slot_idx) (BYTES A));
      ops_store (word_add data slot_idx) slot_value) s = (Ok tt, s') ∧
    words s' ∧ prefix_stored s' l (Z.of_nat m * eps) ∧ cell s' slot = cell s slot ∧ vec_frame s s'.
Proof.
  intros Hb Hs Hpl Hmax. destruct (small_bytes (A := A) Hb) as (Hpk & _ & Hb1 & He & Hb32). fold eps in He, Hb32.
  pose proof (slot_count_bounds (Z.of_nat (length l)) Hb ltac:(lia)) as [Hsc0 Hsc]. pose proof max_index_le as [_ HmU].
  induction m as [|m IH]; intros Hm; [exists s; split_and!; try done; intros i v _ Hi; lia|].
  destruct IH as (s1 & Hrun & Hs1 & Hpre & Hcell & Hfr); [lia|]. set (j := Z.of_nat m) in *. set (k := word_add data j).
  assert (∀ t v, slot_chunk l j !! t = Some v → (t < Z.to_nat eps)%nat ∧ l !! Z.to_nat (j * eps + Z.of_nat t) = Some v) as Hchunk.
  { intros t v. apply chunk_lookup; lia. }
  destruct (build_ok s1 k (BYTES A) (slot_chunk l j) 0 0) as (w & Hbuild & Hw & Hf & Hh); [done|done|apply word_add_range|lia| | | |].
  { unfold slot_chunk. rewrite length_take. nia. }
  { by apply words_put. }
  { apply Forall_lookup. intros t v Ht. apply Hchunk in Ht as [Ht Hl]. apply Hpl in Hl. rewrite Z2Nat.id in Hl by lia.
    by rewrite (proj1 (chunk_place j (Z.of_nat t) Hb ltac:(lia) ltac:(lia))) in Hl. }
  assert (0 ≤ j ≤ U32_MAX) as HjU by nia.
  exists (put k w s1). split_and!.
  - rewrite Nat2Z.inj_succ, <- Z.add_1_r, seqZ_app by lia. rewrite (sfor_app _ _ _ _ _ Hrun). cbn [seqZ].
    replace (0 + Z.of_nat m) with j by lia. change (seqZ j 1) with [0 + j]. cbn [sfor].
    replace (0 + j) with j by lia. unfold build_packed_slot, mbind, SM_bind, sread. rewrite Hbuild. cbn [packed_word].
    fold k. by rewrite store_put.
  - exact Hw.
  - intros i v Hi Hlt. destruct (Z.lt_ge_cases (Z.of_nat i) (j * eps)) as [Hold|Hnew].
    + eapply holds_frame; [by apply Hpre|apply (frame_put k)|]. intros k' b Hb' -> Hx.
      pose proof (lookup_lt_Some _ _ _ Hi).
      destruct (elem_extent_slots data Hstatic (Z.of_nat i) v k b ltac:(lia) Hx) as (j' & Hj' & Hj'U & Heq).
      unfold k in Heq. apply word_add_inj in Heq; [|unfold U32_MAX in *; lia..]. subst j'.
      unfold elem_index in Hj'. rewrite (proj2 (Z.leb_le _ _) Hb) in Hj'. unfold calc_element_slot in Hj'. fold eps in Hj'.
      assert (Z.of_nat i / eps < j) by (apply Z.div_lt_upper_bound; lia). lia.
    + assert (slot_chunk l j !! (i - Z.to_nat (j * eps))%nat = Some v) as Ht.
      { unfold slot_chunk. rewrite lookup_take_Some, lookup_drop. split; [|nia]. rewrite <- Hi. f_equal. lia. }
      apply Hh in Ht. destruct (chunk_place j (Z.of_nat (i - Z.to_nat (j * eps))) Hb) as [Hsl Hctx]; [lia|nia|].
      replace (j * eps + Z.of_nat (i - Z.to_nat (j * eps))) with (Z.of_nat i) in * by lia.
      rewrite Hsl, Hctx. exact Ht.
  - rewrite cell_put, decide_False; [done|]. by apply Hsep.
  - intros k' Hk' Hkd. rewrite cell_put, decide_False; [by apply Hfr|]. intros <-. by eapply Hkd.
Qed.

Lemma store_unpacked_ok s l :
  16 < BYTES A → words s → elems_placed l → Z.of_nat (length l) ≤ max_index (A := A) →
  ∃ s', store_unpacked_elements l data s = (Ok tt, s') ∧
    words s' ∧ prefix_stored s' l (Z.of_nat (length l)) ∧ cell s' slot = cell s slot ∧ vec_frame s s'.
Proof.
  intros Hb Hs. unfold store_unpacked_elements.
  induction l as [|v l IH] using rev_ind; intros Hpl Hmax; [by exists s; split_and!|].
  rewrite length_app in Hmax. cbn [length] in Hmax.
  destruct IH as (s1 & Hrun & Hs1 & Hpre & Hcell & Hfr); [|lia|].
  { intros i w Hi. apply Hpl. by apply lookup_app_l_Some. }
  set (n := Z.of_nat (length l)) in *.
  assert (vec_slot n = word_add data (n * SLOTS A) ∧ vec_ctx n = FULL) as [Hsl Hctx].
  { unfold vec_slot, vec_ctx, elem_slot, elem_ctx, compute_handler. by rewrite (proj2 (Z.leb_gt _ _) Hb). }
  destruct (store_holds s1 (vec_slot n) (vec_ctx n) v) as (s2 & Hrun2 & Hs2 & Hf & Hh);
    [done|apply elem_slot_range|apply Hpl; by apply list_lookup_middle|apply elem_ctx_ok; lia|].
  destruct (frame_elem s1 s2 n v) as [Hfr2 Hcell2]; [lia|done|]. exists s2. split_and!.
  - rewrite length_app, Nat2Z.inj_add. cbn [length]. fold n. rewrite seqZ_app by lia.
    rewrite zip_with_app by (rewrite length_seqZ; lia). rewrite (sfor_app _ _ _ _ _ Hrun).
    change (seqZ (0 + n) (Z.of_nat 1)) with [0 + (0 + n)]. cbn [zip_with sfor]. replace (0 + (0 + n)) with n by lia.
    rewrite <- Hsl, <- Hctx. unfold mbind, SM_bind. by rewrite Hrun2.
  - exact Hs2.
  - intros i w Hi _. pose proof (lookup_lt_Some _ _ _ Hi) as Hlt. rewrite length_app in Hlt. cbn [length] in Hlt.
    apply lookup_app_Some in Hi as [Hi|[Hge Hi]].
    + pose proof (lookup_lt_Some _ _ _ Hi). eapply holds_frame; [apply (Hpre i w Hi); lia|exact Hf|].
      apply elem_disjoint; [done|lia|lia|lia].
    + apply list_lookup_singleton_Some in Hi as [Hz <-]. replace (Z.of_nat i) with n by lia. done.
  - by rewrite Hcell2.
  - intros k Hk Hkd. rewrite Hfr2, Hfr by done. done.
Qed.

Lemma bulk_store_ok s l ctx :
  words s → elems_placed l → Z.of_nat (length l) ≤ max_index (A := A) →
  ∃ s', store l slot ctx s = (Ok tt, s') ∧ vec_rep s' l ∧ vec_frame s s'.
Proof.
  intros Hs Hpl Hmax. pose proof max_index_le as [_ HmU]. unfold U32_MAX in *. set (n := Z.of_nat (length l)) in *.
  assert (words (put slot n s)) as Hs0 by (apply words_put; [done|lia]).
  assert (∀ s', vec_frame (put slot n s) s' → vec_frame s s') as Hfr0.
  { intros s' Hfr k Hk Hkd. rewrite Hfr, cell_put, decide_False by done. done. }
  cbn [store vec_storable]. rewrite <- Hdata. fold n. rewrite store_bind. destruct (Nat.eqb_spec (length l) 0) as [Hz|Hz].
  { exists (put slot n s). split; [done|]. split; [|by apply Hfr0]. split; [done|].
    split; [by rewrite cell_put, decide_True|]. split; [done|]. intros i v Hi%lookup_lt_Some. lia. }
  assert (∃ s', (if BYTES A <=? 16 then store_packed_elements l data (BYTES A) else store_unpacked_elements l data)
    (put slot n s) = (Ok tt, s') ∧ words s' ∧ prefix_stored s' l n ∧ cell s' slot = cell (put slot n s) slot ∧
    vec_frame (put slot n s) s') as (s' & Hrun & Hs' & Hpre & Hcell & Hfr).
  { destruct (Z.leb_spec (BYTES A) 16) as [Hb|Hb]; [|by apply store_unpacked_ok].
    pose proof (slot_count_bounds n Hb ltac:(lia)) as [Hsc0 Hsc].
    destruct (store_packed_ok (put slot n s) l (Z.to_nat (calc_packed_slot_count n (BYTES A))) Hb Hs0 Hpl Hmax)
      as (s' & Hrun & Hs' & Hpre & Hrest); [fold n; lia|].
    rewrite Z2Nat.id in Hrun, Hpre by lia. exists s'. split; [exact Hrun|]. split; [done|]. split; [|done].
    intros i v Hi Hlt. apply Hpre; [done|lia]. }
  exists s'. split; [exact Hrun|]. split; [|by apply Hfr0]. split; [done|].
  split; [by rewrite Hcell, cell_put, decide_True|]. split; [done|].
  intros i v Hi. apply Hpre; [done|]. apply lookup_lt_Some in Hi. lia.
Qed.

(** ** Bulk delete *)
Definition elems_cleared s l : Prop :=
  ∀ i v, l !! i = Some v → cleared (extent_of (vec_slot (Z.of_nat i)) (vec_ctx (Z.of_nat i)) v) s.

Lemma delete_unpacked_ok s l :
  16 < BYTES A → words s → Z.of_nat (length l) ≤ max_index (A := A) →
  (∀ i v, l !! i = Some v → holds s (vec_slot (Z.of_nat i)) (vec_ctx (Z.of_nat i)) v) →
  ∃ s', sfor (seqZ 0 (Z.of_nat (length l))) (λ elem_idx, delete_at A (word_add data (elem_idx * SLOTS A)) FULL) s = (Ok tt, s') ∧
    words s' ∧ elems_cleared s' l ∧ cell s' slot = cell s slot ∧ vec_frame s s' ∧
    ∀ j w, Z.of_nat (length l) ≤ j < max_index (A := A) → holds s (vec_slot j) (vec_ctx j) w → holds s' (vec_slot j) (vec_ctx j) w.
Proof.
  intros Hb Hs. induction l as [|v l IH] using rev_ind; intros Hmax Hel; [by exists s; split_and!|].
  rewrite length_app in *. cbn [length] in *. rewrite Nat2Z.inj_add. set (n := Z.of_nat (length l)) in *.
  destruct IH as (s1 & Hrun & Hs1 & Hcl & Hcell & Hfr & Hkeep); [lia| |].
  { intros i w Hi. apply Hel. by apply lookup_app_l_Some. }
  assert (holds s1 (vec_slot n) (vec_ctx n) v) as Hh.
  { apply Hkeep; [lia|]. apply Hel. by apply list_lookup_middle. }
  assert (vec_slot n = word_add data (n * SLOTS A) ∧ vec_ctx n = FULL) as [Hsl Hctx].
  { unfold vec_slot, vec_ctx, elem_slot, elem_ctx, compute_handler. by rewrite (proj2 (Z.leb_gt _ _) Hb). }
  destruct (Hh s1 Hs1 (agree_refl _ _)) as [_ (s2 & Hdel & Hs2 & Hf & Hc2)].
  destruct (frame_elem s1 s2 n v) as [Hfr2 Hcell2]; [lia|done|]. exists s2. split_and!.
  - rewrite seqZ_app by lia. rewrite (sfor_app _ _ _ _ _ Hrun).
    change (seqZ (0 + n) (Z.of_nat 1)) with [0 + (0 + n)]. cbn [sfor]. replace (0 + (0 + n)) with n by lia.
    rewrite <- Hsl, <- Hctx. unfold mbind, SM_bind. by rewrite Hdel.
  - exact Hs2.
  - intros i w Hi. pose proof (lookup_lt_Some _ _ _ Hi) as Hlt. rewrite length_app in Hlt. cbn [length] in Hlt.
    apply lookup_app_Some in Hi as [Hi|[Hge Hi]].
    + pose proof (lookup_lt_Some _ _ _ Hi). eapply cleared_agree; [by apply Hcl|]. eapply frame_agree; [exact Hf|].
      apply elem_disjoint; [done|lia|lia|lia].
    + apply list_lookup_singleton_Some in Hi as [Hz <-]. replace (Z.of_nat i) with n by lia. done.
  - by rewrite Hcell2.
  - intros k Hk Hkd. rewrite Hfr2, Hfr by done. done.
  - intros j w Hj Hhj. eapply holds_frame; [apply Hkeep; [lia|done]|exact Hf|]. apply elem_disjoint; [done|lia|lia|lia].
Qed.

Lemma bulk_delete_ok s l ctx :
  vec_rep s l →
  ∃ s', delete_at (list A) slot ctx s = (Ok tt, s') ∧ vec_rep s' [] ∧ elems_cleared s' l ∧ vec_frame s s'.
Proof.
  intros Hrep. pose proof (vec_len_ok s l Hrep) as Hlen. destruct Hrep as (Hs & Hc & Hm & Hel).
  pose proof max_index_le as [Hm0 HmU]. cbn [delete_at vec_storable]. rewrite <- Hdata.
  rewrite (sread_bind (λ s, load_checked_len s slot) _ _ _ Hlen), store_bind. set (n := Z.of_nat (length l)) in *.
  assert (words (put slot 0 s)) as Hs0 by (by apply words_put).
  assert (∀ s', vec_frame (put slot 0 s) s' → vec_frame s s') as Hfr0.
  { intros s' Hfr k Hk Hkd. rewrite Hfr, cell_put, decide_False by done. done. }
  assert (∀ s', words s' → cell s' slot = cell (put slot 0 s) slot → vec_rep s' []) as Hnil.
  { intros s' Hs' Hcell. split_and!; [done|by rewrite Hcell, cell_put, decide_True|done|done]. }
  destruct (Z.eqb_spec n 0) as [Hz|Hz].
  { exists (put slot 0 s). split; [done|]. split; [by apply Hnil|]. split; [|by apply Hfr0].
    intros i v Hi%lookup_lt_Some. lia. }
  destruct (Z.leb_spec (BYTES A) 16) as [Hb|Hb].
  - pose proof (slot_count_bounds n Hb ltac:(lia)) as [Hsc0 Hsc]. destruct (small_bytes (A := A) Hb) as (_ & _ & _ & He & _).
    fold eps in He. set (count := calc_packed_slot_count n (BYTES A)) in *.
    destruct (clear_slots (seqZ 0 count) (word_add data) (put slot 0 s) Hs0) as (s' & Hrun & Hs' & Hf & Hcl).
    assert (∀ k, (∃ j, j ∈ seqZ 0 count ∧ k = word_add data j) → ∃ j, 0 ≤ j ≤ U32_MAX ∧ k = word_add data j) as Hin.
    { intros k (j & Hj%elem_of_seqZ & ->). exists j. split; [nia|done]. }
    exists s'. split; [done|]. split; [|split; [|apply Hfr0]].
    + apply Hnil; [done|]. apply Z.bits_inj'. intros b Hb'. apply Hf; [done|]. intros (j & Hj & Heq)%Hin. by apply (Hsep j).
    + intros i v Hi k b Hb' Hx. pose proof (lookup_lt_Some _ _ _ Hi).
      destruct (elem_extent_slots data Hstatic (Z.of_nat i) v k b ltac:(lia) Hx) as (j & Hj & _ & ->).
      apply Hcl; [done|]. exists j. split; [|done]. apply elem_of_seqZ.
      unfold elem_index in Hj. rewrite (proj2 (Z.leb_le _ _) Hb) in Hj. unfold calc_element_slot in Hj. fold eps in Hj.
      pose proof (Z.div_pos (Z.of_nat i) eps). assert (Z.of_nat i / eps < count) by (apply Z.div_lt_upper_bound; nia). lia.
    + intros k Hk Hkd. apply Z.bits_inj'. intros b Hb'. apply Hf; [done|]. intros (j & Hj & ->)%Hin. by eapply Hkd.
  - destruct (delete_unpacked_ok (put slot 0 s) l Hb Hs0 Hm) as (s' & Hrun & Hs' & Hcl & Hcell & Hfr & _).
    { intros i v Hi. pose proof (lookup_lt_Some _ _ _ Hi). apply holds_len; [lia|]. by apply Hel. }
    exists s'. split; [done|]. split; [by apply Hnil|]. split; [done|by apply Hfr0].
Qed.
End handler.

(** C22: A vector in storage is a list: on a state that represents [l], the length and the bulk
    read are those of [l], [at] gives the place of the element or [None] past the end,
    [push] appends unless the vector is full (then it fails and changes nothing), [pop] returns
    the last element and removes it, and an overwrite of the whole vector or its deletion
    leave the new list or the empty one with the old elements zeroed.  No operation touches a
    slot outside the length and the data of the vector.  This holds whether several elements
    share a slot or one element takes several, provided the hashed data does not hit the length. *)
Theorem vec_refines_list `{Primitives} {S} `{LawfulOps S} {A} `{LawfulStorable A} (slot : Z) (s : S) (l : list A) :
  IS_DYNAMIC A = false → data_apart slot (calc_data_slot slot) → vec_rep slot (calc_data_slot slot) s l →
  vec_len s slot = Ok (Z.of_nat (length l)) ∧
  load s slot FULL = Ok l ∧
  (∀ i, 0 ≤ i → match l !! Z.to_nat i with
    | None => vec_handler_at (A := A) s slot i = Ok None
    | Some v => ∃ k ctx, vec_handler_at (A := A) s slot i = Ok (Some (k, ctx)) ∧ load s k ctx = Ok v
    end) ∧
  (∀ v, placed (vec_slot (A := A) (calc_data_slot slot) (Z.of_nat (length l))) v →
    if Z.of_nat (length l) <? max_index (A := A)
    then ∃ s', vec_handler_push slot v s = (Ok tt, s') ∧ vec_rep slot (calc_data_slot slot) s' (l ++ [v]) ∧ vec_frame slot (calc_data_slot slot) s s'
    else vec_handler_push slot v s = (Err Fatal, s)) ∧
  (match last l with
   | None => vec_handler_pop (A := A) slot s = (Ok None, s)
   | Some v => ∃ s', vec_handler_pop slot s = (Ok (Some v), s') ∧
       vec_rep slot (calc_data_slot slot) s' (take (length l - 1) l) ∧ vec_frame slot (calc_data_slot slot) s s'
   end) ∧
  (∀ l' : list A, elems_placed (calc_data_slot slot) l' → Z.of_nat (length l') ≤ max_index (A := A) →
    ∃ s', store l' slot FULL s = (Ok tt, s') ∧ vec_rep slot (calc_data_slot slot) s' l' ∧ vec_frame slot (calc_data_slot slot) s s') ∧
  (∃ s', delete_at (list A) slot FULL s = (Ok tt, s') ∧ vec_rep (A := A) slot (calc_data_slot slot) s' [] ∧
    elems_cleared (calc_data_slot slot) s' l ∧ vec_frame slot (calc_data_slot slot) s s').
Proof.
  intros Hst Hsep Hrep. set (data := calc_data_slot slot) in *.
  refine (conj (vec_len_ok slot data s l Hrep) (conj (bulk_load_ok slot data eq_refl s l FULL Hrep) (conj _ (conj _ (conj _ (conj _ _)))))).
  - intros i Hi. pose proof (at_ok slot data eq_refl s l i Hrep Hi) as Hat. destruct (l !! Z.to_nat i) as [v|]; [|done]. eauto.
  - intros v Hv. destruct (Z.ltb_spec (Z.of_nat (length l)) (max_index (A := A)));
      [by apply (push_ok Hst slot data eq_refl Hsep)|by apply (push_full slot data s l)].
  - destruct (last l) as [v|] eqn:Hl; [|apply last_None in Hl; subst l; by apply (pop_empty slot data)].
    apply last_Some in Hl as [l0 ->]. rewrite length_app. cbn [length]. rewrite Nat.add_sub, take_app_length.
    by apply (pop_ok Hst slot data eq_refl Hsep).
  - intros l' Hpl Hm. apply (bulk_store_ok Hst slot data eq_refl Hsep); [apply Hrep|done|done].
  - by apply (bulk_delete_ok Hst slot data eq_refl Hsep).
Qed.
