(* ===== verification/StorageArrays.v ===== *)
(** * Fixed-size arrays in storage

    The [load] and [store] generated for arrays of primitives agree with each other and
    with the places where [ArrayHandler] looks for the elements: they are the loops of a
    vector's data, without a length. *)
From Stdlib Require Import ZArith Lia.
From stdpp Require Import base tactics option list list_numbers.
From S2P Require Import Prelude Base StorageWords StorageTypes StorageLayout StorageLaws StorageBytes StorageStructs StorageVecs.
Open Scope Z_scope.

Section arrays.
Context {A : Type} {n : Z} `{Primitive A n} `{StorableType A}.
Hypotheses (Hlayout : LAYOUT A = Bytes n) (Hstatic : IS_DYNAMIC A = false).

#[local] Instance elem_storable : Storable A := primitive_storable n.
#[local] Instance elem_lawful : LawfulStorable A := primitive_lawful Hlayout Hstatic.

Lemma array_bytes : BYTES A = n.
Proof. unfold BYTES. by rewrite Hlayout. Qed.

Lemma store_word (e : A) o w : n < 32 → o ≠ FULL →
  store e 0 (packed o) (mkPackedSlot w) =
  match insert_into_word w e o n with
  | Ok w1 => (Ok tt, mkPackedSlot w1)
  | Err err => (Err err, mkPackedSlot w)
  end.
Proof.
  intros Hn Ho. unfold elem_storable, primitive_storable. rewrite (proj2 (Z.ltb_lt n 32) Hn). cbn [store packable_storable].
  rewrite packed_offset_packed, array_bytes by done. unfold mbind, SM_bind, sread. cbn. by destruct (insert_into_word _ _ _ _).
Qed.

(** ** The word of a slot

    The loop over the whole array picks the elements of the slot: it builds the same word
    as the loop over the chunk. *)
Definition pick (j : Z) : Result Z → Z * A → Result Z := λ acc '(i, elem),
  slot_value ← acc;
  if calc_element_slot i n =? j then insert_into_word slot_value elem (calc_element_offset i n) n else Ok slot_value.

Lemma pick_skip j (l : list A) k w :
  (∀ t, (t < length l)%nat → calc_element_slot (k + Z.of_nat t) n ≠ j) →
  fold_left (pick j) (zip (seqZ k (Z.of_nat (length l))) l) (Ok w) = Ok w.
Proof.
  revert k. induction l as [|e l IH]; intros k Hne; [by rewrite zip_with_nil_r|].
  cbn [length]. rewrite Nat2Z.inj_succ, seqZ_cons by lia. replace (Z.pred (Z.succ (Z.of_nat (length l)))) with (Z.of_nat (length l)) by lia.
  cbn [zip_with fold_left]. unfold pick at 2. cbn [fst snd mbind result_bind].
  rewrite (proj2 (Z.eqb_neq _ _)).
  - apply IH. intros t Ht. specialize (Hne (Datatypes.S t)). cbn [length] in Hne.
    replace (Z.succ k + Z.of_nat t) with (k + Z.of_nat (Datatypes.S t)) by lia. apply Hne. lia.
  - specialize (Hne 0%nat). rewrite Z.add_0_r in Hne. apply Hne. cbn. lia.
Qed.

Lemma pick_chunk j (chunk : list A) t0 w w' :
  n ≤ 16 → 0 ≤ j → 0 ≤ t0 → t0 + Z.of_nat (length chunk) ≤ 32 / n →
  build_packed_slot_from chunk n (t0 * n) (mkPackedSlot w) = (Ok tt, mkPackedSlot w') →
  fold_left (pick j) (zip (seqZ (j * (32 / n) + t0) (Z.of_nat (length chunk))) chunk) (Ok w) = Ok w'.
Proof.
  intros Hn Hj. pose proof prim_bytes as Hb. revert t0 w. induction chunk as [|e chunk IH]; intros t0 w Ht0 Hlen Hbuild.
  { rewrite zip_with_nil_r. by injection Hbuild as ->. }
  cbn [length] in *. rewrite Nat2Z.inj_succ, seqZ_cons by lia.
  replace (Z.pred (Z.succ (Z.of_nat (length chunk)))) with (Z.of_nat (length chunk)) by lia.
  assert (2 ≤ 32 / n) by (apply Z.div_le_lower_bound; lia). pose proof (Z.mul_div_le 32 n).
  assert (calc_element_slot (j * (32 / n) + t0) n = j ∧ calc_element_offset (j * (32 / n) + t0) n = t0 * n) as [Hsl Hoff].
  { unfold calc_element_slot, calc_element_offset. rewrite Z.div_add_l, Z.div_small by lia.
    rewrite (Z.add_comm _ t0), Z.mod_add, Z.mod_small by lia. lia. }
  cbn [zip_with fold_left build_packed_slot_from] in *. unfold pick at 2. cbn [fst snd mbind result_bind].
  rewrite Hsl, Hoff, Z.eqb_refl. revert Hbuild. unfold mbind, SM_bind.
  rewrite store_word by (unfold FULL, U64_MAX; nia).
  destruct (insert_into_word w e (t0 * n) n) as [w1|err]; [|done]. cbn. intros Hbuild.
  replace (Z.succ (j * (32 / n) + t0)) with (j * (32 / n) + (t0 + 1)) by lia. apply IH; [lia|lia|].
  rewrite Z.mul_add_distr_r, Z.mul_1_l. exact Hbuild.
Qed.

Lemma pack_slot_eq (l : list A) j w :
  n ≤ 16 → 0 ≤ j → build_packed_slot (slot_chunk l j) n = Ok w → pack_array_slot (length l) n l j = Ok w.
Proof.
  intros Hn Hj. pose proof prim_bytes as Hb. unfold build_packed_slot.
  destruct (build_packed_slot_from _ _ _ _) as [[[]|] [w']] eqn:Hbuild; [|done]. intros [= <-].
  assert (2 ≤ 32 / n) as He by (apply Z.div_le_lower_bound; lia).
  unfold slot_chunk, eps in Hbuild. rewrite array_bytes in Hbuild. set (e := Z.to_nat (32 / n)) in *.
  set (k := Z.to_nat (j * (32 / n))) in *. change (0 : Z) with (0 * n)%Z in Hbuild at 1.
  assert (l = take k l ++ take e (drop k l) ++ drop e (drop k l)) as Hsplit by (by rewrite take_drop, take_drop).
  change (fold_left (pick j) (zip (seqZ 0 (Z.of_nat (length l))) l) (Ok 0) = Ok w').
  destruct (decide (length l ≤ k)%nat) as [Hshort|Hlong].
  - rewrite drop_ge in Hbuild by lia. destruct e; injection Hbuild as <-; apply pick_skip; intros t Ht;
      unfold calc_element_slot; assert (Z.of_nat t / (32 / n) < j) by (apply Z.div_lt_upper_bound; lia); rewrite Z.add_0_l; lia.
  - set (a := take k l) in *. set (b := take e (drop k l)) in *. set (c := drop e (drop k l)) in *.
    assert (length a = k) as Ha by (unfold a; rewrite length_take; lia).
    assert (length b ≤ e)%nat as Hbe by (unfold b; rewrite length_take; lia).
    assert (length c ≠ 0%nat → length b = e) as Hbc.
    { unfold b, c. rewrite length_take, !length_drop. lia. }
    rewrite Hsplit, !length_app, !Nat2Z.inj_add.
    rewrite (seqZ_app 0 (Z.of_nat (length a))), zip_with_app, fold_left_app by (rewrite ?length_seqZ; lia).
    rewrite pick_skip.
    2:{ intros t Ht. unfold calc_element_slot. rewrite Z.add_0_l.
        assert (Z.of_nat t / (32 / n) < j) by (apply Z.div_lt_upper_bound; lia). lia. }
    rewrite (seqZ_app _ (Z.of_nat (length b))), zip_with_app, fold_left_app by (rewrite ?length_seqZ; lia).
    replace (0 + Z.of_nat (length a)) with (j * (32 / n) + 0) by lia.
    rewrite (pick_chunk j b 0 0 w') by (done || lia). apply pick_skip.
    intros t Ht. unfold calc_element_slot.
    assert (j + 1 ≤ (j * (32 / n) + 0 + Z.of_nat (length b) + Z.of_nat t) / (32 / n)) by (apply Z.div_le_lower_bound; lia). lia.
Qed.
(** ** Arrays *)
Lemma packable_divides : is_packable_bytes n = true → n ≤ 16 ∧ 32 / n * n = 32.
Proof.
  pose proof prim_bytes as Hb. unfold is_packable_bytes. intros [Hlt%Z.ltb_lt Hm%Z.eqb_eq]%andb_true_iff.
  pose proof (Z.div_mod 32 n ltac:(lia)) as Hdm. rewrite Hm in Hdm. set (q := 32 / n) in *.
  assert (2 ≤ q) by (destruct (Z.le_gt_cases 2 q); [done|]; assert (n * q ≤ n * 1) by (apply Z.mul_le_mono_nonneg_l; lia); lia).
  split; nia.
Qed.

Lemma array_slot_count N : is_packable_bytes n = true → div_ceil (N * n) 32 = calc_packed_slot_count N n.
Proof.
  intros Hp. destruct (packable_divides Hp) as [Hn Hd]. pose proof prim_bytes as Hb. unfold calc_packed_slot_count.
  assert (0 < 32 / n) as He by nia. apply Z.le_antisymm.
  - apply div_ceil_le; [lia|]. pose proof (proj1 (div_ceil_le N (32 / n) _ He) (Z.le_refl _)) as Hle.
    apply (Z.mul_le_mono_nonneg_r _ _ n) in Hle; [|lia]. by rewrite <- Z.mul_assoc, Hd in Hle.
  - apply div_ceil_le; [done|]. pose proof (proj1 (div_ceil_le (N * n) 32 _ ltac:(lia)) (Z.le_refl _)) as Hle.
    rewrite <- Hd in Hle at 2. rewrite Z.mul_assoc in Hle. apply Z.mul_le_mono_pos_r in Hle; [done|lia].
Qed.

Lemma sfor_ext {S B} (l : list B) (f g : B → SM S unit) s :
  (∀ x s, x ∈ l → f x s = g x s) → sfor l f s = sfor l g s.
Proof.
  revert s. induction l as [|a l IH]; intros s Heq; [done|]. cbn. unfold mbind, SM_bind.
  rewrite Heq by left. destruct (g a s) as [[[]|] s1]; [|done]. apply IH. intros x s2 Hx. apply Heq. by right.
Qed.

(** A slot out of reach of the array, in place of the length of a vector. *)
Lemma out_of_reach base : data_apart (word_add base (2 ^ 32)) base.
Proof. intros j Hj Heq. unfold U32_MAX in *. apply word_add_inj in Heq; lia. Qed.

Section lawful.
Context {S : Type} `{LawfulOps S}.
Implicit Types (s : S) (l : list A).

Lemma array_store_ok s l base ctx :
  is_packable_bytes n = true ∨ 16 < n → words s → Forall prim_valid l → Z.of_nat (length l) ≤ max_index (A := A) →
  ∃ s', store (Array l : array A (length l)) base ctx s = (Ok tt, s') ∧ words s' ∧
    prefix_stored base s' l (Z.of_nat (length l)) ∧ vec_frame (word_add base (2 ^ 32)) base s s'.
Proof.
  intros Hn Hs Hv Hmax. pose proof (out_of_reach base) as Hsep.
  assert (elems_placed base l) as Hpl by (intros i v Hi; rewrite Forall_lookup in Hv; by eapply Hv).
  cbn [store array_storable array_val]. rewrite array_bytes. destruct (is_packable_bytes n) eqn:Hp.
  - destruct (packable_divides Hp) as [Hn16 Hd]. assert (BYTES A ≤ 16) as Hb by (by rewrite array_bytes).
    pose proof (slot_count_bounds (A := A) (Z.of_nat (length l)) Hb ltac:(lia)) as [Hc0 Hc]. rewrite array_bytes in Hc0, Hc.
    set (count := calc_packed_slot_count (Z.of_nat (length l)) n) in *.
    destruct (store_packed_ok Hstatic (word_add base (2 ^ 32)) base Hsep s l (Z.to_nat count) Hb Hs Hpl Hmax)
      as (s' & Hrun & Hs' & Hpre & _ & Hfr); [rewrite array_bytes; fold count; lia|].
    rewrite Z2Nat.id in Hrun, Hpre by lia. exists s'. split; [|split; [done|split; [|done]]].
    + rewrite <- Hrun. unfold packed_array_store. rewrite array_slot_count by done. fold count.
      apply sfor_ext. intros j s0 Hj%elem_of_seqZ. rewrite array_bytes.
      assert (∃ w, build_packed_slot (slot_chunk l j) n = Ok w) as [w Hw].
      { destruct (build_ok s (word_add base j) n (slot_chunk l j) 0 0) as (w & Hw & _).
        - apply array_bytes.
        - by apply small_bytes.
        - apply word_add_range.
        - lia.
        - pose proof (small_bytes (A := A) Hb) as (_ & _ & _ & He & _). rewrite array_bytes in He.
          unfold slot_chunk, eps. rewrite length_take, array_bytes. nia.
        - by apply words_put.
        - by apply Forall_take, Forall_drop.
        - exists w. unfold build_packed_slot. by rewrite Hw. }
      unfold mbind, SM_bind, sread. by rewrite (pack_slot_eq l j w Hn16 ltac:(lia) Hw), Hw.
    + intros i v Hi Hlt. apply Hpre; [done|]. lia.
  - destruct Hn as [?|Hn]; [done|]. assert (16 < BYTES A) as Hb by (by rewrite array_bytes).
    destruct (store_unpacked_ok Hstatic (word_add base (2 ^ 32)) base Hsep s l Hb Hs Hpl Hmax) as (s' & Hrun & Hs' & Hpre & _ & Hfr).
    exists s'. split; [|done]. rewrite <- Hrun. unfold unpacked_array_store, store_unpacked_elements.
    apply sfor_ext. intros [i e] s0 _. assert (SLOTS A = 1) as -> by (unfold SLOTS; by rewrite Hlayout). by rewrite Z.mul_1_r.
Qed.

Lemma array_load_ok s l base ctx :
  is_packable_bytes n = true ∨ 16 < n → words s → prefix_stored base s l (Z.of_nat (length l)) →
  load s base ctx = Ok (Array l : array A (length l)) ∧
  ∀ i v, l !! i = Some v → ∃ k c, array_handler_at (A := A) (Z.of_nat (length l)) base (Z.of_nat i) = Some (k, c) ∧ load s k c = Ok v.
Proof.
  intros Hn Hs Hpre.
  assert (∀ i v, l !! i = Some v → load s (vec_slot (A := A) base (Z.of_nat i)) (vec_ctx (A := A) base (Z.of_nat i)) = Ok v) as Hel.
  { intros i v Hi. apply holds_load; [done|]. apply Hpre; [done|]. apply lookup_lt_Some in Hi. lia. }
  split.
  - cbn [load array_storable]. rewrite array_bytes. destruct (is_packable_bytes n) eqn:Hp.
    + destruct (packable_divides Hp) as [Hn16 Hd]. unfold packed_array_load. rewrite seqZ_nat, mapM_seq_ok with (l := l); [done|].
      intros i v Hi. pose proof (Hel i v Hi) as Hl. unfold vec_slot, vec_ctx, elem_slot, elem_ctx, compute_handler in Hl.
      rewrite array_bytes, (proj2 (Z.leb_le n 16) Hn16) in Hl. cbn [fst snd calc_element_loc offset_slots offset_bytes] in Hl.
      rewrite <- Hl. unfold elem_storable, primitive_storable. rewrite (proj2 (Z.ltb_lt n 32)) by lia.
      cbn [load packable_storable]. rewrite packed_offset_packed, array_bytes; [done|].
      destruct (elem_offset (A := A) base (Z.of_nat i)) as (_ & HoF & _); [by rewrite array_bytes|lia|].
      by rewrite array_bytes in HoF.
    + destruct Hn as [?|Hn]; [done|]. unfold unpacked_array_load. rewrite seqZ_nat, mapM_seq_ok with (l := l); [done|].
      intros i v Hi. rewrite <- (Hel i v Hi). unfold vec_slot, vec_ctx, elem_slot, elem_ctx, compute_handler.
      rewrite array_bytes, (proj2 (Z.leb_gt n 16) Hn). cbn [fst snd plus].
      assert (SLOTS A = 1) as -> by (unfold SLOTS; by rewrite Hlayout). by rewrite Z.mul_1_r.
  - intros i v Hi. pose proof (lookup_lt_Some _ _ _ Hi). unfold array_handler_at.
    rewrite (proj2 (Z.leb_gt _ _)) by lia. exists (vec_slot (A := A) base (Z.of_nat i)), (vec_ctx (A := A) base (Z.of_nat i)).
    split; [|by apply Hel]. unfold vec_slot, vec_ctx, elem_slot, elem_ctx. by destruct (compute_handler _ _).
Qed.
End lawful.
End arrays.

(** An array of primitives that is stored reads back as the same array, and every
    element is found by the array's handler where the whole-array code put it, for every
    width the macro generates arrays of (the divisors of 32, and more than 16 bytes). *)
Theorem array_roundtrip {A : Type} {n : Z} `{Primitive A n} `{StorableType A}
    {S : Type} `{LawfulOps S} (s : S) (l : list A) (base : Z) :
  LAYOUT A = Bytes n → IS_DYNAMIC A = false → is_packable_bytes n = true ∨ 16 < n →
  words s → Forall prim_valid l → Z.of_nat (length l) ≤ 2 ^ 16 →
  ∃ s', store (Storable := array_storable (H1 := primitive_storable n) (length l)) (Array l) base FULL s = (Ok tt, s') ∧
    load (Storable := array_storable (H1 := primitive_storable n) (length l)) s' base FULL = Ok (Array l) ∧
    ∀ i v, l !! i = Some v → ∃ k c,
      array_handler_at (A := A) (H0 := primitive_storable n) (Z.of_nat (length l)) base (Z.of_nat i) = Some (k, c) ∧
      load (Storable := primitive_storable n) s' k c = Ok v.
Proof.
  intros Hlay Hst Hn Hs Hv Hlen.
  destruct (array_store_ok Hlay Hst s l base FULL Hn Hs Hv) as (s' & Hrun & Hs' & Hpre & _).
  { pose proof prim_bytes. unfold max_index, BYTES, SLOTS. rewrite Hlay. cbn [bytes slots]. unfold U32_MAX.
    destruct (n <=? 16) eqn:Hle; [|rewrite Z.div_1_r; lia]. apply Z.leb_le in Hle.
    assert (4294967295 / 16 ≤ 4294967295 / n) by (apply Z.div_le_compat_l; lia).
    assert (2 ^ 16 ≤ 4294967295 / 16) by (vm_compute; discriminate). lia. }
  destruct (array_load_ok Hlay Hst s' l base FULL Hn Hs' Hpre) as [Hl Hh]. by exists s'.
Qed.
