(* ===== verification/StorageContracts.v ===== *)
(** * Contracts: the handlers of the fields, and the slots of mappings

    The handlers that [#[contract]] generates access disjoint parts of storage; what goes wrong
    when a field with an explicit slot stands between two packed ones; and the bytes hashed
    for the slot of a mapping entry. *)
From Stdlib Require Import ZArith Lia.
From stdpp Require Import base tactics option list list_numbers.
From S2P Require Import Prelude Base StorageWords StorageTypes StorageLayout StorageLaws StorageStructs.
Open Scope Z_scope.

(** ** Handlers *)

(** What a handler reads and writes of a static type. *)
Definition handler_extent (l : Layout) (h : Z * LayoutCtx) : extent :=
  match packed_offset h.2 with
  | Some o => field_extent h.1 o (bytes l)
  | None => slots_extent h.1 (slots l)
  end.

Lemma handlers_lookup prev fs cs i f c :
  fs !! i = Some f → cs !! i = Some c →
  gen_handlers prev fs cs !! i = Some (c.1, gen_layout_ctx_expr (lf_layout f) (is_manual (assigned_slot f)) c.1 c.2
    (match i with O => prev | Datatypes.S i => fst <$> cs !! i end) (fst <$> cs !! Datatypes.S i)).
Proof.
  revert prev fs cs. induction i as [|i IH]; intros prev [|f0 fs] [|[s o] cs] Hf Hc; try done; cbn in *.
  - simplify_eq. cbn. by destruct cs.
  - rewrite (IH _ _ _ Hf Hc). by destruct i.
Qed.

Section handlers.
Context (ls : list Layout) (cs : list (Z * Z)).
Hypotheses (Hls : Forall layout_ok ls) (Hcs : gen_constants_from_ir (autos ls) = Some cs).

Definition handler_ctx (i : nat) (l : Layout) (c : Z * Z) : LayoutCtx :=
  gen_layout_ctx_expr l false c.1 c.2 (match i with O => None | Datatypes.S i => fst <$> cs !! i end) (fst <$> cs !! Datatypes.S i).

Lemma auto_handlers i l c : ls !! i = Some l → cs !! i = Some c →
  gen_handlers None (autos ls) cs !! i = Some (c.1, handler_ctx i l c).
Proof.
  intros Hl Hc. assert (autos ls !! i = Some (mkLayoutField l (Auto 0))) as Hf.
  { unfold autos. rewrite list_lookup_fmap, Hl. done. }
  by rewrite (handlers_lookup _ _ _ _ _ _ Hf Hc).
Qed.

(** Fields between two of the same slot are in that slot. *)
Lemma between_slot i m j li lm lj ci cm cj :
  (i ≤ m ≤ j)%nat → ls !! i = Some li → cs !! i = Some ci → ls !! m = Some lm → cs !! m = Some cm →
  ls !! j = Some lj → cs !! j = Some cj → ci.1 = cj.1 → cm.1 = ci.1.
Proof.
  intros Him Hli Hci Hlm Hcm Hlj Hcj Heq.
  destruct (decide (i = m)) as [->|]; [by simplify_eq|]. destruct (decide (m = j)) as [->|]; [by simplify_eq|].
  assert (loc_end li ci ≤ loc_start cm) as H1 by (apply (struct_ordered ls cs Hls Hcs i m li lm); [lia|done..]).
  assert (loc_end lm cm ≤ loc_start cj) as H2 by (apply (struct_ordered ls cs Hls Hcs m j lm lj); [lia|done..]).
  destruct (struct_loc_ok ls cs Hls Hcs _ _ _ Hli Hci) as (Hoi & ? & _ & ? & Hi').
  destruct (struct_loc_ok ls cs Hls Hcs _ _ _ Hlm Hcm) as (Hom & ? & _ & ? & Hm').
  destruct (struct_loc_ok ls cs Hls Hcs _ _ _ Hlj Hcj) as (Hoj & ? & _ & ? & Hj').
  unfold loc_end, loc_start in *. destruct li, lm, lj; cbn [bytes slots layout_ok] in *; lia.
Qed.

(** Two fields of one slot are both accessed at their offsets. *)
Lemma shared_ctx i j li lj ci cj :
  (i < j)%nat → ls !! i = Some li → cs !! i = Some ci → ls !! j = Some lj → cs !! j = Some cj → ci.1 = cj.1 →
  handler_ctx i li ci = packed ci.2 ∧ handler_ctx j lj cj = packed cj.2 ∧ ci.2 + bytes li ≤ cj.2 ∧ ci.2 ≠ FULL ∧ cj.2 ≠ FULL.
Proof.
  intros Hij Hli Hci Hlj Hcj Heq.
  assert (loc_end li ci ≤ loc_start cj) as Hord by (by apply (struct_ordered ls cs Hls Hcs i j li lj)).
  destruct (struct_loc_ok ls cs Hls Hcs _ _ _ Hli Hci) as (Hoi & ? & _ & ? & Hi').
  destruct (struct_loc_ok ls cs Hls Hcs _ _ _ Hlj Hcj) as (Hoj & ? & _ & ? & Hj').
  assert (is_packable li = true ∧ is_packable lj = true ∧ ci.2 + bytes li ≤ cj.2 ∧ ci.2 < 32 ∧ cj.2 < 32) as (Hpi & Hpj & Hle & ? & ?).
  { unfold loc_end, loc_start in Hord. destruct li, lj; cbn [bytes slots layout_ok is_packable] in *; lia. }
  pose proof (struct_length ls cs Hls Hcs) as Hlen. pose proof (lookup_lt_Some _ _ _ Hlj) as Hjlt.
  destruct (lookup_lt_is_Some_2 ls (Datatypes.S i)) as [ln Hln]; [lia|].
  destruct (lookup_lt_is_Some_2 cs (Datatypes.S i)) as [cn Hcn]; [lia|].
  destruct j as [|j]; [lia|].
  destruct (lookup_lt_is_Some_2 ls j) as [lp Hlp]; [lia|]. destruct (lookup_lt_is_Some_2 cs j) as [cp Hcp]; [lia|].
  assert (cn.1 = ci.1) as Hn by (apply (between_slot i (Datatypes.S i) (Datatypes.S j) li ln lj ci cn cj); [lia|done..]).
  assert (cp.1 = ci.1) as Hp by (apply (between_slot i j (Datatypes.S j) li lp lj ci cp cj); [lia|done..]).
  unfold handler_ctx, gen_layout_ctx_expr. rewrite Hcn, Hcp, Hpi, Hpj. cbn [fmap option_fmap option_map negb andb].
  rewrite Hn, Hp, <- Heq. rewrite !(bool_decide_eq_true_2 (Some ci.1 = Some ci.1)) by done.
  rewrite !(bool_decide_eq_true_2 (is_Some (Some ci.1))) by eauto. rewrite !orb_true_r. cbn [orb andb].
  unfold FULL, U64_MAX. split; [done|]. split; [done|]. lia.
Qed.

Lemma handler_in_slots i l c k b :
  ls !! i = Some l → cs !! i = Some c → handler_extent l (c.1, handler_ctx i l c) k b → c.1 ≤ k < c.1 + slots l.
Proof.
  intros Hl Hc. destruct (struct_loc_ok ls cs Hls Hcs _ _ _ Hl Hc) as (Hok & ? & ? & ? & _).
  pose proof (bytes_slots l Hok) as (_ & _ & ? & _). unfold handler_extent. cbn [fst snd].
  destruct (packed_offset _); [intros [-> _]; lia|]. intros (j & Hj & ->). unfold word_add.
  rewrite U256_wrap, Z.mod_small by lia. lia.
Qed.
End handlers.

(** In a contract or struct whose fields have no slot attributes, the handlers of distinct
    fields never touch the same bit: a field that shares its slot with any other is
    accessed at its own bytes, and one that is accessed as a whole slot is alone in it. *)
Theorem contract_handlers_apart (ls : list Layout) (hs : list (Z * LayoutCtx)) :
  Forall layout_ok ls →
  gen_constructor (map (λ l, mkFieldInfo l None None) ls) = Some hs →
  length hs = length ls ∧
  ∀ i j li lj hi hj, i ≠ j → ls !! i = Some li → hs !! i = Some hi → ls !! j = Some lj → hs !! j = Some hj →
    disjoint_extents (handler_extent li hi) (handler_extent lj hj).
Proof.
  intros Hls. unfold gen_constructor. rewrite allocate_autos.
  destruct (gen_constants_from_ir (autos ls)) as [cs|] eqn:Hcs; [|done]. cbn. intros [= <-].
  pose proof (struct_length ls cs Hls Hcs) as Hlen.
  assert (∀ i j li lj hi hj, (i < j)%nat → ls !! i = Some li → gen_handlers None (autos ls) cs !! i = Some hi →
    ls !! j = Some lj → gen_handlers None (autos ls) cs !! j = Some hj →
    disjoint_extents (handler_extent li hi) (handler_extent lj hj)) as Hlt.
  { intros i j li lj hi hj Hij Hli Hhi Hlj Hhj.
    destruct (lookup_lt_is_Some_2 cs i) as [ci Hci]; [rewrite Hlen; by eapply lookup_lt_Some|].
    destruct (lookup_lt_is_Some_2 cs j) as [cj Hcj]; [rewrite Hlen; by eapply lookup_lt_Some|].
    rewrite (auto_handlers ls cs i li ci Hli Hci) in Hhi. injection Hhi as <-.
    rewrite (auto_handlers ls cs j lj cj Hlj Hcj) in Hhj. injection Hhj as <-.
    intros k b Hb Hx Hy. destruct (decide (ci.1 = cj.1)) as [Heq|Hne].
    - destruct (shared_ctx ls cs Hls Hcs i j li lj ci cj) as (Hci' & Hcj' & Hle & HiF & HjF); [done..|].
      unfold handler_extent in Hx, Hy. cbn [fst snd] in Hx, Hy. rewrite Hci', packed_offset_packed in Hx by done.
      rewrite Hcj', packed_offset_packed in Hy by done. destruct Hx as [_ Hx], Hy as [_ Hy]. unfold in_field in *. lia.
    - apply (handler_in_slots ls cs Hls Hcs i li ci) in Hx; [|done..]. apply (handler_in_slots ls cs Hls Hcs j lj cj) in Hy; [|done..].
      assert (loc_end li ci ≤ loc_start cj) as Hord by (by apply (struct_ordered ls cs Hls Hcs i j li lj)).
      destruct (struct_loc_ok ls cs Hls Hcs _ _ _ Hli Hci) as (Hoi & ? & _ & ? & Hi').
      destruct (struct_loc_ok ls cs Hls Hcs _ _ _ Hlj Hcj) as (Hoj & ? & _ & ? & Hj').
      unfold loc_end, loc_start in Hord. destruct li, lj; cbn [bytes slots layout_ok] in *; lia. }
  split.
  - clear Hlt Hcs Hls. revert Hlen. generalize (@None Z). revert cs. induction ls as [|l ls' IH]; intros [|[s o] cs] prev Hlen; try done.
    cbn. f_equal. apply IH. by injection Hlen.
  - intros i j li lj hi hj Hij Hli Hhi Hlj Hhj. destruct (decide (i < j)%nat); [by eapply (Hlt i j)|].
    intros k b Hb Hx Hy. by eapply (Hlt j i lj li hj hi); [lia|..].
Qed.

(** ** A field with an explicit slot between packed fields *)

(** C39: With a field of explicit slot declared between two packable fields, the two still get
    places in one slot, and the collision check accepts them, but both handlers access the
    whole slot: they compare only with their neighbours in the declaration.  A write to the
    second field then replaces the value of the first. *)
Theorem explicit_slot_breaks_packing (p q m : Layout) (slot a x : Z) {S} `{LawfulOps S} (s : S) :
  layout_ok p → layout_ok q → layout_ok m → bytes p + bytes q ≤ 32 → 0 < slot → slot + slots m < 2 ^ 256 →
  0 ≤ a < 2 ^ 160 → 0 ≤ x < 2 ^ 64 →
  let fields := [mkFieldInfo p None None; mkFieldInfo m (Some slot) None; mkFieldInfo q None None] in
  gen_constants_from_ir (allocate_slots fields) = Some [(0, 0); (slot, 0); (0, bytes p)] ∧
  no_overlap p (0, 0) q (0, bytes p) = Some true ∧
  gen_constructor fields = Some [(0, FULL); (slot, FULL); (0, FULL)] ∧
  ∃ s', (store (Addr a) 0 FULL;; store (UInt x : uint 8) 0 FULL) s = (Ok tt, s') ∧ load s' 0 FULL = Ok (Addr x).
Proof.
  intros Hp Hq Hm Hpq Hs0 Hs Ha Hx fields.
  pose proof (bytes_slots p Hp) as (? & _ & ? & Hp32). pose proof (bytes_slots q Hq) as (? & _ & ? & Hq32).
  pose proof (bytes_slots m Hm) as (_ & _ & ? & _).
  assert (slots p = 1 ∧ slots q = 1) as [Hsp Hsq] by (destruct p, q; cbn [bytes slots layout_ok] in *; lia).
  assert (gen_constants_from_ir (allocate_slots fields) = Some [(0, 0); (slot, 0); (0, bytes p)]) as Hc.
  { unfold gen_constants_from_ir, fields. cbn. unfold fitting_slot, saturating_sub, checked_add.
    rewrite Hsp. rewrite (proj2 (Z.leb_le (0 + Z.max 0 (1 - 1)) _)) by (unfold U256_MAX; lia). cbn [mbind option_bind].
    rewrite (proj2 (Z.leb_le (slot + Z.max 0 (slots m - 1)) _)) by (unfold U256_MAX; lia). cbn [mbind option_bind].
    unfold gen_slot_packing_logic, can_pack. cbn. rewrite (proj2 (Z.leb_le _ 32)) by lia. cbn.
    do 3 f_equal. f_equal. lia. }
  split; [exact Hc|]. split; [|split].
  - unfold no_overlap, checked_add. rewrite Hsp, Hsq. cbn. by rewrite Z.leb_refl.
  - unfold gen_constructor. rewrite Hc. cbn. unfold gen_layout_ctx_expr. cbn.
    rewrite (bool_decide_eq_false_2 (Some slot = Some 0)) by (intros [= ?]; lia). done.
  - exists (put 0 x (put 0 a s)). split.
    + unfold mbind, SM_bind. cbn. by rewrite !store_put.
    + cbn. rewrite load_cell, cell_put, decide_True by done. cbn. rewrite Z.mod_small by lia. done.
Qed.

(** ** Slots of mapping entries *)

(** What a type of keys promises: fixed length and injective bytes. *)
Class LawfulKey (K : Type) `{StorageKey K} := {
  key_valid : K → Prop;
  key_length : nat;
  key_length_max : (key_length ≤ 32)%nat;
  key_bytes_length k : key_valid k → length (as_storage_bytes k) = key_length;
  key_bytes_inj k k' : key_valid k → key_valid k' → as_storage_bytes k = as_storage_bytes k' → k = k';
}.

Lemma be_bytes_inj n v v' : 0 ≤ v < 256 ^ Z.of_nat n → 0 ≤ v' < 256 ^ Z.of_nat n → be_bytes n v = be_bytes n v' → v = v'.
Proof.
  intros Hv Hv' Heq. assert (bytes_value (be_bytes n v) = bytes_value (be_bytes n v')) as Hb by (by rewrite Heq).
  rewrite !bytes_value_be, !Z.mod_small in Hb by done. done.
Qed.
Lemma pow_bytes n : 0 ≤ n → 256 ^ n = 2 ^ (8 * n).
Proof. intros. by rewrite Z.pow_mul_r by lia. Qed.

Global Program Instance uint_lawful_key n (Hn : 1 ≤ n ≤ 32) : LawfulKey (uint n) :=
  {| key_valid x := 0 ≤ uint_val x ≤ UMAX n; key_length := Z.to_nat n |}.
Next Obligation. lia. Qed.
Next Obligation. intros. apply be_bytes_length. Qed.
Next Obligation.
  intros n Hn [v] [v'] Hv Hv' Heq. unfold UMAX in *. cbn in *. f_equal.
  eapply be_bytes_inj; [..|exact Heq]; rewrite Z2Nat.id, pow_bytes by lia; lia.
Qed.
Global Program Instance sint_lawful_key n (Hn : 1 ≤ n ≤ 32) : LawfulKey (sint n) :=
  {| key_valid x := - 2 ^ (8 * n - 1) ≤ sint_val x < 2 ^ (8 * n - 1); key_length := Z.to_nat n |}.
Next Obligation. lia. Qed.
Next Obligation. intros. apply be_bytes_length. Qed.
Next Obligation.
  intros n Hn [v] [v'] Hv Hv' Heq. cbn in *. f_equal.
  rewrite <- (to_signed_unsigned n v), <- (to_signed_unsigned n v') by lia. f_equal.
  eapply be_bytes_inj; [..|exact Heq]; rewrite Z2Nat.id, pow_bytes by lia; apply Z.mod_pos_bound; lia.
Qed.
Global Program Instance fbytes_lawful_key n (Hn : (1 ≤ n ≤ 32)%nat) : LawfulKey (fbytes n) :=
  {| key_valid x := length (fbytes_val x) = n; key_length := n |}.
Next Obligation. lia. Qed.
Next Obligation. done. Qed.
Next Obligation. by intros n Hn [l] [l'] _ _; cbn; intros ->. Qed.
Global Program Instance address_lawful_key : LawfulKey address :=
  {| key_valid a := 0 ≤ addr_val a < 2 ^ 160; key_length := 20 |}.
Next Obligation. lia. Qed.
Next Obligation. intros. apply be_bytes_length. Qed.
Next Obligation. intros [v] [v'] Hv Hv' Heq. f_equal. by eapply (be_bytes_inj 20). Qed.
Global Program Instance bool_lawful_key : LawfulKey bool := {| key_valid _ := True; key_length := 1 |}.
Next Obligation. lia. Qed.
Next Obligation. by intros []. Qed.
Next Obligation. by intros [] []. Qed.

Lemma be_bytes_pad n v : (n ≤ 32)%nat → 0 ≤ v < 256 ^ Z.of_nat n → replicate (32 - n) 0 ++ be_bytes n v = be_bytes 32 v.
Proof.
  intros Hn Hv. replace 32%nat with ((32 - n) + n)%nat at 2 by lia. rewrite be_bytes_app, Z.div_small by done. f_equal.
  generalize (32 - n)%nat. intros m. induction m as [|m IH]; [done|]. cbn [be_bytes]. change (0 / 256) with 0.
  rewrite <- IH. by rewrite <- replicate_cons_app.
Qed.

(** The slot of a mapping entry hashes 64 bytes that determine both the key and the slot of
    the mapping, for every key type; for unsigned integers and addresses they are those
    Solidity hashes, and for a negative signed key they are not (Solidity extends the sign). *)
Theorem mapping_preimages {K : Type} `{LawfulKey K} :
  (∀ (k k' : K) slot slot', key_valid k → key_valid k' → 0 ≤ slot < 2 ^ 256 → 0 ≤ slot' < 2 ^ 256 →
    mapping_preimage (as_storage_bytes k) slot = mapping_preimage (as_storage_bytes k') slot' → k = k' ∧ slot = slot') ∧
  (∀ n (x : uint n) slot, 1 ≤ n ≤ 32 → 0 ≤ uint_val x ≤ UMAX n →
    mapping_preimage (as_storage_bytes x) slot = be_bytes 32 (uint_val x) ++ be_bytes 32 slot) ∧
  (∀ (a : address) slot, 0 ≤ addr_val a < 2 ^ 160 →
    mapping_preimage (as_storage_bytes a) slot = be_bytes 32 (addr_val a) ++ be_bytes 32 slot) ∧
  (∀ n (x : sint n) slot, 1 ≤ n < 32 → - 2 ^ (8 * n - 1) ≤ sint_val x < 0 →
    mapping_preimage (as_storage_bytes x) slot ≠ be_bytes 32 (to_unsigned 32 (sint_val x)) ++ be_bytes 32 slot).
Proof.
  unfold mapping_preimage. split_and!.
  - intros k k' slot slot' Hk Hk' Hs Hs' Heq. pose proof key_length_max.
    apply app_inj_1 in Heq as [Hkey Hslot].
    + rewrite !key_bytes_length in Hkey by done. apply app_inv_head in Hkey. split; [by apply key_bytes_inj|].
      by eapply (be_bytes_inj 32).
    + rewrite !length_app, !length_replicate, !key_bytes_length by done. done.
  - intros n [v] slot Hn Hv. unfold UMAX in Hv. cbn [uint_val as_storage_bytes uint_key] in *. f_equal.
    rewrite be_bytes_length, be_bytes_pad; [done|lia|]. rewrite Z2Nat.id, pow_bytes by lia. lia.
  - intros [v] slot Hv. cbn [addr_val as_storage_bytes address_key] in *. f_equal. rewrite be_bytes_length. apply (be_bytes_pad 20); [lia|exact Hv].
  - intros n [v] slot Hn Hv. cbn [sint_val as_storage_bytes sint_key] in *. rewrite be_bytes_length.
    assert (0 ≤ to_unsigned n v < 256 ^ Z.of_nat (Z.to_nat n)) as Hu.
    { rewrite Z2Nat.id, pow_bytes by lia. apply Z.mod_pos_bound. lia. }
    rewrite be_bytes_pad by (done || lia). intros [Heq _]%app_inj_1; [|by rewrite !be_bytes_length].
    rewrite Z2Nat.id, pow_bytes in Hu by lia.
    assert (2 ^ (8 * n) ≤ 2 ^ 248) as Hle by (apply Z.pow_le_mono_r; lia).
    assert (2 ^ (8 * n - 1) ≤ 2 ^ 248) as Hle' by (apply Z.pow_le_mono_r; lia).
    assert (to_unsigned 32 v = v + 2 ^ 256) as Hw.
    { unfold to_unsigned. symmetry. apply Z.mod_unique with (-1); lia. }
    apply (be_bytes_inj 32) in Heq; change (256 ^ Z.of_nat 32) with (2 ^ 256); lia.
Qed.
