(* ===== verification/StorageRuns.v ===== *)
(** * Concrete values in storage

    The structs the precompiles store, with their layouts, and the theorems of the storage layer at
    concrete values of them. *)
From Stdlib Require Import ZArith Lia.
From stdpp Require Import base tactics option list list_numbers fin_maps gmap.
From S2P Require Import Prelude Base StorageWords StorageTypes StorageLayout StorageLaws StorageBytes StorageStructs.
From S2P Require Import StorageVecs StorageArrays StorageContracts.
Open Scope Z_scope.

(** ** Structs of the precompiles *)

(** [Order] of the exchange. *)
Definition order_fields : sfields (uint 16 * (address * (fbytes 32 * (bool * (sint 2 * (uint 16 * (uint 16 *
    (uint 16 * (uint 16 * (bool * (sint 2 * unit))))))))))) :=
  sfcons (sfcons (sfcons (sfcons (sfcons (sfcons (sfcons (sfcons (sfcons (sfcons (sfcons sfnil)))))))))).

(** [AuthorizedKey] of the keychain. *)
Definition authorized_key_fields : sfields (uint 1 * (uint 8 * (bool * (bool * unit)))) :=
  sfcons (sfcons (sfcons (sfcons sfnil))).

(** [Pool] of the fee AMM. *)
Definition pool_fields : sfields (uint 16 * (uint 16 * unit)) := sfcons (sfcons sfnil).

(** [ValidatorRecord] of the second validator registry, with its strings. *)
Definition validator_record_fields `{Primitives} : sfields (fbytes 32 * (address * (String_ * (String_ * (address *
    (uint 8 * (uint 8 * (uint 8 * (uint 8 * unit))))))))) :=
  sfcons (sfcons (sfcons (sfcons (sfcons (sfcons (sfcons (sfcons (sfcons sfnil)))))))).

Definition order_consts : list (Z * Z) :=
  [(0, 0); (1, 0); (2, 0); (3, 0); (3, 1); (3, 3); (4, 0); (4, 16); (5, 0); (5, 16); (5, 17)].
Definition authorized_key_consts : list (Z * Z) := [(0, 0); (0, 1); (0, 9); (0, 10)].

Lemma order_layout : struct_constants (to_fields order_fields) = Some order_consts.
Proof. vm_compute. reflexivity. Qed.
Lemma authorized_key_layout : struct_constants (to_fields authorized_key_fields) = Some authorized_key_consts.
Proof. vm_compute. reflexivity. Qed.
Lemma pool_layout : struct_constants (to_fields pool_fields) = Some [(0, 0); (0, 16)].
Proof. vm_compute. reflexivity. Qed.

(** ** A storage *)
Definition storage_primitives : Primitives := {|
  keccak256 l := (bytes_value l + 2 ^ 200) mod 2 ^ 256;
  abi_encode l := concat (map (be_bytes 32) l);
  abi_encode_packed l := concat (map (be_bytes 32) l);
  secp256k1_recover digest r p s := Some r;
  addr_is_tip20 a := false;
  addr_is_virtual a := false;
  addr_is_valid_master a := true;
  addr_decode_virtual a := None;
|}.
#[local] Existing Instance storage_primitives.
#[local] Instance contract_ops : StorageOps StorageCtx := slot_ops 7.
#[local] Instance contract_lawful : LawfulOps StorageCtx := slot_lawful 7.

Definition fresh : StorageCtx := mkStorageCtx ∅ ∅.
Lemma fresh_words : words fresh.
Proof. intros k. cbn. rewrite mread_empty. change (0 ≤ 0 < 2 ^ 256). lia. Qed.

Lemma data_slot_1 : calc_data_slot 1 = 1 + 2 ^ 200.
Proof. vm_compute. reflexivity. Qed.
Lemma data_apart_1 : data_apart 1 (calc_data_slot 1).
Proof.
  intros j Hj. rewrite data_slot_1. unfold word_add, U32_MAX in *. rewrite U256_wrap, Z.mod_small by lia. lia.
Qed.

(** ** Witnesses *)
Definition note : list Z := replicate 40 65.

Lemma bytes_store_load_delete_witness :
  ∃ s', store (MkBytes note) 1 FULL fresh = (Ok tt, s') ∧ load s' 1 FULL = Ok (MkBytes note).
Proof.
  destruct (bytes_store_load_delete fresh 1 note fresh_words) as (s' & Hst & Hl & _).
  - apply Forall_replicate. lia.
  - vm_compute. discriminate.
  - intros j Hj. apply data_apart_1. change (calc_chunks (Z.of_nat (length note))) with 2 in Hj. unfold U32_MAX. lia.
  - eauto.
Defined.

Lemma empty_vec : vec_rep (A := uint 16) 1 (calc_data_slot 1) fresh [].
Proof.
  split; [apply fresh_words|]. split; [cbn; by rewrite mread_empty|]. split; [vm_compute; discriminate|]. done.
Qed.

Lemma vec_refines_list_witness :
  ∃ s', vec_handler_push 1 (UInt 5 : uint 16) fresh = (Ok tt, s') ∧ vec_rep 1 (calc_data_slot 1) s' [UInt 5 : uint 16].
Proof.
  destruct (vec_refines_list (A := uint 16) 1 fresh []) as (_ & _ & _ & Hpush & _); [done|apply data_apart_1|apply empty_vec|].
  specialize (Hpush (UInt 5)). change (Z.of_nat (length (@nil (uint 16))) <? max_index (A := uint 16)) with true in Hpush.
  destruct Hpush as (s' & Hrun & Hrep & _); [|by exists s'].
  change (0 ≤ 5 ≤ UMAX 16). vm_compute. split; discriminate.
Defined.

Definition sample_key : uint 1 * (uint 8 * (bool * (bool * unit))) := (UInt 1, (UInt 1000, (true, (false, tt)))).

Lemma struct_batched_is_fieldwise_witness :
  store (Storable := struct_storable (to_fields authorized_key_fields) authorized_key_consts) sample_key 3 FULL fresh =
  seq_store 3 (slocate authorized_key_fields authorized_key_consts) sample_key fresh.
Proof.
  refine (proj1 (struct_batched_is_fieldwise authorized_key_fields authorized_key_consts (Bytes 1) (0, 10)
    fresh 3 sample_key authorized_key_layout _ _ _ fresh_words _)); [reflexivity|reflexivity|cbn; lia|].
  cbn. unfold UMAX. split; [lia|]. split; [lia|]. done.
Defined.

Definition sample_order : uint 16 * (address * (fbytes 32 * (bool * (sint 2 * (uint 16 * (uint 16 *
    (uint 16 * (uint 16 * (bool * (sint 2 * unit)))))))))) :=
  (UInt 1, (Addr 77, (FBytes (replicate 32 9), (true, (SInt (-10), (UInt 5000, (UInt 4000, (UInt 0, (UInt 2, (true, (SInt 10, tt))))))))))).

Lemma struct_roundtrip_witness :
  ∃ s', store (Storable := struct_storable (to_fields order_fields) order_consts) sample_order 100 FULL fresh = (Ok tt, s') ∧
    load (Storable := struct_storable (to_fields order_fields) order_consts) s' 100 FULL = Ok sample_order.
Proof.
  destruct (struct_roundtrip order_fields order_consts (Bytes 2) (5, 17) fresh 100 sample_order order_layout)
    as (s' & Hst & Hs' & _ & Hl); [reflexivity|reflexivity|cbn; lia|apply fresh_words|lia| |].
  2: { exists s'. split; [done|]. by destruct (Hl s' Hs' (agree_refl _ _)). }
  apply (struct_placed_static order_fields order_consts (Bytes 2) (5, 17) order_layout); [reflexivity|reflexivity|cbn; lia|reflexivity|].
  cbn. unfold UMAX. repeat (split; [lia|]). split; [|repeat (split; [lia||done|]); done].
  split; [|done]. apply (Forall_replicate _ 32 9). lia.
Defined.

(** Fields [Address], [u64], [Vec] and [u64]. *)
Lemma contract_handlers_apart_witness :
  gen_constructor (map (λ l, mkFieldInfo l None None) [Bytes 20; Bytes 8; Slots 1; Bytes 8]) =
    Some [(0, packed 0); (0, packed 20); (1, FULL); (2, FULL)] ∧
  disjoint_extents (handler_extent (Bytes 20) (0, packed 0)) (handler_extent (Bytes 8) (0, packed 20)).
Proof.
  split; [vm_compute; reflexivity|].
  destruct (contract_handlers_apart [Bytes 20; Bytes 8; Slots 1; Bytes 8] [(0, packed 0); (0, packed 20); (1, FULL); (2, FULL)])
    as [_ Happart].
  - repeat (apply Forall_cons; split; [cbn; lia|]). constructor.
  - vm_compute. reflexivity.
  - by apply (Happart 0%nat 1%nat).
Defined.

Lemma explicit_slot_breaks_packing_witness :
  gen_constructor [mkFieldInfo (Bytes 20) None None; mkFieldInfo (Bytes 32) (Some 5) None; mkFieldInfo (Bytes 8) None None] =
    Some [(0, FULL); (5, FULL); (0, FULL)].
Proof.
  refine (proj1 (proj2 (proj2 (explicit_slot_breaks_packing (Bytes 20) (Bytes 8) (Bytes 32) 5 1 2 fresh _ _ _ _ _ _ _ _)))); cbn; lia.
Defined.

Definition sample_array : list (uint 8) := [UInt 1; UInt 2; UInt 3; UInt 4; UInt 5].

Lemma array_roundtrip_witness :
  ∃ s', store (Array sample_array : array (uint 8) 5) 100 FULL fresh = (Ok tt, s') ∧
    load s' 100 FULL = Ok (Array sample_array : array (uint 8) 5).
Proof.
  destruct (array_roundtrip (A := uint 8) (n := 8) fresh sample_array 100) as (s' & Hst & Hl & _).
  - reflexivity.
  - reflexivity.
  - left. vm_compute. reflexivity.
  - apply fresh_words.
  - repeat (apply Forall_cons; split; [cbn; unfold UMAX; lia|]). constructor.
  - vm_compute. discriminate.
  - by exists s'.
Defined.
