(* ===== verification/TxPool.v ===== *)
(** * The transaction pool of Anvil

    [src/crates/anvil/src/eth/pool/transactions.rs] and [pool/mod.rs], with the markers the RPC
    handlers attach to a transaction ([api.rs]).  A transaction provides the marker of its sender
    and nonce and may require that of the nonce before; the pool keeps those whose
    requirements are met ([ReadyTransactions]) and the others ([PendingTransactions]) apart, and
    yields the former in an order a block can be built from ([TransactionsIterator]).

    An operation is a computation of [PM]: it threads its state and returns a value, a
    [PoolError] or a panic ([expect], [assert!]).  Hash sets and maps are iterated in an order the
    program does not control, the parameter [set_iter]; loops take fuel and are proved never
    to run out of it. *)
From Stdlib Require Import ZArith Lia.
From stdpp Require Import base tactics option list fin_maps gmap fin_sets.
From S2P Require Import Prelude Base.
Open Scope Z_scope.

Notation TxHash := Z (only parsing).
Notation TxMarker := (list Z) (only parsing).

(** ** Computations *)
Inductive PoolError := CyclicTransaction | ReplacementUnderpriced (hash : TxHash) | AlreadyImported (hash : TxHash).
Inductive Failure := PoolErr (e : PoolError) | Panicked | NoFuel.

Definition PM (S A : Type) : Type := S → result Failure A * S.
Global Instance PM_ret S : MRet (PM S) := λ A a s, (Ok a, s).
Global Instance PM_bind S : MBind (PM S) := λ A B f m s,
  match m s with
  | (Ok a, s') => f a s'
  | (Err e, s') => (Err e, s')
  end.

Definition pfail {S A} (e : Failure) : PM S A := λ s, (Err e, s).
Definition pgets {S A} (f : S → A) : PM S A := λ s, (Ok (f s), s).
Definition pmodify {S} (f : S → S) : PM S unit := λ s, (Ok tt, f s).
Definition passert {S} (b : bool) : PM S unit := if b then mret tt else pfail Panicked.

(** [match f() { Ok(..) => .., Err(..) => .. }]: errors are caught, panics are not. *)
Definition ptry {S A} (m : PM S A) : PM S (PoolError + A) := λ s,
  match m s with
  | (Ok a, s') => (Ok (inr a), s')
  | (Err (PoolErr e), s') => (Ok (inl e), s')
  | (Err e, s') => (Err e, s')
  end.

(** A loop that collects what its iterations push. *)
Fixpoint pcollect {S A B} (body : A → PM S (list B)) (l : list A) : PM S (list B) :=
  match l with
  | [] => mret []
  | a :: l => out ← body a; rest ← pcollect body l; mret (out ++ rest)
  end.
Fixpoint pfor {S A} (body : A → PM S unit) (l : list A) : PM S unit :=
  match l with
  | [] => mret tt
  | a :: l => body a;; pfor body l
  end.

(** The iteration order of a hash set. *)
Class HashOrder := {
  set_iter {A} `{Countable A} : gset A → list A;
  set_iter_perm {A} `{Countable A} (X : gset A) : set_iter X ≡ₚ elements X;
}.

(** [Vec::swap_remove]. *)
Definition swap_remove {A} (l : list A) (i : nat) : list A :=
  match last l with
  | Some x => take (length l - 1) (<[i:=x]> l)
  | None => l
  end.
(** [if let Some(idx) = v.iter().position(|i| i == &hash) { v.swap_remove(idx) }]. *)
Definition remove_hash (hash : TxHash) (l : list TxHash) : list TxHash :=
  match list_find (eq hash) l with
  | Some (i, _) => swap_remove l i
  | None => l
  end.

(** ** Transactions *)

(** What the pool sees of a signed transaction; [pt_nonce_key] is the key of a Tempo transaction,
    [pt_is_deposit] tells the deposits of Optimism. *)
Record PendingTransaction := mkPendingTransaction {
  pt_hash : TxHash;
  pt_sender : Address;
  pt_nonce : Z;
  pt_max_fee_per_gas : Z;
  pt_nonce_key : option Z;
  pt_gas_limit : Z;
  pt_blob_gas_used : option Z;
  pt_is_deposit : bool;
}.

Definition to_marker (nonce : Z) (from : Address) : TxMarker := rev (be_bytes 8 nonce) ++ be_bytes 20 from.

Inductive TransactionOrder := Fifo | Fees.
Definition order_priority (order : TransactionOrder) (tx : PendingTransaction) : Z :=
  match order with Fifo => 0 | Fees => pt_max_fee_per_gas tx end.

Record PoolTransaction := mkPoolTransaction {
  pending_transaction : PendingTransaction;
  requires : list TxMarker;
  provides : list TxMarker;
  priority : Z;
}.
Definition tx_hash (tx : PoolTransaction) : TxHash := pt_hash (pending_transaction tx).
Definition max_fee_per_gas (tx : PoolTransaction) : Z := pt_max_fee_per_gas (pending_transaction tx).

Definition required_marker (provided_nonce on_chain_nonce : Z) (from : Address) : list TxMarker :=
  if provided_nonce =? on_chain_nonce then []
  else
    let prev_nonce := saturating_sub provided_nonce 1 in
    if on_chain_nonce <=? prev_nonce then [to_marker prev_nonce from] else [].

(** [!aa_tx.tx().nonce_key.is_zero()]. *)
Definition keyed (tx : PendingTransaction) : bool := from_option (λ key, negb (key =? 0)) false (pt_nonce_key tx).
(** [send_raw_transaction], from the markers on. *)
Definition submitted (order : TransactionOrder) (on_chain_nonce : Z) (tx : PendingTransaction) : PoolTransaction :=
  if keyed tx
  then mkPoolTransaction tx [] [be_bytes 32 (pt_hash tx)] (order_priority order tx)
  else mkPoolTransaction tx (required_marker (pt_nonce tx) on_chain_nonce (pt_sender tx))
         [to_marker (pt_nonce tx) (pt_sender tx)] (order_priority order tx).

(** ** Transactions that wait for others *)
Record PendingPoolTransaction := mkPendingPoolTransaction {
  transaction : PoolTransaction;
  missing_markers : gset TxMarker;
}.

Definition pending_new (tx : PoolTransaction) (provided : gmap TxMarker TxHash) : PendingPoolTransaction :=
  mkPendingPoolTransaction tx (list_to_set (filter (λ m, provided !! m = None) (requires tx))).
Definition mark (marker : TxMarker) (tx : PendingPoolTransaction) : PendingPoolTransaction :=
  mkPendingPoolTransaction (transaction tx) (missing_markers tx ∖ {[marker]}).
Definition is_ready (tx : PendingPoolTransaction) : bool := bool_decide (missing_markers tx = ∅).

Record PendingTransactions := mkPendingTransactions {
  required_markers : gmap TxMarker (gset TxHash);
  waiting_markers : gmap (list TxMarker) TxHash;
  waiting_queue : gmap TxHash PendingPoolTransaction;
}.
Definition pending_empty : PendingTransactions := mkPendingTransactions ∅ ∅ ∅.

Definition on_required f (p : PendingTransactions) := mkPendingTransactions (f (required_markers p)) (waiting_markers p) (waiting_queue p).
Definition on_waiting f (p : PendingTransactions) := mkPendingTransactions (required_markers p) (f (waiting_markers p)) (waiting_queue p).
Definition on_queue f (p : PendingTransactions) := mkPendingTransactions (required_markers p) (waiting_markers p) (f (waiting_queue p)).

Section pending.
Context `{HashOrder}.

(** The body of the inner loop of [mark_and_unlock]. *)
Definition mark_waiting (marker : TxMarker) (hash : TxHash) : PM PendingTransactions (list PendingPoolTransaction) :=
  queue ← pgets waiting_queue;
  match queue !! hash with
  | None => pfail Panicked
  | Some tx =>
      let tx := mark marker tx in
      pmodify (on_queue <[hash:=tx]>);;
      if is_ready tx then
        pmodify (on_queue (delete hash));;
        pmodify (on_waiting (delete (provides (transaction tx))));;
        mret [tx]
      else mret []
  end.
Definition mark_and_unlock : list TxMarker → PM PendingTransactions (list PendingPoolTransaction) :=
  pcollect (λ marker,
    required ← pgets required_markers;
    match required !! marker with
    | Some tx_hashes => pmodify (on_required (delete marker));; pcollect (mark_waiting marker) (set_iter tx_hashes)
    | None => mret []
    end).

(** One missing marker of a removed transaction. *)
Definition unrequire (hash : TxHash) (required : gmap TxMarker (gset TxHash)) (marker : TxMarker) :=
  match required !! marker with
  | Some hashes =>
      let hashes := hashes ∖ {[hash]} in
      if decide (hashes = ∅) then delete marker required else <[marker:=hashes]> required
  | None => required
  end.
Definition pending_remove : list TxHash → PM PendingTransactions (list PoolTransaction) :=
  pcollect (λ hash,
    queue ← pgets waiting_queue;
    match queue !! hash with
    | Some waiting_tx =>
        pmodify (on_queue (delete hash));;
        pmodify (on_waiting (delete (provides (transaction waiting_tx))));;
        pmodify (on_required (λ r, fold_left (unrequire hash) (set_iter (missing_markers waiting_tx)) r));;
        mret [transaction waiting_tx]
    | None => mret []
    end).

Definition pending_add (tx : PendingPoolTransaction) : PM PendingTransactions unit :=
  let hash := tx_hash (transaction tx) in
  passert (negb (is_ready tx));;
  queue ← pgets waiting_queue;
  passert (bool_decide (queue !! hash = None));;
  waiting ← pgets waiting_markers;
  match waiting !! provides (transaction tx) ≫= (queue !!.) with
  | Some replace =>
      if max_fee_per_gas (transaction tx) <=? max_fee_per_gas (transaction replace)
      then pfail (PoolErr (ReplacementUnderpriced hash)) else mret tt
  | None => mret tt
  end;;
  pmodify (on_required (λ r, fold_left (λ r marker, <[marker:={[hash]} ∪ default ∅ (r !! marker)]> r)
    (set_iter (missing_markers tx)) r));;
  pmodify (on_waiting <[provides (transaction tx):=hash]>);;
  pmodify (on_queue <[hash:=tx]>).

(** [waiting_queue.values()]. *)
Definition pending_transactions_of (p : PendingTransactions) : list PoolTransaction :=
  omap (λ h, transaction <$> waiting_queue p !! h) (set_iter (dom (waiting_queue p))).
End pending.

(** ** Transactions that are ready *)
Record PoolTransactionRef := mkRef { ref_transaction : PoolTransaction; ref_id : Z }.

Definition ref_cmp (a b : PoolTransactionRef) : comparison :=
  match Z.compare (priority (ref_transaction a)) (priority (ref_transaction b)) with
  | Eq => Z.compare (ref_id b) (ref_id a)
  | c => c
  end.

(** [BTreeSet<PoolTransactionRef>], as the list of its elements in ascending order. *)
Fixpoint btree_insert (x : PoolTransactionRef) (l : list PoolTransactionRef) : list PoolTransactionRef :=
  match l with
  | [] => [x]
  | y :: l' => match ref_cmp x y with Lt => x :: l | Eq => l | Gt => y :: btree_insert x l' end
  end.
Fixpoint btree_remove (x : PoolTransactionRef) (l : list PoolTransactionRef) : list PoolTransactionRef :=
  match l with
  | [] => []
  | y :: l' => match ref_cmp x y with Lt => l | Eq => l' | Gt => y :: btree_remove x l' end
  end.

Record ReadyTransaction := mkReady {
  ready_ref : PoolTransactionRef;
  unlocks : list TxHash;
  requires_offset : Z;
}.
Definition ready_tx_of (r : ReadyTransaction) : PoolTransaction := ref_transaction (ready_ref r).
Definition on_unlocks f (r : ReadyTransaction) := mkReady (ready_ref r) (f (unlocks r)) (requires_offset r).

Record ReadyTransactions := mkReadyTransactions {
  id : Z;
  provided_markers : gmap TxMarker TxHash;
  ready_tx : gmap TxHash ReadyTransaction;
  independent_transactions : list PoolTransactionRef;
}.
Definition ready_empty : ReadyTransactions := mkReadyTransactions 0 ∅ ∅ [].
(** [clear] keeps the counter of identifiers. *)
Definition ready_clear (r : ReadyTransactions) : ReadyTransactions := mkReadyTransactions (id r) ∅ ∅ [].

Definition on_provided f (r : ReadyTransactions) := mkReadyTransactions (id r) (f (provided_markers r)) (ready_tx r) (independent_transactions r).
Definition on_ready f (r : ReadyTransactions) := mkReadyTransactions (id r) (provided_markers r) (f (ready_tx r)) (independent_transactions r).
Definition on_independent f (r : ReadyTransactions) := mkReadyTransactions (id r) (provided_markers r) (ready_tx r) (f (independent_transactions r)).

(** *** [remove_with_markers] *)

(** Takes [hash] off the list of the transaction that provides [marker]. *)
Definition unlink (hash : TxHash) (r : ReadyTransactions) (marker : TxMarker) : ReadyTransactions :=
  match provided_markers r !! marker with
  | Some provider_hash => on_ready (alter (on_unlocks (remove_hash hash)) provider_hash) r
  | None => r
  end.

Definition invalidated (marker_filter : option (gset TxMarker)) (tx : PoolTransaction) : list TxMarker :=
  match marker_filter with
  | Some f => filter (λ m, m ∉ f) (provides tx)
  | None => provides tx
  end.

Definition remove_ready (marker_filter : option (gset TxMarker)) (hash : TxHash) (tx : ReadyTransaction)
    (r : ReadyTransactions) : ReadyTransactions :=
  let r := on_ready (delete hash) r in
  let r := on_provided (λ p, fold_left (λ p m, delete m p) (invalidated marker_filter (ready_tx_of tx)) p) r in
  let r := fold_left (unlink hash) (requires (ready_tx_of tx)) r in
  on_independent (btree_remove (ready_ref tx)) r.

(** [Vec]s used as stacks are lists whose head is the top.  Every removal takes one unit of
    fuel, a hash that is not in the pool takes none. *)
Fixpoint remove_loop (fuel : nat) (marker_filter : option (gset TxMarker))
    : list TxHash → list PoolTransaction → PM ReadyTransactions (list PoolTransaction) :=
  fix inner tx_hashes removed :=
    match tx_hashes with
    | [] => mret removed
    | hash :: tx_hashes =>
        ready ← pgets ready_tx;
        match ready !! hash with
        | None => inner tx_hashes removed
        | Some tx =>
            match fuel with
            | O => pfail NoFuel
            | S fuel =>
                pmodify (remove_ready marker_filter hash tx);;
                let removed_some_marks := negb (bool_decide (invalidated marker_filter (ready_tx_of tx) = [])) in
                remove_loop fuel marker_filter
                  (if removed_some_marks then rev (unlocks tx) ++ tx_hashes else tx_hashes)
                  (removed ++ [ready_tx_of tx])
            end
        end
    end.
Definition remove_with_markers (tx_hashes : list TxHash) (marker_filter : option (gset TxMarker))
    : PM ReadyTransactions (list PoolTransaction) := λ r,
  remove_loop (size (ready_tx r)) marker_filter (rev tx_hashes) [] r.
Definition clear_transactions (tx_hashes : list TxHash) : PM ReadyTransactions (list PoolTransaction) :=
  remove_with_markers tx_hashes None.

(** *** [prune_tags] *)

(** [previous_markers]: the markers of the provider of [marker], if it unlocks nothing else. *)
Definition previous_markers (hash : TxHash) (marker : TxMarker) : PM ReadyTransactions (list TxMarker) :=
  pmodify (λ r, unlink hash r marker);;
  pgets (λ r, match provided_markers r !! marker ≫= (ready_tx r !!.) with
              | Some tx2 => if decide (unlocks tx2 = []) then provides (ready_tx_of tx2) else []
              | None => []
              end).

Definition satisfy (r : ReadyTransactions) (hash : TxHash) : ReadyTransactions :=
  match ready_tx r !! hash with
  | Some tx =>
      let tx := mkReady (ready_ref tx) (unlocks tx) (requires_offset tx + 1) in
      let r := on_ready <[hash:=tx]> r in
      if requires_offset tx =? Z.of_nat (length (requires (ready_tx_of tx)))
      then on_independent (btree_insert (ready_ref tx)) r else r
  | None => r
  end.

Definition drop_provided (hash : TxHash) (current_marker marker : TxMarker) : PM ReadyTransactions unit :=
  removed ← pgets (λ r, provided_markers r !! marker);
  pmodify (on_provided (delete marker));;
  passert (bool_decide (removed = if decide (current_marker = marker) then None else Some hash)).

(** The removal of the provider of [marker]; returns the markers to prune next. *)
Definition prune_ready (marker : TxMarker) (hash : TxHash) (tx : ReadyTransaction) : PM ReadyTransactions (list TxMarker) :=
  let '(t, next) := (ready_tx_of tx, unlocks tx) in
  pmodify (on_ready (delete hash));;
  pmodify (on_independent (btree_remove (ready_ref tx)));;
  tags ← pcollect (previous_markers (tx_hash t)) (requires t);
  pmodify (λ r, fold_left satisfy next r);;
  pfor (drop_provided (tx_hash t) marker) (provides t);;
  mret tags.

Fixpoint prune_loop (fuel : nat) : list TxMarker → list PoolTransaction → PM ReadyTransactions (list PoolTransaction) :=
  fix inner remove removed_tx :=
    match remove with
    | [] => mret removed_tx
    | marker :: remove =>
        res ← pgets (λ r, hash ← provided_markers r !! marker; tx ← ready_tx r !! hash; Some (hash, tx));
        pmodify (on_provided (delete marker));;
        match res with
        | None => inner remove removed_tx
        | Some (hash, tx) =>
            match fuel with
            | O => pfail NoFuel
            | S fuel =>
                tags ← prune_ready marker hash tx;
                prune_loop fuel (rev tags ++ remove) (removed_tx ++ [ready_tx_of tx])
            end
        end
    end.
Definition prune_tags (marker : TxMarker) : PM ReadyTransactions (list PoolTransaction) := λ r,
  prune_loop (size (ready_tx r)) [marker] [] r.

(** *** [add_transaction] *)
Section ready.
Context `{HashOrder}.

Fixpoint check_replaced (tx : PoolTransaction) (to_remove : list ReadyTransaction) : PM ReadyTransactions (list TxHash) :=
  match to_remove with
  | [] => mret []
  | r :: to_remove =>
      (if bool_decide (provides (ready_tx_of r) = provides tx) && (max_fee_per_gas tx <=? max_fee_per_gas (ready_tx_of r))
       then pfail (PoolErr (ReplacementUnderpriced (tx_hash tx))) else mret tt);;
      rest ← check_replaced tx to_remove;
      mret (unlocks r ++ rest)
  end.

Definition replaced_transactions (tx : PoolTransaction) : PM ReadyTransactions (list PoolTransaction * list TxHash) :=
  provided ← pgets provided_markers;
  let remove_hashes : gset TxHash := list_to_set (omap (provided !!.) (provides tx)) in
  if decide (remove_hashes = ∅) then mret ([], [])
  else
    ready ← pgets ready_tx;
    unlocked_tx ← check_replaced tx (omap (ready !!.) (set_iter remove_hashes));
    removed_tx ← remove_with_markers (set_iter remove_hashes) (Some (list_to_set (provides tx)));
    mret (removed_tx, unlocked_tx).

(** Links [hash] to the transaction that provides [marker]; returns [marker] if there is none. *)
Definition link (hash : TxHash) (marker : TxMarker) : PM ReadyTransactions (list TxMarker) :=
  provided ← pgets provided_markers;
  match provided !! marker with
  | Some other =>
      ready ← pgets ready_tx;
      passert (bool_decide (is_Some (ready !! other)));;
      pmodify (on_ready (alter (on_unlocks (λ u, u ++ [hash])) other));;
      mret []
  | None => mret [marker]
  end.

Definition next_id : PM ReadyTransactions Z :=
  i ← pgets id;
  pmodify (λ r, mkReadyTransactions (wrap U64_MAX (i + 1)) (provided_markers r) (ready_tx r) (independent_transactions r));;
  mret i.

Definition ready_add (tx : PendingPoolTransaction) : PM ReadyTransactions (list PoolTransaction) :=
  let t := transaction tx in
  let hash := tx_hash t in
  passert (is_ready tx);;
  ready ← pgets ready_tx;
  passert (bool_decide (ready !! hash = None));;
  p ← replaced_transactions t;
  i ← next_id;
  inherent ← pcollect (link hash) (requires t);
  let requires_offset := Z.of_nat (length inherent) in
  let independent := requires_offset =? Z.of_nat (length (requires t)) in
  pmodify (on_provided (λ m, fold_left (λ m mk, <[mk:=hash]> m) (provides t) m));;
  (if independent then pmodify (on_independent (btree_insert (mkRef t i))) else mret tt);;
  pmodify (on_ready <[hash:=mkReady (mkRef t i) (snd p) requires_offset]>);;
  mret (fst p).
End ready.

(** *** [TransactionsIterator] *)
Record TransactionsIterator := mkIterator {
  all : gmap TxHash ReadyTransaction;
  awaiting : gmap TxHash (Z * PoolTransactionRef);
  independent : list PoolTransactionRef;
}.
Definition get_transactions (r : ReadyTransactions) : TransactionsIterator :=
  mkIterator (ready_tx r) ∅ (independent_transactions r).

Definition independent_or_awaiting (satisfied : Z) (tx_ref : PoolTransactionRef) (it : TransactionsIterator) : TransactionsIterator :=
  if Z.of_nat (length (requires (ref_transaction tx_ref))) <=? satisfied
  then mkIterator (all it) (awaiting it) (btree_insert tx_ref (independent it))
  else mkIterator (all it) (<[tx_hash (ref_transaction tx_ref):=(satisfied, tx_ref)]> (awaiting it)) (independent it).

Definition unlock_next (it : TransactionsIterator) (hash : TxHash) : TransactionsIterator :=
  match awaiting it !! hash with
  | Some (satisfied, tx_ref) =>
      independent_or_awaiting (satisfied + 1) tx_ref (mkIterator (all it) (delete hash (awaiting it)) (independent it))
  | None =>
      match all it !! hash with
      | Some next => independent_or_awaiting (requires_offset next + 1) (ready_ref next) it
      | None => it
      end
  end.

(** The loop of [next] takes one element of [independent] off in each turn. *)
Fixpoint next_loop (n : nat) (it : TransactionsIterator) : option PoolTransaction * TransactionsIterator :=
  match n, last (independent it) with
  | S n, Some best =>
      let it := mkIterator (all it) (awaiting it) (btree_remove best (independent it)) in
      match all it !! tx_hash (ref_transaction best) with
      | Some ready => (Some (ref_transaction best), fold_left unlock_next (unlocks ready) it)
      | None => next_loop n it
      end
  | _, _ => (None, it)
  end.
Definition next (it : TransactionsIterator) : option PoolTransaction * TransactionsIterator :=
  next_loop (length (independent it)) it.

(** [iterator.take(n).collect()], with the iterator that is left. *)
Fixpoint take_next (n : nat) (it : TransactionsIterator) : list PoolTransaction * TransactionsIterator :=
  match n with
  | O => ([], it)
  | S n =>
      match next it with
      | (None, it) => ([], it)
      | (Some tx, it) => let '(txs, it) := take_next n it in (tx :: txs, it)
      end
  end.
(** [iterator.collect()]: at most as many transactions as are ready. *)
Definition collect (r : ReadyTransactions) : option (list PoolTransaction) :=
  let '(txs, it) := take_next (size (ready_tx r)) (get_transactions r) in
  match next it with
  | (None, _) => Some txs
  | (Some _, _) => None
  end.

(** ** The pool *)
Record PoolInner := mkPoolInner {
  ready_transactions : ReadyTransactions;
  pending_transactions : PendingTransactions;
}.
Definition pool_empty : PoolInner := mkPoolInner ready_empty pending_empty.

Definition at_ready {A} (m : PM ReadyTransactions A) : PM PoolInner A := λ p,
  let '(a, r) := m (ready_transactions p) in (a, mkPoolInner r (pending_transactions p)).
Definition at_pending {A} (m : PM PendingTransactions A) : PM PoolInner A := λ p,
  let '(a, q) := m (pending_transactions p) in (a, mkPoolInner (ready_transactions p) q).

Definition contains (p : PoolInner) (hash : TxHash) : bool :=
  bool_decide (is_Some (waiting_queue (pending_transactions p) !! hash)) ||
  bool_decide (is_Some (ready_tx (ready_transactions p) !! hash)).

Definition get_transaction (p : PoolInner) (hash : TxHash) : option PendingTransaction :=
  match waiting_queue (pending_transactions p) !! hash with
  | Some pending => Some (pending_transaction (transaction pending))
  | None => (λ r, pending_transaction (ready_tx_of r)) <$> ready_tx (ready_transactions p) !! hash
  end.

(** The [ReadyTransaction] of [pool/mod.rs]. *)
Record AddedReady := mkAddedReady {
  added_hash : TxHash;
  promoted : list TxHash;
  discarded : list TxHash;
  removed : list PoolTransaction;
}.
Inductive AddedTransaction := AddedAsReady (ready : AddedReady) | AddedAsPending (hash : TxHash).

Record PruneResult := mkPruneResult {
  prune_promoted : list AddedTransaction;
  prune_failed : list TxHash;
  pruned : list PoolTransaction;
}.

Section pool.
Context `{HashOrder}.

Fixpoint add_loop (fuel : nat) (tx_queue : list PendingPoolTransaction) (is_new_tx : bool) (ready : AddedReady)
    : PM PoolInner AddedReady :=
  match tx_queue, fuel with
  | [], _ => mret ready
  | _ :: _, O => pfail NoFuel
  | current_tx :: tx_queue, S fuel =>
      let current_hash := tx_hash (transaction current_tx) in
      unlocked ← at_pending (mark_and_unlock (provides (transaction current_tx)));
      added ← ptry (at_ready (ready_add current_tx));
      match added with
      | inr replaced =>
          add_loop fuel (tx_queue ++ unlocked) false
            (mkAddedReady (added_hash ready) (if is_new_tx then promoted ready else promoted ready ++ [current_hash])
               (discarded ready) (removed ready ++ replaced))
      | inl err =>
          if is_new_tx then pfail (PoolErr err)
          else add_loop fuel (tx_queue ++ unlocked) false
                 (mkAddedReady (added_hash ready) (promoted ready) (discarded ready ++ [current_hash]) (removed ready))
      end
  end.

Definition add_ready_transaction (tx : PendingPoolTransaction) : PM PoolInner AddedTransaction :=
  let hash := tx_hash (transaction tx) in
  fuel ← pgets (λ p, S (size (waiting_queue (pending_transactions p))));
  ready ← add_loop fuel [tx] true (mkAddedReady hash [] [] []);
  if existsb (λ t, tx_hash t =? hash) (removed ready) then
    at_ready (clear_transactions (promoted ready));;
    pfail (PoolErr CyclicTransaction)
  else mret (AddedAsReady ready).

Definition add_transaction (tx : PoolTransaction) : PM PoolInner AddedTransaction :=
  known ← pgets (λ p, contains p (tx_hash tx));
  if known : bool then pfail (PoolErr (AlreadyImported (tx_hash tx)))
  else
    provided ← pgets (λ p, provided_markers (ready_transactions p));
    let tx := pending_new tx provided in
    if is_ready tx then add_ready_transaction tx
    else
      at_pending (pending_add tx);;
      mret (AddedAsPending (tx_hash (transaction tx))).

(** [Pool::drop_transaction]. *)
Definition drop_transaction (tx : TxHash) : PM PoolInner (option PoolTransaction) :=
  removed ← at_ready (remove_with_markers [tx] None);
  mret (snd <$> list_find (λ t, tx_hash t = tx) removed).

Definition remove_invalid (tx_hashes : list TxHash) : PM PoolInner (list PoolTransaction) :=
  if decide (tx_hashes = []) then mret []
  else
    removed ← at_ready (remove_with_markers tx_hashes None);
    removed' ← at_pending (pending_remove tx_hashes);
    mret (removed ++ removed').

(** [collect] does not come back if the iterator does not end. *)
Definition transactions_by_sender (sender : Address) (p : PoolInner) : option (list PoolTransaction) :=
  ready ← collect (ready_transactions p);
  Some (filter (λ t, pt_sender (pending_transaction t) = sender) (pending_transactions_of (pending_transactions p)) ++
        filter (λ t, pt_sender (pending_transaction t) = sender) ready).
Definition remove_transactions_by_address (sender : Address) : PM PoolInner (list PoolTransaction) :=
  txs ← pgets (transactions_by_sender sender);
  match txs with
  | Some txs => remove_invalid (tx_hash <$> txs)
  | None => pfail NoFuel
  end.

Definition prune_marker (marker : TxMarker) : PM PoolInner (list PendingPoolTransaction * list PoolTransaction) :=
  imports ← at_pending (mark_and_unlock [marker]);
  pruned ← at_ready (prune_tags marker);
  mret (imports, pruned).
Definition promote (tx : PendingPoolTransaction) : PM PoolInner (TxHash + AddedTransaction) :=
  res ← ptry (add_ready_transaction tx);
  mret (match res with inl _ => inl (tx_hash (transaction tx)) | inr res => inr res end).
Definition prune_markers (markers : list TxMarker) : PM PoolInner PruneResult :=
  parts ← pcollect (λ m, part ← prune_marker m; mret [part]) markers;
  results ← pcollect (λ tx, res ← promote tx; mret [res]) (concat (fst <$> parts));
  mret (mkPruneResult (omap (λ r, match r with inr a => Some a | inl _ => None end) results)
          (omap (λ r, match r with inl h => Some h | inr _ => None end) results) (concat (snd <$> parts))).

(** [Pool::on_mined_block], without the listeners. *)
Definition on_mined_block (included invalid : list PoolTransaction) : PM PoolInner PruneResult :=
  remove_invalid (tx_hash <$> invalid);;
  prune_markers (concat (provides <$> included)).

Definition pool_clear : PM PoolInner unit :=
  pmodify (λ p, mkPoolInner (ready_clear (ready_transactions p)) pending_empty).
End pool.
