(* ===== verification/TxPoolReady.v ===== *)
(** * The ready transactions

    The invariant of [ReadyTransactions] and its preservation by the removal, pruning and addition of
    transactions, for transactions that provide one marker and require at most one, of a
    lower rank: those the RPC handlers submit. *)
From Stdlib Require Import ZArith Lia Sorting.Sorted.
From stdpp Require Import base tactics option list fin_maps gmap fin_sets.
From S2P Require Import Prelude Base TxPool.
Open Scope Z_scope.

(** ** Lists *)
Lemma elem_of_rev {A} (l : list A) x : x ∈ rev l ↔ x ∈ l.
Proof. by rewrite !list_elem_of_In, <- in_rev. Qed.
Lemma swap_remove_app {A} (l1 l2 : list A) x :
  swap_remove (l1 ++ x :: l2) (length l1) ≡ₚ l1 ++ l2.
Proof.
  unfold swap_remove. destruct l2 as [|y l2' _] using rev_ind.
  - rewrite last_snoc, insert_app_r_alt, Nat.sub_diag by lia. cbn. rewrite length_app. cbn.
    replace (length l1 + 1 - 1)%nat with (length l1) by lia. by rewrite take_app_length, app_nil_r.
  - change (x :: l2' ++ [y]) with ((x :: l2') ++ [y]). rewrite app_assoc, last_snoc, length_app. cbn.
    replace (length (l1 ++ x :: l2') + 1 - 1)%nat with (length (l1 ++ x :: l2')) by lia.
    rewrite <- app_assoc. cbn. rewrite insert_app_r_alt, Nat.sub_diag by lia. cbn.
    change (y :: l2' ++ [y]) with ((y :: l2') ++ [y]). rewrite app_assoc.
    rewrite take_app_length' by (rewrite !length_app; done). apply Permutation_app_head, Permutation_cons_append.
Qed.

Lemma remove_hash_absent h l : h ∉ l → remove_hash h l = l.
Proof.
  intros Hn. unfold remove_hash. destruct (list_find _ l) as [[i x]|] eqn:E; [|done].
  apply list_find_Some in E as (E & -> & _). apply list_elem_of_lookup_2 in E. done.
Qed.
Lemma remove_hash_present h l : h ∈ l → l ≡ₚ h :: remove_hash h l.
Proof.
  intros Hin. unfold remove_hash. destruct (list_find_elem_of (eq h) l h Hin eq_refl) as [[i x] E].
  rewrite E. apply list_find_Some in E as (E & <- & _).
  rewrite <- (take_drop_middle l i h E) at 2.
  assert (Hi : i = length (take i l)) by (apply lookup_lt_Some in E; rewrite length_take; lia).
  rewrite Hi at 3. rewrite swap_remove_app. rewrite <- (take_drop_middle l i h E) at 1.
  symmetry. apply Permutation_middle.
Qed.
Lemma remove_hash_elem h l k : NoDup l → k ∈ remove_hash h l ↔ k ∈ l ∧ k ≠ h.
Proof.
  intros Hnd. destruct (decide (h ∈ l)) as [Hin|Hn].
  - pose proof (remove_hash_present h l Hin) as Hp. rewrite Hp in Hnd |- * at 2.
    apply NoDup_cons in Hnd as [Hh _]. set_solver.
  - rewrite (remove_hash_absent _ _ Hn). set_solver.
Qed.
Lemma remove_hash_nodup h l : NoDup l → NoDup (remove_hash h l).
Proof.
  intros Hnd. destruct (decide (h ∈ l)) as [Hin|Hn].
  - pose proof (remove_hash_present h l Hin) as Hp. rewrite Hp in Hnd. by apply NoDup_cons in Hnd as [_ ?].
  - by rewrite (remove_hash_absent _ _ Hn).
Qed.

(** ** The ordered set of references *)
Definition ref_lt (a b : PoolTransactionRef) : Prop := ref_cmp a b = Lt.

Lemma ref_cmp_lt a b :
  ref_lt a b ↔ priority (ref_transaction a) < priority (ref_transaction b) ∨
    priority (ref_transaction a) = priority (ref_transaction b) ∧ ref_id b < ref_id a.
Proof.
  unfold ref_lt, ref_cmp. destruct (Z.compare_spec (priority (ref_transaction a)) (priority (ref_transaction b)));
    [destruct (Z.compare_spec (ref_id b) (ref_id a))|..]; naive_solver lia.
Qed.
Lemma ref_cmp_gt a b : ref_cmp a b = Gt ↔ ref_lt b a.
Proof.
  rewrite ref_cmp_lt. unfold ref_cmp.
  destruct (Z.compare_spec (priority (ref_transaction a)) (priority (ref_transaction b)));
    [destruct (Z.compare_spec (ref_id b) (ref_id a))|..]; naive_solver lia.
Qed.
Lemma ref_cmp_eq a b : ref_cmp a b = Eq → ref_id a = ref_id b.
Proof. unfold ref_cmp. destruct (Z.compare _ _); try done. intros ?%Z.compare_eq. done. Qed.
Lemma ref_cmp_refl a : ref_cmp a a = Eq.
Proof. unfold ref_cmp. by rewrite !Z.compare_refl. Qed.
Global Instance ref_lt_trans : Transitive ref_lt.
Proof. intros a b c. rewrite !ref_cmp_lt. lia. Qed.

(** References are told apart by their identifiers. *)
Definition by_id (l : list PoolTransactionRef) (x : PoolTransactionRef) : Prop := ∀ y, y ∈ l → ref_id x = ref_id y → x = y.

Lemma btree_insert_elem x l z : by_id l x → z ∈ btree_insert x l ↔ z = x ∨ z ∈ l.
Proof.
  induction l as [|y l IH]; intros Hid; cbn; [set_solver|].
  destruct (ref_cmp x y) eqn:E.
  - apply ref_cmp_eq in E. rewrite (Hid y) by set_solver. set_solver.
  - set_solver.
  - rewrite !elem_of_cons, IH by (intros ? ?; apply Hid; set_solver). set_solver.
Qed.
Lemma btree_insert_sorted x l : StronglySorted ref_lt l → by_id l x → StronglySorted ref_lt (btree_insert x l).
Proof.
  induction 1 as [|y l Hs IH Hall]; intros Hid; cbn; [repeat constructor|].
  destruct (ref_cmp x y) eqn:E.
  - by constructor.
  - constructor; [by constructor|]. constructor; [done|].
    eapply Forall_impl; [exact Hall|]. intros z Hz. by transitivity y.
  - apply ref_cmp_gt in E. constructor; [apply IH; intros ? ?; apply Hid; set_solver|].
    apply Forall_forall. intros z Hz. apply btree_insert_elem in Hz as [->|Hz]; [done| |intros ? ?; apply Hid; set_solver].
    by eapply Forall_forall in Hall.
Qed.
Lemma btree_remove_elem x l z : StronglySorted ref_lt l → by_id l x → z ∈ btree_remove x l ↔ z ∈ l ∧ z ≠ x.
Proof.
  induction 1 as [|y l Hs IH Hall]; intros Hid; cbn; [set_solver|].
  assert (Hl : by_id l x) by (intros ? ?; apply Hid; set_solver).
  assert (Hlt : ∀ w, w ∈ l → ref_lt y w) by (intros w Hw; by eapply Forall_forall in Hall).
  assert (Hirr : ∀ w, ¬ ref_lt w w) by (intros w Hw; unfold ref_lt in Hw; by rewrite ref_cmp_refl in Hw).
  destruct (ref_cmp x y) eqn:E.
  - apply ref_cmp_eq in E. assert (x = y) as -> by (apply Hid; set_solver).
    split; [intros Hz; split; [set_solver|]; intros ->; by eapply Hirr, Hlt|set_solver].
  - split; [|set_solver]. intros Hz. split; [done|]. intros ->.
    apply elem_of_cons in Hz as [->|Hz]; [by eapply Hirr|]. eapply Hirr. transitivity y; [exact E|by apply Hlt].
  - rewrite !elem_of_cons, IH by done. split; [|set_solver].
    intros [->|?]; [|set_solver]. split; [by left|]. intros ->. by rewrite ref_cmp_refl in E.
Qed.
Lemma btree_remove_sorted x l : StronglySorted ref_lt l → StronglySorted ref_lt (btree_remove x l).
Proof.
  induction 1 as [|y l Hs IH Hall]; cbn; [constructor|]. destruct (ref_cmp x y); [done|by constructor|].
  constructor; [done|]. apply Forall_forall. intros z Hz. eapply Forall_forall in Hall; [done|].
  clear -Hz. induction l as [|w l IHl]; cbn in Hz; [set_solver|]. destruct (ref_cmp x w); set_solver.
Qed.
Lemma sorted_last l x y : StronglySorted ref_lt l → last l = Some x → y ∈ l → y = x ∨ ref_lt y x.
Proof.
  induction 1 as [|w l Hs IH Hall]; [done|]. intros Hl Hy. destruct l as [|v l].
  { cbn in Hl. set_solver. }
  change (last (w :: v :: l)) with (last (v :: l)) in Hl. apply elem_of_cons in Hy as [->|Hy]; [|by apply IH].
  right. eapply Forall_forall in Hall; [exact Hall|]. by apply last_Some_elem_of.
Qed.

Lemma pbind_ok {S A B} (c : PM S A) (f : A → PM S B) s a s' : c s = (Ok a, s') → (c ≫= f) s = f a s'.
Proof. intros E. unfold mbind, PM_bind. by rewrite E. Qed.
Lemma pgets_bind {S A B} (g : S → A) (f : A → PM S B) s : (pgets g ≫= f) s = f (g s) s.
Proof. done. Qed.

(** ** The invariant *)

(** The nonce in a marker. *)
Definition rank (m : TxMarker) : Z := bytes_value (rev (take 8 m)).

Definition tx_ok (t : PoolTransaction) : Prop :=
  ∃ m, provides t = [m] ∧ (requires t = [] ∨ ∃ m', requires t = [m'] ∧ rank m' < rank m).

(** A ready transaction that depends on no other one of the pool. *)
Definition settled (x : ReadyTransaction) : Prop := requires_offset x = Z.of_nat (length (requires (ready_tx_of x))).

(** The tables of the ready transactions agree.  A transaction that is not settled is on the list
    of the one that provides what it requires, except for those in [X]. *)
Record ReadyInv (X : list TxHash) (r : ReadyTransactions) : Prop := {
  ri_ok h x : ready_tx r !! h = Some x → tx_hash (ready_tx_of x) = h ∧ tx_ok (ready_tx_of x);
  ri_id h x : ready_tx r !! h = Some x → 0 ≤ ref_id (ready_ref x) < id r;
  ri_ids h h' x x' : ready_tx r !! h = Some x → ready_tx r !! h' = Some x' →
    ref_id (ready_ref x) = ref_id (ready_ref x') → h = h';
  ri_provided m h : provided_markers r !! m = Some h ↔ ∃ x, ready_tx r !! h = Some x ∧ provides (ready_tx_of x) = [m];
  ri_unlocks h x k : ready_tx r !! h = Some x → k ∈ unlocks x →
    ∃ y, ready_tx r !! k = Some y ∧ requires (ready_tx_of y) = provides (ready_tx_of x) ∧ requires_offset y = 0;
  ri_nodup h x : ready_tx r !! h = Some x → NoDup (unlocks x);
  ri_linked k y : ready_tx r !! k = Some y → k ∉ X → ¬ settled y → ∃ h x, ready_tx r !! h = Some x ∧ k ∈ unlocks x;
  ri_independent ref : ref ∈ independent_transactions r ↔ ∃ h x, ready_tx r !! h = Some x ∧ settled x ∧ ready_ref x = ref;
  ri_sorted : StronglySorted ref_lt (independent_transactions r);
}.

Lemma ready_inv_weaken X Y r : (∀ k, k ∈ X → is_Some (ready_tx r !! k) → k ∈ Y) → ReadyInv X r → ReadyInv Y r.
Proof.
  intros HXY [? ? ? ? ? ? Hl ? ?]. split; try done. intros k y Hk HY Hs. eapply Hl; eauto.
Qed.

Lemma ready_inv_empty n : ReadyInv [] (mkReadyTransactions n ∅ ∅ []).
Proof. split; cbn; intros *; rewrite ?lookup_empty; try done; try constructor; set_solver. Qed.

Section inv.
Context {X : list TxHash} {r : ReadyTransactions} (Hr : ReadyInv X r).

Lemma provider_unique h h' x x' m :
  ready_tx r !! h = Some x → ready_tx r !! h' = Some x' → provides (ready_tx_of x) = [m] → provides (ready_tx_of x') = [m] → h = h'.
Proof.
  intros Hx Hx' Hm Hm'. assert (provided_markers r !! m = Some h) by (apply (ri_provided _ _ Hr); eauto).
  assert (provided_markers r !! m = Some h') by (apply (ri_provided _ _ Hr); eauto). congruence.
Qed.

Lemma refs_by_id h x : ready_tx r !! h = Some x → by_id (independent_transactions r) (ready_ref x).
Proof.
  intros Hx ref Hin He. apply (ri_independent _ _ Hr) in Hin as (h' & x' & Hx' & _ & <-).
  pose proof (ri_ids _ _ Hr _ _ _ _ Hx Hx' He) as <-. congruence.
Qed.

(** Only the provider of what [h] requires can have [h] on its list. *)
Lemma unlink_rest h x h' x' : ready_tx r !! h = Some x → ready_tx r !! h' = Some x' →
  requires (ready_tx_of x) ≠ provides (ready_tx_of x') → on_unlocks (remove_hash h) x' = x'.
Proof.
  intros Hx Hx' Hne. destruct x' as [ref u o]. unfold on_unlocks. cbn. f_equal. apply remove_hash_absent. intros Hin.
  destruct (ri_unlocks _ _ Hr _ _ h Hx' Hin) as (y & Hy & Hreq & _). simplify_eq/=.
Qed.
End inv.

Lemma on_unlocks_ref f x : ready_ref (on_unlocks f x) = ready_ref x. Proof. done. Qed.
Lemma on_unlocks_tx f x : ready_tx_of (on_unlocks f x) = ready_tx_of x. Proof. done. Qed.
Lemma on_unlocks_settled f x : settled (on_unlocks f x) ↔ settled x. Proof. done. Qed.

(** *** Taking a transaction out *)
Definition cut (provided : gmap TxMarker TxHash) (h : TxHash) (x : ReadyTransaction) (r : ReadyTransactions) : ReadyTransactions :=
  mkReadyTransactions (id r) provided (on_unlocks (remove_hash h) <$> delete h (ready_tx r))
    (btree_remove (ready_ref x) (independent_transactions r)).

Lemma cut_lookup P h x r k y : ready_tx (cut P h x r) !! k = Some y ↔
  k ≠ h ∧ ∃ y0, ready_tx r !! k = Some y0 ∧ y = on_unlocks (remove_hash h) y0.
Proof.
  cbn. rewrite lookup_fmap, fmap_Some. split.
  - intros (y0 & Hy & ->). apply lookup_delete_Some in Hy as [? ?]. naive_solver.
  - intros (? & y0 & ? & ->). exists y0. by rewrite lookup_delete_ne by done.
Qed.

Lemma cut_inv X h x m r :
  ReadyInv (h :: X) r → ready_tx r !! h = Some x → provides (ready_tx_of x) = [m] →
  ReadyInv (unlocks x ++ X) (cut (delete m (provided_markers r)) h x r).
Proof.
  intros Hr Hx Hm. split.
  - intros k y (? & y0 & Hy & ->)%cut_lookup. rewrite on_unlocks_tx. by apply (ri_ok _ _ Hr).
  - intros k y (? & y0 & Hy & ->)%cut_lookup. apply (ri_id _ _ Hr _ _ Hy).
  - intros k k' y y' (? & y0 & Hy & ->)%cut_lookup (? & y0' & Hy' & ->)%cut_lookup. apply (ri_ids _ _ Hr _ _ _ _ Hy Hy').
  - intros m' k. cbn [cut provided_markers]. rewrite lookup_delete_Some, (ri_provided _ _ Hr). split.
    + intros (Hne & y & Hy & Hp). exists (on_unlocks (remove_hash h) y). rewrite cut_lookup, on_unlocks_tx.
      split_and!; [intros ->; rewrite Hx in Hy; simplify_eq; congruence|eauto|done].
    + intros (y & (Hne & y0 & Hy & ->)%cut_lookup & Hp). rewrite on_unlocks_tx in Hp.
      split; [intros <-; apply Hne; by eapply provider_unique|eauto].
  - intros k y k' (Hne & y0 & Hy & ->)%cut_lookup Hin. cbn in Hin.
    apply remove_hash_elem in Hin as [Hin Hne']; [|by eapply (ri_nodup _ _ Hr)].
    destruct (ri_unlocks _ _ Hr _ _ _ Hy Hin) as (z & Hz & ? & ?).
    exists (on_unlocks (remove_hash h) z). rewrite cut_lookup. split_and!; eauto.
  - intros k y (Hne & y0 & Hy & ->)%cut_lookup. cbn. apply remove_hash_nodup. by eapply (ri_nodup _ _ Hr).
  - intros k y (Hne & y0 & Hy & ->)%cut_lookup HX Hs.
    destruct (ri_linked _ _ Hr k y0 Hy) as (h' & x' & Hx' & Hin); [set_solver|done|].
    exists h', (on_unlocks (remove_hash h) x'). rewrite cut_lookup. split.
    + split; [intros ->; simplify_eq; set_solver|eauto].
    + cbn. rewrite remove_hash_elem by (by eapply (ri_nodup _ _ Hr)). done.
  - intros ref. cbn [cut independent_transactions].
    rewrite btree_remove_elem by (apply (ri_sorted _ _ Hr) || by eapply refs_by_id).
    rewrite (ri_independent _ _ Hr). split.
    + intros ((k & y & Hy & Hs & <-) & Hne). exists k, (on_unlocks (remove_hash h) y).
      rewrite cut_lookup. split_and!; [intros ->; congruence|eauto|done|done].
    + intros (k & y & (Hne & y0 & Hy & ->)%cut_lookup & Hs & <-). split; [eauto 6|].
      intros He. apply Hne. eapply (ri_ids _ _ Hr); [done..|]. by rewrite <- He.
  - apply btree_remove_sorted, (ri_sorted _ _ Hr).
Qed.

(** The shared part of [remove_ready] and [prune_ready]. *)
Lemma unlink_cut X h x m r P I :
  ReadyInv X r → ready_tx r !! h = Some x → provides (ready_tx_of x) = [m] → tx_ok (ready_tx_of x) →
  (∀ m', m' ≠ m → P !! m' = provided_markers r !! m') →
  ready_tx (fold_left (unlink h) (requires (ready_tx_of x))
    (mkReadyTransactions (id r) P (delete h (ready_tx r)) I))
  = on_unlocks (remove_hash h) <$> delete h (ready_tx r).
Proof.
  intros Hr Hx Hm (m0 & Hm0 & Hreq) HP. simplify_eq/=. rewrite Hm in Hm0. simplify_eq.
  apply map_eq. intros k. rewrite lookup_fmap.
  assert (Hid : ∀ y, delete h (ready_tx r) !! k = Some y → requires (ready_tx_of x) ≠ provides (ready_tx_of y) →
    Some y = Some (on_unlocks (remove_hash h) y)).
  { intros y [_ Hy]%lookup_delete_Some Hne. by rewrite (unlink_rest Hr h x k y Hx Hy Hne). }
  destruct Hreq as [Hreq|(m' & Hreq & Hrank)]; rewrite Hreq in *; cbn.
  - destruct (delete h (ready_tx r) !! k) as [y|] eqn:Ey; cbn; [|done]. apply Hid; [done|].
    apply lookup_delete_Some in Ey as [_ Ey]. destruct (ri_ok _ _ Hr _ _ Ey) as (_ & ? & -> & _). done.
  - unfold unlink. cbn. rewrite HP by (intros ->; lia).
    destruct (provided_markers r !! m') as [o|] eqn:Eo; cbn.
    + destruct (decide (o = k)) as [->|Hok]; [by rewrite lookup_alter_eq|rewrite lookup_alter_ne by done].
      destruct (delete h (ready_tx r) !! k) as [y|] eqn:Ey; [|done]. cbn. apply Hid; [done|]. intros Heq.
      apply lookup_delete_Some in Ey as [_ Ey]. assert (provided_markers r !! m' = Some k) by (apply (ri_provided _ _ Hr); eauto).
      congruence.
    + destruct (delete h (ready_tx r) !! k) as [y|] eqn:Ey; [|done]. cbn. apply Hid; [done|]. intros Heq.
      apply lookup_delete_Some in Ey as [_ Ey]. assert (provided_markers r !! m' = Some k) by (apply (ri_provided _ _ Hr); eauto).
      congruence.
Qed.

Lemma unlink_fields h l r :
  let r' := fold_left (unlink h) l r in
  r' = mkReadyTransactions (id r) (provided_markers r) (ready_tx r') (independent_transactions r).
Proof.
  cbn. revert r. induction l as [|m l IH]; intros r; cbn; [by destruct r|]. rewrite IH. cbn.
  unfold unlink. by destruct (provided_markers r !! m).
Qed.

Lemma remove_ready_cut X h x m r f :
  ReadyInv X r → ready_tx r !! h = Some x → provides (ready_tx_of x) = [m] →
  remove_ready f h x r =
    cut (match f with Some f => if decide (m ∈ f) then provided_markers r else delete m (provided_markers r)
                    | None => delete m (provided_markers r) end) h x r.
Proof.
  intros Hr Hx Hm. unfold remove_ready. destruct (ri_ok _ _ Hr _ _ Hx) as [_ Hok].
  set (P := match f with Some f => _ | None => _ end).
  assert (HP : fold_left (λ p m, delete m p) (invalidated f (ready_tx_of x)) (provided_markers r) = P).
  { unfold invalidated, P. rewrite Hm. destruct f as [f|]; [|done].
    rewrite filter_cons, filter_nil. destruct (decide (m ∈ f)); [by rewrite decide_False by naive_solver|by rewrite decide_True]. }
  unfold on_provided, on_ready. cbn [id provided_markers ready_tx independent_transactions]. rewrite HP.
  rewrite unlink_fields. cbn [id provided_markers ready_tx independent_transactions].
  rewrite (unlink_cut X h x m r P _ Hr Hx Hm Hok); [done|]. intros m' Hne. unfold P.
  destruct f as [f|]; [destruct (decide (m ∈ f)); [done|]|]; by rewrite lookup_delete_ne.
Qed.

(** *** A requirement that is met *)
Definition set_settled (x : ReadyTransaction) : ReadyTransaction := mkReady (ready_ref x) (unlocks x) (requires_offset x + 1).

Lemma satisfy_inv k X r y :
  ReadyInv (k :: X) r → ready_tx r !! k = Some y → requires_offset y = 0 → length (requires (ready_tx_of y)) = 1%nat →
  (∀ h x, ready_tx r !! h = Some x → k ∉ unlocks x) →
  satisfy r k = mkReadyTransactions (id r) (provided_markers r) (<[k:=set_settled y]> (ready_tx r))
    (btree_insert (ready_ref y) (independent_transactions r)) ∧
  ReadyInv X (satisfy r k).
Proof.
  intros Hr Hy Ho Hlen Hno. unfold satisfy. rewrite Hy.
  change (mkReady (ready_ref y) (unlocks y) (requires_offset y + 1)) with (set_settled y).
  change (requires_offset (set_settled y)) with (requires_offset y + 1).
  change (requires (ready_tx_of (set_settled y))) with (requires (ready_tx_of y)). rewrite Hlen, Ho. cbn [Z.of_nat].
  rewrite Z.eqb_refl. split; [done|]. unfold on_independent, on_ready. cbn.
  assert (Hset : settled (set_settled y)) by (unfold settled; cbn; unfold ready_tx_of in *; cbn; lia).
  assert (Hns : ¬ settled y) by (unfold settled; lia).
  assert (Hlook : ∀ h x, <[k:=set_settled y]> (ready_tx r) !! h = Some x →
    ∃ x0, ready_tx r !! h = Some x0 ∧ ready_ref x = ready_ref x0 ∧ unlocks x = unlocks x0 ∧
      (h = k ∧ settled x ∨ h ≠ k ∧ x = x0)).
  { intros h x [[<- <-]|[? ?]]%lookup_insert_Some; [exists y|exists x]; naive_solver. }
  assert (Hins : ∀ h x0, ready_tx r !! h = Some x0 → ∃ x, <[k:=set_settled y]> (ready_tx r) !! h = Some x ∧
      ready_ref x = ready_ref x0 ∧ unlocks x = unlocks x0 ∧ (h ≠ k → x = x0)).
  { intros h x0 Hx0. destruct (decide (h = k)) as [->|]; [rewrite lookup_insert_eq|rewrite lookup_insert_ne by done];
      simplify_eq; [exists (set_settled y)|exists x0]; naive_solver. }
  assert (Hby : by_id (independent_transactions r) (ready_ref y)) by (by eapply refs_by_id).
  split; cbn [id provided_markers ready_tx independent_transactions].
  - intros h x (x0 & Hx0 & He & _)%Hlook. unfold ready_tx_of. rewrite He. by apply (ri_ok _ _ Hr).
  - intros h x (x0 & Hx0 & -> & _)%Hlook. by apply (ri_id _ _ Hr h).
  - intros h h' x x' (x0 & Hx0 & -> & _)%Hlook (x0' & Hx0' & -> & _)%Hlook. by apply (ri_ids _ _ Hr).
  - intros m h. rewrite (ri_provided _ _ Hr). unfold ready_tx_of. split.
    + intros (x0 & (x & Hx & He & _)%Hins & Hm). exists x. by rewrite He.
    + intros (x & (x0 & Hx0 & He & _)%Hlook & Hm). exists x0. by rewrite <- He.
  - intros h x k' (x0 & Hx0 & He & Hu & _)%Hlook Hin. rewrite Hu in Hin.
    destruct (ri_unlocks _ _ Hr _ _ _ Hx0 Hin) as (z & Hz & Hreq & Hoz).
    destruct (Hins _ _ Hz) as (z' & Hz' & He' & _ & Hne). exists z'. unfold ready_tx_of in *. rewrite He', He.
    split_and!; [done|done|]. rewrite Hne; [done|]. intros ->. exact (Hno _ _ Hx0 Hin).
  - intros h x (x0 & Hx0 & _ & -> & _)%Hlook. by eapply (ri_nodup _ _ Hr).
  - intros h x (x0 & Hx0 & He & Hu & [[-> ?]|[Hne ->]])%Hlook HX Hs; [done|].
    destruct (ri_linked _ _ Hr h x0 Hx0) as (h' & x' & Hx' & Hin); [set_solver|done|].
    destruct (Hins _ _ Hx') as (x'' & ? & _ & Hu' & _). exists h', x''. by rewrite Hu'.
  - intros ref. rewrite btree_insert_elem by done. rewrite (ri_independent _ _ Hr). split.
    + intros [->|(h & x & Hx & Hs & <-)]; [exists k, (set_settled y); by rewrite lookup_insert_eq|].
      exists h, x. rewrite lookup_insert_ne; [done|]. intros ->. by simplify_eq.
    + intros (h & x & (x0 & Hx0 & He & _ & [[-> Hs']|[Hne ->]])%Hlook & Hs & <-); [left; congruence|right; eauto].
  - apply btree_insert_sorted; [apply (ri_sorted _ _ Hr)|done].
Qed.

(** A transaction that waits for its provider. *)
Definition waits (r : ReadyTransactions) (k : TxHash) : Prop :=
  ∃ y, ready_tx r !! k = Some y ∧ requires_offset y = 0 ∧ length (requires (ready_tx_of y)) = 1%nat ∧
    ∀ h x, ready_tx r !! h = Some x → k ∉ unlocks x.

(** The entries of [r'] are those of [r], with perhaps fewer dependents and more of their requirements met. *)
Definition shrinks (r r' : ReadyTransactions) : Prop :=
  id r' = id r ∧ ∀ h x', ready_tx r' !! h = Some x' → ∃ x, ready_tx r !! h = Some x ∧
    ready_ref x' = ready_ref x ∧ requires_offset x ≤ requires_offset x'.
Global Instance shrinks_preorder : PreOrder shrinks.
Proof.
  split; [intros r; split; [done|]; eauto with lia|]. intros r1 r2 r3 [E1 H1] [E2 H2]. split; [congruence|].
  intros h x (y & Hy & ? & ?)%H2. apply H1 in Hy as (z & ? & ? & ?). exists z. split_and!; [done|congruence|lia].
Qed.
Lemma shrinks_gone r r' h : shrinks r r' → ready_tx r !! h = None → ready_tx r' !! h = None.
Proof. intros [_ H] Hn. destruct (ready_tx r' !! h) eqn:E; [|done]. apply H in E as (? & ? & _). congruence. Qed.
Lemma shrinks_provided X Y r r' m : ReadyInv X r → ReadyInv Y r' → shrinks r r' →
  provided_markers r !! m = None → provided_markers r' !! m = None.
Proof.
  intros Hr Hr' [_ Hs] Hn. destruct (provided_markers r' !! m) as [h|] eqn:E; [|done].
  apply (ri_provided _ _ Hr') in E as (x' & (x & Hx & He & _)%Hs & Hm).
  assert (provided_markers r !! m = Some h); [|congruence]. apply (ri_provided _ _ Hr). exists x. split; [done|].
  unfold ready_tx_of in *. congruence.
Qed.
(** As [shrinks], with the requirements met as before. *)
Definition trims (r r' : ReadyTransactions) : Prop :=
  id r' = id r ∧ ∀ h x', ready_tx r' !! h = Some x' → ∃ x, ready_tx r !! h = Some x ∧
    ready_ref x' = ready_ref x ∧ requires_offset x' = requires_offset x.
Global Instance trims_preorder : PreOrder trims.
Proof.
  split; [intros r; split; [done|]; eauto|]. intros r1 r2 r3 [E1 H1] [E2 H2]. split; [congruence|].
  intros h x (y & Hy & ? & ?)%H2. apply H1 in Hy as (z & ? & ? & ?). exists z. split_and!; [done|congruence|congruence].
Qed.
Lemma trims_shrinks r r' : trims r r' → shrinks r r'.
Proof. intros [? H]. split; [done|]. intros h x' (x & ? & ? & ?)%H. exists x. split_and!; [done..|lia]. Qed.
Lemma cut_trims P h x r : trims r (cut P h x r).
Proof. split; [done|]. intros k y (_ & y0 & Hy & ->)%cut_lookup. exists y0. done. Qed.
Lemma cut_shrinks P h x r : shrinks r (cut P h x r).
Proof. apply trims_shrinks, cut_trims. Qed.

(** The entries of [r'] are those of [r]; those of [l] have become settled. *)
Definition settles (l : list TxHash) (r r' : ReadyTransactions) : Prop :=
  ∀ k y', ready_tx r' !! k = Some y' → ∃ y, ready_tx r !! k = Some y ∧ ready_ref y' = ready_ref y ∧ (settled y' ↔ settled y ∨ k ∈ l).

Lemma settles_cons k l r r1 r' : settles [k] r r1 → settles l r1 r' → settles (k :: l) r r'.
Proof.
  intros H1 H2 h x' (x1 & (x & Hx & He & Hs)%H1 & He' & Hs')%H2. exists x. split_and!; [done|congruence|].
  rewrite Hs', Hs. set_solver.
Qed.

Lemma satisfy_fold l X r :
  NoDup l → Forall (waits r) l → ReadyInv (l ++ X) r →
  let r' := fold_left satisfy l r in
  ReadyInv X r' ∧ shrinks r r' ∧ provided_markers r' = provided_markers r ∧ dom (ready_tx r') = dom (ready_tx r) ∧ settles l r r'.
Proof.
  cbn. revert r. induction l as [|k l IH]; intros r Hnd Hw Hr; cbn.
  { split_and!; [done|reflexivity|done|done|]. intros k y Hy. exists y. set_solver. }
  apply NoDup_cons in Hnd as [Hk Hnd]. apply Forall_cons in Hw as [(y & Hy & Ho & Hlen & Hno) Hw].
  destruct (satisfy_inv k (l ++ X) r y Hr Hy Ho Hlen Hno) as [Heq Hr']. rewrite Heq in Hr' |- *.
  set (r1 := mkReadyTransactions _ _ _ _) in *.
  assert (Hw1 : Forall (waits r1) l).
  { apply Forall_forall. intros k' Hk'. eapply Forall_forall in Hw as (y' & Hy' & Ho' & Hlen' & Hno'); [|done].
    exists y'. cbn. rewrite lookup_insert_ne by (intros ->; done). split_and!; [done..|].
    intros h x [[<- <-]|[_ Hx]]%lookup_insert_Some; [exact (Hno' k y Hy)|by eapply Hno']. }
  destruct (IH r1 Hnd Hw1 Hr') as (? & Hs & Hp & Hd & Hset). split_and!; [done| |done| |].
  - etransitivity; [|exact Hs]. split; [done|]. cbn. intros h x [[<- <-]|[_ Hx]]%lookup_insert_Some; [|eauto with lia].
    exists y. split_and!; [done..|]. cbn. lia.
  - rewrite Hd. cbn. rewrite dom_insert_L. apply elem_of_dom_2 in Hy. set_solver.
  - eapply settles_cons; [|exact Hset]. subst r1. intros h x. cbn. intros [[<- <-]|[Hne Hx]]%lookup_insert_Some; [exists y|exists x; set_solver].
    split_and!; [done|done|]. split; [set_solver|]. intros _. unfold settled, ready_tx_of in *. cbn. lia.
Qed.

(** ** Removal *)
Lemma remove_loop_nil fuel f acc r : remove_loop fuel f [] acc r = (Ok acc, r).
Proof. by destruct fuel. Qed.
Lemma remove_loop_cons fuel f h hs acc r :
  remove_loop fuel f (h :: hs) acc r =
  match ready_tx r !! h with
  | None => remove_loop fuel f hs acc r
  | Some tx =>
      match fuel with
      | O => (Err NoFuel, r)
      | S fuel => remove_loop fuel f
          (if negb (bool_decide (invalidated f (ready_tx_of tx) = [])) then rev (unlocks tx) ++ hs else hs)
          (acc ++ [ready_tx_of tx]) (remove_ready f h tx r)
      end
  end.
Proof. destruct fuel; cbn [remove_loop]; unfold mbind, PM_bind, pgets; cbn; by destruct (ready_tx r !! h). Qed.

(** [t] was taken out between [r] and [r']. *)
Definition gone (r r' : ReadyTransactions) (t : PoolTransaction) : Prop :=
  ∃ h x, ready_tx r !! h = Some x ∧ ready_tx_of x = t ∧ ready_tx r' !! h = None.

Lemma gone_split X r1 r2 r3 t : ReadyInv X r1 → shrinks r1 r2 → shrinks r2 r3 → gone r1 r3 t ↔ gone r1 r2 t ∨ gone r2 r3 t.
Proof.
  intros Hr [_ H12] Hs. unfold gone. split.
  - intros (h & x & Hx & Ht & Hn). destruct (ready_tx r2 !! h) as [x2|] eqn:E; [|left; eauto]. right. exists h, x2.
    destruct (H12 _ _ E) as (x' & Hx' & He & _). simplify_eq. split_and!; [done| |done]. unfold ready_tx_of. by rewrite He.
  - intros [(h & x & ? & ? & Hn)|(h & x & Hx & Ht & Hn)]; [exists h, x; split_and!; [done..|]; by eapply shrinks_gone|].
    apply H12 in Hx as (x' & Hx' & He & _). exists h, x'. split_and!; [done| |done]. unfold ready_tx_of in *. by rewrite <- He.
Qed.
Lemma gone_cut X P h x r t : ReadyInv X r → ready_tx r !! h = Some x → gone r (cut P h x r) t ↔ t = ready_tx_of x.
Proof.
  intros Hr Hx. unfold gone. split.
  - intros (k & y & Hy & <- & Hn). destruct (decide (k = h)) as [->|]; [by simplify_eq|].
    assert (ready_tx (cut P h x r) !! k = Some (on_unlocks (remove_hash h) y)); [|congruence].
    apply cut_lookup. eauto.
  - intros ->. exists h, x. split_and!; [done..|]. destruct (ready_tx (cut P h x r) !! h) eqn:E; [|done].
    by apply cut_lookup in E as [? _].
Qed.
Lemma cut_size P h x r : ready_tx r !! h = Some x → size (ready_tx r) = S (size (ready_tx (cut P h x r))).
Proof.
  intros Hx. cbn. rewrite map_size_fmap, map_size_delete_Some by eauto.
  assert (size (ready_tx r) ≠ 0%nat); [|lia]. intros E%map_size_empty_inv. rewrite E in Hx. done.
Qed.

Lemma remove_loop_ok fuel hs acc r :
  (size (ready_tx r) ≤ fuel)%nat → ReadyInv hs r →
  ∃ out r', remove_loop fuel None hs acc r = (Ok (acc ++ out), r') ∧ ReadyInv [] r' ∧ trims r r' ∧
    (∀ h, h ∈ hs → ready_tx r' !! h = None) ∧ ∀ t, t ∈ out ↔ gone r r' t.
Proof.
  revert hs acc r. induction fuel as [|fuel IH]; intros hs; induction hs as [|h hs IHhs]; intros acc r Hsz Hr;
    rewrite ?remove_loop_nil, ?remove_loop_cons.
  1, 3: exists [], r; rewrite app_nil_r; split_and!; [done..|set_solver|];
    intros t; split; [set_solver|intros (h & x & ? & ? & ?); congruence].
  1: assert (Hn : ready_tx r !! h = None) by (assert (Hz : size (ready_tx r) = 0%nat) by lia;
       apply map_size_empty_inv in Hz; by rewrite Hz, lookup_empty);
     rewrite Hn; destruct (IHhs acc r Hsz) as (out & r' & -> & ? & ? & Hgone & ?);
     [eapply ready_inv_weaken; [|done]; intros k [->|]%elem_of_cons [? ?]; [congruence|done]|];
     exists out, r'; split_and!; [done..| |done]; intros k [->|]%elem_of_cons; [by eapply shrinks_gone; [apply trims_shrinks|]|by apply Hgone].
  destruct (ready_tx r !! h) as [x|] eqn:Hx.
  - destruct (ri_ok _ _ Hr _ _ Hx) as (_ & m & Hm & _).
    rewrite (remove_ready_cut _ _ _ _ _ _ Hr Hx Hm). cbn [invalidated]. rewrite Hm, bool_decide_eq_false_2 by done. cbn [negb].
    set (r1 := cut _ h x r). pose proof (cut_size (delete m (provided_markers r)) h x r Hx) as Hsz'.
    destruct (IH (rev (unlocks x) ++ hs) (acc ++ [ready_tx_of x]) r1) as (out & r' & -> & ? & Hs & Hgone & Hout); [subst r1; lia| |].
    { eapply ready_inv_weaken; [|by apply cut_inv]. intros k. rewrite !elem_of_app, elem_of_rev. done. }
    exists (ready_tx_of x :: out), r'. rewrite <- app_assoc. cbn [app].
    pose proof (cut_trims (delete m (provided_markers r)) h x r) as Hs1.
    split_and!; [done|done|by etransitivity| |].
    + intros k [->|]%elem_of_cons; [|apply Hgone; set_solver]. eapply shrinks_gone; [by apply trims_shrinks|].
      destruct (ready_tx r1 !! h) eqn:E; [|done]. by apply cut_lookup in E as [? _].
    + intros t. rewrite elem_of_cons, Hout, (gone_split _ r r1 r') by (done || by apply trims_shrinks). subst r1. by rewrite (gone_cut _ _ h x) by done.
  - destruct (IHhs acc r Hsz) as (out & r' & -> & ? & ? & Hgone & ?).
    { eapply ready_inv_weaken; [|done]. intros k [->|]%elem_of_cons [? ?]; [congruence|done]. }
    exists out, r'. split_and!; [done..| |done]. intros k [->|]%elem_of_cons; [by eapply shrinks_gone; [apply trims_shrinks|]|by apply Hgone].
Qed.

Lemma remove_with_markers_ok hs r : ReadyInv [] r →
  ∃ out r', remove_with_markers hs None r = (Ok out, r') ∧ ReadyInv [] r' ∧ trims r r' ∧
    (∀ h, h ∈ hs → ready_tx r' !! h = None) ∧ ∀ t, t ∈ out ↔ gone r r' t.
Proof.
  intros Hr. unfold remove_with_markers.
  destruct (remove_loop_ok (size (ready_tx r)) (rev hs) [] r) as (out & r' & E & ? & ? & Hgone & ?); [done| |].
  { eapply ready_inv_weaken; [|done]. set_solver. }
  exists out, r'. split_and!; [done..| |done]. intros h Hh. apply Hgone. by apply elem_of_rev.
Qed.

(** ** Pruning *)

(** The provider of a marker in the tables provides it. *)
Definition faithful (r : ReadyTransactions) : Prop :=
  ∀ m k y, provided_markers r !! m = Some k → ready_tx r !! k = Some y → provides (ready_tx_of y) = [m].
Lemma unlink_faithful h r m : faithful r → faithful (unlink h r m).
Proof.
  intros Hf. unfold unlink. destruct (provided_markers r !! m) as [o|]; [|done].
  intros m' k y Hm. cbn. rewrite lookup_alter. case_decide; [subst o|intros Hy; by eapply Hf].
  intros (y0 & Hy & ->)%fmap_Some. rewrite on_unlocks_tx. by eapply Hf.
Qed.

Lemma previous_markers_ok h l r : ∃ tags, pcollect (previous_markers h) l r = (Ok tags, fold_left (unlink h) l r) ∧
  (Forall (λ m, provided_markers r !! m = None) l → tags = []) ∧ (faithful r → tags ⊆ l).
Proof.
  revert r. induction l as [|m l IH]; intros r; cbn [pcollect fold_left]; [by eexists|].
  unfold mbind, PM_bind, previous_markers at 1, pmodify, pgets. cbn. unfold mbind, PM_bind. cbn.
  destruct (IH (unlink h r m)) as (tags & -> & Hnil & Hsub). eexists. split; [done|].
  assert (Hp : provided_markers (unlink h r m) = provided_markers r) by (unfold unlink; by destruct (provided_markers r !! m)).
  split.
  - rewrite Hp in *. intros [Hm Hl]%Forall_cons. by rewrite Hm, Hnil.
  - intros Hf. pose proof (unlink_faithful h r m Hf) as Hf1. specialize (Hsub Hf1).
    destruct (provided_markers (unlink h r m) !! m) as [k|] eqn:Ek; cbn; [|set_solver].
    destruct (ready_tx (unlink h r m) !! k) as [y|] eqn:Ey; cbn; [|set_solver].
    case_decide; [|set_solver]. rewrite (Hf1 _ _ _ Ek Ey). set_solver.
Qed.

Lemma prune_ready_ok m h x r :
  ReadyInv [] r → ready_tx r !! h = Some x → provides (ready_tx_of x) = [m] →
  ∃ tags r', prune_ready m h x (on_provided (delete m) r) = (Ok tags, r') ∧ ReadyInv [] r' ∧ shrinks r r' ∧
    provided_markers r' !! m = None ∧ size (ready_tx r) = S (size (ready_tx r')) ∧ (∀ t, gone r r' t ↔ t = ready_tx_of x) ∧
    settles (unlocks x) r r' ∧ (Forall (λ m', provided_markers r !! m' = None) (requires (ready_tx_of x)) → tags = []) ∧
    tags ⊆ requires (ready_tx_of x).
Proof.
  intros Hr Hx Hm. destruct (ri_ok _ _ Hr _ _ Hx) as [Hh Hok]. unfold prune_ready.
  unfold mbind, PM_bind, pmodify. cbn. rewrite Hh.
  set (r1 := on_independent _ _). destruct (previous_markers_ok h (requires (ready_tx_of x)) r1) as (tags & -> & Htags & Hsub).
  assert (Hsub' : tags ⊆ requires (ready_tx_of x)).
  { apply Hsub. intros m' k y Hm' Hy. cbn in Hm', Hy. apply lookup_delete_Some in Hm' as [_ Hm'], Hy as [_ Hy].
    apply (ri_provided _ _ Hr) in Hm' as (y' & Hy' & ?). congruence. }
  assert (Htags' : Forall (λ m', provided_markers r !! m' = None) (requires (ready_tx_of x)) → tags = []).
  { intros Hnone. apply Htags. eapply Forall_impl; [exact Hnone|]. intros m' Hm'. cbn. by rewrite lookup_delete_None; right. }
  clear Htags Hsub.
  assert (Hr1 : fold_left (unlink h) (requires (ready_tx_of x)) r1 = cut (delete m (provided_markers r)) h x r).
  { rewrite unlink_fields. subst r1. unfold cut, on_independent, on_ready, on_provided. cbn. f_equal.
    apply (unlink_cut [] h x m r); try done. intros m' Hne. by rewrite lookup_delete_ne. }
  rewrite Hr1. clear r1 Hr1. set (r1 := cut _ h x r).
  assert (Hnd : NoDup (unlocks x)) by (by eapply (ri_nodup _ _ Hr)).
  assert (Hhu : h ∉ unlocks x).
  { intros Hin. destruct (ri_unlocks _ _ Hr _ _ _ Hx Hin) as (y & Hy & Hreq & _). rewrite Hx in Hy. simplify_eq.
    destruct Hok as (m0 & Hm0 & [Hq|(m' & Hq & Hlt)]); rewrite Hq, Hm0 in Hreq; simplify_eq. lia. }
  assert (Hw : Forall (waits r1) (unlocks x)).
  { apply Forall_forall. intros k Hk. destruct (ri_unlocks _ _ Hr _ _ _ Hx Hk) as (y & Hy & Hreq & Ho).
    exists (on_unlocks (remove_hash h) y). split_and!.
    - apply cut_lookup. split; [by intros ->|eauto].
    - done.
    - rewrite on_unlocks_tx, Hreq, Hm. done.
    - intros h' x' (Hne & x0 & Hx0 & ->)%cut_lookup Hin. cbn in Hin.
      apply remove_hash_elem in Hin as [Hin _]; [|by eapply (ri_nodup _ _ Hr)].
      destruct (ri_unlocks _ _ Hr _ _ _ Hx0 Hin) as (y' & Hy' & Hreq' & _). rewrite Hy in Hy'. simplify_eq.
      apply Hne. eapply (provider_unique Hr); [done..| |done]. congruence. }
  pose proof (cut_inv [] h x m r (ready_inv_weaken [] [h] r ltac:(set_solver) Hr) Hx Hm) as Hinv.
  destruct (satisfy_fold (unlocks x) [] r1 Hnd Hw Hinv) as (Hr2 & Hs2 & Hp2 & Hd2 & Hset2). cbv zeta in *.
  set (r2 := fold_left satisfy (unlocks x) r1) in *. rewrite Hm. cbn.
  assert (Hpm : provided_markers r2 !! m = None) by (rewrite Hp2; cbn; apply lookup_delete_eq).
  unfold drop_provided, mbind, PM_bind, pgets, pmodify, passert. cbn. rewrite decide_True by done.
  rewrite Hpm, bool_decide_eq_true_2 by done. cbn.
  assert (Hsame : on_provided (delete m) r2 = r2) by (unfold on_provided; rewrite delete_id by done; by destruct r2).
  rewrite Hsame. exists tags, r2. pose proof (cut_shrinks (delete m (provided_markers r)) h x r) as Hs1.
  split_and!; [done|done|by etransitivity|done| | | |done|done].
  - rewrite (cut_size (delete m (provided_markers r)) h x r Hx). f_equal. fold r1. rewrite <- !size_dom. by rewrite Hd2.
  - intros t. rewrite (gone_split _ r r1 r2) by done. subst r1. rewrite (gone_cut _ _ h x) by done.
    split; [|by left]. intros [->|(k & y & Hy & _ & Hn)]; [done|]. exfalso. apply (not_elem_of_dom_2 _ _ Hn).
    rewrite Hd2. by apply elem_of_dom_2 in Hy.
  - intros k y' (y1 & (_ & y & Hy & ->)%cut_lookup & He & Hs')%Hset2. exists y. done.
Qed.

Lemma prune_loop_nil fuel acc r : prune_loop fuel [] acc r = (Ok acc, r).
Proof. by destruct fuel. Qed.
Lemma prune_loop_cons fuel m ms acc r :
  prune_loop fuel (m :: ms) acc r =
  match (hash ← provided_markers r !! m; tx ← ready_tx r !! hash; Some (hash, tx)) with
  | None => prune_loop fuel ms acc (on_provided (delete m) r)
  | Some (hash, tx) =>
      match fuel with
      | O => (Err NoFuel, on_provided (delete m) r)
      | S fuel => (tags ← prune_ready m hash tx; prune_loop fuel (rev tags ++ ms) (acc ++ [ready_tx_of tx])) (on_provided (delete m) r)
      end
  end.
Proof.
  destruct fuel; cbn [prune_loop]; unfold mbind at 1, PM_bind at 1, pgets at 1; unfold mbind at 1, PM_bind at 1, pmodify at 1;
    by destruct (hash ← provided_markers r !! m; tx ← ready_tx r !! hash; Some (hash, tx)) as [[? ?]|].
Qed.

Lemma prune_loop_ok fuel ms acc r :
  (size (ready_tx r) ≤ fuel)%nat → ReadyInv [] r →
  ∃ out r', prune_loop fuel ms acc r = (Ok (acc ++ out), r') ∧ ReadyInv [] r' ∧ shrinks r r' ∧
    (∀ m, m ∈ ms → provided_markers r' !! m = None) ∧ ∀ t, t ∈ out ↔ gone r r' t.
Proof.
  revert ms acc r. induction fuel as [|fuel IH]; intros ms; induction ms as [|m ms IHms]; intros acc r Hsz Hr;
    rewrite ?prune_loop_nil, ?prune_loop_cons.
  1, 3: exists [], r; rewrite app_nil_r; split_and!; [done..|set_solver|];
    intros t; split; [set_solver|intros (h & x & ? & ? & ?); congruence].
  all: destruct (provided_markers r !! m) as [h|] eqn:Hp; cbn [mbind option_bind].
  2, 4: assert (Hsame : on_provided (delete m) r = r) by (unfold on_provided; rewrite delete_id by done; by destruct r);
    rewrite Hsame; destruct (IHms acc r Hsz Hr) as (out & r' & -> & Hr' & Hs & Hgone & ?);
    exists out, r'; split_and!; [done..| |done]; intros m' [->|]%elem_of_cons; [exact (shrinks_provided _ _ _ _ _ Hr Hr' Hs Hp)|by apply Hgone].
  all: destruct (proj1 (ri_provided _ _ Hr m h) Hp) as (x & Hx & Hm); rewrite Hx; cbn [mbind option_bind].
  { assert (Hz : size (ready_tx r) = 0%nat) by lia. apply map_size_empty_inv in Hz. by rewrite Hz, lookup_empty in Hx. }
  destruct (prune_ready_ok m h x r Hr Hx Hm) as (tags & r1 & E & Hr1 & Hs1 & Hp1 & Hsz1 & Hg1 & _).
  unfold mbind, PM_bind. rewrite E.
  destruct (IH (rev tags ++ ms) (acc ++ [ready_tx_of x]) r1) as (out & r' & -> & Hr' & Hs & Hgone & Hout); [lia|done|].
  exists (ready_tx_of x :: out), r'. rewrite <- app_assoc. split_and!; [done|done|by etransitivity| |].
  - intros m' [->|]%elem_of_cons; [exact (shrinks_provided _ _ _ _ _ Hr1 Hr' Hs Hp1)|apply Hgone; set_solver].
  - intros t. rewrite elem_of_cons, Hout, (gone_split _ r r1 r') by done. by rewrite Hg1.
Qed.

(** Pruning apart from some transactions: those that are left are as settled as before. *)
Definition apart (own : PoolTransaction → Prop) (r r' : ReadyTransactions) : Prop :=
  ∀ k y', ready_tx r' !! k = Some y' →
    ∃ y, ready_tx r !! k = Some y ∧ ready_ref y' = ready_ref y ∧ (own (ready_tx_of y) → settled y' ↔ settled y).
Global Instance apart_preorder own : PreOrder (apart own).
Proof.
  split; [intros r k y Hy; by exists y|]. intros r1 r2 r3 H12 H23 k y3 (y2 & Hy2 & E2 & S2)%H23.
  destruct (H12 _ _ Hy2) as (y1 & Hy1 & E1 & S1). exists y1. split_and!; [done|congruence|].
  intros Ho. rewrite S2 by (unfold ready_tx_of in *; by rewrite E1). by apply S1.
Qed.
(** The markers of [F] lead to such markers only, and are not required by the transactions of [own]. *)
Definition foreign (F : TxMarker → Prop) (own : PoolTransaction → Prop) (t : PoolTransaction) : Prop :=
  (∀ m, provides t = [m] → F m → Forall F (requires t)) ∧ (∀ m, requires t = [m] → F m → ¬ own t).

Lemma prune_loop_apart F own fuel ms acc r out r' :
  (size (ready_tx r) ≤ fuel)%nat → ReadyInv [] r → (∀ h x, ready_tx r !! h = Some x → foreign F own (ready_tx_of x)) →
  Forall F ms → prune_loop fuel ms acc r = (Ok out, r') → apart own r r'.
Proof.
  revert ms acc r. induction fuel as [|fuel IH]; intros ms; induction ms as [|m ms IHms]; intros acc r Hsz Hr HF Hms;
    rewrite ?prune_loop_nil, ?prune_loop_cons; try by intros [= <- <-].
  all: apply Forall_cons in Hms as [Hm Hms]; destruct (provided_markers r !! m) as [h|] eqn:Hp; cbn [mbind option_bind].
  2, 4: assert (Hsame : on_provided (delete m) r = r) by (unfold on_provided; rewrite delete_id by done; by destruct r);
    rewrite Hsame; by apply IHms.
  all: destruct (proj1 (ri_provided _ _ Hr m h) Hp) as (x & Hx & Hmx); rewrite Hx; cbn [mbind option_bind].
  { done. }
  destruct (prune_ready_ok m h x r Hr Hx Hmx) as (tags & r1 & E & Hr1 & [Hs1 Hs2] & _ & Hsz1 & _ & Hset & _ & Htags).
  unfold mbind, PM_bind. rewrite E. intros Hrun. etrans; [|eapply IH in Hrun; [exact Hrun|lia|done|..]].
  - intros k y' Hy'. destruct (Hset _ _ Hy') as (y & Hy & He & Hse). exists y. split_and!; [done..|].
    intros Ho. rewrite Hse. split; [intros [?|Hin]; [done|]|by left].
    destruct (ri_unlocks _ _ Hr _ _ _ Hx Hin) as (y2 & Hy2 & Hq & _). simplify_eq.
    destruct (HF _ _ Hy) as [_ Hno]. by destruct (Hno m); [congruence|..].
  - intros k y' (y & Hy & He & _)%Hs2. unfold ready_tx_of. rewrite He. by eapply HF.
  - apply Forall_app. split; [|done]. apply Forall_forall. intros m' Hin%elem_of_rev%Htags.
    destruct (HF _ _ Hx) as [Hq _]. specialize (Hq m Hmx Hm). by eapply Forall_forall in Hq.
Qed.

Lemma prune_tags_ok m r : ReadyInv [] r →
  ∃ out r', prune_tags m r = (Ok out, r') ∧ ReadyInv [] r' ∧ shrinks r r' ∧ provided_markers r' !! m = None ∧
    ∀ t, t ∈ out ↔ gone r r' t.
Proof.
  intros Hr. destruct (prune_loop_ok (size (ready_tx r)) [m] [] r) as (out & r' & ? & ? & ? & Hgone & ?); [done..|].
  exists out, r'. split_and!; [done..| |done]. apply Hgone. set_solver.
Qed.

(** The provider of [m] alone, when what it requires is not in the pool. *)
Lemma prune_tags_settled m h x r :
  ReadyInv [] r → ready_tx r !! h = Some x → provides (ready_tx_of x) = [m] →
  Forall (λ m', provided_markers r !! m' = None) (requires (ready_tx_of x)) →
  ∃ r', prune_tags m r = (Ok [ready_tx_of x], r') ∧ ReadyInv [] r' ∧ shrinks r r' ∧ settles (unlocks x) r r' ∧ ready_tx r' !! h = None.
Proof.
  intros Hr Hx Hm Hreq. destruct (prune_ready_ok m h x r Hr Hx Hm) as (tags & r' & E & Hr' & Hs & _ & _ & Hg & Hset & Htags & _).
  rewrite Htags in E by done. exists r'. split_and!; [|done..|].
  - unfold prune_tags. rewrite prune_loop_cons.
    assert (Hp : provided_markers r !! m = Some h) by (apply (ri_provided _ _ Hr); eauto). rewrite Hp. cbn [mbind option_bind]. rewrite Hx.
    cbn [mbind option_bind]. destruct (size (ready_tx r)) as [|n] eqn:Ez.
    { apply map_size_empty_inv in Ez. by rewrite Ez, lookup_empty in Hx. }
    rewrite (pbind_ok _ _ _ _ _ E). cbn. apply prune_loop_nil.
  - destruct (proj2 (Hg (ready_tx_of x)) eq_refl) as (k & y & Hy & Hty & Hn).
    destruct (ri_ok _ _ Hr _ _ Hx) as [Hh _]. destruct (ri_ok _ _ Hr _ _ Hy) as [Hk _]. congruence.
Qed.
Lemma prune_tags_none m r : provided_markers r !! m = None → prune_tags m r = (Ok [], r).
Proof.
  intros Hm. unfold prune_tags. rewrite prune_loop_cons, Hm. cbn [mbind option_bind]. rewrite prune_loop_nil.
  f_equal. unfold on_provided. rewrite delete_id by done. by destruct r.
Qed.

(** ** Addition *)

(** The ready transaction that provides what [t] requires. *)
Definition linked (t : PoolTransaction) (r : ReadyTransactions) : option TxHash := head (requires t) ≫= (provided_markers r !!.).
Definition new_entry (t : PoolTransaction) (U : list TxHash) (r : ReadyTransactions) : ReadyTransaction :=
  mkReady (mkRef t (id r)) U (Z.of_nat (length (requires t)) - from_option (λ _, 1) 0 (linked t r)).
Definition place (t : PoolTransaction) (m : TxMarker) (U : list TxHash) (r : ReadyTransactions) : ReadyTransactions :=
  mkReadyTransactions (id r + 1) (<[m:=tx_hash t]> (provided_markers r))
    (<[tx_hash t:=new_entry t U r]>
      (from_option (λ o, alter (on_unlocks (λ u, u ++ [tx_hash t])) o (ready_tx r)) (ready_tx r) (linked t r)))
    (from_option (λ _, independent_transactions r) (btree_insert (mkRef t (id r)) (independent_transactions r)) (linked t r)).

Definition grow (t : PoolTransaction) (r : ReadyTransactions) (k : TxHash) (y : ReadyTransaction) : ReadyTransaction :=
  if decide (linked t r = Some k) then on_unlocks (λ u, u ++ [tx_hash t]) y else y.
Lemma grow_fields t r k y : ready_ref (grow t r k y) = ready_ref y ∧ requires_offset (grow t r k y) = requires_offset y.
Proof. unfold grow. by destruct (decide _). Qed.
Lemma grow_unlocks t r k y k' : k' ∈ unlocks (grow t r k y) ↔ k' ∈ unlocks y ∨ linked t r = Some k ∧ k' = tx_hash t.
Proof. unfold grow. destruct (decide _); cbn; set_solver. Qed.
Lemma grow_tx t r k y : ready_tx_of (grow t r k y) = ready_tx_of y.
Proof. unfold ready_tx_of. by rewrite (proj1 (grow_fields t r k y)). Qed.
Lemma grow_settled t r k y : settled (grow t r k y) ↔ settled y.
Proof. unfold settled. by rewrite grow_tx, (proj2 (grow_fields t r k y)). Qed.

Lemma place_lookup t m U r k y : ready_tx (place t m U r) !! k = Some y ↔
  k = tx_hash t ∧ y = new_entry t U r ∨ k ≠ tx_hash t ∧ ∃ y0, ready_tx r !! k = Some y0 ∧ y = grow t r k y0.
Proof.
  cbn. rewrite lookup_insert_Some. unfold grow. destruct (linked t r) as [o|] eqn:El; cbn.
  - rewrite lookup_alter_Some. case_decide; naive_solver.
  - case_decide; naive_solver.
Qed.

Lemma new_settled t U r : settled (new_entry t U r) ↔ linked t r = None.
Proof. unfold settled, new_entry. cbn. destruct (linked t r); cbn; split; intros; try done; lia. Qed.

Lemma place_inv t m U r :
  ReadyInv U r → tx_ok t → provides t = [m] → provided_markers r !! m = None → ready_tx r !! tx_hash t = None →
  0 ≤ id r → NoDup U →
  (∀ k, k ∈ U → ∃ y, ready_tx r !! k = Some y ∧ requires (ready_tx_of y) = [m] ∧ requires_offset y = 0) →
  ReadyInv [] (place t m U r).
Proof.
  intros Hr Hok Hm Hp Hh Hid Hnd HU.
  assert (Hnew : ∀ h x, ready_tx r !! h = Some x → tx_hash t ∉ unlocks x).
  { intros h x Hx Hin. destruct (ri_unlocks _ _ Hr _ _ _ Hx Hin) as (y & Hy & _). congruence. }
  assert (Hby : by_id (independent_transactions r) (mkRef t (id r))).
  { intros ref Hin He. apply (ri_independent _ _ Hr) in Hin as (h & x & Hx & _ & <-).
    pose proof (ri_id _ _ Hr _ _ Hx). cbn in He. lia. }
  assert (Hlink : ∀ o, linked t r = Some o → ∃ m' x, requires t = [m'] ∧ ready_tx r !! o = Some x ∧ provides (ready_tx_of x) = [m']).
  { intros o Hl. unfold linked in Hl. destruct Hok as (m0 & _ & [Hq|(m' & Hq & _)]); rewrite Hq in Hl |- *; [done|]. cbn in Hl.
    apply (ri_provided _ _ Hr) in Hl as (x & ? & ?). eauto. }
  pose proof (new_settled t U r) as Hgs.
  split.
  - intros k y [[-> ->]|(Hne & y0 & Hy & ->)]%place_lookup; [done|]. rewrite grow_tx. by apply (ri_ok _ _ Hr).
  - intros k y [[-> ->]|(Hne & y0 & Hy & ->)]%place_lookup; cbn; [lia|]. rewrite (proj1 (grow_fields t r k y0)).
    pose proof (ri_id _ _ Hr _ _ Hy). lia.
  - intros k k' y y' [[-> ->]|(Hne & y0 & Hy & ->)]%place_lookup [[-> ->]|(Hne' & y0' & Hy' & ->)]%place_lookup;
      rewrite ?(proj1 (grow_fields t r _ _)); cbn; [done|..].
    + pose proof (ri_id _ _ Hr _ _ Hy'). lia.
    + pose proof (ri_id _ _ Hr _ _ Hy). lia.
    + apply (ri_ids _ _ Hr _ _ _ _ Hy Hy').
  - intros m' h. cbn [place provided_markers]. rewrite lookup_insert_Some. split.
    + intros [[<- <-]|[Hne Hp']]; [exists (new_entry t U r); rewrite place_lookup; auto|].
      apply (ri_provided _ _ Hr) in Hp' as (x & Hx & Hpx). exists (grow t r h x). rewrite place_lookup, grow_tx.
      split; [|done]. right. split; [congruence|eauto].
    + intros (y & [[-> ->]|(Hne & y0 & Hy & ->)]%place_lookup & Hpy); [left; cbn in Hpy; split; congruence|].
      rewrite grow_tx in Hpy. right. assert (Hm' : provided_markers r !! m' = Some h) by (apply (ri_provided _ _ Hr); eauto).
      split; [congruence|done].
  - intros h x k [[-> ->]|(Hne & x0 & Hx & ->)]%place_lookup Hin.
    + cbn in Hin. destruct (HU _ Hin) as (y & Hy & Hreq & Ho). exists (grow t r k y). rewrite place_lookup, grow_tx.
      rewrite (proj2 (grow_fields t r k y)). split_and!; [right; split; [congruence|eauto]|cbn; congruence|done].
    + apply grow_unlocks in Hin as [Hin|[Hl ->]]; rewrite grow_tx.
      * destruct (ri_unlocks _ _ Hr _ _ _ Hx Hin) as (y & Hy & Hreq & Ho). exists (grow t r k y).
        rewrite place_lookup, grow_tx, (proj2 (grow_fields t r k y)). split_and!; [right; split; [congruence|eauto]|done|done].
      * exists (new_entry t U r). rewrite place_lookup. destruct (Hlink _ Hl) as (m' & x & Hreq & Hx' & Hpx). simplify_eq.
        split_and!; [by left|cbn; congruence|]. cbn. rewrite Hl, Hreq. done.
  - intros h x [[-> ->]|(Hne & x0 & Hx & ->)]%place_lookup; [done|]. unfold grow.
    pose proof (ri_nodup _ _ Hr _ _ Hx). destruct (decide _); [|done]. cbn. apply NoDup_app. split_and!; [done| |apply NoDup_singleton].
    intros k Hk. pose proof (Hnew _ _ Hx). set_solver.
  - intros k y [[-> ->]|(Hne & y0 & Hy & ->)]%place_lookup _ Hs.
    + destruct (linked t r) as [o|] eqn:El; [|by destruct Hs; apply Hgs]. destruct (Hlink _ eq_refl) as (m' & x & _ & Hx & _).
      exists o, (grow t r o x). rewrite place_lookup, grow_unlocks. split; [right; split; [congruence|eauto]|auto].
    + rewrite grow_settled in Hs. destruct (decide (k ∈ U)) as [Hin|Hn].
      * exists (tx_hash t), (new_entry t U r). rewrite place_lookup. auto.
      * destruct (ri_linked _ _ Hr k y0 Hy Hn Hs) as (h & x & Hx & Hin). exists h, (grow t r h x).
        rewrite place_lookup, grow_unlocks. split; [right; split; [congruence|eauto]|auto].
  - intros ref. cbn [place independent_transactions]. transitivity (linked t r = None ∧ ref = mkRef t (id r) ∨ ref ∈ independent_transactions r).
    { destruct (linked t r); cbn; [naive_solver|]. rewrite btree_insert_elem by done. naive_solver. }
    rewrite (ri_independent _ _ Hr). split.
    + intros [[Hl ->]|(h & x & Hx & Hs & <-)]; [exists (tx_hash t), (new_entry t U r); rewrite place_lookup; naive_solver|].
      exists h, (grow t r h x). rewrite place_lookup, grow_settled, (proj1 (grow_fields t r h x)).
      split_and!; [right; split; [congruence|eauto]|done|done].
    + intros (h & x & [[-> ->]|(Hne & x0 & Hx & ->)]%place_lookup & Hs & <-); [left; by apply Hgs in Hs|].
      right. rewrite grow_settled in Hs. rewrite (proj1 (grow_fields t r h x0)). eauto.
  - cbn. destruct (linked t r); cbn; [|apply btree_insert_sorted; [|done]]; apply (ri_sorted _ _ Hr).
Qed.

Section add.
Context `{HashOrder}.

Lemma set_iter_singleton {A} `{Countable A} (x : A) : set_iter {[x]} = [x].
Proof. apply Permutation_singleton_r. rewrite set_iter_perm. by rewrite elements_singleton. Qed.

(** [ready_add] from the identifier on. *)
Definition add_tail (t : PoolTransaction) (p : list PoolTransaction * list TxHash) : PM ReadyTransactions (list PoolTransaction) :=
  i ← next_id;
  inherent ← pcollect (link (tx_hash t)) (requires t);
  let requires_offset := Z.of_nat (length inherent) in
  let independent := requires_offset =? Z.of_nat (length (requires t)) in
  pmodify (on_provided (λ m, fold_left (λ m mk, <[mk:=tx_hash t]> m) (provides t) m));;
  (if independent then pmodify (on_independent (btree_insert (mkRef t i))) else mret tt);;
  pmodify (on_ready <[tx_hash t:=mkReady (mkRef t i) (snd p) requires_offset]>);;
  mret (fst p).

Lemma add_tail_ok t m p r :
  tx_ok t → provides t = [m] → 0 ≤ id r < U64_MAX →
  (∀ m' o, m' ≠ m → provided_markers r !! m' = Some o → is_Some (ready_tx r !! o)) →
  add_tail t p r = (Ok (fst p), place t m (snd p) (on_provided (delete m) r)).
Proof.
  intros (m0 & Hm & Hreq) Hm' Hid Ho. rewrite Hm in Hm'. simplify_eq. unfold add_tail, next_id.
  unfold mbind, PM_bind, pgets, pmodify, mret, PM_ret. cbn.
  assert (Hw : wrap U64_MAX (id r + 1) = id r + 1) by (unfold wrap; apply Z.mod_small; lia). rewrite Hw.
  unfold place, new_entry, linked. rewrite Hm. destruct Hreq as [Hreq|(m' & Hreq & Hrank)]; rewrite Hreq; cbn.
  { rewrite insert_delete_eq. done. }
  assert (Hne : m' ≠ m) by (intros ->; lia). rewrite lookup_delete_ne by done.
  unfold link, mbind, PM_bind, pgets, pmodify, mret, PM_ret, passert. cbn.
  destruct (provided_markers r !! m') as [o|] eqn:Eo; cbn.
  - rewrite bool_decide_eq_true_2 by (by eapply Ho). cbn. rewrite insert_delete_eq. done.
  - rewrite insert_delete_eq. done.
Qed.

Lemma replaced_none t m r : provides t = [m] → provided_markers r !! m = None → replaced_transactions t r = (Ok ([], []), r).
Proof.
  intros Hm Hp. unfold replaced_transactions. rewrite pgets_bind, Hm. cbn. rewrite Hp. cbn. by rewrite decide_True.
Qed.
Lemma replaced_some t m r ho xo :
  ReadyInv [] r → provides t = [m] → provided_markers r !! m = Some ho → ready_tx r !! ho = Some xo → provides (ready_tx_of xo) = [m] →
  replaced_transactions t r =
    if max_fee_per_gas t <=? max_fee_per_gas (ready_tx_of xo)
    then (Err (PoolErr (ReplacementUnderpriced (tx_hash t))), r)
    else (Ok ([ready_tx_of xo], unlocks xo), cut (provided_markers r) ho xo r).
Proof.
  intros Hr Hm Hp Hxo Hpo. unfold replaced_transactions. rewrite pgets_bind, Hm. cbn [omap list_omap]. rewrite Hp. cbn [list_to_set].
  rewrite decide_False by set_solver. rewrite union_empty_r_L, set_iter_singleton, pgets_bind. cbn [omap list_omap]. rewrite Hxo.
  cbn [check_replaced]. rewrite Hpo, Hm, bool_decide_eq_true_2 by done. cbn [andb].
  destruct (max_fee_per_gas t <=? max_fee_per_gas (ready_tx_of xo)); [done|].
  rewrite (pbind_ok _ _ _ (unlocks xo) r) by (unfold mbind, PM_bind; cbn; by rewrite app_nil_r).
  rewrite (pbind_ok _ _ _ [ready_tx_of xo] (cut (provided_markers r) ho xo r)); [done|].
  unfold remove_with_markers. destruct (size (ready_tx r)) as [|n] eqn:Esz.
  { apply map_size_empty_inv in Esz. by rewrite Esz, lookup_empty in Hxo. }
  cbn [rev app]. rewrite remove_loop_cons, Hxo, (remove_ready_cut [] ho xo m) by done.
  rewrite decide_True by set_solver. unfold invalidated. rewrite Hpo, filter_cons_False, filter_nil by set_solver.
  rewrite bool_decide_eq_true_2 by done. cbn [negb]. by rewrite remove_loop_nil.
Qed.

Lemma ready_add_bind tx r :
  missing_markers tx = ∅ → ready_tx r !! tx_hash (transaction tx) = None →
  ready_add tx r = (replaced_transactions (transaction tx) ≫= add_tail (transaction tx)) r.
Proof.
  intros Hmiss Hh. unfold ready_add, passert, is_ready. rewrite bool_decide_eq_true_2 by done.
  rewrite (pbind_ok _ _ _ tt r) by done. rewrite pgets_bind, bool_decide_eq_true_2 by done.
  by rewrite (pbind_ok _ _ _ tt r) by done.
Qed.

Lemma ready_add_cases tx r m :
  let t := transaction tx in
  ReadyInv [] r → tx_ok t → provides t = [m] → missing_markers tx = ∅ → ready_tx r !! tx_hash t = None → 0 ≤ id r < U64_MAX →
  (provided_markers r !! m = None ∧ ready_add tx r = (Ok [], place t m [] r)) ∨
  (∃ ho xo, provided_markers r !! m = Some ho ∧ ready_tx r !! ho = Some xo ∧ provides (ready_tx_of xo) = [m] ∧
    ready_add tx r =
      if max_fee_per_gas t <=? max_fee_per_gas (ready_tx_of xo)
      then (Err (PoolErr (ReplacementUnderpriced (tx_hash t))), r)
      else (Ok [ready_tx_of xo], place t m (unlocks xo) (cut (delete m (provided_markers r)) ho xo r))).
Proof.
  cbv zeta. intros Hr Hok Hm Hmiss Hh Hid. rewrite ready_add_bind by done.
  destruct (provided_markers r !! m) as [ho|] eqn:Hp.
  - right. destruct (proj1 (ri_provided _ _ Hr m ho) Hp) as (xo & Hxo & Hpo). exists ho, xo. split_and!; [done..|].
    unfold mbind, PM_bind. rewrite (replaced_some _ m r ho xo) by done.
    destruct (max_fee_per_gas (transaction tx) <=? max_fee_per_gas (ready_tx_of xo)); [done|].
    rewrite (add_tail_ok _ m); [done..|].
    intros m' o Hne Ho. cbn in Ho. apply (ri_provided _ _ Hr) in Ho as (y & Hy & Hpy).
    exists (on_unlocks (remove_hash ho) y). apply cut_lookup. split; [|eauto]. intros ->. simplify_eq. congruence.
  - left. split; [done|]. unfold mbind, PM_bind. rewrite (replaced_none _ m) by done.
    rewrite (add_tail_ok _ m); [|done..|].
    + cbn. unfold on_provided. rewrite delete_id by done. by destruct r.
    + intros m' o _ (y & Hy & _)%(ri_provided _ _ Hr). eauto.
Qed.

(** An addition keeps the invariant; it replaces the transaction with the same marker, if there
    is one, and changes no other but for the list of its dependents. *)
Lemma ready_add_ok tx r m :
  let t := transaction tx in
  ReadyInv [] r → tx_ok t → provides t = [m] → missing_markers tx = ∅ → ready_tx r !! tx_hash t = None → 0 ≤ id r < U64_MAX →
  (∃ ho xo, provided_markers r !! m = Some ho ∧ ready_tx r !! ho = Some xo ∧ max_fee_per_gas t ≤ max_fee_per_gas (ready_tx_of xo) ∧
    ready_add tx r = (Err (PoolErr (ReplacementUnderpriced (tx_hash t))), r)) ∨
  (∃ out r', ready_add tx r = (Ok out, r') ∧ ReadyInv [] r' ∧ id r' = id r + 1 ∧
    provided_markers r' = <[m:=tx_hash t]> (provided_markers r) ∧
    (∀ h x, ready_tx r' !! h = Some x → h = tx_hash t ∧ ready_tx_of x = t ∧ (settled x ↔ linked t r = None) ∨
      ∃ y, ready_tx r !! h = Some y ∧ ready_ref x = ready_ref y ∧ requires_offset x = requires_offset y) ∧
    (∀ t', t' ∈ out ↔ gone r r' t') ∧
    (∀ t', t' ∈ out → provides t' = [m] ∧ max_fee_per_gas t' < max_fee_per_gas t)).
Proof.
  cbv zeta. intros Hr Hok Hm Hmiss Hh Hid.
  destruct (ready_add_cases tx r m Hr Hok Hm Hmiss Hh Hid) as [[Hp E]|(ho & xo & Hp & Hxo & Hpo & E)].
  - right. exists [], (place (transaction tx) m [] r). split_and!; [done| |done|done| | |set_solver].
    + apply place_inv; try done; [lia|constructor|set_solver].
    + intros h x [[-> ->]|(Hne & y & Hy & ->)]%place_lookup; [left; by rewrite new_settled|]. right. exists y.
      split_and!; [done|apply grow_fields|apply grow_fields].
    + intros t'. split; [set_solver|]. intros (h & x & Hx & <- & Hn). exfalso.
      assert (ready_tx (place (transaction tx) m [] r) !! h = Some (grow (transaction tx) r h x)); [|congruence].
      apply place_lookup. right. split; [congruence|eauto].
  - destruct (Z.leb_spec (max_fee_per_gas (transaction tx)) (max_fee_per_gas (ready_tx_of xo))) as [Hle|Hlt].
    { left. exists ho, xo. done. }
    right. set (r1 := cut _ ho xo r) in E. exists [ready_tx_of xo], (place (transaction tx) m (unlocks xo) r1).
    assert (Hrank : ∀ y, ready_tx r !! ho = Some y → requires (ready_tx_of y) ≠ [m]).
    { intros y Hy Hq. simplify_eq. destruct (ri_ok _ _ Hr _ _ Hxo) as (_ & m0 & Hm0 & [Hq'|(m' & Hq' & ?)]);
        rewrite Hq in Hq'; [done|]. rewrite Hpo in Hm0. simplify_eq. lia. }
    split_and!; [done| |done|by cbn; rewrite insert_delete_eq| | |].
    + apply place_inv; try done.
      * eapply ready_inv_weaken; [|apply (cut_inv [] ho xo m); [|done..]; eapply ready_inv_weaken; [|done]; set_solver].
        set_solver.
      * cbn. apply lookup_delete_eq.
      * destruct (ready_tx r1 !! tx_hash (transaction tx)) eqn:E1; [|done]. apply cut_lookup in E1 as (_ & ? & ? & _). congruence.
      * cbn. lia.
      * by eapply (ri_nodup _ _ Hr).
      * intros k Hk. destruct (ri_unlocks _ _ Hr _ _ _ Hxo Hk) as (y & Hy & Hreq & Ho).
        exists (on_unlocks (remove_hash ho) y). rewrite on_unlocks_tx. split_and!; [|congruence|done].
        apply cut_lookup. split; [|eauto]. intros ->. eapply Hrank; [done|congruence].
    + intros h x [[-> ->]|(Hne & y & (Hne' & y0 & Hy & ->)%cut_lookup & ->)]%place_lookup.
      { left. rewrite new_settled. split_and!; [done..|]. unfold linked. cbn.
        destruct Hok as (m0 & Hm0 & [Hq|(m' & Hq & ?)]); rewrite Hq; [done|]. cbn. rewrite lookup_delete_ne; [done|].
        intros ->. rewrite Hm in Hm0. simplify_eq. lia. }
      right. exists y0.
      split_and!; [done|exact (proj1 (grow_fields _ _ _ _))|exact (proj2 (grow_fields _ _ _ _))].
    + intros t'. rewrite list_elem_of_singleton. split.
      * intros ->. exists ho, xo. split_and!; [done..|].
        destruct (ready_tx (place (transaction tx) m (unlocks xo) r1) !! ho) eqn:E1; [|done].
        apply place_lookup in E1 as [[-> _]|(_ & y & (Hne' & _)%cut_lookup & _)]; [congruence|done].
      * intros (h & x & Hx & <- & Hn). destruct (decide (h = ho)) as [->|Hne]; [by simplify_eq|]. exfalso.
        assert (ready_tx (place (transaction tx) m (unlocks xo) r1) !! h = Some (grow (transaction tx) r1 h (on_unlocks (remove_hash ho) x)));
          [|congruence].
        apply place_lookup. right. split; [congruence|]. eexists. split; [|done]. apply cut_lookup. eauto.
    + intros t' ->%list_elem_of_singleton. done.
Qed.
End add.
