(* ===== verification/TxPoolPending.v ===== *)
(** * The pending transactions

    The invariant of [PendingTransactions] and its preservation by each of its operations, whatever the
    order in which hash sets are iterated. *)
From Stdlib Require Import ZArith Lia.
From stdpp Require Import base tactics option list fin_maps gmap fin_sets.
From S2P Require Import Prelude Base TxPool TxPoolReady.
Open Scope Z_scope.

(** A transaction waits for the one marker it requires, the markers that are waited for are
    indexed, and the index of replacements points to waiting transactions. *)
Record PendingInv (p : PendingTransactions) : Prop := {
  pi_ok h t : waiting_queue p !! h = Some t → tx_hash (transaction t) = h ∧ tx_ok (transaction t) ∧
    ∃ m, requires (transaction t) = [m] ∧ missing_markers t = {[m]};
  pi_required m h : h ∈ default ∅ (required_markers p !! m) ↔ ∃ t, waiting_queue p !! h = Some t ∧ m ∈ missing_markers t;
  pi_nonempty m X : required_markers p !! m = Some X → X ≠ ∅;
  pi_waiting ps h : waiting_markers p !! ps = Some h → ∃ t, waiting_queue p !! h = Some t ∧ provides (transaction t) = ps;
}.

Lemma pending_inv_empty : PendingInv pending_empty.
Proof. split; cbn; intros *; rewrite ?lookup_empty; cbn; set_solver. Qed.

Section ops.
Context `{HashOrder}.

(** ** [mark_and_unlock] *)

(** The part of the invariant that the inner loop keeps. *)
Definition waiting_indexed (p : PendingTransactions) : Prop :=
  ∀ ps h, waiting_markers p !! ps = Some h → ∃ t, waiting_queue p !! h = Some t ∧ provides (transaction t) = ps.
Definition unlocked (t : PendingPoolTransaction) : PendingPoolTransaction := mkPendingPoolTransaction (transaction t) ∅.

Lemma waiting_delete p h t : waiting_indexed p → waiting_queue p !! h = Some t →
  waiting_indexed (on_waiting (delete (provides (transaction t))) (on_queue (delete h) p)).
Proof.
  intros Hp Ht ps k. cbn. rewrite lookup_delete_Some. intros [Hne (t' & Ht' & Hps)%Hp].
  exists t'. rewrite lookup_delete_ne by congruence. done.
Qed.

Lemma mark_waiting_ok m h t p :
  waiting_indexed p → waiting_queue p !! h = Some t → missing_markers t = {[m]} →
  ∃ p', mark_waiting m h p = (Ok [unlocked t], p') ∧ waiting_indexed p' ∧ required_markers p' = required_markers p ∧
    waiting_queue p' = delete h (waiting_queue p).
Proof.
  intros Hp Ht Hm. exists (on_waiting (delete (provides (transaction t))) (on_queue (delete h) p)).
  split_and!; [|by apply waiting_delete|done|done]. unfold mark_waiting, pmodify, mbind, PM_bind, pgets. cbn. rewrite Ht.
  unfold is_ready, mark. cbn. rewrite Hm, difference_diag_L, bool_decide_eq_true_2 by done. cbn.
  unfold on_queue, on_waiting. cbn. by rewrite delete_insert_eq.
Qed.

Lemma mark_loop_ok m hs p :
  waiting_indexed p → NoDup hs → (∀ h, h ∈ hs → ∃ t, waiting_queue p !! h = Some t ∧ missing_markers t = {[m]}) →
  ∃ out p', pcollect (mark_waiting m) hs p = (Ok out, p') ∧ waiting_indexed p' ∧ required_markers p' = required_markers p ∧
    (∀ h t, waiting_queue p' !! h = Some t ↔ waiting_queue p !! h = Some t ∧ h ∉ hs) ∧
    Forall2 (λ h tx, ∃ t, waiting_queue p !! h = Some t ∧ tx = unlocked t) hs out ∧
    (size (waiting_queue p') + length out = size (waiting_queue p))%nat.
Proof.
  revert p. induction hs as [|h hs IH]; intros p Hp Hnd Hhs; cbn [pcollect].
  { exists [], p. split_and!; try done. set_solver. }
  apply NoDup_cons in Hnd as [Hh Hnd]. destruct (Hhs h) as (t & Ht & Hm); [set_solver|].
  destruct (mark_waiting_ok m h t p Hp Ht Hm) as (p1 & E & Hp1 & Hr1 & Hq1).
  destruct (IH p1 Hp1 Hnd) as (out & p' & E' & Hp' & Hr' & Hq' & Hout & Hsz).
  { intros k Hk. rewrite Hq1, lookup_delete_ne by set_solver. apply Hhs. set_solver. }
  exists (unlocked t :: out), p'. rewrite (pbind_ok _ _ _ _ _ E), (pbind_ok _ _ _ _ _ E'). split_and!; [done|done|congruence| | |].
  - intros k u. rewrite Hq', Hq1, lookup_delete_Some. set_solver.
  - constructor; [eauto|]. eapply Forall2_impl; [exact Hout|]. cbn. intros k tx (u & Hu & ->). rewrite Hq1 in Hu.
    apply lookup_delete_Some in Hu as [_ Hu]. eauto.
  - cbn. rewrite Hq1, map_size_delete_Some in Hsz by eauto.
    assert (size (waiting_queue p) ≠ 0%nat); [|lia]. intros Ez%map_size_empty_inv. by rewrite Ez in Ht.
Qed.

Lemma mark_and_unlock_one m p :
  mark_and_unlock [m] p =
  match required_markers p !! m with
  | Some X => pcollect (mark_waiting m) (set_iter X) (on_required (delete m) p)
  | None => (Ok [], p)
  end.
Proof.
  unfold mark_and_unlock. cbn [pcollect]. unfold mbind, PM_bind, pgets, pmodify, mret, PM_ret. cbn.
  destruct (required_markers p !! m) as [X|]; cbn; [|done].
  destruct (pcollect (mark_waiting m) (set_iter X) (on_required (delete m) p)) as [[out|e] p']; [|done]. by rewrite app_nil_r.
Qed.

Lemma mark_and_unlock_ok m p :
  PendingInv p →
  ∃ out p', mark_and_unlock [m] p = (Ok out, p') ∧ PendingInv p' ∧
    (∀ h t, waiting_queue p' !! h = Some t ↔ waiting_queue p !! h = Some t ∧ m ∉ missing_markers t) ∧
    (∀ tx, tx ∈ out → ∃ t, waiting_queue p !! tx_hash (transaction tx) = Some t ∧ tx = unlocked t ∧ m ∈ missing_markers t) ∧
    (∀ h t, waiting_queue p !! h = Some t → m ∈ missing_markers t → unlocked t ∈ out) ∧
    NoDup (tx_hash ∘ transaction <$> out) ∧ (size (waiting_queue p') + length out = size (waiting_queue p))%nat ∧
    (out = [] → p' = p).
Proof.
  intros Hp. rewrite mark_and_unlock_one.
  assert (Hmiss : ∀ h t, waiting_queue p !! h = Some t → m ∈ missing_markers t → missing_markers t = {[m]}).
  { intros h t Ht Hin. destruct (pi_ok _ Hp _ _ Ht) as (_ & _ & m' & _ & Hm). rewrite Hm in Hin |- *. set_solver. }
  destruct (required_markers p !! m) as [X|] eqn:EX.
  - set (p1 := on_required (delete m) p).
    assert (HX : ∀ h, h ∈ set_iter X ↔ ∃ t, waiting_queue p !! h = Some t ∧ m ∈ missing_markers t).
    { intros h. rewrite set_iter_perm, elem_of_elements, <- (pi_required _ Hp m h), EX. done. }
    destruct (mark_loop_ok m (set_iter X) p1) as (out & p' & E & Hw & Hr & Hq & Hout & Hsz).
    { intros ps h. apply (pi_waiting _ Hp). }
    { rewrite set_iter_perm. apply NoDup_elements. }
    { intros h (t & Ht & Hin)%HX. exists t. split; [done|by eapply Hmiss]. }
    assert (Hq' : ∀ h t, waiting_queue p' !! h = Some t ↔ waiting_queue p !! h = Some t ∧ m ∉ missing_markers t).
    { intros h t. rewrite Hq. cbn. rewrite HX. naive_solver. }
    exists out, p'. fold p1. rewrite E. split_and!; [done| |done| | | |done|].
    + split.
      * intros h t [Ht _]%Hq'. by apply (pi_ok _ Hp).
      * intros m' h. rewrite Hr. cbn. destruct (decide (m' = m)) as [->|Hne].
        { rewrite lookup_delete_eq. cbn. split; [set_solver|]. intros (t & [_ Hn]%Hq' & ?). done. }
        rewrite lookup_delete_ne by done. rewrite (pi_required _ Hp). split; [|intros (t & [? ?]%Hq' & ?); eauto].
        intros (t & Ht & Hin). exists t. rewrite Hq'. split_and!; [done| |done]. intros Hin'.
        rewrite (Hmiss _ _ Ht Hin') in Hin. set_solver.
      * intros m' Y. rewrite Hr. cbn. intros [_ HY]%lookup_delete_Some. by eapply (pi_nonempty _ Hp).
      * exact Hw.
    + intros tx Htx. apply list_elem_of_lookup in Htx as [i Hi]. destruct (Forall2_lookup_r _ _ _ _ _ Hout Hi) as (h & Hh & t & Ht & ->).
      cbn in Ht. cbn. destruct (pi_ok _ Hp _ _ Ht) as (-> & _ & _). exists t. split_and!; [done..|].
      apply list_elem_of_lookup_2, HX in Hh as (t' & Ht' & ?). congruence.
    + intros h t Ht Hin. assert (Hh : h ∈ set_iter X) by (apply HX; eauto). apply list_elem_of_lookup in Hh as [i Hi].
      destruct (Forall2_lookup_l _ _ _ _ _ Hout Hi) as (tx & Htx & t' & Ht' & ->). cbn in Ht'.
      apply list_elem_of_lookup_2 in Htx. congruence.
    + assert (Heq : tx_hash ∘ transaction <$> out = set_iter X); [|rewrite Heq, set_iter_perm; apply NoDup_elements].
      clear -Hout Hp. induction Hout as [|h tx hs out (t & Ht & ->) _ IH]; [done|]. cbn. f_equal; [|done].
      cbn in Ht. by destruct (pi_ok _ Hp _ _ Ht) as (-> & _).
    + intros ->. inversion Hout as [He|]. exfalso. apply (pi_nonempty _ Hp _ _ EX), leibniz_equiv, elements_empty_iff.
      apply Permutation_nil_r. rewrite <- set_iter_perm. by rewrite <- He.
  - exists [], p. split_and!; try done; [| | |constructor].
    + intros h t. split; [|naive_solver]. intros Ht. split; [done|]. intros Hin.
      assert (h ∈ default ∅ (required_markers p !! m)) by (apply (pi_required _ Hp); eauto). rewrite EX in *. set_solver.
    + set_solver.
    + intros h t Ht Hin. assert (h ∈ default ∅ (required_markers p !! m)) by (apply (pi_required _ Hp); eauto).
      rewrite EX in *. set_solver.
Qed.

(** ** [remove] *)
Lemma remove_one_ok h t p :
  PendingInv p → waiting_queue p !! h = Some t →
  PendingInv (on_required (λ r, fold_left (unrequire h) (set_iter (missing_markers t)) r)
    (on_waiting (delete (provides (transaction t))) (on_queue (delete h) p))).
Proof.
  intros Hp Ht. destruct (pi_ok _ Hp _ _ Ht) as (Hh & _ & m & Hreq & Hmiss). rewrite Hmiss, set_iter_singleton. cbn [fold_left].
  assert (Hm : h ∈ default ∅ (required_markers p !! m)).
  { apply (pi_required _ Hp). exists t. rewrite Hmiss. set_solver. }
  destruct (required_markers p !! m) as [X|] eqn:EX; [|set_solver]. cbn in Hm.
  assert (Hr : ∀ m', default ∅ (unrequire h (required_markers p) m !! m') =
    (if decide (m' = m) then X ∖ {[h]} else default ∅ (required_markers p !! m'))).
  { intros m'. unfold unrequire. rewrite EX. destruct (decide (X ∖ {[h]} = ∅)) as [He|He].
    - destruct (decide (m' = m)) as [->|]; [rewrite lookup_delete_eq, He|rewrite lookup_delete_ne by done]; done.
    - destruct (decide (m' = m)) as [->|]; [rewrite lookup_insert_eq|rewrite lookup_insert_ne by done]; done. }
  split; cbn [on_required on_waiting on_queue required_markers waiting_markers waiting_queue].
  - intros k u [_ Hu]%lookup_delete_Some. by apply (pi_ok _ Hp).
  - intros m' k. rewrite Hr. transitivity (k ≠ h ∧ k ∈ default ∅ (required_markers p !! m')).
    + destruct (decide (m' = m)) as [->|Hne]; [rewrite EX; cbn; set_solver|]. split; [|naive_solver]. intros Hk. split; [|done].
      intros ->. apply (pi_required _ Hp) in Hk as (u & Hu & Hin). simplify_eq. rewrite Hmiss in Hin. set_solver.
    + rewrite (pi_required _ Hp). setoid_rewrite lookup_delete_Some. naive_solver.
  - intros m' Y. unfold unrequire. rewrite EX. case_decide as He.
    + intros [_ HY]%lookup_delete_Some. by eapply (pi_nonempty _ Hp).
    + intros [[<- <-]|[_ HY]]%lookup_insert_Some; [done|by eapply (pi_nonempty _ Hp)].
  - apply (waiting_delete p h t); [|done]. intros ps k. apply (pi_waiting _ Hp).
Qed.

Lemma pending_remove_ok hs p :
  PendingInv p →
  ∃ out p', pending_remove hs p = (Ok out, p') ∧ PendingInv p' ∧
    (∀ h t, waiting_queue p' !! h = Some t ↔ waiting_queue p !! h = Some t ∧ h ∉ hs) ∧
    (∀ tx, tx ∈ out ↔ ∃ h t, h ∈ hs ∧ waiting_queue p !! h = Some t ∧ transaction t = tx).
Proof.
  unfold pending_remove. revert p. induction hs as [|h hs IH]; intros p Hp; cbn [pcollect].
  { exists [], p. split_and!; [done|done|set_solver|set_solver]. }
  destruct (waiting_queue p !! h) as [t|] eqn:Et.
  - set (p1 := on_required (λ r, fold_left (unrequire h) (set_iter (missing_markers t)) r)
      (on_waiting (delete (provides (transaction t))) (on_queue (delete h) p))).
    destruct (IH p1) as (out & p' & E & Hp' & Hq & Hout); [by apply remove_one_ok|].
    exists (transaction t :: out), p'.
    rewrite (pbind_ok _ _ _ [transaction t] p1); [|rewrite pgets_bind, Et; done].
    rewrite (pbind_ok _ _ _ _ _ E). split_and!; [done|done| |].
    + intros k u. rewrite Hq. cbn. rewrite lookup_delete_Some. set_solver.
    + intros tx. rewrite elem_of_cons, Hout. cbn. setoid_rewrite lookup_delete_Some. split.
      * intros [->|(k & u & ? & [? ?] & ?)]; [exists h, t|exists k, u]; set_solver.
      * intros (k & u & Hk & Hu & <-). destruct (decide (k = h)) as [->|]; [left; congruence|].
        right. exists k, u. set_solver.
  - destruct (IH p Hp) as (out & p' & E & Hp' & Hq & Hout). exists out, p'.
    rewrite (pbind_ok _ _ _ [] p); [|rewrite pgets_bind, Et; done].
    rewrite (pbind_ok _ _ _ _ _ E). split_and!; [done|done| |].
    + intros k u. rewrite Hq. split; [intros [Hu ?]; split; [done|]|set_solver]. intros [->|]%elem_of_cons; [congruence|done].
    + intros tx. rewrite Hout. split; [set_solver|]. intros (k & u & [->|]%elem_of_cons & Hu & ?); [congruence|eauto].
Qed.

(** ** [add_transaction] *)
Lemma pending_add_ok tx m p :
  let t := transaction tx in
  PendingInv p → tx_ok t → requires t = [m] → missing_markers tx = {[m]} → waiting_queue p !! tx_hash t = None →
  (∃ h u, waiting_queue p !! h = Some u ∧ provides (transaction u) = provides t ∧ max_fee_per_gas t ≤ max_fee_per_gas (transaction u) ∧
    pending_add tx p = (Err (PoolErr (ReplacementUnderpriced (tx_hash t))), p)) ∨
  (∃ p', pending_add tx p = (Ok tt, p') ∧ PendingInv p' ∧ waiting_queue p' = <[tx_hash t:=tx]> (waiting_queue p)).
Proof.
  cbv zeta. intros Hp Hok Hreq Hmiss Hh. unfold pending_add, passert, is_ready.
  rewrite Hmiss, bool_decide_eq_false_2 by set_solver. cbn [negb]. rewrite (pbind_ok _ _ _ tt p) by done.
  rewrite pgets_bind, bool_decide_eq_true_2 by done. rewrite (pbind_ok _ _ _ tt p), pgets_bind by done.
  set (old := waiting_markers p !! _ ≫= _). set (p1 := mkPendingTransactions
    (<[m:={[tx_hash (transaction tx)]} ∪ default ∅ (required_markers p !! m)]> (required_markers p))
    (<[provides (transaction tx):=tx_hash (transaction tx)]> (waiting_markers p))
    (<[tx_hash (transaction tx):=tx]> (waiting_queue p))).
  assert (Hp1 : PendingInv p1).
  { assert (Hr : ∀ m' h, h ∈ default ∅ (required_markers p1 !! m') ↔ h ∈ default ∅ (required_markers p !! m') ∨ m' = m ∧ h = tx_hash (transaction tx)).
    { intros m' h. cbn. destruct (decide (m' = m)) as [->|]; [rewrite lookup_insert_eq|rewrite lookup_insert_ne by done]; cbn; set_solver. }
    split.
    - intros h t. cbn. intros [[<- <-]|[_ Ht]]%lookup_insert_Some; [eauto 6|by apply (pi_ok _ Hp)].
    - intros m' h. rewrite Hr, (pi_required _ Hp). cbn. split.
      + intros [(t & Ht & Hin)|[-> ->]]; [exists t; rewrite lookup_insert_ne; [done|congruence]|exists tx; rewrite lookup_insert_eq].
        rewrite Hmiss. set_solver.
      + intros (t & [[<- <-]|[_ Ht]]%lookup_insert_Some & Hin); [right; rewrite Hmiss in Hin; set_solver|eauto].
    - intros m' Y. cbn. intros [[<- <-]|[_ HY]]%lookup_insert_Some; [set_solver|by eapply (pi_nonempty _ Hp)].
    - intros ps h. cbn. intros [[<- <-]|[_ Hw]]%lookup_insert_Some; [exists tx; by rewrite lookup_insert_eq|].
      apply (pi_waiting _ Hp) in Hw as (t & Ht & ?). exists t. rewrite lookup_insert_ne; [done|congruence]. }
  assert (Hrest : (pmodify (on_required (λ r, fold_left (λ r marker, <[marker:={[tx_hash (transaction tx)]} ∪ default ∅ (r !! marker)]> r)
      (set_iter {[m]}) r));; pmodify (on_waiting <[provides (transaction tx):=tx_hash (transaction tx)]>);;
      pmodify (on_queue <[tx_hash (transaction tx):=tx]>)) p = (Ok tt, p1)).
  { rewrite set_iter_singleton. done. }
  destruct old as [u|] eqn:Eo.
  - destruct (Z.leb_spec (max_fee_per_gas (transaction tx)) (max_fee_per_gas (transaction u))) as [Hle|Hlt].
    + left. subst old. destruct (waiting_markers p !! provides (transaction tx)) as [h|] eqn:Ew; [|done]. cbn in Eo.
      destruct (pi_waiting _ Hp _ _ Ew) as (t & Ht & Hpt). simplify_eq. exists h, u. done.
    + right. exists p1. rewrite (pbind_ok _ _ _ tt p) by done. done.
  - right. exists p1. rewrite (pbind_ok _ _ _ tt p) by done. done.
Qed.
End ops.
