(* ===== verification/TxPoolOrder.v ===== *)
(** * The order of the ready transactions

    [TransactionsIterator] yields every ready transaction once, never before the one it depends
    on, and always the best of those it may yield. *)
From Stdlib Require Import ZArith Lia.
From stdpp Require Import base tactics option list fin_maps gmap fin_sets sorting.
From S2P Require Import Prelude Base TxPool TxPoolReady.
Open Scope Z_scope.

Lemma list_min {A} (f : A → Z) (l : list A) : l ≠ [] → ∃ x, x ∈ l ∧ ∀ y, y ∈ l → f x ≤ f y.
Proof.
  induction l as [|a l IH]; [done|]. intros _. destruct (decide (l = [])) as [->|Hne].
  { exists a. split; [set_solver|]. by intros y ->%list_elem_of_singleton. }
  destruct (IH Hne) as (x & Hx & Hmin). destruct (Z.le_gt_cases (f a) (f x)).
  - exists a. split; [set_solver|]. intros y [->|Hy]%elem_of_cons; [lia|]. specialize (Hmin y Hy). lia.
  - exists x. split; [set_solver|]. intros y [->|Hy]%elem_of_cons; [lia|]. by apply Hmin.
Qed.

Local Arguments rank : simpl never.

(** ** The specification *)

(** After the transactions [D], [h] can be yielded. *)
Definition available (r : ReadyTransactions) (D : list TxHash) (h : TxHash) (x : ReadyTransaction) : Prop :=
  ready_tx r !! h = Some x ∧ h ∉ D ∧ (settled x ∨ ∃ k z, k ∈ D ∧ ready_tx r !! k = Some z ∧ h ∈ unlocks z).

(** The best available transaction comes next, until none is available. *)
Inductive yields (r : ReadyTransactions) : list TxHash → list PoolTransaction → Prop :=
  | yields_nil D : (∀ h x, ¬ available r D h x) → yields r D []
  | yields_cons D h x txs :
      available r D h x →
      (∀ h' x', available r D h' x' → ready_ref x' = ready_ref x ∨ ref_lt (ready_ref x') (ready_ref x)) →
      yields r (h :: D) txs → yields r D (ready_tx_of x :: txs).

(** ** The iterator *)
Record IterInv (r : ReadyTransactions) (D : list TxHash) (it : TransactionsIterator) : Prop := {
  it_all : all it = ready_tx r;
  it_awaiting : awaiting it = ∅;
  it_independent ref : ref ∈ independent it ↔ ∃ h x, available r D h x ∧ ready_ref x = ref;
  it_sorted : StronglySorted ref_lt (independent it);
  it_done h : h ∈ D → ∃ x, ready_tx r !! h = Some x ∧ (settled x ∨ ∃ k z, k ∈ D ∧ ready_tx r !! k = Some z ∧ h ∈ unlocks z);
}.

Section iterator.
Context {r : ReadyTransactions} (Hr : ReadyInv [] r).

Lemma get_transactions_inv : IterInv r [] (get_transactions r).
Proof.
  split; cbn; [done|done| |apply Hr|set_solver]. intros ref. rewrite (ri_independent _ _ Hr). unfold available. set_solver.
Qed.

Definition refs_of (I : list PoolTransactionRef) : Prop := ∀ z, z ∈ I → ∃ h x, ready_tx r !! h = Some x ∧ ready_ref x = z.

Lemma refs_of_by_id I h x : refs_of I → ready_tx r !! h = Some x → by_id I (ready_ref x).
Proof.
  intros HI Hx z (h' & x' & Hx' & <-)%HI He. by pose proof (ri_ids _ _ Hr _ _ _ _ Hx Hx' He) as <-; simplify_eq.
Qed.

(** The transactions that [h] unlocks require nothing else. *)
Lemma unlock_step h x k I :
  ready_tx r !! h = Some x → k ∈ unlocks x →
  ∃ y, ready_tx r !! k = Some y ∧ ¬ settled y ∧
    unlock_next (mkIterator (ready_tx r) ∅ I) k = mkIterator (ready_tx r) ∅ (btree_insert (ready_ref y) I).
Proof.
  intros Hx Hk. destruct (ri_unlocks _ _ Hr _ _ _ Hx Hk) as (y & Hy & Hreq & Ho). exists y.
  destruct (ri_ok _ _ Hr _ _ Hx) as [_ (m & Hm & _)]. rewrite Hm in Hreq. split_and!; [done|unfold settled; rewrite Hreq, Ho; done|].
  unfold unlock_next. cbn. rewrite Hy. unfold independent_or_awaiting. fold (ready_tx_of y). by rewrite Hreq, Ho.
Qed.

Lemma unlocker_unique h h' x x' k :
  ready_tx r !! h = Some x → ready_tx r !! h' = Some x' → k ∈ unlocks x → k ∈ unlocks x' → h = h'.
Proof.
  intros Hx Hx' (y & Hy & Hreq & _)%(ri_unlocks _ _ Hr _ _ _ Hx) (y' & Hy' & Hreq' & _)%(ri_unlocks _ _ Hr _ _ _ Hx').
  destruct (ri_ok _ _ Hr _ _ Hx) as [_ (m & Hm & _)]. eapply (provider_unique Hr); [done..|]. congruence.
Qed.

Lemma unlock_fold h x l I :
  ready_tx r !! h = Some x → (∀ k, k ∈ l → k ∈ unlocks x) → refs_of I → StronglySorted ref_lt I →
  ∃ I', fold_left unlock_next l (mkIterator (ready_tx r) ∅ I) = mkIterator (ready_tx r) ∅ I' ∧ StronglySorted ref_lt I' ∧
    ∀ z, z ∈ I' ↔ z ∈ I ∨ ∃ k y, k ∈ l ∧ ready_tx r !! k = Some y ∧ ready_ref y = z.
Proof.
  intros Hx. revert I. induction l as [|k l IH]; intros I Hl HI Hs; cbn [fold_left].
  { exists I. split_and!; [done..|set_solver]. }
  destruct (unlock_step h x k I Hx) as (y & Hy & _ & ->); [set_solver|]. pose proof (refs_of_by_id I k y HI Hy) as Hid.
  destruct (IH (btree_insert (ready_ref y) I)) as (I' & E & Hs' & HI').
  - set_solver.
  - intros z [->|Hz]%btree_insert_elem; [eauto|by apply HI|done].
  - by apply btree_insert_sorted.
  - exists I'. split_and!; [done..|]. intros z. rewrite HI', btree_insert_elem by done. set_solver.
Qed.

Lemma next_ok D it : IterInv r D it →
  match next it with
  | (None, it') => (∀ h x, ¬ available r D h x) ∧ fst (next it') = None
  | (Some t, it') => ∃ h x, ready_tx_of x = t ∧ available r D h x ∧ IterInv r (h :: D) it' ∧
      ∀ h' x', available r D h' x' → ready_ref x' = ready_ref x ∨ ref_lt (ready_ref x') (ready_ref x)
  end.
Proof.
  intros [Hall Haw Hind Hs Hdone]. destruct it as [A W I]. cbn in *. subst A W. unfold next. cbn.
  destruct (last I) as [best|] eqn:El.
  2: { apply last_None in El as ->. cbn. split; [|done]. intros h x Ha. assert (ready_ref x ∈ []) by (apply Hind; eauto). set_solver. }
  destruct (length I) as [|n] eqn:En; [by destruct I|]. cbn. rewrite El. cbn.
  assert (Hb : best ∈ I) by (by apply last_Some_elem_of). apply Hind in Hb as (h & x & Ha & <-).
  destruct (Ha) as (Hx & HD & Hwhy). destruct (ri_ok _ _ Hr _ _ Hx) as [Hh _]. fold (ready_tx_of x). rewrite Hh, Hx.
  assert (HI : refs_of I) by (intros z (h' & x' & (? & _) & ?)%Hind; eauto).
  pose proof (refs_of_by_id I h x HI Hx) as Hid.
  destruct (unlock_fold h x (unlocks x) (btree_remove (ready_ref x) I)) as (I' & -> & Hs' & HI'); [done|done| |by apply btree_remove_sorted|].
  { intros z [Hz _]%btree_remove_elem; [by apply HI|done|done]. }
  exists h, x. split_and!; [done|done| |].
  2: { intros h' x' Ha'. eapply (sorted_last I); [done|done|]. apply Hind. eauto. }
  split; cbn; [done|done| |done|set_solver]. intros ref. rewrite HI', btree_remove_elem, Hind by done. split.
  - intros [[(h' & x' & (Hx' & HD' & Hwhy') & <-) Hne]|(k & y & Hk & Hy & <-)].
    + exists h', x'. split; [|done]. split_and!; [done| |set_solver]. intros [->|?]%elem_of_cons; [congruence|done].
    + exists k, y. split; [|done]. split_and!; [done| |set_solver]. apply not_elem_of_cons.
      destruct (ri_unlocks _ _ Hr _ _ _ Hx Hk) as (y' & Hy' & Hreq & Ho). simplify_eq.
      destruct (ri_ok _ _ Hr _ _ Hx) as [_ (m & Hm & Hq)]. destruct (ri_ok _ _ Hr _ _ Hy) as [_ (m' & Hm' & Hq')].
      split.
      * intros ->. simplify_eq. rewrite Hreq, Hm in Hq. destruct Hq as [?|(m1 & ? & ?)]; simplify_eq. lia.
      * intros (y2 & Hy2 & [Hset|(k' & z & Hk' & Hz & Hin)])%Hdone; simplify_eq.
        -- unfold settled in Hset. by rewrite Hreq, Hm, Ho in Hset.
        -- by rewrite (unlocker_unique _ _ _ _ _ Hx Hz Hk Hin) in HD.
  - intros (h' & x' & (Hx' & [Hne HD']%not_elem_of_cons & Hwhy') & <-). destruct Hwhy' as [Hset|(k & z & [->|Hk]%elem_of_cons & Hz & Hin)].
    + left. split; [exists h', x'; split; [split_and!; auto|done]|]. intros He.
      destruct Hne. symmetry. eapply (ri_ids _ _ Hr); [done|done|congruence].
    + simplify_eq. right. eauto.
    + left. split; [exists h', x'; split; [split_and!; [done|done|eauto 8]|done]|]. intros He.
      destruct Hne. symmetry. eapply (ri_ids _ _ Hr); [done|done|congruence].
Qed.

(** ** Collecting the transactions *)

(** While a ready transaction is left, one is available: the one with the least nonce. *)
Lemma some_available D h x : (∀ h x, ¬ available r D h x) → ready_tx r !! h = Some x → h ∈ D.
Proof.
  intros Hno Hx. set (l := filter (λ h, h ∉ D) (elements (dom (ready_tx r)))).
  assert (Hl : ∀ k, k ∈ l ↔ k ∉ D ∧ is_Some (ready_tx r !! k)).
  { intros k. unfold l. by rewrite list_elem_of_filter, elem_of_elements, elem_of_dom. }
  destruct (decide (l = [])) as [El|El].
  { destruct (decide (h ∈ D)) as [?|Hn]; [done|]. assert (h ∈ l) by (apply Hl; eauto). rewrite El in *. set_solver. }
  destruct (list_min (λ k, from_option (λ y, rank (default [] (head (provides (ready_tx_of y))))) 0 (ready_tx r !! k)) l El) as (k & Hk & Hmin).
  apply Hl in Hk as [HkD [y Hy]]. rewrite Hy in Hmin. cbn in Hmin.
  destruct (decide (requires_offset y = Z.of_nat (length (requires (ready_tx_of y))))) as [Hset|Hset].
  { destruct (Hno k y). split_and!; [done|done|by left]. }
  destruct (ri_linked _ _ Hr k y Hy ltac:(set_solver) Hset) as (k' & z & Hz & Hin).
  destruct (decide (k' ∈ D)) as [Hk'|Hk']; [destruct (Hno k y); split_and!; [done|done|eauto 6]|].
  specialize (Hmin k'). rewrite Hz in Hmin. cbn in Hmin. destruct (ri_unlocks _ _ Hr _ _ _ Hz Hin) as (y2 & Hy2 & Hreq & _). simplify_eq.
  destruct (ri_ok _ _ Hr _ _ Hz) as [_ (m & Hm & _)]. destruct (ri_ok _ _ Hr _ _ Hy) as [_ (m' & Hm' & Hq')].
  rewrite Hm, Hm' in Hmin. rewrite Hreq, Hm in Hq'. destruct Hq' as [?|(m1 & ? & ?)]; simplify_eq. cbn in Hmin.
  assert (k' ∈ l) by (apply Hl; eauto). specialize (Hmin ltac:(done)). lia.
Qed.

(** Taking [n] transactions gives a prefix of a run of the specification. *)
Lemma take_next_ok n D it : IterInv r D it → NoDup D → (size (ready_tx r) ≤ n + length D)%nat →
  ∃ it', snd (take_next n it) = it' ∧ fst (next it') = None ∧ yields r D (fst (take_next n it)).
Proof.
  revert D it. induction n as [|n IH]; intros D it Hit Hnd Hsz; cbn [take_next].
  - exists it. split; [done|]. pose proof (next_ok D it Hit) as Hn. destruct (next it) as [[t|] it'] eqn:E.
    + destruct Hn as (h & x & _ & (Hx & HD & _) & _). exfalso.
      assert (Hsub : list_to_set (h :: D) ⊆ dom (ready_tx r)).
      { intros k. rewrite elem_of_list_to_set, elem_of_dom. intros [->|Hk]%elem_of_cons; [eauto|].
        apply (it_done _ _ _ Hit) in Hk as (y & -> & _). eauto. }
      apply subseteq_size in Hsub. rewrite size_list_to_set, size_dom in Hsub by (by constructor). cbn in *. lia.
    + split; [done|]. constructor. apply Hn.
  - pose proof (next_ok D it Hit) as Hn. destruct (next it) as [[t|] it1] eqn:E.
    + destruct Hn as (h & x & <- & Ha & Hit1 & Hbest). destruct (IH (h :: D) it1 Hit1) as (it' & E' & Hno & Hy).
      { constructor; [apply Ha|done]. }
      { cbn. lia. }
      destruct (take_next n it1) as [txs it2]. cbn in *. exists it'. split_and!; [done|done|by econstructor].
    + exists it1. split_and!; [done|apply Hn|constructor; apply Hn].
Qed.

Lemma collect_yields : ∃ txs, collect r = Some txs ∧ yields r [] txs.
Proof.
  destruct (take_next_ok (size (ready_tx r)) [] (get_transactions r)) as (it & E & Hno & Hy);
    [apply get_transactions_inv|constructor|cbn; lia|].
  unfold collect. destruct (take_next _ _) as [txs it'] eqn:Et. cbn in *. subst it'. exists txs.
  destruct (next it) as [[t|] it2]; [done|]. done.
Qed.

(** ** What the specification says of the list *)
Lemma yields_split D txs i t : yields r D txs → txs !! i = Some t →
  ∃ x, ready_tx_of x = t ∧ available r (reverse (tx_hash <$> take i txs) ++ D) (tx_hash t) x.
Proof.
  intros Hy. revert i. induction Hy as [|D h x txs Ha Hbest Hy IH]; [done|]. intros [|i] Hi.
  - cbn in *. simplify_eq. exists x. by destruct (ri_ok _ _ Hr h x) as [-> _]; [apply Ha|].
  - destruct (IH i Hi) as (x' & Hx' & Ha'). exists x'. split; [done|]. rewrite firstn_cons, fmap_cons. destruct (ri_ok _ _ Hr h x) as [-> _]; [apply Ha|].
    by rewrite reverse_cons, <- app_assoc.
Qed.

Lemma yields_all D txs h x : yields r D txs → ready_tx r !! h = Some x → h ∉ D → ready_tx_of x ∈ txs.
Proof.
  intros Hy Hx. induction Hy as [D Hno|D k y txs Ha Hbest Hy IH]; intros HD.
  - by destruct HD; eapply some_available.
  - destruct (decide (h = k)) as [->|Hne].
    + destruct Ha as [Hy' _]. simplify_eq. set_solver.
    + apply elem_of_cons. right. apply IH. set_solver.
Qed.

Lemma yields_nodup D txs : yields r D txs → NoDup (tx_hash <$> txs) ∧ ∀ h, h ∈ tx_hash <$> txs → h ∉ D.
Proof.
  induction 1 as [|D h x txs Ha Hbest Hy [IH1 IH2]]; cbn; [split; [constructor|set_solver]|].
  destruct (ri_ok _ _ Hr h x) as [-> _]; [apply Ha|]. split.
  - apply NoDup_cons. split; [|done]. intros Hin%IH2. set_solver.
  - intros k [->|Hk]%elem_of_cons; [apply Ha|]. apply IH2 in Hk. set_solver.
Qed.
End iterator.
