(* ===== verification/TxPoolProps.v ===== *)
(** * The pool as a whole

    The invariant of the pool, with the transactions that are between its two parts, and each
    operation on it: none panics or runs out of fuel. *)
From Stdlib Require Import ZArith Lia.
From stdpp Require Import base tactics option list fin_maps gmap fin_sets.
From S2P Require Import Prelude Base TxPool TxPoolReady TxPoolPending TxPoolOrder.
Open Scope Z_scope.

Notation readies p := (ready_tx (ready_transactions p)).
Notation provided p := (provided_markers (ready_transactions p)).
Notation waiting p := (waiting_queue (pending_transactions p)).

(** The pool while the transactions [L] are moved between its parts; [n] bounds the
    number of transactions submitted so far. *)
Record InFlight (n : Z) (L : list PendingPoolTransaction) (p : PoolInner) : Prop := {
  if_ready : ReadyInv [] (ready_transactions p);
  if_pending : PendingInv (pending_transactions p);
  if_apart h : is_Some (readies p !! h) → waiting p !! h = None;
  if_blocked h t m : waiting p !! h = Some t → m ∈ missing_markers t → provided p !! m = None;
  if_id : 0 ≤ id (ready_transactions p);
  if_count : id (ready_transactions p) + Z.of_nat (size (waiting p)) + Z.of_nat (length L) ≤ n;
  if_nodup : NoDup (tx_hash ∘ transaction <$> L);
  if_moving tx : tx ∈ L → missing_markers tx = ∅ ∧ tx_ok (transaction tx) ∧
    readies p !! tx_hash (transaction tx) = None ∧ waiting p !! tx_hash (transaction tx) = None;
}.
Notation PoolInv n p := (InFlight n [] p).

Lemma pool_inv_empty : PoolInv 0 pool_empty.
Proof.
  split; [apply ready_inv_empty|apply pending_inv_empty|done..|constructor|set_solver].
Qed.

Lemma in_flight_more n n' L p : n ≤ n' → InFlight n L p → InFlight n' L p.
Proof. intros Hn []. split; try done. lia. Qed.
Lemma in_flight_perm n L L' p : L ≡ₚ L' → InFlight n L p → InFlight n L' p.
Proof.
  intros HL [? ? ? ? ? ? ? Hm]. split; try done; [by rewrite <- HL|by rewrite <- HL|]. intros tx. rewrite <- HL. apply Hm.
Qed.
Lemma in_flight_drop n tx L p : InFlight n (tx :: L) p → InFlight n L p.
Proof.
  intros [? ? ? ? ? Hc Hnd Hm]. cbn in *. split; try done; [lia|by apply NoDup_cons in Hnd as [_ ?]|].
  intros tx' ?. apply Hm. set_solver.
Qed.

(** ** From pending to ready *)
Section pool.
Context `{HashOrder}.

(** Marking [m] moves the transactions that wait for it. *)
Lemma unlock_ok n L m p :
  InFlight n L p →
  ∃ out p', at_pending (mark_and_unlock [m]) p = (Ok out, p') ∧ InFlight n (L ++ out) p' ∧
    ready_transactions p' = ready_transactions p ∧
    (∀ h t, waiting p' !! h = Some t ↔ waiting p !! h = Some t ∧ m ∉ missing_markers t) ∧
    (∀ tx, tx ∈ out → ∃ t, waiting p !! tx_hash (transaction tx) = Some t ∧ tx = unlocked t ∧ m ∈ missing_markers t) ∧
    (∀ h t, waiting p !! h = Some t → m ∈ missing_markers t → unlocked t ∈ out) ∧
    (size (waiting p') + length out = size (waiting p))%nat ∧
    (is_Some (provided p !! m) → out = [] ∧ p' = p) ∧ (out = [] → p' = p).
Proof.
  intros Hp. destruct (mark_and_unlock_ok m _ (if_pending _ _ _ Hp)) as (out & q & E & Hq & Hw & Hout & Hall & Hnd & Hsz & Hnil).
  exists out, (mkPoolInner (ready_transactions p) q). split_and!; [by unfold at_pending; rewrite E| |done|done|done|done|done| |].
  - split; cbn; try apply Hp; try done.
    + intros h Hh. destruct (waiting_queue q !! h) as [t|] eqn:Et; [|done]. apply Hw in Et as [Et _].
      by rewrite (if_apart _ _ _ Hp _ Hh) in Et.
    + intros h t m' [Ht _]%Hw. by apply (if_blocked _ _ _ Hp h).
    + pose proof (if_count _ _ _ Hp). rewrite length_app. lia.
    + rewrite fmap_app. apply NoDup_app. split_and!; [apply Hp| |done]. intros h (tx & -> & Htx)%list_elem_of_fmap (tx' & He & Htx')%list_elem_of_fmap.
      destruct (Hout _ Htx') as (t & Ht & _). destruct (if_moving _ _ _ Hp _ Htx) as (_ & _ & _ & Hn). cbn in He. congruence.
    + intros tx [Htx|Htx]%elem_of_app.
      * destruct (if_moving _ _ _ Hp _ Htx) as (? & ? & ? & Hn). split_and!; [done..|].
        destruct (waiting_queue q !! _) as [t|] eqn:Et; [|done]. apply Hw in Et as [Et _]. congruence.
      * destruct (Hout _ Htx) as (t & Ht & -> & Hin). cbn in *. destruct (pi_ok _ (if_pending _ _ _ Hp) _ _ Ht) as (_ & ? & _).
        split_and!; [done|done| |].
        -- destruct (readies p !! tx_hash (transaction t)) eqn:Er; [|done].
           rewrite (if_apart _ _ _ Hp) in Ht by eauto. done.
        -- destruct (waiting_queue q !! _) as [t'|] eqn:Et; [|done]. apply Hw in Et as [Et Hn]. congruence.
  - intros [h Hh]. assert (out = []) as ->.
    { destruct out as [|tx out]; [done|]. destruct (Hout tx) as (t & Ht & _ & Hin); [set_solver|].
      rewrite (if_blocked _ _ _ Hp _ _ _ Ht Hin) in Hh. done. }
    split; [done|]. rewrite Hnil by done. by destruct p.
  - intros ->. rewrite Hnil by done. by destruct p.
Qed.

(** The entry [x] of the new pool was there before. *)
Definition kept (p : PoolInner) (h : TxHash) (x : ReadyTransaction) : Prop :=
  ∃ y, readies p !! h = Some y ∧ ready_ref x = ready_ref y ∧ requires_offset x = requires_offset y.

(** One turn of [add_loop] after the unlocking. *)
Lemma place_tx_ok n tx L p m :
  InFlight n (tx :: L) p → n ≤ U64_MAX → provides (transaction tx) = [m] →
  (∀ h t, waiting p !! h = Some t → m ∉ missing_markers t) →
  (is_Some (provided p !! m) ∧ InFlight n L p ∧
    at_ready (ready_add tx) p = (Err (PoolErr (ReplacementUnderpriced (tx_hash (transaction tx)))), p) ∧
    ∃ h x, readies p !! h = Some x ∧ provides (ready_tx_of x) = [m] ∧ max_fee_per_gas (transaction tx) ≤ max_fee_per_gas (ready_tx_of x)) ∨
  (∃ out p', at_ready (ready_add tx) p = (Ok out, p') ∧ InFlight n L p' ∧ pending_transactions p' = pending_transactions p ∧
    provided p' = <[m:=tx_hash (transaction tx)]> (provided p) ∧
    (∀ h x, readies p' !! h = Some x →
      h = tx_hash (transaction tx) ∧ ready_tx_of x = transaction tx ∧ (settled x ↔ linked (transaction tx) (ready_transactions p) = None) ∨
      kept p h x) ∧
    (∀ t, t ∈ out → provides t = [m] ∧ max_fee_per_gas t < max_fee_per_gas (transaction tx)) ∧
    (∀ t, t ∈ out ↔ gone (ready_transactions p) (ready_transactions p') t)).
Proof.
  intros Hp Hn Hm Hfree. destruct (if_moving _ _ _ Hp tx) as (Hmiss & Hok & Hnr & Hnw); [set_solver|].
  pose proof (if_count _ _ _ Hp) as Hc. pose proof (if_id _ _ _ Hp) as Hid. cbn in Hc.
  destruct (ready_add_ok tx _ m (if_ready _ _ _ Hp) Hok Hm Hmiss Hnr ltac:(lia))
    as [(ho & xo & Hpo & Hxo & Hfee & E)|(out & r' & E & Hr' & Hid' & Hprov & Hent & Hgone & Hout)].
  - left. split_and!; [eauto|by eapply in_flight_drop|unfold at_ready; rewrite E; by destruct p|].
    exists ho, xo. split_and!; [done| |done]. apply (ri_provided _ _ (if_ready _ _ _ Hp)) in Hpo as (x & ? & ?). congruence.
  - right. exists out, (mkPoolInner r' (pending_transactions p)). split_and!; [by unfold at_ready; rewrite E| |done|done| |done|done].
    + split; cbn; try done; try apply Hp; try lia.
      * intros h [x Hx]. apply Hent in Hx as [(-> & _)|(y & Hy & _)]; [done|]. apply (if_apart _ _ _ Hp). eauto.
      * intros h t m' Ht Hin. rewrite Hprov. rewrite lookup_insert_ne by (intros ->; by eapply Hfree). by eapply (if_blocked _ _ _ Hp).
      * by apply (in_flight_drop _ _ _ _ Hp).
      * intros tx' Htx'. destruct (if_moving _ _ _ Hp tx') as (? & ? & Hnr' & ?); [set_solver|]. split_and!; [done..| |done].
        destruct (ready_tx r' !! tx_hash (transaction tx')) as [x|] eqn:Ex; [|done].
        apply Hent in Ex as [(Heq & _)|(y & Hy & _)]; [|congruence].
        pose proof (if_nodup _ _ _ Hp) as Hnd. cbn in Hnd. apply NoDup_cons in Hnd as [Hni _]. destruct Hni.
        apply list_elem_of_fmap. exists tx'. done.
    + intros h x Hx. apply Hent in Hx as [(? & ? & ?)|?]; [by left|by right].
Qed.

Lemma kept_settled p h x : kept p h x → ∃ y, readies p !! h = Some y ∧ ready_tx_of x = ready_tx_of y ∧ (settled x ↔ settled y).
Proof.
  intros (y & Hy & He & Ho). assert (Ht : ready_tx_of x = ready_tx_of y) by (unfold ready_tx_of; by rewrite He).
  exists y. split_and!; [done..|]. unfold settled. by rewrite Ht, Ho.
Qed.
Lemma kept_trans p p' h x : kept p' h x → (∀ y, readies p' !! h = Some y → kept p h y) → kept p h x.
Proof.
  intros (y & Hy & He & Ho) Hk. destruct (Hk y Hy) as (z & Hz & He' & Ho'). exists z. split_and!; [done|congruence|congruence].
Qed.

(** What the transactions [L] require is provided. *)
Definition linkable (L : list PendingPoolTransaction) (p : PoolInner) : Prop :=
  ∀ tx m, tx ∈ L → requires (transaction tx) = [m] → is_Some (provided p !! m).
(** [t] is one of [L] or was waiting. *)
Definition came (L : list PendingPoolTransaction) (p : PoolInner) (t : PoolTransaction) : Prop :=
  (∃ tx, tx ∈ L ∧ transaction tx = t) ∨ ∃ u, waiting p !! tx_hash t = Some u ∧ transaction u = t.
(** What the promotion of [L] does to the pool. *)
Definition promotes (L : list PendingPoolTransaction) (p p' : PoolInner) : Prop :=
  (∀ m, is_Some (provided p !! m) → is_Some (provided p' !! m)) ∧
  (∀ h t, waiting p' !! h = Some t → waiting p !! h = Some t) ∧
  ∀ h x, readies p' !! h = Some x → kept p h x ∨
    came L p (ready_tx_of x) ∧ (linkable L p → settled x ↔ requires (ready_tx_of x) = []).

(** One transaction of the queue: it is placed, or the one with its marker stays. *)
Lemma add_turn n tx L p m :
  InFlight n (tx :: L) p → n ≤ U64_MAX → provides (transaction tx) = [m] →
  ∃ out p1, at_pending (mark_and_unlock [m]) p = (Ok out, p1) ∧
    (size (waiting p1) + length out = size (waiting p))%nat ∧
    (∀ tx', tx' ∈ out → requires (transaction tx') = [m] ∧ ∃ t, waiting p !! tx_hash (transaction tx') = Some t ∧ transaction t = transaction tx') ∧
    ((at_ready (ready_add tx) p1 = (Err (PoolErr (ReplacementUnderpriced (tx_hash (transaction tx)))), p) ∧ p1 = p ∧ out = [] ∧
      is_Some (provided p !! m) ∧ InFlight n L p ∧
      ∃ h x, readies p !! h = Some x ∧ provides (ready_tx_of x) = [m] ∧ max_fee_per_gas (transaction tx) ≤ max_fee_per_gas (ready_tx_of x)) ∨
     (∃ repl p2, at_ready (ready_add tx) p1 = (Ok repl, p2) ∧ InFlight n (L ++ out) p2 ∧
      (∀ t, t ∈ repl → provides t = [m] ∧ ∃ x, readies p !! tx_hash t = Some x ∧ ready_tx_of x = t) ∧ promotes [tx] p p2 ∧
      provided p2 = <[m:=tx_hash (transaction tx)]> (provided p) ∧ waiting p2 = waiting p1)).
Proof.
  intros Hp Hn Hm. destruct (unlock_ok n _ m p Hp) as (out & p1 & E & Hp1 & Hr1 & Hw & Hout & Hall & Hsz & Hsome & _).
  exists out, p1. split_and!; [done|done| |].
  { intros tx' Htx'. destruct (Hout _ Htx') as (t & Ht & -> & Hin). cbn in *.
    destruct (pi_ok _ (if_pending _ _ _ Hp) _ _ Ht) as (_ & _ & m' & Hreq & Hmiss). rewrite Hmiss in Hin.
    assert (m' = m) as -> by set_solver. eauto. }
  destruct (place_tx_ok n tx (L ++ out) p1 m Hp1 Hn Hm) as [(Hpm & HL & E2 & Hx)|(repl & p2 & E2 & HL & Hq & Hprov & Hent & Hrepl & Hgone)].
  - intros h t [_ ?]%Hw. done.
  - left. rewrite Hr1 in Hpm. destruct (Hsome Hpm) as [-> ->]. rewrite app_nil_r in HL. split_and!; try done.
  - right. exists repl, p2. split_and!; [done|done| | |by rewrite Hprov, Hr1|by rewrite Hq].
    { intros t Ht. split; [by apply Hrepl|]. apply Hgone in Ht as (h & x & Hx & <- & _). rewrite Hr1 in Hx.
      exists x. by destruct (ri_ok _ _ (if_ready _ _ _ Hp) _ _ Hx) as [-> _]. }
    split_and!.
    + intros m' Hm'. rewrite Hprov, Hr1. destruct (decide (m' = m)) as [->|]; [rewrite lookup_insert_eq; eauto|by rewrite lookup_insert_ne].
    + intros h t. rewrite Hq. naive_solver.
    + intros h x Hx. apply Hent in Hx as [(-> & Hx & Hs)|Hk]; [|left; by unfold kept in *; rewrite Hr1 in Hk].
      right. split; [left; exists tx; set_solver|]. intros Hl. rewrite Hs, Hx, Hr1. unfold linked.
      destruct (if_moving _ _ _ Hp tx) as (_ & (m0 & _ & [Hq'|(m' & Hq' & _)]) & _); [set_solver| |]; rewrite Hq'; [done|]. cbn.
      destruct (Hl tx m') as [h Hh]; [set_solver|done|]. by rewrite Hh.
Qed.

Lemma promotes_refl p : promotes [] p p.
Proof. split_and!; [done|done|]. intros h x Hx. left. exists x. done. Qed.
Lemma promotes_step tx L out p p2 p' m :
  promotes [tx] p p2 → promotes (L ++ out) p2 p' → is_Some (provided p2 !! m) →
  (∀ tx', tx' ∈ out → requires (transaction tx') = [m] ∧ ∃ t, waiting p !! tx_hash (transaction tx') = Some t ∧ transaction t = transaction tx') →
  promotes (tx :: L) p p'.
Proof.
  intros (Hp1 & Hw1 & He1) (Hp2 & Hw2 & He2) Hm Hout. split_and!; [auto|auto|]. intros h x Hx.
  destruct (He2 h x Hx) as [Hk|[Hc Hs]].
  - destruct (kept_settled _ _ _ Hk) as (y & Hy & Ht & Hsy). destruct (He1 h y Hy) as [Hk'|[Hc Hs]].
    + left. eapply kept_trans; [done|]. intros y' Hy'. by simplify_eq.
    + right. rewrite Ht, Hsy. split.
      * destruct Hc as [(tx' & Htx' & ?)|?]; [left; exists tx'; set_solver|by right].
      * intros Hl. apply Hs. intros tx' m'' Htx'. apply Hl. set_solver.
  - right. split.
    + destruct Hc as [(tx' & [Htx'|Htx']%elem_of_app & He)|(u & Hu & He)].
      * left. exists tx'. set_solver.
      * right. destruct (Hout _ Htx') as (_ & t & Ht & He'). exists t. rewrite <- He, <- He' in *. done.
      * right. exists u. split; [by apply Hw1|done].
    + intros Hl. apply Hs. intros tx' m'' [Htx'|Htx']%elem_of_app Hreq; [apply Hp1, (Hl tx'); [set_solver|done]|].
      destruct (Hout _ Htx') as [Hreq' _]. rewrite Hreq' in Hreq. by simplify_eq.
Qed.

Lemma add_loop_cons fuel tx L b acc p :
  add_loop (S fuel) (tx :: L) b acc p =
  (unlocked ← at_pending (mark_and_unlock (provides (transaction tx)));
   added ← ptry (at_ready (ready_add tx));
   match added with
   | inr replaced =>
       add_loop fuel (L ++ unlocked) false
         (mkAddedReady (added_hash acc) (if b then promoted acc else promoted acc ++ [tx_hash (transaction tx)])
            (discarded acc) (removed acc ++ replaced))
   | inl err =>
       if b then pfail (PoolErr err)
       else add_loop fuel (L ++ unlocked) false
              (mkAddedReady (added_hash acc) (promoted acc) (discarded acc ++ [tx_hash (transaction tx)]) (removed acc))
   end) p.
Proof. by destruct b. Qed.
Lemma ptry_ok {S A} (c : PM S A) s a s' : c s = (Ok a, s') → ptry c s = (Ok (inr a), s').
Proof. intros E. unfold ptry. by rewrite E. Qed.
Lemma ptry_err {S A} (c : PM S A) s e s' : c s = (Err (PoolErr e), s') → ptry c s = (Ok (inl e), s').
Proof. intros E. unfold ptry. by rewrite E. Qed.

(** [t] was in the pool or is one of [L]. *)
Definition known (L : list PendingPoolTransaction) (p : PoolInner) (t : PoolTransaction) : Prop :=
  (∃ x, readies p !! tx_hash t = Some x ∧ ready_tx_of x = t) ∨ came L p t.
Lemma known_step tx L out p p2 t :
  promotes [tx] p p2 →
  (∀ tx', tx' ∈ out → ∃ t, waiting p !! tx_hash (transaction tx') = Some t ∧ transaction t = transaction tx') →
  known (L ++ out) p2 t → known (tx :: L) p t.
Proof.
  intros (_ & Hw & He) Hout [(x & Hx & <-)|[(tx' & [Htx'|Htx']%elem_of_app & <-)|(u & Hu & <-)]].
  - destruct (He _ _ Hx) as [(y & Hy & Hr & _)|[[(tx' & Htx' & <-)|Hc] _]].
    + left. exists y. split; [done|]. unfold ready_tx_of. by rewrite Hr.
    + right. left. exists tx'. set_solver.
    + right. by right.
  - right. left. exists tx'. set_solver.
  - right. right. by apply Hout.
  - right. right. exists u. split; [by apply Hw|done].
Qed.

Lemma add_loop_ok R F fuel n L acc p :
  InFlight n (L ++ F) p → n ≤ U64_MAX → (length L + size (waiting p) ≤ fuel)%nat →
  (∀ tx m, tx ∈ L → provides (transaction tx) = [m] → R < rank m) →
  ∃ res p', add_loop fuel L false acc p = (Ok res, p') ∧ InFlight n F p' ∧ added_hash res = added_hash acc ∧
    (∀ t, t ∈ removed res → t ∈ removed acc ∨ known L p t ∧ ∃ m, provides t = [m] ∧ R < rank m) ∧
    (∀ m, rank m ≤ R → provided p' !! m = provided p !! m) ∧ promotes L p p'.
Proof.
  revert L acc p. induction fuel as [|fuel IH]; intros [|tx L] acc p Hp Hn Hf HR; cbn in Hf; try lia.
  1, 2: exists acc, p; split_and!; [done|done|done|auto|done|apply promotes_refl].
  destruct (if_moving _ _ _ Hp tx) as (_ & (m & Hm & Hreq) & _); [set_solver|].
  assert (HRm : R < rank m) by (eapply HR; [|done]; set_solver).
  destruct (add_turn n tx (L ++ F) p m Hp Hn Hm) as (out & p1 & E & Hsz & Hout & Hcase).
  rewrite add_loop_cons, Hm, (pbind_ok _ _ _ _ _ E).
  destruct Hcase as [(E2 & -> & -> & Hpm & HL & _)|(repl & p2 & E2 & HL & Hrepl & Hprom & Hpm & Hw2)].
  - rewrite (pbind_ok _ _ _ _ _ (ptry_err _ _ _ _ E2)). rewrite app_nil_r in *.
    destruct (IH L (mkAddedReady (added_hash acc) (promoted acc) (discarded acc ++ [tx_hash (transaction tx)]) (removed acc)) p HL Hn)
      as (res & p' & E3 & Hp' & Hh & Hrem & Hlow & Hpr); [lia|intros ? ? ?; apply HR; set_solver|].
    assert (Hcame : ∀ t, came L p t → came (tx :: L) p t).
    { intros t [(tx' & ? & ?)|?]; [left; exists tx'; set_solver|by right]. }
    exists res, p'. split_and!; [done|done|done| |done|].
    + intros t Ht. destruct (Hrem t Ht) as [?|[[?|?] ?]]; [by left|right; split; [by left|done]|right; split; [right; auto|done]].
    + destruct Hpr as (? & ? & He). split_and!; [done|done|]. intros h x Hx. destruct (He h x Hx) as [?|[Hc Hs]]; [by left|right].
      split; [auto|]. intros Hl. apply Hs. intros tx' m' ?. apply Hl. set_solver.
  - rewrite (pbind_ok _ _ _ _ _ (ptry_ok _ _ _ _ E2)).
    assert (HL' : InFlight n ((L ++ out) ++ F) p2).
    { eapply in_flight_perm; [|exact HL]. rewrite <- !app_assoc. apply Permutation_app_head, Permutation_app_comm. }
    destruct (IH (L ++ out) (mkAddedReady (added_hash acc) (promoted acc ++ [tx_hash (transaction tx)]) (discarded acc) (removed acc ++ repl)) p2 HL' Hn)
      as (res & p' & E3 & Hp' & Hh & Hrem & Hlow & Hpr); [rewrite length_app, Hw2; lia| |].
    { intros tx' m' [Hin|Hin]%elem_of_app; [apply HR; set_solver|]. intros Hm'.
      destruct (if_moving _ _ _ HL tx') as (_ & (m0 & Hm0 & Hq) & _); [set_solver|]. rewrite Hm' in Hm0. simplify_eq.
      destruct (Hout _ Hin) as (Hreq' & _). rewrite Hreq' in Hq. destruct Hq as [Hq|(m2 & Hq & Hlt)]; simplify_eq. lia. }
    exists res, p'. split_and!; [done|done|done| | |].
    + intros t Ht. destruct (Hrem t Ht) as [Hin|[Hk ?]].
      * cbn in Hin. apply elem_of_app in Hin as [?|Hin]; [by left|]. destruct (Hrepl _ Hin) as [? ?]. right. split; [by left|eauto].
      * right. split; [|done]. eapply known_step; [done| |done]. intros tx' Htx'. by destruct (Hout _ Htx').
    + intros m' Hm'. rewrite Hlow by done. rewrite Hpm. apply lookup_insert_ne. intros ->. lia.
    + eapply promotes_step; [done|done|rewrite Hpm, lookup_insert_eq; eauto|done].
Qed.

(** ** Adding a transaction *)
Lemma add_ready_ok F n tx p :
  InFlight n (tx :: F) p → n ≤ U64_MAX →
  let hash := tx_hash (transaction tx) in
  (add_ready_transaction tx p = (Err (PoolErr (ReplacementUnderpriced hash)), p) ∧ InFlight n F p ∧
    ∃ h x, readies p !! h = Some x ∧ provides (ready_tx_of x) = provides (transaction tx) ∧
      max_fee_per_gas (transaction tx) ≤ max_fee_per_gas (ready_tx_of x)) ∨
  (∃ res p', add_ready_transaction tx p = (Ok (AddedAsReady res), p') ∧ InFlight n F p' ∧ added_hash res = hash ∧
    promotes [tx] p p' ∧ ∃ x, readies p' !! hash = Some x ∧ ready_tx_of x = transaction tx).
Proof.
  intros Hp Hn. cbv zeta. destruct (if_moving _ _ _ Hp tx) as (_ & (m & Hm & Hreq) & Hnr & _); [set_solver|].
  destruct (add_turn n tx F p m Hp Hn Hm) as (out & p1 & E & Hsz & Hout & Hcase).
  set (acc := mkAddedReady (tx_hash (transaction tx)) [] [] []).
  pose proof (add_loop_cons (size (waiting p)) tx [] true acc p) as Eloop. rewrite Hm, (pbind_ok _ _ _ _ _ E) in Eloop.
  destruct Hcase as [(E2 & -> & -> & Hpm & HL & Hx)|(repl & p2 & E2 & HL & Hrepl & Hprom & Hpm & Hw2)].
  { left. rewrite (pbind_ok _ _ _ _ _ (ptry_err _ _ _ _ E2)) in Eloop. split_and!; [|done|by rewrite Hm].
    unfold add_ready_transaction. rewrite pgets_bind. unfold mbind, PM_bind. fold acc. by rewrite Eloop. }
  right. rewrite (pbind_ok _ _ _ _ _ (ptry_ok _ _ _ _ E2)) in Eloop. cbn [app] in Eloop.
  assert (HL' : InFlight n (out ++ F) p2) by (eapply in_flight_perm; [apply Permutation_app_comm|done]).
  destruct (add_loop_ok (rank m) F (size (waiting p)) n out
    (mkAddedReady (added_hash acc) (promoted acc) (discarded acc) (removed acc ++ repl)) p2 HL' Hn)
    as (res & p' & E3 & Hp' & Hh & Hrem & Hlow & Hpr); [rewrite Hw2; lia| |rewrite E3 in Eloop].
  { intros tx' m' Hin Hm'. destruct (if_moving _ _ _ HL tx') as (_ & (m0 & Hm0 & Hq) & _); [set_solver|]. rewrite Hm' in Hm0. simplify_eq.
    destruct (Hout _ Hin) as (Hreq' & _). rewrite Hreq' in Hq. destruct Hq as [Hq|(m2 & Hq & Hlt)]; simplify_eq. done. }
  assert (Hm2 : provided p2 !! m = Some (tx_hash (transaction tx))) by (rewrite Hpm; apply lookup_insert_eq).
  destruct (proj1 (ri_provided _ _ (if_ready _ _ _ HL) _ _) Hm2) as (x2 & Hx2 & Hpx2).
  assert (Hex : existsb (λ t, tx_hash t =? tx_hash (transaction tx)) (removed res) = false).
  { apply not_true_iff_false. rewrite existsb_exists. intros (t & Ht%list_elem_of_In & He%Z.eqb_eq).
    destruct (Hrem t Ht) as [Hin|[Hk (m' & Hm' & Hlt)]].
    - destruct (Hrepl _ Hin) as (_ & x & Hx & _). congruence.
    - destruct Hk as [(x & Hx & <-)|[(tx' & Hin & <-)|(u & Hu & _)]].
      + rewrite He in Hx. simplify_eq. rewrite Hpx2 in Hm'. simplify_eq. lia.
      + destruct (if_moving _ _ _ HL tx') as (_ & _ & Hn' & _); [set_solver|]. congruence.
      + rewrite He, (if_apart _ _ _ HL) in Hu by eauto. done. }
  exists res, p'. split_and!; [|done|done| |].
  - unfold add_ready_transaction. rewrite pgets_bind. fold acc. rewrite (pbind_ok _ _ _ _ _ Eloop). by rewrite Hex.
  - eapply (promotes_step tx [] out); [done|done|eauto|done].
  - assert (Hm' : provided p' !! m = Some (tx_hash (transaction tx))) by (rewrite Hlow; done).
    destruct (proj1 (ri_provided _ _ (if_ready _ _ _ Hp') _ _) Hm') as (x & Hx & Hpx). exists x. split; [done|].
    destruct Hpr as (_ & _ & He). destruct (He _ _ Hx) as [(y & Hy & Hr & _)|[[(tx' & Hin & Ht)|(u & Hu & Ht)] _]].
    + unfold ready_tx_of. rewrite Hr. rewrite Hx2 in Hy. simplify_eq.
      destruct Hprom as (_ & _ & He'). destruct (He' _ _ Hx2) as [(z & Hz & _)|[[(tx' & ->%list_elem_of_singleton & ->)|(u & Hu & _)] _]]; [congruence|done|].
      destruct (ri_ok _ _ (if_ready _ _ _ HL) _ _ Hx2) as [Hh2 _]. rewrite Hh2 in Hu.
      destruct (if_moving _ _ _ Hp tx) as (_ & _ & _ & Hnw); [set_solver|]. congruence.
    + destruct (if_moving _ _ _ HL tx') as (_ & _ & Hn' & _); [set_solver|].
      destruct (ri_ok _ _ (if_ready _ _ _ Hp') _ _ Hx) as [Hh' _]. rewrite Ht, Hh' in Hn'. congruence.
    + destruct (ri_ok _ _ (if_ready _ _ _ Hp') _ _ Hx) as [Hh' _]. rewrite Hh', (if_apart _ _ _ HL) in Hu by eauto. done.
Qed.

Lemma pending_new_cases (t : PoolTransaction) (P : gmap TxMarker TxHash) : tx_ok t →
  (missing_markers (pending_new t P) = ∅ ∧ ∀ m, requires t = [m] → is_Some (P !! m)) ∨
  (∃ m, requires t = [m] ∧ P !! m = None ∧ missing_markers (pending_new t P) = {[m]}).
Proof.
  intros (m0 & _ & [Hq|(m & Hq & _)]); unfold pending_new; cbn; rewrite Hq; [left; by split|].
  rewrite filter_cons, filter_nil. destruct (P !! m) as [h|] eqn:E.
  - left. rewrite decide_False by done. split; [done|]. intros m' ?. simplify_eq. eauto.
  - right. exists m. rewrite decide_True by done. split_and!; [done..|]. cbn. set_solver.
Qed.

(** What [add_transaction] does: the transaction joins the ready ones and takes those that waited
    for it along, or it waits, or it is refused and nothing changes. *)
Lemma add_transaction_ok n (t : PoolTransaction) (p : PoolInner) :
  PoolInv n p → n + 1 ≤ U64_MAX → tx_ok t →
  ∃ res p', add_transaction t p = (res, p') ∧ PoolInv (n + 1) p' ∧
    match res with
    | Ok (AddedAsReady a) => added_hash a = tx_hash t ∧ contains p (tx_hash t) = false ∧
        promotes [mkPendingPoolTransaction t ∅] p p' ∧ linkable [mkPendingPoolTransaction t ∅] p ∧
        ∃ x, readies p' !! tx_hash t = Some x ∧ ready_tx_of x = t
    | Ok (AddedAsPending h) => h = tx_hash t ∧ ready_transactions p' = ready_transactions p ∧
        ∃ m, requires t = [m] ∧ waiting p' = <[h:=mkPendingPoolTransaction t {[m]}]> (waiting p)
    | Err e => p' = p ∧ (e = PoolErr (AlreadyImported (tx_hash t)) ∧ contains p (tx_hash t) = true ∨
        e = PoolErr (ReplacementUnderpriced (tx_hash t)) ∧ ∃ t', (came [] p t' ∨ ∃ h x, readies p !! h = Some x ∧ ready_tx_of x = t') ∧
          provides t' = provides t ∧ max_fee_per_gas t ≤ max_fee_per_gas t')
    end.
Proof.
  intros Hp Hn Hok. unfold add_transaction. rewrite pgets_bind.
  destruct (contains p (tx_hash t)) eqn:Ec.
  { exists (Err (PoolErr (AlreadyImported (tx_hash t)))), p. split_and!; [done|eapply in_flight_more; [|done]; lia|done|by left]. }
  unfold contains in Ec. apply orb_false_iff in Ec as [Hnw Hnr]. apply bool_decide_eq_false, eq_None_not_Some in Hnw, Hnr.
  rewrite pgets_bind. destruct (pending_new_cases t (provided p) Hok) as [[Hmiss Hl]|(m & Hreq & Hpm & Hmiss)].
  - assert (Hnew : pending_new t (provided p) = mkPendingPoolTransaction t ∅) by (unfold pending_new in *; cbn in Hmiss; by rewrite Hmiss).
    rewrite Hnew. unfold is_ready. cbn [missing_markers]. rewrite bool_decide_eq_true_2 by done.
    assert (HF : InFlight (n + 1) [mkPendingPoolTransaction t ∅] p).
    { destruct Hp. split; cbn in *; try done; try lia; [apply NoDup_singleton|by intros tx ->%list_elem_of_singleton]. }
    destruct (add_ready_ok [] (n + 1) _ p HF ltac:(lia)) as [(E & Hp' & h & x & Hx & Hpx & Hfee)|(res & p' & E & Hp' & Hh & Hpr & Hx)].
    + eexists _, p. split; [exact E|]. split_and!; [done|done|]. right. split; [done|]. exists (ready_tx_of x). cbn in *. split_and!; [right; eauto|done..].
    + eexists _, p'. split; [exact E|]. split_and!; [done|done|done|done| |done].
      intros tx m ->%list_elem_of_singleton. apply Hl.
  - assert (Hnew : pending_new t (provided p) = mkPendingPoolTransaction t {[m]}) by (unfold pending_new in *; cbn in Hmiss; by rewrite Hmiss).
    rewrite Hnew. unfold is_ready. cbn [missing_markers]. rewrite bool_decide_eq_false_2 by set_solver.
    destruct (pending_add_ok (mkPendingPoolTransaction t {[m]}) m _ (if_pending _ _ _ Hp)) as [(h & u & Hu & Hpu & Hfee & E)|(q & E & Hq & Hw)];
      try done; cbn [transaction] in *.
    + eexists _, p. split; [unfold mbind, PM_bind, at_pending; rewrite E; by destruct p|]. split_and!; [eapply in_flight_more; [|done]; lia|done|].
      right. split; [done|]. exists (transaction u). split_and!; [|done|done]. left. right. exists u.
      by destruct (pi_ok _ (if_pending _ _ _ Hp) _ _ Hu) as [-> _].
    + eexists _, (mkPoolInner (ready_transactions p) q). split; [unfold mbind, PM_bind, at_pending; by rewrite E|]. split_and!; [ |done|done|eauto].
      split; cbn; try apply Hp; try done.
      * intros h Hh. rewrite Hw, lookup_insert_ne; [by apply (if_apart _ _ _ Hp)|]. intros <-. rewrite Hnr in Hh. by destruct Hh.
      * intros h u m'. rewrite Hw. intros [[<- <-]|[_ Hu]]%lookup_insert_Some; [cbn; set_solver|by apply (if_blocked _ _ _ Hp h)].
      * pose proof (if_count _ _ _ Hp) as Hc. rewrite Hw, map_size_insert_None by done. cbn in *. lia.
      * set_solver.
Qed.

(** ** Removing transactions *)
Definition reduces (p p' : PoolInner) : Prop :=
  shrinks (ready_transactions p) (ready_transactions p') ∧ (∀ h t, waiting p' !! h = Some t → waiting p !! h = Some t).
Global Instance reduces_preorder : PreOrder reduces.
Proof. split; [intros p; by split|]. intros p1 p2 p3 [H1 ?] [H2 ?]. split; [by etransitivity|auto]. Qed.

Lemma reduces_inv n L p p' : InFlight n L p → ReadyInv [] (ready_transactions p') → PendingInv (pending_transactions p') →
  reduces p p' → InFlight n L p'.
Proof.
  intros Hp Hr Hq [Hs Hw]. destruct (Hs) as [Hid Hent]. split; try done; try apply Hp.
  - intros h [x Hx]. apply Hent in Hx as (y & Hy & _). destruct (waiting p' !! h) as [t|] eqn:E; [|done].
    apply Hw in E. rewrite (if_apart _ _ _ Hp) in E by eauto. done.
  - intros h t m Ht Hin. eapply shrinks_provided; [apply Hp|done|done|]. by eapply (if_blocked _ _ _ Hp); [apply Hw|].
  - rewrite Hid. apply Hp.
  - pose proof (if_count _ _ _ Hp) as Hc. rewrite Hid.
    assert (size (waiting p') ≤ size (waiting p))%nat; [|lia]. apply map_subseteq_size, map_subseteq_spec. auto.
  - intros tx Htx. destruct (if_moving _ _ _ Hp tx Htx) as (? & ? & Hnr & Hnw). split_and!; [done..| |].
    + by eapply shrinks_gone.
    + destruct (waiting p' !! _) eqn:E; [|done]. apply Hw in E. congruence.
Qed.

(** As [reduces], with the requirements of the ready transactions met as before. *)
Definition trimmed (p p' : PoolInner) : Prop :=
  trims (ready_transactions p) (ready_transactions p') ∧ (∀ h t, waiting p' !! h = Some t → waiting p !! h = Some t).
Global Instance trimmed_preorder : PreOrder trimmed.
Proof. split; [intros p; by split|]. intros p1 p2 p3 [H1 ?] [H2 ?]. split; [by etransitivity|auto]. Qed.
Lemma trimmed_reduces p p' : trimmed p p' → reduces p p'.
Proof. intros [? ?]. split; [by apply trims_shrinks|done]. Qed.

Lemma remove_ready_ok n L hs p : InFlight n L p →
  ∃ out p', at_ready (remove_with_markers hs None) p = (Ok out, p') ∧ InFlight n L p' ∧ trimmed p p' ∧
    (∀ h, h ∈ hs → readies p' !! h = None) ∧ pending_transactions p' = pending_transactions p ∧
    (∀ t, t ∈ out ↔ gone (ready_transactions p) (ready_transactions p') t).
Proof.
  intros Hp. destruct (remove_with_markers_ok hs _ (if_ready _ _ _ Hp)) as (out & r' & E & Hr' & Hs & Hgone & Hout).
  exists out, (mkPoolInner r' (pending_transactions p)). assert (Hred : trimmed p (mkPoolInner r' (pending_transactions p))) by (by split).
  split_and!; [by unfold at_ready; rewrite E|by eapply reduces_inv; [| |apply Hp|by apply trimmed_reduces]|done..].
Qed.

Lemma remove_invalid_ok n L hs p : InFlight n L p →
  ∃ out p', remove_invalid hs p = (Ok out, p') ∧ InFlight n L p' ∧ trimmed p p' ∧ ∀ h, h ∈ hs → contains p' h = false.
Proof.
  intros Hp. unfold remove_invalid. destruct (decide (hs = [])) as [->|Hne].
  { exists [], p. split_and!; [done|done|done|set_solver]. }
  destruct (remove_ready_ok n L hs p Hp) as (out & p1 & E & Hp1 & Hred1 & Hgone & Hpen & _).
  destruct (pending_remove_ok hs _ (if_pending _ _ _ Hp1)) as (out' & q & E' & Hq & Hw & _).
  exists (out ++ out'), (mkPoolInner (ready_transactions p1) q).
  assert (Hred : trimmed p1 (mkPoolInner (ready_transactions p1) q)) by (split; [done|]; intros h t [? _]%Hw; done).
  split_and!; [|by eapply reduces_inv; [|apply Hp1| |apply trimmed_reduces]|by etransitivity|].
  - rewrite (pbind_ok _ _ _ _ _ E). unfold mbind, PM_bind, at_pending. by rewrite E'.
  - intros h Hh. unfold contains. cbn. rewrite Hgone by done. apply orb_false_iff. split; apply bool_decide_eq_false_2.
    + intros [t [_ Hn]%Hw]. done.
    + by intros [].
Qed.

Lemma drop_transaction_ok n h p : PoolInv n p →
  ∃ out p', drop_transaction h p = (Ok out, p') ∧ PoolInv n p' ∧ trimmed p p' ∧ readies p' !! h = None ∧
    out = ready_tx_of <$> readies p !! h.
Proof.
  intros Hp. unfold drop_transaction. destruct (remove_ready_ok n [] [h] p Hp) as (out & p' & E & Hp' & Hred & Hgone & _ & Hout).
  eexists _, p'. rewrite (pbind_ok _ _ _ _ _ E). split_and!; [done|done|done|apply Hgone; set_solver|].
  assert (Hn : readies p' !! h = None) by (apply Hgone; set_solver).
  destruct (readies p !! h) as [x|] eqn:Ex; cbn.
  - destruct (ri_ok _ _ (if_ready _ _ _ Hp) _ _ Ex) as [Hh _].
    assert (Hin : ready_tx_of x ∈ out) by (apply Hout; exists h, x; done).
    destruct (list_find_elem_of (λ t, tx_hash t = h) _ _ Hin Hh) as [[i t] Hf]. rewrite Hf. cbn. f_equal.
    apply list_find_Some in Hf as (Ht & Hth & _). apply list_elem_of_lookup_2, Hout in Ht as (k & y & Hy & <- & _).
    destruct (ri_ok _ _ (if_ready _ _ _ Hp) _ _ Hy) as [Hk _]. congruence.
  - destruct (list_find _ out) as [[i t]|] eqn:Hf; [|done]. apply list_find_Some in Hf as (Ht & Hth & _).
    apply list_elem_of_lookup_2, Hout in Ht as (k & y & Hy & <- & _). destruct (ri_ok _ _ (if_ready _ _ _ Hp) _ _ Hy) as [Hk _]. congruence.
Qed.

Lemma remove_by_address_ok n a p : PoolInv n p →
  ∃ out p', remove_transactions_by_address a p = (Ok out, p') ∧ PoolInv n p' ∧ trimmed p p' ∧
    ∀ h t, get_transaction p' h = Some t → pt_sender t ≠ a.
Proof.
  intros Hp. unfold remove_transactions_by_address. rewrite pgets_bind. unfold transactions_by_sender.
  destruct (collect_yields (if_ready _ _ _ Hp)) as (txs & -> & Hy). cbn [mbind option_bind].
  set (hs := tx_hash <$> _). destruct (remove_invalid_ok n [] hs p Hp) as (out & p' & E & Hp' & Htrim & Hgone).
  exists out, p'. split_and!; [done..|]. intros h t Ht <-. destruct Htrim as [[_ Hrt] Hwt].
  unfold get_transaction in Ht. destruct (waiting p' !! h) as [u|] eqn:Eu.
  - simplify_eq. assert (Hh : h ∈ hs); [|apply Hgone in Hh; unfold contains in Hh; rewrite Eu in Hh; done].
    pose proof (Hwt _ _ Eu) as Eu0. destruct (pi_ok _ (if_pending _ _ _ Hp) _ _ Eu0) as [<- _].
    apply list_elem_of_fmap_2. apply elem_of_app. left. apply list_elem_of_filter. split; [done|].
    unfold pending_transactions_of. apply list_elem_of_omap. exists (tx_hash (transaction u)). rewrite Eu0. split; [|done].
    rewrite set_iter_perm. apply elem_of_elements, elem_of_dom. eauto.
  - destruct (readies p' !! h) as [x|] eqn:Ex; [|done]. cbn in Ht. simplify_eq.
    assert (Hh : h ∈ hs); [|apply Hgone in Hh; unfold contains in Hh; rewrite Ex in Hh; by rewrite orb_true_r in Hh].
    destruct (Hrt _ _ Ex) as (y & Hy' & He & _). destruct (ri_ok _ _ (if_ready _ _ _ Hp) _ _ Hy') as [<- _].
    apply list_elem_of_fmap_2. apply elem_of_app. right. apply list_elem_of_filter. split; [unfold ready_tx_of; by rewrite He|].
    eapply (yields_all (if_ready _ _ _ Hp) []); [done|done|set_solver].
Qed.

(** ** Mined blocks *)
Lemma prune_marker_ok n L m p : InFlight n L p →
  ∃ imports pruned p', prune_marker m p = (Ok (imports, pruned), p') ∧ InFlight n (L ++ imports) p' ∧ reduces p p' ∧ provided p' !! m = None.
Proof.
  intros Hp. destruct (unlock_ok n L m p Hp) as (out & p1 & E & Hp1 & Hr1 & Hw & _).
  destruct (prune_tags_ok m _ (if_ready _ _ _ Hp1)) as (pruned & r' & E' & Hr' & Hs & Hm & _).
  exists out, pruned, (mkPoolInner r' (pending_transactions p1)).
  assert (Hred : reduces p1 (mkPoolInner r' (pending_transactions p1))) by (by split).
  split_and!; [|by eapply reduces_inv; [| |apply Hp1|]| |done].
  - unfold prune_marker. rewrite (pbind_ok _ _ _ _ _ E). unfold mbind, PM_bind, at_ready. by rewrite E'.
  - rewrite <- Hred. split; [by rewrite Hr1|]. by intros h t [? _]%Hw.
Qed.

Lemma prune_loop_pool_ok n L ms p : InFlight n L p →
  ∃ parts p', pcollect (λ m, part ← prune_marker m; mret [part]) ms p = (Ok parts, p') ∧
    InFlight n (L ++ concat (fst <$> parts)) p' ∧ reduces p p' ∧ ∀ m, m ∈ ms → provided p' !! m = None.
Proof.
  revert L p. induction ms as [|m ms IH]; intros L p Hp; cbn [pcollect].
  { exists [], p. cbn. rewrite app_nil_r. split_and!; [done..|set_solver]. }
  destruct (prune_marker_ok n L m p Hp) as (imports & pruned & p1 & E & Hp1 & Hred1 & Hm).
  destruct (IH _ p1 Hp1) as (parts & p' & E' & Hp' & Hred & Hms).
  exists ((imports, pruned) :: parts), p'. split_and!.
  - rewrite (pbind_ok _ _ _ [(imports, pruned)] p1) by (by rewrite (pbind_ok _ _ _ _ _ E)). by rewrite (pbind_ok _ _ _ _ _ E').
  - cbn. by rewrite app_assoc.
  - by etransitivity.
  - intros m' [->|?]%elem_of_cons; [|by apply Hms]. eapply shrinks_provided; [apply Hp1|apply Hp'|apply Hred|done].
Qed.

Lemma promote_loop_ok n L p : InFlight n L p → n ≤ U64_MAX →
  ∃ out p', pcollect (λ tx, res ← promote tx; mret [res]) L p = (Ok out, p') ∧ PoolInv n p'.
Proof.
  revert p. induction L as [|tx L IH]; intros p Hp Hn; cbn [pcollect]; [by exists [], p|].
  assert (Hstep : ∃ res p1, promote tx p = (Ok res, p1) ∧ InFlight n L p1).
  { unfold promote. destruct (add_ready_ok L n tx p Hp Hn) as [(E & Hp1 & _)|(res & p1 & E & Hp1 & _)].
    - rewrite (pbind_ok _ _ _ _ _ (ptry_err _ _ _ _ E)). eauto.
    - rewrite (pbind_ok _ _ _ _ _ (ptry_ok _ _ _ _ E)). eauto. }
  destruct Hstep as (res & p1 & E & Hp1). destruct (IH p1 Hp1 Hn) as (out & p' & E' & Hp').
  exists (res :: out), p'. split; [|done].
  rewrite (pbind_ok _ _ _ [res] p1) by (by rewrite (pbind_ok _ _ _ _ _ E)). by rewrite (pbind_ok _ _ _ _ _ E').
Qed.

Lemma prune_markers_ok n ms p : PoolInv n p → n ≤ U64_MAX →
  ∃ res p', prune_markers ms p = (Ok res, p') ∧ PoolInv n p'.
Proof.
  intros Hp Hn. destruct (prune_loop_pool_ok n [] ms p Hp) as (parts & p1 & E & Hp1 & _).
  destruct (promote_loop_ok n _ p1 Hp1 Hn) as (out & p' & E' & Hp').
  eexists _, p'. split; [|done]. unfold prune_markers. rewrite (pbind_ok _ _ _ _ _ E), (pbind_ok _ _ _ _ _ E'). done.
Qed.

Lemma mined_ok n included invalid p : PoolInv n p → n ≤ U64_MAX →
  ∃ res p', on_mined_block included invalid p = (Ok res, p') ∧ PoolInv n p'.
Proof.
  intros Hp Hn. destruct (remove_invalid_ok n [] (tx_hash <$> invalid) p Hp) as (out & p1 & E & Hp1 & _).
  destruct (prune_markers_ok n (concat (provides <$> included)) p1 Hp1 Hn) as (res & p' & E' & Hp').
  exists res, p'. split; [|done]. unfold on_mined_block. by rewrite (pbind_ok _ _ _ _ _ E).
Qed.

Lemma clear_ok n p : PoolInv n p → ∃ p', pool_clear p = (Ok tt, p') ∧ PoolInv n p' ∧ ready_tx (ready_transactions p') = ∅ ∧ waiting p' = ∅.
Proof.
  intros Hp. eexists. split; [done|]. split; [|done]. pose proof (if_id _ _ _ Hp). pose proof (if_count _ _ _ Hp) as Hc. cbn in Hc.
  split; cbn; [apply ready_inv_empty|apply pending_inv_empty|done|done|done| |constructor|set_solver]. rewrite map_size_empty. lia.
Qed.
End pool.
