(* ===== verification/TxPoolNode.v ===== *)
(** * The users of the transaction pool

    The RPC handlers that submit transactions ([eth/api.rs]), the account nonce of the pending
    block ([eth/backend/mem/mod.rs]), the miner that takes transactions from the pool
    ([eth/miner.rs]) and the executor that builds a block from them ([eth/backend/executor.rs]).
    The EVM is the parameter [BlockExecutor]. *)
From Stdlib Require Import ZArith Lia.
From stdpp Require Import base tactics option list fin_maps gmap fin_sets.
From S2P Require Import Prelude Base TxPool.
Open Scope Z_scope.

(** ** Nonces of requests *)

(** The nonce check of [validate_pool_transaction_for]. *)
Definition is_tempo (tx : PendingTransaction) : bool := bool_decide (is_Some (pt_nonce_key tx)).
Definition nonce_too_low (tx : PendingTransaction) (account_nonce : Z) : bool :=
  (pt_nonce tx <? account_nonce) && negb (pt_is_deposit tx) && negb (is_tempo tx).

(** [Iterator::max]. *)
Definition iter_max (l : list Z) : option Z :=
  match l with [] => None | x :: l => Some (fold_left Z.max l x) end.

Definition get_pool_transactions_nonce (pool_transactions : list PoolTransaction) (address : Address) : option Z :=
  highest_nonce ← iter_max (pt_nonce <$> filter (λ tx, pt_sender tx = address) (pending_transaction <$> pool_transactions));
  Some (saturating_add U64_MAX highest_nonce 1).

(** [get_nonce] of the pending block: the ready transactions over the state of the chain. *)
Definition get_nonce_pending (account_nonce : Address → Z) (pool_transactions : list PoolTransaction) (address : Address) : Z :=
  match get_pool_transactions_nonce pool_transactions address with
  | Some value => value
  | None => account_nonce address
  end.

Definition request_nonce (account_nonce : Address → Z) (pool_transactions : list PoolTransaction)
    (nonce : option Z) (from : Address) : Z * Z :=
  let highest_nonce := get_nonce_pending account_nonce pool_transactions from in
  (default highest_nonce nonce, highest_nonce).

(** [send_transaction] and [eth_send_unsigned_transaction], from the markers on. *)
Definition requested (order : TransactionOrder) (on_chain_nonce : Z) (tx : PendingTransaction) : PoolTransaction :=
  mkPoolTransaction tx (required_marker (pt_nonce tx) on_chain_nonce (pt_sender tx))
    [to_marker (pt_nonce tx) (pt_sender tx)] (order_priority order tx).

(** ** Execution of a block *)
Record AccountInfo := mkAccountInfo { acc_nonce : Z; acc_balance : Z }.

(** What the executor says of a transaction: its state after the commit, or why there is none. *)
Inductive Transacted (C : Type) := Executed (c : C) | NotValidYet | Invalid | OtherError.
Arguments Executed {C} c.
Arguments NotValidYet {C}.
Arguments Invalid {C}.
Arguments OtherError {C}.

(** The block executor: the accounts of its database ([None] for a database error), the gas of the last
    receipt, and the execution of a transaction. *)
Class BlockExecutor (C : Type) := {
  basic : C → Address → option AccountInfo;
  cumulative_gas_used : C → Z;
  transact : C → PendingTransaction → Transacted C;
}.

Record PoolTxGasConfig := mkPoolTxGasConfig {
  disable_block_gas_limit : bool;
  tx_gas_limit_cap : option Z;
  tx_gas_limit_cap_resolved : Z;
  max_blob_gas_per_block : Z;
  is_cancun : bool;
}.

(** The fields of [TransactionInfo] that do not come from the EVM. *)
Record TransactionInfo := mkTransactionInfo {
  info_transaction_hash : TxHash;
  info_transaction_index : Z;
  info_from : Address;
  info_nonce : Z;
}.
Record ExecutedPoolTransactions := mkExecuted {
  included : list PoolTransaction;
  invalid : list PoolTransaction;
  not_yet_valid : list PoolTransaction;
  tx_info : list TransactionInfo;
  txs : list PendingTransaction;
}.

Section executor.
Context `{BlockExecutor C}.
Variables (gas_limit : Z) (gas_config : PoolTxGasConfig) (validator : PendingTransaction → AccountInfo → bool).

(** One turn of the loop, on the executor, [blob_gas_used] and what was collected. *)
Definition execute_pool_transaction (s : C * Z * ExecutedPoolTransactions) (pool_tx : PoolTransaction)
    : C * Z * ExecutedPoolTransactions :=
  let '(executor, blob_gas_used, res) := s in
  let pending := pending_transaction pool_tx in
  match basic executor (pt_sender pending) with
  | None => s
  | Some account =>
      let max_block_gas := saturating_add U64_MAX (cumulative_gas_used executor) (pt_gas_limit pending) in
      if negb (disable_block_gas_limit gas_config) && (gas_limit <? max_block_gas) then s
      else if bool_decide (tx_gas_limit_cap gas_config = None) && (tx_gas_limit_cap_resolved gas_config <? pt_gas_limit pending) then s
      else
        let tx_blob_gas := default 0 (pt_blob_gas_used pending) in
        if max_blob_gas_per_block gas_config <? saturating_add U64_MAX blob_gas_used tx_blob_gas then s
        else if negb (validator pending account) then
          (executor, blob_gas_used, mkExecuted (included res) (invalid res ++ [pool_tx]) (not_yet_valid res) (tx_info res) (txs res))
        else
          match transact executor pending with
          | Executed executor =>
              let info := mkTransactionInfo (tx_hash pool_tx) (Z.of_nat (length (tx_info res))) (pt_sender pending) (acc_nonce account) in
              (executor, if is_cancun gas_config then saturating_add U64_MAX blob_gas_used tx_blob_gas else blob_gas_used,
               mkExecuted (included res ++ [pool_tx]) (invalid res) (not_yet_valid res) (tx_info res ++ [info]) (txs res ++ [pending]))
          | NotValidYet =>
              (executor, blob_gas_used, mkExecuted (included res) (invalid res) (not_yet_valid res ++ [pool_tx]) (tx_info res) (txs res))
          | Invalid =>
              (executor, blob_gas_used, mkExecuted (included res) (invalid res ++ [pool_tx]) (not_yet_valid res) (tx_info res) (txs res))
          | OtherError => s
          end
  end.
Definition execute_pool_transactions (executor : C) (pool_transactions : list PoolTransaction) : C * ExecutedPoolTransactions :=
  let '(executor, _, res) := fold_left execute_pool_transaction pool_transactions (executor, 0, mkExecuted [] [] [] [] []) in
  (executor, res).

(** [mine_one]: a block of the ready transactions, which the pool is then told of. *)
Definition mine_block `{HashOrder} (executor : C) (pool_transactions : list PoolTransaction) (p : PoolInner)
    : C * (result Failure PruneResult * PoolInner) :=
  let '(executor, res) := execute_pool_transactions executor pool_transactions in
  (executor, on_mined_block (included res) (invalid res) p).
Definition mine_one `{HashOrder} (executor : C) (p : PoolInner) : C * (result Failure PruneResult * PoolInner) :=
  match collect (ready_transactions p) with
  | Some transactions => mine_block executor transactions p
  | None => (executor, (Err NoFuel, p))
  end.
End executor.

(** ** The miner *)
Record ReadyTransactionMiner := mkReadyMiner { max_transactions : nat; has_pending_txs : option bool }.

(** [Poll::Pending] is [None].  [notified]: the channel of ready hashes was not empty. *)
Definition ready_miner_poll (notified : bool) (r : ReadyTransactions) (m : ReadyTransactionMiner)
    : option (list PoolTransaction) * ReadyTransactionMiner :=
  let m := if notified then mkReadyMiner (max_transactions m) (Some true) else m in
  if bool_decide (has_pending_txs m = Some false) then (None, m)
  else
    let transactions := fst (take_next (max_transactions m) (get_transactions r)) in
    let m := mkReadyMiner (max_transactions m) (Some (max_transactions m <=? length transactions)%nat) in
    (if decide (transactions = []) then None else Some transactions, m).

(** [collect] returns, by [collect_yields]. *)
Definition fixed_miner_poll (tick : bool) (r : ReadyTransactions) : option (list PoolTransaction) :=
  if tick then Some (default [] (collect r)) else None.

Inductive MiningMode := NoMining | Auto (m : ReadyTransactionMiner) | FixedBlockTime | Mixed (m : ReadyTransactionMiner).

(** Appends the transactions of [txs] that are not there yet. *)
Definition combine_unique (auto_txs txs : list PoolTransaction) : list PoolTransaction :=
  fold_left (λ acc tx, if existsb (λ t, tx_hash t =? tx_hash tx) acc then acc else acc ++ [tx]) txs auto_txs.

Definition mode_poll (notified tick : bool) (r : ReadyTransactions) (mode : MiningMode) : option (list PoolTransaction) * MiningMode :=
  match mode with
  | NoMining => (None, mode)
  | Auto m => let '(res, m) := ready_miner_poll notified r m in (res, Auto m)
  | FixedBlockTime => (fixed_miner_poll tick r, mode)
  | Mixed m =>
      let '(auto_txs, m) := ready_miner_poll notified r m in
      let fixed_txs := fixed_miner_poll tick r in
      (match auto_txs, fixed_txs with
       | Some auto_txs, Some fixed_txs => Some (combine_unique auto_txs fixed_txs)
       | Some auto_txs, None => Some auto_txs
       | None, fixed_txs => fixed_txs
       end, Mixed m)
  end.

Record Miner := mkMiner { mode : MiningMode; force_transactions : option (list PoolTransaction) }.
Definition miner_poll (notified tick : bool) (r : ReadyTransactions) (m : Miner) : option (list PoolTransaction) * Miner :=
  match mode_poll notified tick r (mode m) with
  | (None, mode) => (None, mkMiner mode (force_transactions m))
  | (Some next, mode) =>
      match force_transactions m with
      | Some transactions => (Some (transactions ++ next), mkMiner mode None)
      | None => (Some next, mkMiner mode None)
      end
  end.
