(* ===== verification/TxPoolHistory.v ===== *)
(** * Histories of the pool

    Any sequence of operations on a new pool, with transactions the RPC handlers submit: no operation panics
    or hangs, the errors are the two the caller can cause, and the parts of the pool agree. *)
From Stdlib Require Import ZArith Lia.
From stdpp Require Import base tactics option list fin_maps gmap fin_sets.
From S2P Require Import Prelude Base TxPool TxPoolReady TxPoolPending TxPoolOrder TxPoolProps TxPoolNode.
Open Scope Z_scope.

Local Arguments rank : simpl never.
Local Arguments to_marker : simpl never.

(** ** Submitted transactions *)
Lemma rank_marker n a : 0 ≤ n ≤ U64_MAX → rank (to_marker n a) = n.
Proof.
  intros Hn. unfold rank, to_marker. rewrite take_app_length' by (by rewrite length_rev, be_bytes_length).
  rewrite rev_involutive, bytes_value_be. apply Z.mod_small. unfold U64_MAX in Hn. lia.
Qed.

Lemma required_marker_cases nonce on_chain from :
  0 ≤ on_chain → 0 ≤ nonce →
  required_marker nonce on_chain from = [] ∧ nonce ≤ on_chain ∨
  required_marker nonce on_chain from = [to_marker (nonce - 1) from] ∧ on_chain < nonce.
Proof.
  intros Hc Hn. unfold required_marker, saturating_sub. destruct (Z.eqb_spec nonce on_chain); [left; split; [done|lia]|].
  destruct (Z.leb_spec on_chain (Z.max 0 (nonce - 1))).
  - right. assert (nonce ≠ 0) by lia. rewrite Z.max_r by lia. split; [done|lia].
  - left. split; [done|lia].
Qed.

(** A transaction of one of the handlers; [on_chain] is the nonce it read. *)
Definition from_handler (t : PoolTransaction) : Prop :=
  0 ≤ pt_nonce (pending_transaction t) ≤ U64_MAX ∧
  ∃ order on_chain, 0 ≤ on_chain ∧
    (t = submitted order on_chain (pending_transaction t) ∨ t = requested order on_chain (pending_transaction t)).

Lemma from_handler_ok t : from_handler t → tx_ok t.
Proof.
  intros (Hn & order & c & Hc & Ht).
  assert (Hreq : tx_ok (requested order c (pending_transaction t))).
  { exists (to_marker (pt_nonce (pending_transaction t)) (pt_sender (pending_transaction t))). split; [done|]. cbn.
    destruct (required_marker_cases (pt_nonce (pending_transaction t)) c (pt_sender (pending_transaction t)) Hc ltac:(lia)) as [[-> _]|[-> Hlt]];
      [by left|]. right. eexists. split; [done|]. rewrite !rank_marker by lia. lia. }
  destruct Ht as [->| ->]; [|done]. unfold submitted. destruct (keyed _); [|done]. eexists. split; [done|by left].
Qed.

(** ** Operations *)
Inductive PoolOp :=
  | OpAdd (tx : PoolTransaction)
  | OpDrop (tx : TxHash)
  | OpRemoveInvalid (tx_hashes : list TxHash)
  | OpRemoveByAddress (sender : Address)
  | OpMined (included invalid : list PoolTransaction)
  | OpPrune (markers : list TxMarker)
  | OpClear.

Definition void {S A} (m : PM S A) : PM S unit := m;; mret tt.

Section history.
Context `{HashOrder}.

Definition run_op (op : PoolOp) : PM PoolInner unit :=
  match op with
  | OpAdd tx => void (add_transaction tx)
  | OpDrop tx => void (drop_transaction tx)
  | OpRemoveInvalid tx_hashes => void (remove_invalid tx_hashes)
  | OpRemoveByAddress sender => void (remove_transactions_by_address sender)
  | OpMined included invalid => void (on_mined_block included invalid)
  | OpPrune markers => void (prune_markers markers)
  | OpClear => pool_clear
  end.
(** The pool after the operations, and what each of them returned. *)
Fixpoint run_ops (ops : list PoolOp) (p : PoolInner) : list (result Failure unit) * PoolInner :=
  match ops with
  | [] => ([], p)
  | op :: ops =>
      let '(res, p) := run_op op p in
      let '(results, p) := run_ops ops p in (res :: results, p)
  end.

Definition op_ok (op : PoolOp) : Prop := match op with OpAdd tx => from_handler tx | _ => True end.
Definition expected (op : PoolOp) (res : result Failure unit) : Prop :=
  match op, res with
  | _, Ok _ => True
  | OpAdd tx, Err (PoolErr (AlreadyImported h)) | OpAdd tx, Err (PoolErr (ReplacementUnderpriced h)) => h = tx_hash tx
  | _, Err _ => False
  end.

Lemma void_ok {S A} (m : PM S A) s a s' : m s = (Ok a, s') → void m s = (Ok tt, s').
Proof. intros E. unfold void. by rewrite (pbind_ok _ _ _ _ _ E). Qed.

Lemma run_op_ok n op p : PoolInv n p → n + 1 ≤ U64_MAX → op_ok op →
  ∃ res p', run_op op p = (res, p') ∧ PoolInv (n + 1) p' ∧ expected op res.
Proof.
  intros Hp Hn Hop. assert (Hmore : ∀ p', PoolInv n p' → PoolInv (n + 1) p') by (intros p'; apply in_flight_more; lia).
  destruct op as [t|h|hs|a|inc inv|ms|]; cbn [run_op].
  - destruct (add_transaction_ok n t p Hp Hn (from_handler_ok t Hop)) as (res & p' & E & Hp' & Hres).
    unfold void, mbind, PM_bind. rewrite E. destruct res as [a|e]; [by eexists _, _|].
    eexists _, _. split_and!; [done|done|]. destruct Hres as (_ & [[-> _]|[-> _]]); done.
  - destruct (drop_transaction_ok n h p Hp) as (out & p' & E & ? & _). rewrite (void_ok _ _ _ _ E). eauto 6.
  - destruct (remove_invalid_ok n [] hs p Hp) as (out & p' & E & ? & _). rewrite (void_ok _ _ _ _ E). eauto 6.
  - destruct (remove_by_address_ok n a p Hp) as (out & p' & E & ? & _). rewrite (void_ok _ _ _ _ E). eauto 6.
  - destruct (mined_ok n inc inv p Hp) as (out & p' & E & ?); [lia|]. rewrite (void_ok _ _ _ _ E). eauto 6.
  - destruct (prune_markers_ok n ms p Hp) as (out & p' & E & ?); [lia|]. rewrite (void_ok _ _ _ _ E). eauto 6.
  - destruct (clear_ok n p Hp) as (p' & E & ? & _). rewrite E. eauto 6.
Qed.

Lemma run_ops_ok n ops p : PoolInv n p → n + Z.of_nat (length ops) ≤ U64_MAX → Forall op_ok ops →
  Forall2 expected ops (fst (run_ops ops p)) ∧ PoolInv (n + Z.of_nat (length ops)) (snd (run_ops ops p)).
Proof.
  revert n p. induction ops as [|op ops IH]; intros n p Hp Hn Hops.
  { split; [constructor|]. cbn. by rewrite Z.add_0_r. }
  apply Forall_cons in Hops as [Hop Hops]. cbn [length] in Hn. destruct (run_op_ok n op p Hp ltac:(lia) Hop) as (res & p' & E & Hp' & Hres).
  destruct (IH (n + 1) p' Hp' ltac:(lia) Hops) as [Hall Hfin].
  cbn [run_ops length]. rewrite E. destruct (run_ops ops p') as [results p2]. cbn [fst snd] in *. split; [by constructor|].
  replace (n + Z.of_nat (S (length ops))) with (n + 1 + Z.of_nat (length ops)) by lia. done.
Qed.

(** ** The parts of the pool agree *)
Record PoolWf (p : PoolInner) : Prop := {
  (* a transaction is ready or waits, never both *)
  wf_apart h : is_Some (readies p !! h) → waiting p !! h = None;
  wf_hashes h t : get_transaction p h = Some t → pt_hash t = h;
  (* one transaction for each sender and nonce is ready *)
  wf_provided m h : provided p !! m = Some h ↔ ∃ x, readies p !! h = Some x ∧ provides (ready_tx_of x) = [m];
  (* who waits has a requirement that no ready transaction meets *)
  wf_blocked h t : waiting p !! h = Some t → ∃ m, requires (transaction t) = [m] ∧ provided p !! m = None;
  (* the ready transactions can be listed, each one once *)
  wf_collect : ∃ txs, collect (ready_transactions p) = Some txs ∧ NoDup (tx_hash <$> txs) ∧
    ∀ t, t ∈ txs ↔ ∃ x, readies p !! tx_hash t = Some x ∧ ready_tx_of x = t;
}.

Lemma collect_ok r : ReadyInv [] r → ∃ txs, collect r = Some txs ∧ yields r [] txs ∧ NoDup (tx_hash <$> txs) ∧
    ∀ t, t ∈ txs ↔ ∃ x, ready_tx r !! tx_hash t = Some x ∧ ready_tx_of x = t.
Proof.
  intros Hr. destruct (collect_yields Hr) as (txs & E & Hy). exists txs. split_and!; [done|done|by eapply yields_nodup|].
  intros t. split.
  - intros (i & Hi)%list_elem_of_lookup. destruct (yields_split Hr _ _ _ _ Hy Hi) as (x & Hx & Ha & _). eauto.
  - intros (x & Hx & <-). eapply (yields_all Hr []); [done|done|set_solver].
Qed.

Lemma pool_inv_wf n p : PoolInv n p → PoolWf p.
Proof.
  intros Hp. split.
  - apply Hp.
  - intros h t. unfold get_transaction. destruct (waiting p !! h) as [u|] eqn:E.
    + intros. simplify_eq. apply (pi_ok _ (if_pending _ _ _ Hp) _ _ E).
    + destruct (readies p !! h) as [x|] eqn:Ex; intros; simplify_eq/=. apply (ri_ok _ _ (if_ready _ _ _ Hp) _ _ Ex).
  - apply Hp.
  - intros h t Ht. destruct (pi_ok _ (if_pending _ _ _ Hp) _ _ Ht) as (_ & _ & m & Hreq & Hm). exists m. split; [done|].
    eapply (if_blocked _ _ _ Hp); [done|]. rewrite Hm. set_solver.
  - destruct (collect_ok _ (if_ready _ _ _ Hp)) as (txs & ? & _ & ? & ?). eauto.
Qed.

(** C15: whatever is done to a new pool, fewer than [2^64] times and with transactions the RPC handlers
    submit: every operation returns, only an addition fails, and only because the
    transaction is known or underpriced; afterwards the tables of the pool agree. *)
Theorem pool_runs_safely ops :
  Forall op_ok ops → Z.of_nat (length ops) ≤ U64_MAX →
  Forall2 expected ops (fst (run_ops ops pool_empty)) ∧ PoolWf (snd (run_ops ops pool_empty)).
Proof.
  intros Hops Hlen. destruct (run_ops_ok 0 ops pool_empty pool_inv_empty ltac:(lia) Hops) as [? Hp].
  split; [done|]. by eapply pool_inv_wf.
Qed.

(** C26: what the addition of a transaction to the pool of any history does: it is ready at once if its
    requirement is met, and then it is among the ready transactions, the iterator lists it, it does not wait, and it is the
    only one with its marker; otherwise it waits and the ready ones stay as they are; it is refused, and nothing changes, if it is known or if one with its marker pays as much. *)
Theorem add_outcome ops t :
  Forall op_ok ops → Z.of_nat (length ops) < U64_MAX → from_handler t →
  let p := snd (run_ops ops pool_empty) in
  let '(res, p') := add_transaction t p in
  match res with
  | Ok (AddedAsReady a) =>
      added_hash a = tx_hash t ∧ contains p (tx_hash t) = false ∧ (∀ m, m ∈ requires t → is_Some (provided p !! m)) ∧
      (∃ x, readies p' !! tx_hash t = Some x ∧ ready_tx_of x = t) ∧ waiting p' !! tx_hash t = None ∧
      (∃ ts, collect (ready_transactions p') = Some ts ∧ t ∈ ts) ∧
      ∀ h x, readies p' !! h = Some x → provides (ready_tx_of x) = provides t → h = tx_hash t ∧ ready_tx_of x = t
  | Ok (AddedAsPending h) =>
      h = tx_hash t ∧ ready_transactions p' = ready_transactions p ∧
      ∃ m, requires t = [m] ∧ provided p !! m = None ∧ waiting p' = <[h:=mkPendingPoolTransaction t {[m]}]> (waiting p)
  | Err (PoolErr (AlreadyImported h)) => p' = p ∧ h = tx_hash t ∧ contains p h = true
  | Err (PoolErr (ReplacementUnderpriced h)) => p' = p ∧ h = tx_hash t ∧
      ∃ k u, get_transaction p k = Some (pending_transaction u) ∧ provides u = provides t ∧ max_fee_per_gas t ≤ max_fee_per_gas u
  | Err _ => False
  end.
Proof.
  intros Hops Hlen Ht. cbv zeta. set (p := snd _). destruct (run_ops_ok 0 ops pool_empty pool_inv_empty ltac:(lia) Hops) as [_ Hp]. fold p in Hp.
  destruct (add_transaction_ok _ t p Hp ltac:(lia) (from_handler_ok t Ht)) as (res & p' & E & Hp' & Hres). rewrite E.
  destruct (from_handler_ok t Ht) as (m0 & Hm0 & _). destruct res as [[a|h]|e].
  - destruct Hres as (Hh & Hn & _ & Hl & x & Hx & Htx). split_and!; [done|done| |by exists x| | |].
    + intros m Hm. apply (Hl (mkPendingPoolTransaction t ∅)); [set_solver|]. cbn.
      destruct (from_handler_ok t Ht) as (_ & _ & [Hq|(m' & Hq & _)]); rewrite Hq in Hm |- *; set_solver.
    + apply (if_apart _ _ _ Hp'). eauto.
    + destruct (collect_ok _ (if_ready _ _ _ Hp')) as (ts & Ets & _ & _ & Hall). exists ts. split; [done|]. apply Hall. by exists x.
    + intros h y Hy Hprov. assert (h = tx_hash t) as ->.
      { apply (provider_unique (if_ready _ _ _ Hp') _ _ y x m0); [done|done|congruence|by rewrite Htx]. }
      split; [done|]. congruence.
  - destruct Hres as (-> & Hr & m & Hreq & Hw). split_and!; [done|done|]. exists m. split_and!; [done| |done].
    assert (Hm : provided p' !! m = None); [|by rewrite Hr in Hm]. eapply (if_blocked _ _ _ Hp'); [rewrite Hw; apply lookup_insert_eq|set_solver].
  - destruct Hres as (-> & [[-> Hc]|[-> (u & Hu & Hprov & Hfee)]]); [done|]. split_and!; [done|done|].
    destruct Hu as [[(tx & Hin & _)|(w & Hw & <-)]|(h & x & Hx & <-)]; [set_solver| |].
    + exists (tx_hash (transaction w)), (transaction w). split_and!; [unfold get_transaction; by rewrite Hw|done|done].
    + exists h, (ready_tx_of x). split_and!; [|done|done]. unfold get_transaction. rewrite (if_apart _ _ _ Hp) by eauto. by rewrite Hx.
Qed.
End history.
