(* ===== verification/TxPoolChain.v ===== *)
(** * The pool and the chain

    Raw transactions, blocks mined from the pool and the nonce of an account: the ready
    transactions of the account, in the order of the iterator, carry the nonces that follow it.  The transactions of
    all other accounts are arbitrary. *)
From Stdlib Require Import ZArith Lia.
From stdpp Require Import base tactics option list fin_maps gmap fin_sets.
From S2P Require Import Prelude Base TxPool TxPoolReady TxPoolPending TxPoolOrder TxPoolProps TxPoolNode TxPoolHistory.
Open Scope Z_scope.

Local Arguments rank : simpl never.
Local Arguments to_marker : simpl never.
Local Arguments be_bytes : simpl never.

Notation nonce_of_tx t := (pt_nonce (pending_transaction t)).
Notation sender_of t := (pt_sender (pending_transaction t)).
Notation is_keyed t := (keyed (pending_transaction t)).

(** ** Markers *)
Lemma be_bytes_injective n v v' : 0 ≤ v < 256 ^ Z.of_nat n → 0 ≤ v' < 256 ^ Z.of_nat n → be_bytes n v = be_bytes n v' → v = v'.
Proof.
  intros Hv Hv' He. assert (E : bytes_value (be_bytes n v) = bytes_value (be_bytes n v')) by congruence.
  rewrite !bytes_value_be, !Z.mod_small in E by done. done.
Qed.
Lemma to_marker_length n a : length (to_marker n a) = 28%nat.
Proof. unfold to_marker. by rewrite length_app, length_rev, !be_bytes_length. Qed.
Lemma marker_ne n a h : to_marker n a ≠ be_bytes 32 h.
Proof. intros E. apply (f_equal length) in E. by rewrite to_marker_length, be_bytes_length in E. Qed.
Lemma to_marker_inj n a n' a' :
  0 ≤ n ≤ U64_MAX → 0 ≤ n' ≤ U64_MAX → 0 ≤ a < 2 ^ 160 → 0 ≤ a' < 2 ^ 160 → to_marker n a = to_marker n' a' → n = n' ∧ a = a'.
Proof.
  intros Hn Hn' Ha Ha' He. split; [rewrite <- (rank_marker n a), <- (rank_marker n' a') by done; congruence|].
  unfold to_marker in He. apply app_inj_1 in He as [_ He]; [|by rewrite !length_rev, !be_bytes_length].
  apply (be_bytes_injective 20); done.
Qed.

(** A transaction that came with [eth_sendRawTransaction], and what it is about. *)
Definition tx_range (tx : PendingTransaction) : Prop := 0 ≤ pt_nonce tx ≤ U64_MAX ∧ 0 ≤ pt_sender tx < 2 ^ 160.
Definition raw (t : PoolTransaction) : Prop :=
  tx_range (pending_transaction t) ∧
  ∃ order on_chain, 0 ≤ on_chain ∧ t = submitted order on_chain (pending_transaction t).

Lemma raw_keyed t : raw t → is_keyed t = true → requires t = [] ∧ provides t = [be_bytes 32 (tx_hash t)].
Proof. intros (_ & order & c & _ & ->) Hk. cbn in *. unfold submitted in *. destruct (keyed (pending_transaction t)) eqn:E; cbn in *; [done|congruence]. Qed.
Lemma raw_plain t : raw t → is_keyed t = false →
  provides t = [to_marker (nonce_of_tx t) (sender_of t)] ∧
  (requires t = [] ∨ requires t = [to_marker (nonce_of_tx t - 1) (sender_of t)] ∧ 1 ≤ nonce_of_tx t).
Proof.
  intros ([Hn _] & order & c & Hc & Ht) Hk. rewrite Ht. unfold submitted. rewrite Hk. cbn. split; [done|].
  destruct (required_marker_cases (nonce_of_tx t) c (sender_of t) Hc) as [[-> _]|[-> ?]]; [lia|by left|right; split; [done|lia]].
Qed.
Lemma raw_ok t : raw t → tx_ok t.
Proof. intros ([Hn _] & order & c & ? & ?). apply from_handler_ok. split; [done|]. exists order, c. eauto. Qed.

(** Who requires what [z] provides comes right after [z]. *)
Lemma raw_next x z : raw x → raw z → requires x = provides z →
  is_keyed x = false ∧ is_keyed z = false ∧ sender_of x = sender_of z ∧ nonce_of_tx x = nonce_of_tx z + 1.
Proof.
  intros Hx Hz He. destruct (is_keyed x) eqn:Kx.
  { destruct (raw_keyed x Hx Kx) as [E _]. destruct (raw_ok z Hz) as (m & Hm & _). congruence. }
  destruct (raw_plain x Hx Kx) as [_ [Hr|[Hr Hn]]].
  { destruct (raw_ok z Hz) as (m & Hm & _). congruence. }
  rewrite Hr in He. destruct (is_keyed z) eqn:Kz.
  { destruct (raw_keyed z Hz Kz) as [_ Hp]. rewrite Hp in He. apply (f_equal head), (inj Some) in He. by apply marker_ne in He. }
  destruct (raw_plain z Hz Kz) as [Hp _]. rewrite Hp in He. destruct Hx as [[? ?] _], Hz as [[? ?] _].
  assert (E : to_marker (nonce_of_tx x - 1) (sender_of x) = to_marker (nonce_of_tx z) (sender_of z)) by congruence.
  apply to_marker_inj in E as [? ?]; [|lia|done|done|done]. split_and!; [done|done|done|lia].
Qed.
(** Two that require the same marker have the same sender. *)
Lemma raw_siblings x z m : raw x → raw z → requires x = [m] → requires z = [m] →
  is_keyed x = false ∧ is_keyed z = false ∧ sender_of x = sender_of z.
Proof.
  intros Hx Hz Ex Ez.
  destruct (is_keyed x) eqn:Kx; [by destruct (raw_keyed x Hx Kx) as [? _]; congruence|].
  destruct (is_keyed z) eqn:Kz; [by destruct (raw_keyed z Hz Kz) as [? _]; congruence|].
  destruct (raw_plain x Hx Kx) as [_ [?|[Rx Nx]]]; [congruence|]. destruct (raw_plain z Hz Kz) as [_ [?|[Rz Nz]]]; [congruence|].
  split_and!; [done|done|]. destruct Hx as [[? ?] _], Hz as [[? ?] _].
  assert (E : to_marker (nonce_of_tx x - 1) (sender_of x) = to_marker (nonce_of_tx z - 1) (sender_of z)) by congruence.
  apply to_marker_inj in E as [_ ?]; [done|lia|lia|done|done].
Qed.
(** Two transactions with the same marker have the same sender and nonce, or both a key. *)
Lemma raw_same x z : raw x → raw z → provides x = provides z →
  is_keyed x = is_keyed z ∧ (is_keyed x = false → sender_of x = sender_of z ∧ nonce_of_tx x = nonce_of_tx z).
Proof.
  intros Hx Hz He.
  destruct (is_keyed x) eqn:Kx, (is_keyed z) eqn:Kz.
  - done.
  - destruct (raw_keyed x Hx Kx) as [_ Ex], (raw_plain z Hz Kz) as [Ez _]. rewrite Ex, Ez in He. apply (f_equal head), (inj Some) in He. symmetry in He. by apply marker_ne in He.
  - destruct (raw_plain x Hx Kx) as [Ex _], (raw_keyed z Hz Kz) as [_ Ez]. rewrite Ex, Ez in He. apply (f_equal head), (inj Some) in He. by apply marker_ne in He.
  - destruct (raw_plain x Hx Kx) as [Ex _], (raw_plain z Hz Kz) as [Ez _]. rewrite Ex, Ez in He. split; [done|]. intros _.
    destruct Hx as [[? ?] _], Hz as [[? ?] _]. assert (E : to_marker (nonce_of_tx x) (sender_of x) = to_marker (nonce_of_tx z) (sender_of z)) by congruence.
    by apply to_marker_inj in E as [? ?].
Qed.

(** ** The nonce of an account *)
Section account.
Variable who : Address.

(** The transactions that use the nonce of the account: those it sends without a nonce key. *)
Definition own (t : PoolTransaction) : bool := negb (is_keyed t) && (sender_of t =? who).
Lemma own_true t : own t = true ↔ is_keyed t = false ∧ sender_of t = who.
Proof. unfold own. by rewrite andb_true_iff, negb_true_iff, Z.eqb_eq. Qed.

(** The nonce [n] of the account becomes [n'] as [t] is executed. *)
Definition bump (n n' : Z) (t : PoolTransaction) : Prop :=
  if own t then nonce_of_tx t = n ∧ n' = n + 1 else n' = n.
Inductive executes : Z → list PoolTransaction → Z → Prop :=
  | executes_nil n : executes n [] n
  | executes_cons n n1 n' t l : bump n n1 t → executes n1 l n' → executes n (t :: l) n'.

Definition own_nonces (l : list PoolTransaction) : list Z := pt_nonce ∘ pending_transaction <$> filter (λ t, own t = true) l.

Lemma executes_own_nonces n l n' : executes n l n' → n ≤ n' ∧ own_nonces l = seqZ n (n' - n).
Proof.
  induction 1 as [n|n n1 n' t l Hb Hex [IHle IH]]; [by rewrite Z.sub_diag|].
  unfold own_nonces in *. unfold bump in Hb. rewrite filter_cons. destruct (own t) eqn:O.
  - rewrite decide_True by done. destruct Hb as [Hn ->]. split; [lia|]. rewrite fmap_cons, IH.
    rewrite (seqZ_cons n) by lia. cbn. rewrite Hn. f_equal; f_equal; lia.
  - rewrite decide_False by done. subst n1. done.
Qed.
Lemma executes_contiguous n l n' : executes n l n' → own_nonces l = seqZ n (Z.of_nat (length (own_nonces l))).
Proof. intros [Hle E]%executes_own_nonces. rewrite E at 1. f_equal. rewrite E, length_seqZ. lia. Qed.
Lemma executes_snoc n l n1 t n' : executes n l n1 → bump n1 n' t → executes n (l ++ [t]) n'.
Proof.
  induction 1 as [n|n n1 n2 u l Hb Hex IH]; intros Ht; cbn.
  - eapply executes_cons; [done|constructor].
  - eapply executes_cons; [done|by apply IH].
Qed.

(** The pool fits the nonce [c] of the account. *)
Record ChainInv (c : Z) (p : PoolInner) : Prop := {
  ci_ready h x : readies p !! h = Some x → raw (ready_tx_of x);
  ci_next h x : readies p !! h = Some x → own (ready_tx_of x) = true →
    c ≤ nonce_of_tx (ready_tx_of x) ∧ (settled x ↔ nonce_of_tx (ready_tx_of x) = c);
  ci_waiting h u : waiting p !! h = Some u → raw (transaction u) ∧ is_keyed (transaction u) = false ∧
    (own (transaction u) = true → c < nonce_of_tx (transaction u));
}.

Lemma chain_inv_empty c : ChainInv c pool_empty.
Proof. split; cbn; intros *; rewrite lookup_empty; done. Qed.

Lemma ref_tx x y : ready_ref x = ready_ref y → ready_tx_of x = ready_tx_of y.
Proof. unfold ready_tx_of. congruence. Qed.

Notation apart_own := (apart (λ t, own t = true)).
Lemma chain_apart c p p' : apart_own (ready_transactions p) (ready_transactions p') →
  (∀ h u, waiting p' !! h = Some u → waiting p !! h = Some u) → ChainInv c p → ChainInv c p'.
Proof.
  intros Hr Hw [H1 H2 H3]. split.
  - intros h x (y & Hy & He & _)%Hr. rewrite (ref_tx _ _ He). eauto.
  - intros h x (y & Hy & He & Ho)%Hr. rewrite (ref_tx _ _ He). intros O. rewrite Ho by done. by apply (H2 h).
  - intros h u Hu. eauto.
Qed.
Lemma chain_trimmed c p p' : trimmed p p' → ChainInv c p → ChainInv c p'.
Proof.
  intros [[_ Hr] Hw]. apply chain_apart; [|done]. intros h x (y & Hy & He & Ho)%Hr. exists y.
  split_and!; [done..|]. intros _. unfold settled. by rewrite (ref_tx _ _ He), Ho.
Qed.

Context `{HashOrder}.

(** ** Submission *)
Lemma submitted_raw order c tx : tx_range tx → 0 ≤ c → raw (submitted order c tx).
Proof.
  intros Htx Hc. assert (E : pending_transaction (submitted order c tx) = tx) by (unfold submitted; by destruct (keyed tx)).
  split; [by rewrite E|]. exists order, c. by rewrite E.
Qed.
Lemma submitted_requires order c tx : tx_range tx → 0 ≤ c → keyed tx = false → c ≤ pt_nonce tx →
  requires (submitted order c tx) = [] ↔ pt_nonce tx = c.
Proof.
  intros [Hn _] Hc Hk Hle. unfold submitted. rewrite Hk. cbn.
  destruct (required_marker_cases (pt_nonce tx) c (pt_sender tx) Hc) as [[-> ?]|[-> ?]]; [lia| |]; split; try done; lia.
Qed.

Lemma add_chain n order (c on_chain : Z) tx p :
  PoolInv n p → n + 1 ≤ U64_MAX → ChainInv c p → tx_range tx → 0 ≤ on_chain →
  (own (submitted order on_chain tx) = true → on_chain = c ∧ c ≤ pt_nonce tx) →
  ChainInv c (snd (add_transaction (submitted order on_chain tx) p)).
Proof.
  intros Hp Hn Hc Htx H0 Hle. set (t := submitted _ _ _) in *. assert (Hraw : raw t) by (by apply submitted_raw).
  assert (Et : pending_transaction t = tx) by (unfold t, submitted; by destruct (keyed tx)).
  destruct (add_transaction_ok n t p Hp Hn (raw_ok t Hraw)) as (res & p' & E & Hp' & Hres). rewrite E. cbn [snd].
  destruct res as [[a|h]|e]; [| |by destruct Hres as [-> _]].
  - destruct Hres as (_ & _ & (_ & Hw & He) & Hl & _). split.
    + intros h x Hx. destruct (He h x Hx) as [Hk|[[(u & ->%list_elem_of_singleton & <-)|(u & Hu & <-)] _]]; [|done|by eapply ci_waiting].
      destruct (kept_settled _ _ _ Hk) as (y & Hy & -> & _). by eapply ci_ready.
    + intros h x Hx. destruct (He h x Hx) as [Hk|[Hcame Hs]].
      * destruct (kept_settled _ _ _ Hk) as (y & Hy & -> & ->). by eapply ci_next.
      * rewrite (Hs Hl). destruct Hcame as [(u & ->%list_elem_of_singleton & <-)|(u & Hu & <-)]; cbn [transaction]; intros O.
        -- destruct (Hle O) as [-> Hn0]. apply own_true in O as [Kx _]. rewrite Et in *. split; [done|].
           subst t. by apply submitted_requires.
        -- destruct (ci_waiting _ _ Hc _ _ Hu) as (Hru & _ & Hlt). specialize (Hlt O). split; [lia|].
           destruct (pi_ok _ (if_pending _ _ _ Hp) _ _ Hu) as (_ & _ & m & -> & _). split; [done|lia].
    + intros h u Hu%Hw. by eapply ci_waiting.
  - destruct Hres as (-> & Hr & m & Hreq & Hw). split.
    + intros h x. rewrite Hr. apply (ci_ready _ _ Hc).
    + intros h x. rewrite Hr. apply (ci_next _ _ Hc).
    + intros h u. rewrite Hw. intros [[<- <-]|[_ Hu]]%lookup_insert_Some; [|by eapply ci_waiting]. cbn [transaction].
      split; [done|]. destruct (is_keyed t) eqn:Kt; [by destruct (raw_keyed t Hraw Kt) as [? _]; congruence|].
      split; [done|]. intros O. destruct (Hle O) as [-> Hn0]. rewrite Et in *. assert (pt_nonce tx ≠ c); [|lia].
      intros Heq. assert (requires t = []) by (by apply submitted_requires). congruence.
Qed.

(** ** A mined transaction *)

(** The effect of pruning [m] on the tables. *)
Definition pruned_of (m : TxMarker) (p p' : PoolInner) : Prop :=
  (∀ k y', readies p' !! k = Some y' → ∃ y, readies p !! k = Some y ∧ ready_ref y' = ready_ref y ∧
    provides (ready_tx_of y) ≠ [m] ∧ (settled y' ↔ settled y ∨ requires (ready_tx_of y) = [m])) ∧
  (∀ h u, waiting p' !! h = Some u → waiting p !! h = Some u ∧ requires (transaction u) ≠ [m]).

Lemma settled_nil r h x : ReadyInv [] r → ready_tx r !! h = Some x → requires (ready_tx_of x) = [] → settled x.
Proof.
  intros Hr Hx Hreq. destruct (decide (requires_offset x = Z.of_nat (length (requires (ready_tx_of x))))) as [|Hs]; [done|].
  destruct (ri_linked _ _ Hr h x Hx ltac:(set_solver) Hs) as (k & z & Hz & Hin).
  destruct (ri_unlocks _ _ Hr _ _ _ Hz Hin) as (x' & Hx' & He & _). simplify_eq.
  destruct (ri_ok _ _ Hr _ _ Hz) as [_ (m & Hm & _)]. congruence.
Qed.

(** A transaction of the account is mined: the next one of the account becomes settled. *)
Lemma bump_chain c t p p' m :
  ReadyInv [] (ready_transactions p) → PendingInv (pending_transactions p) → ChainInv c p →
  raw t → provides t = [m] → own t = true → nonce_of_tx t = c → pruned_of m p p' → ChainInv (c + 1) p'.
Proof.
  intros Hr Hq Hc Ht Hm O Hn [Hent Hwait]. pose proof O as [Kt St]%own_true.
  destruct (raw_plain _ Ht Kt) as [Hpt _]. rewrite St, Hn in Hpt. split.
  - intros k y' (y & Hy & He & _)%Hent. rewrite (ref_tx _ _ He). by eapply ci_ready.
  - intros k y' Hy' Oy. destruct (Hent _ _ Hy') as (y & Hy & He & Hne & ->). rewrite (ref_tx _ _ He) in *.
    pose proof (ci_ready _ _ Hc _ _ Hy) as Hry. destruct (ci_next _ _ Hc _ _ Hy Oy) as [Hle Hset].
    apply own_true in Oy as [Ky Sy]. destruct (raw_plain _ Hry Ky) as [Hpy Hqy]. rewrite Sy in *.
    assert (Hd : nonce_of_tx (ready_tx_of y) ≠ c) by (intros E; rewrite E in Hpy; congruence).
    split; [lia|]. rewrite Hset. split.
    + intros [?|Hreq]; [lia|]. rewrite <- Hm in Hreq. apply raw_next in Hreq as (_ & _ & _ & ?); [lia|done|done].
    + intros E. right. destruct Hqy as [Hnil|[Hnil _]].
      * apply (settled_nil _ _ _ Hr Hy) in Hnil. apply Hset in Hnil. lia.
      * rewrite Hnil. replace (nonce_of_tx (ready_tx_of y) - 1) with c by lia. congruence.
  - intros h u (Hu & Hne)%Hwait. destruct (ci_waiting _ _ Hc _ _ Hu) as (Hru & Ku & Hlt). split_and!; [done|done|].
    intros Ou. specialize (Hlt Ou). apply own_true in Ou as [_ Su].
    destruct (pi_ok _ Hq _ _ Hu) as (_ & _ & m' & Hreq & _). destruct (raw_plain _ Hru Ku) as [_ [Hqu|[Hqu _]]]; [congruence|].
    assert (nonce_of_tx (transaction u) ≠ c + 1); [|lia]. intros E. destruct Hne.
    rewrite Hqu, Su, E. replace (c + 1 - 1) with c by lia. congruence.
Qed.

(** What a mined transaction of the account required is not in the pool any more. *)
Lemma mined_requires c t p m h x :
  ReadyInv [] (ready_transactions p) → ChainInv c p → raw t → provides t = [m] → own t = true → nonce_of_tx t = c →
  readies p !! h = Some x → provides (ready_tx_of x) = [m] → Forall (λ m', provided p !! m' = None) (requires (ready_tx_of x)).
Proof.
  intros Hr Hc Ht Hm O Hn Hx Hmx. pose proof (ci_ready _ _ Hc _ _ Hx) as Hrx.
  destruct (raw_same _ _ Hrx Ht) as [Hk Hsame]; [congruence|]. apply own_true in O as [Kt St]. rewrite Kt in Hk.
  destruct (Hsame Hk) as [Hst Hnt]. apply Forall_forall. intros m' Hin.
  destruct (provided p !! m') as [k|] eqn:Ek; [|done]. exfalso. apply (ri_provided _ _ Hr) in Ek as (z & Hz & Hmz).
  destruct (raw_ok _ Hrx) as (_ & _ & [Hq|(m0 & Hq & _)]); rewrite Hq in Hin; [set_solver|]. apply list_elem_of_singleton in Hin as ->.
  pose proof (ci_ready _ _ Hc _ _ Hz) as Hrz. destruct (raw_next _ _ Hrx Hrz) as (Kx & Kz & Hs & Hnz); [congruence|].
  destruct (ci_next _ _ Hc _ _ Hz) as [Hle _]; [apply own_true; split; congruence|]. lia.
Qed.

Lemma pruned_none m p : ReadyInv [] (ready_transactions p) → provided p !! m = None →
  (∀ h u, waiting p !! h = Some u → requires (transaction u) ≠ [m]) → pruned_of m p p.
Proof.
  intros Hr Hm Hno. split; [|eauto]. intros k y Hy. exists y. split_and!; [done|done| |].
  - intros E. assert (provided p !! m = Some k) by (apply (ri_provided _ _ Hr); eauto). congruence.
  - split; [by left|]. intros [?|E]; [done|].
    destruct (decide (requires_offset y = Z.of_nat (length (requires (ready_tx_of y))))) as [|Hs]; [done|].
    destruct (ri_linked _ _ Hr k y Hy ltac:(set_solver) Hs) as (h & z & Hz & Hin).
    destruct (ri_unlocks _ _ Hr _ _ _ Hz Hin) as (y2 & Hy2 & He & _). simplify_eq.
    assert (provided p !! m = Some h) by (apply (ri_provided _ _ Hr); exists z; split; [done|congruence]). congruence.
Qed.

Lemma pruned_some m h x r' p : ReadyInv [] (ready_transactions p) → readies p !! h = Some x → provides (ready_tx_of x) = [m] →
  settles (unlocks x) (ready_transactions p) r' → ready_tx r' !! h = None →
  (∀ h u, waiting p !! h = Some u → requires (transaction u) ≠ [m]) → pruned_of m p (mkPoolInner r' (pending_transactions p)).
Proof.
  intros Hr Hx Hm Hset Hh Hno. split; [|eauto]. cbn. intros k y' Hy'. destruct (Hset _ _ Hy') as (y & Hy & He & Hs).
  exists y. split_and!; [done|done| |].
  - intros E. assert (k = h) as -> by (by eapply (provider_unique Hr)). congruence.
  - rewrite Hs. split; (intros [?|Hin]; [by left|]).
    + right. destruct (ri_unlocks _ _ Hr _ _ _ Hx Hin) as (y2 & Hy2 & Hq & _). simplify_eq. congruence.
    + destruct (decide (requires_offset y = Z.of_nat (length (requires (ready_tx_of y))))) as [|Hsy]; [by left|].
      destruct (ri_linked _ _ Hr k y Hy ltac:(set_solver) Hsy) as (h' & z & Hz & Hin').
      destruct (ri_unlocks _ _ Hr _ _ _ Hz Hin') as (y2 & Hy2 & Hq & _). simplify_eq.
      assert (h' = h) as -> by (apply (provider_unique Hr h' h z x m); [done..|congruence|done]). simplify_eq. by right.
Qed.

(** The markers that the account has nothing to do with. *)
Definition foreign_marker (m : TxMarker) : Prop :=
  ∀ y, raw y → own y = true → provides y ≠ [m] ∧ requires y ≠ [m].
Lemma raw_foreign x : raw x → foreign foreign_marker (λ t, own t = true) x.
Proof.
  intros Hx. split; [|by intros m Hm HF O; destruct (HF x Hx O)].
  intros m Hm HF. apply Forall_forall. intros m' Hin y Hy O.
  destruct (raw_ok x Hx) as (_ & _ & [Hq|(m0 & Hq & _)]); rewrite Hq in Hin; [set_solver|]. apply list_elem_of_singleton in Hin as ->.
  pose proof O as [Ky Sy]%own_true. assert (Hno : ¬ (is_keyed x = false ∧ sender_of x = who)).
  { intros Ox%own_true. by destruct (HF x Hx Ox). }
  split; intros E; destruct Hno.
  - destruct (raw_next x y Hx Hy) as (? & _ & ? & _); [congruence|]. split; congruence.
  - destruct (raw_siblings x y m0 Hx Hy Hq E) as (? & _ & ?). split; congruence.
Qed.
Lemma foreign_provided t m : raw t → own t = false → provides t = [m] → foreign_marker m.
Proof.
  intros Ht O Hm y Hy Oy. pose proof Oy as [Ky Sy]%own_true.
  assert (Hno : ¬ (is_keyed t = false ∧ sender_of t = who)) by (intros Ot%own_true; congruence).
  split; intros E; destruct Hno.
  - destruct (raw_same y t Hy Ht) as [Hk Hs]; [congruence|]. destruct (Hs Ky). split; congruence.
  - destruct (raw_next y t Hy Ht) as (_ & ? & ? & _); [congruence|]. split; congruence.
Qed.

(** Pruning the marker of a mined transaction. *)
Lemma prune_mined n c c' t p m :
  PoolInv n p → ChainInv c p → raw t → provides t = [m] → bump c c' t →
  (∀ h u, waiting p !! h = Some u → requires (transaction u) ≠ [m]) →
  ∃ pruned p', prune_marker m p = (Ok ([], pruned), p') ∧ PoolInv n p' ∧ ChainInv c' p' ∧ waiting p' = waiting p.
Proof.
  intros Hp Hc Ht Hm Hb Hno. destruct (unlock_ok n [] m p Hp) as (out & p1 & E & Hp1 & Hr1 & Hw & Hout & _ & _ & _ & Hnil).
  assert (out = []) as ->.
  { destruct out as [|tx out]; [done|]. destruct (Hout tx) as (u & Hu & _ & Hin); [set_solver|]. destruct (Hno _ _ Hu).
    destruct (pi_ok _ (if_pending _ _ _ Hp) _ _ Hu) as (_ & _ & m' & Hreq & Hmiss). rewrite Hmiss in Hin. set_solver. }
  specialize (Hnil eq_refl) as ->. unfold prune_marker. rewrite (pbind_ok _ _ _ _ _ E).
  pose proof (if_ready _ _ _ Hp) as Hr. unfold bump in Hb. destruct (own t) eqn:O.
  - destruct Hb as [Hn ->]. destruct (provided p !! m) as [h|] eqn:Epm.
    + apply (ri_provided _ _ Hr) in Epm as (x & Hx & Hmx).
      destruct (prune_tags_settled m h x _ Hr Hx Hmx) as (r' & E' & Hr' & Hs & Hset & Hh); [by eapply mined_requires|].
      exists [ready_tx_of x], (mkPoolInner r' (pending_transactions p)).
      split_and!; [unfold mbind, PM_bind, at_ready; by rewrite E'| | |done].
      * eapply reduces_inv; [done|done|apply Hp|by split].
      * eapply bump_chain; [done|apply Hp|done|done|done|done|done|by eapply pruned_some].
    + exists [], p. split_and!; [|done| |done].
      * unfold mbind, PM_bind, at_ready. rewrite prune_tags_none by done. by destruct p.
      * eapply bump_chain; [done|apply Hp|done|done|done|done|done|by apply pruned_none].
  - subst c'. destruct (prune_tags_ok m _ Hr) as (pruned & r' & E' & Hr' & Hs & _).
    exists pruned, (mkPoolInner r' (pending_transactions p)).
    split_and!; [unfold mbind, PM_bind, at_ready; by rewrite E'| | |done].
    + eapply reduces_inv; [done|done|apply Hp|by split].
    + eapply (chain_apart c p); [|done|done]. cbn.
      eapply (prune_loop_apart foreign_marker); [| | | |exact E']; [done|done| |].
      * intros h x Hx. by apply raw_foreign, (ci_ready _ _ Hc h).
      * apply Forall_singleton. by eapply foreign_provided.
Qed.

Lemma prune_block_loop n c c' ts p :
  PoolInv n p → ChainInv c p → Forall raw ts → executes c ts c' →
  (∀ t h u, t ∈ ts → waiting p !! h = Some u → requires (transaction u) ≠ provides t) →
  ∃ parts p', pcollect (λ m, part ← prune_marker m; mret [part]) (concat (provides <$> ts)) p = (Ok parts, p') ∧
    concat (fst <$> parts) = [] ∧ PoolInv n p' ∧ ChainInv c' p'.
Proof.
  intros Hp Hc Hts Hex Hno. revert p Hp Hc Hts Hno.
  induction Hex as [c|c c1 c' t ts Hb Hex IH]; intros p Hp Hc Hts Hno; [by exists [], p|].
  apply Forall_cons in Hts as [Ht Hts]. destruct (raw_ok t Ht) as (m & Hm & _).
  destruct (prune_mined n c c1 t p m Hp Hc Ht Hm Hb) as (pruned & p1 & E & Hp1 & Hc1 & Hw1).
  { intros h u Hu. rewrite <- Hm. eapply Hno; [set_solver|done]. }
  destruct (IH p1 Hp1 Hc1 Hts) as (parts & p' & E' & Hnil & Hp' & Hc').
  { intros t' h u Ht'. rewrite Hw1. apply Hno. set_solver. }
  exists (([], pruned) :: parts), p'. rewrite fmap_cons, Hm. cbn [concat app pcollect]. split_and!; [|by cbn|done|done].
  rewrite (pbind_ok _ _ _ [([], pruned)] p1) by (by rewrite (pbind_ok _ _ _ _ _ E)). by rewrite (pbind_ok _ _ _ _ _ E').
Qed.

Lemma prune_block n c c' ts p :
  PoolInv n p → ChainInv c p → Forall raw ts → executes c ts c' →
  (∀ t h u, t ∈ ts → waiting p !! h = Some u → requires (transaction u) ≠ provides t) →
  ∃ res p', prune_markers (concat (provides <$> ts)) p = (Ok res, p') ∧ PoolInv n p' ∧ ChainInv c' p' ∧ reduces p p' ∧
    ∀ m, m ∈ concat (provides <$> ts) → provided p' !! m = None.
Proof.
  intros Hp Hc Hts Hex Hno. destruct (prune_block_loop n c c' ts p Hp Hc Hts Hex Hno) as (parts & p' & E & Hnil & Hp' & Hc').
  destruct (prune_loop_pool_ok n [] (concat (provides <$> ts)) p Hp) as (parts2 & p2 & E2 & _ & Hred & Hgone).
  rewrite E in E2. simplify_eq. eexists _, p2. split_and!; [|done..].
  unfold prune_markers. rewrite (pbind_ok _ _ _ _ _ E), Hnil. done.
Qed.

(** The pool is told of a block that was made from it. *)
Lemma mined_chain n c c' ts inv p :
  PoolInv n p → ChainInv c p → executes c ts c' →
  (∀ t, t ∈ ts → ∃ x, readies p !! tx_hash t = Some x ∧ ready_tx_of x = t) →
  ∃ res p', on_mined_block ts inv p = (Ok res, p') ∧ PoolInv n p' ∧ ChainInv c' p' ∧ reduces p p' ∧
    ∀ m, m ∈ concat (provides <$> ts) → provided p' !! m = None.
Proof.
  intros Hp Hc Hex Hin. destruct (remove_invalid_ok n [] (tx_hash <$> inv) p Hp) as (out & p1 & E & Hp1 & Htrim & _).
  destruct (prune_block n c c' ts p1 Hp1) as (res & p' & E' & Hp' & Hc' & Hred & Hgone); [by eapply chain_trimmed| |done| |].
  - apply Forall_forall. intros t (x & Hx & <-)%Hin. by eapply ci_ready.
  - intros t h u (x & Hx & <-)%Hin Hu%(proj2 Htrim) He. destruct (ri_ok _ _ (if_ready _ _ _ Hp) _ _ Hx) as [_ (m & Hm & _)].
    destruct (pi_ok _ (if_pending _ _ _ Hp) _ _ Hu) as (_ & _ & m' & Hreq & Hmiss).
    assert (m' = m) as -> by congruence. assert (Hnone : provided p !! m = None) by (eapply (if_blocked _ _ _ Hp); [done|rewrite Hmiss; set_solver]).
    assert (provided p !! m = Some (tx_hash (ready_tx_of x))); [|congruence]. apply (ri_provided _ _ (if_ready _ _ _ Hp)). eauto.
  - exists res, p'. split_and!; [|done|done| |done].
    + unfold on_mined_block. by rewrite (pbind_ok _ _ _ _ _ E).
    + etransitivity; [by apply trimmed_reduces|done].
Qed.

(** ** The order of the iterator *)

(** The yielded transactions of the account are those below [cur]. *)
Definition reached (p : PoolInner) (D : list TxHash) (cur : Z) : Prop :=
  ∀ h x, readies p !! h = Some x → own (ready_tx_of x) = true → h ∈ D ↔ nonce_of_tx (ready_tx_of x) < cur.

Lemma available_next c p D cur h x :
  ReadyInv [] (ready_transactions p) → ChainInv c p → c ≤ cur → reached p D cur →
  available (ready_transactions p) D h x → own (ready_tx_of x) = true → nonce_of_tx (ready_tx_of x) = cur.
Proof.
  intros Hr Hc Hcur HD (Hx & Hn & Hwhy) O. destruct (ci_next _ _ Hc _ _ Hx O) as [Hle Hset].
  assert (Hge : cur ≤ nonce_of_tx (ready_tx_of x)).
  { apply Z.nlt_ge. intros Hlt. by apply Hn, (HD _ _ Hx O). }
  destruct Hwhy as [Hs|(k & z & Hk & Hz & Hin)]; [apply Hset in Hs; lia|].
  destruct (ri_unlocks _ _ Hr _ _ _ Hz Hin) as (x' & Hx' & Hreq & _). simplify_eq.
  destruct (raw_next _ _ (ci_ready _ _ Hc _ _ Hx) (ci_ready _ _ Hc _ _ Hz) Hreq) as (_ & Kz & Hs & Hnn).
  apply own_true in O as [_ Sx]. apply (HD _ _ Hz) in Hk; [lia|]. apply own_true. split; congruence.
Qed.

Lemma yields_executes c p D cur ts :
  ReadyInv [] (ready_transactions p) → ChainInv c p → c ≤ cur → reached p D cur →
  yields (ready_transactions p) D ts → ∃ n', executes cur ts n'.
Proof.
  intros Hr Hc Hcur HD Hy. revert cur Hcur HD. induction Hy as [D Hno|D h x ts Ha Hbest Hy IH]; intros cur Hcur HD.
  { exists cur. by constructor. }
  destruct (Ha) as (Hx & Hn & _). destruct (own (ready_tx_of x)) eqn:O.
  - pose proof (available_next c p D cur h x Hr Hc Hcur HD Ha O) as Hnext.
    destruct (IH (cur + 1)) as [n' Hn']; [lia| |exists n'; eapply executes_cons; [|exact Hn']; unfold bump; by rewrite O].
    intros k y Hy' Oy. rewrite elem_of_cons, (HD k y Hy' Oy). split; [intros [->|?]; [simplify_eq; lia|lia]|]. intros Hlt.
    destruct (decide (nonce_of_tx (ready_tx_of y) = cur)) as [En|]; [left|right; lia].
    apply own_true in O as [Kx Sx], Oy as [Ky Sy].
    destruct (raw_plain _ (ci_ready _ _ Hc _ _ Hx) Kx) as [Hpx _]. destruct (raw_plain _ (ci_ready _ _ Hc _ _ Hy') Ky) as [Hpy _].
    eapply (provider_unique Hr); [done|done|exact Hpy|]. rewrite Hpx. f_equal. by rewrite Sx, Sy, En, Hnext.
  - destruct (IH cur Hcur) as [n' Hn']; [|exists n'; eapply executes_cons; [|exact Hn']; unfold bump; by rewrite O].
    intros k y Hy' Oy. rewrite <- (HD k y Hy' Oy), elem_of_cons. split; [|by right]. intros [->|?]; [|done]. congruence.
Qed.

Lemma ready_executes n c p : PoolInv n p → ChainInv c p →
  ∃ ts n', collect (ready_transactions p) = Some ts ∧ executes c ts n' ∧ NoDup (tx_hash <$> ts) ∧
    ∀ t, t ∈ ts ↔ ∃ x, readies p !! tx_hash t = Some x ∧ ready_tx_of x = t.
Proof.
  intros Hp Hc. destruct (collect_ok _ (if_ready _ _ _ Hp)) as (ts & E & Hy & Hnd & Hall).
  destruct (yields_executes c p [] c ts (if_ready _ _ _ Hp) Hc) as [n' Hn']; [done| |done|by exists ts, n'].
  intros h x Hx O. split; [set_solver|]. intros Hlt. destruct (ci_next _ _ Hc _ _ Hx O). lia.
Qed.
End account.
