(* ===== verification/TxPoolBlocks.v ===== *)
(** * Blocks from the pool

    The executor and the pool together, seen from one account: along a history of raw submissions,
    removals and mined blocks, the ready transactions of the account stay executable in the order of the iterator, and
    its nonce for the pending block is the one after all of them. *)
From Stdlib Require Import ZArith Lia.
From stdpp Require Import base tactics option list fin_maps gmap fin_sets.
From S2P Require Import Prelude Base TxPool TxPoolReady TxPoolPending TxPoolOrder TxPoolProps TxPoolNode TxPoolHistory TxPoolChain.
Open Scope Z_scope.

Local Arguments to_marker : simpl never.
Local Arguments be_bytes : simpl never.

(** What the blocks rely on of the executor: nonces are unsigned, and a transaction that is neither a Tempo
    transaction nor a deposit is only executed at the nonce of its sender. *)
Class ExecutorLaws (C : Type) `{BlockExecutor C} := {
  nonce_of : C → Address → Z;
  nonce_of_nonneg c a : 0 ≤ nonce_of c a;
  basic_nonce c a acc : basic c a = Some acc → acc_nonce acc = nonce_of c a;
  transact_nonce c tx c' : transact c tx = Executed c' → is_tempo tx = false → pt_is_deposit tx = false →
    pt_nonce tx = nonce_of c (pt_sender tx);
}.
(** The nonce is checked when the transaction is submitted and when it is executed. *)
Definition checked (tx : PendingTransaction) : bool := negb (is_tempo tx) && negb (pt_is_deposit tx).
Lemma checked_low tx n : nonce_too_low tx n = false → checked tx = true → n ≤ pt_nonce tx.
Proof. unfold nonce_too_low, checked. destruct (is_tempo tx), (pt_is_deposit tx); cbn; try done. rewrite !andb_true_r. lia. Qed.

(** ** The executor *)
Section executor.
Context `{ExecutorLaws C}.
Variables (gas_limit : Z) (cfg : PoolTxGasConfig) (validator : PendingTransaction → AccountInfo → bool).

(** The report lists the transactions of the block in order. *)
Definition reports (res : ExecutedPoolTransactions) : Prop :=
  txs res = pending_transaction <$> included res ∧ length (tx_info res) = length (included res) ∧
  ∀ i info, tx_info res !! i = Some info → ∃ t, included res !! i = Some t ∧ info_transaction_hash info = tx_hash t ∧
    info_transaction_index info = Z.of_nat i ∧ info_from info = sender_of t ∧
    (checked (pending_transaction t) = true → info_nonce info = nonce_of_tx t).
Lemma reports_snoc c t res acc c' : reports res → basic c (sender_of t) = Some acc → transact c (pending_transaction t) = Executed c' →
  reports (mkExecuted (included res ++ [t]) (invalid res) (not_yet_valid res)
    (tx_info res ++ [mkTransactionInfo (tx_hash t) (Z.of_nat (length (tx_info res))) (sender_of t) (acc_nonce acc)])
    (txs res ++ [pending_transaction t])).
Proof.
  intros (Ht & Hlen & Hinfo) Hb E. split_and!; cbn; [by rewrite fmap_app, Ht|rewrite !length_app; cbn; lia|].
  intros i info [Hi|[Hi Hx]]%lookup_app_Some.
  - destruct (Hinfo i info Hi) as (u & Hu & ?). exists u. by rewrite (lookup_app_l_Some _ _ _ _ Hu).
  - assert (i = length (tx_info res)) as -> by (apply lookup_lt_Some in Hx; cbn in Hx; lia).
    rewrite Nat.sub_diag in Hx. cbn in Hx. simplify_eq. exists t. cbn. rewrite Hlen, lookup_app_r, Nat.sub_diag by lia. split_and!; [done..|].
    unfold checked. intros [K1%negb_true_iff K2%negb_true_iff]%andb_true_iff. rewrite (basic_nonce _ _ _ Hb). symmetry. by eapply transact_nonce.
Qed.

(** ** A block and the nonce of an account *)
Variable who : Address.

(** Where [t] is executed: its own transaction raises the nonce of the account by one, no other transaction
    changes it; if the executor does not check the nonce of the transaction, it is the right one. *)
Definition orderly_tx (c : C) (t : PoolTransaction) : Prop :=
  ∀ c', transact c (pending_transaction t) = Executed c' →
    if own who t then nonce_of c' who = nonce_of c who + 1 ∧ (checked (pending_transaction t) = false → nonce_of_tx t = nonce_of c who)
    else nonce_of c' who = nonce_of c who.
Fixpoint orderly_from (s : C * Z * ExecutedPoolTransactions) (ts : list PoolTransaction) : Prop :=
  match ts with
  | [] => True
  | t :: ts => orderly_tx s.1.1 t ∧ orderly_from (execute_pool_transaction gas_limit cfg validator s t) ts
  end.
(** So it is for all transactions of the block. *)
Definition orderly (c : C) (ts : list PoolTransaction) : Prop := orderly_from (c, 0, mkExecuted [] [] [] [] []) ts.

Lemma orderly_bump c t c' : orderly_tx c t → transact c (pending_transaction t) = Executed c' → bump who (nonce_of c who) (nonce_of c' who) t.
Proof.
  intros Ho E. specialize (Ho c' E). unfold bump. destruct (own who t) eqn:O; [|done]. destruct Ho as [Hn Hu]. split; [|done].
  destruct (checked (pending_transaction t)) eqn:K; [|by apply Hu]. unfold checked in K.
  apply andb_true_iff in K as [K1%negb_true_iff K2%negb_true_iff]. apply own_true in O as [_ <-]. by eapply transact_nonce.
Qed.

(** What has been collected from [l] when the executor is in the state of [s]. *)
Definition collected (c0 : C) (l : list PoolTransaction) (s : C * Z * ExecutedPoolTransactions) : Prop :=
  let '(c, _, res) := s in
  executes who (nonce_of c0 who) (included res) (nonce_of c who) ∧ reports res ∧
  included res `sublist_of` l ∧ invalid res `sublist_of` l ∧ not_yet_valid res `sublist_of` l.

Lemma collected_step c0 l s t : orderly_tx s.1.1 t → collected c0 l s → collected c0 (l ++ [t]) (execute_pool_transaction gas_limit cfg validator s t).
Proof.
  destruct s as [[c blob] res]. intros Ho (Hex & Hrep & Hi & Hv & Hn). cbn in Ho. unfold execute_pool_transaction.
  assert (Hskip : collected c0 (l ++ [t]) (c, blob, res)) by (unfold collected; split_and!; [done|done|by apply sublist_inserts_r..]).
  destruct (basic c _) as [acc|] eqn:Eb; [|done]. destruct (_ && _); [done|]. destruct (_ && _); [done|]. destruct (_ <? _); [done|].
  destruct (negb _); [unfold collected; split_and!; [done|done|by apply sublist_inserts_r|by apply sublist_app|by apply sublist_inserts_r]|].
  destruct (transact c _) as [c'| | |] eqn:Et; [| | |done].
  - unfold collected; cbn; split_and!; [|by eapply reports_snoc|by apply sublist_app|by apply sublist_inserts_r..].
    eapply executes_snoc; [done|]. by apply orderly_bump.
  - unfold collected; split_and!; [done|done|by apply sublist_inserts_r|by apply sublist_inserts_r|by apply sublist_app].
  - unfold collected; split_and!; [done|done|by apply sublist_inserts_r|by apply sublist_app|by apply sublist_inserts_r].
Qed.

Lemma execute_ok c ts :
  orderly c ts →
  let '(c', res) := execute_pool_transactions gas_limit cfg validator c ts in
  executes who (nonce_of c who) (included res) (nonce_of c' who) ∧ reports res ∧
  included res `sublist_of` ts ∧ invalid res `sublist_of` ts ∧ not_yet_valid res `sublist_of` ts.
Proof.
  assert (Hfold : ∀ l2 l1 s, orderly_from s l2 → collected c l1 s →
    collected c (l1 ++ l2) (fold_left (execute_pool_transaction gas_limit cfg validator) l2 s)).
  { induction l2 as [|t l2 IH]; intros l1 s Ho Hs; cbn; [by rewrite app_nil_r|]. destruct Ho as [Ht Ho].
    rewrite (app_assoc _ [t] l2 : l1 ++ t :: l2 = (l1 ++ [t]) ++ l2). apply IH; [done|]. by apply collected_step. }
  unfold orderly, execute_pool_transactions. intros Ho. specialize (Hfold ts [] _ Ho).
  destruct (fold_left _ ts _) as [[c' blob] res]. apply Hfold. unfold collected, reports; cbn; split_and!; try done. by constructor.
Qed.
End executor.

(** ** Histories of pool and chain

    As an account sees them.  What is asked of a history concerns the nonce of the account alone: its
    transactions whose nonce is not checked are not stale when they are submitted, its nonce changes
    only as its transactions are mined (not by an authorization it signed, or by a cheat), and each mined one
    raises it by one. *)
Section world.
Context `{HashOrder} `{ExecutorLaws C}.
Variable who : Address.

Inductive world_step : C * PoolInner → C * PoolInner → Prop :=
  | ws_submit c p order tx :
      let t := submitted order (nonce_of c (pt_sender tx)) tx in
      tx_range tx → nonce_too_low tx (nonce_of c (pt_sender tx)) = false →
      (own who t = true → checked tx = false → nonce_of c who ≤ pt_nonce tx) →
      world_step (c, p) (c, snd (add_transaction t p))
  | ws_drop c p h : world_step (c, p) (c, snd (drop_transaction h p))
  | ws_remove_invalid c p hs : world_step (c, p) (c, snd (remove_invalid hs p))
  | ws_remove_by_address c p a : world_step (c, p) (c, snd (remove_transactions_by_address a p))
  | ws_clear c p : world_step (c, p) (c, snd (pool_clear p))
  | ws_mine c p gas_limit cfg validator ts c' res p' :
      (∀ t, t ∈ ts → ∃ x, readies p !! tx_hash t = Some x ∧ ready_tx_of x = t) →
      orderly gas_limit cfg validator who c ts →
      mine_block gas_limit cfg validator c ts p = (c', (res, p')) → world_step (c, p) (c', p')
  | ws_chain c p c' : nonce_of c' who = nonce_of c who → world_step (c, p) (c', p).

Inductive reachable (c0 : C) : nat → C * PoolInner → Prop :=
  | reach_init : reachable c0 0 (c0, pool_empty)
  | reach_step n w w' : reachable c0 n w → world_step w w' → reachable c0 (S n) w'.

Definition WorldInv (n : Z) (w : C * PoolInner) : Prop := PoolInv n (snd w) ∧ ChainInv who (nonce_of (fst w) who) (snd w).

Lemma mine_block_ok n gas_limit cfg validator c ts p :
  WorldInv n (c, p) → (∀ t, t ∈ ts → ∃ x, readies p !! tx_hash t = Some x ∧ ready_tx_of x = t) →
  orderly gas_limit cfg validator who c ts →
  ∃ c' res p', mine_block gas_limit cfg validator c ts p = (c', (Ok res, p')) ∧ WorldInv n (c', p') ∧ reduces p p'.
Proof.
  intros (Hp & Hc) Hts Ho. cbn [fst snd] in *. pose proof (execute_ok gas_limit cfg validator who c ts Ho) as Hex. unfold mine_block.
  destruct (execute_pool_transactions gas_limit cfg validator c ts) as [c' r]. destruct Hex as (Hex & _ & Hsub & _).
  assert (Hin : ∀ t, t ∈ included r → ∃ x, readies p !! tx_hash t = Some x ∧ ready_tx_of x = t).
  { intros t Ht. apply Hts. by eapply elem_of_sublist. }
  destruct (mined_chain who n _ _ (included r) (invalid r) p Hp Hc Hex Hin) as (res & p' & E & Hp' & Hc' & Hred & _).
  exists c', res, p'. split_and!; [by rewrite E|by split|done].
Qed.

Lemma world_step_ok n w w' : WorldInv n w → n + 1 ≤ U64_MAX → world_step w w' → WorldInv (n + 1) w'.
Proof.
  intros Hw Hn Hstep. assert (Hmore : ∀ p', PoolInv n p' → PoolInv (n + 1) p') by (intros p'; apply in_flight_more; lia).
  assert (Htrim : ∀ c p p', WorldInv n (c, p) → PoolInv n p' → trimmed p p' → WorldInv (n + 1) (c, p')).
  { intros c p p' (_ & Hc) Hp' Ht. split; [by apply Hmore|by eapply chain_trimmed]. }
  destruct Hstep as [c p order tx t Htx Hlow Hun|c p h|c p hs|c p a|c p|c p gas_limit cfg validator ts c' res p' Hts Ho E|c p c' Hsame].
  - destruct Hw as (Hp & Hc). cbn [fst snd] in *. pose proof (nonce_of_nonneg c (pt_sender tx)) as Hz. split; cbn [fst snd].
    + destruct (add_transaction_ok n t p Hp Hn (raw_ok _ (submitted_raw order _ tx Htx Hz))) as (res & p' & -> & ? & _). done.
    + apply (add_chain who n); try done. fold t. intros O. pose proof O as [K Hs]%own_true.
      assert (Et : pending_transaction t = tx) by (unfold t, submitted; by destruct (keyed tx)). rewrite Et in *.
      split; [by rewrite Hs|]. destruct (checked tx) eqn:Kc; [|by apply Hun]. rewrite <- Hs. by apply checked_low.
  - destruct (drop_transaction_ok n h p (proj1 Hw)) as (out & p' & -> & ? & ? & _). eauto.
  - destruct (remove_invalid_ok n [] hs p (proj1 Hw)) as (out & p' & -> & ? & ? & _). eauto.
  - destruct (remove_by_address_ok n a p (proj1 Hw)) as (out & p' & -> & ? & ? & _). eauto.
  - destruct (clear_ok n p (proj1 Hw)) as (p' & -> & Hp' & Hr & Hq). split; [by apply Hmore|].
    split; cbn; intros *; rewrite ?Hr, ?Hq, lookup_empty; done.
  - destruct (mine_block_ok n gas_limit cfg validator c ts p Hw Hts Ho) as (c2 & res2 & p2 & E2 & (? & ?) & _).
    rewrite E in E2. simplify_eq. split; [by apply Hmore|done].
  - destruct Hw as [Hp Hc]. split; [by apply Hmore|]. cbn in *. by rewrite Hsame.
Qed.

Lemma reachable_ok c0 n w : reachable c0 n w → Z.of_nat n ≤ U64_MAX → WorldInv (Z.of_nat n) w.
Proof.
  induction 1 as [|n w w' Hreach IH Hstep]; intros Hn.
  - split; [apply pool_inv_empty|apply chain_inv_empty].
  - rewrite Nat2Z.inj_succ in *. eapply world_step_ok; [apply IH; lia|lia|done].
Qed.


(** ** The nonce of the pending block *)
Definition nonces_of (a : Address) (l : list PoolTransaction) : list Z :=
  pt_nonce <$> filter (λ tx, pt_sender tx = a) (pending_transaction <$> l).

Lemma iter_max_spec l m : m ∈ l → (∀ n, n ∈ l → n ≤ m) → iter_max l = Some m.
Proof.
  assert (Hfold : ∀ k x, x ≤ fold_left Z.max k x ∧ (∀ n, n ∈ k → n ≤ fold_left Z.max k x) ∧
    (fold_left Z.max k x = x ∨ fold_left Z.max k x ∈ k)).
  { induction k as [|y k IH]; intros x; cbn; [split_and!; [lia|set_solver|by left]|].
    destruct (IH (Z.max x y)) as (H2 & H3 & H4). split_and!; [lia|intros n [->|?]%elem_of_cons; [lia|auto]|].
    destruct H4 as [->|?]; [|set_solver]. destruct (Z.max_spec x y) as [[_ ->]|[_ ->]]; [set_solver|by left]. }
  destruct l as [|x l]; [set_solver|]. intros Hm Hle. unfold iter_max. f_equal. destruct (Hfold l x) as (H2 & H3 & H4).
  apply Z.le_antisymm.
  - destruct H4 as [->|?]; apply Hle; set_solver.
  - apply elem_of_cons in Hm as [->|?]; [done|auto].
Qed.

Lemma nonces_own l : (∀ t, t ∈ l → sender_of t = who → is_keyed t = false) → nonces_of who l = own_nonces who l.
Proof.
  unfold nonces_of, own_nonces. induction l as [|t l IH]; intros Hl; [done|]. rewrite fmap_cons, !filter_cons.
  specialize (IH (λ u Hu, Hl u (list_elem_of_further _ _ _ Hu))).
  destruct (decide (sender_of t = who)) as [Hs|Hs].
  - rewrite (decide_True (P := own who t = true)); [by rewrite !fmap_cons, IH|]. apply own_true. split; [|done]. apply Hl; [set_solver|done].
  - rewrite (decide_False (P := own who t = true)); [done|]. by intros [_ ?]%own_true.
Qed.

(** For an account without ready transactions that have a nonce key, the nonce of the pending block is
    the one that the account has when all its ready transactions have been executed. *)
Theorem pending_nonce c0 n c p :
  reachable c0 n (c, p) → Z.of_nat n ≤ U64_MAX →
  ∃ ts, collect (ready_transactions p) = Some ts ∧
    let next := nonce_of c who + Z.of_nat (length (own_nonces who ts)) in
    ((∀ t, t ∈ ts → sender_of t = who → is_keyed t = false) → next ≤ U64_MAX → get_nonce_pending (nonce_of c) ts who = next).
Proof.
  intros Hreach Hn. destruct (reachable_ok c0 n (c, p) Hreach Hn) as (Hp & Hc). cbn [fst snd] in *.
  destruct (ready_executes who _ _ p Hp Hc) as (ts & n' & E & Hex & _). exists ts. split; [done|]. intros Hkeys Hmax.
  pose proof (executes_contiguous who _ _ n' Hex) as Hseq. unfold get_nonce_pending, get_pool_transactions_nonce. fold (nonces_of who ts).
  rewrite (nonces_own ts Hkeys). destruct (own_nonces who ts) as [|k l] eqn:El; [cbn; lia|]. rewrite <- El in *.
  assert (Hlen : (0 < length (own_nonces who ts))%nat) by (rewrite El; cbn; lia). clear El.
  set (len := length (own_nonces who ts)) in *.
  rewrite (iter_max_spec _ (nonce_of c who + Z.of_nat len - 1)).
  - cbn. unfold saturating_add. lia.
  - rewrite Hseq. apply elem_of_seqZ. lia.
  - intros m. rewrite Hseq, elem_of_seqZ. lia.
Qed.
End world.
