(* ===== verification/TxPoolMiner.v ===== *)
(** * What the miner takes from the pool

    In every mode the miner takes a prefix of the list of ready transactions, the whole list on
    a tick; after a notification it does not leave a ready transaction behind. *)
From Stdlib Require Import ZArith Lia.
From stdpp Require Import base tactics option list fin_maps gmap fin_sets.
From S2P Require Import Prelude Base TxPool TxPoolReady TxPoolPending TxPoolOrder TxPoolProps TxPoolNode TxPoolHistory TxPoolChain TxPoolBlocks.
Open Scope Z_scope.

(** [take(n).collect()] is the start of [collect()]. *)
Lemma take_next_take m it n : fst (next (snd (take_next m it))) = None →
  fst (take_next n it) = take n (fst (take_next m it)).
Proof.
  revert it n. induction m as [|m IH]; intros it n Hno; cbn [take_next] in *.
  - cbn in Hno. destruct n as [|n]; [done|]. cbn [take_next]. destruct (next it) as [[t|] it1]; [done|]. by cbn.
  - destruct n as [|n]; [done|]. cbn [take_next]. destruct (next it) as [[t|] it1]; [|done].
    specialize (IH it1 n). destruct (take_next m it1) as [l it2], (take_next n it1) as [l' it2']. cbn in *. by rewrite IH.
Qed.
Lemma collect_take r ts n : collect r = Some ts → fst (take_next n (get_transactions r)) = take n ts.
Proof.
  unfold collect. intros E. pose proof (take_next_take (size (ready_tx r)) (get_transactions r) n) as Ht.
  destruct (take_next (size (ready_tx r)) (get_transactions r)) as [l it]. cbn in Ht. destruct (next it) as [[t|] it']; [done|]. simplify_eq. by apply Ht.
Qed.

Lemma combine_unique_app acc l : NoDup (tx_hash <$> acc ++ l) → combine_unique acc l = acc ++ l.
Proof.
  unfold combine_unique. revert acc. induction l as [|t l IH]; intros acc Hnd; cbn; [by rewrite app_nil_r|].
  rewrite fmap_app in Hnd. apply NoDup_app in Hnd as (Hacc & Hdis & Hl).
  assert (Hex : existsb (λ u, tx_hash u =? tx_hash t) acc = false).
  { apply not_true_iff_false. rewrite existsb_exists. intros (u & Hu%list_elem_of_In & He%Z.eqb_eq).
    apply (Hdis (tx_hash u)); [by apply list_elem_of_fmap_2|]. rewrite He. set_solver. }
  rewrite Hex, IH; [by rewrite <- app_assoc|]. rewrite <- app_assoc. cbn. rewrite fmap_app. by apply NoDup_app.
Qed.
Lemma combine_unique_known acc l : (∀ t, t ∈ l → t ∈ acc) → combine_unique acc l = acc.
Proof.
  unfold combine_unique. revert acc. induction l as [|t l IH]; intros acc Hl; cbn; [done|].
  assert (Hex : existsb (λ u, tx_hash u =? tx_hash t) acc = true).
  { apply existsb_exists. exists t. split; [apply list_elem_of_In, Hl; set_solver|by apply Z.eqb_eq]. }
  rewrite Hex. apply IH. set_solver.
Qed.
Lemma combine_unique_take n ts : NoDup (tx_hash <$> ts) → combine_unique (take n ts) ts = ts.
Proof.
  intros Hnd. rewrite <- (take_drop n ts) at 2. unfold combine_unique. rewrite fold_left_app. fold (combine_unique (take n ts) (take n ts)).
  rewrite combine_unique_known by done. fold (combine_unique (take n ts) (drop n ts)). rewrite combine_unique_app by (by rewrite take_drop). apply take_drop.
Qed.

Lemma ready_poll_prefix notified r m ts :
  collect r = Some ts →
  match ready_miner_poll notified r m with
  | (Some l, m') => l = take (max_transactions m) ts ∧ l ≠ []
  | (None, _) => notified = false ∧ has_pending_txs m = Some false ∨ ts = [] ∨ max_transactions m = 0%nat
  end.
Proof.
  intros E. unfold ready_miner_poll. destruct notified.
  - cbn [has_pending_txs max_transactions]. rewrite bool_decide_eq_false_2 by done. rewrite (collect_take r ts _ E).
    case_decide as Hl; [|done]. apply take_nil_inv in Hl. tauto.
  - case_bool_decide as Hp; [by left|]. rewrite (collect_take r ts _ E). case_decide as Hl; [|done]. apply take_nil_inv in Hl. tauto.
Qed.

(** [true] if the mode makes a block at each tick. *)
Definition ticks (mode : MiningMode) : bool := match mode with FixedBlockTime | Mixed _ => true | _ => false end.
(** [true] if the mode listens to new transactions, with room for some. *)
Definition listens (mode : MiningMode) : bool :=
  match mode with Auto m | Mixed m => negb (max_transactions m =? 0)%nat | _ => false end.

(** In every mode, the miner takes from the pool of a history a prefix of the ready transactions, in which those of
    the account carry the nonces that follow it; on a tick it takes all of them, and after a notification it takes some if there are any. *)
Theorem miner_takes_ready `{HashOrder} `{ExecutorLaws C} who (c0 : C) n c p notified tick mode :
  reachable who c0 n (c, p) → Z.of_nat n ≤ U64_MAX →
  ∃ ts, collect (ready_transactions p) = Some ts ∧
    match fst (mode_poll notified tick (ready_transactions p) mode) with
    | Some l => l `prefix_of` ts ∧ own_nonces who l = seqZ (nonce_of c who) (Z.of_nat (length (own_nonces who l))) ∧
        (tick && ticks mode = true → l = ts)
    | None => tick && ticks mode = false ∧ (notified && listens mode = true → ts = [])
    end.
Proof.
  intros Hreach Hn. destruct (reachable_ok who c0 n (c, p) Hreach Hn) as (Hp & Hc). cbn [fst snd] in *.
  destruct (ready_executes who _ _ p Hp Hc) as (ts & f & E & Hf & Hnd & _). exists ts. split; [done|].
  assert (Hpre : ∀ k, own_nonces who (take k ts) = seqZ (nonce_of c who) (Z.of_nat (length (own_nonces who (take k ts))))).
  { intros k. assert (∃ g, executes who (nonce_of c who) (take k ts) g) as [g Hg]; [|by eapply executes_contiguous].
    clear -Hf. revert k. induction Hf as [m|m m1 m' t l Hb Hl IH]; intros k; [exists m; rewrite take_nil; by constructor|].
    destruct k as [|k]; [exists m; by constructor|]. destruct (IH k) as [g' Hg']. exists g'. cbn. by eapply executes_cons. }
  assert (Hall := executes_contiguous who _ _ _ Hf).
  unfold mode_poll, fixed_miner_poll. rewrite E. cbn [from_option].
  destruct mode as [|m| |m]; cbn [ticks listens] in *; rewrite ?andb_false_r, ?andb_true_r in *.
  - done.
  - pose proof (ready_poll_prefix notified _ m ts E) as Hpoll. destruct (ready_miner_poll _ _ m) as [[l|] m']; cbn.
    + destruct Hpoll as [-> _]. split_and!; [apply prefix_take|done|done].
    + split; [done|]. intros [-> Hm%negb_true_iff%Nat.eqb_neq]%andb_true_iff. destruct Hpoll as [[? _]|[?|?]]; done.
  - destruct tick; cbn; [done|]. done.
  - pose proof (ready_poll_prefix notified _ m ts E) as Hpoll. destruct (ready_miner_poll _ _ m) as [[l|] m'].
    + destruct Hpoll as [-> _]. destruct tick; cbn [fst]; [by rewrite (combine_unique_take _ ts Hnd)|].
      split_and!; [apply prefix_take|done|done].
    + destruct tick; cbn; [done|]. split; [done|]. intros [-> Hm%negb_true_iff%Nat.eqb_neq]%andb_true_iff.
      destruct Hpoll as [[? _]|[?|?]]; done.
Qed.
