(* ===== verification/TxPoolRuns.v ===== *)
(** * Runs of the transaction pool

    A concrete iteration order and block executor, the theorems about the pool on short histories,
    and runs that show where the handlers and the pool do not fit together. *)
From Stdlib Require Import ZArith Lia.
From stdpp Require Import base tactics option list fin_maps gmap fin_sets.
From S2P Require Import Prelude Base TxPool TxPoolReady TxPoolPending TxPoolOrder TxPoolProps TxPoolNode TxPoolHistory TxPoolChain TxPoolBlocks TxPoolMiner.
Open Scope Z_scope.

#[local] Instance elements_order : HashOrder := { set_iter A _ _ X := elements X; set_iter_perm A _ _ X := reflexivity _ }.

Local Arguments keyed : simpl never.

(** Accounts with nonces, and a transaction that only uses its nonce. *)
Notation Accounts := (gmap Address Z) (only parsing).
#[local] Instance accounts_executor : BlockExecutor Accounts := {
  basic c a := Some (mkAccountInfo (Z.max 0 (default 0 (c !! a))) 0);
  cumulative_gas_used c := 0;
  transact c tx :=
    if keyed tx then Executed c
    else if pt_nonce tx =? Z.max 0 (default 0 (c !! pt_sender tx)) then Executed (<[pt_sender tx:=pt_nonce tx + 1]> c)
    else Invalid;
}.
#[local] Program Instance accounts_laws : ExecutorLaws Accounts := { nonce_of c a := Z.max 0 (default 0 (c !! a)) }.
Next Obligation. intros c a. cbn. lia. Qed.
Next Obligation. intros c a acc ?. cbn in *. by simplify_eq. Qed.
Next Obligation.
  intros c tx c'. cbn. intros E K _. assert (keyed tx = false) as Hk.
  { unfold is_tempo in K. unfold keyed. destruct (pt_nonce_key tx); [|done]. by rewrite bool_decide_eq_true_2 in K by eauto. }
  rewrite Hk in E. destruct (Z.eqb_spec (pt_nonce tx) (Z.max 0 (default 0 (c !! pt_sender tx)))); by simplify_eq.
Qed.

Definition transfer (hash sender nonce fee : Z) : PendingTransaction := mkPendingTransaction hash sender nonce fee None 21000 None false.

(** ** Histories of the pool *)
Definition first_ops : list PoolOp :=
  [OpAdd (submitted Fees 0 (transfer 11 7 1 5)); OpAdd (submitted Fees 0 (transfer 10 7 0 5));
   OpAdd (submitted Fees 0 (transfer 12 7 0 6)); OpMined [submitted Fees 0 (transfer 12 7 0 6)] []; OpDrop 11].

Ltac solve_handler :=
  split; [vm_compute; split; discriminate|eexists _, _; split; [|left; reflexivity]; vm_compute; discriminate].

Lemma pool_runs_safely_witness :
  Forall2 expected first_ops (fst (run_ops first_ops pool_empty)) ∧ PoolWf (snd (run_ops first_ops pool_empty)).
Proof.
  apply (pool_runs_safely first_ops); [|vm_compute; discriminate].
  repeat (apply Forall_cons; split; [first [exact I|cbn [op_ok]; solve_handler]|]). apply Forall_nil. exact I.
Defined.

(** The second transaction waits for the first, whose addition takes it along. *)
Lemma add_outcome_witness :
  ∃ p', add_transaction (submitted Fees 0 (transfer 10 7 0 5)) (snd (run_ops (take 1 first_ops) pool_empty)) =
    (Ok (AddedAsReady (mkAddedReady 10 [11] [] [])), p') ∧ is_Some (readies p' !! 11).
Proof.
  assert (Hops : Forall op_ok (take 1 first_ops)).
  { apply Forall_cons. split; [cbn [op_ok]; solve_handler|]. apply Forall_nil. exact I. }
  assert (Ht : from_handler (submitted Fees 0 (transfer 10 7 0 5))) by solve_handler.
  assert (Hlen : Z.of_nat (length (take 1 first_ops)) < U64_MAX) by (vm_compute; reflexivity).
  pose proof (add_outcome (take 1 first_ops) (submitted Fees 0 (transfer 10 7 0 5)) Hops Hlen Ht) as Hout.
  cbv zeta in Hout. destruct (add_transaction _ _) as [res p'] eqn:E. exists p'. vm_compute in E. simplify_eq. vm_compute. eauto.
Defined.

(** ** Pool and chain *)

(** Account [7]: nonce [1] arrives first and pays more; it is taken after nonce [0].  Account [8] has used three nonces;
    its Tempo transaction with nonce [1] passes the check of the node and becomes ready, which does not
    concern account [7]. *)
Definition start : Accounts := {[8 := 3]}.
Definition tx0 : PoolTransaction := submitted Fees (nonce_of start 7) (transfer 10 7 0 5).
Definition tx1 : PoolTransaction := submitted Fees (nonce_of start 7) (transfer 11 7 1 9).
Definition stale : PoolTransaction := submitted Fees (nonce_of start 8) (mkPendingTransaction 12 8 1 7 (Some 0) 21000 None false).
Definition two_ready : PoolInner := snd (add_transaction tx0 (snd (add_transaction tx1 pool_empty))).
Definition three_ready : PoolInner := snd (add_transaction stale two_ready).

Ltac solve_submit := first [reflexivity|vm_compute; repeat split; discriminate|intros _; discriminate|discriminate].
Lemma two_ready_reachable : reachable 7 start 2 (start, two_ready).
Proof.
  apply (reach_step _ _ 1 (start, snd (add_transaction tx1 pool_empty))); [apply (reach_step _ _ 0 (start, pool_empty)); [apply reach_init|]|].
  - apply (ws_submit 7 start pool_empty Fees (transfer 11 7 1 9)); solve_submit.
  - apply (ws_submit 7 start _ Fees (transfer 10 7 0 5)); solve_submit.
Qed.
Lemma three_ready_reachable : reachable 7 start 3 (start, three_ready).
Proof.
  apply (reach_step _ _ 2 (start, two_ready)); [apply two_ready_reachable|].
  apply (ws_submit 7 start _ Fees (mkPendingTransaction 12 8 1 7 (Some 0) 21000 None false)); solve_submit.
Qed.


Lemma accounts_orderly who gas_limit cfg validator (c : Accounts) ts : orderly gas_limit cfg validator who c ts.
Proof.
  assert (Htx : ∀ (c : Accounts) t, orderly_tx who c t).
  { intros c1 t c2. cbn. destruct (keyed (pending_transaction t)) eqn:K.
    - intros [= <-]. unfold own. by rewrite K.
    - destruct (Z.eqb_spec (pt_nonce (pending_transaction t)) (Z.max 0 (default 0 (c1 !! pt_sender (pending_transaction t))))) as [En|]; [|done].
      intros [= <-]. destruct (own who t) eqn:O.
      + apply own_true in O as [_ <-]. rewrite lookup_insert_eq. cbn. lia.
      + rewrite lookup_insert_ne; [done|]. intros Hs. assert (own who t = true) by (by apply own_true). congruence. }
  unfold orderly. generalize (c, 0, mkExecuted [] [] [] [] []). induction ts as [|t ts IH]; intros s; cbn; [done|]. split; [apply Htx|apply IH].
Qed.
(** A block of the two transactions of the account: it is orderly, and the history goes on. *)
Definition no_limits : PoolTxGasConfig := mkPoolTxGasConfig true (Some 16777216) 16777216 786432 true.
Example mined_reachable :
  let '(c', (_, p')) := mine_block 30000000 no_limits (λ _ _, true) start [stale; tx0; tx1] three_ready in
  reachable 7 start 4 (c', p') ∧ nonce_of c' 7 = 2 ∧ collect (ready_transactions p') = Some [].
Proof.
  destruct (mine_block 30000000 no_limits (λ _ _, true) start [stale; tx0; tx1] three_ready) as [c' [res p']] eqn:E.
  split; [|vm_compute in E; injection E as <- <- <-; by vm_compute].
  apply (reach_step _ _ 3 (start, three_ready)); [apply three_ready_reachable|].
  apply (ws_mine 7 start three_ready 30000000 no_limits (λ _ _, true) [stale; tx0; tx1] c' res p'); [| |exact E].
  - assert (Hb : Forall (λ t, from_option (λ x, ready_tx_of x = t) False (readies three_ready !! tx_hash t)) [stale; tx0; tx1]).
    { repeat apply Forall_cons_2; try apply Forall_nil_2; vm_compute; reflexivity. }
    intros t Ht. eapply Forall_forall in Hb; [|exact Ht]. destruct (readies three_ready !! tx_hash t) as [x|]; [exact (ex_intro _ x (conj eq_refl Hb))|destruct Hb].
  - apply accounts_orderly.
Qed.

(** The next nonce of the account after its two ready transactions. *)
Lemma pending_nonce_witness : get_nonce_pending (nonce_of start) [tx0; tx1] 7 = 2.
Proof.
  assert (E : collect (ready_transactions two_ready) = Some [tx0; tx1]) by (vm_compute; reflexivity).
  destruct (pending_nonce 7 start 2 start two_ready two_ready_reachable ltac:(vm_compute; discriminate)) as (ts & E' & Hn).
  rewrite E in E'. injection E' as <-. apply Hn; [|vm_compute; discriminate].
  intros t Ht _. apply elem_of_cons in Ht as [->|Ht]; [reflexivity|]. apply list_elem_of_singleton in Ht as ->. reflexivity.
Defined.

Lemma miner_takes_ready_witness :
  fst (mode_poll true false (ready_transactions two_ready) (Auto (mkReadyMiner 1 (Some false)))) = Some [tx0] ∧
  own_nonces 7 [tx0] = seqZ (nonce_of start 7) 1.
Proof.
  destruct (miner_takes_ready 7 start 2 start two_ready true false (Auto (mkReadyMiner 1 (Some false))) two_ready_reachable
    ltac:(vm_compute; discriminate)) as (ts & _ & Hpoll).
  assert (E : fst (mode_poll true false (ready_transactions two_ready) (Auto (mkReadyMiner 1 (Some false)))) = Some [tx0]) by (vm_compute; reflexivity).
  rewrite E in Hpoll. destruct Hpoll as (_ & Hf & _). exact (conj E Hf).
Defined.

(** ** Where the parts do not fit *)

(** The node does not check the nonce of a Tempo transaction, also of one whose key is zero, which uses the
    nonce of the account: with a nonce that the account has used it is accepted and becomes ready; the executor refuses it. *)
Example stale_ready :
  nonce_too_low (pending_transaction stale) (nonce_of start 8) = false ∧ pt_nonce (pending_transaction stale) < nonce_of start 8 ∧
  collect (ready_transactions (snd (add_transaction stale pool_empty))) = Some [stale].
Proof. vm_compute. done. Qed.

(** [eth_sendTransaction] measures the requirement of a transaction against the nonce of the pending block, so it
    never depends on those that are in the pool.  If it pays more than the one before it, the miner
    tries it first, its nonce is too high, and it is removed from the pool as invalid. *)
Definition request0 : PoolTransaction := requested Fees (snd (request_nonce (nonce_of start) [] None 7)) (transfer 10 7 0 5).
Definition one_request : PoolInner := snd (add_transaction request0 pool_empty).
Definition request1 : PoolTransaction :=
  requested Fees (snd (request_nonce (nonce_of start) [request0] None 7)) (transfer 11 7 (fst (request_nonce (nonce_of start) [request0] None 7)) 9).
Definition two_requests : PoolInner := snd (add_transaction request1 one_request).

Example request_nonces : pt_nonce (pending_transaction request1) = 1 ∧ collect (ready_transactions one_request) = Some [request0].
Proof. vm_compute. done. Qed.
Example requests_reordered : collect (ready_transactions two_requests) = Some [request1; request0].
Proof. vm_compute. done. Qed.
Example request_lost :
  let '(c', (_, p')) := mine_one 30000000 no_limits (λ _ _, true) start two_requests in
  nonce_of c' 7 = 1 ∧ contains p' (tx_hash request1) = false.
Proof. vm_compute. done. Qed.

(** A transaction that does not fit into the block stays in the pool, the one that depends on it is removed. *)
Definition block_limit : PoolTxGasConfig := mkPoolTxGasConfig false (Some 16777216) 16777216 786432 true.
Definition large0 : PoolTransaction := submitted Fees 0 (mkPendingTransaction 10 7 0 5 None 40000 None false).
Definition large_first : PoolInner := snd (add_transaction tx1 (snd (add_transaction large0 pool_empty))).
Example dependent_lost :
  let '(_, (_, p')) := mine_one 30000 block_limit (λ _ _, true) start large_first in
  contains p' (tx_hash large0) = true ∧ contains p' (tx_hash tx1) = false.
Proof. vm_compute. done. Qed.

(** A replaced transaction that waits stays in the queue; when it is removed, its replacement can be
    replaced for a lower fee. *)
Definition wait (hash fee : Z) : PoolTransaction := submitted Fees 0 (transfer hash 7 5 fee).
Definition both_wait : PoolInner := snd (add_transaction (wait 21 9) (snd (add_transaction (wait 20 5) pool_empty))).
Example replaced_stays : contains both_wait 20 = true ∧ contains both_wait 21 = true.
Proof. vm_compute. done. Qed.
Example underpriced_accepted :
  fst (add_transaction (wait 22 1) both_wait) = Err (PoolErr (ReplacementUnderpriced 22)) ∧
  fst (add_transaction (wait 22 1) (snd (remove_invalid [20] both_wait))) = Ok (AddedAsPending 22).
Proof. vm_compute. done. Qed.

(** A transaction with a nonce key counts for the nonce of its account. *)
Definition keyed_tx : PoolTransaction := submitted Fees 0 (mkPendingTransaction 30 7 41 5 (Some 3) 21000 None false).
Example keyed_counts :
  collect (ready_transactions (snd (add_transaction keyed_tx pool_empty))) = Some [keyed_tx] ∧
  get_nonce_pending (nonce_of start) [keyed_tx] 7 = 42 ∧ nonce_of start 7 = 0.
Proof. vm_compute. done. Qed.
