(* ===== verification/EvmStorage.v ===== *)
(** * The storage providers of a precompile call

    [src/crates/tempo-precompiles/src/storage/mod.rs], [evm.rs], [hashmap.rs] and
    [thread_local.rs].  A method of a precompile reaches the chain through the trait
    [PrecompileStorageProvider]: here a method is a program of [Prog], a tree of the operations of
    the trait, and a provider is an instance that executes one operation.  Two providers are
    modelled, the one over the EVM's journal, which meters gas, and the in-memory one of the tests.

    The journal, the gas tracker and the gas schedule belong to revm and are classes; [RevmLaws]
    states what the precompiles rely on. *)
From Stdlib Require Import ZArith Lia.
From stdpp Require Import base tactics option list fin_maps gmap functions.
From S2P Require Import Prelude Base.
Open Scope Z_scope.
Open Scope storage_scope.

Notation Bytes := (list Z) (only parsing).

(** ** What revm provides *)

(** [LogData]: topics and data. *)
Record LogData := mkLogData { topics : list B256; log_bytes : Bytes }.

Record JournalCheckpoint := mkCheckpoint { log_i : Z; journal_i : Z; selfdestructed_i : Z }.
Global Instance JournalCheckpoint_eq_dec : EqDecision JournalCheckpoint.
Proof. solve_decision. Defined.

(** [JournalLoadError]: a failing database, or a cold entry that was not to be loaded. *)
Inductive JournalLoadError := DBError | ColdLoadSkipped.

Record BlockEnv := mkBlockEnv { env_chain_id : Z; env_timestamp : Z; env_beneficiary : Address; env_number : Z }.

(** The values of a slot around an SSTORE ([SStoreResult]). *)
Record SStoreResult := mkSStoreResult { original_value : Z; present_value : Z; new_value : Z }.

(** The gas schedule: [GasParams] with the constants of [revm::interpreter::gas]. *)
Record GasParams := mkGasParams {
  code_deposit_cost : Z → Z;
  code_deposit_state_gas : Z → Z;
  create_cost : Z;
  create_state_gas : Z;
  cold_account_additional_cost : Z;
  cold_storage_additional_cost : Z;
  warm_storage_read_cost : Z;
  sstore_static_gas : Z;
  sstore_dynamic_gas : SStoreResult → bool → Z;
  sstore_state_gas : SStoreResult → Z;
  sstore_refund : SStoreResult → Z;
  log_cost : Z → Z → Z;
}.

Class Revm := {
  (* accounts *)
  Bytecode : Type;
  bytecode_len : Bytecode → Z;
  AccountInfo : Type;
  info_default : AccountInfo;
  info_with_code : Bytecode → AccountInfo → AccountInfo;
  info_is_empty : AccountInfo → bool;
  is_empty_code_hash : AccountInfo → bool;
  (* [EvmInternals]: the journal of the transaction over the database *)
  Journal : Type;
  block_env : Journal → BlockEnv;
  load_account_mut : Address → Journal → result JournalLoadError AccountInfo * Journal;
  load_account_mut_skip_cold_load : Address → bool → Journal → result JournalLoadError (AccountInfo * bool) * Journal;
  load_code : Address → Journal → result JournalLoadError AccountInfo * Journal;
  set_code_and_hash_slow : Address → Bytecode → Journal → Journal;
  account_sload : Address → Z → bool → Journal → result JournalLoadError (Z * bool) * Journal;
  account_sstore : Address → Z → Z → bool → Journal → result JournalLoadError (SStoreResult * bool) * Journal;
  internals_tload : Address → Z → Journal → Z;
  internals_tstore : Address → Z → Z → Journal → Journal;
  internals_log : Address → LogData → Journal → Journal;
  internals_checkpoint : Journal → JournalCheckpoint * Journal;
  internals_checkpoint_commit : Journal → Journal;
  internals_checkpoint_revert : JournalCheckpoint → Journal → Journal;
  (* [GasTracker] *)
  GasTracker : Type;
  tracker_new : Z → Z → Z → GasTracker;
  tracker_limit : GasTracker → Z;
  tracker_remaining : GasTracker → Z;
  tracker_reservoir : GasTracker → Z;
  state_gas_spent : GasTracker → Z;
  tracker_refunded : GasTracker → Z;
  record_regular_cost : Z → GasTracker → bool * GasTracker;
  record_state_cost : Z → GasTracker → bool * GasTracker;
  record_refund : Z → GasTracker → GasTracker;
  (* constants of [revm::interpreter::gas] *)
  gas_LOG : Z;
  gas_KECCAK256 : Z;
  gas_KECCAK256WORD : Z;
}.

(** [From<JournalLoadError>] and [From<EvmInternalsError>]. *)
Definition load_error (e : JournalLoadError) : TempoPrecompileError :=
  match e with DBError => Fatal | ColdLoadSkipped => OutOfGas end.

(** ** The trait and the methods written against it *)
Section trait.
Context `{Revm}.

(** The operations of [PrecompileStorageProvider] a method uses, with the type of their result. *)
Inductive StorageOp : Type → Type :=
| ChainId : StorageOp Z
| Timestamp : StorageOp Z
| Beneficiary : StorageOp Address
| BlockNumber : StorageOp Z
| Spec : StorageOp TempoHardfork
| SetCode (address : Address) (code : Bytecode) : StorageOp unit
| WithAccountInfo (address : Address) : StorageOp AccountInfo
| Sload (address : Address) (key : Z) : StorageOp Z
| Tload (address : Address) (key : Z) : StorageOp Z
| Sstore (address : Address) (key value : Z) : StorageOp unit
| Tstore (address : Address) (key value : Z) : StorageOp unit
| EmitEvent (address : Address) (event : LogData) : StorageOp unit
| DeductGas (gas : Z) : StorageOp unit
| RefundGas (gas : Z) : StorageOp unit
| Checkpoint : StorageOp JournalCheckpoint
| CheckpointCommit (cp : JournalCheckpoint) : StorageOp unit
| CheckpointRevert (cp : JournalCheckpoint) : StorageOp unit.

(** A method: it ends with a result, or performs an operation and goes on with its result. *)
Inductive Prog (A : Type) : Type :=
| Done (r : Result A)
| Step {B} (o : StorageOp B) (k : Result B → Prog A).
Arguments Done {A} r.
Arguments Step {A B} o k.

(** A provider: how it executes an operation.  A panic is the error [Aborted]. *)
Class PrecompileStorageProvider (P : Type) := handle : ∀ {B}, StorageOp B → P → Result B * P.

(** [StorageCtx::enter] with a method: a panic ends the run. *)
Fixpoint enter {P} `{PrecompileStorageProvider P} {A} (m : Prog A) (p : P) : Result A * P :=
  match m with
  | Done r => (r, p)
  | Step o k =>
      match handle o p with
      | (Err Aborted, p') => (Err Aborted, p')
      | (r, p') => enter (k r) p'
      end
  end.

(** Go on with the result of [m], error or not; [?] goes on with the value only. *)
Fixpoint then_result {A B} (m : Prog A) (k : Result A → Prog B) : Prog B :=
  match m with
  | Done (Err Aborted) => Done (Err Aborted)
  | Done r => k r
  | Step o k' => Step o (λ r, then_result (k' r) k)
  end.
Global Instance Prog_ret : MRet Prog := λ A a, Done (Ok a).
Global Instance Prog_bind : MBind Prog := λ A B f m,
  then_result m (λ r, match r with Ok a => f a | Err e => Done (Err e) end).
Definition fail {A} (e : TempoPrecompileError) : Prog A := Done (Err e).
Definition perform {B} (o : StorageOp B) : Prog B := Step o Done.

(** *** Default methods of the trait *)
Context `{Primitives}.
Definition ECRECOVER_GAS : Z := 3000.

(** [usize::div_ceil]. *)
Definition div_ceil (a b : Z) : Z := if a mod b =? 0 then a / b else a / b + 1.

Definition keccak_price (len : Z) : option Z :=
  w ← checked_mul U64_MAX gas_KECCAK256WORD (div_ceil len 32);
  checked_add U64_MAX w gas_KECCAK256.

Definition storage_keccak256 (data : Bytes) : Prog B256 :=
  match keccak_price (Z.of_nat (length data)) with
  | Some price => perform (DeductGas price);; mret (keccak256 data)
  | None => fail OutOfGas
  end.

Definition recover_signer (digest : B256) (v : Z) (r s : B256) : Prog (option Address) :=
  perform (DeductGas ECRECOVER_GAS);;
  if negb (v =? 27) && negb (v =? 28) then mret None
  else
    mret (match secp256k1_recover digest r (v =? 28) s with
          | Some addr => if addr =? ZERO then None else Some addr
          | None => None
          end).

(** [ContractStorage::is_initialized] and [StorageCtx::has_bytecode]. *)
Definition is_initialized (address : Address) : Prog bool :=
  info ← perform (WithAccountInfo address);
  mret (negb (is_empty_code_hash info)).

(** *** Checkpoints ([CheckpointGuard]) *)
Definition CheckpointGuard : Type := option JournalCheckpoint.

Definition storage_checkpoint : Prog CheckpointGuard :=
  sp ← perform Spec;
  if is_t1c sp then cp ← perform Checkpoint; mret (Some cp) else mret None.
Definition guard_commit (g : CheckpointGuard) : Prog unit :=
  match g with Some cp => perform (CheckpointCommit cp) | None => mret tt end.
Definition guard_drop (g : CheckpointGuard) : Prog unit :=
  match g with Some cp => perform (CheckpointRevert cp) | None => mret tt end.

(** [let guard = storage.checkpoint(); body; guard.commit()], where an error of [body] leaves
    the scope, which drops the guard. *)
Definition guarded {A} (body : Prog A) : Prog A :=
  guard ← storage_checkpoint;
  then_result body (λ r,
    match r with
    | Ok a => guard_commit guard;; mret a
    | Err e => guard_drop guard;; fail e
    end).
End trait.
Arguments Done {_ A} r.
Arguments Step {_ A B} o k.
