(* ===== verification/EvmProvider.v ===== *)
(** * The EVM's storage provider and the in-memory one

    [storage/evm.rs]: [EvmPrecompileStorageProvider] reaches the journal and meters gas.  As in a
    debug build, it mirrors the open checkpoints and panics when one is resolved out of order.
    [storage/hashmap.rs]: [HashMapStorageProvider], the provider of the tests, keeps maps and
    snapshots of them and does not meter. *)
From Stdlib Require Import ZArith Lia.
From stdpp Require Import base tactics option list fin_maps gmap functions.
From S2P Require Import Prelude Base EvmStorage.
Open Scope Z_scope.
Open Scope storage_scope.

(** ** Computations on a provider *)
Definition PV (P A : Type) : Type := P → Result A * P.
Global Instance PV_ret P : MRet (PV P) := λ A a p, (Ok a, p).
Global Instance PV_bind P : MBind (PV P) := λ A B f m p,
  match m p with
  | (Ok a, p') => f a p'
  | (Err e, p') => (Err e, p')
  end.
Definition pv_gets {P A} (f : P → A) : PV P A := λ p, (Ok (f p), p).
Definition pv_modify {P} (f : P → P) : PV P unit := λ p, (Ok tt, f p).
Definition pv_fail {P A} (e : TempoPrecompileError) : PV P A := λ p, (Err e, p).
Definition pv_when {P} (b : bool) (m : PV P unit) : PV P unit := if b then m else mret tt.

(** ** [EvmPrecompileStorageProvider] *)
Section evm.
Context `{Revm}.

Record EvmProvider := mkEvmProvider {
  internals : Journal;
  gas_tracker : GasTracker;
  evm_spec : TempoHardfork;
  evm_is_static : bool;
  gas_params : GasParams;
  checkpoint_stack : list (Z * Z);
}.
Implicit Types p : EvmProvider.

Definition evm_new (j : Journal) (gas_limit reservoir : Z) (sp : TempoHardfork) (is_static : bool)
    (gp : GasParams) : EvmProvider :=
  mkEvmProvider j (tracker_new gas_limit gas_limit reservoir) sp is_static gp [].
Definition new_max_gas (j : Journal) (sp : TempoHardfork) (gp : GasParams) : EvmProvider :=
  evm_new j U64_MAX 0 sp false gp.

Definition new_with_gas_limit (j : Journal) (sp : TempoHardfork) (gp : GasParams) (gas_limit reservoir : Z) : EvmProvider :=
  evm_new j gas_limit reservoir sp false gp.

Definition with_internals (j : Journal) p : EvmProvider :=
  mkEvmProvider j (gas_tracker p) (evm_spec p) (evm_is_static p) (gas_params p) (checkpoint_stack p).
Definition with_tracker (t : GasTracker) p : EvmProvider :=
  mkEvmProvider (internals p) t (evm_spec p) (evm_is_static p) (gas_params p) (checkpoint_stack p).
Definition with_stack (l : list (Z * Z)) p : EvmProvider :=
  mkEvmProvider (internals p) (gas_tracker p) (evm_spec p) (evm_is_static p) (gas_params p) l.

(** A call of the journal, its errors converted by [?]. *)
Definition on_journal {A} (f : Journal → result JournalLoadError A * Journal) : PV EvmProvider A := λ p,
  let '(r, j) := f (internals p) in
  (match r with Ok a => Ok a | Err e => Err (load_error e) end, with_internals j p).
Definition with_journal (f : Journal → Journal) : PV EvmProvider unit :=
  pv_modify (λ p, with_internals (f (internals p)) p).

Definition deduct_gas (additional_cost : Z) : PV EvmProvider unit := λ p,
  let '(ok, t) := record_regular_cost additional_cost (gas_tracker p) in
  (if ok then Ok tt else Err OutOfGas, with_tracker t p).
Definition deduct_state_gas (gas : Z) : PV EvmProvider unit := λ p,
  let '(ok, t) := record_state_cost gas (gas_tracker p) in
  (if ok then Ok tt else Err OutOfGas, with_tracker t p).
Definition refund_gas (gas : Z) : PV EvmProvider unit :=
  pv_modify (λ p, with_tracker (record_refund gas (gas_tracker p)) p).

(** [self.internals.block_env().number().to::<u64>()], which panics above [u64]. *)
Definition evm_block_number : PV EvmProvider Z :=
  n ← pv_gets (λ p, env_number (block_env (internals p)));
  if n <=? U64_MAX then mret n else pv_fail Aborted.

Definition evm_set_code (address : Address) (code : Bytecode) : PV EvmProvider unit :=
  let code_len := bytecode_len code in
  gp ← pv_gets gas_params;
  deduct_gas (code_deposit_cost gp code_len);;
  deduct_state_gas (code_deposit_state_gas gp code_len);;
  account ← on_journal (load_account_mut address);
  let was_empty := info_is_empty account in
  with_journal (set_code_and_hash_slow address code);;
  sp ← pv_gets evm_spec;
  if is_t4 sp && was_empty then
    deduct_gas (create_cost gp);;
    deduct_state_gas (create_state_gas gp)
  else mret tt.

Definition evm_with_account_info (address : Address) : PV EvmProvider AccountInfo :=
  gp ← pv_gets gas_params;
  let additional_cost := cold_account_additional_cost gp in
  account ← on_journal (load_account_mut_skip_cold_load address false);
  deduct_gas (warm_storage_read_cost gp);;
  pv_when (account.2) (deduct_gas additional_cost);;
  on_journal (load_code address).

Definition evm_sstore (address : Address) (key value : Z) : PV EvmProvider unit :=
  on_journal (load_account_mut address);;
  res ← on_journal (account_sstore address key value false);
  gp ← pv_gets gas_params;
  deduct_gas (sstore_static_gas gp);;
  deduct_gas (sstore_dynamic_gas gp res.1 res.2);;
  deduct_state_gas (sstore_state_gas gp res.1);;
  refund_gas (sstore_refund gp res.1).

Definition evm_tstore (address : Address) (key value : Z) : PV EvmProvider unit :=
  gp ← pv_gets gas_params;
  deduct_gas (warm_storage_read_cost gp);;
  with_journal (internals_tstore address key value).

(** The counts are cast to [u8] and [u64]. *)
Definition evm_emit_event (address : Address) (event : LogData) : PV EvmProvider unit :=
  gp ← pv_gets gas_params;
  deduct_gas (gas_LOG + log_cost gp (Z.of_nat (length (topics event)) mod 256) (Z.of_nat (length (log_bytes event))));;
  with_journal (internals_log address event).

Definition evm_sload (address : Address) (key : Z) : PV EvmProvider Z :=
  gp ← pv_gets gas_params;
  let additional_cost := cold_storage_additional_cost gp in
  on_journal (load_account_mut address);;
  val ← on_journal (account_sload address key false);
  deduct_gas (warm_storage_read_cost gp);;
  pv_when (val.2) (deduct_gas additional_cost);;
  mret (val.1).

Definition evm_tload (address : Address) (key : Z) : PV EvmProvider Z :=
  gp ← pv_gets gas_params;
  deduct_gas (warm_storage_read_cost gp);;
  pv_gets (λ p, internals_tload address key (internals p)).

(** *** Checkpoints *)
Definition track_checkpoint (cp : JournalCheckpoint) : PV EvmProvider unit :=
  pv_modify (λ p, with_stack ((journal_i cp, log_i cp) :: checkpoint_stack p) p).
Definition assert_lifo (cp : JournalCheckpoint) : PV EvmProvider unit := λ p,
  match checkpoint_stack p with
  | [] => (Err Aborted, p)
  | top :: rest =>
      (if bool_decide ((journal_i cp, log_i cp) = top) then Ok tt else Err Aborted, with_stack rest p)
  end.

Definition evm_checkpoint : PV EvmProvider JournalCheckpoint :=
  cp ← (λ p, let '(cp, j) := internals_checkpoint (internals p) in (Ok cp, with_internals j p));
  track_checkpoint cp;;
  mret cp.
Definition evm_checkpoint_commit (cp : JournalCheckpoint) : PV EvmProvider unit :=
  assert_lifo cp;; with_journal internals_checkpoint_commit.
Definition evm_checkpoint_revert (cp : JournalCheckpoint) : PV EvmProvider unit :=
  assert_lifo cp;; with_journal (internals_checkpoint_revert cp).

Global Instance evm_provider : PrecompileStorageProvider EvmProvider := λ B o,
  match o with
  | ChainId => pv_gets (λ p, env_chain_id (block_env (internals p)))
  | Timestamp => pv_gets (λ p, env_timestamp (block_env (internals p)))
  | Beneficiary => pv_gets (λ p, env_beneficiary (block_env (internals p)))
  | BlockNumber => evm_block_number
  | Spec => pv_gets evm_spec
  | SetCode a c => evm_set_code a c
  | WithAccountInfo a => evm_with_account_info a
  | Sload a k => evm_sload a k
  | Tload a k => evm_tload a k
  | Sstore a k v => evm_sstore a k v
  | Tstore a k v => evm_tstore a k v
  | EmitEvent a ev => evm_emit_event a ev
  | DeductGas g => deduct_gas g
  | RefundGas g => refund_gas g
  | Checkpoint => evm_checkpoint
  | CheckpointCommit cp => evm_checkpoint_commit cp
  | CheckpointRevert cp => evm_checkpoint_revert cp
  end.

(** [StorageCtx::enter_evm] and [enter_ctx_with_gas_limit], for callers outside a precompile call. *)
Definition enter_evm {A} (j : Journal) (sp : TempoHardfork) (gp : GasParams) (m : Prog A) : Result A * Journal :=
  let '(r, p) := enter m (new_max_gas j sp gp) in (r, internals p).
Definition enter_ctx_with_gas_limit {A} (j : Journal) (sp : TempoHardfork) (gp : GasParams) (gas_limit reservoir : Z)
    (m : Prog A) : Result A * Z * Journal :=
  let '(r, p) := enter m (new_with_gas_limit j sp gp gas_limit reservoir) in
  (r, tracker_limit (gas_tracker p) - tracker_remaining (gas_tracker p), internals p).
End evm.

(** ** [HashMapStorageProvider] *)
Section hashmap.
Context `{Revm}.

Record Snapshot := mkSnapshot {
  snap_internals : gmap (Address * Z) Z;
  snap_events : gmap Address (list LogData);
}.

Record HashMapProvider := mkHashMapProvider {
  hm_internals : gmap (Address * Z) Z;
  transient : gmap (Address * Z) Z;
  accounts : gmap Address AccountInfo;
  fail_on_sload : option (Address * Z);
  hm_env : BlockEnv;
  hm_spec : TempoHardfork;
  hm_is_static : bool;
  counter_sload : Z;
  counter_sstore : Z;
  snapshots : list Snapshot;
  events : gmap Address (list LogData);
}.
Implicit Types h : HashMapProvider.

Definition set_internals x h := mkHashMapProvider x (transient h) (accounts h) (fail_on_sload h)
  (hm_env h) (hm_spec h) (hm_is_static h) (counter_sload h) (counter_sstore h) (snapshots h) (events h).
Definition set_transient x h := mkHashMapProvider (hm_internals h) x (accounts h) (fail_on_sload h)
  (hm_env h) (hm_spec h) (hm_is_static h) (counter_sload h) (counter_sstore h) (snapshots h) (events h).
Definition set_accounts x h := mkHashMapProvider (hm_internals h) (transient h) x (fail_on_sload h)
  (hm_env h) (hm_spec h) (hm_is_static h) (counter_sload h) (counter_sstore h) (snapshots h) (events h).
Definition set_counters l s h := mkHashMapProvider (hm_internals h) (transient h) (accounts h) (fail_on_sload h)
  (hm_env h) (hm_spec h) (hm_is_static h) l s (snapshots h) (events h).
Definition set_snapshots x h := mkHashMapProvider (hm_internals h) (transient h) (accounts h) (fail_on_sload h)
  (hm_env h) (hm_spec h) (hm_is_static h) (counter_sload h) (counter_sstore h) x (events h).
Definition set_events x h := mkHashMapProvider (hm_internals h) (transient h) (accounts h) (fail_on_sload h)
  (hm_env h) (hm_spec h) (hm_is_static h) (counter_sload h) (counter_sstore h) (snapshots h) x.

(** [HashMapStorageProvider::new_with_spec]; the clock of the machine is an argument. *)
Definition new_with_spec (chain_id : Z) (sp : TempoHardfork) (now_secs : Z) : HashMapProvider :=
  mkHashMapProvider ∅ ∅ ∅ None (mkBlockEnv chain_id now_secs ZERO 0) sp false 0 0 [] ∅.

Definition with_spec (sp : TempoHardfork) h : HashMapProvider :=
  mkHashMapProvider (hm_internals h) (transient h) (accounts h) (fail_on_sload h) (hm_env h) sp
    (hm_is_static h) (counter_sload h) (counter_sstore h) (snapshots h) (events h).

(** [accounts.entry(address).or_default()]. *)
Definition account_of (address : Address) h : AccountInfo := default info_default (accounts h !! address).

Definition hm_set_code (address : Address) (code : Bytecode) : PV HashMapProvider unit :=
  pv_modify (λ h, set_accounts (<[address := info_with_code code (account_of address h)]> (accounts h)) h).
Definition hm_with_account_info (address : Address) : PV HashMapProvider AccountInfo := λ h,
  (Ok (account_of address h), set_accounts (<[address := account_of address h]> (accounts h)) h).
Definition hm_sstore (address : Address) (key value : Z) : PV HashMapProvider unit :=
  pv_modify (λ h, set_counters (counter_sload h) (counter_sstore h + 1) h);;
  pv_modify (λ h, set_internals (<[(address, key) := value]> (hm_internals h)) h).
Definition hm_tstore (address : Address) (key value : Z) : PV HashMapProvider unit :=
  pv_modify (λ h, set_transient (<[(address, key) := value]> (transient h)) h).
Definition hm_emit_event (address : Address) (event : LogData) : PV HashMapProvider unit :=
  pv_modify (λ h, set_events (<[address := default [] (events h !! address) ++ [event]]> (events h)) h).
Definition hm_sload (address : Address) (key : Z) : PV HashMapProvider Z := λ h,
  if bool_decide (fail_on_sload h = Some (address, key)) then (Err Fatal, h)
  else (Ok (hm_internals h).[(address, key)], set_counters (counter_sload h + 1) (counter_sstore h) h).
Definition hm_tload (address : Address) (key : Z) : PV HashMapProvider Z :=
  pv_gets (λ h, (transient h).[(address, key)]).

(** The newest snapshot comes last, as in the vector. *)
Definition hm_checkpoint : PV HashMapProvider JournalCheckpoint := λ h,
  let idx := Z.of_nat (length (snapshots h)) in
  (Ok (mkCheckpoint 0 idx 0), set_snapshots (snapshots h ++ [mkSnapshot (hm_internals h) (events h)]) h).
Definition hm_assert_top (cp : JournalCheckpoint) : PV HashMapProvider unit := λ h,
  (if journal_i cp =? Z.of_nat (length (snapshots h)) - 1 then Ok tt else Err Aborted, h).
Definition hm_checkpoint_commit (cp : JournalCheckpoint) : PV HashMapProvider unit :=
  hm_assert_top cp;;
  pv_modify (λ h, set_snapshots (take (length (snapshots h) - 1) (snapshots h)) h).
(** [self.snapshots.drain(checkpoint.journal_i..).next()]. *)
Definition hm_checkpoint_revert (cp : JournalCheckpoint) : PV HashMapProvider unit :=
  hm_assert_top cp;;
  drained ← pv_gets (λ h, drop (Z.to_nat (journal_i cp)) (snapshots h));
  pv_modify (λ h, set_snapshots (take (Z.to_nat (journal_i cp)) (snapshots h)) h);;
  match drained with
  | snapshot :: _ => pv_modify (λ h, set_events (snap_events snapshot) (set_internals (snap_internals snapshot) h))
  | [] => mret tt
  end.

Global Instance hashmap_provider : PrecompileStorageProvider HashMapProvider := λ B o,
  match o with
  | ChainId => pv_gets (λ h, env_chain_id (hm_env h))
  | Timestamp => pv_gets (λ h, env_timestamp (hm_env h))
  | Beneficiary => pv_gets (λ h, env_beneficiary (hm_env h))
  | BlockNumber => pv_gets (λ h, env_number (hm_env h))
  | Spec => pv_gets hm_spec
  | SetCode a c => hm_set_code a c
  | WithAccountInfo a => hm_with_account_info a
  | Sload a k => hm_sload a k
  | Tload a k => hm_tload a k
  | Sstore a k v => hm_sstore a k v
  | Tstore a k v => hm_tstore a k v
  | EmitEvent a ev => hm_emit_event a ev
  | DeductGas _ => mret (M := PV HashMapProvider) tt
  | RefundGas _ => mret (M := PV HashMapProvider) tt
  | Checkpoint => hm_checkpoint
  | CheckpointCommit cp => hm_checkpoint_commit cp
  | CheckpointRevert cp => hm_checkpoint_revert cp
  end.
End hashmap.
