(* ===== verification/EvmLaws.v ===== *)
(** * What the providers rely on in revm

    The laws of revm's journal, gas tracker and gas schedule, as the documentation of revm gives
    them, over an abstract state of the chain ([EvmState]), and a concrete
    instance that satisfies them, on which the runs evaluate. *)
From Stdlib Require Import ZArith Lia.
From stdpp Require Import base tactics option list fin_maps gmap functions.
From S2P Require Import Prelude Base EvmStorage EvmProvider.
Open Scope Z_scope.
Open Scope storage_scope.

(** ** The state behind a journal *)
Record EvmState (Info : Type) := mkEvmState {
  st_storage : Address * Z → Z;
  st_transient : Address * Z → Z;
  st_info : Address → Info;
  st_logs : list (Address * LogData);
}.
Arguments mkEvmState {Info}.
Arguments st_storage {Info}.
Arguments st_transient {Info}.
Arguments st_info {Info}.
Arguments st_logs {Info}.

Section state.
Context {Info : Type}.
Implicit Types s : EvmState Info.
Definition put_storage a k v s := mkEvmState (<[(a, k) := v]> (st_storage s)) (st_transient s) (st_info s) (st_logs s).
Definition put_transient a k v s := mkEvmState (st_storage s) (<[(a, k) := v]> (st_transient s)) (st_info s) (st_logs s).
Definition put_info a i s := mkEvmState (st_storage s) (st_transient s) (<[a := i]> (st_info s)) (st_logs s).
Definition put_log a l s := mkEvmState (st_storage s) (st_transient s) (st_info s) (st_logs s ++ [(a, l)]).
End state.

(** ** Laws *)
Class RevmLaws `{Revm} := {
  journal_state : Journal → EvmState AccountInfo;
  (** The open checkpoints, the newest first, each with the state it was made in. *)
  open_checkpoints : Journal → list (JournalCheckpoint * EvmState AccountInfo);
  quiet (j j' : Journal) : Prop :=
    journal_state j' = journal_state j ∧ open_checkpoints j' = open_checkpoints j ∧ block_env j' = block_env j;
  writes (f : EvmState AccountInfo → EvmState AccountInfo) (j j' : Journal) : Prop :=
    journal_state j' = f (journal_state j) ∧ open_checkpoints j' = open_checkpoints j ∧ block_env j' = block_env j;
  load_account_law a j r j' :
    load_account_mut a j = (r, j') →
    quiet j j' ∧ ∀ info, r = Ok info → info_is_empty info = info_is_empty (st_info (journal_state j) a);
  load_account_skip_law a b j r j' : load_account_mut_skip_cold_load a b j = (r, j') → quiet j j';
  load_code_law a j r j' :
    load_code a j = (r, j') → quiet j j' ∧ ∀ info, r = Ok info → info = st_info (journal_state j) a;
  set_code_law a c j :
    writes (λ s, put_info a (info_with_code c (st_info s a)) s) j (set_code_and_hash_slow a c j);
  sload_law a k b j r j' :
    account_sload a k b j = (r, j') →
    quiet j j' ∧ ∀ v cold, r = Ok (v, cold) → v = st_storage (journal_state j) (a, k);
  sstore_law a k v b j r j' :
    account_sstore a k v b j = (r, j') →
    match r with Ok _ => writes (put_storage a k v) j j' | Err _ => quiet j j' end;
  tload_law a k j : internals_tload a k j = st_transient (journal_state j) (a, k);
  tstore_law a k v j : writes (put_transient a k v) j (internals_tstore a k v j);
  log_law a l j : writes (put_log a l) j (internals_log a l j);
  checkpoint_law j cp j' :
    internals_checkpoint j = (cp, j') →
    journal_state j' = journal_state j ∧ block_env j' = block_env j ∧
    open_checkpoints j' = (cp, journal_state j) :: open_checkpoints j;
  commit_law j cp s rest :
    open_checkpoints j = (cp, s) :: rest →
    journal_state (internals_checkpoint_commit j) = journal_state j ∧
    block_env (internals_checkpoint_commit j) = block_env j ∧
    open_checkpoints (internals_checkpoint_commit j) = rest;
  revert_law j cp s rest :
    open_checkpoints j = (cp, s) :: rest →
    journal_state (internals_checkpoint_revert cp j) = s ∧
    block_env (internals_checkpoint_revert cp j) = block_env j ∧
    open_checkpoints (internals_checkpoint_revert cp j) = rest;
  (* the gas tracker *)
  tracker_fields (t : GasTracker) : Z * Z * Z * Z :=
    (tracker_limit t, tracker_remaining t, tracker_reservoir t, state_gas_spent t);
  tracker_new_law l r res : tracker_fields (tracker_new l r res) = (l, r, res, 0);
  regular_law g t ok t' :
    0 ≤ g → record_regular_cost g t = (ok, t') →
    if ok then g ≤ tracker_remaining t ∧
      tracker_fields t' = (tracker_limit t, tracker_remaining t - g, tracker_reservoir t, state_gas_spent t)
    else tracker_remaining t < g ∧ tracker_fields t' = tracker_fields t;
  (** State gas is drawn from the reservoir first, the rest from the regular gas. *)
  state_law g t ok t' :
    0 ≤ g → 0 ≤ tracker_reservoir t → state_gas_spent t + g ≤ U64_MAX →
    record_state_cost g t = (ok, t') →
    let spill := Z.max 0 (g - tracker_reservoir t) in
    if ok then spill ≤ tracker_remaining t ∧
      tracker_fields t' = (tracker_limit t, tracker_remaining t - spill,
        Z.max 0 (tracker_reservoir t - g), state_gas_spent t + g)
    else tracker_remaining t < spill ∧ tracker_fields t' = tracker_fields t;
  (** A charge that cannot be met leaves the tracker as it is, whatever its size. *)
  state_overflow_law g t ok t' :
    0 ≤ g → tracker_reservoir t + tracker_remaining t < g → record_state_cost g t = (ok, t') →
    ok = false ∧ tracker_fields t' = tracker_fields t;
  refund_law g t : tracker_fields (record_refund g t) = tracker_fields t;
}.

(** The costs are unsigned. *)
Record gas_params_ok `{Revm} (gp : GasParams) : Prop := {
  ok_code_deposit n : 0 ≤ code_deposit_cost gp n;
  ok_code_deposit_state n : 0 ≤ code_deposit_state_gas gp n;
  ok_create : 0 ≤ create_cost gp;
  ok_create_state : 0 ≤ create_state_gas gp;
  ok_cold_account : 0 ≤ cold_account_additional_cost gp;
  ok_cold_storage : 0 ≤ cold_storage_additional_cost gp;
  ok_warm_read : 0 ≤ warm_storage_read_cost gp;
  ok_sstore_static : 0 ≤ sstore_static_gas gp;
  ok_sstore_dynamic r c : 0 ≤ sstore_dynamic_gas gp r c;
  ok_sstore_state r : 0 ≤ sstore_state_gas gp r;
  ok_log n m : 0 ≤ gas_LOG + log_cost gp n m;
}.
Create HintDb gas.
#[export] Hint Resolve ok_code_deposit ok_code_deposit_state ok_create ok_create_state ok_cold_account
  ok_cold_storage ok_warm_read ok_sstore_static ok_sstore_dynamic ok_sstore_state ok_log : gas.

(** ** An instance *)
Record SampleInfo := mkSampleInfo { si_balance : Z; si_nonce : Z; si_code : Bytes }.
Record SampleJournal := mkSampleJournal {
  sj_env : BlockEnv;
  sj_state : EvmState SampleInfo;
  sj_open : list (JournalCheckpoint * EvmState SampleInfo);
  sj_original : Address * Z → Z;
  sj_warm : list (Address * Z);
}.
Record SampleTracker := mkSampleTracker { t_limit : Z; t_remaining : Z; t_reservoir : Z; t_spent : Z; t_refunded : Z }.

Definition sj_write (f : EvmState SampleInfo → EvmState SampleInfo) (j : SampleJournal) : SampleJournal :=
  mkSampleJournal (sj_env j) (f (sj_state j)) (sj_open j) (sj_original j) (sj_warm j).
Definition sj_touch (k : Address * Z) (j : SampleJournal) : SampleJournal :=
  mkSampleJournal (sj_env j) (sj_state j) (sj_open j) (sj_original j) (k :: sj_warm j).
Definition sj_cold (k : Address * Z) (j : SampleJournal) : bool := bool_decide (k ∉ sj_warm j).
Definition sj_set_open o (j : SampleJournal) : SampleJournal :=
  mkSampleJournal (sj_env j) (sj_state j) o (sj_original j) (sj_warm j).

Definition sample_regular (g : Z) (t : SampleTracker) : bool * SampleTracker :=
  if g <=? t_remaining t
  then (true, mkSampleTracker (t_limit t) (t_remaining t - g) (t_reservoir t) (t_spent t) (t_refunded t))
  else (false, t).
Definition sample_state_cost (g : Z) (t : SampleTracker) : bool * SampleTracker :=
  let spill := Z.max 0 (g - t_reservoir t) in
  if spill <=? t_remaining t
  then (true, mkSampleTracker (t_limit t) (t_remaining t - spill) (Z.max 0 (t_reservoir t - g))
                (Z.min U64_MAX (t_spent t + g)) (t_refunded t))
  else (false, t).

Definition sample_info_of (a : Address) (j : SampleJournal) : SampleInfo := st_info (sj_state j) a.
Global Instance sample_revm : Revm := {|
  Bytecode := Bytes;
  bytecode_len c := Z.of_nat (length c);
  AccountInfo := SampleInfo;
  info_default := mkSampleInfo 0 0 [];
  info_with_code c i := mkSampleInfo (si_balance i) (si_nonce i) c;
  info_is_empty i := (si_balance i =? 0) && (si_nonce i =? 0) && bool_decide (si_code i = []);
  is_empty_code_hash i := bool_decide (si_code i = []);
  Journal := SampleJournal;
  block_env := sj_env;
  load_account_mut a j := (Ok (sample_info_of a j), j);
  load_account_mut_skip_cold_load a _ j := (Ok (sample_info_of a j, sj_cold (a, -1) j), sj_touch (a, -1) j);
  load_code a j := (Ok (sample_info_of a j), j);
  set_code_and_hash_slow a c j :=
    sj_write (λ s, put_info a (mkSampleInfo (si_balance (st_info s a)) (si_nonce (st_info s a)) c) s) j;
  account_sload a k _ j := (Ok (st_storage (sj_state j) (a, k), sj_cold (a, k) j), sj_touch (a, k) j);
  account_sstore a k v _ j :=
    (Ok (mkSStoreResult (sj_original j (a, k)) (st_storage (sj_state j) (a, k)) v, sj_cold (a, k) j),
     sj_write (put_storage a k v) (sj_touch (a, k) j));
  internals_tload a k j := st_transient (sj_state j) (a, k);
  internals_tstore a k v := sj_write (put_transient a k v);
  internals_log a l := sj_write (put_log a l);
  internals_checkpoint j :=
    let cp := mkCheckpoint (Z.of_nat (length (st_logs (sj_state j)))) (Z.of_nat (length (sj_open j))) 0 in
    (cp, sj_set_open ((cp, sj_state j) :: sj_open j) j);
  internals_checkpoint_commit j := sj_set_open (tail (sj_open j)) j;
  internals_checkpoint_revert _ j :=
    match sj_open j with
    | (_, s) :: rest => sj_set_open rest (sj_write (λ _, s) j)
    | [] => j
    end;
  GasTracker := SampleTracker;
  tracker_new l r res := mkSampleTracker l r res 0 0;
  tracker_limit := t_limit;
  tracker_remaining := t_remaining;
  tracker_reservoir := t_reservoir;
  state_gas_spent := t_spent;
  tracker_refunded := t_refunded;
  record_regular_cost := sample_regular;
  record_state_cost := sample_state_cost;
  record_refund g t := mkSampleTracker (t_limit t) (t_remaining t) (t_reservoir t) (t_spent t) (t_refunded t + g);
  gas_LOG := 375; gas_KECCAK256 := 30; gas_KECCAK256WORD := 6;
|}.

Global Instance sample_laws : RevmLaws (H := sample_revm).
Proof.
  refine {| journal_state := sj_state : Journal → EvmState AccountInfo; open_checkpoints := sj_open : Journal → list (JournalCheckpoint * EvmState AccountInfo) |};
    cbn; intros; simplify_eq/=; try done; try naive_solver.
  - by match goal with H : sj_open _ = _ |- _ => rewrite H end.
  - by match goal with H : sj_open _ = _ |- _ => rewrite H end.
  - unfold sample_regular in *. destruct (Z.leb_spec g (t_remaining t)); simplify_eq/=; done.
  - unfold sample_state_cost in *. case_match eqn:Hl; simplify_eq/=; [apply Z.leb_le in Hl|apply Z.leb_gt in Hl].
    + split; [done|]. rewrite Z.min_r by done. done.
    + done.
  - unfold sample_state_cost in *. case_match eqn:Hl; simplify_eq/=; [|done]. apply Z.leb_le in Hl. lia.
Defined.

(** The schedule of the samples: the figures of the hard fork that meters state gas. *)
Definition sample_gas_params : GasParams := {|
  code_deposit_cost n := 200 * Z.max 0 n;
  code_deposit_state_gas n := 1000 * Z.max 0 n;
  create_cost := 32000;
  create_state_gas := 250000;
  cold_account_additional_cost := 2500;
  cold_storage_additional_cost := 2000;
  warm_storage_read_cost := 100;
  sstore_static_gas := 100;
  sstore_dynamic_gas r cold := if cold then 2100 else 0;
  sstore_state_gas r := if (original_value r =? 0) && (present_value r =? 0) && negb (new_value r =? 0) then 230000 else 0;
  sstore_refund r := 0;
  log_cost n m := 375 * Z.max 0 n + 8 * Z.max 0 m;
|}.
Lemma sample_gas_ok : gas_params_ok sample_gas_params.
Proof. split; cbn; intros; repeat case_match; lia. Qed.

Definition sample_journal : SampleJournal :=
  mkSampleJournal (mkBlockEnv 1 1000 7 50)
    (mkEvmState (λ _, 0) (λ _, 0) (λ _, mkSampleInfo 0 0 []) []) [] (λ _, 0) [].
