(* ===== verification/EvmScopes.v ===== *)
(** * Methods and their checkpoints

    A method written with checkpoint guards ([Scoped]) resolves them in order, so the EVM's
    provider never panics; what it leaves unchanged ([evm_step]) and how it spends gas
    ([metered]); and the roll back of a guard that is dropped. *)
From Stdlib Require Import ZArith Lia.
From stdpp Require Import base tactics option list fin_maps gmap functions.
From S2P Require Import Prelude Base EvmStorage EvmProvider EvmLaws.
Open Scope Z_scope.

(** ** Running methods *)
Section running.
Context `{Revm} {P : Type} `{!PrecompileStorageProvider P}.

Lemma enter_then {A B} (m : Prog A) (k : Result A → Prog B) (p : P) :
  enter (then_result m k) p =
  match enter m p with
  | (Err Aborted, p') => (Err Aborted, p')
  | (r, p') => enter (k r) p'
  end.
Proof.
  revert p. induction m as [r|C o k' IH]; intros p; cbn.
  - destruct r as [a|[]]; done.
  - destruct (handle o p) as [[c|[]] p']; rewrite ?IH; done.
Qed.

Lemma enter_perform {B} (o : StorageOp B) (p : P) : enter (perform o) p = handle o p.
Proof. cbn. destruct (handle o p) as [[b|[]] p']; done. Qed.

Lemma enter_bind {A B} (m : Prog A) (f : A → Prog B) (p : P) :
  enter (m ≫= f) p = match enter m p with (Ok a, p') => enter (f a) p' | (Err e, p') => (Err e, p') end.
Proof. unfold mbind, Prog_bind. rewrite enter_then. by destruct (enter m p) as [[a|[]] p']. Qed.
Lemma enter_guarded {A} (body : Prog A) (p : P) :
  enter (guarded body) p =
  match enter storage_checkpoint p with
  | (Ok g, p1) =>
      match enter body p1 with
      | (Err Aborted, p2) => (Err Aborted, p2)
      | (Ok a, p2) => match enter (guard_commit g) p2 with (Ok _, p3) => (Ok a, p3) | (Err e, p3) => (Err e, p3) end
      | (Err e, p2) => match enter (guard_drop g) p2 with (Ok _, p3) => (Err e, p3) | (Err e', p3) => (Err e', p3) end
      end
  | (Err e, p1) => (Err e, p1)
  end.
Proof.
  unfold guarded. rewrite enter_bind. destruct (enter storage_checkpoint p) as [[g|] p1]; [|done].
  rewrite enter_then. destruct (enter body p1) as [[a|e] p2]; [by rewrite enter_bind|].
  destruct e; try done; by rewrite enter_bind.
Qed.
End running.

(** ** Methods written with guards

    [allow inside o]: [o] may be used, inside a guard or not. *)
Section scoped.
Context `{Revm}.
Variable allow : bool → ∀ B, StorageOp B → Prop.

Inductive Scoped : bool → ∀ A, Prog A → Prop :=
| scoped_done inside A (r : Result A) : r ≠ Err Aborted → Scoped inside A (Done r)
| scoped_step inside A B (o : StorageOp B) (k : Result B → Prog A) :
    allow inside B o → (∀ r, r ≠ Err Aborted → Scoped inside A (k r)) → Scoped inside A (Step o k)
| scoped_then inside A B (m : Prog B) (k : Result B → Prog A) :
    Scoped inside B m → (∀ r, r ≠ Err Aborted → Scoped inside A (k r)) → Scoped inside A (then_result m k)
| scoped_guarded inside A (body : Prog A) :
    Scoped true A body → Scoped inside A (guarded body).

Lemma scoped_ret inside A (a : A) : Scoped inside A (mret a).
Proof. by constructor. Qed.
Lemma scoped_fail inside A e : e ≠ Aborted → Scoped inside A (fail e).
Proof. intros. constructor. congruence. Qed.
Lemma scoped_perform inside B (o : StorageOp B) : allow inside B o → Scoped inside B (perform o).
Proof. intros. constructor; [done|]. by constructor. Qed.
Lemma scoped_bind inside A B (m : Prog A) (f : A → Prog B) :
  Scoped inside A m → (∀ a, Scoped inside B (f a)) → Scoped inside B (m ≫= f).
Proof. intros Hm Hf. apply scoped_then; [done|]. intros [a|e] Hr; [done|]. apply scoped_fail. congruence. Qed.
End scoped.
Arguments Scoped {_} allow inside {A} m.
Create HintDb scoped.
#[export] Hint Resolve scoped_ret scoped_fail scoped_perform scoped_bind scoped_guarded : scoped.

(** The shape of a method decides. *)
Ltac solve_scoped := repeat match goal with
  | |- Scoped _ _ (_ ≫= _) => apply scoped_bind; [|intros ?]
  | |- Scoped _ _ (guarded _) => apply scoped_guarded
  | |- Scoped _ _ (then_result _ _) => apply scoped_then; [|intros ? ?]
  | |- Scoped _ _ (perform _) => apply scoped_perform
  | |- Scoped _ _ (fail _) => apply scoped_fail
  | |- Scoped _ _ (mret _) => apply scoped_ret
  end; try done.

(** The operations of a method: checkpoints are taken by guards only, and gas is unsigned. *)
Definition plain `{Revm} {B} (o : StorageOp B) : Prop :=
  match o with
  | Checkpoint | CheckpointCommit _ | CheckpointRevert _ => False
  | DeductGas g => 0 ≤ g
  | _ => True
  end.
(** Neither transient storage nor code is written. *)
Definition keeps_transient_and_code `{Revm} {B} (o : StorageOp B) : Prop :=
  match o with Tstore _ _ _ | SetCode _ _ => False | _ => True end.

Definition any_op `{Revm} (inside : bool) B (o : StorageOp B) : Prop := plain o.
Definition rollback_safe `{Revm} (inside : bool) B (o : StorageOp B) : Prop :=
  plain o ∧ (inside = true → keeps_transient_and_code o).

Lemma scoped_mono `{Revm} (allow1 allow2 : bool → ∀ B, StorageOp B → Prop) inside A (m : Prog A) :
  (∀ b B o, allow1 b B o → allow2 b B o) → Scoped allow1 inside m → Scoped allow2 inside m.
Proof.
  intros Himp. induction 1; [by apply scoped_done|apply scoped_step|apply scoped_then|apply scoped_guarded]; eauto.
Qed.

(** ** Gas along a run

    [metered r s t t']: from [t] to [t'] the tracker met regular charges of [r] in total and
    state charges of [s]; charges that it could not meet and refunds do not count. *)
Section metering.
Context `{RevmLaws}.

Inductive metered : Z → Z → GasTracker → GasTracker → Prop :=
| metered_nil t : metered 0 0 t t
| metered_regular r s t t1 g t2 :
    metered r s t t1 → 0 ≤ g → record_regular_cost g t1 = (true, t2) → metered (r + g) s t t2
| metered_state r s t t1 g t2 :
    metered r s t t1 → 0 ≤ g → record_state_cost g t1 = (true, t2) → metered r (s + g) t t2
| metered_unmet_regular r s t t1 g t2 :
    metered r s t t1 → 0 ≤ g → record_regular_cost g t1 = (false, t2) → metered r s t t2
| metered_unmet_state r s t t1 g t2 :
    metered r s t t1 → 0 ≤ g → record_state_cost g t1 = (false, t2) → metered r s t t2
| metered_refund r s t t1 g : metered r s t t1 → metered r s t (record_refund g t1).

Lemma metered_trans r1 s1 r2 s2 t1 t2 t3 :
  metered r1 s1 t1 t2 → metered r2 s2 t2 t3 → metered (r1 + r2) (s1 + s2) t1 t3.
Proof.
  intros H1 H2. induction H2; rewrite ?Z.add_0_r, ?Z.add_assoc; eauto using metered.
Qed.
Lemma metered_nonneg r s t t' : metered r s t t' → 0 ≤ r ∧ 0 ≤ s.
Proof. induction 1; lia. Qed.

(** The gas of a call fits in 64 bits. *)
Definition tracker_ok (t : GasTracker) : Prop :=
  0 ≤ tracker_remaining t ∧ 0 ≤ tracker_reservoir t ∧ 0 ≤ state_gas_spent t ∧
  state_gas_spent t + tracker_remaining t + tracker_reservoir t ≤ U64_MAX.

(** The balance sheet of the tracker. *)
Record books (r s : Z) (t t' : GasTracker) : Prop := {
  books_limit : tracker_limit t' = tracker_limit t;
  books_remaining : tracker_remaining t' = tracker_remaining t - r - Z.max 0 (s - tracker_reservoir t);
  books_reservoir : tracker_reservoir t' = Z.max 0 (tracker_reservoir t - s);
  books_spent : state_gas_spent t' = state_gas_spent t + s;
  books_ok : tracker_ok t';
}.
Lemma fields_books r s t t1 t2 : tracker_fields t2 = tracker_fields t1 → books r s t t1 → books r s t t2.
Proof.
  unfold tracker_fields. intros [= E1 E2 E3 E4] [H1 H2 H3 H4 H5]. unfold tracker_ok in *.
  split; rewrite ?E1, ?E2, ?E3, ?E4; try done. unfold tracker_ok. rewrite E2, E3, E4. done.
Qed.

Lemma metered_books r s t t' : tracker_ok t → metered r s t t' → books r s t t'.
Proof.
  intros Hok. induction 1 as [t|r s t t1 g t2 Hm IH Hg Hc|r s t t1 g t2 Hm IH Hg Hc|r s t t1 g t2 Hm IH Hg Hc|
    r s t t1 g t2 Hm IH Hg Hc|r s t t1 g Hm IH].
  - unfold tracker_ok in *. split; try lia. done.
  - specialize (IH Hok). apply metered_nonneg in Hm. apply regular_law in Hc as [Hle Hf]; [|done].
    destruct IH as [I1 I2 I3 I4 I5]. unfold tracker_fields in Hf. injection Hf as F1 F2 F3 F4.
    unfold tracker_ok in *. split; unfold tracker_ok; rewrite ?F1, ?F2, ?F3, ?F4; lia.
  - specialize (IH Hok). apply metered_nonneg in Hm. destruct IH as [I1 I2 I3 I4 I5]. unfold tracker_ok in *.
    destruct (Z.leb_spec (state_gas_spent t1 + g) U64_MAX) as [Hle|Hgt].
    + apply state_law in Hc as [Hsp Hf]; [|lia..]. unfold tracker_fields in Hf. injection Hf as F1 F2 F3 F4.
      split; unfold tracker_ok; rewrite ?F1, ?F2, ?F3, ?F4; lia.
    + apply state_overflow_law in Hc as [? _]; [done|lia..].
  - apply regular_law in Hc as [_ Hf]; [|done]. by eapply fields_books; [|apply IH].
  - specialize (IH Hok). pose proof IH as [I1 I2 I3 I4 I5]. unfold tracker_ok in I5.
    eapply fields_books; [|exact IH].
    destruct (Z.leb_spec (state_gas_spent t1 + g) U64_MAX) as [Hle|Hgt].
    + apply state_law in Hc as [_ Hf]; [done|lia..].
    + apply state_overflow_law in Hc as [_ Hf]; [done|lia..].
  - eapply fields_books; [apply refund_law|]. by apply IH.
Qed.
End metering.
