(* ===== verification/EvmFrame.v ===== *)
(** * What an operation of the EVM's provider does

    Gas aside ([tame]: it meters, and changes neither the call's settings nor the open
    checkpoints), an operation leaves the state of the chain as it is or makes its one write
    ([at_most_writes]); a write it reports has been made. *)
From Stdlib Require Import ZArith Lia.
From stdpp Require Import base tactics option list fin_maps gmap functions.
From S2P Require Import Prelude Base EvmStorage EvmProvider EvmLaws EvmScopes.
Open Scope Z_scope.

(** ** Inversion *)
Lemma pv_bind_inv {P A B} (m : PV P A) (f : A → PV P B) p r p' :
  (m ≫= f) p = (r, p') →
  (∃ e, m p = (Err e, p') ∧ r = Err e) ∨ (∃ a p1, m p = (Ok a, p1) ∧ f a p1 = (r, p')).
Proof. unfold mbind, PV_bind. destruct (m p) as [[a|e] p1]; naive_solver. Qed.
Lemma pv_bind_ok {P A B} (m : PV P A) (f : A → PV P B) p b p' :
  (m ≫= f) p = (Ok b, p') → ∃ a p1, m p = (Ok a, p1) ∧ f a p1 = (Ok b, p').
Proof. intros [(e & _ & [=])|?]%pv_bind_inv. done. Qed.

Section frame.
Context `{RevmLaws}.
Implicit Types p : EvmProvider.

Definition checkpoint_ids (l : list (JournalCheckpoint * EvmState AccountInfo)) : list (Z * Z) :=
  map (λ c, (journal_i c.1, log_i c.1)) l.

(** A provider in use: its schedule is unsigned, the block number fits, and the stack of the
    debug build mirrors the newest of the open checkpoints (the others are those of the frames around the
    call). *)
Record provider_ok p : Prop := {
  pok_gas : gas_params_ok (gas_params p);
  pok_number : env_number (block_env (internals p)) ≤ U64_MAX;
  pok_stack : checkpoint_stack p `prefix_of` checkpoint_ids (open_checkpoints (internals p));
}.

Record settings_kept p p' : Prop := {
  kept_spec : evm_spec p' = evm_spec p;
  kept_static : evm_is_static p' = evm_is_static p;
  kept_gas : gas_params p' = gas_params p;
  kept_env : block_env (internals p') = block_env (internals p);
}.
(** A balanced step: the checkpoints open before it are open after it, and no others. *)
Record evm_step p p' : Prop := {
  step_settings : settings_kept p p';
  step_stack : checkpoint_stack p' = checkpoint_stack p;
  step_open : open_checkpoints (internals p') = open_checkpoints (internals p);
  step_metered : ∃ r s, metered r s (gas_tracker p) (gas_tracker p');
}.
Global Instance settings_kept_preorder : PreOrder settings_kept.
Proof. split; [done|]. intros p1 p2 p3 [] []. split; congruence. Qed.
Global Instance evm_step_preorder : PreOrder evm_step.
Proof.
  split.
  - intros p. split; try done. exists 0, 0. constructor.
  - intros p1 p2 p3 [S1 T1 O1 (r1 & s1 & M1)] [S2 T2 O2 (r2 & s2 & M2)].
    split; [by etrans|congruence..|]. eexists _, _. by eapply metered_trans.
Qed.
Lemma evm_step_ok p p' : provider_ok p → evm_step p p' → provider_ok p'.
Proof. intros [] [[] ? ? _]. split; congruence. Qed.

(** ** Gas and settings *)
Definition tame {A} (m : PV EvmProvider A) : Prop :=
  ∀ p r p', provider_ok p → m p = (r, p') → r ≠ Err Aborted ∧ evm_step p p'.

Lemma tame_ret {A} (a : A) : tame (mret a).
Proof. intros p r p' _ [= <- <-]. done. Qed.
Lemma tame_gets {A} (f : EvmProvider → A) : tame (pv_gets f).
Proof. intros p r p' _ [= <- <-]. done. Qed.
Lemma tame_bind {A B} (m : PV EvmProvider A) (f : A → PV EvmProvider B) :
  tame m → (∀ a, tame (f a)) → tame (m ≫= f).
Proof.
  intros Hm Hf p r p' Hok [(e & Hrun & ->)|(a & p1 & H1 & H2)]%pv_bind_inv.
  - by apply Hm in Hrun as [Hne Hs]; [split; [congruence|done]|].
  - apply Hm in H1 as [_ H1]; [|done]. apply Hf in H2 as [? H2]; [|by eapply evm_step_ok].
    split; [done|]. by etrans.
Qed.
Lemma tame_params {A} (f : GasParams → PV EvmProvider A) :
  (∀ gp, gas_params_ok gp → tame (f gp)) → tame (gp ← pv_gets gas_params; f gp).
Proof. intros Hf p r p' Hok Hrun. exact (Hf _ (pok_gas _ Hok) p r p' Hok Hrun). Qed.
Lemma tame_deduct g : 0 ≤ g → tame (deduct_gas g).
Proof.
  unfold deduct_gas. intros Hg p r p' _ Hrun. destruct (record_regular_cost _ _) as [[] t] eqn:Hc; simplify_eq;
    (split; [done|]); (split; [done..|]); cbn.
  - exists (0 + g), 0. econstructor; [constructor|done..].
  - exists 0, 0. econstructor; [constructor|done..].
Qed.
Lemma tame_deduct_state g : 0 ≤ g → tame (deduct_state_gas g).
Proof.
  unfold deduct_state_gas. intros Hg p r p' _ Hrun. destruct (record_state_cost _ _) as [[] t] eqn:Hc; simplify_eq;
    (split; [done|]); (split; [done..|]); cbn.
  - exists 0, (0 + g). econstructor; [constructor|done..].
  - exists 0, 0. eapply metered_unmet_state; [constructor|done..].
Qed.
Lemma tame_refund g : tame (refund_gas g).
Proof.
  intros p r p' _ [= <- <-]. split; [done|]. split; [done..|]. exists 0, 0. apply metered_refund. constructor.
Qed.
Lemma tame_when b (m : PV EvmProvider unit) : tame m → tame (pv_when b m).
Proof. destruct b; [done|]. intros _. apply tame_ret. Qed.
Lemma tame_journal {A} (f : Journal → result JournalLoadError A * Journal) (g : EvmState AccountInfo → EvmState AccountInfo) :
  (∀ j r j', f j = (r, j') → quiet j j' ∨ writes g j j') → tame (on_journal f).
Proof.
  intros Hf p r p' _ Hrun. unfold on_journal in Hrun. destruct (f (internals p)) as [r1 j] eqn:Hj. simplify_eq.
  split; [by destruct r1 as [|[]]|].
  assert (open_checkpoints j = open_checkpoints (internals p) ∧ block_env j = block_env (internals p)) as [? ?]
    by (destruct (Hf _ _ _ Hj) as [(_&?&?)|(_&?&?)]; done).
  split; try done. exists 0, 0. constructor.
Qed.
Lemma tame_write f g : (∀ j, writes g j (f j)) → tame (with_journal f).
Proof.
  intros Hf p r p' _ [= <- <-]. split; [done|]. destruct (Hf (internals p)) as (_ & ? & ?).
  split; try done. exists 0, 0. constructor.
Qed.
Lemma tame_block_number : tame evm_block_number.
Proof.
  intros p r p' Hok Hrun. pose proof (pok_number _ Hok) as Hn. apply Z.leb_le in Hn.
  apply pv_bind_inv in Hrun as [(e & [=] & _)|(n & p1 & [= <- <-] & Hrun)].
  cbn beta in Hrun. rewrite Hn in Hrun. by eapply tame_ret.
Qed.

(** ** The state of the chain *)
Definition quietly {A} (m : PV EvmProvider A) : Prop :=
  ∀ p r p', m p = (r, p') → quiet (internals p) (internals p').
Definition at_most_writes {A} (f : EvmState AccountInfo → EvmState AccountInfo) (m : PV EvmProvider A) : Prop :=
  ∀ p r p', m p = (r, p') →
    (quiet (internals p) (internals p') ∧ is_ok r = false) ∨ writes f (internals p) (internals p').

Lemma quiet_refl j : quiet j j.
Proof. done. Qed.
Lemma quiet_trans j1 j2 j3 : quiet j1 j2 → quiet j2 j3 → quiet j1 j3.
Proof. intros (?&?&?) (?&?&?). repeat split; congruence. Qed.
Lemma quietly_ret {A} (a : A) : quietly (mret a).
Proof. intros p r p' [= <- <-]. done. Qed.
Lemma quietly_gets {A} (f : EvmProvider → A) : quietly (pv_gets f).
Proof. intros p r p' [= <- <-]. done. Qed.
Lemma quietly_fail {A} e : quietly (pv_fail (A := A) e).
Proof. intros p r p' [= <- <-]. done. Qed.
Lemma quietly_bind {A B} (m : PV EvmProvider A) (f : A → PV EvmProvider B) :
  quietly m → (∀ a, quietly (f a)) → quietly (m ≫= f).
Proof.
  intros Hm Hf p r p' [(e & Hrun & ->)|(a & p1 & H1 & H2)]%pv_bind_inv; [by eapply Hm|].
  eapply quiet_trans; [by eapply Hm|by eapply Hf].
Qed.
Lemma quietly_deduct g : quietly (deduct_gas g).
Proof. unfold deduct_gas. intros p r p' Hrun. case_match. by simplify_eq. Qed.
Lemma quietly_deduct_state g : quietly (deduct_state_gas g).
Proof. unfold deduct_state_gas. intros p r p' Hrun. case_match. by simplify_eq. Qed.
Lemma quietly_refund g : quietly (refund_gas g).
Proof. intros p r p' [= <- <-]. done. Qed.
Lemma quietly_when b (m : PV EvmProvider unit) : quietly m → quietly (pv_when b m).
Proof. destruct b; [done|]. intros _. apply quietly_ret. Qed.
Lemma quietly_journal {A} (f : Journal → result JournalLoadError A * Journal) :
  (∀ j r j', f j = (r, j') → quiet j j') → quietly (on_journal f).
Proof.
  intros Hf p r p' Hrun. unfold on_journal in Hrun. destruct (f (internals p)) as [r1 j] eqn:Hj. simplify_eq.
  by eapply Hf.
Qed.

Lemma amw_before {A B} f (m : PV EvmProvider A) (k : A → PV EvmProvider B) :
  quietly m → (∀ a, at_most_writes f (k a)) → at_most_writes f (m ≫= k).
Proof.
  intros Hm Hk p r p' [(e & Hrun & ->)|(a & p1 & H1 & H2)]%pv_bind_inv; [left; split; [by eapply Hm|done]|].
  apply Hm in H1 as (Q1 & Q2 & Q3). apply Hk in H2 as [[(?&?&?) ?]|(W1&?&?)].
  - left. repeat split; congruence.
  - right. rewrite Q1 in W1. repeat split; congruence.
Qed.
Lemma amw_after {A B} f (m : PV EvmProvider A) (k : A → PV EvmProvider B) :
  at_most_writes f m → (∀ a, quietly (k a)) → at_most_writes f (m ≫= k).
Proof.
  intros Hm Hk p r p' [(e & Hrun & ->)|(a & p1 & H1 & H2)]%pv_bind_inv.
  - destruct (Hm _ _ _ Hrun) as [[]|]; [by left|by right].
  - apply Hk in H2 as (Q1 & Q2 & Q3). apply Hm in H1 as [[_ [=]]|(?&?&?)]. right. repeat split; congruence.
Qed.
Lemma amw_write f g : (∀ j, writes g j (f j)) → at_most_writes g (with_journal f).
Proof. intros Hf p r p' [= <- <-]. right. apply Hf. Qed.
Lemma amw_journal {A} (f : Journal → result JournalLoadError A * Journal) g :
  (∀ j r j', f j = (r, j') → match r with Ok _ => writes g j j' | Err _ => quiet j j' end) →
  at_most_writes g (on_journal f).
Proof.
  intros Hf p r p' Hrun. unfold on_journal in Hrun. destruct (f (internals p)) as [r1 j] eqn:Hj. simplify_eq.
  apply Hf in Hj. destruct r1; [by right|by left].
Qed.

Lemma quietly_load_account a : quietly (on_journal (load_account_mut a)).
Proof. apply quietly_journal. intros j r j' [? _]%load_account_law. done. Qed.
Lemma quietly_sload_journal a k : quietly (on_journal (account_sload a k false)).
Proof. apply quietly_journal. intros j r j' [? _]%sload_law. done. Qed.
Lemma quietly_skip_cold a : quietly (on_journal (load_account_mut_skip_cold_load a false)).
Proof. apply quietly_journal. intros j r j' ?%load_account_skip_law. done. Qed.
Lemma quietly_load_code a : quietly (on_journal (load_code a)).
Proof. apply quietly_journal. intros j r j' [? _]%load_code_law. done. Qed.
End frame.
Create HintDb evm.
#[export] Hint Resolve quietly_ret quietly_gets quietly_fail quietly_deduct quietly_deduct_state quietly_refund
  quietly_load_account quietly_sload_journal quietly_skip_cold quietly_load_code : evm.
Ltac solve_quietly := repeat (intros; first
  [ solve [auto with evm nocore] | apply quietly_bind | apply quietly_when
  | match goal with |- quietly (if ?b then _ else _) => destruct b end ]).
#[export] Hint Resolve tame_ret tame_gets tame_deduct tame_deduct_state tame_refund tame_block_number : evm.
