(* ===== verification/EvmOps.v ===== *)
(** * The operations and guards of the EVM's provider

    Each plain operation is tame and makes at most its write ([op_write]); a method with guards
    steps in balance and never panics; a dropped guard restores the state it was made in. *)
From Stdlib Require Import ZArith Lia.
From stdpp Require Import base tactics option list fin_maps gmap functions.
From S2P Require Import Prelude Base EvmStorage EvmProvider EvmLaws EvmScopes EvmFrame.
Open Scope Z_scope.

Section ops.
Context `{RevmLaws}.
Implicit Types p : EvmProvider.

(** ** Operations *)
Definition op_write {B} (o : StorageOp B) (s : EvmState AccountInfo) : EvmState AccountInfo :=
  match o with
  | SetCode a c => put_info a (info_with_code c (st_info s a)) s
  | Sstore a k v => put_storage a k v s
  | Tstore a k v => put_transient a k v s
  | EmitEvent a l => put_log a l s
  | _ => s
  end.

(** What a plain operation answers, read off the state and the block it finds. *)
Definition op_answer {B} (o : StorageOp B) (sp : TempoHardfork) (env : BlockEnv) (s : EvmState AccountInfo) :
    B → Prop :=
  match o in StorageOp B return B → Prop with
  | ChainId => λ n, n = env_chain_id env
  | Timestamp => λ n, n = env_timestamp env
  | Beneficiary => λ a, a = env_beneficiary env
  | BlockNumber => λ n, n = env_number env
  | Spec => λ f, f = sp
  | WithAccountInfo a => λ i, i = st_info s a
  | Sload a k => λ v, v = st_storage s (a, k)
  | Tload a k => λ v, v = st_transient s (a, k)
  | _ => λ _, True
  end.

Lemma tame_load_account a : tame (on_journal (load_account_mut a)).
Proof. apply (tame_journal _ id). intros j r j' [? _]%load_account_law. by left. Qed.
Lemma tame_skip_cold a : tame (on_journal (load_account_mut_skip_cold_load a false)).
Proof. apply (tame_journal _ id). intros j r j' ?%load_account_skip_law. by left. Qed.
Lemma tame_load_code a : tame (on_journal (load_code a)).
Proof. apply (tame_journal _ id). intros j r j' [? _]%load_code_law. by left. Qed.
Lemma tame_sload a k : tame (on_journal (account_sload a k false)).
Proof. apply (tame_journal _ id). intros j r j' [? _]%sload_law. by left. Qed.
Lemma tame_sstore a k v : tame (on_journal (account_sstore a k v false)).
Proof. apply (tame_journal _ (put_storage a k v)). intros j r j' Hs%sstore_law. destruct r; [by right|by left]. Qed.
Lemma tame_set_code a c : tame (with_journal (set_code_and_hash_slow a c)).
Proof. apply (tame_write _ (λ s, put_info a (info_with_code c (st_info s a)) s)). apply set_code_law. Qed.
Lemma tame_tstore a k v : tame (with_journal (internals_tstore a k v)).
Proof. apply (tame_write _ (put_transient a k v)). apply tstore_law. Qed.
Lemma tame_log a l : tame (with_journal (internals_log a l)).
Proof. apply (tame_write _ (put_log a l)). apply log_law. Qed.

Hint Resolve tame_load_account tame_skip_cold tame_load_code tame_sload tame_sstore tame_set_code tame_tstore
  tame_log : evm.
Ltac solve_tame := repeat (intros; first
  [ solve [eauto with evm gas nocore] | apply tame_when | apply tame_params | apply tame_bind
  | match goal with |- tame (if ?b then _ else _) => destruct b end ]).

Lemma handle_tame {B} (o : StorageOp B) : plain o → tame (handle o).
Proof.
  destruct o; cbn; intros Ho; try done; try solve [eauto with evm]; cbv delta [evm_set_code evm_with_account_info
    evm_sload evm_tload evm_sstore evm_tstore evm_emit_event] beta zeta; solve_tame.
Qed.

Lemma quietly_writes {A} (m : PV EvmProvider A) : quietly m → at_most_writes id m.
Proof. intros Hm p r p' Hrun. right. by eapply Hm. Qed.
Lemma quietly_block_number : quietly evm_block_number.
Proof. unfold evm_block_number. solve_quietly. Qed.

Lemma handle_writes {B} (o : StorageOp B) : plain o → at_most_writes (op_write o) (handle o).
Proof.
  destruct o; cbn; intros Ho; try done.
  all: try (apply quietly_writes; first [apply quietly_block_number|solve [auto with evm]|
    cbv delta [evm_sload evm_tload evm_with_account_info] beta zeta; solve_quietly]).
  - unfold evm_set_code. repeat (apply amw_before; [solve [solve_quietly]|intros]).
    apply amw_after; [apply (amw_write _ (λ s, put_info address (info_with_code code (st_info s address)) s));
      apply set_code_law|solve_quietly].
  - unfold evm_sstore. apply amw_before; [solve_quietly|intros]. apply amw_after; [|solve_quietly].
    apply amw_journal. intros j r j' ?%sstore_law. done.
  - unfold evm_tstore. repeat (apply amw_before; [solve [solve_quietly]|intros]). apply amw_write, tstore_law.
  - unfold evm_emit_event. repeat (apply amw_before; [solve [solve_quietly]|intros]). apply amw_write, log_law.
Qed.

Lemma handle_answers {B} (o : StorageOp B) p b p' :
  handle o p = (Ok b, p') → op_answer o (evm_spec p) (block_env (internals p)) (journal_state (internals p)) b.
Proof.
  destruct o; cbn -[evm_sload evm_tload evm_with_account_info evm_block_number]; intros Hrun; try done;
    try (injection Hrun as <- _; done).
  - apply pv_bind_ok in Hrun as (n & p1 & [= <- <-] & Hrun). cbn beta in Hrun.
    case_match; [|done]. by injection Hrun as <- _.
  - apply pv_bind_ok in Hrun as (gp & p1 & [= <- <-] & Hrun).
    apply pv_bind_ok in Hrun as (acc & p1 & H1 & Hrun). apply quietly_skip_cold in H1 as (Q1 & _ & _).
    apply pv_bind_ok in Hrun as (? & p2 & H2 & Hrun). apply quietly_deduct in H2 as (Q2 & _ & _).
    apply pv_bind_ok in Hrun as (? & p3 & H3 & Hrun).
    apply (quietly_when _ _ (quietly_deduct _)) in H3 as (Q3 & _ & _).
    unfold on_journal in Hrun. destruct (load_code _ _) as [[i|] j] eqn:Hj; simplify_eq.
    apply load_code_law in Hj as [_ Hj]. rewrite (Hj _ eq_refl). congruence.
  - apply pv_bind_ok in Hrun as (gp & p1 & [= <- <-] & Hrun).
    apply pv_bind_ok in Hrun as (acc & p1 & H1 & Hrun). apply quietly_load_account in H1 as (Q1 & _ & _).
    apply pv_bind_ok in Hrun as ([v c] & p2 & H2 & Hrun).
    unfold on_journal in H2. destruct (account_sload _ _ _ _) as [[vc|] j] eqn:Hj; simplify_eq.
    apply sload_law in Hj as [_ Hj]. rewrite <- Q1, <- (Hj _ _ eq_refl).
    apply pv_bind_ok in Hrun as (? & p3 & _ & Hrun). apply pv_bind_ok in Hrun as (? & p4 & _ & Hrun).
    by injection Hrun as <- _.
  - apply pv_bind_ok in Hrun as (gp & p1 & [= <- <-] & Hrun).
    apply pv_bind_ok in Hrun as (? & p1 & H1 & Hrun). apply quietly_deduct in H1 as (Q1 & _ & _).
    injection Hrun as <- _. rewrite tload_law. by rewrite Q1.
Qed.

(** ** Guards *)
Lemma enter_storage_checkpoint p :
  enter storage_checkpoint p =
  if is_t1c (evm_spec p)
  then let '(cp, j) := internals_checkpoint (internals p) in
       (Ok (Some cp), with_stack ((journal_i cp, log_i cp) :: checkpoint_stack p) (with_internals j p))
  else (Ok None, p).
Proof.
  unfold storage_checkpoint. cbn. destruct (is_t1c (evm_spec p)); cbn; [|done].
  unfold evm_checkpoint, mbind, PV_bind. destruct (internals_checkpoint _) as [cp j]. done.
Qed.
Lemma resolve_top p cp rest (f : Journal → Journal) :
  checkpoint_stack p = (journal_i cp, log_i cp) :: rest →
  (assert_lifo cp;; with_journal f) p = (Ok tt, with_internals (f (internals p)) (with_stack rest p)).
Proof.
  intros Hst. unfold mbind, PV_bind, assert_lifo. rewrite Hst. cbn. rewrite bool_decide_true by done. done.
Qed.
Lemma enter_commit p cp rest :
  checkpoint_stack p = (journal_i cp, log_i cp) :: rest →
  enter (guard_commit (Some cp)) p =
  (Ok tt, with_internals (internals_checkpoint_commit (internals p)) (with_stack rest p)).
Proof. intros Hst. cbn. unfold evm_checkpoint_commit. by erewrite resolve_top. Qed.
Lemma enter_drop p cp rest :
  checkpoint_stack p = (journal_i cp, log_i cp) :: rest →
  enter (guard_drop (Some cp)) p =
  (Ok tt, with_internals (internals_checkpoint_revert cp (internals p)) (with_stack rest p)).
Proof. intros Hst. cbn. unfold evm_checkpoint_revert. by erewrite resolve_top. Qed.

(** A guard around a body that steps in balance: after a commit the state is the body's, after a
    drop the one before, from the hard fork on that has checkpoints. *)
Lemma guarded_run {A} (body : Prog A) p r p' :
  provider_ok p →
  (∀ p1 r1 p1', provider_ok p1 → enter body p1 = (r1, p1') → r1 ≠ Err Aborted ∧ evm_step p1 p1') →
  enter (guarded body) p = (r, p') →
  r ≠ Err Aborted ∧ evm_step p p' ∧
  ∃ g p1 p1', enter storage_checkpoint p = (Ok g, p1) ∧ provider_ok p1 ∧ settings_kept p p1 ∧ gas_tracker p1 = gas_tracker p ∧
    journal_state (internals p1) = journal_state (internals p) ∧ enter body p1 = (r, p1') ∧
    gas_tracker p' = gas_tracker p1' ∧ journal_state (internals p') =
      if is_t1c (evm_spec p) && negb (is_ok r) then journal_state (internals p) else journal_state (internals p1').
Proof.
  intros Hok Hbody. rewrite enter_guarded, enter_storage_checkpoint. destruct (is_t1c (evm_spec p)) eqn:Ht1c; cbn [andb].
  - destruct (internals_checkpoint (internals p)) as [cp j] eqn:Hcp. apply checkpoint_law in Hcp as (C1 & C2 & C3).
    set (p1 := with_stack _ _). intros Hrun.
    assert (Hok1 : provider_ok p1).
    { destruct Hok as [Hg Hn Hst]. split; cbn; [done|by rewrite C2|]. rewrite C3. by apply prefix_cons. }
    destruct (enter body p1) as [r1 p2] eqn:Hb. destruct (Hbody _ _ _ Hok1 Hb) as [Hne [Hset Hst2 Hop2 Hme2]].
    assert (Hstack : checkpoint_stack p2 = (journal_i cp, log_i cp) :: checkpoint_stack p) by done.
    assert (Hopen : open_checkpoints (internals p2) = (cp, journal_state (internals p)) :: open_checkpoints (internals p)).
    { rewrite Hop2. cbn. done. }
    assert (Hkept : settings_kept p p1) by (split; cbn; done).
    assert (Hend : ∀ j3, block_env j3 = block_env (internals p2) → open_checkpoints j3 = open_checkpoints (internals p) →
      evm_step p (with_internals j3 (with_stack (checkpoint_stack p) p2))).
    { intros j3 He Ho. split; cbn; [|done..].
      destruct Hset as [S1 S2 S3 S4]. split; cbn; rewrite ?S1, ?S2, ?S3, ?He, ?S4; try done. }
    destruct (commit_law _ _ _ _ Hopen) as (K1 & K2 & K3). destruct (revert_law _ _ _ _ Hopen) as (R1 & R2 & R3).
    destruct r1 as [a|e].
    + rewrite (enter_commit _ _ _ Hstack) in Hrun. simplify_eq. split; [done|]. split; [by apply Hend|].
      exists (Some cp), p1, p2. done.
    + replace (r, p') with (match enter (guard_drop (Some cp)) p2 with (Ok _, p3) => (Err e, p3) | (Err e', p3) => (@Err _ A e', p3) end)
        by (rewrite <- Hrun; destruct e; done).
      rewrite (enter_drop _ _ _ Hstack) in *. destruct e; simplify_eq; (split; [done|]); (split; [by apply Hend|]);
        exists (Some cp), p1, p2; done.
  - intros Hrun. destruct (enter body p) as [r1 p2] eqn:Hb. destruct (Hbody _ _ _ Hok Hb) as [Hne Hstep].
    assert (r = r1 ∧ p' = p2) as [-> ->] by (destruct r1 as [|[]]; cbn in Hrun; by simplify_eq).
    split; [done|]. split; [done|]. exists None, p, p2. done.
Qed.

(** A method with guards, whatever it does, steps in balance and never panics. *)
Lemma scoped_run {A} allow inside (m : Prog A) p r p' :
  (∀ b B (o : StorageOp B), allow b B o → plain o) →
  Scoped allow inside m → provider_ok p → enter m p = (r, p') → r ≠ Err Aborted ∧ evm_step p p'.
Proof.
  intros Hplain Hm. revert p r p'.
  induction Hm as [inside A r0 Hr|inside A B o k Ho Hk IH|inside A B m k Hm IHm Hk IHk|inside A body Hb IH];
    intros p r p' Hok Hrun.
  - cbn in Hrun. simplify_eq. done.
  - cbn in Hrun. destruct (handle o p) as [r1 p1] eqn:Hh.
    apply (handle_tame o) in Hh as [Hne Hs]; [|by eapply Hplain|done].
    destruct r1 as [b|e]; [apply IH in Hrun as [? ?]; [|done|by eapply evm_step_ok]; split; [done|by etrans]|].
    assert (enter (k (Err e)) p1 = (r, p')) as Hrun' by (destruct e; done).
    apply IH in Hrun' as [? ?]; [|done|by eapply evm_step_ok]. split; [done|by etrans].
  - rewrite enter_then in Hrun. destruct (enter m p) as [r1 p1] eqn:H1. apply IHm in H1 as [Hne Hs]; [|done].
    assert (enter (k r1) p1 = (r, p')) as Hrun' by (destruct r1 as [|[]]; done).
    apply IHk in Hrun' as [? ?]; [|done|by eapply evm_step_ok]. split; [done|by etrans].
  - apply guarded_run in Hrun as (? & ? & _); [done|done|]. intros. by eapply IH.
Qed.

(** C13: Guards are atomic.  A method whose guards are balanced, run inside a guard on the EVM's
    provider, never panics on an out-of-order checkpoint and leaves the open checkpoints as they were; when it fails,
    from the hard fork on that has checkpoints, storage, transient storage, code and logs are those
    before it, whatever nested guards it committed. *)
Theorem guard_is_atomic {A} (body : Prog A) p r p' :
  Scoped any_op true body → provider_ok p → is_t1c (evm_spec p) = true → enter (guarded body) p = (r, p') →
  r ≠ Err Aborted ∧ open_checkpoints (internals p') = open_checkpoints (internals p) ∧
  checkpoint_stack p' = checkpoint_stack p ∧
  (∀ e, r = Err e → journal_state (internals p') = journal_state (internals p)).
Proof.
  intros Hb Hok Ht1c Hrun. apply guarded_run in Hrun as (Hne & [_ Hst Hop _] & g & p1 & p1' & _ & _ & _ & _ & _ & _ & _ & E);
    [|done|intros; by eapply (scoped_run any_op true); [|..]].
  do 3 (split; [done|]). intros e ->. by rewrite Ht1c in E.
Qed.
End ops.
