(* ===== verification/EvmBill.v ===== *)
(** * What a method is charged

    The bill of a run, computed from the operations and the gas schedule alone: what
    each operation owes ([op_due]), what of that the tracker can meet in order ([paid]), and the totals
    over a method ([bill]).  [scoped_bill] shows that the EVM's provider charges exactly the bill. *)
From Stdlib Require Import ZArith Lia.
From stdpp Require Import base tactics option list fin_maps gmap functions.
From S2P Require Import Prelude Base EvmStorage EvmProvider EvmLaws EvmScopes EvmFrame EvmOps.
Open Scope Z_scope.

Inductive Charge := Regular (g : Z) | StateGas (g : Z).

(** Totals: regular charges, state charges. *)
Definition totals_add (b c : Z * Z) : Z * Z := (b.1 + c.1, b.2 + c.2).
Definition charge_total (c : Charge) : Z * Z := match c with Regular g => (g, 0) | StateGas g => (0, g) end.
Definition charge_amount (c : Charge) : Z := match c with Regular g | StateGas g => g end.
Lemma totals_add_0_l b : totals_add (0, 0) b = b.
Proof. by destruct b. Qed.
Lemma totals_add_0_r b : totals_add b (0, 0) = b.
Proof. destruct b. unfold totals_add. cbn. by rewrite !Z.add_0_r. Qed.
Lemma totals_add_assoc a b c : totals_add (totals_add a b) c = totals_add a (totals_add b c).
Proof. unfold totals_add. cbn. by rewrite !Z.add_assoc. Qed.

Section bill.
Context `{RevmLaws}.
Implicit Types (p : EvmProvider) (t : GasTracker).

(** ** Charges in order *)
Definition record_charge (c : Charge) t : bool * GasTracker :=
  match c with Regular g => record_regular_cost g t | StateGas g => record_state_cost g t end.
(** The first charge that cannot be met ends them. *)
Fixpoint charge_all (cs : list Charge) t : GasTracker :=
  match cs with
  | [] => t
  | c :: cs => let '(ok, t') := record_charge c t in if ok then charge_all cs t' else t'
  end.
Fixpoint paid (cs : list Charge) t : Z * Z :=
  match cs with
  | [] => (0, 0)
  | c :: cs => let '(ok, t') := record_charge c t in if ok then totals_add (charge_total c) (paid cs t') else (0, 0)
  end.

Notation metered_by b := (metered b.1 b.2).
Lemma metered_by_trans b c t1 t2 t3 : metered_by b t1 t2 → metered_by c t2 t3 → metered_by (totals_add b c) t1 t3.
Proof. apply metered_trans. Qed.
Lemma metered_charge c ok t t' :
  0 ≤ charge_amount c → record_charge c t = (ok, t') → metered_by (if ok then charge_total c else (0, 0)) t t'.
Proof.
  destruct c as [g|g], ok; cbn; intros Hg Hc.
  - apply (metered_regular 0 0 t t g t'); [constructor|done..].
  - eapply metered_unmet_regular; [constructor|done..].
  - apply (metered_state 0 0 t t g t'); [constructor|done..].
  - eapply metered_unmet_state; [constructor|done..].
Qed.
Lemma metered_paid cs t : Forall (λ c, 0 ≤ charge_amount c) cs → metered_by (paid cs t) t (charge_all cs t).
Proof.
  intros Hcs. revert t. induction Hcs as [|c cs Hc Hcs IH]; intros t; cbn; [constructor|].
  destruct (record_charge c t) as [ok t'] eqn:Hr. apply metered_charge in Hr; [|done].
  destruct ok; [|done]. by eapply metered_by_trans.
Qed.

(** ** What an operation owes

    The charges of an operation in order, by the schedule; warm or cold as the journal says. *)
Definition when_cold (cold : bool) (g : Z) : list Charge := if cold then [Regular g] else [].
Definition op_due {B} (o : StorageOp B) p : list Charge :=
  let gp := gas_params p in
  match o with
  | SetCode a c =>
      [Regular (code_deposit_cost gp (bytecode_len c)); StateGas (code_deposit_state_gas gp (bytecode_len c))] ++
      match (load_account_mut a (internals p)).1 with
      | Ok info => if is_t4 (evm_spec p) && info_is_empty info then [Regular (create_cost gp); StateGas (create_state_gas gp)] else []
      | Err _ => []
      end
  | WithAccountInfo a =>
      match (load_account_mut_skip_cold_load a false (internals p)).1 with
      | Ok acc => Regular (warm_storage_read_cost gp) :: when_cold acc.2 (cold_account_additional_cost gp)
      | Err _ => []
      end
  | Sload a k =>
      match load_account_mut a (internals p) with
      | (Ok _, j) =>
          match (account_sload a k false j).1 with
          | Ok val => Regular (warm_storage_read_cost gp) :: when_cold val.2 (cold_storage_additional_cost gp)
          | Err _ => []
          end
      | (Err _, _) => []
      end
  | Sstore a k v =>
      match load_account_mut a (internals p) with
      | (Ok _, j) =>
          match (account_sstore a k v false j).1 with
          | Ok res => [Regular (sstore_static_gas gp); Regular (sstore_dynamic_gas gp res.1 res.2); StateGas (sstore_state_gas gp res.1)]
          | Err _ => []
          end
      | (Err _, _) => []
      end
  | Tload _ _ | Tstore _ _ _ => [Regular (warm_storage_read_cost gp)]
  | EmitEvent _ ev => [Regular (gas_LOG + log_cost gp (Z.of_nat (length (topics ev)) mod 256) (Z.of_nat (length (log_bytes ev))))]
  | DeductGas g => [Regular g]
  | _ => []
  end.

Lemma op_due_nonneg {B} (o : StorageOp B) p : gas_params_ok (gas_params p) → plain o → Forall (λ c, 0 ≤ charge_amount c) (op_due o p).
Proof.
  intros Hg Ho. unfold op_due, when_cold.
  destruct o; cbn in Ho |- *; repeat case_match; rewrite ?app_nil_r; cbn [app];
    repeat (apply Forall_cons_2; cbn); eauto with gas nocore; apply Forall_nil_2.
Qed.

(** The cases of a call of the journal or of the tracker. *)
Ltac journal_case := match goal with
  | |- context [record_regular_cost ?g ?t] => destruct (record_regular_cost g t) as [[] ?]
  | |- context [record_state_cost ?g ?t] => destruct (record_state_cost g t) as [[] ?]
  | |- context [load_account_mut ?a ?j] => destruct (load_account_mut a j) as [[?|[]] ?]
  | |- context [load_account_mut_skip_cold_load ?a ?b ?j] => destruct (load_account_mut_skip_cold_load a b j) as [[[? []]|[]] ?]
  | |- context [load_code ?a ?j] => destruct (load_code a j) as [[?|[]] ?]
  | |- context [account_sload ?a ?k ?b ?j] => destruct (account_sload a k b j) as [[[? []]|[]] ?]
  | |- context [account_sstore ?a ?k ?v ?b ?j] => destruct (account_sstore a k v b j) as [[?|[]] ?]
  | |- context [if ?b then _ else _] => destruct b
  end.

(** An operation of the provider makes exactly the charges it owes; a refund may follow. *)
Lemma handle_charges {B} (o : StorageOp B) p r p' :
  plain o → handle o p = (r, p') →
  gas_tracker p' = charge_all (op_due o p) (gas_tracker p) ∨
  ∃ g, gas_tracker p' = record_refund g (charge_all (op_due o p) (gas_tracker p)).
Proof.
  destruct o; cbn; intros Ho; try done; try (intros [= <- <-]; by left).
  all: unfold evm_block_number, evm_set_code, evm_with_account_info, evm_sload, evm_tload, evm_sstore, evm_tstore,
    evm_emit_event, mret, PV_ret, mbind, PV_bind, pv_gets, on_journal, with_journal, deduct_gas, deduct_state_gas, refund_gas,
    pv_modify, pv_fail, pv_when, when_cold; cbn.
  all: repeat (journal_case; cbn); intros; simplify_eq/=; eauto.
Qed.

(** ** The bill of a method *)
Fixpoint bill {A} (m : Prog A) p : Z * Z :=
  match m with
  | Done _ => (0, 0)
  | Step o k =>
      totals_add (paid (op_due o p) (gas_tracker p))
        match handle o p with
        | (Err Aborted, _) => (0, 0)
        | (r, p') => bill (k r) p'
        end
  end.

Lemma bill_then {A B} (m : Prog A) (k : Result A → Prog B) p :
  bill (then_result m k) p =
  totals_add (bill m p) match enter m p with (Err Aborted, _) => (0, 0) | (r, p') => bill (k r) p' end.
Proof.
  revert p. induction m as [r|C o k' IH]; intros p; cbn.
  - rewrite totals_add_0_l. by destruct r as [|[]].
  - destruct (handle o p) as [[c|e] p1]; [by rewrite IH, totals_add_assoc|].
    destruct e; rewrite ?IH, ?totals_add_assoc; try done; by rewrite !totals_add_0_r.
Qed.
Lemma bill_bind {A B} (m : Prog A) (f : A → Prog B) p :
  bill (m ≫= f) p = totals_add (bill m p) match enter m p with (Ok a, p') => bill (f a) p' | _ => (0, 0) end.
Proof. unfold mbind, Prog_bind. rewrite bill_then. by destruct (enter m p) as [[a|[]] p']. Qed.
Lemma bill_perform {B} (o : StorageOp B) p : bill (perform o) p = paid (op_due o p) (gas_tracker p).
Proof. cbn. destruct (handle o p) as [[b|[]] p']; by rewrite totals_add_0_r. Qed.

(** A guard costs nothing. *)
Lemma bill_guarded {A} (body : Prog A) p :
  bill (guarded body) p = match enter storage_checkpoint p with (Ok _, p1) => bill body p1 | _ => (0, 0) end.
Proof.
  assert (∀ g p, bill (guard_commit g) p = (0, 0)) as Hc by (intros [cp|] q; [apply bill_perform|done]).
  assert (∀ g p, bill (guard_drop g) p = (0, 0)) as Hd by (intros [cp|] q; [apply bill_perform|done]).
  assert (bill storage_checkpoint p = (0, 0)) as Hs.
  { unfold storage_checkpoint. rewrite bill_bind, bill_perform, enter_perform. cbn. destruct (is_t1c (evm_spec p)); [|done].
    cbn [bill op_due paid]. rewrite !totals_add_0_l. by repeat case_match. }
  unfold guarded. rewrite bill_bind, Hs, totals_add_0_l. destruct (enter storage_checkpoint p) as [[g|e] p1]; [|done].
  rewrite bill_then. destruct (enter body p1) as [[a|e] p2]; [|destruct e; try by rewrite totals_add_0_r].
  all: rewrite bill_bind, ?Hc, ?Hd, totals_add_0_l; etrans; [|apply totals_add_0_r]; f_equal; by repeat case_match.
Qed.

(** The provider charges the bill of a method. *)
Lemma scoped_bill {A} allow inside (m : Prog A) p r p' :
  (∀ b B (o : StorageOp B), allow b B o → plain o) →
  Scoped allow inside m → provider_ok p → enter m p = (r, p') →
  metered (bill m p).1 (bill m p).2 (gas_tracker p) (gas_tracker p').
Proof.
  intros Hplain Hm. revert p r p'.
  induction Hm as [inside A r0 Hr|inside A B o k Ho Hk IH|inside A B m k Hm IHm Hk IHk|inside A body Hb IH];
    intros p r p' Hok Hrun.
  - cbn in Hrun. simplify_eq. constructor.
  - cbn in Hrun |- *. destruct (handle o p) as [r1 p1] eqn:Hh.
    pose proof (handle_tame o (Hplain _ _ _ Ho) _ _ _ Hok Hh) as [Hne Hs].
    eapply (metered_by_trans (paid (op_due o p) (gas_tracker p)) _ _ (gas_tracker p1)).
    + pose proof (metered_paid _ (gas_tracker p) (op_due_nonneg o p (pok_gas _ Hok) (Hplain _ _ _ Ho))).
      destruct (handle_charges _ _ _ _ (Hplain _ _ _ Ho) Hh) as [->|[g ->]]; [done|]. by apply metered_refund.
    + assert (enter (k r1) p1 = (r, p')) as Hrun' by (destruct r1 as [|[]]; done).
      apply IH in Hrun'; [|done|by eapply evm_step_ok]. by destruct r1 as [|[]].
  - rewrite enter_then in Hrun. rewrite bill_then. destruct (enter m p) as [r1 p1] eqn:H1.
    pose proof (scoped_run _ _ _ _ _ _ Hplain Hm Hok H1) as [Hne Hs].
    apply IHm in H1; [|done]. eapply (metered_by_trans _ _ _ _ _ H1).
    assert (enter (k r1) p1 = (r, p')) as Hrun' by (destruct r1 as [|[]]; done).
    apply IHk in Hrun'; [|done|by eapply evm_step_ok]. by destruct r1 as [|[]].
  - apply guarded_run in Hrun as (_ & _ & g & p1 & p1' & Hcp & Hok1 & _ & <- & _ & Hrun & -> & _);
      [|done|intros; by eapply (scoped_run allow true)].
    rewrite bill_guarded, Hcp. by eapply IH.
Qed.
End bill.
