(* ===== verification/EvmSim.v ===== *)
(** * The in-memory provider against the EVM's

    A method that ran on the EVM's provider without running out of gas or into a failing database
    gives the same result on [HashMapProvider], and leaves it in the corresponding state: what the
    tests of the precompiles show holds on chain.  The snapshots of the in-memory provider do not
    hold transient storage and code, so a method must not write those inside a guard. *)
From Stdlib Require Import ZArith Lia.
From stdpp Require Import base tactics option list fin_maps gmap functions.
From S2P Require Import Prelude Base EvmStorage EvmProvider EvmLaws EvmScopes EvmFrame EvmOps.
Open Scope Z_scope.
Open Scope storage_scope.

Section sim.
Context `{RevmLaws}.
Implicit Types (p : EvmProvider) (h : HashMapProvider).

Lemma rollback_safe_plain b B (o : StorageOp B) : rollback_safe b B o → plain o.
Proof. by intros []. Qed.

(** ** Inside a guard transient storage and code stay *)
Lemma write_keeps {B} (o : StorageOp B) s :
  keeps_transient_and_code o →
  st_transient (op_write o s) = st_transient s ∧ st_info (op_write o s) = st_info s.
Proof. by destruct o. Qed.

Lemma inside_keeps {A} inside (m : Prog A) p r p' :
  Scoped rollback_safe inside m → inside = true → provider_ok p → enter m p = (r, p') →
  st_transient (journal_state (internals p')) = st_transient (journal_state (internals p)) ∧
  st_info (journal_state (internals p')) = st_info (journal_state (internals p)).
Proof.
  intros Hm. revert p r p'.
  induction Hm as [inside A r0 Hr|inside A B o k [Ho Hkeep] Hk IH|inside A B m k Hm IHm Hk IHk|inside A body Hb IH];
    intros p r p' Hin Hok Hrun.
  - cbn in Hrun. by simplify_eq.
  - cbn in Hrun. destruct (handle o p) as [r1 p1] eqn:Hh.
    pose proof (handle_tame o Ho _ _ _ Hok Hh) as [Hne Hs].
    assert (enter (k r1) p1 = (r, p')) as Hrun' by (destruct r1 as [|[]]; done).
    apply IH in Hrun' as [-> ->]; [|done..|by eapply evm_step_ok].
    destruct (handle_writes o Ho _ _ _ Hh) as [[(-> & _) _]|(-> & _)]; [done|]. by apply write_keeps, Hkeep.
  - rewrite enter_then in Hrun. destruct (enter m p) as [r1 p1] eqn:H1.
    pose proof (scoped_run _ _ _ _ _ _ rollback_safe_plain Hm Hok H1) as [Hne Hs].
    assert (enter (k r1) p1 = (r, p')) as Hrun' by (destruct r1 as [|[]]; done).
    apply IHk in Hrun' as [-> ->]; [|done..|by eapply evm_step_ok]. by eapply IHm.
  - apply guarded_run in Hrun as (_ & _ & g & p1 & p1' & _ & Hok1 & _ & _ & E1 & Hrun & _ & E2); [|done|].
    + apply IH in Hrun as [T I]; [|done..]. rewrite E1 in T, I. rewrite E2. case_match; done.
    + intros. by eapply scoped_run; [apply rollback_safe_plain|..].
Qed.

(** ** The simulation *)
Record sim p h : Prop := {
  sim_env : hm_env h = block_env (internals p);
  sim_spec : hm_spec h = evm_spec p;
  sim_storage a k : (hm_internals h).[(a, k)] = st_storage (journal_state (internals p)) (a, k);
  sim_transient a k : (transient h).[(a, k)] = st_transient (journal_state (internals p)) (a, k);
  sim_info a : account_of a h = st_info (journal_state (internals p)) a;
  sim_events a : default [] (events h !! a) = map snd (filter (λ l, l.1 = a) (st_logs (journal_state (internals p))));
  sim_no_injection : fail_on_sload h = None;
}.

(** No operation of the run failed. *)
Fixpoint no_op_fails {A} (m : Prog A) p : Prop :=
  match m with
  | Done _ => True
  | Step o k =>
      match handle o p with
      | (Ok b, p') => no_op_fails (k (Ok b)) p'
      | (Err _, _) => False
      end
  end.

Lemma no_op_fails_then {A B} (m : Prog A) (k : Result A → Prog B) p r p' :
  enter m p = (r, p') → r ≠ Err Aborted →
  no_op_fails (then_result m k) p ↔ no_op_fails m p ∧ no_op_fails (k r) p'.
Proof.
  revert p. induction m as [r0|C o k' IH]; intros p Hrun Hr; cbn in *.
  - simplify_eq. destruct r as [|[]]; naive_solver.
  - destruct (handle o p) as [[c|e] p1]; [by apply IH|naive_solver].
Qed.

Lemma mread_default {K} `{Countable K} (m : gmap K Z) k : m.[k] = default 0 (m !! k).
Proof. done. Qed.

Lemma sim_quiet p p' h :
  sim p h → settings_kept p p' → journal_state (internals p') = journal_state (internals p) → sim p' h.
Proof. intros [] [] Hs. split; rewrite ?Hs; try congruence; done. Qed.

(** One operation. *)
Lemma sim_op {B} (o : StorageOp B) p h b p' :
  plain o → provider_ok p → sim p h → handle o p = (Ok b, p') →
  ∃ h', handle o h = (Ok b, h') ∧ sim p' h' ∧ snapshots h' = snapshots h.
Proof.
  intros Ho Hok Hsim Hh.
  destruct (handle_tame o Ho _ _ _ Hok Hh) as [_ Hs]. apply step_settings in Hs.
  assert (Hw : journal_state (internals p') = op_write o (journal_state (internals p)))
    by (by destruct (handle_writes o Ho _ _ _ Hh) as [[_ [=]]|(?&_)]).
  apply handle_answers in Hh as Hans. clear Hh. destruct Hsim as [E S St Tr Inf Ev Fl].
  destruct o; cbn [op_write op_answer] in *; try match goal with u : unit |- _ => destruct u end; try done.
  all: try (eexists; split; [cbn; unfold pv_gets; rewrite ?E, ?S, ?Hans; reflexivity|]; split; [|done];
    eapply sim_quiet; [split; eassumption|done|done]).
  - eexists. split; [reflexivity|]. split; [|done]. destruct Hs.
    split; cbn; rewrite ?Hw; cbn; try congruence; try done. intros a. unfold account_of at 1. cbn.
    destruct (decide (address = a)) as [->|Hne]; [by rewrite lookup_insert_eq, fn_lookup_insert, Inf|].
    rewrite lookup_insert_ne, fn_lookup_insert_ne by done. apply Inf.
  - eexists. split; [cbn; unfold hm_with_account_info; rewrite (Inf address), <- Hans; reflexivity|]. split; [|done].
    destruct Hs. split; cbn; rewrite ?Hw; try congruence; try done. intros a. unfold account_of at 1. cbn.
    destruct (decide (address = a)) as [->|Hne]; [by rewrite lookup_insert_eq|]. rewrite lookup_insert_ne by done. apply Inf.
  - eexists. split; [cbn; unfold hm_sload; rewrite bool_decide_false by (by rewrite Fl); by rewrite St, <- Hans|].
    split; [|done]. destruct Hs. split; cbn; rewrite ?Hw; try congruence; done.
  - eexists. split; [cbn; unfold hm_tload, pv_gets; by rewrite Tr, <- Hans|].
    split; [|done]. destruct Hs. split; cbn; rewrite ?Hw; try congruence; done.
  - eexists. split; [reflexivity|]. split; [|done]. destruct Hs.
    split; cbn; rewrite ?Hw; cbn; try congruence; try done. intros a k.
    rewrite mread_default. destruct (decide ((address, key) = (a, k))) as [[= -> ->]|Hne];
      [by rewrite lookup_insert_eq, fn_lookup_insert|].
    rewrite lookup_insert_ne, fn_lookup_insert_ne by done. apply St.
  - eexists. split; [reflexivity|]. split; [|done]. destruct Hs.
    split; cbn; rewrite ?Hw; cbn; try congruence; try done. intros a k.
    rewrite mread_default. destruct (decide ((address, key) = (a, k))) as [[= -> ->]|Hne];
      [by rewrite lookup_insert_eq, fn_lookup_insert|].
    rewrite lookup_insert_ne, fn_lookup_insert_ne by done. apply Tr.
  - eexists. split; [reflexivity|]. split; [|done]. destruct Hs.
    split; cbn; rewrite ?Hw; cbn; try congruence; try done. intros a.
    rewrite list.filter_app, map_app. destruct (decide (address = a)) as [->|Hne].
    + rewrite lookup_insert_eq. rewrite list.filter_cons_True, list.filter_nil by done. cbn. by rewrite Ev.
    + rewrite lookup_insert_ne by done. rewrite list.filter_cons_False, list.filter_nil by done. cbn. rewrite app_nil_r. apply Ev.
Qed.

(** A guard: the snapshot taken when it is made is the one it finds when it is resolved. *)
Lemma hm_checkpoint_step h :
  enter storage_checkpoint h =
  if is_t1c (hm_spec h)
  then (Ok (Some (mkCheckpoint 0 (Z.of_nat (length (snapshots h))) 0)),
        set_snapshots (snapshots h ++ [mkSnapshot (hm_internals h) (events h)]) h)
  else (Ok None, h).
Proof. unfold storage_checkpoint. cbn. by destruct (is_t1c (hm_spec h)). Qed.
Lemma hm_commit_step h l x :
  snapshots h = l ++ [x] →
  enter (guard_commit (Some (mkCheckpoint 0 (Z.of_nat (length l)) 0))) h = (Ok tt, set_snapshots l h).
Proof.
  intros Hs. cbn. unfold hm_checkpoint_commit, mbind, PV_bind, hm_assert_top. rewrite Hs, length_app. cbn.
  replace (_ =? _) with true by (symmetry; apply Z.eqb_eq; lia). cbn. rewrite Hs, length_app. cbn.
  rewrite Nat.add_sub, take_app_length. done.
Qed.
Lemma hm_drop_step h l x :
  snapshots h = l ++ [x] →
  enter (guard_drop (Some (mkCheckpoint 0 (Z.of_nat (length l)) 0))) h =
  (Ok tt, set_events (snap_events x) (set_internals (snap_internals x) (set_snapshots l h))).
Proof.
  intros Hs. cbn. unfold hm_checkpoint_revert, mbind, PV_bind, hm_assert_top. rewrite Hs, length_app. cbn.
  replace (_ =? _) with true by (symmetry; apply Z.eqb_eq; lia). cbn. rewrite Hs, Nat2Z.id, drop_app_length, take_app_length.
  done.
Qed.

Lemma sim_guarded {A} (body : Prog A) p h r p' :
  Scoped rollback_safe true body → provider_ok p → sim p h → no_op_fails (guarded body) p →
  (∀ p1 h1 r1 p1', provider_ok p1 → sim p1 h1 → no_op_fails body p1 → enter body p1 = (r1, p1') →
    ∃ h1', enter body h1 = (r1, h1') ∧ sim p1' h1' ∧ snapshots h1' = snapshots h1) →
  enter (guarded body) p = (r, p') →
  ∃ h', enter (guarded body) h = (r, h') ∧ sim p' h' ∧ snapshots h' = snapshots h.
Proof.
  intros Hbody Hok Hsim Hnf IH Hrun.
  destruct (guarded_run body p r p' Hok) as (Hne & [Hset _ _ _] & g & p1 & p1' & Hcp & Hok1 & Hset1 & _ & E1 & Hb & _ & E2);
    [intros; by eapply scoped_run; [apply rollback_safe_plain|..]|done|].
  apply (no_op_fails_then _ _ _ _ _ Hcp) in Hnf as [_ Hnf]; [|done]. cbn in Hnf.
  apply (no_op_fails_then _ _ _ _ _ Hb) in Hnf as [Hnf _]; [|done].
  rewrite enter_guarded, hm_checkpoint_step, (sim_spec _ _ Hsim). destruct (is_t1c (evm_spec p)) eqn:Ht1c; cbn [andb] in E2.
  - set (h1 := set_snapshots _ h).
    assert (Hsim1 : sim p1 h1) by (pose proof (sim_quiet _ _ _ Hsim Hset1 E1) as []; split; cbn; done).
    destruct (IH _ _ _ _ Hok1 Hsim1 Hnf Hb) as (h2 & -> & [V1 V2 V3 V4 V5 V6 V7] & Hsn).
    pose proof (scoped_run _ _ _ _ _ _ rollback_safe_plain Hbody Hok1 Hb) as [_ [S1 _ _ _]].
    pose proof (inside_keeps _ _ _ _ _ Hbody eq_refl Hok1 Hb) as [T I].
    assert (block_env (internals p') = block_env (internals p1')) as Henv
      by (rewrite (kept_env _ _ S1), (kept_env _ _ Hset), (kept_env _ _ Hset1); done).
    assert (evm_spec p' = evm_spec p1') as Hspec
      by (rewrite (kept_spec _ _ S1), (kept_spec _ _ Hset), (kept_spec _ _ Hset1); done).
    destruct r as [a|e]; cbn [negb is_ok] in E2.
    + rewrite (hm_commit_step _ _ _ Hsn). eexists. split; [done|]. split; [|done].
      split; cbn; rewrite ?E2; try congruence; done.
    + assert (e ≠ Aborted) by congruence. destruct Hsim as [W1 W2 W3 W4 W5 W6 W7].
      eexists. split; [rewrite (hm_drop_step _ _ _ Hsn); destruct e; done|]. split; [|done].
      split; cbn; rewrite ?E2; try congruence; try done.
      intros a. unfold account_of in *. cbn. rewrite V5, I. by rewrite E1.
  - destruct (IH _ _ _ _ Hok1 (sim_quiet _ _ _ Hsim Hset1 E1) Hnf Hb) as (h2 & -> & Hsim2 & Hsn).
    exists h2. assert (p' = p1') as ->.
    { rewrite enter_guarded, Hcp, Hb in Hrun. rewrite enter_storage_checkpoint, Ht1c in Hcp. simplify_eq.
      destruct r as [|[]]; cbn in Hrun; by simplify_eq. }
    split; [destruct r as [|[]]; done|done].
Qed.

(** C11: The in-memory provider simulates the EVM's.  Take a method written with guards that are
    balanced, and that writes neither transient storage nor code inside a guard.  If it runs on the EVM's provider
    with no operation failing (no gas shortage, no database error), then on an in-memory provider that
    holds the same storage, transient storage, accounts, events, block and hard fork it gives the same result, the two
    correspond again afterwards, and the snapshots of the guards are gone. *)
Theorem hashmap_simulates {A} inside (m : Prog A) p h r p' :
  Scoped rollback_safe inside m → provider_ok p → sim p h → no_op_fails m p → enter m p = (r, p') →
  ∃ h', enter m h = (r, h') ∧ sim p' h' ∧ snapshots h' = snapshots h.
Proof.
  intros Hm. revert p h r p'.
  induction Hm as [inside A r0 Hr|inside A B o k [Ho Hkeep] Hk IH|inside A B m k Hm IHm Hk IHk|inside A body Hb IH];
    intros p h r p' Hok Hsim Hnf Hrun.
  - cbn in *. simplify_eq. eauto.
  - cbn in Hrun, Hnf |- *. destruct (handle o p) as [[b|e] p1] eqn:Hh; [|done].
    destruct (sim_op o _ _ _ _ Ho Hok Hsim Hh) as (h1 & -> & Hsim1 & Hsn1).
    pose proof (handle_tame o Ho _ _ _ Hok Hh) as [_ Hs].
    destruct (IH (Ok b) ltac:(done) p1 h1 r p') as (h' & Hrun' & Hsim' & Hsn'); [by eapply evm_step_ok|done..|].
    exists h'. split; [done|]. split; [done|congruence].
  - rewrite enter_then in Hrun. rewrite enter_then. destruct (enter m p) as [r1 p1] eqn:H1.
    pose proof (scoped_run _ _ _ _ _ _ rollback_safe_plain Hm Hok H1) as [Hne Hs].
    pose proof (proj1 (no_op_fails_then _ _ _ _ _ H1 Hne) Hnf) as [Hnf1 Hnf2].
    destruct (IHm _ _ _ _ Hok Hsim Hnf1 H1) as (h1 & -> & Hsim1 & Hsn1).
    assert (enter (k r1) p1 = (r, p')) as Hrun' by (destruct r1 as [|[]]; done).
    destruct (IHk r1 Hne p1 h1 r p') as (h' & Hrun2 & Hsim' & Hsn'); [by eapply evm_step_ok|done..|].
    exists h'. split; [destruct r1 as [|[]]; done|]. split; [done|congruence].
  - by apply sim_guarded with p.
Qed.
End sim.
