(* ===== verification/Dispatch.v ===== *)
(** * Entering a precompile

    [src/crates/tempo-precompiles/src/lib.rs], with the conversion of errors ([error.rs]) and the outputs of
    [storage/thread_local.rs]: which precompile an address is, the guard against delegate calls,
    the charge for the calldata, the selectors of each hard fork, and how the result of a method
    becomes the output of the call with its gas.

    ABI encoding and the constructors of revm's output are the classes [Abi] and
    [PrecompileApi].  The functions are generic in the provider ([CallContext]). *)
From Stdlib Require Import ZArith Lia String.
From stdpp Require Import base tactics option list gmap.
From S2P Require Import Prelude Base EvmStorage EvmProvider.
Open Scope Z_scope.

(** ** Outputs *)
Inductive PrecompileHalt := HaltOutOfGas | HaltOther (msg : string).
Inductive PrecompileStatus := StatusSuccess | StatusRevert | StatusHalt (reason : PrecompileHalt).
Record PrecompileOutput := mkOutput {
  status : PrecompileStatus;
  out_gas_used : Z;
  out_gas_refunded : Z;
  out_state_gas_used : Z;
  out_reservoir : Z;
  out_bytes : Bytes;
}.
(** [PrecompileError::Fatal]; a panic ends the node. *)
Inductive PrecompileFailure := FatalFailure | PanicFailure.
Notation PrecompileResult := (result PrecompileFailure PrecompileOutput).

Class PrecompileApi := {
  output_new : Z → Bytes → Z → PrecompileOutput;
  output_revert : Z → Bytes → Z → PrecompileOutput;
  output_halt : PrecompileHalt → Z → PrecompileOutput;
}.
Class PrecompileApiLaws `{PrecompileApi} := {
  output_new_law gas bytes res :
    let o := output_new gas bytes res in
    status o = StatusSuccess ∧ out_gas_used o = gas ∧ out_bytes o = bytes ∧ out_reservoir o = res ∧
    out_state_gas_used o = 0 ∧ out_gas_refunded o = 0;
  output_revert_law gas bytes res :
    let o := output_revert gas bytes res in
    status o = StatusRevert ∧ out_gas_used o = gas ∧ out_bytes o = bytes ∧ out_reservoir o = res ∧
    out_state_gas_used o = 0 ∧ out_gas_refunded o = 0;
  output_halt_law reason res :
    let o := output_halt reason res in
    status o = StatusHalt reason ∧ out_reservoir o = res ∧ out_state_gas_used o = 0 ∧ out_gas_refunded o = 0;
}.
Definition is_success (o : PrecompileOutput) : bool :=
  match status o with StatusSuccess => true | _ => false end.

(** ** Errors *)

(** The errors that have an ABI: those of the interfaces, [Panic], and the two of [lib.rs]. *)
Inductive SolError :=
| SolDEX (e : DEXError.t)
| SolTIP20 (e : TIP20Error.t)
| SolTIP20Factory (e : TIP20FactoryError.t)
| SolRolesAuth (e : RolesAuthError.t)
| SolAddrRegistry (e : AddrRegistryError.t)
| SolTIP403 (e : TIP403Error.t)
| SolFeeManager (e : FeeManagerError.t)
| SolFeeAMM (e : FeeAMMError.t)
| SolNonce (e : NonceError.t)
| SolPanic (code : Z)
| SolValidatorConfig (e : ValidatorConfigError.t)
| SolValidatorConfigV2 (e : ValidatorConfigV2Error.t)
| SolKeychain (e : KeychainError.t)
| SolSignatureVerifier (e : SignatureVerifierError.t)
| SolUnknownFunctionSelector (selector : Z)
| SolDelegateCallNotAllowed
| SolStaticCallNotAllowed.

Class Abi := {
  sol_encode : SolError → Bytes;
  panic_code : PanicKind → Z;
  abi_encode_returns {A} : string → A → Bytes;
}.

Section results.
Context `{PrecompileApi, Abi}.

(** [TempoPrecompileError::into_precompile_result]. *)
Definition error_into_precompile_result (e : TempoPrecompileError) (gas reservoir : Z) : PrecompileResult :=
  let revert bytes : PrecompileResult := Ok (output_revert gas bytes reservoir) in
  match e with
  | StablecoinDEX e => revert (sol_encode (SolDEX e))
  | TIP20 e => revert (sol_encode (SolTIP20 e))
  | TIP20Factory e => revert (sol_encode (SolTIP20Factory e))
  | RolesAuthError e => revert (sol_encode (SolRolesAuth e))
  | AddrRegistryError e => revert (sol_encode (SolAddrRegistry e))
  | TIP403RegistryError e => revert (sol_encode (SolTIP403 e))
  | FeeManagerError e => revert (sol_encode (SolFeeManager e))
  | TIPFeeAMMError e => revert (sol_encode (SolFeeAMM e))
  | NonceError e => revert (sol_encode (SolNonce e))
  | Panic kind => revert (sol_encode (SolPanic (panic_code kind)))
  | ValidatorConfigError e => revert (sol_encode (SolValidatorConfig e))
  | ValidatorConfigV2Error e => revert (sol_encode (SolValidatorConfigV2 e))
  | AccountKeychainError e => revert (sol_encode (SolKeychain e))
  | SignatureVerifierError e => revert (sol_encode (SolSignatureVerifier e))
  | OutOfGas => Ok (output_halt HaltOutOfGas reservoir)
  | UnknownFunctionSelector selector => revert (sol_encode (SolUnknownFunctionSelector selector))
  | Fatal => Err FatalFailure
  | Aborted => Err PanicFailure
  end.

(** [Result::into_precompile_result]. *)
Definition into_precompile_result {A} (r : Result A) (gas reservoir : Z) (encode_ok : A → Bytes) : PrecompileResult :=
  match r with
  | Ok res => Ok (output_new gas (encode_ok res) reservoir)
  | Err err => error_into_precompile_result err gas reservoir
  end.
End results.

(** ** The context of a call *)
Class CallContext (P : Type) := {
  cx_spec : P → TempoHardfork;
  cx_is_static : P → bool;
  cx_gas_used : P → Z;
  cx_state_gas_used : P → Z;
  cx_gas_refunded : P → Z;
  cx_reservoir : P → Z;
  cx_deduct_gas : Z → PV P unit;
}.
Global Instance evm_context `{Revm} : CallContext EvmProvider := {|
  cx_spec := evm_spec;
  cx_is_static := evm_is_static;
  cx_gas_used p := tracker_limit (gas_tracker p) - tracker_remaining (gas_tracker p);
  cx_state_gas_used p := state_gas_spent (gas_tracker p);
  cx_gas_refunded p := tracker_refunded (gas_tracker p);
  cx_reservoir p := tracker_reservoir (gas_tracker p);
  cx_deduct_gas := deduct_gas;
|}.
Global Instance hashmap_context `{Revm} : CallContext HashMapProvider := {|
  cx_spec := hm_spec;
  cx_is_static := hm_is_static;
  cx_gas_used _ := 0;
  cx_state_gas_used _ := 0;
  cx_gas_refunded _ := 0;
  cx_reservoir _ := 0;
  cx_deduct_gas _ := mret tt;
|}.

(** The typed storage a component is modelled on, as the context of a call: like the in-memory
    provider it does not meter gas. *)
Record TypedContext (S : Type) := mkTyped {
  ty_env : Env;
  ty_beneficiary : Address;
  ty_is_static : bool;
  ty_store : S * list Log;
}.
Arguments mkTyped {S}.
Arguments ty_env {S}.
Arguments ty_beneficiary {S}.
Arguments ty_is_static {S}.
Arguments ty_store {S}.
Global Instance typed_context S : CallContext (TypedContext S) := {|
  cx_spec x := spec (ty_env x);
  cx_is_static := ty_is_static;
  cx_gas_used _ := 0;
  cx_state_gas_used _ := 0;
  cx_gas_refunded _ := 0;
  cx_reservoir _ := 0;
  cx_deduct_gas _ := mret tt;
|}.
Definition on_typed {S A} (m : M S A) : PV (TypedContext S) A := λ x,
  let '(r, st) := m (ty_env x) (ty_store x) in (r, mkTyped (ty_env x) (ty_beneficiary x) (ty_is_static x) st).

(** ** Selector schedules *)

(** The hard forks the schedules are anchored at, and the order of [TempoHardfork]. *)
Class Hardforks := {
  T1 : TempoHardfork;
  T2 : TempoHardfork;
  T3 : TempoHardfork;
  hardfork_le : TempoHardfork → TempoHardfork → bool;
  T1_le f : hardfork_le T1 f = is_t1 f;
  T2_le f : hardfork_le T2 f = is_t2 f;
  T3_le f : hardfork_le T3 f = is_t3 f;
}.

Record SelectorSchedule := mkSchedule { hardfork : TempoHardfork; added : list Z; dropped : list Z }.
Definition new_schedule (f : TempoHardfork) : SelectorSchedule := mkSchedule f [] [].
Definition with_added (selectors : list Z) (s : SelectorSchedule) : SelectorSchedule :=
  mkSchedule (hardfork s) selectors (dropped s).
Definition with_dropped (selectors : list Z) (s : SelectorSchedule) : SelectorSchedule :=
  mkSchedule (hardfork s) (added s) selectors.
Definition rejects `{Hardforks} (s : SelectorSchedule) (selector : Z) (active : TempoHardfork) : bool :=
  bool_decide (selector ∈ if hardfork_le (hardfork s) active then dropped s else added s).

(** ** Dispatch *)

(** What the generated [abi_decode] of an interface answers. *)
Inductive Decoded (T : Type) := DecodedCall (call : T) | UnknownSelector (selector : Z) | MalformedData.
Arguments DecodedCall {T}.
Arguments UnknownSelector {T}.
Arguments MalformedData {T}.

Definition INPUT_PER_WORD_COST : Z := 6.
Definition input_cost (calldata_len : Z) : Z := Z.min U64_MAX (div_ceil calldata_len 32 * INPUT_PER_WORD_COST).

(** The selector: the first four bytes, big-endian. *)
Definition selector_of (calldata : Bytes) : Z := bytes_value (take 4 calldata).

Section dispatch.
Context `{PrecompileApi, Abi, Hardforks} {P : Type} `{!CallContext P}.
Notation Handler := (P → PrecompileResult * P).

Definition success_output (output : Bytes) (p : P) : PrecompileOutput :=
  output_new (cx_gas_used p) output (cx_reservoir p).
Definition revert_output (output : Bytes) (p : P) : PrecompileOutput :=
  output_revert (cx_gas_used p) output (cx_reservoir p).
Definition abi_revert (error : SolError) (p : P) : PrecompileOutput := revert_output (sol_encode error) p.
Definition halt_output (halt : PrecompileHalt) (p : P) : PrecompileOutput := output_halt halt (cx_reservoir p).
Definition error_result (error : TempoPrecompileError) (p : P) : PrecompileResult :=
  error_into_precompile_result error (cx_gas_used p) (cx_reservoir p).

Definition metadata {A} (name : string) (f : PV P A) : Handler := λ p,
  let '(r, p') := f p in (into_precompile_result r 0 0 (abi_encode_returns name), p').
Definition view_call {A} (name : string) (f : PV P A) : Handler := λ p,
  let '(r, p') := f p in (into_precompile_result r 0 0 (abi_encode_returns name), p').
Definition static_rejection (p : P) : PrecompileResult :=
  Ok (output_revert 0 (sol_encode SolStaticCallNotAllowed) (cx_reservoir p)).
Definition mutate {A} (name : string) (f : PV P A) : Handler := λ p,
  if cx_is_static p then (static_rejection p, p)
  else let '(r, p') := f p in (into_precompile_result r 0 0 (abi_encode_returns name), p').
Definition mutate_void (f : PV P unit) : Handler := λ p,
  if cx_is_static p then (static_rejection p, p)
  else let '(r, p') := f p in (into_precompile_result r 0 0 (λ _, []), p').

Definition charge_input_cost (calldata : Bytes) (p : P) : option PrecompileResult * P :=
  match cx_deduct_gas (input_cost (Z.of_nat (length calldata))) p with
  | (Ok _, p') => (None, p')
  | (Err _, p') => (Some (Ok (halt_output HaltOutOfGas p')), p')
  end.

(** The sum of a revert is an unsigned addition, which panics when it overflows. *)
Definition fill_state_gas (o : PrecompileOutput) (p : P) : PrecompileResult :=
  if is_t4 (cx_spec p) then
    if is_success o then
      Ok (mkOutput (status o) (out_gas_used o) (cx_gas_refunded p) (cx_state_gas_used p) (cx_reservoir p) (out_bytes o))
    else
      match checked_add U64_MAX (cx_state_gas_used p) (cx_reservoir p) with
      | Some res => Ok (mkOutput (status o) (out_gas_used o) (out_gas_refunded o) 0 res (out_bytes o))
      | None => Err PanicFailure
      end
  else Ok o.
Definition set_gas_used (gas : Z) (o : PrecompileOutput) : PrecompileOutput :=
  mkOutput (status o) gas (out_gas_refunded o) (out_state_gas_used o) (out_reservoir o) (out_bytes o).

Definition dispatch_call {T} (calldata : Bytes) (hardforks : list SelectorSchedule) (decode : Bytes → Decoded T)
    (f : T → Handler) : Handler := λ p,
  if Z.of_nat (length calldata) <? 4 then
    (if is_t1 (cx_spec p) then Ok (revert_output [] p)
     else Ok (halt_output (HaltOther "Invalid input: missing function selector") p), p)
  else
    let selector := selector_of calldata in
    if existsb (λ s, rejects s selector (cx_spec p)) hardforks then
      (error_result (UnknownFunctionSelector selector) p, p)
    else
      match decode calldata with
      | DecodedCall call =>
          let '(r, p') := f call p in
          (match r with
           | Ok res => fill_state_gas (set_gas_used (cx_gas_used p') res) p'
           | Err e => Err e
           end, p')
      | UnknownSelector selector => (error_result (UnknownFunctionSelector selector) p, p)
      | MalformedData => (Ok (revert_output [] p), p)
      end.

(** [Precompile::call] after the charge for its calldata. *)
Definition charged (calldata : Bytes) (call : Handler) : Handler := λ p,
  match charge_input_cost calldata p with
  | (Some err, p') => (err, p')
  | (None, p') => call p'
  end.
End dispatch.
Arguments charged {_} {P _} calldata call p.
