(* ===== verification/Precompiles.v ===== *)
(** * The calls of the precompiles

    The [call] of each precompile ([*/dispatch.rs]): its calls, as the [sol!] interfaces of
    [src/crates/tempo-contracts-stub] declare them, and for each of them the method it runs, as a view or a
    mutation, on the typed storage of the component.  The generated decoders are the class
    [CallDecoders]; a selector is the first four bytes of the hash of the signature. *)
From Stdlib Require Import ZArith Lia String.
From stdpp Require Import base tactics option list fin_maps gmap.
From S2P Require Import Prelude Base Nonce TIP403 StorageSet AddressRegistry Keychain TIP20Ledger TIP20 FeeManager OrderBook Dex ValidatorConfig ValidatorConfigV2 EvmStorage EvmProvider Dispatch.
Open Scope Z_scope.
Open Scope storage_scope.
Open Scope string_scope.

(** ** Calls *)
Module INonce.
Inductive Calls := getNonce (account : Address) (nonceKey : Z).
End INonce.

Module IAddressRegistry.
Inductive Calls :=
| registerVirtualMaster (salt : B256)
| getMaster (masterId : Z)
| resolveRecipient (to : Address)
| resolveVirtualAddress (virtualAddr : Address)
| isVirtualAddress (addr : Address)
| decodeVirtualAddress (addr : Address).
End IAddressRegistry.

Module ITIP403Registry.
Inductive Calls :=
| policyIdCounter
| policyExists (policyId : Z)
| policyData (policyId : Z)
| isAuthorized (policyId : Z) (user : Address)
| isAuthorizedSender (policyId : Z) (user : Address)
| isAuthorizedRecipient (policyId : Z) (user : Address)
| isAuthorizedMintRecipient (policyId : Z) (user : Address)
| compoundPolicyData (policyId : Z)
| createPolicy (admin : Address) (policyType : PolicyType)
| createPolicyWithAccounts (admin : Address) (policyType : PolicyType) (accounts : list Address)
| setPolicyAdmin (policyId : Z) (admin : Address)
| modifyPolicyWhitelist (policyId : Z) (account : Address) (allowed : bool)
| modifyPolicyBlacklist (policyId : Z) (account : Address) (restricted : bool)
| createCompoundPolicy (senderPolicyId recipientPolicyId mintRecipientPolicyId : Z).
End ITIP403Registry.

Module IAccountKeychain.
Inductive Calls :=
| authorizeKey_0 (keyId : Address) (signatureType : SignatureType) (expiry : Z) (enforceLimits : bool)
    (limits : list (Address * Z))
| authorizeKey_1 (keyId : Address) (signatureType : SignatureType) (config : KeyRestrictions)
| revokeKey (keyId : Address)
| updateSpendingLimit (keyId token : Address) (newLimit : Z)
| setAllowedCalls (keyId : Address) (scopes : list CallScope)
| removeAllowedCalls (keyId target : Address)
| getKey (account keyId : Address)
| getRemainingLimit (account keyId token : Address)
| getRemainingLimitWithPeriod (account keyId token : Address)
| getAllowedCalls (account keyId : Address)
| getTransactionKey.
End IAccountKeychain.

Module IRolesAuth.
Inductive Calls :=
| hasRole (account : Address) (role : B256)
| getRoleAdmin (role : B256)
| grantRole (role : B256) (account : Address)
| revokeRole (role : B256) (account : Address)
| renounceRole (role : B256)
| setRoleAdmin (role adminRole : B256).
End IRolesAuth.

Module ITIP20.
Inductive Calls :=
| name | symbol | decimals | currency | totalSupply | supplyCap | transferPolicyId | paused
| balanceOf (account : Address)
| allowance (owner spender : Address)
| quoteToken | nextQuoteToken
| PAUSE_ROLE | UNPAUSE_ROLE | ISSUER_ROLE | BURN_BLOCKED_ROLE
| transferFrom (from to : Address) (amount : Z)
| transfer (to : Address) (amount : Z)
| approve (spender : Address) (amount : Z)
| changeTransferPolicyId (newPolicyId : Z)
| setSupplyCap (newSupplyCap : Z)
| pause | unpause
| setNextQuoteToken (newQuoteToken : Address)
| completeQuoteTokenUpdate
| mint (to : Address) (amount : Z)
| mintWithMemo (to : Address) (amount : Z) (memo : B256)
| burn (amount : Z)
| burnWithMemo (amount : Z) (memo : B256)
| burnBlocked (from : Address) (amount : Z)
| transferWithMemo (to : Address) (amount : Z) (memo : B256)
| transferFromWithMemo (from to : Address) (amount : Z) (memo : B256)
| distributeReward (amount : Z)
| setRewardRecipient (recipient : Address)
| claimRewards
| globalRewardPerToken | optedInSupply
| userRewardInfo (account : Address)
| getPendingRewards (account : Address)
| permit (owner spender : Address) (value deadline v : Z) (r s : B256)
| nonces (owner : Address)
| DOMAIN_SEPARATOR.
End ITIP20.
Inductive TIP20Call := CallTIP20 (c : ITIP20.Calls) | CallRolesAuth (c : IRolesAuth.Calls).

Module ITIP20Factory.
Inductive Calls :=
| createToken (name symbol currency : string) (quoteToken admin : Address) (salt : B256)
| isTIP20 (token : Address)
| getTokenAddress (sender : Address) (salt : B256).
End ITIP20Factory.

Module IFeeManager.
Inductive Calls :=
| userTokens (user : Address)
| validatorTokens (validator : Address)
| collectedFees (validator token : Address)
| setValidatorToken (token : Address)
| setUserToken (token : Address)
| distributeFees (validator token : Address).
End IFeeManager.
Module ITIPFeeAMM.
Inductive Calls :=
| M | N | SCALE | MIN_LIQUIDITY
| getPoolId (userToken validatorToken : Address)
| getPool (userToken validatorToken : Address)
| pools (poolId : B256)
| totalSupply (poolId : B256)
| liquidityBalances (poolId : B256) (user : Address)
| mint (userToken validatorToken : Address) (amountValidatorToken : Z) (to : Address)
| burn (userToken validatorToken : Address) (liquidity : Z) (to : Address)
| rebalanceSwap (userToken validatorToken : Address) (amountOut : Z) (to : Address).
End ITIPFeeAMM.
Inductive TipFeeManagerCall := CallFeeManager (c : IFeeManager.Calls) | CallAmm (c : ITIPFeeAMM.Calls).

Module IStablecoinDEX.
Inductive Calls :=
| place (token : Address) (amount : Z) (isBid : bool) (tick : Z)
| placeFlip (token : Address) (amount : Z) (isBid : bool) (tick flipTick : Z)
| balanceOf (user token : Address)
| getOrder (orderId : Z)
| getTickLevel (base : Address) (tick : Z) (isBid : bool)
| pairKey (tokenA tokenB : Address)
| books (pairKey : B256)
| nextOrderId
| createPair (base : Address)
| withdraw (token : Address) (amount : Z)
| cancel (orderId : Z)
| cancelStaleOrder (orderId : Z)
| swapExactAmountIn (tokenIn tokenOut : Address) (amountIn minAmountOut : Z)
| swapExactAmountOut (tokenIn tokenOut : Address) (amountOut maxAmountIn : Z)
| quoteSwapExactAmountIn (tokenIn tokenOut : Address) (amountIn : Z)
| quoteSwapExactAmountOut (tokenIn tokenOut : Address) (amountOut : Z)
| MIN_TICK | MAX_TICK | TICK_SPACING | PRICE_SCALE | MIN_ORDER_AMOUNT | MIN_PRICE | MAX_PRICE
| tickToPrice (tick : Z)
| priceToTick (price : Z).
End IStablecoinDEX.

Module IValidatorConfig.
Inductive Calls :=
| owner | getValidators | getNextFullDkgCeremony
| validatorsArray (index : Z)
| validators (validator : Address)
| validatorCount
| addValidator (newValidatorAddress : Address) (publicKey : B256) (active : bool) (inboundAddress outboundAddress : string)
| updateValidator (newValidatorAddress : Address) (publicKey : B256) (inboundAddress outboundAddress : string)
| changeValidatorStatus (validator : Address) (active : bool)
| changeValidatorStatusByIndex (index : Z) (active : bool)
| changeOwner (newOwner : Address)
| setNextFullDkgCeremony (epoch : Z).
End IValidatorConfig.

Module IValidatorConfigV2.
Inductive Calls :=
| owner | getActiveValidators | getInitializedAtHeight | validatorCount
| validatorByIndex (index : Z)
| validatorByAddress (validatorAddress : Address)
| validatorByPublicKey (publicKey : B256)
| getNextNetworkIdentityRotationEpoch | isInitialized
| addValidator (validatorAddress : Address) (publicKey : B256) (ingress egress : string) (feeRecipient : Address)
    (signature : list Z)
| deactivateValidator (idx : Z)
| rotateValidator (idx : Z) (publicKey : B256) (ingress egress : string) (signature : list Z)
| setFeeRecipient (idx : Z) (feeRecipient : Address)
| setIpAddresses (idx : Z) (ingress egress : string)
| transferValidatorOwnership (idx : Z) (newAddress : Address)
| transferOwnership (newOwner : Address)
| setNetworkIdentityRotationEpoch (epoch : Z)
| migrateValidator (idx : Z)
| initializeIfMigrated.
End IValidatorConfigV2.

Module ISignatureVerifier.
Inductive Calls :=
| recover (hash : B256) (signature : list Z)
| verify (signer : Address) (hash : B256) (signature : list Z).
End ISignatureVerifier.

Class CallDecoders := {
  decode_nonce : Bytes → Decoded INonce.Calls;
  decode_address_registry : Bytes → Decoded IAddressRegistry.Calls;
  decode_tip403 : Bytes → Decoded ITIP403Registry.Calls;
  decode_keychain : Bytes → Decoded IAccountKeychain.Calls;
  decode_roles : Bytes → Decoded IRolesAuth.Calls;
  roles_valid_selector : Z → bool;
  decode_tip20 : Bytes → Decoded ITIP20.Calls;
  decode_factory : Bytes → Decoded ITIP20Factory.Calls;
  decode_fee_manager : Bytes → Decoded IFeeManager.Calls;
  fee_manager_valid_selector : Z → bool;
  decode_amm : Bytes → Decoded ITIPFeeAMM.Calls;
  decode_dex : Bytes → Decoded IStablecoinDEX.Calls;
  decode_validator_config : Bytes → Decoded IValidatorConfig.Calls;
  decode_validator_config_v2 : Bytes → Decoded IValidatorConfigV2.Calls;
  decode_signature_verifier : Bytes → Decoded ISignatureVerifier.Calls;
}.
Definition decoded_map {A B} (f : A → B) (d : Decoded A) : Decoded B :=
  match d with
  | DecodedCall c => DecodedCall (f c)
  | UnknownSelector s => UnknownSelector s
  | MalformedData => MalformedData
  end.

(** [Call::SELECTOR] of a signature. *)
Definition SELECTOR `{Primitives} (signature : string) : Z := keccak256 (string_bytes signature) / 2 ^ 224.

Section calls.
Context `{Primitives, Ed25519, PrecompileApi, Abi, Hardforks, CallDecoders}.

(** The reads of a component, as methods. *)
Definition reads {S A} (f : Env → S → Result A) : PV (TypedContext S) A := on_typed (Base.view f).
Definition reads_ok {S A} (f : S → A) : PV (TypedContext S) A := on_typed (gets f).
Definition pure {S A} (a : A) : PV (TypedContext S) A := mret a.

(** ** NonceManager *)
Definition nonce_table (c : INonce.Calls) : TypedContext NonceManager → PrecompileResult * TypedContext NonceManager :=
  match c with
  | INonce.getNonce a k => view_call "getNonce" (reads (λ _ s, get_nonce s a k))
  end.
Definition nonce_call (calldata : Bytes) (_msg_sender : Address) :=
  charged calldata (dispatch_call calldata [] decode_nonce nonce_table).

(** ** AddressRegistry *)
Definition address_registry_table (msg_sender : Address) (c : IAddressRegistry.Calls) :
    TypedContext AddressRegistry → PrecompileResult * TypedContext AddressRegistry :=
  match c with
  | IAddressRegistry.registerVirtualMaster salt =>
      mutate "registerVirtualMaster" (on_typed (register_virtual_master msg_sender salt))
  | IAddressRegistry.getMaster id => view_call "getMaster" (reads_ok (λ s, default ZERO (get_master s id)))
  | IAddressRegistry.resolveRecipient to => view_call "resolveRecipient" (reads (λ e s, resolve_recipient e s to))
  | IAddressRegistry.resolveVirtualAddress a =>
      view_call "resolveVirtualAddress" (reads_ok (λ s, resolve_virtual_address s a))
  | IAddressRegistry.isVirtualAddress a => view_call "isVirtualAddress" (pure (addr_is_virtual a))
  | IAddressRegistry.decodeVirtualAddress a =>
      view_call "decodeVirtualAddress"
        (pure match addr_decode_virtual a with
              | Some (mid, tag) => (true, mid, tag)
              | None => (false, 0, 0)
              end)
  end.
Definition address_registry_call (calldata : Bytes) (msg_sender : Address) :=
  charged calldata (dispatch_call calldata [] decode_address_registry (address_registry_table msg_sender)).

(** ** TIP403Registry *)
Definition TIP403_T2_ADDED : list Z := map SELECTOR [
  "isAuthorizedSender(uint64,address)"; "isAuthorizedRecipient(uint64,address)";
  "isAuthorizedMintRecipient(uint64,address)"; "compoundPolicyData(uint64)";
  "createCompoundPolicy(uint64,uint64,uint64)"].
Definition tip403_table (msg_sender : Address) (c : ITIP403Registry.Calls) :
    TypedContext TIP403Registry → PrecompileResult * TypedContext TIP403Registry :=
  match c with
  | ITIP403Registry.policyIdCounter => view_call "policyIdCounter" (reads_ok policy_id_counter)
  | ITIP403Registry.policyExists id => view_call "policyExists" (reads_ok (λ s, policy_exists s id))
  | ITIP403Registry.policyData id => view_call "policyData" (reads (λ e s, policy_data e s id))
  | ITIP403Registry.isAuthorized id u => view_call "isAuthorized" (reads (λ e s, is_authorized_as e s id u Transfer))
  | ITIP403Registry.isAuthorizedSender id u =>
      view_call "isAuthorizedSender" (reads (λ e s, is_authorized_as e s id u Sender))
  | ITIP403Registry.isAuthorizedRecipient id u =>
      view_call "isAuthorizedRecipient" (reads (λ e s, is_authorized_as e s id u TIP403.Recipient))
  | ITIP403Registry.isAuthorizedMintRecipient id u =>
      view_call "isAuthorizedMintRecipient" (reads (λ e s, is_authorized_as e s id u MintRecipient))
  | ITIP403Registry.compoundPolicyData id => view_call "compoundPolicyData" (reads (λ e s, compound_policy_data e s id))
  | ITIP403Registry.createPolicy a ty => mutate "createPolicy" (on_typed (create_policy msg_sender a ty))
  | ITIP403Registry.createPolicyWithAccounts a ty accs =>
      mutate "createPolicyWithAccounts" (on_typed (create_policy_with_accounts msg_sender a ty accs))
  | ITIP403Registry.setPolicyAdmin id a => mutate_void (on_typed (set_policy_admin msg_sender id a))
  | ITIP403Registry.modifyPolicyWhitelist id a b => mutate_void (on_typed (modify_policy_whitelist msg_sender id a b))
  | ITIP403Registry.modifyPolicyBlacklist id a b => mutate_void (on_typed (modify_policy_blacklist msg_sender id a b))
  | ITIP403Registry.createCompoundPolicy i j k =>
      mutate "createCompoundPolicy" (on_typed (create_compound_policy msg_sender i j k))
  end.
Definition tip403_call (calldata : Bytes) (msg_sender : Address) :=
  charged calldata (dispatch_call calldata [with_added TIP403_T2_ADDED (new_schedule T2)] decode_tip403
    (tip403_table msg_sender)).

(** ** AccountKeychain *)
Definition AUTHORIZE_KEY_SIGNATURE : string :=
  "authorizeKey(address,uint8,(uint64,bool,(address,uint256,uint64)[],bool,(address,(bytes4,address[])[])[]))".
Definition KEYCHAIN_T3_ADDED : list Z := map SELECTOR [
  AUTHORIZE_KEY_SIGNATURE; "setAllowedCalls(address,(address,(bytes4,address[])[])[])";
  "removeAllowedCalls(address,address)"; "getRemainingLimitWithPeriod(address,address,address)";
  "getAllowedCalls(address,address)"].
Definition KEYCHAIN_T3_DROPPED : list Z := map SELECTOR ["getRemainingLimit(address,address,address)"].
Definition keychain_table (is_tip20 : Address → bool) (msg_sender : Address) (c : IAccountKeychain.Calls) :
    TypedContext AccountKeychain → PrecompileResult * TypedContext AccountKeychain :=
  match c with
  | IAccountKeychain.authorizeKey_0 k ty exp enforce lims => λ x,
      if is_t3 (spec (ty_env x)) then
        (error_result (kerr (KeychainError.LegacyAuthorizeKeySelectorChanged (SELECTOR AUTHORIZE_KEY_SIGNATURE))) x, x)
      else
        mutate_void (on_typed (authorize_key is_tip20 msg_sender k ty
          (mkRestrictions exp enforce (map (λ l, mkTokenLimit l.1 l.2 0) lims) true []))) x
  | IAccountKeychain.authorizeKey_1 k ty cfg => mutate_void (on_typed (authorize_key is_tip20 msg_sender k ty cfg))
  | IAccountKeychain.revokeKey k => mutate_void (on_typed (revoke_key msg_sender k))
  | IAccountKeychain.updateSpendingLimit k t n => mutate_void (on_typed (update_spending_limit msg_sender k t n))
  | IAccountKeychain.setAllowedCalls k scopes => mutate_void (on_typed (set_allowed_calls is_tip20 msg_sender k scopes))
  | IAccountKeychain.removeAllowedCalls k t => mutate_void (on_typed (remove_allowed_calls msg_sender k t))
  | IAccountKeychain.getKey a k => view_call "getKey" (reads_ok (λ s, get_key s a k))
  | IAccountKeychain.getRemainingLimit a k t =>
      view_call "getRemainingLimit" (reads (λ e s, Ok (get_remaining_limit e s a k t)))
  | IAccountKeychain.getRemainingLimitWithPeriod a k t =>
      view_call "getRemainingLimitWithPeriod" (reads (λ e s, Ok (get_remaining_limit_with_period e s a k t)))
  | IAccountKeychain.getAllowedCalls a k => view_call "getAllowedCalls" (reads (λ e s, Ok (get_allowed_calls e s a k)))
  | IAccountKeychain.getTransactionKey => view_call "getTransactionKey" (reads_ok transaction_key)
  end.
Definition keychain_call (is_tip20 : Address → bool) (calldata : Bytes) (msg_sender : Address) :=
  charged calldata (dispatch_call calldata
    [with_dropped KEYCHAIN_T3_DROPPED (with_added KEYCHAIN_T3_ADDED (new_schedule T3))] decode_keychain
    (keychain_table is_tip20 msg_sender)).

(** ** TIP20Token *)
Definition TIP20_DECIMALS : Z := 6.
Definition TIP20_T2_ADDED : list Z := map SELECTOR [
  "permit(address,address,uint256,uint256,uint8,bytes32,bytes32)"; "nonces(address)"; "DOMAIN_SEPARATOR()"].
Definition decode_tip20_call (calldata : Bytes) : Decoded TIP20Call :=
  if roles_valid_selector (selector_of calldata) then decoded_map CallRolesAuth (decode_roles calldata)
  else decoded_map CallTIP20 (decode_tip20 calldata).

Definition roles_table (self msg_sender : Address) (c : IRolesAuth.Calls) :
    TypedContext World → PrecompileResult * TypedContext World :=
  match c with
  | IRolesAuth.hasRole a r => view_call "hasRole" (reads_ok (λ w, has_role_internal (auth (token w self)) a r))
  | IRolesAuth.getRoleAdmin r => view_call "getRoleAdmin" (reads_ok (λ w, get_role_admin_internal (auth (token w self)) r))
  | IRolesAuth.grantRole r a => mutate_void (on_typed (at_auth self (grant_role self msg_sender r a)))
  | IRolesAuth.revokeRole r a => mutate_void (on_typed (at_auth self (revoke_role self msg_sender r a)))
  | IRolesAuth.renounceRole r => mutate_void (on_typed (at_auth self (renounce_role self msg_sender r)))
  | IRolesAuth.setRoleAdmin r a => mutate_void (on_typed (at_auth self (set_role_admin self msg_sender r a)))
  end.

Definition tip20_table (self msg_sender : Address) (c : ITIP20.Calls) :
    TypedContext World → PrecompileResult * TypedContext World :=
  let of_meta {A} (f : Metadata → A) := reads_ok (λ w, f (meta (token w self))) in
  let of_ledger {A} (f : Ledger → A) := reads_ok (λ w, f (ledger (token w self))) in
  match c with
  | ITIP20.name => metadata "name" (of_meta TIP20.name)
  | ITIP20.symbol => metadata "symbol" (of_meta TIP20.symbol)
  | ITIP20.decimals => metadata "decimals" (pure TIP20_DECIMALS)
  | ITIP20.currency => metadata "currency" (of_meta TIP20.currency)
  | ITIP20.totalSupply => metadata "totalSupply" (of_ledger total_supply)
  | ITIP20.supplyCap => metadata "supplyCap" (of_ledger supply_cap)
  | ITIP20.transferPolicyId => metadata "transferPolicyId" (of_meta transfer_policy_id)
  | ITIP20.paused => metadata "paused" (of_ledger paused)
  | ITIP20.balanceOf a => view_call "balanceOf" (of_ledger (λ l, get_balance l a))
  | ITIP20.allowance a b => view_call "allowance" (of_ledger (λ l, get_allowance l a b))
  | ITIP20.quoteToken => view_call "quoteToken" (of_meta quote_token)
  | ITIP20.nextQuoteToken => view_call "nextQuoteToken" (of_meta next_quote_token)
  | ITIP20.PAUSE_ROLE => view_call "PAUSE_ROLE" (pure PAUSE_ROLE)
  | ITIP20.UNPAUSE_ROLE => view_call "UNPAUSE_ROLE" (pure UNPAUSE_ROLE)
  | ITIP20.ISSUER_ROLE => view_call "ISSUER_ROLE" (pure ISSUER_ROLE)
  | ITIP20.BURN_BLOCKED_ROLE => view_call "BURN_BLOCKED_ROLE" (pure BURN_BLOCKED_ROLE)
  | ITIP20.transferFrom f t n => mutate "transferFrom" (on_typed (transfer_from self msg_sender f t n))
  | ITIP20.transfer t n => mutate "transfer" (on_typed (transfer self msg_sender t n))
  | ITIP20.approve a n => mutate "approve" (on_typed (approve self msg_sender a n))
  | ITIP20.changeTransferPolicyId id => mutate_void (on_typed (change_transfer_policy_id self msg_sender id))
  | ITIP20.setSupplyCap n => mutate_void (on_typed (set_supply_cap self msg_sender n))
  | ITIP20.pause => mutate_void (on_typed (pause self msg_sender))
  | ITIP20.unpause => mutate_void (on_typed (unpause self msg_sender))
  | ITIP20.setNextQuoteToken q => mutate_void (on_typed (set_next_quote_token self msg_sender q))
  | ITIP20.completeQuoteTokenUpdate => mutate_void (on_typed (complete_quote_token_update self msg_sender))
  | ITIP20.mint t n => mutate_void (on_typed (mint self msg_sender t n))
  | ITIP20.mintWithMemo t n m => mutate_void (on_typed (mint_with_memo self msg_sender t n m))
  | ITIP20.burn n => mutate_void (on_typed (burn self msg_sender n))
  | ITIP20.burnWithMemo n m => mutate_void (on_typed (burn_with_memo self msg_sender n m))
  | ITIP20.burnBlocked a n => mutate_void (on_typed (burn_blocked self msg_sender a n))
  | ITIP20.transferWithMemo t n m => mutate_void (on_typed (transfer_with_memo self msg_sender t n m))
  | ITIP20.transferFromWithMemo f t n m =>
      mutate "transferFromWithMemo" (on_typed (transfer_from_with_memo self msg_sender f t n m))
  | ITIP20.distributeReward n => mutate_void (on_typed (distribute_reward self msg_sender n))
  | ITIP20.setRewardRecipient a => mutate_void (on_typed (set_reward_recipient self msg_sender a))
  | ITIP20.claimRewards => mutate "claimRewards" (on_typed (claim_rewards self msg_sender))
  | ITIP20.globalRewardPerToken => view_call "globalRewardPerToken" (of_ledger global_reward_per_token)
  | ITIP20.optedInSupply => view_call "optedInSupply" (of_ledger opted_in_supply)
  | ITIP20.userRewardInfo a => view_call "userRewardInfo" (of_ledger (λ l, get_user_reward_info l a))
  | ITIP20.getPendingRewards a =>
      view_call "getPendingRewards" (reads (λ _ w, get_pending_rewards (ledger (token w self)) a))
  | ITIP20.permit o s v d pv r sg => mutate_void (on_typed (permit self o s v d pv r sg))
  | ITIP20.nonces o => view_call "nonces" (of_ledger (λ l, (permit_nonces l).[o]))
  | ITIP20.DOMAIN_SEPARATOR => view_call "DOMAIN_SEPARATOR" (reads (λ e w, Ok (domain_separator e w self)))
  end.
Definition tip20_call (self : Address) (calldata : Bytes) (msg_sender : Address) :=
  charged calldata (λ x : TypedContext World,
    let '(initialized, x) := reads_ok (λ w, bool_decide (self ∈ code w)) x in
    match initialized with
    | Err e => if is_t4 (spec (ty_env x)) then (error_result e x, x)
               else (error_result (TIP20 TIP20Error.Uninitialized) x, x)
    | Ok false => (error_result (TIP20 TIP20Error.Uninitialized) x, x)
    | Ok true =>
        dispatch_call calldata [with_added TIP20_T2_ADDED (new_schedule T2)] decode_tip20_call
          (λ c, match c with
                | CallTIP20 c => tip20_table self msg_sender c
                | CallRolesAuth c => roles_table self msg_sender c
                end) x
    end).

(** ** TIP20Factory *)
Definition factory_table (msg_sender : Address) (c : ITIP20Factory.Calls) :
    TypedContext World → PrecompileResult * TypedContext World :=
  match c with
  | ITIP20Factory.createToken nm sym cur q a salt =>
      mutate "createToken" (on_typed (create_token msg_sender nm sym cur q a salt))
  | ITIP20Factory.isTIP20 t => view_call "isTIP20" (reads_ok (λ w, is_tip20 w t))
  | ITIP20Factory.getTokenAddress s salt => view_call "getTokenAddress" (reads (λ _ _, get_token_address s salt))
  end.
Definition factory_call (calldata : Bytes) (msg_sender : Address) :=
  charged calldata (dispatch_call calldata [] decode_factory (factory_table msg_sender)).

(** ** TipFeeManager *)
Definition decode_fee_call (calldata : Bytes) : Decoded TipFeeManagerCall :=
  if fee_manager_valid_selector (selector_of calldata) then decoded_map CallFeeManager (decode_fee_manager calldata)
  else decoded_map CallAmm (decode_amm calldata).
Definition fee_table (msg_sender : Address) (c : IFeeManager.Calls) :
    TypedContext FeeWorld → PrecompileResult * TypedContext FeeWorld :=
  match c with
  | IFeeManager.userTokens a => view_call "userTokens" (reads_ok (λ f, (user_tokens (manager f)).[a]))
  | IFeeManager.validatorTokens a => view_call "validatorTokens" (reads_ok (λ f, get_validator_token (manager f) a))
  | IFeeManager.collectedFees v t => view_call "collectedFees" (reads_ok (λ f, (collected_fees (manager f)).[(v, t)]))
  | IFeeManager.setValidatorToken t =>
      mutate_void (λ x, on_typed (set_validator_token msg_sender t (ty_beneficiary x)) x)
  | IFeeManager.setUserToken t => mutate_void (on_typed (set_user_token msg_sender t))
  | IFeeManager.distributeFees v t => mutate_void (on_typed (distribute_fees v t))
  end.
Definition amm_table (msg_sender : Address) (c : ITIPFeeAMM.Calls) :
    TypedContext FeeWorld → PrecompileResult * TypedContext FeeWorld :=
  match c with
  | ITIPFeeAMM.M => metadata "M" (pure M_RATE)
  | ITIPFeeAMM.N => metadata "N" (pure N_RATE)
  | ITIPFeeAMM.SCALE => metadata "SCALE" (pure SCALE)
  | ITIPFeeAMM.MIN_LIQUIDITY => metadata "MIN_LIQUIDITY" (pure MIN_LIQUIDITY)
  | ITIPFeeAMM.getPoolId u v => view_call "getPoolId" (pure (pool_id u v))
  | ITIPFeeAMM.getPool u v => view_call "getPool" (reads_ok (λ f, get_pool (manager f) u v))
  | ITIPFeeAMM.pools id => view_call "pools" (reads_ok (λ f, (pools (manager f)).[id]))
  | ITIPFeeAMM.totalSupply id => view_call "totalSupply" (reads_ok (λ f, get_lp_supply (manager f) id))
  | ITIPFeeAMM.liquidityBalances id a =>
      view_call "liquidityBalances" (reads_ok (λ f, get_liquidity_balances (manager f) id a))
  | ITIPFeeAMM.mint u v n to => mutate "mint" (on_typed (amm_mint msg_sender u v n to))
  | ITIPFeeAMM.burn u v n to => mutate "burn" (on_typed (amm_burn msg_sender u v n to))
  | ITIPFeeAMM.rebalanceSwap u v n to => mutate "rebalanceSwap" (on_typed (rebalance_swap msg_sender u v n to))
  end.
Definition fee_manager_call (calldata : Bytes) (msg_sender : Address) :=
  charged calldata (dispatch_call calldata [] decode_fee_call
    (λ c, match c with
          | CallFeeManager c => fee_table msg_sender c
          | CallAmm c => amm_table msg_sender c
          end)).

(** ** StablecoinDEX *)
Definition dex_table (msg_sender : Address) (c : IStablecoinDEX.Calls) :
    TypedContext DexWorld → PrecompileResult * TypedContext DexWorld :=
  match c with
  | IStablecoinDEX.place t n b tk => mutate "place" (on_typed (place msg_sender t n b tk))
  | IStablecoinDEX.placeFlip t n b tk ft => mutate "placeFlip" (on_typed (place_flip msg_sender t n b tk ft false))
  | IStablecoinDEX.balanceOf u t => view_call "balanceOf" (reads_ok (λ x, balance_of (dex x) u t))
  | IStablecoinDEX.getOrder id => view_call "getOrder" (reads (λ _ x, get_order (dex x) id))
  | IStablecoinDEX.getTickLevel b tk bid =>
      view_call "getTickLevel" (reads (λ _ x,
        level ← get_price_level x b tk bid; Ok (head level, tail level, total_liquidity level)))
  | IStablecoinDEX.pairKey a b => view_call "pairKey" (pure (compute_book_key a b))
  | IStablecoinDEX.books k => view_call "books" (reads_ok (λ x, (books (dex x)).[k]))
  | IStablecoinDEX.nextOrderId => view_call "nextOrderId" (reads_ok (λ x, next_order_id (dex x)))
  | IStablecoinDEX.createPair b => mutate "createPair" (on_typed (create_pair b))
  | IStablecoinDEX.withdraw t n => mutate_void (on_typed (withdraw msg_sender t n))
  | IStablecoinDEX.cancel id => mutate_void (on_typed (cancel msg_sender id))
  | IStablecoinDEX.cancelStaleOrder id => mutate_void (on_typed (cancel_stale_order id))
  | IStablecoinDEX.swapExactAmountIn i o n m => mutate "swapExactAmountIn" (on_typed (swap_exact_amount_in msg_sender i o n m))
  | IStablecoinDEX.swapExactAmountOut i o n m =>
      mutate "swapExactAmountOut" (on_typed (swap_exact_amount_out msg_sender i o n m))
  | IStablecoinDEX.quoteSwapExactAmountIn i o n =>
      view_call "quoteSwapExactAmountIn" (reads (λ e x, quote_swap_exact_amount_in e x i o n))
  | IStablecoinDEX.quoteSwapExactAmountOut i o n =>
      view_call "quoteSwapExactAmountOut" (reads (λ e x, quote_swap_exact_amount_out e x i o n))
  | IStablecoinDEX.MIN_TICK => view_call "MIN_TICK" (pure MIN_TICK)
  | IStablecoinDEX.MAX_TICK => view_call "MAX_TICK" (pure MAX_TICK)
  | IStablecoinDEX.TICK_SPACING => view_call "TICK_SPACING" (pure TICK_SPACING)
  | IStablecoinDEX.PRICE_SCALE => view_call "PRICE_SCALE" (pure PRICE_SCALE)
  | IStablecoinDEX.MIN_ORDER_AMOUNT => view_call "MIN_ORDER_AMOUNT" (pure MIN_ORDER_AMOUNT)
  | IStablecoinDEX.MIN_PRICE => view_call "MIN_PRICE" (pure MIN_PRICE)
  | IStablecoinDEX.MAX_PRICE => view_call "MAX_PRICE" (pure MAX_PRICE)
  | IStablecoinDEX.tickToPrice tk => view_call "tickToPrice" (reads (λ e _, dex_tick_to_price e tk))
  | IStablecoinDEX.priceToTick p => view_call "priceToTick" (reads (λ e _, dex_price_to_tick e p))
  end.
Definition dex_call (calldata : Bytes) (msg_sender : Address) :=
  charged calldata (dispatch_call calldata [] decode_dex (dex_table msg_sender)).

(** ** ValidatorConfig *)
Definition VALIDATOR_T1_ADDED : list Z := map SELECTOR ["changeValidatorStatusByIndex(uint64,bool)"].
Definition validator_config_table (msg_sender : Address) (c : IValidatorConfig.Calls) :
    TypedContext ValidatorConfig → PrecompileResult * TypedContext ValidatorConfig :=
  match c with
  | IValidatorConfig.owner => view_call "owner" (reads_ok v1_owner)
  | IValidatorConfig.getValidators => view_call "getValidators" (reads_ok v1_get_validators)
  | IValidatorConfig.getNextFullDkgCeremony => view_call "getNextFullDkgCeremony" (reads_ok next_dkg_ceremony)
  | IValidatorConfig.validatorsArray i =>
      view_call "validatorsArray" (reads (λ _ s,
        index ← ok_or (try_into U64_MAX i) (Panic ArrayOutOfBounds);
        get_validators_array s index))
  | IValidatorConfig.validators a => view_call "validators" (reads_ok (λ s, get_validator s a))
  | IValidatorConfig.validatorCount => view_call "validatorCount" (reads_ok ValidatorConfig.v1_validator_count)
  | IValidatorConfig.addValidator a k b i o => mutate_void (on_typed (v1_add_validator msg_sender a k b i o))
  | IValidatorConfig.updateValidator a k i o => mutate_void (on_typed (update_validator msg_sender a k i o))
  | IValidatorConfig.changeValidatorStatus a b => mutate_void (on_typed (change_validator_status msg_sender a b))
  | IValidatorConfig.changeValidatorStatusByIndex i b =>
      mutate_void (on_typed (change_validator_status_by_index msg_sender i b))
  | IValidatorConfig.changeOwner a => mutate_void (on_typed (change_owner msg_sender a))
  | IValidatorConfig.setNextFullDkgCeremony n => mutate_void (on_typed (set_next_full_dkg_ceremony msg_sender n))
  end.
Definition validator_config_call (calldata : Bytes) (msg_sender : Address) :=
  charged calldata (dispatch_call calldata [with_added VALIDATOR_T1_ADDED (new_schedule T1)] decode_validator_config
    (validator_config_table msg_sender)).

(** ** ValidatorConfigV2 *)
Definition validator_config_v2_table (msg_sender : Address) (c : IValidatorConfigV2.Calls) :
    TypedContext Registries → PrecompileResult * TypedContext Registries :=
  let of_v2 {A} (f : ValidatorConfigV2 → A) := reads_ok (λ w, f (v2 w)) in
  match c with
  | IValidatorConfigV2.owner => view_call "owner" (of_v2 (λ s, owner (config s)))
  | IValidatorConfigV2.getActiveValidators => view_call "getActiveValidators" (of_v2 get_active_validators)
  | IValidatorConfigV2.getInitializedAtHeight => view_call "getInitializedAtHeight" (of_v2 (λ s, init_at_height (config s)))
  | IValidatorConfigV2.validatorCount => view_call "validatorCount" (of_v2 validator_count)
  | IValidatorConfigV2.validatorByIndex i => view_call "validatorByIndex" (reads (λ _ w, validator_by_index (v2 w) i))
  | IValidatorConfigV2.validatorByAddress a => view_call "validatorByAddress" (reads (λ _ w, validator_by_address (v2 w) a))
  | IValidatorConfigV2.validatorByPublicKey k =>
      view_call "validatorByPublicKey" (reads (λ _ w, validator_by_public_key (v2 w) k))
  | IValidatorConfigV2.getNextNetworkIdentityRotationEpoch =>
      view_call "getNextNetworkIdentityRotationEpoch" (of_v2 next_network_identity_rotation_epoch)
  | IValidatorConfigV2.isInitialized => view_call "isInitialized" (of_v2 (λ s, is_init (config s)))
  | IValidatorConfigV2.addValidator a k i e f sg =>
      mutate "addValidator" (on_typed (at_v2 (add_validator msg_sender a k i e f sg)))
  | IValidatorConfigV2.deactivateValidator i => mutate_void (on_typed (at_v2 (deactivate_validator msg_sender i)))
  | IValidatorConfigV2.rotateValidator i k n e sg => mutate_void (on_typed (at_v2 (rotate_validator msg_sender i k n e sg)))
  | IValidatorConfigV2.setFeeRecipient i a => mutate_void (on_typed (at_v2 (set_fee_recipient msg_sender i a)))
  | IValidatorConfigV2.setIpAddresses i n e => mutate_void (on_typed (at_v2 (set_ip_addresses msg_sender i n e)))
  | IValidatorConfigV2.transferValidatorOwnership i a =>
      mutate_void (on_typed (at_v2 (transfer_validator_ownership msg_sender i a)))
  | IValidatorConfigV2.transferOwnership a => mutate_void (on_typed (at_v2 (transfer_ownership msg_sender a)))
  | IValidatorConfigV2.setNetworkIdentityRotationEpoch n =>
      mutate_void (on_typed (at_v2 (set_network_identity_rotation_epoch msg_sender n)))
  | IValidatorConfigV2.migrateValidator i => mutate_void (on_typed (migrate_validator msg_sender i))
  | IValidatorConfigV2.initializeIfMigrated => mutate_void (on_typed (initialize_if_migrated msg_sender))
  end.
Definition validator_config_v2_call (calldata : Bytes) (msg_sender : Address) :=
  charged calldata (λ x : TypedContext Registries,
    if negb (is_t2 (spec (ty_env x))) then (Ok (success_output [] x), x)
    else dispatch_call calldata [] decode_validator_config_v2 (validator_config_v2_table msg_sender) x).
End calls.

(** ** SignatureVerifier

    [PrimitiveSignature] of the [tempo-primitives] crate: parsing, the type, and recovery. *)
Open Scope Z_scope.
Inductive PrimitiveSignatureType := SigSecp256k1 | SigP256 | SigWebAuthn.
Class PrimitiveSignatures := {
  PrimitiveSignature : Type;
  signature_from_bytes : Bytes → option PrimitiveSignature;
  signature_type_of : PrimitiveSignature → PrimitiveSignatureType;
  signature_recover : PrimitiveSignature → B256 → option Address;
  MAX_WEBAUTHN_SIGNATURE_LENGTH : Z;
}.
Definition SECP256K1_VERIFY_GAS : Z := 3000.
Definition P256_VERIFY_GAS : Z := 8000.
Definition WEBAUTHN_VERIFY_GAS : Z := 8000.

Section signature_verifier.
Context `{Revm, PrimitiveSignatures, PrecompileApi, Abi, Hardforks, CallDecoders}.

Definition verify_gas (ty : PrimitiveSignatureType) : Z :=
  match ty with
  | SigSecp256k1 => SECP256K1_VERIFY_GAS
  | SigP256 => P256_VERIFY_GAS
  | SigWebAuthn => WEBAUTHN_VERIFY_GAS
  end.
Definition recover (hash : B256) (signature : Bytes) : Prog Address :=
  match signature_from_bytes signature with
  | None => fail (SignatureVerifierError SignatureVerifierError.InvalidFormat)
  | Some sig =>
      perform (DeductGas (verify_gas (signature_type_of sig)));;
      match signature_recover sig hash with
      | Some signer => mret signer
      | None => fail (SignatureVerifierError SignatureVerifierError.InvalidSignature)
      end
  end.

(** [usize::next_multiple_of]. *)
Definition next_multiple_of (a b : Z) : Z := if a mod b =? 0 then a else a + (b - a mod b).
Definition MAX_CALLDATA_LEN : Z := 4 + 32 * 4 + next_multiple_of (MAX_WEBAUTHN_SIGNATURE_LENGTH + 1) 32.

Context {P : Type} `{!CallContext P, !PrecompileStorageProvider P}.
Definition signature_verifier_table (c : ISignatureVerifier.Calls) : P → PrecompileResult * P :=
  match c with
  | ISignatureVerifier.recover hash sg => view_call "recover" (λ p, enter (recover hash sg) p)
  | ISignatureVerifier.verify signer hash sg =>
      view_call "verify" (λ p, enter (sig ← recover hash sg; mret (sig =? signer)) p)
  end.
Definition signature_verifier_call (calldata : Bytes) (_msg_sender : Address) : P → PrecompileResult * P :=
  charged calldata (λ p,
    if MAX_CALLDATA_LEN <? Z.of_nat (length calldata) then
      (Ok (abi_revert (SolSignatureVerifier SignatureVerifierError.InvalidFormat) p), p)
    else dispatch_call calldata [] decode_signature_verifier signature_verifier_table p).
End signature_verifier.

(** ** Which precompile an address is *)
Definition VALIDATOR_CONFIG_ADDRESS : Address := 0xCCCCCCCC00000000000000000000000000000000.
Definition SIGNATURE_VERIFIER_ADDRESS : Address := 0x5165300000000000000000000000000000000000.

Inductive PrecompileKind :=
| KTIP20Token (address : Address) | KTIP20Factory | KAddressRegistry | KTIP403Registry | KTipFeeManager
| KStablecoinDEX | KNonceManager | KValidatorConfig | KAccountKeychain | KValidatorConfigV2 | KSignatureVerifier.

(** The lookup [extend_tempo_precompiles] installs. *)
Definition precompile_lookup `{Primitives} (sp : TempoHardfork) (address : Address) : option PrecompileKind :=
  if addr_is_tip20 address then Some (KTIP20Token address)
  else if address =? TIP20_FACTORY_ADDRESS then Some KTIP20Factory
  else if (address =? ADDRESS_REGISTRY_ADDRESS) && is_t3 sp then Some KAddressRegistry
  else if address =? TIP403_REGISTRY_ADDRESS then Some KTIP403Registry
  else if address =? TIP_FEE_MANAGER_ADDRESS then Some KTipFeeManager
  else if address =? STABLECOIN_DEX_ADDRESS then Some KStablecoinDEX
  else if address =? NONCE_PRECOMPILE_ADDRESS then Some KNonceManager
  else if address =? VALIDATOR_CONFIG_ADDRESS then Some KValidatorConfig
  else if address =? ACCOUNT_KEYCHAIN_ADDRESS then Some KAccountKeychain
  else if address =? VALIDATOR_CONFIG_V2_ADDRESS then Some KValidatorConfigV2
  else if (address =? SIGNATURE_VERIFIER_ADDRESS) && is_t3 sp then Some KSignatureVerifier
  else None.

(** [PrecompileInput]; a call is direct when it is not a delegate call. *)
Record PrecompileInput `{Revm} := mkInput {
  in_internals : Journal;
  in_data : Bytes;
  in_caller : Address;
  in_gas : Z;
  in_reservoir : Z;
  in_is_static : bool;
  is_direct_call : bool;
}.
(** [tempo_precompile!] around the [call] of a precompile. *)
Definition tempo_precompile `{Revm, PrecompileApi, Abi} (sp : TempoHardfork) (gp : GasParams)
    (call : Bytes → Address → EvmProvider → PrecompileResult * EvmProvider) (input : PrecompileInput) :
    PrecompileResult * Journal :=
  if negb (is_direct_call input) then
    (Ok (output_revert 0 (sol_encode SolDelegateCallNotAllowed) (in_reservoir input)), in_internals input)
  else
    let storage := evm_new (in_internals input) (in_gas input) (in_reservoir input) sp (in_is_static input) gp in
    let '(r, p) := call (in_data input) (in_caller input) storage in
    (r, internals p).
