(* ===== verification/DispatchProps.v ===== *)
(** * Calls of precompiles: gas, static calls, selectors, addresses *)
From Stdlib Require Import ZArith Lia String.
From stdpp Require Import base tactics option list fin_maps gmap.
From S2P Require Import Prelude Base Nonce TIP403 StorageSet AddressRegistry Keychain TIP20Ledger TIP20 FeeManager OrderBook Dex ValidatorConfig ValidatorConfigV2 EvmStorage EvmProvider EvmLaws EvmScopes EvmFrame EvmOps EvmBill Dispatch Precompiles.
Open Scope Z_scope.
Open Scope storage_scope.

(** ** Gas of a call *)
Section gas.
Context `{RevmLaws, PrecompileApiLaws, Abi, Hardforks}.
Implicit Types p : EvmProvider.

(** An entry of a dispatch table: a method behind one of the four wrappers. *)
Inductive Entry :=
| EView {A} (name : string) (m : Prog A)
| EMetadata {A} (name : string) (m : Prog A)
| EMutate {A} (name : string) (m : Prog A)
| EMutateVoid (m : Prog unit).
Definition entry_handler (e : Entry) : EvmProvider → PrecompileResult * EvmProvider :=
  match e with
  | EView name m => view_call name (enter m)
  | EMetadata name m => metadata name (enter m)
  | EMutate name m => mutate name (enter m)
  | EMutateVoid m => mutate_void (enter m)
  end.
Definition entry_scoped (e : Entry) : Prop :=
  match e with
  | EView _ m | EMetadata _ m | EMutate _ m => Scoped any_op false m
  | EMutateVoid m => Scoped any_op false m
  end.

(** The bill of a call, from the schedule: the words of the calldata, and when they can be paid, what
    the method that the calldata selects owes.  Nothing more is owed for calldata that selects none, nor for
    a method that writes in a static call. *)
Definition entry_bill (e : Entry) p : Z * Z :=
  match e with
  | EView _ m | EMetadata _ m => bill m p
  | EMutate _ m => if evm_is_static p then (0, 0) else bill m p
  | EMutateVoid m => if evm_is_static p then (0, 0) else bill m p
  end.
Definition method_bill {T} (calldata : Bytes) (scheds : list SelectorSchedule) (decode : Bytes → Decoded T)
    (entries : T → Entry) p : Z * Z :=
  if (Z.of_nat (length calldata) <? 4) || existsb (λ s, rejects s (selector_of calldata) (evm_spec p)) scheds then (0, 0)
  else match decode calldata with DecodedCall c => entry_bill (entries c) p | _ => (0, 0) end.
Definition call_bill {T} sp gp (scheds : list SelectorSchedule) (decode : Bytes → Decoded T) (entries : T → Entry)
    (input : PrecompileInput) : Z * Z :=
  let p := evm_new (in_internals input) (in_gas input) (in_reservoir input) sp (in_is_static input) gp in
  let words := Regular (input_cost (Z.of_nat (length (in_data input)))) in
  totals_add (paid [words] (gas_tracker p))
    match record_charge words (gas_tracker p) with
    | (true, t) => method_bill (in_data input) scheds decode entries (with_tracker t p)
    | (false, _) => (0, 0)
    end.

(** What a call reports before its gas is filled in. *)
Definition plain_result (r : PrecompileResult) : Prop :=
  match r with
  | Ok o => out_state_gas_used o = 0
  | Err e => e = FatalFailure
  end.
Lemma error_plain e gas res : e ≠ Aborted → plain_result (error_into_precompile_result e gas res).
Proof.
  intros He. destruct e; try done; cbn; try (apply (output_revert_law _ _ _)).
  apply (output_halt_law _ _).
Qed.
Lemma into_plain {A} (r : Result A) gas res enc : r ≠ Err Aborted → plain_result (into_precompile_result r gas res enc).
Proof. destruct r; intros Hr; cbn; [apply (output_new_law _ _ _)|apply error_plain; congruence]. Qed.

Lemma handler_step e p r p' :
  entry_scoped e → provider_ok p → entry_handler e p = (r, p') →
  plain_result r ∧ evm_step p p' ∧ metered (entry_bill e p).1 (entry_bill e p).2 (gas_tracker p) (gas_tracker p').
Proof.
  assert (Hrun : ∀ {A} (m : Prog A) enc (r : PrecompileResult) p', Scoped any_op false m → provider_ok p →
    (let '(r1, p1) := enter m p in (into_precompile_result r1 0 0 enc, p1)) = (r, p') →
    plain_result r ∧ evm_step p p' ∧ metered (bill m p).1 (bill m p).2 (gas_tracker p) (gas_tracker p')).
  { intros A m enc r0 p0 Hm Hok Hr. destruct (enter m p) as [r1 p1] eqn:He. simplify_eq.
    pose proof (scoped_bill any_op false _ _ _ _ (λ _ _ _ H, H) Hm Hok He) as Hbill.
    apply (scoped_run any_op false) in He as [Hne Hs]; [|done..]. split; [by apply into_plain|done]. }
  destruct e as [A nm m|A nm m|A nm m|m]; cbn [entry_scoped entry_handler entry_bill]; intros Hm Hok;
    unfold view_call, metadata, mutate, mutate_void; try by apply Hrun.
  all: cbn [cx_is_static evm_context]; destruct (evm_is_static p); [|by apply Hrun]; intros [= <- <-];
    split_and!; [apply (output_revert_law _ _ _)|done|constructor].
Qed.

(** The settlement of a call with regular charges [r] and state charges [s] from reservoir [res]. *)
Definition settles (res r s : Z) (o : PrecompileOutput) : Prop :=
  match status o with
  | StatusSuccess => out_gas_used o + res = r + s + out_reservoir o ∧ out_state_gas_used o = s
  | StatusRevert => out_gas_used o + res = r + out_reservoir o ∧ out_state_gas_used o = 0
  | StatusHalt _ => out_reservoir o = Z.max res s ∧ out_state_gas_used o = 0
  end.

Lemma error_settles e r s t p :
  books r s t (gas_tracker p) → tracker_limit t = tracker_remaining t → s = 0 → e ≠ Aborted →
  0 ≤ tracker_reservoir t →
  match error_result e p with Ok o => settles (tracker_reservoir t) r s o | Err f => f = FatalFailure end.
Proof.
  intros [B1 B2 B3 B4 B5] Hl -> He Hres. unfold error_result, error_into_precompile_result.
  assert (∀ b, settles (tracker_reservoir t) r 0 (output_revert (cx_gas_used p) b (cx_reservoir p))) as Hrev.
  { intros b. unfold settles. destruct (output_revert_law (cx_gas_used p) b (cx_reservoir p)) as (-> & -> & _ & -> & -> & _).
    cbn. lia. }
  destruct e; try done; try apply Hrev.
  unfold settles. destruct (output_halt_law HaltOutOfGas (cx_reservoir p)) as (-> & -> & -> & _). cbn. lia.
Qed.
Lemma revert_settles b r s t p :
  books r s t (gas_tracker p) → tracker_limit t = tracker_remaining t → s = 0 → 0 ≤ tracker_reservoir t →
  settles (tracker_reservoir t) r s (revert_output b p).
Proof.
  intros [B1 B2 B3 B4 B5] Hl -> Hres. unfold settles, revert_output.
  destruct (output_revert_law (cx_gas_used p) b (cx_reservoir p)) as (-> & -> & _ & -> & -> & _). cbn. lia.
Qed.

(** The gas filled in after a handler. *)
Lemma fill_settles r s t p o :
  books r s t (gas_tracker p) → tracker_limit t = tracker_remaining t → tracker_limit t + tracker_reservoir t ≤ U64_MAX →
  0 ≤ r → 0 ≤ s → 0 ≤ tracker_reservoir t → state_gas_spent t = 0 → is_t4 (evm_spec p) = true →
  ∃ o', fill_state_gas (set_gas_used (cx_gas_used p) o) p = Ok o' ∧ settles (tracker_reservoir t) r s o'.
Proof.
  intros [B1 B2 B3 B4 B5] Hl Hu Hr Hs Hres Hsp Ht4. unfold tracker_ok in B5. unfold fill_state_gas. cbn. rewrite Ht4.
  unfold is_success. cbn. unfold checked_add.
  destruct (Z.leb_spec (state_gas_spent (gas_tracker p) + tracker_reservoir (gas_tracker p)) U64_MAX); [|lia].
  destruct (status o); eexists; (split; [reflexivity|]); unfold settles; cbn; split; lia.
Qed.

Lemma dispatch_settles {T} calldata scheds (decode : Bytes → Decoded T) entries b t p res p' :
  (∀ c, entry_scoped (entries c)) → provider_ok p → tracker_ok t → b.2 = 0 → metered b.1 b.2 t (gas_tracker p) →
  tracker_limit t = tracker_remaining t → tracker_limit t + tracker_reservoir t ≤ U64_MAX → state_gas_spent t = 0 →
  is_t1 (evm_spec p) = true → is_t4 (evm_spec p) = true →
  dispatch_call calldata scheds decode (λ c, entry_handler (entries c)) p = (res, p') →
  let total := totals_add b (method_bill calldata scheds decode entries p) in
  metered total.1 total.2 t (gas_tracker p') ∧
  match res with Ok o => settles (tracker_reservoir t) total.1 total.2 o | Err f => f = FatalFailure end.
Proof.
  intros Htab Hok Htok Hb2 Hm Hl Hu Hsp Ht1 Ht4. pose proof Htok as (Hrem & Hrs & _).
  pose proof (metered_books _ _ _ _ Htok Hm) as Hb. unfold dispatch_call, method_bill.
  cbn [cx_spec evm_context]. rewrite Ht1. intros Hrun.
  destruct (Z.of_nat (length calldata) <? 4); [|destruct (existsb _ scheds);
    [|destruct (decode calldata) as [c|sel|]]]; cbn [orb].
  all: try by (rewrite totals_add_0_r; simplify_eq; split; [done|];
    first [by apply revert_settles|by apply error_settles]).
  destruct (entry_handler (entries c) p) as [r1 p1] eqn:Hh.
  destruct (handler_step _ _ _ _ (Htab c) Hok Hh) as (Hpl & Hst & Hm1).
  pose proof (metered_by_trans _ _ _ _ _ Hm Hm1) as Hm2.
  pose proof (metered_nonneg _ _ _ _ Hm2) as [? ?].
  destruct r1 as [o|e]; simplify_eq; [|done]. split; [done|].
  destruct (fill_settles _ _ _ _ o (metered_books _ _ _ _ Htok Hm2)) as (o' & -> & Ho'); try done.
  by rewrite (kept_spec _ _ (step_settings _ _ Hst)).
Qed.

End gas.

(** ** Static calls *)
Section static.
Context `{Primitives, Ed25519, PrecompileApi, Abi, Hardforks, CallDecoders}.

(** In a static call the context is returned as it was. *)
Definition static_safe {P} `{CallContext P} (h : P → PrecompileResult * P) : Prop :=
  ∀ x r x', cx_is_static x = true → h x = (r, x') → x' = x.

Definition keeps {P A} (f : PV P A) : Prop := ∀ x, (f x).2 = x.
Lemma keeps_typed {S A} (m : M S A) : (∀ e st, (m e st).2 = st) → keeps (on_typed m).
Proof.
  intros Hm [e b s st]. unfold on_typed. cbn. specialize (Hm e st). destruct (m e st) as [r st']. cbn in *. by subst.
Qed.
Lemma keeps_reads {S A} (f : Env → S → Result A) : keeps (reads f).
Proof. by apply keeps_typed. Qed.
Lemma keeps_reads_ok {S A} (f : S → A) : keeps (reads_ok f).
Proof. by apply keeps_typed. Qed.
Lemma keeps_pure {S A} (a : A) : keeps (pure (S := S) a).
Proof. done. Qed.

Section wrappers.
Context {P : Type} `{!CallContext P}.
Lemma static_view {A} name (f : PV P A) : keeps f → static_safe (view_call name f).
Proof. intros Hf x r x' _ Hrun. unfold view_call in Hrun. specialize (Hf x). destruct (f x). by simplify_eq/=. Qed.
Lemma static_metadata {A} name (f : PV P A) : keeps f → static_safe (metadata name f).
Proof. apply static_view. Qed.
Lemma static_mutate {A} name (f : PV P A) : static_safe (mutate name f).
Proof. intros x r x' Hs Hrun. unfold mutate in Hrun. rewrite Hs in Hrun. by simplify_eq. Qed.
Lemma static_mutate_void (f : PV P unit) : static_safe (mutate_void f).
Proof. intros x r x' Hs Hrun. unfold mutate_void in Hrun. rewrite Hs in Hrun. by simplify_eq. Qed.
Lemma static_dispatch {T} calldata scheds (decode : Bytes → Decoded T) table :
  (∀ c, static_safe (table c)) → static_safe (P := P) (dispatch_call calldata scheds decode table).
Proof.
  intros Ht x r x' Hs Hrun. unfold dispatch_call in Hrun. repeat case_match; simplify_eq; try done; by eapply Ht.
Qed.
End wrappers.
Lemma static_charged {S} calldata (h : TypedContext S → PrecompileResult * TypedContext S) :
  static_safe h → static_safe (charged calldata h).
Proof. intros Hh x r x' Hs Hrun. by eapply Hh. Qed.
End static.
Create HintDb static.
#[export] Hint Resolve static_view static_metadata static_mutate static_mutate_void keeps_reads keeps_reads_ok
  keeps_pure : static.
Ltac solve_table := intros c; destruct c; cbn; solve [eauto with static nocore].

Section static_calls.
Context `{Primitives, Ed25519, PrecompileApi, Abi, Hardforks, CallDecoders}.

Lemma keychain_table_static is_tip20 sender c : static_safe (keychain_table is_tip20 sender c).
Proof.
  destruct c; cbn; eauto with static nocore.
  intros x r x' Hs Hrun. case_match; [by simplify_eq|]. by eapply static_mutate_void.
Qed.

(** C12: Static calls write nothing.  Whatever the calldata, sender and hard fork, a static call
    of any precompile leaves its storage and its log exactly as they were: the methods that write are all behind
    the wrappers that reject static calls, and all others only read. *)
Theorem static_calls_write_nothing calldata sender self is_tip20 :
  static_safe (nonce_call calldata sender) ∧
  static_safe (address_registry_call calldata sender) ∧
  static_safe (tip403_call calldata sender) ∧
  static_safe (keychain_call is_tip20 calldata sender) ∧
  static_safe (tip20_call self calldata sender) ∧
  static_safe (factory_call calldata sender) ∧
  static_safe (fee_manager_call calldata sender) ∧
  static_safe (dex_call calldata sender) ∧
  static_safe (validator_config_call calldata sender) ∧
  static_safe (validator_config_v2_call calldata sender).
Proof.
  repeat split; apply static_charged; try (apply static_dispatch; solve_table).
  - apply static_dispatch. apply keychain_table_static.
  - intros [e b s st] r x' Hs Hrun. cbn [reads_ok on_typed gets ty_env ty_beneficiary ty_is_static ty_store] in Hrun.
    case_match; [|by simplify_eq]. eapply static_dispatch in Hrun; [done| |done].
    intros [c|c]; revert c; solve_table.
  - apply static_dispatch. intros [c|c]; revert c; solve_table.
  - intros x r x' Hs Hrun. case_match; [by simplify_eq|].
    eapply static_dispatch in Hrun; [done| |done]. solve_table.
Qed.
End static_calls.

(** ** Selectors of other hard forks *)
Section gates.
Context `{Primitives, Ed25519, PrecompileApiLaws, Abi, Hardforks, CallDecoders}.
Notation Call S := (Bytes → Address → TypedContext S → PrecompileResult * TypedContext S).

(** [call] answers the selectors that are closed at the hard fork as an unknown function and changes
    nothing; all others it decodes and runs as [open] does. *)
Definition gated {S} (call open : Call S) (closed : TempoHardfork → list string) (present : S → Prop) : Prop :=
  ∀ calldata sender x, 4 ≤ Z.of_nat (length calldata) → present (ty_store x).1 →
    call calldata sender x =
    if decide (selector_of calldata ∈ map SELECTOR (closed (spec (ty_env x))))
    then (Ok (output_revert 0 (sol_encode (SolUnknownFunctionSelector (selector_of calldata))) 0), x)
    else open calldata sender x.
(** The call reverts with [error], and nothing else happens. *)
Definition reverts_with {S} (error : SolError) (x : TypedContext S) (run : PrecompileResult * TypedContext S) : Prop :=
  ∃ o, run = (Ok o, x) ∧ status o = StatusRevert ∧ out_bytes o = sol_encode error.

Lemma dispatch_one_schedule {S T} calldata f news olds (decode : Bytes → Decoded T) table (x : TypedContext S) :
  4 ≤ Z.of_nat (length calldata) →
  dispatch_call calldata [with_dropped olds (with_added news (new_schedule f))] decode table x =
  if decide (selector_of calldata ∈ if hardfork_le f (spec (ty_env x)) then olds else news)
  then (Ok (output_revert 0 (sol_encode (SolUnknownFunctionSelector (selector_of calldata))) 0), x)
  else dispatch_call calldata [] decode table x.
Proof.
  intros Hlen. unfold dispatch_call, rejects. cbn [existsb cx_spec typed_context hardfork added dropped with_dropped with_added new_schedule].
  rewrite orb_false_r. destruct (Z.ltb_spec (Z.of_nat (length calldata)) 4); [lia|]. by case_decide; case_bool_decide.
Qed.
Lemma dispatch_added {S T} calldata f news (decode : Bytes → Decoded T) table (x : TypedContext S) :
  4 ≤ Z.of_nat (length calldata) →
  dispatch_call calldata [with_added news (new_schedule f)] decode table x =
  if decide (selector_of calldata ∈ if hardfork_le f (spec (ty_env x)) then [] else news)
  then (Ok (output_revert 0 (sol_encode (SolUnknownFunctionSelector (selector_of calldata))) 0), x)
  else dispatch_call calldata [] decode table x.
Proof. apply (dispatch_one_schedule calldata f news []). Qed.

(** A revert stays one when its gas is filled in. *)
Lemma fill_revert {S} bytes (x : TypedContext S) :
  ∃ o, fill_state_gas (set_gas_used 0 (output_revert 0 bytes 0)) x = Ok o ∧ status o = StatusRevert ∧ out_bytes o = bytes.
Proof.
  destruct (output_revert_law 0 bytes 0) as (Hs & _ & Hb & _). unfold fill_state_gas, is_success.
  cbn. rewrite Hs. destruct (is_t4 _); eexists; (split; [reflexivity|]); cbn; done.
Qed.

(** C40: Selectors are gated by the hard fork, and by nothing else.  Before T2 the policy registry does not
    know the functions of compound policies, nor the tokens [permit] and its getters; before T3 the keychain does not
    know call scopes and the [authorizeKey] with restrictions, and from T3 on not the old [getRemainingLimit];
    before T1 the first validator registry does not know the change of a status by index: such a call reverts with
    [UnknownFunctionSelector] and changes nothing, whatever its arguments, and every other selector is decoded and run.
    From T3 on, a call that decodes to the legacy [authorizeKey] reverts with the selector of the new one and
    changes nothing; before T2 any call of the second validator registry succeeds with no data, without effect. *)
Theorem selectors_gated is_tip20 self :
  gated tip403_call (λ data sender, dispatch_call data [] decode_tip403 (tip403_table sender))
    (λ f, if is_t2 f then [] else
      ["isAuthorizedSender(uint64,address)"; "isAuthorizedRecipient(uint64,address)";
       "isAuthorizedMintRecipient(uint64,address)"; "compoundPolicyData(uint64)";
       "createCompoundPolicy(uint64,uint64,uint64)"])%string (λ _, True) ∧
  gated (tip20_call self)
    (λ data sender, dispatch_call data [] decode_tip20_call
      (λ c, match c with CallTIP20 c => tip20_table self sender c | CallRolesAuth c => roles_table self sender c end))
    (λ f, if is_t2 f then [] else
      ["permit(address,address,uint256,uint256,uint8,bytes32,bytes32)"; "nonces(address)"; "DOMAIN_SEPARATOR()"])%string
    (λ w, self ∈ code w) ∧
  gated (keychain_call is_tip20) (λ data sender, dispatch_call data [] decode_keychain (keychain_table is_tip20 sender))
    (λ f, if is_t3 f then ["getRemainingLimit(address,address,address)"] else
      ["authorizeKey(address,uint8,(uint64,bool,(address,uint256,uint64)[],bool,(address,(bytes4,address[])[])[]))";
       "setAllowedCalls(address,(address,(bytes4,address[])[])[])"; "removeAllowedCalls(address,address)";
       "getRemainingLimitWithPeriod(address,address,address)"; "getAllowedCalls(address,address)"])%string (λ _, True) ∧
  gated validator_config_call (λ data sender, dispatch_call data [] decode_validator_config (validator_config_table sender))
    (λ f, if is_t1 f then [] else ["changeValidatorStatusByIndex(uint64,bool)"])%string (λ _, True) ∧
  (∀ calldata sender x key ty expiry enforce limits, 4 ≤ Z.of_nat (length calldata) → is_t3 (spec (ty_env x)) = true →
    selector_of calldata ≠ SELECTOR "getRemainingLimit(address,address,address)" →
    decode_keychain calldata = DecodedCall (IAccountKeychain.authorizeKey_0 key ty expiry enforce limits) →
    reverts_with (SolKeychain (KeychainError.LegacyAuthorizeKeySelectorChanged
      (SELECTOR "authorizeKey(address,uint8,(uint64,bool,(address,uint256,uint64)[],bool,(address,(bytes4,address[])[])[]))")))
      x (keychain_call is_tip20 calldata sender x)) ∧
  (∀ calldata sender x, is_t2 (spec (ty_env x)) = false →
    validator_config_v2_call calldata sender x = (Ok (output_new 0 [] 0), x)).
Proof.
  split_and!.
  - intros data sender x Hlen _. unfold tip403_call. etrans; [by apply dispatch_added|]. rewrite T2_le. by destruct (is_t2 _).
  - intros data sender x Hlen Hp. destruct x as [e b s st]. cbn [ty_store ty_env] in *.
    unfold tip20_call, charged, charge_input_cost. cbn. rewrite bool_decide_true by done.
    etrans; [by apply dispatch_added|]. cbn. rewrite T2_le. by destruct (is_t2 _).
  - intros data sender x Hlen _. unfold keychain_call. etrans; [by apply dispatch_one_schedule|]. rewrite T3_le. by destruct (is_t3 _).
  - intros data sender x Hlen _. unfold validator_config_call. etrans; [by apply dispatch_added|]. rewrite T1_le. by destruct (is_t1 _).
  - intros data sender x key ty expiry enforce limits Hlen Ht3 Hsel Hdec. unfold reverts_with, keychain_call.
    destruct (fill_revert (sol_encode (SolKeychain (KeychainError.LegacyAuthorizeKeySelectorChanged (SELECTOR AUTHORIZE_KEY_SIGNATURE)))) x)
      as (o & Ho & Hst & Hby). exists o. split; [|done].
    etrans; [by apply dispatch_one_schedule|]. rewrite T3_le, Ht3, decide_False.
    2: { intros Hin. apply Hsel. by apply list_elem_of_singleton in Hin. }
    unfold dispatch_call. destruct (Z.ltb_spec (Z.of_nat (length data)) 4); [lia|]. cbn [existsb]. rewrite Hdec.
    cbn [keychain_table]. rewrite Ht3. cbn in Ho |- *. by rewrite Ho.
  - intros data sender x Ht2. unfold validator_config_v2_call, charged, charge_input_cost. cbn. by rewrite Ht2.
Qed.
End gates.

(** ** Addresses *)
Definition kind_address (k : PrecompileKind) : Address :=
  match k with
  | KTIP20Token a => a
  | KTIP20Factory => TIP20_FACTORY_ADDRESS
  | KAddressRegistry => ADDRESS_REGISTRY_ADDRESS
  | KTIP403Registry => TIP403_REGISTRY_ADDRESS
  | KTipFeeManager => TIP_FEE_MANAGER_ADDRESS
  | KStablecoinDEX => STABLECOIN_DEX_ADDRESS
  | KNonceManager => NONCE_PRECOMPILE_ADDRESS
  | KValidatorConfig => VALIDATOR_CONFIG_ADDRESS
  | KAccountKeychain => ACCOUNT_KEYCHAIN_ADDRESS
  | KValidatorConfigV2 => VALIDATOR_CONFIG_V2_ADDRESS
  | KSignatureVerifier => SIGNATURE_VERIFIER_ADDRESS
  end.
Definition kind_active `{Primitives} (sp : TempoHardfork) (k : PrecompileKind) : bool :=
  match k with
  | KTIP20Token a => addr_is_tip20 a
  | KAddressRegistry | KSignatureVerifier => is_t3 sp
  | _ => true
  end.

(** The lookup is exact.  When the fixed addresses do not carry the prefix of the tokens, an
    address is answered with a precompile exactly when it is the address of that precompile, which is active at the hard
    fork: no branch of the lookup hides another, a token answers for itself only, and the address registry and the
    signature verifier do not exist before T3. *)
Theorem lookup_exact `{Primitives} sp a k :
  (∀ k', (∀ t, k' ≠ KTIP20Token t) → addr_is_tip20 (kind_address k') = false) →
  precompile_lookup sp a = Some k ↔ kind_address k = a ∧ kind_active sp k = true.
Proof.
  intros Hsep. unfold precompile_lookup. split.
  - destruct (addr_is_tip20 a) eqn:Ht; [by intros [= <-]|].
    repeat match goal with
    | |- (if ?b then _ else _) = _ → _ =>
        destruct b eqn:?; [intros [= <-]; rewrite ?andb_true_iff, Z.eqb_eq in *; destruct_and?; by subst|]
    end. done.
  - intros [<- Hact]. destruct (addr_is_tip20 (kind_address k)) eqn:Ht.
    + destruct k; [done|..]; by rewrite Hsep in Ht.
    + destruct k; cbn in *; rewrite ?Hact; congruence.
Qed.
