(* ===== verification/ErrorRegistry.v ===== *)
(** * The registry of error decoders

    [src/crates/tempo-precompiles/src/error.rs]: the map from selectors to decoders that turns revert bytes back
    into an error.  Interfaces that declare the same error (such as [Unauthorized()]) share its selector, so the order of
    registration decides whose error the bytes become. *)
From Stdlib Require Import ZArith Lia.
From stdpp Require Import base tactics option list fin_maps gmap.
From S2P Require Import Prelude Base EvmStorage Dispatch.
Open Scope Z_scope.

(** The error interfaces, in the order they are registered. *)
Inductive ErrorInterface :=
| IfaceStablecoinDEX | IfaceTIP20 | IfaceTIP20Factory | IfaceRolesAuth | IfaceAddrRegistry | IfaceTIP403Registry
| IfaceFeeManager | IfaceTIPFeeAMM | IfaceNonce | IfaceValidatorConfig | IfaceValidatorConfigV2
| IfaceAccountKeychain | IfaceSignatureVerifier.
Global Instance ErrorInterface_eq_dec : EqDecision ErrorInterface.
Proof. solve_decision. Defined.
Definition registration_order : list ErrorInterface := [
  IfaceStablecoinDEX; IfaceTIP20; IfaceTIP20Factory; IfaceRolesAuth; IfaceAddrRegistry; IfaceTIP403Registry;
  IfaceFeeManager; IfaceTIPFeeAMM; IfaceNonce; IfaceValidatorConfig; IfaceValidatorConfigV2;
  IfaceAccountKeychain; IfaceSignatureVerifier].

(** What [sol!] generates for an interface: its selectors, and its decoder with the conversion of the registration. *)
Class SolInterfaces := {
  selectors_of : ErrorInterface → list Z;
  abi_decode_of : ErrorInterface → Bytes → option TempoPrecompileError;
}.

Section registry.
Context `{SolInterfaces}.

Record DecodedError := mkDecodedError { decoded_error : TempoPrecompileError; revert_bytes : Bytes }.
Notation ErrorRegistry := (gmap Z (Bytes → option DecodedError)).

Definition decoder_of (i : ErrorInterface) : Bytes → option DecodedError :=
  λ data, e ← abi_decode_of i data; Some (mkDecodedError e data).
Definition add_errors_to_registry (i : ErrorInterface) (registry : ErrorRegistry) : ErrorRegistry :=
  foldl (λ r selector, <[selector := decoder_of i]> r) registry (selectors_of i).
Definition error_decoder_registry : ErrorRegistry :=
  foldl (λ r i, add_errors_to_registry i r) ∅ registration_order.
Definition decode_error (data : Bytes) : option DecodedError :=
  if (length data <? 4)%nat then None
  else decoder ← error_decoder_registry !! selector_of data; decoder data.

(** ** The last registration wins *)
Lemma add_lookup i sel r :
  add_errors_to_registry i r !! sel = if bool_decide (sel ∈ selectors_of i) then Some (decoder_of i) else r !! sel.
Proof.
  unfold add_errors_to_registry. revert r. induction (selectors_of i) as [|x l IH]; intros r; cbn; [done|].
  rewrite IH. destruct (decide (sel ∈ l)) as [Hin|Hin]; [rewrite !bool_decide_true by set_solver; done|].
  rewrite bool_decide_false by done. destruct (decide (x = sel)) as [->|Hne].
  - rewrite lookup_insert_eq, bool_decide_true by set_solver. done.
  - rewrite lookup_insert_ne, bool_decide_false by set_solver. done.
Qed.

Lemma fold_registry_lookup l sel r :
  foldl (λ r i, add_errors_to_registry i r) r l !! sel =
  match last (filter (λ i, sel ∈ selectors_of i) l) with
  | Some i => Some (decoder_of i)
  | None => r !! sel
  end.
Proof.
  induction l as [|i l IH] using rev_ind; [done|].
  rewrite foldl_app, list.filter_app. cbn [foldl]. rewrite add_lookup.
  destruct (decide (sel ∈ selectors_of i)) as [Hin|Hin].
  - rewrite bool_decide_true, list.filter_cons_True, list.filter_nil, last_snoc by done. done.
  - rewrite bool_decide_false, list.filter_cons_False, list.filter_nil, app_nil_r by done. apply IH.
Qed.

(** The last registered interface decides.  Revert bytes of at least four bytes are decoded by the
    last interface of the registration order that declares their selector, and by it alone; shorter bytes and unknown selectors
    decode to nothing; the raw bytes are kept.  So an error whose selector no later interface
    declares comes back as it was encoded, and the others come back as the error of another contract. *)
Theorem decode_error_last_wins data :
  decode_error data =
  if (length data <? 4)%nat then None
  else match last (filter (λ i, selector_of data ∈ selectors_of i) registration_order) with
       | Some i => (λ e, mkDecodedError e data) <$> abi_decode_of i data
       | None => None
       end.
Proof.
  unfold decode_error, error_decoder_registry. case_match; [done|]. rewrite fold_registry_lookup, lookup_empty.
  destruct (last _) as [i|]; [|done]. cbn. unfold decoder_of. by destruct (abi_decode_of i data).
Qed.
End registry.
