(* ===== verification/EvmRuns.v ===== *)
(** * Concrete runs of the providers and of dispatch *)
From Stdlib Require Import ZArith Lia String.
From stdpp Require Import base tactics option list fin_maps gmap functions.
From S2P Require Import Prelude Base TIP403 TIP20 ValidatorConfigV2 ValidatorRuns EvmStorage EvmProvider EvmLaws EvmScopes EvmFrame EvmOps EvmBill EvmSim Dispatch Precompiles DispatchProps ErrorRegistry.
Open Scope Z_scope.

(** ** Instances *)
Definition sample_fork : TempoHardfork := mkHardfork true true true true true true true.
Global Instance sample_hardforks : Hardforks := {|
  T1 := mkHardfork true true false false false false false;
  T2 := mkHardfork true true true true true false false;
  T3 := mkHardfork true true true true true true false;
  hardfork_le a b := if is_t3 a then is_t3 b else if is_t2 a then is_t2 b else if is_t1 a then is_t1 b else true;
  T1_le f := eq_refl; T2_le f := eq_refl; T3_le f := eq_refl;
|}.
Global Instance sample_api : PrecompileApi := {|
  output_new gas bytes res := mkOutput StatusSuccess gas 0 0 res bytes;
  output_revert gas bytes res := mkOutput StatusRevert gas 0 0 res bytes;
  output_halt reason res := mkOutput (StatusHalt reason) 0 0 0 res [];
|}.
Global Instance sample_api_laws : PrecompileApiLaws.
Proof. by split. Defined.
Global Instance sample_abi : Abi := {|
  sol_encode e := match e with SolTIP20 _ => [1; 2; 3; 4] | _ => [0; 0; 0; 1] end;
  panic_code k := match k with UnderOverflow => 0x11 | EnumConversionError => 0x21 | ArrayOutOfBounds => 0x32 end;
  abi_encode_returns A _ _ := [1];
|}.

Definition sample_provider : EvmProvider := evm_new sample_journal 1000000 100000 sample_fork false sample_gas_params.
Lemma sample_provider_ok : provider_ok sample_provider.
Proof. split; [apply sample_gas_ok|by vm_compute|apply prefix_nil]. Qed.

(** ** Guards

    A method that writes, commits a nested guard, and fails. *)
Definition failing_body : Prog unit :=
  perform (Sstore 1 1 5);;
  guarded (perform (Sstore 1 2 6);; perform (EmitEvent 1 (mkLogData [7] [8])));;
  perform (Tstore 1 1 9);;
  fail (TIP20 TIP20Error.InvalidAmount).
Definition failed_run : Result unit * EvmProvider := enter (guarded failing_body) sample_provider.

Example failing_body_wrote :
  let j := internals (enter failing_body sample_provider).2 in
  st_storage (journal_state j) (1, 2) = 6 ∧ length (st_logs (journal_state j)) = 1%nat.
Proof. by vm_compute. Qed.

Lemma guard_is_atomic_witness :
  failed_run.1 = Err (TIP20 TIP20Error.InvalidAmount) ∧
  journal_state (internals failed_run.2) = journal_state (internals sample_provider).
Proof.
  split; [by vm_compute|].
  assert (Hrun : enter (guarded failing_body) sample_provider = (failed_run.1, failed_run.2))
    by (unfold failed_run; apply surjective_pairing).
  pose proof (guard_is_atomic failing_body sample_provider failed_run.1 failed_run.2) as Hatomic.
  destruct Hatomic as (_ & _ & _ & Hst); [unfold failing_body; solve_scoped|apply sample_provider_ok|done|exact Hrun|].
  apply (Hst (TIP20 TIP20Error.InvalidAmount)). by vm_compute.
Defined.

(** ** The in-memory provider *)
Definition saving_method : Prog Z :=
  before ← perform (Sload 1 1);
  guarded (perform (Sstore 1 1 (before + 5));; perform (EmitEvent 1 (mkLogData [7] [8])));;
  then_result (guarded (perform (Sstore 1 1 77);; fail (TIP20 TIP20Error.InvalidAmount) : Prog unit))
    (λ _, after ← perform (Sload 1 1); perform (Tstore 1 1 after);; mret after).
Definition sample_memory : HashMapProvider :=
  mkHashMapProvider ∅ ∅ ∅ None (block_env sample_journal) sample_fork false 0 0 [] ∅.
Definition saved_run : Result Z * EvmProvider := enter saving_method sample_provider.

Lemma sample_sim : sim sample_provider sample_memory.
Proof.
  split; [reflexivity|reflexivity|intros a k; apply (mread_empty (a, k))|intros a k; apply (mread_empty (a, k))|..|reflexivity].
  - intros a. unfold account_of, sample_memory. cbn [accounts]. by rewrite lookup_empty.
  - intros a. unfold sample_memory. cbn [events]. by rewrite lookup_empty.
Qed.

Lemma hashmap_simulates_witness :
  saved_run.1 = Ok 5 ∧
  ∃ h', enter saving_method sample_memory = (saved_run.1, h') ∧ sim saved_run.2 h' ∧ snapshots h' = [].
Proof.
  split; [by vm_compute|].
  refine (hashmap_simulates false saving_method sample_provider sample_memory saved_run.1 saved_run.2 _ sample_provider_ok sample_sim _ _).
  - unfold saving_method. solve_scoped.
  - by vm_compute.
  - unfold saved_run. apply surjective_pairing.
Defined.

(** ** Gas of a reverted call

    A call that creates a slot, more state gas than the reservoir holds, and reverts. *)
Definition sample_entries (c : bool) : Entry :=
  if c then EMutateVoid (perform (Sstore 1 1 5);; fail (TIP20 TIP20Error.InvalidAmount))
  else EView "value" (perform (Sload 1 1)).
Definition sample_input : PrecompileInput :=
  mkInput sample_revm sample_journal [1; 2; 3; 4] 7 1000000 100000 false true.
Definition sample_call : PrecompileResult * Journal :=
  tempo_precompile sample_fork sample_gas_params
    (λ data caller, charged data (dispatch_call data [] (λ _, DecodedCall true) (λ c, entry_handler (sample_entries c))))
    sample_input.


(** ** The lookup *)
Lemma lookup_exact_witness :
  let sp := mkHardfork true true true true true false false in
  (precompile_lookup (H := sample_primitives) sp PATH_USD_ADDRESS = Some (KTIP20Token PATH_USD_ADDRESS) ↔
    kind_address (KTIP20Token PATH_USD_ADDRESS) = PATH_USD_ADDRESS ∧
    kind_active (H := sample_primitives) sp (KTIP20Token PATH_USD_ADDRESS) = true) ∧
  precompile_lookup (H := sample_primitives) sp SIGNATURE_VERIFIER_ADDRESS = None.
Proof.
  intros sp. split; [|by vm_compute].
  apply (lookup_exact (H := sample_primitives)). intros k' Hk. destruct k'; [by destruct (Hk address)|..]; by vm_compute.
Defined.

(** ** Colliding selectors

    Two interfaces declare [Unauthorized()]: the error of a token comes back as one of the validator registry. *)
Global Instance sample_interfaces : SolInterfaces := {|
  selectors_of i := match i with IfaceTIP20 | IfaceValidatorConfigV2 => [0x82b42900] | _ => [] end;
  abi_decode_of i data :=
    match i with
    | IfaceTIP20 => Some (TIP20 TIP20Error.Unauthorized)
    | _ => Some (ValidatorConfigV2Error ValidatorConfigV2Error.Unauthorized)
    end;
|}.
Example unauthorized_token_error :
  decode_error [0x82; 0xb4; 0x29; 0x00] =
  Some (mkDecodedError (ValidatorConfigV2Error ValidatorConfigV2Error.Unauthorized) [0x82; 0xb4; 0x29; 0x00]).
Proof. by vm_compute. Qed.

(** ** Static calls and gated selectors *)
Section typed_runs.
Local Instance runs_primitives : Primitives := sample_primitives.
Local Instance runs_ed25519 : Ed25519 := sample_ed25519.
Local Instance runs_decoders : CallDecoders := {|
  decode_nonce _ := DecodedCall (INonce.getNonce 7 1);
  decode_address_registry _ := MalformedData;
  decode_tip403 _ := DecodedCall (ITIP403Registry.createPolicy 7 WHITELIST);
  decode_keychain _ := MalformedData;
  decode_roles _ := MalformedData;
  roles_valid_selector _ := false;
  decode_tip20 _ := DecodedCall (ITIP20.transfer 9 1);
  decode_factory _ := MalformedData;
  decode_fee_manager _ := MalformedData;
  fee_manager_valid_selector _ := false;
  decode_amm _ := MalformedData;
  decode_dex _ := MalformedData;
  decode_validator_config _ := MalformedData;
  decode_validator_config_v2 _ := MalformedData;
  decode_signature_verifier _ := MalformedData;
|}.

Definition static_registry : TypedContext TIP403Registry := mkTyped (sample_env 100) 7 true (registry_empty, []).
Lemma static_calls_write_nothing_witness :
  (tip403_call [1; 2; 3; 4] 7 static_registry).2 = static_registry ∧
  (tip403_call [1; 2; 3; 4] 7 (mkTyped (sample_env 100) 7 false (registry_empty, []))).2 ≠
    mkTyped (sample_env 100) 7 false (registry_empty, []).
Proof.
  split; [|by vm_compute].
  destruct (static_calls_write_nothing [1; 2; 3; 4] 7 7 (λ _, false)) as (_ & _ & Hstatic & _).
  eapply Hstatic; [done|apply surjective_pairing].
Defined.

Definition early_fork : TempoHardfork := mkHardfork true true false false false false false.
Definition early_registry : TypedContext TIP403Registry :=
  mkTyped (mkEnv early_fork 100 1 100) 7 false (registry_empty, []).
(** The selector of [compoundPolicyData] under the hash of the samples. *)
Definition compound_calldata : Bytes := be_bytes 4 (SELECTOR "compoundPolicyData(uint64)").
Lemma selectors_gated_witness :
  tip403_call compound_calldata 7 early_registry =
  (Ok (output_revert 0 (sol_encode (SolUnknownFunctionSelector (selector_of compound_calldata))) 0), early_registry).
Proof.
  destruct (selectors_gated (λ _, false) 7) as (Hgate & _).
  rewrite (Hgate compound_calldata 7 early_registry); [|by vm_compute|done]. rewrite decide_True; [done|].
  assert (selector_of compound_calldata = SELECTOR "compoundPolicyData(uint64)") as -> by by vm_compute.
  cbn [map early_registry ty_env spec early_fork is_t2]. do 3 right. left.
Defined.
End typed_runs.
